(* ===== verification/_CoqProject ===== *)
-Q . S2P
Prelude.v
CString.v
Config.v
Proc.v
Session.v
Controller.v
ControllerFacts.v
WpRules.v
ShmProtocol.v
ShmRun.v
QemuProtocol.v
QemuRun.v
Policy.v
PolicyFacts.v
PolicyMin.v
PolicyLfu.v
PolicyLog.v
RandomWrite.v
ModArith.v
Mrg.v
MrgTable.v
Scramble.v
Kronecker.v
KroneckerFacts.v
Bytes.v
IntSet.v
IntSetFacts.v
StringMatch.v
NumString.v
NumStringFacts.v
Adlist.v
AdlistFacts.v
Listpack.v
ListpackCodec.v
ListpackLayout.v
ListpackRead.v
ListpackInsert.v
ListpackBulk.v
ListpackRun.v
Lzf.v
LzfFacts.v
LzfRun.v
Dict.v
DictChain.v
DictRep.v
DictRehash.v
DictEdit.v
DictDelete.v
DictMap.v
DictScan.v
DictIter.v
DictRun.v
Skiplist.v
SkiplistRep.v
SkiplistInsert.v
SkiplistDelete.v
SkiplistRange.v
SkiplistLife.v
SkiplistRun.v
Crc.v
CrcFacts.v
CrcRun.v
Sds.v
SdsFacts.v
SdsRep.v
SdsRoom.v
SdsOps.v
SdsEdit.v
SdsRun.v
SdsText.v
SdsQuote.v
AofManifest.v
AofManifestFacts.v
AofLog.v
AofLogFacts.v
AofServer.v
AofDisk.v
AofCrash.v
AofRewrite.v
AofRun.v
