(* ===== verification/Prelude.v ===== *)
(** * Verification of a VM migration study

    The repository measures live migration of virtual machines with a shared memory
    ("CXL") device.  Its programs are the migration controller (src/apps/controller.c),
    the simulator of write-back policies (src/fmsync_policy), and the workloads that run
    inside the migrated machine: a random writer (src/apps/random-write), the Graph500
    benchmark (src/apps/graph500) and Redis (src/apps/redis/redis-7.2.4).  This library
    models them as executable definitions and proves what they are relied on for.

    Conventions

    A C or C++ function is one definition with its name.  Integers are [Z] with the
    conversions of their width written out ([wrap_u], [wrap_s], [u32], [i64], ...).  A
    function that can fail returns [result]: a failed [assert], undefined behaviour (an
    access out of bounds, a bad iterator or pointer, a signed overflow) or, for a loop that
    no counter bounds, [OutOfFuel].  The theorems state the result itself, so they exclude
    all three.  What a loop body does is a definition of its own where the proof speaks of
    it.  Code that is not in the repository is a parameter: the kernel's replies, [rand],
    the order in which [std::unordered_map] is traversed, [std::sort], the allocator.

    Files

    - [Prelude]: tactics, machine integers, step sequences, lists, the [result] monad and
      the rules for its loops.  [CString]: C strings and the library calls on them.
      [Bytes]: memory blocks with little-endian loads and stores, [memmove], [realloc].
    - The controller.  [Config]: [get_config_value] and the settings read with it.
      [Proc]: processes as trees of system calls, signals that interrupt at every step, TCP
      connections with partial transfers, a labelled step function.  [Session]: the
      sessions of three controllers.  [Controller]: every function of controller.c.
      [ControllerFacts]: message reads, buffer sizes, the command line.  [WpRules]: the
      program logic.  [ShmProtocol], [QemuProtocol]: the two migration protocols for all
      interleavings, signals and kernel replies.  [ShmRun], [QemuRun]: complete runs.
    - The policy simulator.  [Policy]: the log reader, the three policies, [main] and the
      variant backup_policy.cc.  [PolicyFacts]: the account of a run that all policies
      follow, and LRU.  [PolicyMin]: Belady's policy and its optimality.  [PolicyLfu]: the
      frequency policy.  [PolicyLog]: files, the whole program, a run of it.
    - The random writer.  [RandomWrite]: mem_access.c and alloc.c with threads.
    - Graph500.  [ModArith]: both implementations of the modular arithmetic.  [Mrg],
      [MrgTable]: the random number generator, skipping, the table of powers.  [Scramble]:
      vertex scrambling and packed edges.  [Kronecker], [KroneckerFacts]: the generator.
    - Redis.  [IntSet], [IntSetFacts]: intset.c.  [StringMatch]: the glob matcher of
      util.c.  [NumString], [NumStringFacts]: its integer conversions.  [Adlist],
      [AdlistFacts]: adlist.c on a heap of nodes.  [Listpack]: listpack.c on a block of
      bytes; [ListpackCodec] (one entry), [ListpackLayout] (the block and the moves in it),
      [ListpackRead], [ListpackInsert], [ListpackBulk], [ListpackRun] (its correctness).
      [Lzf], [LzfFacts], [LzfRun]: lzf_c.c and lzf_d.c.
    - Redis hash tables.  [Dict]: dict.c on a heap of entries with tagged pointers.
      [DictChain], [DictRep]: chains and tables as the heap holds them.  [DictRehash],
      [DictEdit], [DictDelete]: what each function does to them.  [DictMap]: the finite map
      they implement.  [DictScan]: the cursor of [dictScan].
      [DictIter]: iterators.  [DictRun]: the theorems.
    - Redis skip lists.  [Skiplist]: comparison of doubles, and the skip list of t_zset.c on
      a heap of nodes.  [SkiplistRep]: the places of a list, their levels and spans, and the
      way down.  [SkiplistInsert], [SkiplistDelete], [SkiplistRange], [SkiplistLife]: its
      functions.
      [SkiplistRun]: the sorted list it implements, and the theorems.
    - Redis checksums.  [Crc]: crc64.c, crcspeed.c, crc16.c and [keyHashSlot] of cluster.c.
      [CrcFacts]: the step of the division and its linearity.  [CrcRun]: the theorems.
    - Redis strings.  [Sds]: sds.c and sds.h on a block with its packed header.  [SdsFacts],
      [SdsRep]: the header and what a block stands for.  [SdsRoom], [SdsOps], [SdsEdit]:
      growing, appending, editing, formatting.  [SdsRun]: sequences of operations.
      [SdsText]: splitting, joining and quoting, and the theorems on the first two;
      [SdsQuote]: the ones on quoting.
    - Redis append only files.  [AofManifest]: the manifest of aof.c, as text and in memory.
      [AofManifestFacts]: it is read as it was written.  [AofLog]: commands as text, and the
      loader; a dataset is the list of the batches of commands that made it.  [AofLogFacts]:
      what is read from a log, and from a part of one.  [AofServer]: the buffer, its flush
      with short and failing writes, and the functions of aof.c that change the files, with
      the directory they work on.  [AofDisk]: names and contents.  [AofCrash]: the invariant,
      commands and flushes.  [AofRewrite]: rewrites, switches of the log, loading and starts.
      [AofRun]: histories of processes that crash and start again, and the theorems.

    What is shown

    - Controller: the target never loads the image before the source completed it, no
      command is sent to QEMU that was not requested, and the reported downtime is the time
      between the events it names; for every schedule.  Reading the configuration returns
      the first matching line; what long lines, closed connections, short reads and
      overlapping signals do is stated as it is.
    - Policies: each run returns, keeps at most the target number of dirty pages, and
      evicts by its rule; Belady's policy writes back the fewest pages of all schedules
      that keep the target.  The program prints exactly these reports for a log file.
    - Random writer: all accesses are inside the region; half of a large region is never
      written, since [rand] has 31 bits.
    - Graph500: the two implementations of the arithmetic agree; skipping equals single
      steps; scrambling is a permutation; the generator ends, its edges are in range, and
      the ranges of the processes fit together to one graph.
    - Redis: intset.c refines sets, adlist.c sequences (with [free] called exactly for what
      is removed), listpack.c lists of strings (whatever the allocator's rounding); the
      matcher is equivalent to its specification; integers and decimal strings are inverse.
      LZF never leaves its blocks and decompression inverts compression; on any bytes
      decompression is safe.
    - Hash tables: all operations, with resizing and incremental rehashing underneath,
      refine a finite map, free exactly what is removed and keep the tables well formed; a
      scan gives every key that stays, however the table is resized between the calls; an
      iterator visits every key once, also under deletion; a pending rehash completes.
    - Skip lists: all operations refine a sorted list of pairs, for every sequence of random
      levels; spans give the right ranks, backward pointers the reverse order, and nothing
      is left allocated.
    - Checksums: the CRC-64 of tables, for words of both byte orders, is the bitwise one,
      also in pieces, and changes with any eight consecutive bytes; a hash slot is the CRC-16
      of the hash tag.
    - Strings: whatever the allocator rounds to and through all header types, operations stay
      in the block, fail no assertion and do on the bytes what they mean; joining inverts
      splitting; quoted arguments are parsed back.
    - Append only files: a process that is killed at any moment leaves a directory that the
      next one can load, whatever short writes, failed system calls, rewrites and earlier
      crashes there were; with the log on the dataset recovered has all that was flushed
      completely and nothing that was not executed.  [AofRun.allowed] and [AofRewrite.tidy]
      say what this needs: that the directory is synced after the manifest was replaced, that
      rewrites start with the log on and after a complete flush, that no short write is undone
      in a file opened without [O_APPEND], and that no process goes on with a log that ends
      within a transaction.  For three of these exceptions there are theorems on all
      histories that show what is lost, for the others there are examples.

    Bounds and fuel

    Loops over counters are recursion on lists of indices.  Fuel is given where a loop ends
    for another reason: the eviction loops get the number of dirty pages, the rejection loop
    of the generator a bound derived from the state space, searches in listpacks the length
    of the block, walks along a linked list its length, chains of a hash table and levels of a
    skip list the size of the heap, a pass over a table its size; the theorems prove that it is
    enough.  The generator behind a skip list is a list of its answers, one of which ends the
    loop that picks a level.  Tokens of a line get its length.  Strings are below [2^62]
    bytes, so that no size overflows.  Histories of append only files have fewer than [2^61]
    events, so that file numbers do not overflow, and a file name of up to 215 bytes, so that
    the lines of the manifest fit the reader's buffer; the loader gets the length of the file.
    [PAGE_NUM] and the other constants have the values of the sources.

    Not modelled

    The real-time behaviour of the controller (sleeps are steps) and QEMU itself; floating
    point arithmetic (the scaling of random draws, [exponential] other than 1 in the policies,
    double values of hash tables; comparisons are modelled); the
    [mmap] and affinity calls of the random writer; of the 6144 rows of mrg_transitions.c
    all but the first 32 and the first of each block, which the program that prints them
    covers; Graph500's main, CSR, BFS, SSSP, validation and AML (MPI); defragmentation, entry
    metadata and statistics of hash tables; the commands on sorted sets; 16-bit slices of
    crcspeed.c, which nothing calls; [vsnprintf] behind [sdscatprintf]; of the append only
    files the formats in which a rewrite saves a dataset, what a command does to the keys,
    timestamps in the theorems, power loss and the upgrade of an old file; the rest of Redis, its dependencies and tests; scripts, plots and
    configuration. *)

From Stdlib Require Export ZArith Lia Bool.
From stdpp Require Export base numbers sorting strings functions gmap sets list.

#[global] Open Scope Z_scope.

(** ** Hint databases and tactics *)

Create HintDb study.
Create Rewrite HintDb study.

(** Split every [if] and [match] whose scrutinee is in the goal or in a
    hypothesis, keeping the equation. *)
Ltac break_match :=
  match goal with
  | |- context [match ?x with _ => _ end] => destruct x eqn:?
  | H : context [match ?x with _ => _ end] |- _ => destruct x eqn:?
  end.

(** Turn boolean tests on [Z] and [nat] into propositions. *)
Ltac to_prop :=
  repeat match goal with
  | H : (_ <? _)%Z = true |- _ => apply Z.ltb_lt in H
  | H : (_ <? _)%Z = false |- _ => apply Z.ltb_ge in H
  | H : (_ <=? _)%Z = true |- _ => apply Z.leb_le in H
  | H : (_ <=? _)%Z = false |- _ => apply Z.leb_gt in H
  | H : (_ =? _)%Z = true |- _ => apply Z.eqb_eq in H
  | H : (_ =? _)%Z = false |- _ => apply Z.eqb_neq in H
  | H : (_ <? _)%nat = true |- _ => apply Nat.ltb_lt in H
  | H : (_ <? _)%nat = false |- _ => apply Nat.ltb_ge in H
  | H : (_ <=? _)%nat = true |- _ => apply Nat.leb_le in H
  | H : (_ <=? _)%nat = false |- _ => apply Nat.leb_gt in H
  | H : (_ =? _)%nat = true |- _ => apply Nat.eqb_eq in H
  | H : (_ =? _)%nat = false |- _ => apply Nat.eqb_neq in H
  | H : _ && _ = true |- _ => apply andb_prop in H as [? ?]
  | H : _ || _ = false |- _ => apply orb_false_elim in H as [? ?]
  | H : negb _ = true |- _ => apply negb_true_iff in H
  | H : negb _ = false |- _ => apply negb_false_iff in H
  | H : bool_decide _ = true |- _ => apply bool_decide_eq_true in H
  | H : bool_decide _ = false |- _ => apply bool_decide_eq_false in H
  end.

(** Decide a closed decidable goal, or refute a closed decidable hypothesis. *)
Ltac by_decide := apply (bool_decide_unpack _); vm_compute; exact I.
Ltac refute H := exfalso; apply (bool_decide_pack _) in H; vm_compute in H; exact H.

(** ** Machine integers

    A [w]-bit C integer is a [Z]; [wrap_u] and [wrap_s] are the conversions to
    the unsigned and to the two's complement type of that width. *)

Declare Scope cint_scope.
Delimit Scope cint_scope with cint.

Definition wrap_u (w z : Z) : Z := z mod 2 ^ w.
Definition wrap_s (w z : Z) : Z := (z + 2 ^ (w - 1)) mod 2 ^ w - 2 ^ (w - 1).

Abbreviation u8 := (wrap_u 8).
Abbreviation u16 := (wrap_u 16).
Abbreviation u32 := (wrap_u 32).
Abbreviation u64 := (wrap_u 64).
Abbreviation i16 := (wrap_s 16).
Abbreviation i32 := (wrap_s 32).
Abbreviation i64 := (wrap_s 64).

Definition in_u (w z : Z) : Prop := 0 <= z < 2 ^ w.
Definition in_s (w z : Z) : Prop := - 2 ^ (w - 1) <= z < 2 ^ (w - 1).

#[export] Instance in_u_dec w z : Decision (in_u w z).
Proof. unfold in_u. apply _. Defined.
#[export] Instance in_s_dec w z : Decision (in_s w z).
Proof. unfold in_s. apply _. Defined.

Lemma pow2_pos w : 0 <= w -> 0 < 2 ^ w.
Proof. intros. apply Z.pow_pos_nonneg; lia. Qed.

Lemma pow2_half w : 0 < w -> 2 ^ w = 2 * 2 ^ (w - 1).
Proof. intros. replace w with (Z.succ (w - 1)) at 1 by lia. rewrite Z.pow_succ_r; lia. Qed.

Lemma wrap_u_range w z : 0 <= w -> in_u w (wrap_u w z).
Proof. intros. apply Z.mod_pos_bound, pow2_pos; lia. Qed.

Lemma wrap_s_range w z : 0 < w -> in_s w (wrap_s w z).
Proof.
  intros. unfold in_s, wrap_s.
  pose proof (Z.mod_pos_bound (z + 2 ^ (w - 1)) (2 ^ w) ltac:(apply pow2_pos; lia)).
  rewrite (pow2_half w) in * by lia. lia.
Qed.

Lemma wrap_u_id w z : in_u w z -> wrap_u w z = z.
Proof. intros. by apply Z.mod_small. Qed.

Lemma wrap_s_id w z : 0 < w -> in_s w z -> wrap_s w z = z.
Proof.
  intros ? []. unfold wrap_s. rewrite Z.mod_small; [lia|].
  rewrite (pow2_half w) by lia. lia.
Qed.

#[export] Hint Resolve wrap_u_range wrap_s_range : study.
#[export] Hint Rewrite wrap_u_id wrap_s_id using (unfold in_u, in_s; lia) : study.

(** ** Step sequences *)

Section Star.
Context {S : Type} (step : S -> S -> Prop).

Inductive star : S -> S -> Prop :=
| star_refl s : star s s
| star_step s1 s2 s3 : step s1 s2 -> star s2 s3 -> star s1 s3.

Lemma star_trans s1 s2 s3 : star s1 s2 -> star s2 s3 -> star s1 s3.
Proof. induction 1; eauto using star. Qed.

Lemma star_one s1 s2 : step s1 s2 -> star s1 s2.
Proof. eauto using star. Qed.

(** Rule induction in the form the invariants use it. *)
Lemma star_invariant (I : S -> Prop) s1 s2 :
(forall a b, I a -> step a b -> I b) -> I s1 -> star s1 s2 -> I s2.
Proof. intros Hstep HI Hs. induction Hs; eauto. Qed.
End Star.

#[export] Hint Constructors star : study.

(** ** Lists *)

Lemma list_filter_all {A} (P : A -> Prop) `{!forall x, Decision (P x)} xs : Forall P xs -> filter P xs = xs.
Proof. induction 1 as [|x xs Hx _ IH]; [done|]. rewrite filter_cons_True by done. by f_equal. Qed.

Lemma StronglySorted_ext_in {A} (R R' : A -> A -> Prop) xs :
  (forall x y, x ∈ xs -> y ∈ xs -> R x y -> R' x y) -> StronglySorted R xs -> StronglySorted R' xs.
Proof.
  intros HR. induction 1 as [|x xs _ IH Hx]; constructor.
  - apply IH. intros. apply HR; by try right.
  - rewrite Forall_forall in *. intros y Hy. apply HR; [by left|by right|by apply Hx].
Qed.

Lemma StronglySorted_filter {A} (R : A -> A -> Prop) (P : A -> Prop) `{!forall x, Decision (P x)} xs :
  StronglySorted R xs -> StronglySorted R (filter P xs).
Proof.
  induction 1 as [|x xs _ IH Hx]; [constructor|]. rewrite filter_cons. case_decide; [|done].
  constructor; [done|]. rewrite Forall_forall in *. intros y [_ Hy]%list_elem_of_filter. by apply Hx.
Qed.

Lemma NoDup_fmap_inj_in {A B} (f : A -> B) xs x y :
  NoDup (f <$> xs) -> x ∈ xs -> y ∈ xs -> f x = f y -> x = y.
Proof.
  induction xs as [|z xs IH]; csimpl; intros Hn Hx Hy E; [by apply elem_of_nil in Hx|].
  apply NoDup_cons in Hn as [Hz Hn].
  apply elem_of_cons in Hx as [->|Hx], Hy as [->|Hy]; [done| | |by apply IH];
    exfalso; apply Hz, list_elem_of_fmap; eauto.
Qed.

Lemma Forall_sublist {A} (P : A -> Prop) xs ys : sublist xs ys -> Forall P ys -> Forall P xs.
Proof. induction 1; rewrite ?Forall_cons; tauto. Qed.

Lemma StronglySorted_snoc {A} (R : A -> A -> Prop) xs x :
  StronglySorted R (xs ++ [x]) -> StronglySorted R xs /\ Forall (fun y => R y x) xs.
Proof.
  induction xs as [|y xs IH]; intros H; [by repeat constructor|]. simpl in H.
  apply StronglySorted_inv in H as [[Hs Hx]%IH Hy].
  rewrite Forall_app, Forall_singleton in Hy. destruct Hy. split; by constructor.
Qed.

(** ** Positions

    The lists of Redis count a negative index from the end. *)

(** The position an index denotes in a sequence of length [n]. *)
Definition position (n : nat) (index : Z) : option nat :=
  let k := if index <? 0 then Z.of_nat n + index else index in
  if (0 <=? k) && (k <? Z.of_nat n) then Some (Z.to_nat k) else None.

Lemma position_lt n index k : position n index = Some k -> (k < n)%nat.
Proof.
  unfold position. destruct (Z.leb_spec 0 (if index <? 0 then Z.of_nat n + index else index)),
    (Z.ltb_spec (if index <? 0 then Z.of_nat n + index else index) (Z.of_nat n)); cbn [andb]; try (intros ?; discriminate).
  intros [= <-]. lia.
Qed.

(** ** Fallible code

    A run of a C or C++ function that can stop at a failed [assert] or reach
    undefined behaviour (an access out of bounds, an invalid iterator, an overflow
    of a signed type).  Loops that are not bounded by a counter take fuel, and
    [OutOfFuel] is the third way not to return; the theorems rule it out. *)

Inductive fault := AssertFails | UndefinedBehaviour | OutOfFuel.
#[export] Instance fault_eq_dec : EqDecision fault.
Proof. solve_decision. Defined.

Definition result (A : Type) : Type := fault + A.
#[export] Instance result_ret : MRet result := fun A a => inr a.
#[export] Instance result_bind : MBind result :=
  fun A B f m => match m with inl e => inl e | inr a => f a end.

Definition assert (b : bool) : result unit := if b then inr tt else inl AssertFails.
Definition defined_if (b : bool) : result unit := if b then inr tt else inl UndefinedBehaviour.
(** Read of a C++ value that must exist. *)
Definition the {A} (o : option A) : result A :=
  match o with Some a => inr a | None => inl UndefinedBehaviour end.

Section Loops.
Context {S A : Type}.

(** [for (x : l) s = body(s, x);] *)
Fixpoint for_each (body : S -> A -> result S) (s : S) (l : list A) : result S :=
match l with
| [] => mret s
| x :: l' => s' ← body s x; for_each body s' l'
end.

(** [while (cond(s)) s = body(s);] *)
Fixpoint while (fuel : nat) (cond : S -> bool) (body : S -> result S) (s : S) : result S :=
if cond s then
  match fuel with
  | O => inl OutOfFuel
  | Datatypes.S fuel' => s' ← body s; while fuel' cond body s'
  end
else mret s.

Lemma for_each_app body s l1 l2 :
for_each body s (l1 ++ l2) = (s' ← for_each body s l1; for_each body s' l2).
Proof.
revert s; induction l1 as [|x l1 IH]; intros s; [done|]. simpl.
destruct (body s x); [done|apply IH].
Qed.

Lemma for_each_ext body body' s l :
(forall s x, body s x = body' s x) -> for_each body s l = for_each body' s l.
Proof.
intros E. revert s; induction l as [|x l IH]; intros s; [done|]. simpl. rewrite E.
destruct (body' s x); [done|apply IH].
Qed.

Lemma while_ext fuel cond cond' body body' s :
(forall s, cond s = cond' s) -> (forall s, body s = body' s) -> while fuel cond body s = while fuel cond' body' s.
Proof.
intros Ec Eb. revert s; induction fuel as [|fuel IH]; intros s; simpl; rewrite Ec; [done|].
destruct (cond' s); [|done]. rewrite Eb. destruct (body' s); [done|apply IH].
Qed.

(** A loop over [l] that keeps [I done_so_far] ends with it. *)
Lemma for_each_inv (I : list A -> S -> Prop) body s l :
I [] s ->
(forall pre x post s, l = pre ++ x :: post -> I pre s -> exists s', body s x = inr s' /\ I (pre ++ [x]) s') ->
exists s', for_each body s l = inr s' /\ I l s'.
Proof.
intros H0 Hstep.
enough (forall post pre s, l = pre ++ post -> I pre s -> exists s', for_each body s post = inr s' /\ I l s')
  as H by by apply (H l [] s).
induction post as [|x post IH]; intros pre s' El HI; simpl.
- rewrite app_nil_r in El. subst. by exists s'.
- destruct (Hstep pre x post s' El HI) as (s'' & -> & HI'). simpl.
  apply (IH (pre ++ [x])); [|done]. by rewrite <- app_assoc.
Qed.

(** A loop that keeps [I] and decreases [m] ends, with [I] and a false condition. *)
Lemma while_inv (I : S -> Prop) (m : S -> nat) fuel cond body s :
I s -> (m s <= fuel)%nat ->
(forall s, I s -> cond s = true -> exists s', body s = inr s' /\ I s' /\ (m s' < m s)%nat) ->
exists s', while fuel cond body s = inr s' /\ I s' /\ cond s' = false.
Proof.
intros HI Hm Hstep. revert s HI Hm. induction fuel as [|fuel IH]; intros s HI Hm; simpl.
- destruct (cond s) eqn:E; [|by exists s].
  destruct (Hstep s HI E) as (s' & _ & _ & ?). lia.
- destruct (cond s) eqn:E; [|by exists s].
  destruct (Hstep s HI E) as (s' & -> & HI' & ?). simpl. apply IH; [done|lia].
Qed.
End Loops.
