(* ===== verification/CString.v ===== *)
(** * C strings and the <string.h>, <stdlib.h> and <stdio.h> calls the sources use

    A byte buffer is a [list ascii]; a C string is the part of a buffer before
    its first NUL.  [fgets], [strchr], [strncmp], [strcmp], [strcspn], [atoi]
    and [%d] are modelled as the C standard (and, for [atoi] out of range,
    glibc) defines them. *)

From Stdlib Require Import Ascii.
From S2P Require Import Prelude.

Abbreviation bytes := (list ascii).

Definition lit (s : string) : bytes := String.list_ascii_of_string s.

Arguments lit s%_string : simpl never.

Definition NUL : ascii := "000"%char.
Definition NL : ascii := "010"%char.
Definition EQUALS : ascii := "="%char.

(** An unsigned [char]'s value. *)
Definition byte_val (c : ascii) : Z := Z.of_N (N_of_ascii c).

(** The C string a buffer holds. *)
Fixpoint c_str (b : bytes) : bytes :=
  match b with
  | [] => []
  | c :: b' => if decide (c = NUL) then [] else c :: c_str b'
  end.

Definition strlen (b : bytes) : nat := length (c_str b).

(** [strncmp]: both arguments are C strings, so reading at the end gives 0. *)
Fixpoint strncmp (a b : bytes) (n : nat) : Z :=
  match n with
  | O => 0
  | S n' =>
      let x := default NUL (head a) in
      let y := default NUL (head b) in
      if decide (x = y) then
        if decide (x = NUL) then 0 else strncmp (tail a) (tail b) n'
      else byte_val x - byte_val y
  end.

Definition strcmp (a b : bytes) : Z := strncmp a b (S (length a)).

(** [strchr(s, c)] for [c] other than NUL: the suffix that starts at the first
    [c], or [None] for the null pointer. *)
Fixpoint strchr (s : bytes) (c : ascii) : option bytes :=
  match s with
  | [] => None
  | x :: s' => if decide (x = NUL) then None
               else if decide (x = c) then Some s else strchr s' c
  end.

(** [strcspn(s, "c")]: the length of the prefix without [c]. *)
Fixpoint strcspn (s : bytes) (c : ascii) : nat :=
  match s with
  | [] => O
  | x :: s' => if decide (x = NUL) then O else if decide (x = c) then O else S (strcspn s' c)
  end.

(** One [fgets(line, n, file)]: at most [n - 1] characters, up to and
    including the first newline; [None] at the end of the file. *)
Fixpoint fgets_go (room : nat) (f : bytes) : bytes * bytes :=
  match room, f with
  | O, _ => ([], f)
  | S _, [] => ([], [])
  | S room', c :: f' =>
      if decide (c = NL) then ([c], f')
      else let '(l, r) := fgets_go room' f' in (c :: l, r)
  end.

Definition fgets (n : nat) (f : bytes) : option (bytes * bytes) :=
  match f with [] => None | _ => Some (fgets_go (n - 1) f) end.

(** *** Decimal numbers *)

Definition is_digit (c : ascii) : bool :=
  (48 <=? byte_val c) && (byte_val c <=? 57).

Definition is_space (c : ascii) : bool :=
  (byte_val c =? 32) || ((9 <=? byte_val c) && (byte_val c <=? 13)).

Definition LONG_MAX : Z := 2 ^ 63 - 1.
Definition LONG_MIN : Z := - 2 ^ 63.

Fixpoint skip_space (s : bytes) : bytes :=
  match s with
  | c :: s' => if is_space c then skip_space s' else s
  | [] => []
  end.

Fixpoint digits_val (s : bytes) (acc : Z) : Z :=
  match s with
  | c :: s' => if is_digit c then digits_val s' (10 * acc + (byte_val c - 48)) else acc
  | [] => acc
  end.

(** [strtol(s, NULL, 10)], which saturates. *)
Definition strtol10 (s : bytes) : Z :=
  let s := skip_space s in
  let '(neg, s) :=
    match s with
    | "-"%char :: s' => (true, s')
    | "+"%char :: s' => (false, s')
    | _ => (false, s)
    end in
  let v := digits_val s 0 in
  Z.max LONG_MIN (Z.min LONG_MAX (if neg then - v else v)).

(** [atoi]: glibc returns [(int) strtol(s, NULL, 10)]. *)
Definition atoi (s : bytes) : Z := i32 (strtol10 s).

(** [%d] and [%ld]. *)
Definition digit_char (d : Z) : ascii := ascii_of_N (Z.to_N (48 + d)).

Fixpoint dec_digits (fuel : nat) (n : Z) (acc : bytes) : bytes :=
  match fuel with
  | O => acc
  | S fuel' =>
      let acc := digit_char (n mod 10) :: acc in
      if n <? 10 then acc else dec_digits fuel' (n / 10) acc
  end.

Definition fmt_d (n : Z) : bytes :=
  if n <? 0 then "-"%char :: dec_digits 20 (- n) [] else dec_digits 20 n [].

Arguments fmt_d : simpl never.

(** ** Facts about the string functions *)

Definition no_nul (s : bytes) : Prop := Forall (fun c => c <> NUL) s.
Definition no_char (c : ascii) (s : bytes) : Prop := Forall (fun x => x <> c) s.

(** For literals. *)
Ltac solve_no_nul := unfold no_nul, no_char; by_decide.

Lemma c_str_id s : no_nul s -> c_str s = s.
Proof. induction 1; simpl; [done|]. rewrite decide_False by done. by f_equal. Qed.

Lemma c_str_no_nul s : no_nul (c_str s).
Proof. induction s; simpl; [constructor|]. case_decide; constructor; done. Qed.

Lemma strlen_id s : no_nul s -> strlen s = length s.
Proof. intros. unfold strlen. by rewrite c_str_id. Qed.

#[export] Hint Resolve c_str_no_nul : study.

Lemma byte_val_inj c d : byte_val c = byte_val d -> c = d.
Proof.
  unfold byte_val. intros H. assert (N_of_ascii c = N_of_ascii d) as E by lia.
  by rewrite <- (ascii_N_embedding c), <- (ascii_N_embedding d), E.
Qed.

Lemma byte_val_range c : 0 <= byte_val c < 256.
Proof. unfold byte_val. pose proof (N_ascii_bounded c). lia. Qed.

(** The test [strncmp(line, key, strlen(key)) == 0] is the prefix test. *)
Lemma strncmp_prefix line key :
  no_nul key -> strncmp line key (length key) = 0 <-> key `prefix_of` line.
Proof.
  intros Hk; revert line; induction Hk as [|c key Hc _ IH]; intros line; simpl.
  { split; [intros _; apply prefix_nil|done]. }
  destruct line as [|x line]; simpl.
  - rewrite decide_False by done. split.
    + intros E. destruct Hc. symmetry. apply byte_val_inj. lia.
    + intros E. by apply prefix_nil_inv in E.
  - destruct (decide (x = c)) as [->|Hne].
    + rewrite decide_False by done. rewrite IH. split.
      * apply prefix_cons.
      * apply prefix_cons_inv_2.
    + split; intros E.
      * destruct Hne. apply byte_val_inj. lia.
      * apply prefix_cons_inv_1 in E. by subst.
Qed.

(** The test [strcmp(a, b) == 0] is equality. *)
Lemma strcmp_eq a b : no_nul a -> no_nul b -> strcmp a b = 0 <-> a = b.
Proof.
  unfold strcmp. intros Ha; revert b. induction Ha as [|c a Hc _ IH]; intros b Hb; simpl.
  - destruct Hb as [|d b Hd Hb]; simpl; [done|].
    rewrite decide_False by congruence. split; [|done].
    intros E. destruct Hd. symmetry. apply byte_val_inj. lia.
  - destruct Hb as [|d b Hd Hb]; simpl.
    + rewrite decide_False by done. split; [|done].
      intros E. destruct Hc. apply byte_val_inj. lia.
    + destruct (decide (c = d)) as [->|Hne].
      * rewrite decide_False by done.
        simpl in IH. rewrite IH by done. split; [by intros ->|by intros [= ->]].
      * split; [|by intros [= ->]]. intros E. destruct Hne. apply byte_val_inj. lia.
Qed.

Lemma strchr_first k v c :
  no_nul k -> no_char c k -> c <> NUL -> strchr (k ++ c :: v) c = Some (c :: v).
Proof.
  intros Hk Hc Hn. induction k as [|x k IH]; simpl.
  - by rewrite decide_False, decide_True by done.
  - inversion Hk; inversion Hc; subst. by rewrite !decide_False, IH by done.
Qed.

Lemma strchr_none s c : no_char c s -> strchr s c = None.
Proof. induction 1; simpl; [done|]. case_decide; [done|]. by rewrite decide_False. Qed.

Lemma strcspn_stop s r c :
  no_nul s -> no_char c s -> strcspn (s ++ c :: r) c = length s.
Proof.
  intros Hk Hc. induction s as [|x s IH]; simpl.
  - rewrite (decide_True (P := (c = c))) by done. by case_decide.
  - inversion Hk; inversion Hc; subst. by rewrite !decide_False, IH by done.
Qed.

Lemma strcspn_all s c : no_nul s -> no_char c s -> strcspn s c = length s.
Proof.
  intros Hk Hc. induction s as [|x s IH]; simpl; [done|].
  inversion Hk; inversion Hc; subst. by rewrite !decide_False, IH by done.
Qed.

(** [fgets] splits the file, and makes progress. *)
Lemma fgets_go_app room f l r : fgets_go room f = (l, r) -> f = l ++ r.
Proof.
  revert f l r; induction room as [|room IH]; intros f l r; simpl.
  - by intros [= <- <-].
  - destruct f as [|c f]; [by intros [= <- <-]|]. case_decide; [by intros [= <- <-]|].
    destruct (fgets_go room f) as [l' r'] eqn:E. intros [= <- <-]. simpl. f_equal. by apply IH.
Qed.

Lemma fgets_progress n f l r :
  (2 <= n)%nat -> fgets n f = Some (l, r) -> (length r < length f)%nat.
Proof.
  intros Hn. unfold fgets. destruct f as [|c f]; [done|]. intros [= E].
  destruct (n - 1)%nat as [|room] eqn:?; [lia|]. simpl in E.
  case_decide; [injection E as <- <-; simpl; lia|].
  destruct (fgets_go room f) as [l' r'] eqn:E'. injection E as <- <-.
  apply fgets_go_app in E' as ->. simpl. rewrite length_app. lia.
Qed.

Lemma fgets_line n s rest :
  (length s + 2 <= n)%nat -> no_char NL s -> fgets n (s ++ NL :: rest) = Some (s ++ [NL], rest).
Proof.
  intros Hn Hs. unfold fgets. destruct (s ++ NL :: rest) eqn:E; [by destruct s|]. rewrite <- E. clear E.
  f_equal. assert (exists k, (n - 1 = S (length s) + k)%nat) as [k ->] by (exists (n - 2 - length s)%nat; lia).
  clear Hn. induction Hs as [|c s Hc Hs IH]; simpl; [done|].
  rewrite decide_False by done. simpl in IH. by rewrite IH.
Qed.

Lemma fgets_last n s :
  (length s + 1 <= n)%nat -> s <> [] -> no_char NL s -> fgets n s = Some (s, []).
Proof.
  intros Hn Hne Hs. unfold fgets. destruct s as [|c s]; [done|]. f_equal.
  assert (exists k, (n - 1 = length (c :: s) + k)%nat) as [k ->] by (exists (n - 1 - length (c :: s))%nat; lia).
  clear Hn Hne. revert Hs. generalize (c :: s). clear. induction 1 as [|c s Hc Hs IH]; simpl.
  - by destruct k.
  - rewrite decide_False by done. by rewrite IH.
Qed.

Lemma fgets_full n s rest :
  (length s = n - 1)%nat -> s <> [] -> no_char NL s -> fgets n (s ++ rest) = Some (s, rest).
Proof.
  intros Hn Hne Hs. unfold fgets. destruct (s ++ rest) eqn:E; [by destruct s|]. rewrite <- E.
  f_equal. rewrite <- Hn. clear Hn Hne E. induction Hs as [|c s Hc Hs IH]; simpl; [done|].
  rewrite decide_False by done. by rewrite IH.
Qed.

(** [%d] followed by [atoi] is the identity on [int]. *)
Lemma digit_char_val d : 0 <= d <= 9 -> byte_val (digit_char d) = 48 + d.
Proof.
  intros. unfold byte_val, digit_char. rewrite N_ascii_embedding; lia.
Qed.

Lemma digit_char_is_digit d : 0 <= d <= 9 -> is_digit (digit_char d) = true.
Proof. intros. unfold is_digit. rewrite digit_char_val by done. apply andb_true_intro. lia. Qed.

Lemma dec_digits_app fuel n acc rest :
  dec_digits fuel n acc ++ rest = dec_digits fuel n (acc ++ rest).
Proof.
  revert n acc; induction fuel as [|fuel IH]; intros n acc; simpl; [done|].
  destruct (n <? 10); [done|]. by rewrite IH.
Qed.

Lemma dec_digits_val fuel n acc :
  0 <= n < 10 ^ Z.of_nat (S fuel) -> digits_val (dec_digits (S fuel) n acc) 0 = digits_val acc n.
Proof.
  revert n acc; induction fuel as [|fuel IH]; intros n acc Hn.
  - change (10 ^ Z.of_nat 1) with 10 in Hn. simpl.
    rewrite (proj2 (Z.ltb_lt n 10)) by lia. simpl.
    rewrite Z.mod_small by lia. rewrite digit_char_is_digit, digit_char_val by lia. f_equal. lia.
  - assert (0 <= n mod 10 < 10) by (apply Z.mod_pos_bound; lia).
    cbn [dec_digits]. destruct (Z.ltb_spec n 10).
    + rewrite Z.mod_small by lia. cbn [digits_val].
      rewrite digit_char_is_digit, digit_char_val by lia. f_equal. lia.
    + change (if n / 10 <? 10 then _ else _) with (dec_digits (S fuel) (n / 10) (digit_char (n mod 10) :: acc)).
      rewrite IH.
      * cbn [digits_val]. rewrite digit_char_is_digit, digit_char_val by lia. f_equal.
        pose proof (Z.div_mod n 10). lia.
      * rewrite Nat2Z.inj_succ, Z.pow_succ_r in Hn by lia. split; [apply Z.div_pos; lia|].
        apply Z.div_lt_upper_bound; lia.
Qed.

Lemma dec_digits_head fuel n acc :
  0 <= n -> exists d l, 0 <= d <= 9 /\ dec_digits (S fuel) n acc = digit_char d :: l.
Proof.
  revert n acc; induction fuel as [|fuel IH]; intros n acc Hn;
    pose proof (Z.mod_pos_bound n 10 ltac:(lia)); cbn [dec_digits].
  - destruct (n <? 10); eexists _, _; (split; [|done]); lia.
  - destruct (n <? 10); [eexists _, _; (split; [|done]); lia|].
    apply IH. apply Z.div_pos; lia.
Qed.

Lemma digit_char_cases d :
  0 <= d <= 9 -> is_space (digit_char d) = false /\ digit_char d <> "-"%char /\ digit_char d <> "+"%char.
Proof.
  intros Hd. pose proof (digit_char_val d Hd) as E. repeat split.
  - unfold is_space. rewrite E. apply orb_false_intro; [lia|]. apply andb_false_iff. lia.
  - intros C. rewrite C in E. change (byte_val "-") with 45 in E. lia.
  - intros C. rewrite C in E. change (byte_val "+") with 43 in E. lia.
Qed.

Definition no_digit_head (s : bytes) : Prop :=
  match s with [] => True | c :: _ => is_digit c = false end.

Lemma digits_val_stop s n : no_digit_head s -> digits_val s n = n.
Proof. destruct s; simpl; [done|]. by intros ->. Qed.

Lemma strtol10_digit d l :
  0 <= d <= 9 ->
  strtol10 (digit_char d :: l) = Z.max LONG_MIN (Z.min LONG_MAX (digits_val (digit_char d :: l) 0)).
Proof.
  intros Hd. destruct (digit_char_cases d Hd) as (Hsp & Hm & Hp).
  unfold strtol10. remember (digits_val (digit_char d :: l) 0) as v eqn:Ev.
  cbn [skip_space]. rewrite Hsp.
  destruct (digit_char d) as [[] [] [] [] [] [] [] []]; try congruence; by rewrite <- Ev.
Qed.

Lemma fmt_d_atoi n rest :
  in_s 32 n -> no_digit_head rest -> atoi (fmt_d n ++ rest) = n.
Proof.
  intros Hn Hr. assert (- 2147483648 <= n < 2147483648) as Hn' by (unfold in_s in Hn; simpl in Hn; lia).
  assert (forall m, 0 <= m <= 2147483648 -> digits_val (dec_digits 20 m [] ++ rest) 0 = m) as HV.
  { intros m Hm. rewrite dec_digits_app, dec_digits_val; [by apply digits_val_stop|].
    split; [lia|]. eapply Z.le_lt_trans; [apply Hm|]. vm_compute. done. }
  unfold atoi, fmt_d. destruct (Z.ltb_spec n 0).
  - unfold strtol10. cbn [app skip_space]. change (is_space "-") with false. cbn iota.
    rewrite HV by lia. unfold LONG_MIN, LONG_MAX.
    rewrite Z.min_r, Z.max_r, Z.opp_involutive by lia.
    apply wrap_s_id; [lia|done].
  - destruct (dec_digits_head 19 n [] ltac:(lia)) as (d & l & Hd & E).
    specialize (HV n ltac:(lia)). rewrite E in HV |- *. rewrite <- app_comm_cons in HV |- *.
    rewrite strtol10_digit, HV by done. unfold LONG_MIN, LONG_MAX.
    rewrite Z.min_r, Z.max_r by lia. apply wrap_s_id; [lia|done].
Qed.
