(* ===== verification/Config.v ===== *)
(** * The controller's configuration file (src/apps/controller.c, [get_config_value])

    [config.txt] holds lines [KEY=value].  [get_config_value] scans it with
    [fgets] on a 255 byte buffer and copies what follows the first [=] of the
    first line that starts with the key.  The destination's capacity is an
    argument, because [strcpy] does not check it. *)

From Stdlib Require Import Ascii.
From S2P Require Import Prelude CString.

Definition MAX_LINE_LENGTH : nat := 255.
Definition IP_LEN : nat := 64.
Definition PORT_LEN : nat := 20.

Inductive cfg_outcome :=
| CfgExit                 (** the file does not open: [exit(-1)] *)
| CfgNullDeref            (** a matching line without [=]: [strchr] is null *)
| CfgOverflow             (** [strcpy] past the end of [value] *)
| CfgDone (value : bytes) (** the C string in [value] afterwards *).

(** The [while (fgets(...))] loop. [fuel] bounds the number of lines. *)
Fixpoint scan_lines (fuel : nat) (key value : bytes) (cap : nat) (f : bytes) : cfg_outcome :=
  match fuel with
  | O => CfgDone value
  | S fuel' =>
      match fgets MAX_LINE_LENGTH f with
      | None => CfgDone value
      | Some (line, rest) =>
          let line := c_str line in
          if strncmp line key (strlen key) =? 0 then
            match strchr line EQUALS with
            | None => CfgNullDeref
            | Some s =>
                let v := tail s in
                if (cap <=? length v)%nat then CfgOverflow
                else CfgDone (take (strcspn v NL) v)
            end
          else scan_lines fuel' key value cap rest
      end
  end.

(** [get_config_value(key, value)] with [value] an array of [cap] bytes. *)
Definition get_config_value (file : option bytes) (key value : bytes) (cap : nat) : cfg_outcome :=
  match file with
  | None => CfgExit
  | Some f => scan_lines (S (length f)) key value cap f
  end.

(** The eight globals [main] reads from the file. *)
Record config := mk_config {
  src_ip : bytes; dst_ip : bytes; backup_ip : bytes; vm_ip : bytes;
  migration_port : bytes; src_control_port : bytes;
  dst_control_port : bytes; backup_control_port : bytes;
}.

Definition cfg_bind (o : cfg_outcome) (k : bytes -> cfg_outcome + config) : cfg_outcome + config :=
  match o with CfgDone v => k v | e => inl e end.

(** The sequence of [get_config_value] calls in [main]; the globals start empty. *)
Definition read_config (file : option bytes) : cfg_outcome + config :=
  let get key cap := get_config_value file (lit key) [] cap in
  cfg_bind (get "SRC_IP" IP_LEN) (fun a =>
  cfg_bind (get "DST_IP" IP_LEN) (fun b =>
  cfg_bind (get "BACKUP_IP" IP_LEN) (fun c =>
  cfg_bind (get "VM_IP" IP_LEN) (fun d =>
  cfg_bind (get "MIGRATION_PORT" PORT_LEN) (fun e =>
  cfg_bind (get "SRC_CONTROL_PORT" PORT_LEN) (fun f =>
  cfg_bind (get "DST_CONTROL_PORT" PORT_LEN) (fun g =>
  cfg_bind (get "BACKUP_CONTROL_PORT" PORT_LEN) (fun h =>
  inr (mk_config a b c d e f g h))))))))).

(** ** What a configuration file means *)

(** An entry is a key and a value. *)
Abbreviation entry := (bytes * bytes)%type.

Definition entry_line (e : entry) : bytes := e.1 ++ EQUALS :: e.2.

(** The last line of a file may lack its newline. *)
Definition render (es : list entry) (last : option entry) : bytes :=
  mjoin ((fun e => entry_line e ++ [NL]) <$> es) ++ from_option entry_line [] last.

Record entry_ok (e : entry) : Prop := {
  ok_key_nul : no_nul e.1;
  ok_key_eq : no_char EQUALS e.1;
  ok_key_nl : no_char NL e.1;
  ok_val_nul : no_nul e.2;
  ok_val_nl : no_char NL e.2;
  ok_len : (length (entry_line e) + 2 <= MAX_LINE_LENGTH)%nat;
}.

Instance entry_ok_dec e : Decision (entry_ok e).
Proof.
  refine (cast_if (decide ((no_nul e.1 /\ no_char EQUALS e.1 /\ no_char NL e.1) /\
    (no_nul e.2 /\ no_char NL e.2) /\ (length (entry_line e) + 2 <= MAX_LINE_LENGTH)%nat)));
    unfold no_nul, no_char in *.
  - abstract (destruct_and!; by constructor).
  - abstract (intros [? ? ? ? ? ?]; naive_solver).
Defined.

(** The first entry whose line starts with [key]. *)
Definition find_entry (key : bytes) (es : list entry) : option entry :=
  snd <$> list_find (fun e => key `prefix_of` entry_line e) es.

Definition outcome_of (value : bytes) (cap extra : nat) (o : option entry) : cfg_outcome :=
  match o with
  | None => CfgDone value
  | Some e => if (cap <=? length e.2 + extra)%nat then CfgOverflow else CfgDone e.2
  end.

(** ** Correctness of the scan *)

Lemma scan_lines_fuel f key value cap n1 n2 :
  (length f < n1)%nat -> (length f < n2)%nat ->
  scan_lines n1 key value cap f = scan_lines n2 key value cap f.
Proof.
  revert f n2; induction n1 as [|n1 IH]; intros f [|n2] H1 H2; try lia. simpl.
  destruct (fgets _ f) as [[l r]|] eqn:E; [|done].
  apply fgets_progress in E; [|unfold MAX_LINE_LENGTH; lia].
  by rewrite (IH r n2) by lia.
Qed.

Lemma prefix_snoc_neq (key l : bytes) c :
  no_char c key -> key `prefix_of` l ++ [c] <-> key `prefix_of` l.
Proof.
  intros Hk. split; [|apply prefix_app_r].
  intros [k E]. destruct k as [|x k] using rev_ind.
  - rewrite app_nil_r in E. rewrite <- E in Hk. apply Forall_app in Hk as [_ Hk].
    by inversion Hk.
  - rewrite app_assoc in E. apply app_inj_tail in E as [-> _]. by exists k.
Qed.

Lemma entry_line_no_nul e : entry_ok e -> no_nul (entry_line e).
Proof. intros []. apply Forall_app; split; [done|]. by constructor. Qed.

Lemma entry_line_no_nl e : entry_ok e -> no_char NL (entry_line e).
Proof. intros []. apply Forall_app; split; [done|]. by constructor. Qed.

#[local] Hint Resolve entry_line_no_nul entry_line_no_nl : study.

Section Scan.
Context (key value : bytes) (cap : nat).
Hypotheses (Hnul : no_nul key) (Hnl : no_char NL key).

Lemma scan_one_line n e rest :
entry_ok e ->
scan_lines (S n) key value cap (entry_line e ++ NL :: rest) =
  if decide (key `prefix_of` entry_line e) then outcome_of value cap 1 (Some e)
  else scan_lines n key value cap rest.
Proof.
intros He. simpl. pose proof (ok_len e He).
rewrite fgets_line by (auto with study).
rewrite c_str_id by (apply Forall_app; split; [by apply entry_line_no_nul|by apply Forall_singleton]).
rewrite strlen_id by done.
pose proof (strncmp_prefix (entry_line e ++ [NL]) key Hnul) as Hp.
rewrite prefix_snoc_neq in Hp by done. destruct He.
destruct (Z.eqb_spec (strncmp (entry_line e ++ [NL]) key (length key)) 0) as [E|E].
- rewrite decide_True by (by apply Hp). unfold entry_line at 1.
  rewrite <- app_assoc. simpl. rewrite strchr_first by done. simpl.
  rewrite length_app. simpl. destruct (_ <=? _)%nat; [done|]. f_equal.
  rewrite strcspn_stop by done. by rewrite take_app_length.
- rewrite decide_False; [done|]. intros C. by apply E, Hp.
Qed.

Lemma scan_last_line n e :
entry_ok e ->
scan_lines (S (S n)) key value cap (entry_line e) =
  if decide (key `prefix_of` entry_line e) then outcome_of value cap 0 (Some e)
  else CfgDone value.
Proof.
intros He. simpl. pose proof (ok_len e He).
rewrite fgets_last; [|lia|by unfold entry_line; destruct e.1|auto with study].
rewrite c_str_id, strlen_id by (auto with study).
pose proof (strncmp_prefix (entry_line e) key Hnul) as Hp. destruct He.
destruct (Z.eqb_spec (strncmp (entry_line e) key (length key)) 0) as [E|E].
- rewrite decide_True by (by apply Hp). unfold entry_line at 1.
  rewrite strchr_first by done. simpl. rewrite Nat.add_0_r.
  destruct (_ <=? _)%nat; [done|]. f_equal.
  rewrite strcspn_all by done. by rewrite take_ge.
- rewrite decide_False; [done|]. intros C. by apply E, Hp.
Qed.

Lemma scan_render n es last :
Forall entry_ok es -> from_option entry_ok True last ->
(length (render es last) < n)%nat ->
scan_lines n key value cap (render es last) =
  match find_entry key es with
  | Some e => outcome_of value cap 1 (Some e)
  | None => outcome_of value cap 0 (find_entry key (option_list last))
  end.
Proof.
intros Hes Hlast. revert n. induction Hes as [|e es He Hes IH]; intros n Hn.
- unfold render in *; simpl in *. destruct last as [e|]; simpl in *.
  + rewrite (scan_lines_fuel _ _ _ _ _ (S (S (length (entry_line e))))) by lia.
    rewrite scan_last_line by done. unfold find_entry; simpl. by case_decide.
  + by destruct n.
- assert (render (e :: es) last = entry_line e ++ NL :: render es last) as E.
  { unfold render. simpl. by rewrite <- !app_assoc. }
  rewrite E in *. rewrite length_app in Hn. simpl in Hn.
  destruct n as [|n]; [lia|]. rewrite scan_one_line by done.
  unfold find_entry. simpl. case_decide; [done|].
  rewrite IH by lia. unfold find_entry.
  by destruct (list_find _ es) as [[]|].
Qed.
End Scan.

(** ** The repository's configuration *)

(** [config.txt] as it is checked in; its last line has no newline. *)
Definition config_entries : list entry :=
  (fun e => (lit e.1, lit e.2)) <$>
  [("SHARED_STORAGE", "/mnt/mynvm/qemu-study"); ("KERNEL_VER", "5.10.54");
   ("NIC_NAME", "ens2f0np0"); ("SRC_IP", "10.10.1.3"); ("DST_IP", "10.10.1.3");
   ("BACKUP_IP", "10.10.1.3"); ("VM_IP", "10.10.1.100"); ("MIGRATION_PORT", "4444");
   ("SRC_CONTROL_PORT", "55555"); ("DST_CONTROL_PORT", "56666");
   ("BACKUP_CONTROL_PORT", "57777"); ("SRC_NUMA", "0"); ("DST_NUMA", "0"); ("CXL_NUMA", "1");
   ("SRC_CPUSET", "0,2,4,6,8,10,12,14,16,18,20"); ("DST_CPUSET", "22,24,26,28,30,32,34,36,38,40");
   ("NIC_INTERRUPT_CORE", "42"); ("VHOST_CORE", "44"); ("MIGRATION_CORE", "20");
   ("META_STATE_LENGTH", "1048576")]%string.
Definition config_last : entry := (lit "HOT_PAGE_STATE_LENGTH", lit "9437184").
Definition config_txt : bytes := render config_entries (Some config_last).

Definition repo_config : config :=
  mk_config (lit "10.10.1.3") (lit "10.10.1.3") (lit "10.10.1.3") (lit "10.10.1.100")
    (lit "4444") (lit "55555") (lit "56666") (lit "57777").

Example read_repo_config : read_config (Some config_txt) = inr repo_config.
Proof. vm_compute. reflexivity. Qed.

(** On every well-formed configuration file [get_config_value] returns the
    value of the first entry whose line starts with the key; it leaves the
    destination alone when there is none, and overflows it exactly when the value
    (with the newline [fgets] kept) and its terminator do not fit. *)
Theorem get_config_value_correct key value cap es last :
  no_nul key -> no_char NL key -> Forall entry_ok es -> from_option entry_ok True last ->
  get_config_value (Some (render es last)) key value cap =
    match find_entry key es with
    | Some e => outcome_of value cap 1 (Some e)
    | None => outcome_of value cap 0 (find_entry key (option_list last))
    end.
Proof. intros. unfold get_config_value. apply scan_render; auto. Qed.

Lemma get_config_value_correct_witness :
  get_config_value (Some config_txt) (lit "DST_CONTROL_PORT") [] PORT_LEN = CfgDone (lit "56666").
Proof.
  unfold config_txt.
  rewrite (get_config_value_correct (lit "DST_CONTROL_PORT") [] PORT_LEN config_entries (Some config_last)).
  - vm_compute. reflexivity.
  - solve_no_nul.
  - solve_no_nul.
  - by_decide.
  - by_decide.
Defined.

(** A line longer than the 255 byte buffer is scanned in pieces, and a piece
    that happens to start with the key is taken for a setting of its own, before
    the real one. *)
Theorem long_line_is_split pad :
  (length pad = 254)%nat -> no_nul pad -> no_char NL pad -> pad !! 0%nat <> Some "D"%char ->
  get_config_value (Some (pad ++ lit "DST_IP=6.6.6.6" ++ [NL] ++ lit "DST_IP=10.10.1.3" ++ [NL]))
    (lit "DST_IP") [] IP_LEN = CfgDone (lit "6.6.6.6").
Proof.
  intros Hl Hn Hnl Hd. set (es := [(lit "DST_IP", lit "6.6.6.6"); (lit "DST_IP", lit "10.10.1.3")]).
  replace (lit "DST_IP=6.6.6.6" ++ [NL] ++ lit "DST_IP=10.10.1.3" ++ [NL]) with (render es None) by done.
  unfold get_config_value. cbn [scan_lines].
  rewrite (fgets_full MAX_LINE_LENGTH pad); [|done|by destruct pad|done].
  rewrite c_str_id, strlen_id by (done || solve_no_nul).
  destruct (Z.eqb_spec (strncmp pad (lit "DST_IP") (length (lit "DST_IP"))) 0) as [E|_].
  - apply strncmp_prefix in E as [k ->]; [|solve_no_nul]. by destruct Hd.
  - rewrite scan_render; [done|solve_no_nul|solve_no_nul|by_decide|done|].
    rewrite length_app. lia.
Qed.

Lemma long_line_is_split_witness :
  get_config_value
    (Some (replicate 254 "#"%char ++ lit "DST_IP=6.6.6.6" ++ [NL] ++ lit "DST_IP=10.10.1.3" ++ [NL]))
    (lit "DST_IP") [] IP_LEN = CfgDone (lit "6.6.6.6").
Proof.
  apply (long_line_is_split (replicate 254 "#"%char)); [done|solve_no_nul|solve_no_nul|done].
Defined.
