(* ===== verification/Proc.v ===== *)
(** * Processes, signals and sockets: the semantics the controller's roles run on

    A C function of src/apps/controller.c becomes a [prog]: a tree of the system
    calls it makes, whose continuations take the kernel's reply.  A running
    controller is a stack of such programs, the bottom one its [main] and every
    other one a signal handler that interrupted the frame below.  A system is the
    three controllers (source, destination and backup), the two TCP connections
    between them and the log of what happened.

    Everything is executable: [exec] takes one labelled step, the label choosing
    among what the kernel and the outside world (QEMU, the operator) may do. *)

From Stdlib Require Import Ascii.
From S2P Require Import Prelude CString.

Inductive signal := SIGUSR1 | SIGUSR2.
Inductive role := Src | Dst | Backup.
Inductive link := SrcLink | DstLink.
Inductive fdvar := connfd | srcfd | dstfd.

#[export] Instance signal_eq_dec : EqDecision signal.
Proof. solve_decision. Defined.
#[export] Instance role_eq_dec : EqDecision role.
Proof. solve_decision. Defined.
#[export] Instance link_eq_dec : EqDecision link.
Proof. solve_decision. Defined.
#[export] Instance fdvar_eq_dec : EqDecision fdvar.
Proof. solve_decision. Defined.

(** A [struct timespec]: seconds and nanoseconds. *)
Abbreviation timespec := (Z * Z)%type.

Inductive call :=
| Print (text : bytes)
| WritePid (file : bytes)
| System (cmd : bytes)
| Vfork (cmd : bytes)
| Socket
| Bind (addr port : bytes)
| Listen (backlog : Z)
| Accept (v : fdvar)
| Connect (v : fdvar) (addr port : bytes)
| Write (v : fdvar) (buf : bytes)
| Read (v : fdvar) (len : Z)
| Sleep (seconds : Z)
| Usleep (micros : Z)
| ClockGettime.

#[export] Instance call_eq_dec : EqDecision call.
Proof. solve_decision. Defined.

(** What the kernel returns: the int result, the bytes of a [read] and the time
    of a [clock_gettime]. *)
Record reply := mk_reply { ret : Z; data : bytes; time : timespec }.

#[export] Instance reply_eq_dec : EqDecision reply.
Proof. solve_decision. Defined.

(** The globals a handler and the main program share. *)
Record globals := mk_globals {
  sigusr1_count : Z;
  start_time : timespec;
  end_time : timespec;
}.

Definition globals0 : globals := mk_globals 0 (0, 0) (0, 0).

(** [CallUntil c ok k] is [do r = c; while (!ok(r)); k(r)]; a plain call has
    [ok] constantly true.  [Idle] is [while (1) { fflush(stdout); sleep(1); }]. *)
Inductive prog :=
| Return
| Exit (code : Z)
| Abort
| Idle
| CallUntil (c : call) (ok : reply -> bool) (k : reply -> prog)
| SigAction (sg : signal) (h : signal -> prog) (k : Z -> prog)
| Get (k : globals -> prog)
| Put (f : globals -> globals) (k : prog).

Definition Call (c : call) (k : reply -> prog) : prog := CallUntil c (fun _ => true) k.
Definition Do (c : call) (k : prog) : prog := Call c (fun _ => k).

(** Sequencing: a definition that ends in a continuation is applied to what
    follows it. *)
Declare Scope prog_scope.
Delimit Scope prog_scope with prog.
Notation "c ;; k" := (c k) (only parsing) : prog_scope.
Notation "x <- c ;; k" := (c (fun x => k))
  (at level 100, c at next level, k at level 200, right associativity, only parsing) : prog_scope.

(** ** System states *)

Record proc := mk_proc {
  frames : list (option signal * prog);
  globs : globals;
  handlers : signal -> option (signal -> prog);
  pending : list signal;
  fds : fdvar -> option link;
}.

Inductive dir := ToBackup | FromBackup.
#[export] Instance dir_eq_dec : EqDecision dir.
Proof. solve_decision. Defined.

Inductive event :=
| EvCall (p : role) (frame : option signal) (c : call) (r : reply) (ol : option link)
| EvDeliver (p : role) (sg : signal).

#[export] Instance event_eq_dec : EqDecision event.
Proof. solve_decision. Defined.

(** [EvCall]'s link is the one the call's descriptor was bound to at the time.
    [log] is newest first; [now] is the monotonic clock in nanoseconds. *)
Record sys := mk_sys {
  procs : role -> proc;
  queue : link -> dir -> bytes;
  now : Z;
  log : list event;
}.

Definition set_proc (st : sys) (p : role) (pr : proc) : sys :=
  mk_sys (<[p := pr]> (procs st)) (queue st) (now st) (log st).
Definition set_frames (pr : proc) (fs : list (option signal * prog)) : proc :=
  mk_proc fs (globs pr) (handlers pr) (pending pr) (fds pr).
Definition add_log (st : sys) (e : event) : sys :=
  mk_sys (procs st) (queue st) (now st) (e :: log st).

(** The controller that accepts on a link, and the direction a role writes to. *)
Definition server_of (l : link) : role := match l with SrcLink => Src | DstLink => Dst end.
Definition out_dir (p : role) : dir := match p with Backup => FromBackup | _ => ToBackup end.
Definition in_dir (p : role) : dir := match p with Backup => ToBackup | _ => FromBackup end.
Definition peer_of (p : role) (l : link) : role :=
  match p with Backup => server_of l | _ => Backup end.

Definition set_queue (st : sys) (l : link) (d : dir) (q : bytes) : sys :=
  mk_sys (procs st) (<[l := <[d := q]> (queue st l)]> (queue st)) (now st) (log st).

Definition terminated (pr : proc) : bool :=
  match frames pr with
  | [] => true
  | (None, Return) :: _ | (_, Exit _) :: _ | (_, Abort) :: _ => true
  | _ => false
  end.

Definition NSEC : Z := 1000000000.
Definition ns_of (t : timespec) : Z := t.1 * NSEC + t.2.

(** ** Calls

    [do_call addr st p c r] checks that reply [r] is one the kernel may give
    to [c] and performs the call's effect on sockets and clock.  A socket read
    may return any non-empty prefix of what is queued, 0 only when the peer is
    gone and nothing is queued; a write may be short; both may fail with -1.
    The source and destination accept, the backup connects to their addresses. *)

Definition bind_fd (st : sys) (p : role) (v : fdvar) (l : link) : sys :=
  let pr := procs st p in
  set_proc st p (mk_proc (frames pr) (globs pr) (handlers pr) (pending pr) (<[v := Some l]> (fds pr))).

Definition link_of_call (pr : proc) (c : call) : option link :=
  match c with Read v _ | Write v _ => fds pr v | _ => None end.

Definition do_call (addr : link -> bytes * bytes) (st : sys) (p : role) (c : call) (r : reply) : option sys :=
  match c with
  | Accept v =>
      if ret r <? 0 then Some st
      else match p with
           | Src => Some (bind_fd st p v SrcLink)
           | Dst => Some (bind_fd st p v DstLink)
           | Backup => None
           end
  | Connect v a port =>
      if ret r <? 0 then Some st
      else match p with
           | Backup =>
               if decide (addr SrcLink = (a, port)) then Some (bind_fd st p v SrcLink)
               else if decide (addr DstLink = (a, port)) then Some (bind_fd st p v DstLink)
               else None
           | _ => None
           end
  | Write v d =>
      match fds (procs st p) v with
      | None => Some st
      | Some l =>
          if ret r =? -1 then Some st
          else if (0 <=? ret r) && (ret r <=? Z.of_nat (length d)) then
            Some (set_queue st l (out_dir p) (queue st l (out_dir p) ++ take (Z.to_nat (ret r)) d))
          else None
      end
  | Read v len =>
      match fds (procs st p) v with
      | None => Some st
      | Some l =>
          let q := queue st l (in_dir p) in
          let n := Z.to_nat (ret r) in
          if ret r =? -1 then Some st
          else if ret r =? 0 then
            if decide (q = []) then if terminated (procs st (peer_of p l)) then Some st else None else None
          else if (1 <=? ret r) && (ret r <=? len) && (n <=? length q)%nat then
            if decide (data r = take n q) then Some (set_queue st l (in_dir p) (drop n q)) else None
          else None
      end
  | ClockGettime =>
      if (now st <=? ns_of (time r)) && (0 <=? (time r).2) && ((time r).2 <? NSEC) then
        Some (mk_sys (procs st) (queue st) (ns_of (time r)) (log st))
      else None
  | _ => Some st
  end.

(** ** Steps *)

Inductive label :=
| LCall (p : role) (r : reply)      (** the running frame's call gets reply [r] *)
| LTau (p : role)                   (** a step that asks nothing of the outside *)
| LSigErr (p : role)                (** [signal] returns [SIG_ERR] *)
| LPost (p : role) (sg : signal)    (** somebody sends [sg] *)
| LDeliver (p : role) (sg : signal) (** the kernel starts the handler *).

(** A signal is blocked while its own handler runs. *)
Definition blocked (pr : proc) (sg : signal) : bool :=
  existsb (fun f => bool_decide (f.1 = Some sg)) (frames pr).

Definition tau (pr : proc) : option proc :=
  match frames pr with
  | (fr, SigAction sg h k) :: rest =>
      Some (mk_proc ((fr, k 0) :: rest) (globs pr) (<[sg := Some h]> (handlers pr)) (pending pr) (fds pr))
  | (fr, Get k) :: rest => Some (set_frames pr ((fr, k (globs pr)) :: rest))
  | (fr, Put f k) :: rest =>
      Some (mk_proc ((fr, k) :: rest) (f (globs pr)) (handlers pr) (pending pr) (fds pr))
  | (Some _, Return) :: rest => Some (set_frames pr rest)
  | _ => None
  end.

Definition exec (addr : link -> bytes * bytes) (st : sys) (lb : label) : option sys :=
  match lb with
  | LCall p r =>
      match frames (procs st p) with
      | (fr, CallUntil c ok k) :: rest =>
          match do_call addr st p c r with
          | Some st' =>
              let next := if ok r then k r else CallUntil c ok k in
              Some (add_log (set_proc st' p (set_frames (procs st' p) ((fr, next) :: rest)))
                     (EvCall p fr c r (link_of_call (procs st p) c)))
          | None => None
          end
      | _ => None
      end
  | LTau p =>
      match tau (procs st p) with Some pr => Some (set_proc st p pr) | None => None end
  | LSigErr p =>
      match frames (procs st p) with
      | (fr, SigAction _ _ k) :: rest =>
          Some (set_proc st p (set_frames (procs st p) ((fr, k (-1)) :: rest)))
      | _ => None
      end
  | LPost p sg =>
      let pr := procs st p in
      Some (set_proc st p (mk_proc (frames pr) (globs pr) (handlers pr)
                             (if decide (sg ∈ pending pr) then pending pr else sg :: pending pr) (fds pr)))
  | LDeliver p sg =>
      let pr := procs st p in
      if terminated pr then None
      else if decide (sg ∈ pending pr) then
        if blocked pr sg then None
        else
          let pending' := filter (fun s => s <> sg) (pending pr) in
          let frames' := match handlers pr sg with
                         | Some h => (Some sg, h sg) :: frames pr
                         | None => [(None, Exit (-1))] (* the default action terminates *)
                         end in
          Some (add_log (set_proc st p (mk_proc frames' (globs pr) (handlers pr) pending' (fds pr)))
                  (EvDeliver p sg))
      else None
  end.

Definition run (addr : link -> bytes * bytes) (st : sys) (ls : list label) : option sys :=
  foldl (fun o lb => o ≫= fun st => exec addr st lb) (Some st) ls.

Definition start_proc (main : prog) : proc :=
  mk_proc [(None, main)] globals0 (fun _ => None) [] (fun _ => None).

Definition start_sys (mains : role -> prog) : sys :=
  mk_sys (fun p => start_proc (mains p)) (fun _ _ => []) 0 [].

Definition step (addr : link -> bytes * bytes) (s s' : sys) : Prop :=
  exists lb, exec addr s lb = Some s'.

Definition reachable (addr : link -> bytes * bytes) (mains : role -> prog) (st : sys) : Prop :=
  star (step addr) (start_sys mains) st.
