(* ===== verification/Session.v ===== *)
(** * A logic for the controllers' programs

    Each frame of a controller (its main program, or the handler of one signal)
    has a history: the calls it made, with the replies.  A [guard] says what a
    frame's history must hold before it makes a call.  [wp] is the verification
    condition of one program, by recursion on it; [reachable_inv] shows that
    programs which meet it keep their guards in every interleaving with signals,
    short reads and writes, failures and the other controllers. *)

From Stdlib Require Import Ascii.
From S2P Require Import Prelude CString Proc.

Abbreviation hist := (list (call * reply * option link)).

(** The history of one frame kind, newest first. *)
Definition hist_of (p : role) (fr : option signal) (lg : list event) : hist :=
  omap (fun e => match e with
                 | EvCall p' fr' c r ol =>
                     if decide (p = p') then if decide (fr = fr') then Some (c, r, ol) else None else None
                 | EvDeliver _ _ => None
                 end) lg.

Arguments hist_of : simpl never.

(** What went over a link in one direction, oldest byte first. *)
Definition sent_by (l : link) (d : dir) (e : event) : bytes :=
  match e with
  | EvCall p _ (Write _ b) r (Some l') =>
      if decide (l = l') then if decide (out_dir p = d) then
        take (Z.to_nat (ret r)) b else [] else []
  | _ => []
  end.

Definition rcvd_by (l : link) (d : dir) (e : event) : bytes :=
  match e with
  | EvCall p _ (Read _ _) r (Some l') =>
      if decide (l = l') then if decide (in_dir p = d) then
        if 0 <? ret r then data r else [] else [] else []
  | _ => []
  end.

Definition sent (l : link) (d : dir) (lg : list event) : bytes := mjoin (sent_by l d <$> reverse lg).
Definition rcvd (l : link) (d : dir) (lg : list event) : bytes := mjoin (rcvd_by l d <$> reverse lg).

Section Logic.
Context (addr : link -> bytes * bytes).
Context (mains : role -> prog) (hspec : role -> signal -> signal -> prog).
(** What a frame must have done before a call, and what a main program must
  have done before it installs a handler. *)
Context (guard : role -> option signal -> hist -> call -> Prop).
Context (installs : role -> signal -> hist -> Prop).
Hypothesis guard_retry : forall p fr h c r ol, guard p fr h c -> guard p fr ((c, r, ol) :: h) c.
Hypothesis installs_mono : forall p sg h e, installs p sg h -> installs p sg (e :: h).

(** The link a descriptor variable is bound to after a main program's history. *)
Fixpoint binding (p : role) (h : hist) (v : fdvar) : option link :=
match h with
| [] => None
| (Accept v', r, _) :: h' =>
    if decide (v = v') then
      if ret r <? 0 then binding p h' v
      else match p with Src => Some SrcLink | Dst => Some DstLink | Backup => binding p h' v end
    else binding p h' v
| (Connect v' a port, r, _) :: h' =>
    if decide (v = v') then
      if ret r <? 0 then binding p h' v
      else match p with
           | Backup =>
               if decide (addr SrcLink = (a, port)) then Some SrcLink
               else if decide (addr DstLink = (a, port)) then Some DstLink
               else binding p h' v
           | _ => binding p h' v
           end
    else binding p h' v
| _ :: h' => binding p h' v
end.

(** The variable a call uses, and whether it binds one. *)
Definition uses (c : call) : option fdvar :=
match c with Read v _ | Write v _ => Some v | _ => None end.
Definition binds (c : call) : bool :=
match c with Accept _ | Connect _ _ _ => true | _ => false end.

(** Every call of a history was made with its guard. *)
Fixpoint guarded (p : role) (fr : option signal) (h : hist) : Prop :=
match h with
| [] => True
| (c, _, _) :: h' => guard p fr h' c /\ guarded p fr h'
end.

(** What a frame may assume of a reply: a main program uses the descriptors it
  bound itself, a handler those its main program had bound when it ran. *)
Definition legal (p : role) (fr : option signal) (h : hist) (c : call) (r : reply) (ol : option link) : Prop :=
match uses c with
| None => ol = None
| Some v =>
    match fr with
    | None => ol = binding p h v
    | Some sg => exists hm, installs p sg hm /\ guarded p None hm /\ ol = binding p hm v
    end
end /\
match c with
| Write _ b => ol <> None -> -1 <= ret r <= Z.of_nat (length b)
| Read _ n => ol <> None -> ret r = -1 \/ ret r = 0 \/ 1 <= ret r <= n /\ Z.of_nat (length (data r)) = ret r
| ClockGettime =>
    0 <= (time r).2 < NSEC /\
    forall r' ol', (ClockGettime, r', ol') ∈ h -> ns_of (time r') <= ns_of (time r)
| _ => True
end.

Definition failed (c : call) (ok : reply -> bool) (e : call * reply * option link) : Prop :=
e.1.1 = c /\ ok e.1.2 = false.

Fixpoint wp (p : role) (fr : option signal) (pr : prog) (h : hist) {struct pr} : Prop :=
match pr with
| Return | Exit _ | Abort | Idle => True
| CallUntil c ok k =>
    guard p fr h c /\ (binds c = true -> fr = None) /\
    forall fails r ol, Forall (failed c ok) fails -> ok r = true ->
      legal p fr (fails ++ h) c r ol -> wp p fr (k r) ((c, r, ol) :: fails ++ h)
| SigAction sg f k =>
    fr = None /\ (forall s, f s = hspec p sg s) /\ installs p sg h /\ forall z, wp p fr (k z) h
| Get k => forall g, wp p fr (k g) h
| Put _ k => wp p fr k h
end.

(** What holds of one controller, given the log. *)
Record frames_ok (p : role) (pr : proc) (lg : list event) : Prop := {
fo_wp : forall fr q, (fr, q) ∈ frames pr -> wp p fr q (hist_of p fr lg);
fo_nodup : NoDup ((frames pr).*1);
fo_handlers : forall sg f, handlers pr sg = Some f ->
    (forall s, f s = hspec p sg s) /\ installs p sg (hist_of p None lg);
fo_running : forall sg, Some sg ∈ (frames pr).*1 ->
    EvDeliver p sg ∈ lg /\ installs p sg (hist_of p None lg);
fo_past : forall sg, hist_of p (Some sg) lg <> [] -> EvDeliver p sg ∈ lg;
fo_fds : forall v, fds pr v = binding p (hist_of p None lg) v;
fo_guarded : forall fr, guarded p fr (hist_of p fr lg);
}.

Record sys_inv (st : sys) : Prop := {
si_frames : forall p, frames_ok p (procs st p) (log st);
si_net : forall l d, sent l d (log st) = rcvd l d (log st) ++ queue st l d;
si_links : forall p fr c r l, p <> Backup -> (c, r, Some l) ∈ hist_of p fr (log st) -> server_of l = p;
si_now : 0 <= now st;
si_clock : forall p fr r ol, (ClockGettime, r, ol) ∈ hist_of p fr (log st) ->
    0 <= ns_of (time r) <= now st;
}.

(** *** Histories *)

Lemma hist_of_call p fr c r ol lg :
hist_of p fr (EvCall p fr c r ol :: lg) = (c, r, ol) :: hist_of p fr lg.
Proof. unfold hist_of. cbn [omap list_omap]. by rewrite !decide_True by done. Qed.

Lemma hist_of_call_ne p fr p' fr' c r ol lg :
(p, fr) <> (p', fr') -> hist_of p fr (EvCall p' fr' c r ol :: lg) = hist_of p fr lg.
Proof.
intros Hne. unfold hist_of. cbn [omap list_omap].
destruct (decide (p = p')) as [->|]; [|done].
destruct (decide (fr = fr')) as [->|]; [done|done].
Qed.

Lemma hist_of_deliver p fr p' sg lg : hist_of p fr (EvDeliver p' sg :: lg) = hist_of p fr lg.
Proof. done. Qed.

Lemma installs_hist p sg fr e lg :
installs p sg (hist_of p fr lg) -> installs p sg (hist_of p fr (e :: lg)).
Proof.
intros H. destruct e as [p' fr' c r ol|]; [|done].
destruct (decide ((p, fr) = (p', fr'))) as [[= <- <-]|Hne].
- rewrite hist_of_call. by apply installs_mono.
- by rewrite hist_of_call_ne.
Qed.

Lemma wp_retry p fr c ok k r ol h :
ok r = false -> wp p fr (CallUntil c ok k) h -> wp p fr (CallUntil c ok k) ((c, r, ol) :: h).
Proof.
intros Hok (Hg & Hb & Hk). simpl. split_and!; [by apply guard_retry|done|].
intros fails r' ol' Hf Hr' Hl.
specialize (Hk (fails ++ [(c, r, ol)]) r' ol'). rewrite <- app_assoc in Hk. simpl in Hk.
apply Hk; [|done|done]. apply Forall_app; split; [done|]. by apply Forall_singleton.
Qed.

Lemma binding_other p c r ol h v :
binds c = false -> binding p ((c, r, ol) :: h) v = binding p h v.
Proof. by destruct c. Qed.

(** The source and the destination only ever talk on their own link. *)
Lemma binding_server p h v l : p <> Backup -> binding p h v = Some l -> server_of l = p.
Proof.
intros Hp. induction h as [|[[c r] ol] h IH]; simpl; [done|].
destruct c; try done; destruct p; repeat case_match; try done; by intros [= <-].
Qed.

(** *** Calls *)

Lemma bind_fd_proc st p v l q :
procs (bind_fd st p v l) q =
  if decide (p = q) then
    mk_proc (frames (procs st p)) (globs (procs st p)) (handlers (procs st p))
      (pending (procs st p)) (<[v := Some l]> (fds (procs st p)))
  else procs st q.
Proof.
unfold bind_fd, set_proc. simpl. destruct (decide (p = q)) as [->|Hne].
- by rewrite fn_lookup_insert.
- by rewrite fn_lookup_insert_ne.
Qed.

(** A call leaves everything but sockets and the clock alone. *)
Record same_but_net (st st' : sys) (p : role) : Prop := {
sb_log : log st' = log st;
sb_frames : forall q, frames (procs st' q) = frames (procs st q);
sb_handlers : forall q, handlers (procs st' q) = handlers (procs st q);
sb_other : forall q, q <> p -> fds (procs st' q) = fds (procs st q);
sb_now : now st <= now st';
}.

Lemma bind_fd_same st p v l : same_but_net st (bind_fd st p v l) p.
Proof.
split; try done; try (simpl; lia); intros q; rewrite bind_fd_proc;
  destruct (decide (p = q)) as [->|]; done.
Qed.

Lemma same_but_net_refl st p : same_but_net st st p.
Proof. split; done || lia. Qed.

Lemma do_call_same st p c r st' : do_call addr st p c r = Some st' -> same_but_net st st' p.
Proof.
intros H. unfold do_call in H.
repeat first [progress simplify_eq | case_match | case_decide];
  auto using bind_fd_same, same_but_net_refl.
all: split; simpl; try done; to_prop; lia.
Qed.

(** The descriptors after a call. *)
Lemma do_call_fds st p c r st' ol h :
do_call addr st p c r = Some st' ->
(forall v, fds (procs st p) v = binding p h v) ->
forall v, fds (procs st' p) v = binding p ((c, r, ol) :: h) v.
Proof.
intros H Hb v. unfold do_call in H.
destruct c; simpl; repeat first [progress simplify_eq | case_match | case_decide]; try by rewrite <- Hb.
all: rewrite bind_fd_proc, decide_True by done; simpl.
all: first [by rewrite fn_lookup_insert | rewrite fn_lookup_insert_ne by congruence; by apply Hb].
Qed.

Lemma do_call_fds_same st p c r st' :
do_call addr st p c r = Some st' -> binds c = false -> fds (procs st' p) = fds (procs st p).
Proof.
intros H Hb. unfold do_call in H.
destruct c; try done; repeat first [progress simplify_eq | case_match | case_decide]; done.
Qed.

(** *** The network and the clock *)

Lemma sent_cons l d e lg : sent l d (e :: lg) = sent l d lg ++ sent_by l d e.
Proof. unfold sent. rewrite reverse_cons, fmap_app, join_app. simpl. by rewrite app_nil_r. Qed.

Lemma rcvd_cons l d e lg : rcvd l d (e :: lg) = rcvd l d lg ++ rcvd_by l d e.
Proof. unfold rcvd. rewrite reverse_cons, fmap_app, join_app. simpl. by rewrite app_nil_r. Qed.

Lemma set_queue_at st l d q l' d' :
queue (set_queue st l d q) l' d' =
  if decide (l = l') then if decide (d = d') then q else queue st l' d' else queue st l' d'.
Proof.
unfold set_queue. simpl. destruct (decide (l = l')) as [->|].
- rewrite fn_lookup_insert. destruct (decide (d = d')) as [->|].
  + by rewrite fn_lookup_insert.
  + by rewrite fn_lookup_insert_ne.
- by rewrite fn_lookup_insert_ne.
Qed.

Lemma do_call_net st p fr c r st' l d :
do_call addr st p c r = Some st' ->
sent l d (log st) = rcvd l d (log st) ++ queue st l d ->
let e := EvCall p fr c r (link_of_call (procs st p) c) in
sent l d (e :: log st) = rcvd l d (e :: log st) ++ queue st' l d.
Proof.
intros H Hn e. rewrite sent_cons, rcvd_cons, Hn. unfold do_call in H.
destruct c; simpl in H |- *; rewrite ?app_nil_r;
  try (repeat first [progress simplify_eq | case_match]; done).
- (* Write *)
  destruct (fds (procs st p) v) as [l'|] eqn:Ef; rewrite ?app_nil_r; [|by simplify_eq].
  destruct (ret r =? -1) eqn:E1; simplify_eq; to_prop.
  { rewrite E1. simpl. repeat case_decide; by rewrite ?app_nil_r. }
  case_match; simplify_eq. rewrite set_queue_at, <- app_assoc. f_equal.
  destruct (decide (l = l')), (decide (l' = l)); subst; try done; try by rewrite app_nil_r.
  destruct (decide (out_dir p = d)) as [<-|]; by rewrite ?app_nil_r.
- (* Read *)
  destruct (fds (procs st p) v) as [l'|] eqn:Ef; rewrite ?app_nil_r; [|by simplify_eq].
  destruct (ret r =? -1) eqn:E1; to_prop.
  { simplify_eq. rewrite E1. simpl. repeat case_decide; by rewrite ?app_nil_r. }
  destruct (ret r =? 0) eqn:E2; to_prop.
  { rewrite E2. simpl. case_decide; [|done]. case_match; simplify_eq. repeat case_decide; by rewrite ?app_nil_r. }
  case_match; [|done]. case_decide as Hd; simplify_eq. to_prop.
  rewrite set_queue_at, <- app_assoc. f_equal.
  destruct (decide (l = l')), (decide (l' = l)); subst; try done.
  destruct (decide (in_dir p = d)); [|done]. subst.
  rewrite (proj2 (Z.ltb_lt _ _)) by lia. by rewrite Hd, take_drop.
Qed.

Lemma do_call_clock st p fr c r st' :
do_call addr st p c r = Some st' -> 0 <= now st ->
(forall q fq r ol, (ClockGettime, r, ol) ∈ hist_of q fq (log st) -> 0 <= ns_of (time r) <= now st) ->
forall q fq r' ol ol', (ClockGettime, r', ol') ∈ hist_of q fq (EvCall p fr c r ol :: log st) ->
0 <= ns_of (time r') <= now st'.
Proof.
intros H H0 Hc q fq r' ol ol' Hin. pose proof (sb_now _ _ _ (do_call_same _ _ _ _ _ H)) as Hnow.
destruct (decide ((q, fq) = (p, fr))) as [[= -> ->]|Hne].
- rewrite hist_of_call in Hin. apply elem_of_cons in Hin as [Heq|Hin].
  + simplify_eq. simpl in H. case_match; simplify_eq. to_prop. simpl. lia.
  + apply Hc in Hin. lia.
- rewrite hist_of_call_ne in Hin by done. apply Hc in Hin. lia.
Qed.

Lemma do_call_legal st p fr c r st' ok k rest :
sys_inv st -> frames (procs st p) = (fr, CallUntil c ok k) :: rest ->
do_call addr st p c r = Some st' ->
legal p fr (hist_of p fr (log st)) c r (link_of_call (procs st p) c).
Proof.
intros [Hf _ _ _ Hclk] Hfr H. destruct (Hf p) as [_ _ _ Hrun _ Hfds Hgd]. split.
- assert (forall v, match fr with
    | None => fds (procs st p) v = binding p (hist_of p fr (log st)) v
    | Some sg => exists hm, installs p sg hm /\ guarded p None hm /\ fds (procs st p) v = binding p hm v
    end) as Hv.
  { intros v. destruct fr as [sg|]; [|apply Hfds].
    exists (hist_of p None (log st)). split; [|split; [apply Hgd|apply Hfds]].
    apply Hrun. rewrite Hfr. by left. }
  destruct c; simpl; done || apply Hv.
- destruct c; try done; simpl in H |- *.
  + intros Hol. destruct (fds (procs st p) v); [|done].
    repeat case_match; simplify_eq; to_prop; lia.
  + intros Hol. destruct (fds (procs st p) v); [|done].
    destruct (ret r =? -1) eqn:?; to_prop; [by left|].
    destruct (ret r =? 0) eqn:?; to_prop; [by right; left|].
    case_match; [|done]. case_decide as Hd; [|done]. to_prop. right; right.
    rewrite Hd, length_take. lia.
  + case_match; [|done]. to_prop. split; [lia|]. intros r' ol' Hin.
    apply Hclk in Hin. lia.
Qed.

(** *** Preservation *)

Lemma frames_ok_ext p pr pr' lg :
frames pr' = frames pr -> handlers pr' = handlers pr -> fds pr' = fds pr ->
frames_ok p pr lg -> frames_ok p pr' lg.
Proof. intros E1 E2 E3 []. split; rewrite ?E1, ?E2, ?E3; done. Qed.

Definition ev_role (e : event) : role :=
match e with EvCall p _ _ _ _ => p | EvDeliver p _ => p end.

Lemma hist_of_other p fr e lg : ev_role e <> p -> hist_of p fr (e :: lg) = hist_of p fr lg.
Proof. destruct e; simpl; [|done]. intros. apply hist_of_call_ne. congruence. Qed.

Lemma frames_ok_other p pr e lg :
ev_role e <> p -> frames_ok p pr lg -> frames_ok p pr (e :: lg).
Proof.
intros He []. split; intros *; rewrite ?hist_of_other by done; eauto.
- intros Hin. destruct (fo_running0 _ Hin). split; [by right|done].
- intros Hne. right. eauto.
Qed.

(** The running frame is replaced; nothing else changes. *)
Lemma frames_ok_top p pr lg fr q q' rest :
frames pr = (fr, q) :: rest -> wp p fr q' (hist_of p fr lg) ->
frames_ok p pr lg -> frames_ok p (set_frames pr ((fr, q') :: rest)) lg.
Proof.
intros E Hq []. rewrite E in *. split; try done. simpl.
intros fr' p' [[= -> ->]|Hin]%elem_of_cons; [done|]. apply fo_wp0. by right.
Qed.

Lemma frames_ok_tau p pr pr' lg : tau pr = Some pr' -> frames_ok p pr lg -> frames_ok p pr' lg.
Proof.
intros H Hok. unfold tau in H. destruct (frames pr) as [|[fr q] rest] eqn:E; [done|].
assert (wp p fr q (hist_of p fr lg)) as Hq by (apply Hok; rewrite E; by left).
destruct fr as [sg|], q; try done; simplify_eq.
- (* Return from a handler *)
  destruct Hok. rewrite E in *. split; try done; simpl.
  + intros fr q Hin. apply fo_wp0. by right.
  + by apply NoDup_cons in fo_nodup0 as [_ ?].
  + intros sg' Hin. apply fo_running0. by right.
- by destruct Hq.
- eapply frames_ok_top; eauto.
- eapply frames_ok_ext; try eapply frames_ok_top; eauto.
- (* a handler is installed *)
  destruct Hq as (_ & Hf & Hi & Hk).
  destruct Hok. rewrite E in *. split; try done; simpl.
  + intros fr q [[= -> ->]|Hin]%elem_of_cons; [done|]. apply fo_wp0. by right.
  + intros sg' f' Hf'. destruct (decide (sg = sg')) as [->|].
    * rewrite fn_lookup_insert in Hf'. by simplify_eq.
    * rewrite fn_lookup_insert_ne in Hf' by done. eauto.
- eapply frames_ok_top; eauto.
- eapply frames_ok_ext; try eapply frames_ok_top; eauto.
Qed.

Lemma frames_ok_kill p pr lg pd :
frames_ok p pr lg -> frames_ok p (mk_proc [(None, Exit (-1))] (globs pr) (handlers pr) pd (fds pr)) lg.
Proof.
intros []. split; try done; simpl.
- by intros fr q [= -> ->]%list_elem_of_singleton.
- apply NoDup_singleton.
- intros sg Hin. by apply list_elem_of_singleton in Hin.
Qed.

Context (Hhandlers : forall p sg h, wp p (Some sg) (hspec p sg sg) h).

Lemma frames_ok_deliver p pr lg sg f pd :
blocked pr sg = false -> handlers pr sg = Some f -> frames_ok p pr lg ->
frames_ok p (mk_proc ((Some sg, f sg) :: frames pr) (globs pr) (handlers pr) pd (fds pr))
  (EvDeliver p sg :: lg).
Proof.
intros Hb Hh []. destruct (fo_handlers0 _ _ Hh) as [Hf Hi]. split; simpl.
- intros fr q [[= -> ->]|Hin]%elem_of_cons; [rewrite Hf; apply Hhandlers|]. by apply fo_wp0.
- apply NoDup_cons. split; [|done]. intros ([fr q] & E & Hin)%list_elem_of_fmap. simpl in E.
  apply not_true_iff_false in Hb. apply Hb, existsb_exists. exists (fr, q).
  split; [by apply list_elem_of_In|]. by apply bool_decide_eq_true.
- eauto.
- intros sg' [[= ->]|Hin]%elem_of_cons; [split; [by left|done]|].
  destruct (fo_running0 _ Hin). split; [by right|done].
- intros sg' Hne. right. eauto.
- done.
- done.
Qed.

Lemma frames_ok_call st p fr c ok k rest r st' :
sys_inv st -> frames (procs st p) = (fr, CallUntil c ok k) :: rest ->
do_call addr st p c r = Some st' ->
frames_ok p (set_frames (procs st' p) ((fr, if ok r then k r else CallUntil c ok k) :: rest))
  (EvCall p fr c r (link_of_call (procs st p) c) :: log st).
Proof.
intros Hinv E H. pose proof (do_call_legal _ _ _ _ _ _ _ _ _ Hinv E H) as Hleg.
pose proof (do_call_same _ _ _ _ _ H) as [_ _ Hh _ _].
set (ol := link_of_call (procs st p) c) in *.
destruct (si_frames _ Hinv p). rewrite E in *.
assert (wp p fr (CallUntil c ok k) (hist_of p fr (log st))) as Hwp by (apply fo_wp0; by left).
assert (forall q fq, q = p -> fq <> fr ->
  hist_of q fq (EvCall p fr c r ol :: log st) = hist_of q fq (log st)) as Hne
  by (intros; apply hist_of_call_ne; congruence).
split; simpl.
- intros fr' q [[= -> ->]|Hin]%elem_of_cons.
  + rewrite hist_of_call. destruct (ok r) eqn:Hok; [|by apply wp_retry].
    destruct Hwp as (_ & _ & Hk). by apply (Hk [] r ol).
  + rewrite Hne; [apply fo_wp0; by right|done|].
    intros ->. apply NoDup_cons in fo_nodup0 as [Hni _]. apply Hni.
    apply list_elem_of_fmap. by exists (fr, q).
- done.
- intros sg f Hf. rewrite Hh in Hf. destruct (fo_handlers0 _ _ Hf). split; [done|].
  by apply installs_hist.
- intros sg Hin. destruct (fo_running0 _ Hin). split; [by right|]. by apply installs_hist.
- intros sg. destruct (decide (fr = Some sg)) as [->|Hfr].
  + intros _. right. apply fo_running0. by left.
  + rewrite Hne by done. intros ?. right. eauto.
- intros v. destruct (decide (fr = None)) as [->|Hfr].
  + rewrite hist_of_call. by eapply do_call_fds.
  + rewrite Hne by done. rewrite <- fo_fds0. destruct Hwp as (_ & Hb & _).
    erewrite do_call_fds_same; [done..|]. destruct (binds c); [|done]. by destruct Hfr, Hb.
- intros fq. destruct (decide (fq = fr)) as [->|].
  + rewrite hist_of_call. split; [apply Hwp|done].
  + by rewrite Hne.
Qed.

Lemma step_inv st st' : sys_inv st -> step addr st st' -> sys_inv st'.
Proof.
intros Hinv [lb H]. pose proof Hinv as [Hf Hn Hl H0 Hc].
assert (forall p pr', frames_ok p pr' (log st) -> sys_inv (set_proc st p pr')) as Hset.
{ intros p pr' Hok. split; [|done..]. intros q. simpl.
  destruct (decide (q = p)) as [->|]; [by rewrite fn_lookup_insert|by rewrite fn_lookup_insert_ne]. }
destruct lb as [p r|p|p|p sg|p sg]; simpl in H.
- destruct (frames (procs st p)) as [|[fr q] rest] eqn:E; [done|]. destruct q; try done.
  destruct (do_call _ _ _ _ _) as [st1|] eqn:Hd; simplify_eq.
  pose proof (do_call_same _ _ _ _ _ Hd) as [Hlog Hfr Hh Hfd Hnow].
  split; simpl; rewrite ?Hlog.
  + intros q. destruct (decide (q = p)) as [->|Hq].
    * rewrite fn_lookup_insert. by apply frames_ok_call.
    * rewrite fn_lookup_insert_ne by done. apply frames_ok_other; [done|].
      eapply frames_ok_ext; eauto.
  + intros l d. by apply do_call_net.
  + intros q fq c' r' l Hq Hin.
    destruct (decide ((q, fq) = (p, fr))) as [[= -> ->]|Hne].
    * rewrite hist_of_call in Hin. apply elem_of_cons in Hin as [Heq|Hin]; [|by eapply Hl].
      simplify_eq. destruct c; try done; simpl in *;
        rewrite (fo_fds _ _ _ (Hf p)) in *; by eapply binding_server.
    * rewrite hist_of_call_ne in Hin by done. by eapply Hl.
  + lia.
  + intros q fq r' ol' Hin. by eapply do_call_clock.
- destruct (tau _) as [pr'|] eqn:Ht; simplify_eq. apply Hset. by eapply frames_ok_tau.
- destruct (frames (procs st p)) as [|[fr q] rest] eqn:E; [done|]. destruct q; try done. simplify_eq.
  apply Hset. eapply frames_ok_top; [done| |done].
  assert (wp p fr (SigAction sg h k) (hist_of p fr (log st))) as Hq
    by (apply (Hf p); rewrite E; by left).
  apply Hq.
- simplify_eq. apply Hset. by apply (frames_ok_ext _ (procs st p)).
- destruct (terminated _); [done|]. case_decide; [|done].
  destruct (blocked _ _) eqn:Hb; simplify_eq.
  split; simpl.
  + intros q. destruct (decide (q = p)) as [->|Hq].
    * rewrite fn_lookup_insert. destruct (handlers (procs st p) sg) eqn:Hh.
      -- by apply frames_ok_deliver.
      -- destruct (frames_ok_kill p _ _ (filter (fun s => s <> sg) (pending (procs st p))) (Hf p)).
         split; try done.
         ++ intros ? Hin. by apply list_elem_of_singleton in Hin.
         ++ right. eauto.
    * rewrite fn_lookup_insert_ne by done. by apply frames_ok_other.
  + intros l d. rewrite sent_cons, rcvd_cons, Hn. simpl. by rewrite !app_nil_r.
  + done.
  + done.
  + done.
Qed.

(** Every reachable state satisfies the invariant. *)
Lemma reachable_inv st :
(forall p, wp p None (mains p) []) -> reachable addr mains st -> sys_inv st.
Proof.
intros Hm Hr. eapply star_invariant; [apply step_inv| |exact Hr].
split; [|done|by intros ? ? ? ? ? _ Hin%elem_of_nil|done|by intros ? ? ? ? Hin%elem_of_nil]. intros p. split; try done; simpl.
- by intros fr q [= -> ->]%list_elem_of_singleton.
- apply NoDup_singleton.
- intros sg Hin. by apply list_elem_of_singleton in Hin.
Qed.

(** *** Earlier states *)

Lemma step_log st st' :
step addr st st' -> (log st' = log st \/ exists e, log st' = e :: log st) /\ now st <= now st'.
Proof.
intros [lb E]. destruct lb as [p r|p|p|p sg|p sg]; simpl in E.
- destruct (frames (procs st p)) as [|[fr q] rest]; [done|]. destruct q; try done.
  destruct (do_call _ _ _ _ _) as [st1|] eqn:Hd; simplify_eq. pose proof (do_call_same _ _ _ _ _ Hd) as [Hlog _ _ _ Hnow].
  simpl. rewrite Hlog. split; [right; eauto|exact Hnow].
- destruct (tau _); simplify_eq. split; [by left|simpl; lia].
- destruct (frames (procs st p)) as [|[fr q] rest]; [done|]. destruct q; simplify_eq. split; [by left|simpl; lia].
- simplify_eq. split; [by left|simpl; lia].
- destruct (terminated _); [done|]. case_decide; [|done]. destruct (blocked _ _); simplify_eq. simpl. split; [eauto|lia].
Qed.

(** Every older part of a log was the log of a reachable state. *)
Lemma earlier_state st newer older :
reachable addr mains st -> log st = newer ++ older ->
exists st', reachable addr mains st' /\ log st' = older /\ now st' <= now st.
Proof.
intros Hr. revert newer older.
enough (reachable addr mains st /\ forall newer older, log st = newer ++ older -> exists st', reachable addr mains st' /\ log st' = older /\ now st' <= now st) as [_ H] by exact H.
apply (star_invariant (step addr) (fun b => reachable addr mains b /\ forall newer older, log b = newer ++ older -> exists st', reachable addr mains st' /\ log st' = older /\ now st' <= now b) (start_sys mains)); [| |exact Hr].
- intros a b [Ha IH] Hs. assert (reachable addr mains b) as Hb by (eapply star_trans; [exact Ha|by apply star_one]).
  split; [done|]. intros newer older E. destruct (step_log _ _ Hs) as [[El|[e El]] Hn]; rewrite El in E.
  + destruct (IH _ _ E) as (st' & ? & ? & ?). exists st'. split_and!; [done..|lia].
  + destruct newer as [|e' newer]; [exists b; split_and!; [done|by rewrite El|lia]|]. injection E as <- E.
    destruct (IH _ _ E) as (st' & ? & ? & ?). exists st'. split_and!; [done..|lia].
- split; [constructor|]. intros newer older E. symmetry in E. apply app_eq_nil in E as [-> ->]. exists (start_sys mains). split_and!; [constructor|done..].
Qed.

(** *** What the invariant gives *)

Lemma guarded_app p fr newer c r ol older : guarded p fr (newer ++ (c, r, ol) :: older) -> guard p fr older c.
Proof. induction newer as [|[[c' r'] ol'] newer IH]; [by intros []|]. intros [_ Hh]. by apply IH. Qed.

Lemma hist_of_app p fr newer older : hist_of p fr (newer ++ older) = hist_of p fr newer ++ hist_of p fr older.
Proof. apply omap_app. Qed.

Lemma guarded_at st p fr newer c r ol older :
sys_inv st -> log st = newer ++ EvCall p fr c r ol :: older -> guard p fr (hist_of p fr older) c.
Proof.
intros Hst E. pose proof (fo_guarded _ _ _ (si_frames _ Hst p) fr) as Hg. rewrite E, hist_of_app, hist_of_call in Hg. by eapply guarded_app.
Qed.

Lemma elem_of_hist p fr c r ol lg : (c, r, ol) ∈ hist_of p fr lg <-> EvCall p fr c r ol ∈ lg.
Proof.
unfold hist_of. rewrite list_elem_of_omap. split.
- intros (e & Hin & He). destruct e; [|done]. repeat case_decide; by simplify_eq.
- intros Hin. eexists; split; [done|]. simpl. by rewrite !decide_True by done.
Qed.

Lemma elem_of_sent x l d lg :
x ∈ sent l d lg ->
exists q fq v b r, EvCall q fq (Write v b) r (Some l) ∈ lg /\ out_dir q = d /\ x ∈ b.
Proof.
unfold sent. intros (bs & Hx & Hin)%list_elem_of_join.
apply list_elem_of_fmap in Hin as (e & -> & Hin). rewrite elem_of_reverse in Hin.
destruct e as [q fq c r [l'|]|]; [|by destruct c; apply elem_of_nil in Hx|by apply elem_of_nil in Hx].
destruct c; try by apply elem_of_nil in Hx. simpl in Hx.
repeat case_decide; subst; try by apply elem_of_nil in Hx.
exists q, fq, v, buf, r. split_and!; [done..|]. by eapply subseteq_take.
Qed.

Lemma elem_of_rcvd x p fr v n r l lg :
EvCall p fr (Read v n) r (Some l) ∈ lg -> 0 < ret r -> x ∈ data r -> x ∈ rcvd l (in_dir p) lg.
Proof.
intros Hin Hr Hx. unfold rcvd. apply list_elem_of_join. exists (data r). split; [done|].
apply list_elem_of_fmap. eexists. rewrite elem_of_reverse. split; [|exact Hin]. simpl.
by rewrite !decide_True, (proj2 (Z.ltb_lt _ _)) by done.
Qed.

(** A byte somebody received was written by somebody on the other side. *)
Lemma received_was_sent st p fr v n r l x :
sys_inv st -> (Read v n, r, Some l) ∈ hist_of p fr (log st) -> 0 < ret r -> x ∈ data r ->
exists q fq v' b r', (Write v' b, r', Some l) ∈ hist_of q fq (log st) /\ out_dir q = in_dir p /\ x ∈ b.
Proof.
intros Hinv Hin Hr Hx. apply elem_of_hist in Hin.
assert (x ∈ sent l (in_dir p) (log st)) as Hs.
{ rewrite (si_net _ Hinv). apply elem_of_app. left. by eapply elem_of_rcvd. }
apply elem_of_sent in Hs as (q & fq & v' & b & r' & He & Hd & Hb).
exists q, fq, v', b, r'. by rewrite elem_of_hist.
Qed.

Lemma handler_delivered st p sg e :
sys_inv st -> e ∈ hist_of p (Some sg) (log st) -> EvDeliver p sg ∈ log st.
Proof.
intros Hinv Hin. apply (fo_past _ _ _ (si_frames _ Hinv p)). intros E. rewrite E in Hin. by apply elem_of_nil in Hin.
Qed.

Lemma binding_bound p e h v : binding p h v <> None -> binding p (e :: h) v <> None.
Proof. destruct e as [[[] r] ol]; simpl; repeat case_match; done. Qed.
End Logic.
