(* ===== verification/Controller.v ===== *)
(** * The migration controller (src/apps/controller.c)

    The wrappers around system calls, the two sets of role programs (QEMU's own
    pre-/post-copy migration and the shared memory migration) with their signal
    handlers, and [main]'s dispatch on the command line.  Each C function is one
    definition; [k] is what the caller does next. *)

From Stdlib Require Import Ascii.
From S2P Require Import Prelude CString Config Proc.

#[local] Open Scope prog_scope.
#[local] Abbreviation L := lit.

(** [sprintf]/[printf] with its conversions already rendered. *)
Definition fmt (pieces : list bytes) : bytes := mjoin pieces.
Definition nl : bytes := [NL].

(** The command line's strings, as [main] copies them into its globals. *)
Record args := mk_args {
  bench_script : bytes; cpu_num : bytes; memory_size : bytes; output_file : bytes;
  duration : bytes; max_bandwidth : bytes; write_through_duration : bytes;
}.

Definition no_args : args := mk_args [] [] [] [] [] [] [].

(** ** Wrappers *)

Definition assert_ (b : bool) (k : prog) : prog := if b then k else Abort.

(** [printf(...)] and then [exit(code)]. *)
Definition die (text : list bytes) (code : Z) : prog := Do (Print (fmt text)) ;; Exit code.
Definition print (text : list bytes) (k : prog) : prog := Do (Print (fmt text)) k.

(** [snprintf(commandname, 2048, "%s", command); return system(commandname);] *)
Definition execute_wrapper (command : bytes) (k : Z -> prog) : prog :=
  r <- Call (System (take 2047 command)) ;; k (ret r).

(** [while (1) { int ret = execute_wrapper(instr); if (!ret) break; }] *)
Definition execute_until_success (command : bytes) (k : prog) : prog :=
  _ <- CallUntil (System (take 2047 command)) (fun r => ret r =? 0) ;; k.

(** [assert(execute_wrapper(instr) == 0);] *)
Definition execute_assert (command : bytes) (k : prog) : prog :=
  status <- execute_wrapper command ;; assert_ (status =? 0) ;; k.

(** The child's [execvp] runs the command; the parent goes on. *)
Definition execute_wrapper_process (command : bytes) (k : prog) : prog :=
  r <- Call (Vfork command) ;;
  if ret r =? -1 then die [L "fork"] (-1) else k.

Definition listen_wrapper (v : fdvar) (addr port : bytes) (k : prog) : prog :=
  r <- Call Socket ;;
  if ret r =? -1 then die [L "socket creation failed..."; nl] 0 else
  r <- Call (Bind addr port) ;;
  if negb (ret r =? 0) then die [L "socket bind failed..."; nl] 0 else
  r <- Call (Listen 15) ;;
  if negb (ret r =? 0) then die [L "Listen failed..."; nl] 0 else
  r <- Call (Accept v) ;;
  if ret r <? 0 then die [L "server accept failed..."; nl] 0 else
  k.

Definition connect_wrapper (v : fdvar) (addr port : bytes) (k : prog) : prog :=
  r <- Call Socket ;;
  if ret r =? -1 then die [L "socket creation failed..."; nl] 0 else
  r <- Call (Connect v addr port) ;;
  if ret r <? 0 then die [L "connect failed!"; nl] 0 else
  k.

(** [uint32_t write_len = write(fd, data, strlen(data)); assert(write_len == strlen(data));] *)
Definition write_to_file (v : fdvar) (data : bytes) (k : prog) : prog :=
  r <- Call (Write v (c_str data)) ;;
  assert_ (u32 (ret r) =? Z.of_nat (strlen data)) ;; k.

(** [len] is a [sizeof], one more than the message's length; the loop leaves at
    the first non-zero result, also at -1, which is a large [uint32_t]. *)
Definition read_from_file (v : fdvar) (len : Z) (k : bytes -> prog) : prog :=
  r <- CallUntil (Read v (len - 1)) (fun r => negb (u32 (ret r) =? 0)) ;;
  assert_ (u32 (ret r) =? len - 1) ;; k (data r).

Definition sizeof (msg : bytes) : Z := Z.of_nat (length msg) + 1.

(** [read_from_file(fd, sizeof(msg), buff); assert(strcmp(buff, msg) == 0);] *)
Definition expect (v : fdvar) (msg : bytes) (k : prog) : prog :=
  buff <- read_from_file v (sizeof msg) ;;
  assert_ (strcmp buff msg =? 0) ;; k.

Definition write_pid (file : bytes) (k : prog) : prog := Do (WritePid file) k.

(** [if (signal(sg, h) == SIG_ERR) { ...; exit(-1); }] *)
Definition install (sg : signal) (h : signal -> prog) (k : prog) : prog :=
  r <- SigAction sg h ;;
  if r =? -1 then die [L "An error occurred while setting a signal handler."; nl] (-1)
  else k.

(** The difference of two times in nanoseconds, in [long long]. *)
Definition ns_diff (b a : timespec) : Z := i64 (b.1 * NSEC + b.2 - a.1 * NSEC - a.2).
Definition ns_abs (a : timespec) : Z := i64 (a.1 * NSEC + a.2).
Definition clock (k : timespec -> prog) : prog := r <- Call ClockGettime ;; k (time r).

Definition dquote : bytes := ["034"%char].

(** [echo "command" | sudo socat stdio unix-connect:qemu-monitor-migration-...] *)
Definition monitor (side : bytes) (command : list bytes) : bytes :=
  fmt [L "echo "; dquote; fmt command; dquote;
       L " | sudo socat stdio unix-connect:qemu-monitor-migration-"; side].

Definition SRC : bytes := L "src".
Definition DST : bytes := L "dst".

(** ** QEMU's own migration: [qemu-precopy] and [qemu-postcopy] *)

Section Roles.
Context (cfg : config) (a : args).

Definition src_boot : bytes :=
fmt [L "sudo bash scripts/src_boot.sh "; bench_script a; L " "; cpu_num a; L " ";
     memory_size a; L " > "; output_file a].
Definition dst_boot : bytes :=
fmt [L "sudo bash scripts/dst_boot.sh "; cpu_num a; L " "; memory_size a; L " > "; output_file a].

Definition signal_handler_src (sg : signal) : prog :=
if decide (sg = SIGUSR1) then
  print [L "src: Received SIGUSR1 signal"; nl] ;;
  write_to_file connfd (L "qemu_pre_copy_finish") ;;
  Return
else Return.

(** [flag]: pre-copy; otherwise post-copy. *)
Definition qemu_src_main (flag : bool) : prog :=
print [L "Hello from the source!"; nl] ;;
write_pid (L "./src_controller.pid") ;;
install SIGUSR1 signal_handler_src ;;
execute_wrapper_process src_boot ;;
execute_until_success (monitor SRC [L "migrate_set_parameter max-bandwidth "; max_bandwidth a]) ;;
print [L "The target downtime is 150ms."; nl] ;;
_ <- execute_wrapper (monitor SRC [L "migrate_set_parameter downtime-limit 150"]) ;;
(fun k => if negb flag then
   execute_assert (monitor SRC [L "migrate_set_capability postcopy-ram on"]) ;;
   execute_assert (monitor SRC [L "migrate_set_capability postcopy-preempt on"]) ;; k
 else k) ;;
print [L "addr:  "; src_ip cfg; L ":"; src_control_port cfg; nl] ;;
listen_wrapper connfd (src_ip cfg) (src_control_port cfg) ;;
expect connfd (L "qemu_migrate") ;;
execute_assert (monitor SRC [L "migrate -d tcp:"; dst_ip cfg; L ":"; migration_port cfg]) ;;
(fun k => if negb flag then
   execute_assert (monitor SRC [L "migrate_start_postcopy"]) ;; k
 else k) ;;
Do (Usleep 1000) ;;
_ <- execute_wrapper (L "sudo bash scripts/pin_vm_to_cores.sh src") ;;
Idle.

(** What the two destination handlers do after their test of the signal. *)
Definition dst_notify (name : bytes) : prog :=
print [L "dst: Received "; name; L " signal"; nl] ;;
g <- Get ;;
write_to_file connfd
  (if sigusr1_count g =? 0 then L "qemu_vm_restart" else L "qemu_post_copy_finish") ;;
g <- Get ;;
(fun k => if sigusr1_count g =? 0 then
   Do (Usleep 1000) ;;
   _ <- execute_wrapper (L "sudo bash scripts/pin_vm_to_cores.sh dst") ;; k
 else k) ;;
Put (fun g => mk_globals 1 (start_time g) (end_time g)) ;;
Return.

Definition signal_handler_dst_1 (sg : signal) : prog :=
if decide (sg = SIGUSR1) then dst_notify (L "SIGUSR1") else Return.

Definition signal_handler_dst_2 (sg : signal) : prog :=
if decide (sg = SIGUSR2) then dst_notify (L "SIGUSR2") else Return.

Definition qemu_dst_main (flag : bool) : prog :=
print [L "Hello from the dest!"; nl] ;;
write_pid (L "./dst_controller.pid") ;;
install SIGUSR1 signal_handler_dst_1 ;;
install SIGUSR2 signal_handler_dst_2 ;;
print [L "Starting dest VM!"; nl] ;;
print [dst_boot; nl] ;;
execute_wrapper_process dst_boot ;;
execute_until_success (monitor DST [L "migrate_set_parameter max-bandwidth "; max_bandwidth a]) ;;
(fun k => if negb flag then
   execute_assert (monitor DST [L "migrate_set_capability postcopy-ram on"]) ;;
   execute_assert (monitor DST [L "migrate_set_capability postcopy-preempt on"]) ;; k
 else k) ;;
execute_assert (monitor DST [L "migrate_incoming tcp:"; dst_ip cfg; L ":"; migration_port cfg]) ;;
print [L "addr:  "; dst_ip cfg; L ":"; dst_control_port cfg; nl] ;;
listen_wrapper connfd (dst_ip cfg) (dst_control_port cfg) ;;
Idle.

Definition report (what : bytes) (ns : Z) (k : prog) : prog :=
print [what; L ": "; fmt_d ns; L " ns"; nl] k.

Definition signal_handler_backup (sg : signal) : prog :=
if decide (sg = SIGUSR1) then
  print [L "backup: Received SIGUSR1 signal"; nl] ;;
  print [L "The wait to migrate duration is "; fmt_d (atoi (write_through_duration a)); nl] ;;
  Do (Sleep (atoi (write_through_duration a))) ;;
  before_migrate <- clock ;;
  write_to_file srcfd (L "qemu_migrate") ;;
  expect srcfd (L "qemu_pre_copy_finish") ;;
  pre_copy_finish <- clock ;;
  report (L "pre-copy duration") (ns_diff pre_copy_finish before_migrate) ;;
  buff <- read_from_file dstfd (sizeof (L "qemu_vm_restart")) ;;
  print [L "asd123www: "; c_str buff; nl] ;;
  assert_ (strcmp buff (L "qemu_vm_restart") =? 0) ;;
  vm_restart <- clock ;;
  expect dstfd (L "qemu_post_copy_finish") ;;
  post_copy_finish <- clock ;;
  report (L "vm downtime") (ns_diff vm_restart pre_copy_finish) ;;
  report (L "post-copy duration") (ns_diff post_copy_finish vm_restart) ;;
  report (L "Migration start") (ns_abs before_migrate) ;;
  report (L "Migration end") (ns_abs post_copy_finish) ;;
  Return
else Return.

Definition backup_main (hello : bytes) (handler : signal -> prog) : prog :=
print [hello; nl] ;;
print [L "src:  "; src_ip cfg; L ":"; src_control_port cfg; nl] ;;
print [L "dst:  "; dst_ip cfg; L ":"; dst_control_port cfg; nl] ;;
connect_wrapper srcfd (src_ip cfg) (src_control_port cfg) ;;
connect_wrapper dstfd (dst_ip cfg) (dst_control_port cfg) ;;
write_pid (L "./controller.pid") ;;
install SIGUSR1 handler ;;
Idle.

Definition qemu_backup_main : prog :=
backup_main (L "Hello from the backup!") signal_handler_backup.

(** ** Shared memory migration *)

Definition signal_handler_shm_src_complete (sg : signal) : prog :=
if decide (sg = SIGUSR1) then
  g <- Get ;;
  assert_ (negb (sigusr1_count g =? 0)) ;;
  print [L "shm_src: VM image is complete!"; nl] ;;
  write_to_file connfd (L "complete_vm_image") ;;
  _ <- execute_wrapper (monitor SRC [L "q"]) ;;
  Return
else Return.

Definition signal_handler_shm_src_precopy (sg : signal) : prog :=
if decide (sg = SIGUSR2) then
  print [L "shm_src: pre-copy has finished!"; nl] ;;
  write_to_file connfd (L "shm_pre_copy_finish") ;;
  Put (fun g => mk_globals 1 (start_time g) (end_time g)) ;;
  Return
else Return.

Definition shm_migrate_cmd : bytes :=
monitor SRC [L "shm_migrate /my_shared_memory "; fmt_d (i32 (atoi (memory_size a) + 1));
             L " "; duration a].
Definition switchover_cmd : bytes := monitor SRC [L "shm_migrate_switchover"].
Definition incoming_cmd : bytes :=
monitor DST [L "migrate_incoming_shm /my_shared_memory "; fmt_d (i32 (atoi (memory_size a) + 1))].

Definition shm_src_main : prog :=
print [L "Hello from the shm_source!"; nl] ;;
write_pid (L "./src_controller.pid") ;;
install SIGUSR1 signal_handler_shm_src_complete ;;
install SIGUSR2 signal_handler_shm_src_precopy ;;
_ <- execute_wrapper (L "sudo rm /dev/shm/my_shared_memory") ;;
execute_wrapper_process src_boot ;;
print [L "addr:  "; src_ip cfg; L ":"; src_control_port cfg; nl] ;;
listen_wrapper connfd (src_ip cfg) (src_control_port cfg) ;;
expect connfd (L "shm_migrate") ;;
_ <- execute_wrapper shm_migrate_cmd ;;
expect connfd (L "shm_migrate_switchover") ;;
_ <- execute_wrapper switchover_cmd ;;
Idle.

Definition signal_handler_shm_dst (sg : signal) : prog :=
if decide (sg = SIGUSR1) then
  write_to_file connfd (L "switchover_finished") ;;
  t <- clock ;;
  Put (fun g => mk_globals (sigusr1_count g) (start_time g) t) ;;
  g <- Get ;;
  print [nl; nl; L "dst load VM image durtion: "; fmt_d (ns_diff (end_time g) (start_time g));
         L " ns"; nl] ;;
  Return
else Return.

Definition shm_dst_main : prog :=
print [L "Hello from the shm_destination!"; nl] ;;
write_pid (L "./dst_controller.pid") ;;
print [L "addr:  "; dst_ip cfg; L ":"; dst_control_port cfg; nl] ;;
listen_wrapper connfd (dst_ip cfg) (dst_control_port cfg) ;;
install SIGUSR1 signal_handler_shm_dst ;;
expect connfd (L "start_target_vm") ;;
print [L "Starting dest VM!"; nl] ;;
execute_wrapper_process dst_boot ;;
expect connfd (L "shm_load_vm_image") ;;
t <- clock ;;
Put (fun g => mk_globals (sigusr1_count g) t (end_time g)) ;;
execute_until_success incoming_cmd ;;
Idle.

Definition signal_handler_shm_backup (sg : signal) : prog :=
if decide (sg = SIGUSR1) then
  print [L "backup: Received SIGUSR1 signal"; nl] ;;
  print [L "The write-through duration is "; fmt_d (atoi (write_through_duration a)); nl] ;;
  write_to_file srcfd (L "shm_migrate") ;;
  Do (Sleep (atoi (write_through_duration a))) ;;
  before_migrate <- clock ;;
  write_to_file srcfd (L "shm_migrate_switchover") ;;
  Do (Usleep 1000) ;;
  write_to_file dstfd (L "start_target_vm") ;;
  expect srcfd (L "shm_pre_copy_finish") ;;
  pre_copy_finish <- clock ;;
  report (L "pre-copy duration") (ns_diff pre_copy_finish before_migrate) ;;
  expect srcfd (L "complete_vm_image") ;;
  write_to_file dstfd (L "shm_load_vm_image") ;;
  expect dstfd (L "switchover_finished") ;;
  vm_restart <- clock ;;
  report (L "vm downtime") (ns_diff vm_restart pre_copy_finish) ;;
  report (L "Migration start") (ns_abs before_migrate) ;;
  report (L "Migration end") (ns_abs vm_restart) ;;
  Return
else Return.

Definition shm_backup_main : prog :=
backup_main (L "Hello from the shm_backup!") signal_handler_shm_backup.
End Roles.

(** ** [main] *)

Definition ARG_LEN : nat := 256.

Inductive main_outcome :=
| Usage                          (** too few arguments: [return 1] *)
| ConfigFailed (e : cfg_outcome) (** reading the configuration failed *)
| AssertFailed                   (** unknown mode or machine type *)
| StrcpyOverflow                 (** an argument does not fit its global *)
| Run (p : prog).                (** the role's program *)

Definition fits_args (l : list bytes) : bool := forallb (fun s => (length s <? ARG_LEN)%nat) l.

Section Main.
Context (argv : list bytes) (file : option bytes).

Definition argc : Z := Z.of_nat (length argv).
Definition arg (i : nat) : bytes := default [] (argv !! i).
Definition arg_is (i : nat) (s : string) : bool := strcmp (arg i) (L s) =? 0.

Definition print_args (l : list (bytes * bytes)) (k : prog) : prog :=
foldr (fun e k => print [e.1; L ": "; e.2; nl] k) k l.

Definition banner (k : prog) : prog :=
print_args [(L "Migration mode", arg 1); (L "Machine type", arg 2)] k.

(** The [strcpy]s into the globals, then the role. *)
Definition launch (copied : list bytes) (printed : list (bytes * bytes)) (role_main : prog) : main_outcome :=
if fits_args copied then Run (banner ;; print_args printed ;; role_main) else StrcpyOverflow.

Definition main_src (cfg : config) (shm : bool) (role_main : args -> prog) : main_outcome :=
if argc <? 8 then Usage
else
  let a := mk_args (arg 3) (arg 4) (arg 5) (arg 6)
             (if shm then arg 7 else []) (if shm then [] else arg 7) [] in
  launch [arg 3; arg 4; arg 5; arg 6; arg 7]
    ([(L "benchmark script", arg 3); (L "# of vCPU", arg 4);
      (L "Memory size", arg 5); (L "Output file", arg 6)] ++
     (if shm then [] else [(L "Max-bandwidth", arg 7)]))
    (role_main a).

Definition main_dst (cfg : config) (shm : bool) (role_main : args -> prog) : main_outcome :=
if argc <? (if shm then 6 else 7) then Usage
else
  let a := mk_args [] (arg 3) (arg 4) (arg 5) [] (if shm then [] else arg 6) [] in
  launch ([arg 3; arg 4; arg 5] ++ (if shm then [] else [arg 6]))
    ([(L "# of vCPU", arg 3); (L "Memory size", arg 4); (L "Output file", arg 5)] ++
     (if shm then [] else [(L "Max-bandwidth", arg 6)]))
    (role_main a).

Definition main_backup (role_main : args -> prog) : main_outcome :=
if argc <? 4 then Usage
else if arg_is 2 "backup" then
  launch [arg 3] [] (role_main (mk_args [] [] [] [] [] [] (arg 3)))
else AssertFailed.

Definition main : main_outcome :=
if argc <? 3 then Usage
else
  match read_config file with
  | inl e => ConfigFailed e
  | inr cfg =>
      if arg_is 1 "shm" then
        if arg_is 2 "src" then main_src cfg true (shm_src_main cfg)
        else if arg_is 2 "dst" then main_dst cfg true (shm_dst_main cfg)
        else main_backup (shm_backup_main cfg)
      else
        let flag := arg_is 1 "qemu-precopy" in
        if flag || arg_is 1 "qemu-postcopy" then
          if arg_is 2 "src" then main_src cfg false (fun a => qemu_src_main cfg a flag)
          else if arg_is 2 "dst" then main_dst cfg false (fun a => qemu_dst_main cfg a flag)
          else main_backup (qemu_backup_main cfg)
        else AssertFailed
  end.
End Main.
