(* ===== verification/ControllerFacts.v ===== *)
(** * The controller's wrappers, buffers and command line

    Facts about src/apps/controller.c that need no protocol: what a message read
    does with each answer of the kernel, that every command fits the buffers it
    is printed into, and which program [main] runs. *)

From Stdlib Require Import Ascii.
From S2P Require Import Prelude CString Config Proc Controller.

(** ** Reading a message *)

(** The program a reply to a message read leads to. *)
Definition after_read (v : fdvar) (n : Z) (k : bytes -> prog) (r : reply) : prog :=
  if ret r =? 0 then read_from_file v n k
  else if ret r =? n - 1 then k (data r)
  else Abort.

(** Whatever a bound socket answers to a message read of [n - 1] bytes, the
    controller goes on exactly when all of them arrive at once; an error or a short
    read aborts it, and end of file makes it ask again. *)
Theorem read_from_file_outcomes addr st p fr v n k rest l r st' :
  frames (procs st p) = (fr, read_from_file v n k) :: rest ->
  fds (procs st p) v = Some l -> 0 < n - 1 < 2 ^ 31 ->
  exec addr st (LCall p r) = Some st' ->
  frames (procs st' p) = (fr, after_read v n k r) :: rest.
Proof.
  intros E Hfd Hn H. simpl in H. rewrite E in H. unfold read_from_file at 1 in H.
  destruct (do_call addr st p (Read v (n - 1)) r) as [st1|] eqn:Hd; [|done].
  simplify_eq. simpl. rewrite fn_lookup_insert. simpl. f_equal. f_equal.
  simpl in Hd. rewrite Hfd in Hd. unfold after_read.
  destruct (ret r =? -1) eqn:E1; to_prop.
  { rewrite E1. change (u32 (-1)) with 4294967295.
    replace (4294967295 =? n - 1) with false by (symmetry; apply Z.eqb_neq; lia).
    by replace (-1 =? n - 1) with false by (symmetry; apply Z.eqb_neq; lia). }
  destruct (ret r =? 0) eqn:E2; to_prop.
  { by rewrite E2. }
  case_match; [|done]. to_prop. case_decide; [|done].
  assert (in_u 32 (ret r)) as Hu by (unfold in_u; lia).
  rewrite (wrap_u_id _ _ Hu). rewrite (proj2 (Z.eqb_neq _ _) E2). done.
Qed.

(** Once its peer has gone and nothing is queued, a controller that waits for
    a message asks forever: every answer but an error leaves it where it was. *)
Theorem read_from_file_eof_spins addr st p fr v n k rest l r st' :
  frames (procs st p) = (fr, read_from_file v n k) :: rest ->
  fds (procs st p) v = Some l -> 0 < n - 1 < 2 ^ 31 -> queue st l (in_dir p) = [] ->
  exec addr st (LCall p r) = Some st' -> ret r <> -1 ->
  frames (procs st' p) = frames (procs st p).
Proof.
  intros E Hfd Hn Hq H Hr. simpl in H. rewrite E in H |- *.
  unfold read_from_file at 1 in H.
  destruct (do_call addr st p (Read v (n - 1)) r) as [st1|] eqn:Hd; [|done].
  simplify_eq. simpl. rewrite fn_lookup_insert. simpl. f_equal. f_equal.
  simpl in Hd. rewrite Hfd, Hq in Hd.
  rewrite (proj2 (Z.eqb_neq _ _) Hr) in Hd.
  destruct (ret r =? 0) eqn:E2; to_prop; [by rewrite E2|].
  destruct (_ && _) eqn:E3; [|done]. to_prop. exfalso. simpl in *. lia.
Qed.

(** A source controller that waits for its first message, its peer gone. *)
Definition waiting (q : bytes) : sys :=
  mk_sys (fun p => mk_proc [(None, match p with
                                   | Src => expect connfd (lit "shm_migrate") Idle
                                   | _ => Exit 0 end)]
                     globals0 (fun _ => None) [] (fun _ => Some SrcLink))
    (fun _ _ => q) 0 [].

Lemma read_from_file_outcomes_witness :
  exists st', exec (fun _ => ([], [])) (waiting (lit "shm_mi")) (LCall Src (mk_reply 6 (lit "shm_mi") (0, 0))) = Some st' /\
              frames (procs st' Src) = [(None, Abort)].
Proof.
  eexists. split; [reflexivity|].
  eapply (read_from_file_outcomes (fun _ => ([], [])) (waiting (lit "shm_mi")) Src None connfd
            (sizeof (lit "shm_migrate")) _ [] SrcLink (mk_reply 6 (lit "shm_mi") (0, 0)));
    [reflexivity|reflexivity|done|reflexivity].
Defined.

Lemma read_from_file_eof_spins_witness :
  exists st', exec (fun _ => ([], [])) (waiting []) (LCall Src (mk_reply 0 [] (0, 0))) = Some st' /\
              frames (procs st' Src) = frames (procs (waiting []) Src).
Proof.
  eexists. split; [reflexivity|].
  eapply (read_from_file_eof_spins (fun _ => ([], [])) (waiting []) Src None connfd
            (sizeof (lit "shm_migrate")) _ [] SrcLink (mk_reply 0 [] (0, 0)));
    [reflexivity|reflexivity|done|reflexivity|reflexivity|done].
Defined.

(** ** Buffers *)

Definition args_ok (a : args) : Prop :=
  Forall (fun s => (length s < ARG_LEN)%nat)
    [bench_script a; cpu_num a; memory_size a; output_file a; duration a;
     max_bandwidth a; write_through_duration a].

Definition config_ok (cfg : config) : Prop :=
  Forall (fun s => (length s < IP_LEN)%nat) [src_ip cfg; dst_ip cfg; backup_ip cfg; vm_ip cfg] /\
  Forall (fun s => (length s < PORT_LEN)%nat)
    [migration_port cfg; src_control_port cfg; dst_control_port cfg; backup_control_port cfg].

Lemma scan_lines_fits n key value cap f v :
  (length value < cap)%nat -> scan_lines n key value cap f = CfgDone v -> (length v < cap)%nat.
Proof.
  intros Hv. revert f. induction n as [|n IH]; intros f; simpl; [by intros [= <-]|].
  destruct (fgets _ _) as [[l r]|]; [|by intros [= <-]]. case_match; [|apply IH].
  destruct (strchr _ _); [|done]. case_match; [done|]. intros [= <-]. to_prop.
  rewrite length_take. lia.
Qed.

Lemma get_config_value_fits file key value cap v :
  (length value < cap)%nat -> get_config_value file key value cap = CfgDone v -> (length v < cap)%nat.
Proof. destruct file; unfold get_config_value; [apply scan_lines_fits|done]. Qed.

Lemma read_config_fits file cfg : read_config file = inr cfg -> config_ok cfg.
Proof.
  unfold read_config, cfg_bind. intros H.
  repeat (match type of H with
          | context [get_config_value ?f ?k ?v ?c] =>
              let E := fresh "E" in
              destruct (get_config_value f k v c) eqn:E; [done..|];
              apply get_config_value_fits in E; [|unfold IP_LEN, PORT_LEN; simpl; lia]
          end).
  simplify_eq. by split; rewrite !Forall_cons, Forall_nil.
Qed.

(** Every command line the controller prints into [char instr[2048]]. *)
Definition instr_commands (cfg : config) (a : args) : list bytes :=
  [src_boot a; dst_boot a;
   monitor SRC [lit "migrate_set_parameter max-bandwidth "; max_bandwidth a];
   monitor DST [lit "migrate_set_parameter max-bandwidth "; max_bandwidth a];
   monitor SRC [lit "migrate -d tcp:"; dst_ip cfg; lit ":"; migration_port cfg];
   monitor DST [lit "migrate_incoming tcp:"; dst_ip cfg; lit ":"; migration_port cfg];
   shm_migrate_cmd a; incoming_cmd a].

Lemma dec_digits_length fuel n acc : (length (dec_digits fuel n acc) <= fuel + length acc)%nat.
Proof.
  revert n acc; induction fuel as [|fuel IH]; intros n acc; simpl; [lia|].
  case_match; simpl; [lia|]. etrans; [apply IH|]. simpl. lia.
Qed.

Lemma fmt_d_length n : (length (fmt_d n) <= 21)%nat.
Proof.
  unfold fmt_d. pose proof (dec_digits_length 20 (- n) []) as H1.
  pose proof (dec_digits_length 20 n []) as H2. change (length (@nil ascii)) with 0%nat in *.
  revert H1 H2. generalize (dec_digits 20 (- n) []) (dec_digits 20 n []). intros x y H1 H2.
  destruct (n <? 0); simpl; lia.
Qed.

Lemma length_fmt l : length (fmt l) = sum_list (length <$> l).
Proof. unfold fmt. induction l; simpl; [done|]. by rewrite length_app, IHl. Qed.

(** Whatever configuration file and command line the controller accepted, no
    [sprintf] into its 2048 byte command buffer overflows, so [execute_wrapper]
    never truncates a command. *)
Theorem commands_fit_buffer file cfg a :
  read_config file = inr cfg -> args_ok a ->
  Forall (fun c => (length c < 2048)%nat /\ take 2047 c = c) (instr_commands cfg a).
Proof.
  intros [Hip Hport]%read_config_fits Ha.
  assert (Forall (fun c => (length c < 2048)%nat) (instr_commands cfg a)) as H.
  { unfold args_ok, instr_commands, ARG_LEN, IP_LEN, PORT_LEN in *.
    unfold shm_migrate_cmd, incoming_cmd.
    pose proof (fmt_d_length (i32 (atoi (memory_size a) + 1))) as Hd. revert Hd.
    generalize (fmt_d (i32 (atoi (memory_size a) + 1))). intros d Hd.
    repeat match goal with H : Forall _ (_ :: _) |- _ => apply Forall_cons in H as [? ?] end.
    rewrite !Forall_cons, Forall_nil. split_and!; [..|done]; unfold src_boot, dst_boot, monitor;
      rewrite ?length_fmt; cbn [fmap list_fmap sum_list]; rewrite ?length_fmt;
      cbn [fmap list_fmap sum_list]; vm_compute lit; simpl length; unfold id; lia. }
  revert H. generalize (instr_commands cfg a). clear. intros l H.
  eapply Forall_impl; [exact H|]. intros c Hc. cbn beta in *. split; [done|]. apply take_ge. lia.
Qed.

Lemma commands_fit_buffer_witness :
  Forall (fun c => (length c < 2048)%nat /\ take 2047 c = c)
    (instr_commands repo_config (mk_args (lit "apps/vm-boot/redis.exp") (lit "4") (lit "20G") (lit "vm_src.txt") [] [] [])).
Proof.
  apply (commands_fit_buffer (Some config_txt)); [exact read_repo_config|].
  unfold args_ok. by_decide.
Defined.

(** ** The command line *)

Inductive mode := Shm | Precopy | Postcopy.

#[export] Instance mode_eq_dec : EqDecision mode.
Proof. solve_decision. Defined.

Definition mode_name (m : mode) : bytes :=
  match m with Shm => lit "shm" | Precopy => lit "qemu-precopy" | Postcopy => lit "qemu-postcopy" end.
Definition role_name (p : role) : bytes :=
  match p with Src => lit "src" | Dst => lit "dst" | Backup => lit "backup" end.

(** The number of arguments a role needs, [argv[0]] included. *)
Definition role_argc (m : mode) (p : role) : nat :=
  match p, m with
  | Src, _ => 8 | Dst, Shm => 6 | Dst, _ => 7 | Backup, _ => 4
  end.

Definition role_program (m : mode) (p : role) (cfg : config) (a : args) : prog :=
  match m, p with
  | Shm, Src => shm_src_main cfg a
  | Shm, Dst => shm_dst_main cfg a
  | Shm, Backup => shm_backup_main cfg a
  | _, Src => qemu_src_main cfg a (bool_decide (m = Precopy))
  | _, Dst => qemu_dst_main cfg a (bool_decide (m = Precopy))
  | _, Backup => qemu_backup_main cfg a
  end.

(** The globals a role's command line sets. *)
Definition role_args (m : mode) (p : role) (argv : list bytes) : args :=
  match p, m with
  | Src, Shm => mk_args (arg argv 3) (arg argv 4) (arg argv 5) (arg argv 6) (arg argv 7) [] []
  | Src, _ => mk_args (arg argv 3) (arg argv 4) (arg argv 5) (arg argv 6) [] (arg argv 7) []
  | Dst, Shm => mk_args [] (arg argv 3) (arg argv 4) (arg argv 5) [] [] []
  | Dst, _ => mk_args [] (arg argv 3) (arg argv 4) (arg argv 5) [] (arg argv 6) []
  | Backup, _ => mk_args [] [] [] [] [] [] (arg argv 3)
  end.

(** The lines [main] prints before it enters the role. *)
Definition role_banner (m : mode) (p : role) (argv : list bytes) (k : prog) : prog :=
  banner argv (print_args
    (match p with
     | Src => [(lit "benchmark script", arg argv 3); (lit "# of vCPU", arg argv 4);
               (lit "Memory size", arg argv 5); (lit "Output file", arg argv 6)] ++
              (if decide (m = Shm) then [] else [(lit "Max-bandwidth", arg argv 7)])
     | Dst => [(lit "# of vCPU", arg argv 3); (lit "Memory size", arg argv 4); (lit "Output file", arg argv 5)] ++
              (if decide (m = Shm) then [] else [(lit "Max-bandwidth", arg argv 6)])
     | Backup => []
     end) k).

(** Arguments come from the kernel: they hold no NUL. *)
Definition argv_ok (argv : list bytes) : Prop := Forall no_nul argv.

Lemma arg_no_nul argv i : argv_ok argv -> no_nul (arg argv i).
Proof.
  intros H. unfold arg. destruct (argv !! i) as [s|] eqn:E; [|constructor].
  by eapply Forall_lookup_1.
Qed.

Ltac solve_arg_no_nul :=
  lazymatch goal with
  | H : Forall no_nul ?argv |- no_nul (arg ?argv _) => apply (arg_no_nul _ _ H)
  | |- no_nul (lit _) => solve_no_nul
  end.
Ltac eval_bool_decide :=
  repeat match goal with
  | |- context [bool_decide (?a = ?b)] =>
      let v := eval vm_compute in (bool_decide (a = b)) in change (bool_decide (a = b)) with v
  end; cbn [orb negb]; cbn iota.

Lemma arg_is_eq argv i s : no_nul (arg argv i) -> no_nul (lit s) -> arg_is argv i s = bool_decide (arg argv i = lit s).
Proof.
  intros Ha Hs. unfold arg_is. pose proof (strcmp_eq _ _ Ha Hs) as H. symmetry.
  case_bool_decide as E.
  - symmetry. by apply Z.eqb_eq, H.
  - symmetry. apply Z.eqb_neq. by rewrite H.
Qed.

Definition copied (m : mode) (p : role) : list nat :=
  match p, m with
  | Src, _ => [3; 4; 5; 6; 7]%nat | Dst, Shm => [3; 4; 5]%nat | Dst, _ => [3; 4; 5; 6]%nat | Backup, _ => [3]%nat
  end.

(** With a readable configuration, [main] runs the program of the mode and
    machine type named on the command line, with the arguments in the globals that
    role uses, exactly when the command line is long enough; it reports usage when it
    is too short, and overflows a global when an argument it copies does not fit. *)
Theorem main_dispatch m p argv file cfg :
  argv_ok argv -> (3 <= length argv)%nat ->
  arg argv 1 = mode_name m -> arg argv 2 = role_name p -> read_config file = inr cfg ->
  main argv file =
    if (length argv <? role_argc m p)%nat then Usage
    else if forallb (fun i => (length (arg argv i) <? ARG_LEN)%nat) (copied m p) then
      Run (role_banner m p argv (role_program m p cfg (role_args m p argv)))
    else StrcpyOverflow.
Proof.
  intros Hok Hlen Hm Hp Hcfg. unfold argv_ok in Hok. unfold main, argc. rewrite Hcfg.
  replace (Z.of_nat (length argv) <? 3) with false by (symmetry; apply Z.ltb_ge; lia).
  rewrite !arg_is_eq by solve_arg_no_nul. rewrite Hm, Hp.
  assert (forall n, (Z.of_nat (length argv) <? Z.of_nat n) = (length argv <? n)%nat) as Hlt.
  { intros n. destruct (Z.ltb_spec (Z.of_nat (length argv)) (Z.of_nat n)), (Nat.ltb_spec (length argv) n); done || lia. }
  assert (forallb (fun i => (length (arg argv i) <? ARG_LEN)%nat) (copied m p) =
          fits_args (arg argv <$> copied m p)) as -> by (by destruct m, p).
  destruct m, p; eval_bool_decide; unfold main_src, main_dst, main_backup, argc, launch;
    rewrite ?arg_is_eq by solve_arg_no_nul; rewrite ?Hp; eval_bool_decide;
    rewrite <- Hlt; cbn iota beta; reflexivity.
Qed.

Lemma main_dispatch_witness :
  main [lit "./apps/controller"; lit "shm"; lit "backup"; lit "30"] (Some config_txt) =
    Run (role_banner Shm Backup [lit "./apps/controller"; lit "shm"; lit "backup"; lit "30"]
           (shm_backup_main repo_config (mk_args [] [] [] [] [] [] (lit "30")))).
Proof.
  apply (main_dispatch Shm Backup [lit "./apps/controller"; lit "shm"; lit "backup"; lit "30"]
           (Some config_txt) repo_config).
  - unfold argv_ok, no_nul. by_decide.
  - by_decide.
  - reflexivity.
  - reflexivity.
  - exact read_repo_config.
Defined.
