(* ===== verification/WpRules.v ===== *)
(** * Proof rules for the controller's wrappers

    [wpF p fr facts vars q]: program [q] meets its verification condition from
    every history whose latest events are [facts] and in which the descriptor
    variables [vars] are bound.  One rule per wrapper of Controller.v turns a
    role's program into its guards. *)

From Stdlib Require Import Ascii.
From S2P Require Import Prelude CString Config Proc Session Controller.

(** A string equal under [strcmp] to a literal of its own length is that literal. *)
Lemma strncmp_succ a b n : strncmp a b (S n) = 0 -> strncmp a b n = 0.
Proof.
  revert a b; induction n as [|n IH]; intros a b; [done|].
  intros H. simpl in *. case_decide; [|done]. case_decide; [done|]. by apply IH.
Qed.

Lemma strcmp_same_length a b :
  no_nul b -> length a = length b -> strcmp a b = 0 -> a = b.
Proof.
  intros Hb Hl H. unfold strcmp in H. apply strncmp_succ in H. rewrite Hl in H.
  apply strncmp_prefix in H as [k ->]; [|done]. rewrite length_app in Hl.
  destruct k; [by rewrite app_nil_r|simpl in Hl; lia].
Qed.

(** ** Readings of the clock *)

(** No reading. *)
Definition still (h : hist) : Prop := Forall (fun e => e.1.1 <> ClockGettime) h.
Definition printed (h : hist) : Prop := Forall (fun e => match e.1.1 with Print _ => True | _ => False end) h.

(** [msg] is received in full, and after at most some output the clock is read: it is [t]. *)
Definition stamp (msg : bytes) (t : timespec) (h : hist) : Prop :=
  exists r ol out v n rr l, h = (ClockGettime, r, ol) :: out ++ [(Read v n, rr, Some l)] /\
    time r = t /\ printed out /\ 0 < ret rr /\ data rr = msg.

(** The latest readings of a history, newest first: each is taken on the receipt of its message,
    and there is no other one in between. *)
Fixpoint timeline (l : list (bytes * timespec)) (h : hist) : Prop :=
  match l with
  | [] => True
  | (msg, t) :: l => exists out s older, h = out ++ s ++ older /\ still out /\ stamp msg t s /\ timeline l older
  end.

Lemma timeline_quiet l e h : e.1.1 <> ClockGettime -> timeline l h -> timeline l (e :: h).
Proof.
  destruct l as [|[msg t] l]; [done|]. intros He (out & s & older & -> & Hs & Hrest). exists (e :: out), s, older.
  split; [done|]. split; [by constructor|done].
Qed.

Lemma timeline_fails l fails h : still fails -> timeline l h -> timeline l (fails ++ h).
Proof. induction 1; [done|]. intros. apply timeline_quiet; auto. Qed.

Lemma timeline_stamp l msg r ol out v n rr lk h :
  printed out -> 0 < ret rr -> data rr = msg -> timeline l h ->
  timeline ((msg, time r) :: l) ((ClockGettime, r, ol) :: out ++ (Read v n, rr, Some lk) :: h).
Proof.
  intros Hp Hr Hd Hl. exists [], ((ClockGettime, r, ol) :: out ++ [(Read v n, rr, Some lk)]), h.
  split; [cbn [app]; by rewrite <- app_assoc|]. split; [constructor|]. split; [by exists r, ol, out, v, n, rr, lk|done].
Qed.

Section Rules.
Context (addr : link -> bytes * bytes) (hspec : role -> signal -> signal -> prog).
Context (guard : role -> option signal -> hist -> call -> Prop).
Context (installs : role -> signal -> hist -> Prop).
Context (p : role) (fr : option signal).

Abbreviation wp := (Session.wp addr hspec guard installs p fr).
Abbreviation binding := (Session.binding addr p).

Definition wpF (F : hist) (vs : list fdvar) (q : prog) : Prop :=
forall h, (forall v, v ∈ vs -> binding (F ++ h) v <> None) -> wp q (F ++ h).

(** The guard of a call follows from the facts. *)
Definition allowed (F : hist) (c : call) : Prop := forall h, guard p fr (F ++ h) c.

Definition bound (vs : list fdvar) (v : fdvar) : Prop :=
match fr with
| None => v ∈ vs
| Some sg => forall hm, installs p sg hm -> binding hm v <> None
end.

Lemma binding_app e h v : binding h v <> None -> binding (e ++ h) v <> None.
Proof. induction e; [done|]. intros. simpl app. apply binding_bound. auto. Qed.

(** A loop on one call, in general. *)
Lemma wpF_until F vs c ok k :
allowed F c -> binds c = false ->
(forall fails r ol, Forall (failed c ok) fails -> ok r = true ->
   (forall v, uses c = Some v -> bound vs v -> ol <> None) ->
   (exists h, legal addr guard installs p fr (fails ++ F ++ h) c r ol) ->
   wpF ((c, r, ol) :: fails ++ F) vs (k r)) ->
wpF F vs (CallUntil c ok k).
Proof.
intros Ha Hb Hk h Hvs. split; [by apply Ha|]. rewrite Hb. split; [done|].
intros fails r ol Hf Hr Hleg.
assert (wpF ((c, r, ol) :: fails ++ F) vs (k r)) as Hw.
{ apply Hk; [done|done| |by exists h]. intros v Hu Hbd. destruct Hleg as [Hol _].
  rewrite Hu in Hol. unfold bound in Hbd. destruct fr as [sg|].
  - destruct Hol as (hm & Hi & _ & ->). by apply Hbd.
  - rewrite Hol. by apply binding_app, Hvs. }
specialize (Hw h). cbn [app] in Hw. rewrite <- app_assoc in Hw. apply Hw.
intros v Hv. by apply binding_bound, binding_app, Hvs.
Qed.

Lemma wpF_call F vs c k :
allowed F c -> binds c = false ->
(forall r ol, (exists h, legal addr guard installs p fr (F ++ h) c r ol) -> wpF ((c, r, ol) :: F) vs (k r)) -> wpF F vs (Call c k).
Proof.
intros Ha Hb Hk. apply wpF_until; [done|done|]. intros fails r ol Hf _ _ Hleg.
destruct fails as [|e fails]; [by apply Hk|]. by inversion Hf as [|? ? []].
Qed.

Lemma wpF_do F vs c k :
allowed F c -> binds c = false ->
(forall r ol, wpF ((c, r, ol) :: F) vs k) -> wpF F vs (Do c k).
Proof. intros. apply wpF_call; auto. Qed.

Lemma wpF_stop F vs q :
match q with Return | Exit _ | Abort | Idle => True | _ => False end -> wpF F vs q.
Proof. by destruct q. Qed.

Lemma wpF_assert F vs b k : (b = true -> wpF F vs k) -> wpF F vs (assert_ b k).
Proof. destruct b; simpl; [auto|]. intros _. by apply wpF_stop. Qed.

(** Pid files, waits and the set-up of sockets carry no obligation. *)
Hypothesis free : forall F c,
match c with
| WritePid _ | Socket | Bind _ _ | Listen _ | Accept _ | Sleep _ | Usleep _
| Read _ _ | ClockGettime => True
| _ => False
end -> allowed F c.

Lemma wpF_skip F vs c k :
match c with
| WritePid _ | Socket | Bind _ _ | Listen _ | Sleep _ | Usleep _ => True
| _ => False
end ->
(forall r ol, wpF ((c, r, ol) :: F) vs k) -> wpF F vs (Do c k).
Proof. intros Hc Hk. apply wpF_do; [apply free; by destruct c|by destruct c|done]. Qed.

Lemma wpF_print F vs t k :
allowed F (Print (fmt t)) -> (forall r ol, wpF ((Print (fmt t), r, ol) :: F) vs k) -> wpF F vs (print t k).
Proof. intros Ha Hk. by apply wpF_do. Qed.

Lemma wpF_write_pid F vs f k : (forall r ol, wpF ((WritePid f, r, ol) :: F) vs k) -> wpF F vs (write_pid f k).
Proof. by apply wpF_skip. Qed.

Lemma wpF_report F vs w ns k :
allowed F (Print (fmt [w; lit ": "; fmt_d ns; lit " ns"; nl])) ->
(forall r ol, wpF ((Print (fmt [w; lit ": "; fmt_d ns; lit " ns"; nl]), r, ol) :: F) vs k) -> wpF F vs (report w ns k).
Proof. apply wpF_print. Qed.

Lemma wpF_clock F vs k :
(forall r ol,
   (forall r' ol', (ClockGettime, r', ol') ∈ F -> ns_of (time r') <= ns_of (time r)) ->
   wpF ((ClockGettime, r, ol) :: F) vs (k (time r))) -> wpF F vs (clock k).
Proof.
intros Hk. apply wpF_call; [by apply free|done|]. intros r ol (h & _ & _ & Hleg). apply Hk.
intros r' ol' Hin. apply (Hleg r' ol'), elem_of_app. by left.
Qed.

Lemma wpF_get F vs k : (forall g, wpF F vs (k g)) -> wpF F vs (Get k).
Proof. intros Hk h Hv g. by apply Hk. Qed.

Lemma wpF_put F vs f k : wpF F vs k -> wpF F vs (Put f k).
Proof. intros Hk h Hv. by apply Hk. Qed.

Lemma wpF_execute F vs cmd k :
allowed F (System (take 2047 cmd)) ->
(forall r ol, wpF ((System (take 2047 cmd), r, ol) :: F) vs (k (ret r))) ->
wpF F vs (execute_wrapper cmd k).
Proof. intros. apply wpF_call; auto. Qed.

Lemma wpF_execute_assert F vs cmd k :
allowed F (System (take 2047 cmd)) ->
(forall r ol, wpF ((System (take 2047 cmd), r, ol) :: F) vs k) ->
wpF F vs (execute_assert cmd k).
Proof. intros. apply wpF_execute; [done|]. intros. apply wpF_assert. auto. Qed.

Lemma wpF_until_success F vs cmd k :
allowed F (System (take 2047 cmd)) ->
(forall fails r ol, wpF ((System (take 2047 cmd), r, ol) :: fails ++ F) vs k) ->
wpF F vs (execute_until_success cmd k).
Proof. intros. apply wpF_until; auto. Qed.

Lemma wpF_write F vs v d k :
allowed F (Write v (c_str d)) ->
(forall r ol, wpF ((Write v (c_str d), r, ol) :: F) vs k) -> wpF F vs (write_to_file v d k).
Proof. intros. apply wpF_call; [done..|]. intros. apply wpF_assert. auto. Qed.

(** The link a descriptor is bound to when a frame uses it. *)
Definition talks_on (v : fdvar) (l : link) : Prop :=
match fr with
| None => exists h, binding h v = Some l
| Some sg => exists hm, installs p sg hm /\ guarded guard p None hm /\ binding hm v = Some l
end.

Lemma wpF_read F vs v n k :
bound vs v -> 0 < n < 2 ^ 32 ->
(forall fails r l, still fails -> ret r = n - 1 -> 0 < ret r -> Z.of_nat (length (data r)) = ret r -> talks_on v l ->
   wpF ((Read v (n - 1), r, Some l) :: fails ++ F) vs (k (data r))) ->
wpF F vs (read_from_file v n k).
Proof.
intros Hb Hn Hk. apply wpF_until; [by apply free|done|].
intros fails r ol Hfl Hr Hol (h & Hlk & Hleg).
assert (still fails) by (eapply Forall_impl; [exact Hfl|]; by intros [[c' r'] ol'] [[= ->] _]). specialize (Hol v eq_refl Hb). simpl in Hleg, Hlk.
destruct ol as [l|]; [|done]. apply wpF_assert. intros E. to_prop.
assert (talks_on v l) as Hlink.
{ unfold talks_on. destruct fr as [sg|]; [|by eexists]. destruct Hlk as (hm & ? & ? & ?). by exists hm. }
assert (ret r = n - 1 /\ 0 < ret r /\ Z.of_nat (length (data r)) = ret r) as (? & ? & ?); [|auto].
destruct (Hleg ltac:(done)) as [Em|[Ez|[Hin Hlen]]].
- rewrite Em in E. change (u32 (-1)) with (2 ^ 32 - 1) in E. lia.
- rewrite Ez in Hr. done.
- rewrite wrap_u_id in E by (unfold in_u; lia). lia.
Qed.

Lemma wpF_expect F vs v msg k :
bound vs v -> no_nul msg -> Z.of_nat (length msg) < 2 ^ 31 ->
(forall fails r l, still fails -> 0 < ret r -> data r = msg -> talks_on v l ->
   wpF ((Read v (Z.of_nat (length msg)), r, Some l) :: fails ++ F) vs k) ->
wpF F vs (expect v msg k).
Proof.
intros Hb Hm Hl Hk. apply wpF_read; [done|unfold sizeof; lia|].
intros fails r l Hst Hr Hpos Hlen Hlk. apply wpF_assert. intros E. to_prop. unfold sizeof in *.
replace (Z.of_nat (length msg) + 1 - 1) with (Z.of_nat (length msg)) in * by lia.
apply Hk; [done|done| |done]. apply strcmp_same_length; [done|lia|done].
Qed.
End Rules.

(** Rules for main programs: sockets and handlers. *)
Section MainRules.
Context (addr : link -> bytes * bytes) (hspec : role -> signal -> signal -> prog).
Context (guard : role -> option signal -> hist -> call -> Prop).
Context (installs : role -> signal -> hist -> Prop).
Context (p : role).

Abbreviation wpF := (wpF addr hspec guard installs p None).
Abbreviation allowed := (allowed guard p None).

Hypothesis free : forall F c,
match c with
| WritePid _ | Socket | Bind _ _ | Listen _ | Accept _ | Sleep _ | Usleep _
| Read _ _ | ClockGettime => True
| _ => False
end -> allowed F c.

(** A main program may print anything at any time. *)
Hypothesis quiet : forall F t, allowed F (Print t).

Lemma wpF_die F vs t code : wpF F vs (die t code).
Proof. apply (wpF_print addr hspec guard installs); [apply quiet|]. intros. by apply wpF_stop. Qed.

Lemma wpF_process F vs cmd k :
allowed F (Vfork cmd) ->
(forall r ol, wpF ((Vfork cmd, r, ol) :: F) vs k) -> wpF F vs (execute_wrapper_process cmd k).
Proof.
intros. apply wpF_call; [done..|]. intros. case_match; [apply wpF_die|auto].
Qed.

Lemma wpF_step F vs c k :
match c with Socket | Bind _ _ | Listen _ => True | _ => False end ->
(forall r ol, wpF ((c, r, ol) :: F) vs (k r)) -> wpF F vs (Call c k).
Proof. intros Hc Hk. apply wpF_call; [apply free; by destruct c|by destruct c|auto]. Qed.

Lemma wpF_binds F vs c v k :
allowed F c ->
(forall r ol h, 0 <= ret r -> binding addr p ((c, r, ol) :: h) v <> None) ->
(forall r ol, wpF ((c, r, ol) :: F) (if ret r <? 0 then vs else v :: vs) (k r)) ->
wpF F vs (Call c k).
Proof.
intros Ha Hb Hk h Hvs. split; [by apply Ha|]. split; [done|].
intros fails r ol Hf _ _. destruct fails as [|e fails]; [|by inversion Hf as [|? ? []]].
apply (Hk r ol h). intros w Hw. cbn [app].
destruct (Z.ltb_spec (ret r) 0); [by apply binding_bound, Hvs|].
apply elem_of_cons in Hw as [->|Hw]; [by apply Hb|by apply binding_bound, Hvs].
Qed.

Lemma wpF_listen F vs v a port k :
p <> Backup -> (forall es, wpF (es ++ F) (v :: vs) k) -> wpF F vs (listen_wrapper v a port k).
Proof.
intros Hp Hk.
do 3 (apply wpF_step; [done|]; intros ? ?; case_match; [by apply wpF_die|]).
apply wpF_binds with v; [by apply free| |].
- intros r3 ol3 h Hr. simpl. rewrite decide_True by done.
  destruct (Z.ltb_spec (ret r3) 0); [lia|]. by destruct p.
- intros r3 ol3. case_match; [by apply wpF_die|]. apply (Hk [_; _; _; _]).
Qed.

Lemma wpF_connect F vs v a port k :
p = Backup -> (forall e, allowed (e :: F) (Connect v a port)) -> addr SrcLink = (a, port) \/ addr DstLink = (a, port) ->
(forall es, wpF (es ++ F) (v :: vs) k) -> wpF F vs (connect_wrapper v a port k).
Proof.
intros Hp Ha Hport Hk. apply wpF_step; [done|]. intros ? ?; case_match; [by apply wpF_die|].
apply wpF_binds with v; [done| |].
- intros r3 ol3 h Hr. simpl. rewrite decide_True, Hp by done.
  destruct (Z.ltb_spec (ret r3) 0); [lia|]. repeat case_decide; [done..|]. by destruct Hport.
- intros r3 ol3. case_match; [by apply wpF_die|]. apply (Hk [_; _]).
Qed.

Lemma wpF_install F vs sg f k :
(forall s, f s = hspec p sg s) ->
(forall h, (forall v, v ∈ vs -> binding addr p (F ++ h) v <> None) -> installs p sg (F ++ h)) ->
wpF F vs k -> wpF F vs (install sg f k).
Proof.
intros Hf Hi Hk h Hvs. simpl. split_and!; [done..|by apply Hi|].
intros z. case_match; [by apply (wpF_die F vs)|by apply Hk].
Qed.
End MainRules.

(** ** Facts about histories *)

(** A message was received in full, sent, or a command was run. *)
Definition got_on (h : hist) (l : link) (msg : bytes) : Prop :=
  exists v n r, (Read v n, r, Some l) ∈ h /\ 0 < ret r /\ data r = msg.
Definition got (h : hist) (msg : bytes) : Prop := exists l, got_on h l msg.
Definition wrote (h : hist) (v : fdvar) (msg : bytes) : Prop :=
  exists r ol, (Write v msg, r, ol) ∈ h.
Definition ran (h : hist) (cmd : bytes) : Prop :=
  exists r ol, (System (take 2047 cmd), r, ol) ∈ h.

(** The line a [report] prints. *)
Definition report_line (what : bytes) (ns : Z) : bytes :=
  fmt [what; lit ": "; fmt_d ns; lit " ns"; nl].

Lemma got_on_mono h h' l m : h ⊆ h' -> got_on h l m -> got_on h' l m.
Proof. intros Hs (v & n & r & Hin & ?). exists v, n, r. split; [by apply Hs|done]. Qed.
Lemma got_mono h h' m : h ⊆ h' -> got h m -> got h' m.
Proof. intros Hs (l & H). exists l. by eapply got_on_mono. Qed.
Lemma wrote_mono h h' v m : h ⊆ h' -> wrote h v m -> wrote h' v m.
Proof. intros Hs (r & ol & Hin). exists r, ol. by apply Hs. Qed.
Lemma ran_mono h h' c : h ⊆ h' -> ran h c -> ran h' c.
Proof. intros Hs (r & ol & Hin). exists r, ol. by apply Hs. Qed.

Lemma got_on_here h v n r l m : 0 < ret r -> data r = m -> got_on ((Read v n, r, Some l) :: h) l m.
Proof. intros. exists v, n, r. split; [by left|done]. Qed.
Lemma got_on_there h e l m : got_on h l m -> got_on (e :: h) l m.
Proof. apply got_on_mono. intros x Hx. by right. Qed.
Lemma got_here h v n r l m : 0 < ret r -> data r = m -> got ((Read v n, r, Some l) :: h) m.
Proof. intros. exists l. by apply got_on_here. Qed.
Lemma got_there h e m : got h m -> got (e :: h) m.
Proof. apply got_mono. intros x Hx. by right. Qed.
Lemma wrote_here h v m r ol : wrote ((Write v m, r, ol) :: h) v m.
Proof. exists r, ol. by left. Qed.
Lemma wrote_there h e v m : wrote h v m -> wrote (e :: h) v m.
Proof. apply wrote_mono. intros x Hx. by right. Qed.
Lemma ran_here h c r ol : ran ((System (take 2047 c), r, ol) :: h) c.
Proof. exists r, ol. by left. Qed.
Lemma ran_there h e c : ran h c -> ran (e :: h) c.
Proof. apply ran_mono. intros x Hx. by right. Qed.

(** Events that came later do not matter. *)
Lemma got_on_later h e l m : got_on h l m -> got_on (e ++ h) l m.
Proof. apply got_on_mono. intros x Hx. apply elem_of_app. by right. Qed.
Lemma got_later h e m : got h m -> got (e ++ h) m.
Proof. apply got_mono. intros x Hx. apply elem_of_app. by right. Qed.
Lemma wrote_later h e v m : wrote h v m -> wrote (e ++ h) v m.
Proof. apply wrote_mono. intros x Hx. apply elem_of_app. by right. Qed.
Lemma ran_later h e c : ran h c -> ran (e ++ h) c.
Proof. apply ran_mono. intros x Hx. apply elem_of_app. by right. Qed.

#[export] Hint Resolve got_on_mono got_mono wrote_mono ran_mono : study.

(** Find an event among the facts of a history. *)
Ltac find_fact :=
  lazymatch goal with
  | |- got_on (_ ++ _) _ _ => apply got_on_later; find_fact
  | |- got (_ ++ _) _ => apply got_later; find_fact
  | |- wrote (_ ++ _) _ _ => apply wrote_later; find_fact
  | |- ran (_ ++ _) _ => apply ran_later; find_fact
  | |- got_on _ _ _ => first [apply got_on_here; [assumption|assumption] | apply got_on_there; find_fact]
  | |- got _ _ => first [apply got_here; [assumption|assumption] | apply got_there; find_fact]
  | |- wrote _ _ _ => first [apply wrote_here | apply wrote_there; find_fact]
  | |- ran _ _ => first [apply ran_here | apply ran_there; find_fact]
  end.

(** Find the readings of a history. *)
Ltac find_timeline :=
  lazymatch goal with
  | |- timeline [] _ => exact I
  | |- timeline _ (_ ++ _) => apply timeline_fails; [assumption|]; find_timeline
  | |- timeline _ ((ClockGettime, _, _) :: (Read _ _, _, _) :: _) =>
      apply (timeline_stamp _ _ _ _ []); [apply Forall_nil_2|assumption|assumption|]; find_timeline
  | |- timeline _ ((ClockGettime, _, _) :: ?e :: (Read _ _, _, _) :: _) =>
      apply (timeline_stamp _ _ _ _ [e]); [apply Forall_singleton; exact I|assumption|assumption|]; find_timeline
  | |- timeline _ (_ :: _) => apply timeline_quiet; [discriminate|]; find_timeline
  end.

(** ** Using the invariant *)

(** The difference of two ordered clock readings does not overflow. *)
Lemma ns_diff_exact t1 t2 :
  0 <= ns_of t1 <= ns_of t2 -> ns_of t2 < 2 ^ 63 -> ns_diff t2 t1 = ns_of t2 - ns_of t1.
Proof.
  intros H1 H2. unfold ns_diff, ns_of in *.
  rewrite wrap_s_id; [lia|lia|]. unfold in_s. change (2 ^ (64 - 1)) with (2 ^ 63). lia.
Qed.

Section Use.
Context (addr : link -> bytes * bytes) (hspec : role -> signal -> signal -> prog).
Context (guard : role -> option signal -> hist -> call -> Prop).
Context (installs : role -> signal -> hist -> Prop).
(** A guard stays true as the history grows, except for output. *)
Hypothesis guard_mono : forall p fr h e c, match c with Print _ => False | _ => True end -> guard p fr h c -> guard p fr (e :: h) c.
Context (st : sys) (Hst : sys_inv addr hspec guard installs st).
Abbreviation H p fr := (hist_of p fr (log st)).

Lemma guard_later p fr e h c : match c with Print _ => False | _ => True end -> guard p fr h c -> guard p fr (e ++ h) c.
Proof. intros Hc Hg. induction e; [done|]. cbn [app]. by apply guard_mono. Qed.

Lemma inv_guarded p fr c r ol : match c with Print _ => False | _ => True end -> (c, r, ol) ∈ H p fr -> guard p fr (H p fr) c.
Proof.
intros Hc Hin. pose proof (fo_guarded _ _ _ _ _ _ _ (si_frames _ _ _ _ _ Hst p) fr) as Hg.
apply list_elem_of_split in Hin as (newer & older & E). rewrite E in Hg |- *. apply guarded_app in Hg.
apply guard_later; [done|]. by apply guard_mono.
Qed.

(** Who can have written a byte that a controller received. *)
Lemma inv_received_on p fr l msg x :
got_on (H p fr) l msg -> x ∈ msg ->
exists q fq v b r, (Write v b, r, Some l) ∈ H q fq /\ out_dir q = in_dir p /\ x ∈ b /\
  guard q fq (H q fq) (Write v b) /\ (q <> Backup -> server_of l = q).
Proof.
intros (v & n & r & Hin & Hr & Hd) Hx. rewrite <- Hd in Hx.
destruct (received_was_sent _ _ _ _ _ _ _ _ _ _ _ _ Hst Hin Hr Hx)
  as (q & fq & v' & b & r' & Hw & ? & ?).
exists q, fq, v', b, r'. split_and!; [done..|by eapply inv_guarded|].
intros Hq. by eapply (si_links _ _ _ _ _ Hst).
Qed.

Lemma inv_received p fr msg x :
got (H p fr) msg -> x ∈ msg ->
exists q fq v b r l, (Write v b, r, Some l) ∈ H q fq /\ out_dir q = in_dir p /\ x ∈ b /\
  guard q fq (H q fq) (Write v b).
Proof.
intros (l & Hg) Hx. destruct (inv_received_on _ _ _ _ _ Hg Hx) as (q & fq & v & b & r & ? & ? & ? & ? & _).
by exists q, fq, v, b, r, l.
Qed.

(** The readings of a timeline are readings of the clock. *)
Lemma timeline_clock l h msg t : timeline l h -> (msg, t) ∈ l -> exists r ol, (ClockGettime, r, ol) ∈ h /\ time r = t.
Proof.
revert h. induction l as [|[msg' t'] l IH]; intros h; [by intros _ ?%elem_of_nil|].
intros (out & s & older & -> & _ & (r & ol & pr & v & n & rr & lk & -> & Et & _) & Hl) Hin.
apply elem_of_cons in Hin as [[= -> ->]|Hin].
- exists r, ol. split; [|done]. apply elem_of_app. right. by left.
- destruct (IH _ Hl Hin) as (r' & ol' & Hr & ?). exists r', ol'. split; [|done]. rewrite !elem_of_app. auto.
Qed.

Lemma timeline_now l msg t p fr newer c r ol older :
log st = newer ++ EvCall p fr c r ol :: older -> timeline l (hist_of p fr older) -> (msg, t) ∈ l -> 0 <= ns_of t <= now st.
Proof.
intros E Hl Hin. destruct (timeline_clock _ _ _ _ Hl Hin) as (r' & ol' & Hr & <-).
eapply (si_clock _ _ _ _ _ Hst p fr). rewrite E, hist_of_app, hist_of_call. apply elem_of_app. right. right. exact Hr.
Qed.
End Use.
