(* ===== verification/ShmProtocol.v ===== *)
(** * The shared memory migration protocol

    The three controllers of [controller shm src|dst|backup] running together:
    what each must have done before each message and each command to a VM's
    monitor, and the ordering this gives the whole system, whatever the
    interleaving, the signals that arrive, the short reads and the failures. *)

From Stdlib Require Import Ascii.
From S2P Require Import Prelude CString Config Proc Session Controller WpRules.

Definition MIGRATE : bytes := lit "shm_migrate".
Definition SWITCH : bytes := lit "shm_migrate_switchover".
Definition START : bytes := lit "start_target_vm".
Definition LOAD : bytes := lit "shm_load_vm_image".
Definition PRE : bytes := lit "shm_pre_copy_finish".
Definition COMPLETE : bytes := lit "complete_vm_image".
Definition DONE : bytes := lit "switchover_finished".

Section Shm.
(** One configuration file, and the arguments of the three command lines. *)
Context (cfg : config) (a_src a_dst a_backup : args).

Definition ctl_addr (l : link) : bytes * bytes :=
match l with
| SrcLink => (src_ip cfg, src_control_port cfg)
| DstLink => (dst_ip cfg, dst_control_port cfg)
end.

Definition shm_mains (p : role) : prog :=
match p with
| Src => shm_src_main cfg a_src
| Dst => shm_dst_main cfg a_dst
| Backup => shm_backup_main cfg a_backup
end.

Definition shm_handlers (p : role) (sg : signal) : signal -> prog :=
match p, sg with
| Src, SIGUSR1 => signal_handler_shm_src_complete
| Src, SIGUSR2 => signal_handler_shm_src_precopy
| Dst, SIGUSR1 => signal_handler_shm_dst
| Backup, SIGUSR1 => signal_handler_shm_backup a_backup
| _, _ => fun _ => Return
end.

(** What a controller must have seen before it writes a message, starts the
  destination VM or gives a monitor command. *)
Definition shm_guard (p : role) (fr : option signal) (h : hist) (c : call) : Prop :=
match p, fr, c with
| Src, None, System cmd =>
    (cmd = take 2047 (shm_migrate_cmd a_src) -> got h MIGRATE) /\
    (cmd = take 2047 switchover_cmd -> got h SWITCH /\ ran h (shm_migrate_cmd a_src))
| Src, Some SIGUSR1, Write _ b => b = COMPLETE
| Src, Some SIGUSR2, Write _ b => b = PRE
| Dst, None, Vfork _ => got h START
| Dst, None, System _ => got h START /\ got h LOAD
| Dst, Some SIGUSR1, Write _ b => b = DONE
| Backup, Some SIGUSR1, Write srcfd b =>
    b = MIGRATE \/ b = SWITCH /\ wrote h srcfd MIGRATE
| Backup, Some SIGUSR1, Write dstfd b =>
    b = START /\ wrote h srcfd SWITCH \/
    b = LOAD /\ wrote h srcfd SWITCH /\ wrote h dstfd START /\ got h PRE /\ got h COMPLETE
| Backup, Some SIGUSR1, Print t =>
    lit "vm downtime" `prefix_of` t ->
    got h DONE /\
    exists t1 t2, t = report_line (lit "vm downtime") (ns_diff t2 t1) /\
                  timeline [(DONE, t2); (PRE, t1)] h /\ ns_of t1 <= ns_of t2
| _, _, Write _ _ => False
| _, _, _ => True
end.

(** The backup's handler is installed after both connections. *)
Definition ctl_installs (p : role) (sg : signal) (h : hist) : Prop :=
match p with
| Backup => binding ctl_addr p h srcfd <> None /\ binding ctl_addr p h dstfd <> None
| _ => True
end.

Lemma ctl_installs_mono p sg h e : ctl_installs p sg h -> ctl_installs p sg (e :: h).
Proof. destruct p; try done. intros []. split; by apply binding_bound. Qed.

Lemma shm_guard_subset p fr h h' c :
match c with Print _ => False | _ => True end -> h ⊆ h' -> shm_guard p fr h c -> shm_guard p fr h' c.
Proof.
intros Hc Hs. unfold shm_guard.
destruct p, fr as [[]|], c; try done; try destruct v; try done; try by eauto with study.
- intros [H1 H2]. split; [|intros E; destruct (H2 E)]; eauto with study.
- intros []. eauto with study.
- intros [|[]]; eauto with study.
- intros [[]|(? & ? & ? & ? & ?)]; [left|right]; eauto 10 with study.
Qed.

Lemma shm_guard_mono p fr h e c :
match c with Print _ => False | _ => True end -> shm_guard p fr h c -> shm_guard p fr (e :: h) c.
Proof. intros Hc. apply shm_guard_subset; [done|]. intros x Hx. by right. Qed.

Lemma shm_guard_retry p fr h c r ol : shm_guard p fr h c -> shm_guard p fr ((c, r, ol) :: h) c.
Proof.
destruct c; try by apply shm_guard_mono. destruct p, fr as [[]|]; try done.
intros H Ht. destruct (H Ht) as (Hd & t1 & t2 & Et & Hl & Hle). split; [by apply got_there|].
exists t1, t2. split; [done|]. split; [by apply timeline_quiet|done].
Qed.

Lemma shm_allowed p fr F c :
match c with Print _ => False | _ => True end -> shm_guard p fr F c -> allowed shm_guard p fr F c.
Proof. intros Hc H h. apply (shm_guard_subset p fr F); [done| |done]. intros x Hx. apply elem_of_app. by left. Qed.

Lemma shm_free p fr F c :
match c with
| WritePid _ | Socket | Bind _ _ | Listen _ | Accept _ | Sleep _ | Usleep _
| Read _ _ | ClockGettime => True
| _ => False
end -> allowed shm_guard p fr F c.
Proof. intros Hc. apply shm_allowed; by destruct p, fr as [[]|], c. Qed.

Lemma shm_quiet p F t : allowed shm_guard p None F (Print t).
Proof. intros h. by destruct p. Qed.

(** A line that does not start like the downtime report needs no guard. *)
Lemma shm_print p fr F t :
hd_error t <> hd_error (lit "vm downtime") -> allowed shm_guard p fr F (Print t).
Proof.
intros Ht h. destruct p, fr as [[]|]; try done.
intros [k ->]. by destruct Ht.
Qed.

Abbreviation shm_wpF p fr := (wpF ctl_addr shm_handlers shm_guard ctl_installs p fr).

(** The source's three commands are different strings. *)
Lemma shm_src_rm F :
shm_guard Src None F (System (take 2047 (lit "sudo rm /dev/shm/my_shared_memory"))).
Proof. split; intros E; apply (f_equal hd_error) in E; lazy in E; discriminate E. Qed.

Lemma shm_src_migrate F :
got F MIGRATE -> shm_guard Src None F (System (take 2047 (shm_migrate_cmd a_src))).
Proof.
intros H. split; [done|]. intros E. apply (f_equal (fun l => l !! 17%nat)) in E.
lazy in E. discriminate E.
Qed.

Lemma shm_src_switch F :
got F SWITCH -> ran F (shm_migrate_cmd a_src) ->
shm_guard Src None F (System (take 2047 switchover_cmd)).
Proof.
intros H1 H2. split; [|done]. intros E. apply (f_equal (fun l => l !! 17%nat)) in E.
lazy in E. discriminate E.
Qed.

(** One wrapper of a role's program; the guards follow from the facts. *)
Ltac wp_guard :=
apply shm_allowed; [exact I|];
first [exact I | reflexivity
      | apply shm_src_rm | apply shm_src_migrate; find_fact
      | apply shm_src_switch; find_fact
      | cbn [shm_guard];
        first [solve [split_and?; find_fact]
              | solve [left; split_and?; first [reflexivity|find_fact]]
              | right; split_and?; first [reflexivity|find_fact]]].
Ltac wp_step :=
first
  [ apply wpF_stop; exact I
  | apply wpF_print; [first [apply shm_quiet|by apply shm_print]|intros ? ?]
  | apply wpF_write_pid; [apply shm_free|intros ? ?]
  | apply wpF_report; [first [by apply shm_print|idtac]|intros ? ?]
  | apply wpF_skip; [apply shm_free|exact I|intros ? ?]
  | apply wpF_clock; [apply shm_free|]; intros ? ? ?
  | apply wpF_get; intros ?
  | apply wpF_put
  | apply wpF_assert; intros ?
  | apply wpF_listen; [apply shm_free|apply shm_quiet|done|intros ?]
  | apply wpF_connect; [apply shm_free|apply shm_quiet|done|intros ?; by apply shm_allowed|auto|intros ?]
  | apply wpF_install; [apply shm_quiet|done|try done|]
  | apply wpF_expect; [apply shm_free|first [by left|by intros ? []]|solve_no_nul|done|intros ? ? ? ? ? ? ?]
  | apply wpF_process; [apply shm_quiet|wp_guard|]; intros ? ?
  | apply wpF_execute; [wp_guard|]; intros ? ?
  | apply wpF_until_success; [wp_guard|]; intros ? ? ?
  | apply wpF_write; [wp_guard|]; intros ? ? ].

Ltac wp_go := repeat wp_step.

Lemma shm_dst_wp : shm_wpF Dst None [] [] (shm_dst_main cfg a_dst).
Proof. unfold shm_dst_main. wp_go. Qed.

Lemma shm_src_wp : shm_wpF Src None [] [] (shm_src_main cfg a_src).
Proof. unfold shm_src_main. wp_go. Qed.

Lemma shm_backup_wp : shm_wpF Backup None [] [] (shm_backup_main cfg a_backup).
Proof.
unfold shm_backup_main, backup_main. wp_go.
intros h Hb. split; apply Hb; set_solver.
Qed.

Lemma shm_handler_wp p sg : shm_wpF p (Some sg) [] [] (shm_handlers p sg sg).
Proof.
destruct p, sg; simpl; try by apply wpF_stop.
- unfold signal_handler_shm_src_complete. simpl. wp_go.
- unfold signal_handler_shm_src_precopy. simpl. wp_go.
- unfold signal_handler_shm_dst. simpl. wp_go.
- unfold signal_handler_shm_backup. simpl. wp_go. intros h _. cbn [app]. repeat (rewrite <- app_assoc; cbn [app]). split; [find_fact|].
  eexists _, _. split; [reflexivity|]. split.
  + find_timeline.
  + match goal with H : forall r' ol', _ ∈ _ -> _ <= ns_of (time ?r) |- _ <= ns_of (time ?r) => eapply H end.
    repeat first [by left|right|apply elem_of_app; right].
Qed.

(** *** The whole system *)

Abbreviation shm_reachable st := (reachable ctl_addr shm_mains st).

Lemma shm_inv st : shm_reachable st -> sys_inv ctl_addr shm_handlers shm_guard ctl_installs st.
Proof.
apply reachable_inv; [apply shm_guard_retry|apply ctl_installs_mono| |].
- intros p sg h. apply (shm_handler_wp p sg). by intros v ?%elem_of_nil.
- intros p. destruct p; [apply (shm_src_wp [])|apply (shm_dst_wp [])|apply (shm_backup_wp [])]; by intros v ?%elem_of_nil.
Qed.

Section Reached.
Context (st : sys) (Hst : shm_reachable st).
Abbreviation H p fr := (hist_of p fr (log st)).

Lemma shm_guarded p fr c r ol :
match c with Print _ => False | _ => True end -> (c, r, ol) ∈ H p fr -> shm_guard p fr (H p fr) c.
Proof. eapply inv_guarded; [apply shm_guard_mono|by apply shm_inv]. Qed.

Lemma shm_received p fr msg x :
got (H p fr) msg -> x ∈ msg ->
exists q fq v b r l, (Write v b, r, Some l) ∈ H q fq /\ out_dir q = in_dir p /\ x ∈ b /\
shm_guard q fq (H q fq) (Write v b).
Proof. eapply inv_received; [apply shm_guard_mono|by apply shm_inv]. Qed.

Lemma shm_delivered p sg e : e ∈ H p (Some sg) -> EvDeliver p sg ∈ log st.
Proof. apply (handler_delivered _ _ _ _ _ _ _ _ (shm_inv _ Hst)). Qed.

(** Each message has a byte that no other message in its direction has. *)
Lemma got_from_backup p fr msg x (P : Prop) :
p <> Backup -> got (H p fr) msg -> x ∈ msg ->
(forall v b, x ∈ b -> wrote (H Backup (Some SIGUSR1)) v b ->
 shm_guard Backup (Some SIGUSR1) (H Backup (Some SIGUSR1)) (Write v b) -> P) ->
P /\ EvDeliver Backup SIGUSR1 ∈ log st.
Proof.
intros Hp Hg Hx HP. destruct (shm_received _ _ _ _ Hg Hx) as (q & fq & v & b & r & l & Hin & Hd & Hb & Hgd).
destruct q; [by destruct p..|].
destruct fq as [[]|]; [|by destruct v..]. split; [|by eapply shm_delivered].
eapply HP; [done| |done]. by exists r, (Some l).
Qed.

Lemma got_from_server msg x sg b0 :
got (H Backup (Some SIGUSR1)) msg -> x ∈ msg ->
(forall q fq v b, x ∈ b -> q <> Backup -> shm_guard q fq (H q fq) (Write v b) ->
 q = Src /\ fq = Some sg /\ b = b0) ->
EvDeliver Src sg ∈ log st.
Proof.
intros Hg Hx HP. destruct (shm_received _ _ _ _ Hg Hx) as (q & fq & v & b & r & l & Hin & Hd & Hb & Hgd).
destruct (HP q fq v b) as (-> & -> & ->); [done|by destruct q|done|].
by eapply shm_delivered.
Qed.

Lemma got_pre : got (H Backup (Some SIGUSR1)) PRE -> EvDeliver Src SIGUSR2 ∈ log st.
Proof.
intros Hg. apply (got_from_server PRE "y"%char SIGUSR2 PRE); [done|by_decide|].
intros q fq v b Hb Hq Hgd. destruct q, fq as [[]|]; simpl in Hgd; try done;
subst; done || refute Hb.
Qed.

Lemma got_complete : got (H Backup (Some SIGUSR1)) COMPLETE -> EvDeliver Src SIGUSR1 ∈ log st.
Proof.
intros Hg. apply (got_from_server COMPLETE "l"%char SIGUSR1 COMPLETE); [done|by_decide|].
intros q fq v b Hb Hq Hgd. destruct q, fq as [[]|]; simpl in Hgd; try done;
subst; done || refute Hb.
Qed.
End Reached.

(** C21: the destination's monitor is told to load the VM image only after the
  source's QEMU has signalled the end of pre-copy (SIGUSR2) and the complete
  image (SIGUSR1), and after the operator has signalled the backup. *)
Theorem shm_load_after_complete st r ol :
shm_reachable st ->
EvCall Dst None (System (take 2047 (incoming_cmd a_dst))) r ol ∈ log st ->
EvDeliver Src SIGUSR2 ∈ log st /\ EvDeliver Src SIGUSR1 ∈ log st /\ EvDeliver Backup SIGUSR1 ∈ log st.
Proof.
intros Hst He. apply elem_of_hist in He. apply (shm_guarded _ Hst) in He as [_ Hg]; [|done].
destruct (got_from_backup _ Hst Dst None LOAD "d"%char
  (got (hist_of Backup (Some SIGUSR1) (log st)) PRE /\
   got (hist_of Backup (Some SIGUSR1) (log st)) COMPLETE)
  ) as [[Hp Hc] Hb]; [done|done|by_decide| |].
- intros v b Hx _ Hgd. destruct v; simpl in Hgd; [done| |]; destruct_or! Hgd; destruct_and? Hgd; subst;
    done || refute Hx.
- split_and!; [by apply got_pre|by apply got_complete|done].
Qed.

(** The source's monitor is told to switch over only after it was told to
  start the migration, and only after the operator signalled the backup;
  likewise the destination VM is started only after the backup, signalled by
  the operator, has asked the source to switch over. *)
Theorem shm_commands_requested st r ol c :
shm_reachable st ->
(c = EvCall Src None (System (take 2047 switchover_cmd)) r ol ->
 c ∈ log st ->
 EvDeliver Backup SIGUSR1 ∈ log st /\
 exists r' ol', EvCall Src None (System (take 2047 (shm_migrate_cmd a_src))) r' ol' ∈ log st) /\
(forall cmd, c = EvCall Dst None (Vfork cmd) r ol ->
 c ∈ log st ->
 EvDeliver Backup SIGUSR1 ∈ log st /\
 exists r' ol', EvCall Backup (Some SIGUSR1) (Write srcfd SWITCH) r' ol' ∈ log st).
Proof.
intros Hst. split; [intros -> He|intros cmd -> He]; apply elem_of_hist in He;
  apply (shm_guarded _ Hst) in He; try done; simpl in He.
- destruct He as [_ He]. destruct (He eq_refl) as [Hg (r' & ol' & Hr)]. split.
  + apply (got_from_backup _ Hst Src None SWITCH "w"%char True); try done. by_decide.
  + exists r', ol'. by apply elem_of_hist.
- destruct (got_from_backup _ Hst Dst None START "v"%char
    (wrote (hist_of Backup (Some SIGUSR1) (log st)) srcfd SWITCH)) as [(r' & ol' & Hw) Hb];
    [done|done|by_decide| |].
  + intros v b Hx Hw Hgd. destruct v; simpl in Hgd; [done| |]; destruct_or! Hgd; destruct_and? Hgd; subst;
      done || refute Hx.
  + split; [done|]. exists r', ol'. by apply elem_of_hist.
Qed.

(** C25: the downtime the backup reports is the exact time in nanoseconds between two readings of
  its monotonic clock: the last one, taken on receipt of the destination's [switchover_finished],
  and the one before it, taken on receipt of the source's [shm_pre_copy_finish].  It is not
  negative, and when it is reported the destination's QEMU has signalled that the VM runs. *)
Theorem shm_downtime_report st newer t r ol older :
shm_reachable st -> now st < 2 ^ 63 ->
log st = newer ++ EvCall Backup (Some SIGUSR1) (Print t) r ol :: older -> lit "vm downtime" `prefix_of` t ->
EvDeliver Dst SIGUSR1 ∈ older /\
exists t1 t2, timeline [(DONE, t2); (PRE, t1)] (hist_of Backup (Some SIGUSR1) older) /\
  ns_of t1 <= ns_of t2 /\ t = report_line (lit "vm downtime") (ns_of t2 - ns_of t1).
Proof.
intros Hst Hnow He Ht. pose proof (guarded_at _ _ _ _ _ _ _ _ _ _ _ _ (shm_inv _ Hst) He) as Hg.
destruct (Hg Ht) as (Hd & t1 & t2 & -> & Hl & Hle). split.
- rewrite cons_middle, app_assoc in He. destruct (earlier_state _ _ _ _ _ Hst He) as (st' & Hst' & El & _). rewrite <- El in Hd |- *.
  destruct (shm_received _ Hst' _ _ _ "w"%char Hd) as (q & fq & v & b & r' & l & Hin & Hdir & Hb & Hgd);
    [by_decide|].
  destruct q, fq as [[]|]; simpl in Hgd; try done; subst; try refute Hb.
  by eapply shm_delivered.
- exists t1, t2. split; [done|]. split; [done|]. rewrite ns_diff_exact; [done| |].
  + split; [|done]. eapply timeline_now; [by apply shm_inv|exact He|exact Hl|]. by right; left.
  + eapply Z.le_lt_trans; [|exact Hnow]. eapply timeline_now; [by apply shm_inv|exact He|exact Hl|]. by left.
Qed.
End Shm.
