(* ===== verification/ShmRun.v ===== *)
(** * A complete shared memory migration

    A scheduler that lets one controller run against a cooperative kernel until
    it blocks, and the session it produces for the repository's configuration
    and the command lines of README.md.  The session shows that the states the
    protocol theorems speak of are reached. *)

From Stdlib Require Import Ascii.
From S2P Require Import Prelude CString Config Proc Session Controller WpRules ShmProtocol.

(** The reply of a kernel on which nothing fails; [None] when the call blocks. *)
Definition nice_reply (st : sys) (p : role) (c : call) : option reply :=
  match c with
  | Read v len =>
      match fds (procs st p) v with
      | Some l =>
          match queue st l (in_dir p) with
          | [] => None
          | q => let n := Z.min len (Z.of_nat (length q)) in
                 Some (mk_reply n (take (Z.to_nat n) q) (0, 0))
          end
      | None => None
      end
  | Write _ b => Some (mk_reply (Z.of_nat (length b)) [] (0, 0))
  | ClockGettime =>
      let t := now st + 1000 in Some (mk_reply 0 [] (t / NSEC, t mod NSEC))
  | Socket | Accept _ | Connect _ _ _ => Some (mk_reply 3 [] (0, 0))
  | Vfork _ => Some (mk_reply 100 [] (0, 0))
  | _ => Some (mk_reply 0 [] (0, 0))
  end.

Definition auto_label (st : sys) (p : role) : option label :=
  match frames (procs st p) with
  | (_, CallUntil c _ _) :: _ => LCall p <$> nice_reply st p c
  | (_, SigAction _ _ _) :: _ | (_, Get _) :: _ | (_, Put _ _) :: _ => Some (LTau p)
  | (Some _, Return) :: _ => Some (LTau p)
  | _ => None
  end.

Section Scheduler.
Context (addr : link -> bytes * bytes).

(** Run [p] until it blocks, idles or has made [n] steps. *)
Fixpoint drive (n : nat) (p : role) (st : sys) : option sys :=
match n with
| O => Some st
| S n' => match auto_label st p with
          | None => Some st
          | Some lb => exec addr st lb ≫= drive n' p
          end
end.

Definition interrupt (p : role) (sg : signal) (st : sys) : option sys :=
exec addr st (LPost p sg) ≫= fun st => exec addr st (LDeliver p sg).

Lemma drive_star n p st st' : drive n p st = Some st' -> star (step addr) st st'.
Proof.
revert st; induction n as [|n IH]; intros st; simpl; [intros [= ->]; constructor|].
destruct (auto_label st p) as [lb|]; [|intros [= ->]; constructor].
intros (st1 & E & H)%bind_Some. eapply star_step; [by exists lb|eauto].
Qed.

Lemma interrupt_star p sg st st' : interrupt p sg st = Some st' -> star (step addr) st st'.
Proof.
intros (st1 & E1 & E2)%bind_Some. eapply star_step; [by eexists|]. apply star_one. by eexists.
Qed.

(** A script: [inl p] drives [p], [inr (p, sg)] sends it a signal. *)
Definition play (script : list (role + role * signal)) (st : sys) : option sys :=
foldl (fun o x => o ≫= fun st => match x with
                                 | inl p => drive 200 p st
                                 | inr (p, sg) => interrupt p sg st
                                 end) (Some st) script.

Lemma play_star script st st' : play script st = Some st' -> star (step addr) st st'.
Proof.
revert st' . induction script as [|x script IH] using rev_ind; intros st'.
- intros [= ->]. constructor.
- unfold play. rewrite foldl_app. intros (st1 & E1 & E2)%bind_Some.
  eapply star_trans; [by apply IH|].
  destruct x as [p|[p sg]]; [by eapply drive_star|by eapply interrupt_star].
Qed.
End Scheduler.

(** *** The session of README.md *)

Definition readme_src : args :=
  mk_args (lit "apps/vm-boot/redis.exp") (lit "4") (lit "20G") (lit "vm_src.txt") (lit "500000") [] [].
Definition readme_dst : args := mk_args [] (lit "4") (lit "20G") (lit "vm_dst.txt") [] [] [].
Definition readme_backup : args := mk_args [] [] [] [] [] [] (lit "30").

Definition readme_addr : link -> bytes * bytes := ctl_addr repo_config.
Definition readme_start : sys := start_sys (shm_mains repo_config readme_src readme_dst readme_backup).

(** The controllers start; the operator signals the backup; QEMU signals the end
    of pre-copy, the complete image and, on the destination, the running VM. *)
Definition readme_script : list (role + role * signal) :=
  [inl Src; inl Dst; inl Backup; inr (Backup, SIGUSR1); inl Backup; inl Src; inl Dst;
   inr (Src, SIGUSR2); inl Src; inr (Src, SIGUSR1); inl Src; inl Backup; inl Dst;
   inr (Dst, SIGUSR1); inl Dst; inl Backup].

Definition readme_end : sys := default readme_start (play readme_addr readme_script readme_start).

Definition is_idle (st : sys) (p : role) : bool :=
  match frames (procs st p) with [(None, Idle)] => true | _ => false end.

Definition has_call (st : sys) (p : role) (fr : option signal) (c : call) : bool :=
  existsb (fun e => match e with
                    | EvCall p' fr' c' _ _ => bool_decide (p = p' /\ fr = fr' /\ c = c')
                    | _ => false end) (log st).

Lemma has_call_elem st p fr c : has_call st p fr c = true -> exists r ol, EvCall p fr c r ol ∈ log st.
Proof.
  unfold has_call. rewrite existsb_exists. intros (e & Hin & He). destruct e; [|done].
  apply bool_decide_eq_true in He as (-> & -> & ->). apply list_elem_of_In in Hin. eauto.
Qed.

Lemma has_call_split st p fr c :
  has_call st p fr c = true -> exists newer r ol older, log st = newer ++ EvCall p fr c r ol :: older.
Proof. intros (r & ol & (newer & older & E)%list_elem_of_split)%has_call_elem. by exists newer, r, ol, older. Qed.

Lemma readme_plays : match play readme_addr readme_script readme_start with Some _ => true | None => false end = true.
Proof. vm_compute. reflexivity. Qed.

Lemma readme_play_end : play readme_addr readme_script readme_start = Some readme_end.
Proof.
  pose proof readme_plays as H. unfold readme_end.
  destruct (play readme_addr readme_script readme_start); [done|discriminate H].
Qed.

Lemma readme_reachable :
  reachable readme_addr (shm_mains repo_config readme_src readme_dst readme_backup) readme_end.
Proof. exact (play_star _ _ _ _ readme_play_end). Qed.

(** The session ends with the image loaded, the downtime (3 microseconds of this
    kernel's time) reported and all three controllers idle. *)
Example readme_session :
  has_call readme_end Dst None (System (take 2047 (incoming_cmd readme_dst))) = true /\
  has_call readme_end Backup (Some SIGUSR1) (Print (report_line (lit "vm downtime") 3000)) = true /\
  forallb (is_idle readme_end) [Src; Dst; Backup] = true.
Proof. split_and!; vm_compute; reflexivity. Qed.

Lemma shm_load_after_complete_witness :
  EvDeliver Src SIGUSR2 ∈ log readme_end /\ EvDeliver Src SIGUSR1 ∈ log readme_end /\
  EvDeliver Backup SIGUSR1 ∈ log readme_end.
Proof.
  destruct (has_call_elem readme_end Dst None _ (proj1 readme_session)) as (r & ol & H).
  exact (shm_load_after_complete repo_config readme_src readme_dst readme_backup
           readme_end r ol readme_reachable H).
Defined.

Lemma readme_switchover : has_call readme_end Src None (System (take 2047 switchover_cmd)) = true.
Proof. vm_compute. reflexivity. Qed.

Lemma shm_commands_requested_witness : EvDeliver Backup SIGUSR1 ∈ log readme_end.
Proof.
  destruct (has_call_elem readme_end Src None _ readme_switchover) as (r & ol & H).
  exact (proj1 (proj1 (shm_commands_requested repo_config readme_src readme_dst readme_backup
           readme_end r ol _ readme_reachable) eq_refl H)).
Defined.

Lemma readme_now : now readme_end < 2 ^ 63.
Proof. vm_compute. reflexivity. Qed.

Lemma shm_downtime_report_witness :
  exists older t1 t2, EvDeliver Dst SIGUSR1 ∈ older /\ timeline [(DONE, t2); (PRE, t1)] (hist_of Backup (Some SIGUSR1) older) /\
    report_line (lit "vm downtime") 3000 = report_line (lit "vm downtime") (ns_of t2 - ns_of t1).
Proof.
  destruct (has_call_split readme_end Backup (Some SIGUSR1) _ (proj1 (proj2 readme_session))) as (newer & r & ol & older & E).
  destruct (shm_downtime_report repo_config readme_src readme_dst readme_backup
           readme_end newer _ r ol older readme_reachable readme_now E ltac:(by_decide)) as (Hd & t1 & t2 & Hl & _ & Et).
  exists older, t1, t2. exact (conj Hd (conj Hl Et)).
Defined.
