(* ===== verification/QemuProtocol.v ===== *)
(** * QEMU's own migration under the controller

    The three controllers of [controller qemu-precopy|qemu-postcopy src|dst|backup]
    running together: when the source's monitor is told to migrate and to switch
    to post-copy, and what the backup has seen when it reports the downtime. *)

From Stdlib Require Import Ascii.
From S2P Require Import Prelude CString Config Proc Session Controller WpRules ShmProtocol.

Definition QMIGRATE : bytes := lit "qemu_migrate".
Definition QPRE : bytes := lit "qemu_pre_copy_finish".
Definition QRESTART : bytes := lit "qemu_vm_restart".
Definition QPOST : bytes := lit "qemu_post_copy_finish".

Section Qemu.
(** [flag]: pre-copy; otherwise post-copy. *)
Context (cfg : config) (a_src a_dst a_backup : args) (flag : bool).

Definition qemu_mains (p : role) : prog :=
match p with
| Src => qemu_src_main cfg a_src flag
| Dst => qemu_dst_main cfg a_dst flag
| Backup => qemu_backup_main cfg a_backup
end.

Definition qemu_handlers (p : role) (sg : signal) : signal -> prog :=
match p, sg with
| Src, SIGUSR1 => signal_handler_src
| Dst, SIGUSR1 => signal_handler_dst_1
| Dst, SIGUSR2 => signal_handler_dst_2
| Backup, SIGUSR1 => signal_handler_backup a_backup
| _, _ => fun _ => Return
end.

Definition migrate_cmd : bytes :=
monitor SRC [lit "migrate -d tcp:"; dst_ip cfg; lit ":"; migration_port cfg].
Definition postcopy_cmd : bytes := monitor SRC [lit "migrate_start_postcopy"].

Definition qemu_guard (p : role) (fr : option signal) (h : hist) (c : call) : Prop :=
match p, fr, c with
| Src, None, System cmd =>
    (cmd = take 2047 migrate_cmd -> got h QMIGRATE) /\
    (cmd = take 2047 postcopy_cmd -> got h QMIGRATE /\ ran h migrate_cmd)
| Src, Some SIGUSR1, Write _ b => b = QPRE
| Dst, Some _, Write _ b => b = QRESTART \/ b = QPOST
| Backup, Some SIGUSR1, Write _ b => b = QMIGRATE
| Backup, Some SIGUSR1, Print t =>
    lit "vm downtime" `prefix_of` t ->
    (got_on h SrcLink QPRE /\ got h QRESTART /\ got h QPOST) /\
    exists t1 t2 t3, t = report_line (lit "vm downtime") (ns_diff t2 t1) /\
                  timeline [(QPOST, t3); (QRESTART, t2); (QPRE, t1)] h /\ ns_of t1 <= ns_of t2
| Backup, None, Connect v a port => v = srcfd -> ctl_addr cfg SrcLink = (a, port)
| _, _, Write _ _ => False
| _, _, _ => True
end.

Abbreviation addr := (ctl_addr cfg).
Abbreviation installs := (ctl_installs cfg).

Lemma qemu_guard_subset p fr h h' c :
match c with Print _ => False | _ => True end -> h ⊆ h' -> qemu_guard p fr h c -> qemu_guard p fr h' c.
Proof.
intros Hc Hs. unfold qemu_guard.
destruct p, fr as [[]|], c; try done; try by eauto with study.
intros [H1 H2]. split; [|intros E; destruct (H2 E)]; eauto with study.
Qed.

(** The backup's [srcfd] is connected to the source. *)
Lemma qemu_srcfd h l :
guarded qemu_guard Backup None h -> binding addr Backup h srcfd = Some l -> l = SrcLink.
Proof.
induction h as [|[[c r] ol] h IH]; simpl; [done|]. intros [Hg Hh].
destruct c; try by apply IH.
- case_decide; [|by apply IH]. case_match; by apply IH.
- case_decide as E; [|by apply IH]. case_match; [by apply IH|].
  rewrite decide_True by (apply Hg; by rewrite <- E). by intros [= <-].
Qed.

Lemma qemu_guard_mono p fr h e c :
match c with Print _ => False | _ => True end -> qemu_guard p fr h c -> qemu_guard p fr (e :: h) c.
Proof. intros Hc. apply qemu_guard_subset; [done|]. intros x Hx. by right. Qed.

Lemma qemu_guard_retry p fr h c r ol : qemu_guard p fr h c -> qemu_guard p fr ((c, r, ol) :: h) c.
Proof.
destruct c; try by apply qemu_guard_mono. destruct p, fr as [[]|]; try done.
intros H Ht. destruct (H Ht) as ((? & ? & ?) & t1 & t2 & t3 & Et & Hl & Hle).
split; [split_and!; [by apply got_on_there|by apply got_there..]|].
exists t1, t2, t3. split; [done|]. split; [by apply timeline_quiet|done].
Qed.

Lemma qemu_allowed p fr F c :
match c with Print _ => False | _ => True end -> qemu_guard p fr F c -> allowed qemu_guard p fr F c.
Proof. intros Hc H h. apply (qemu_guard_subset p fr F); [done| |done]. intros x Hx. apply elem_of_app. by left. Qed.

Lemma qemu_free p fr F c :
match c with
| WritePid _ | Socket | Bind _ _ | Listen _ | Accept _ | Sleep _ | Usleep _
| Read _ _ | ClockGettime => True
| _ => False
end -> allowed qemu_guard p fr F c.
Proof. intros Hc. apply qemu_allowed; by destruct p, fr as [[]|], c. Qed.

Lemma qemu_quiet p F t : allowed qemu_guard p None F (Print t).
Proof. intros h. by destruct p. Qed.

Lemma qemu_print p fr F t :
hd_error t <> hd_error (lit "vm downtime") -> allowed qemu_guard p fr F (Print t).
Proof.
intros Ht h. destruct p, fr as [[]|]; try done.
intros [k ->]. by destruct Ht.
Qed.

Abbreviation qemu_wpF p fr := (wpF addr qemu_handlers qemu_guard installs p fr).

(** Two commands differ at their first character, after [migrate] or after
  [migrate_s]. *)
Ltac cmd_neq E :=
exfalso;
first [ apply (f_equal (fun l : bytes => l !! 0%nat)) in E; lazy in E; discriminate E
      | apply (f_equal (fun l : bytes => l !! 13%nat)) in E; lazy in E; discriminate E
      | apply (f_equal (fun l : bytes => l !! 15%nat)) in E; lazy in E; discriminate E ].
Ltac wp_guard :=
apply qemu_allowed; [exact I|];
first [exact I | reflexivity
      | solve [left; reflexivity | right; reflexivity]
      | split; intros E; first [split; find_fact | find_fact | cmd_neq E] ].
Ltac wp_step :=
first
  [ apply wpF_stop; exact I
  | apply wpF_print; [first [apply qemu_quiet|by apply qemu_print]|intros ? ?]
  | apply wpF_write_pid; [apply qemu_free|intros ? ?]
  | apply wpF_report; [first [by apply qemu_print|idtac]|intros ? ?]
  | apply wpF_skip; [apply qemu_free|exact I|intros ? ?]
  | apply wpF_clock; [apply qemu_free|]; intros ? ? ?
  | apply wpF_get; intros ?
  | apply wpF_put
  | apply wpF_assert; intros ?
  | apply wpF_listen; [apply qemu_free|apply qemu_quiet|done|intros ?]
  | apply wpF_connect; [apply qemu_free|apply qemu_quiet|done|intros ?; by apply qemu_allowed|auto|intros ?]
  | apply wpF_install; [apply qemu_quiet|done|try done|]
  | apply wpF_expect; [apply qemu_free|first [by left|by intros ? []]|solve_no_nul|done|intros ? ? ? ? ? ? ?]
  | apply wpF_process; [apply qemu_quiet|wp_guard|]; intros ? ?
  | apply wpF_execute_assert; [wp_guard|]; intros ? ?
  | apply wpF_execute; [wp_guard|]; intros ? ?
  | apply wpF_until_success; [wp_guard|]; intros ? ? ?
  | apply wpF_write; [wp_guard|]; intros ? ? ].
Ltac wp_go := repeat wp_step.

Lemma qemu_src_wp : qemu_wpF Src None [] [] (qemu_src_main cfg a_src flag).
Proof. unfold qemu_src_main. destruct flag; cbn [negb]; wp_go. Qed.

Lemma qemu_dst_wp : qemu_wpF Dst None [] [] (qemu_dst_main cfg a_dst flag).
Proof. unfold qemu_dst_main. destruct flag; cbn [negb]; wp_go. Qed.

Lemma qemu_backup_wp : qemu_wpF Backup None [] [] (qemu_backup_main cfg a_backup).
Proof.
unfold qemu_backup_main, backup_main. wp_go.
intros h Hb. split; apply Hb; set_solver.
Qed.

Lemma qemu_dst_notify_wp sg name : qemu_wpF Dst (Some sg) [] [] (dst_notify name).
Proof.
unfold dst_notify. wp_step. apply wpF_get; intros g.
destruct (sigusr1_count g =? 0); wp_go; case_match; wp_go.
Qed.

Lemma qemu_handler_wp p sg : qemu_wpF p (Some sg) [] [] (qemu_handlers p sg sg).
Proof.
destruct p, sg; simpl; try by apply wpF_stop.
- unfold signal_handler_src. simpl. wp_go.
- apply qemu_dst_notify_wp.
- apply qemu_dst_notify_wp.
- unfold signal_handler_backup. simpl. do 5 wp_step.
  apply wpF_expect; [apply qemu_free|by intros ? []|solve_no_nul|done|].
  intros fails rp lp Hst Hrp Hdp (hm & _ & Hgd & Hlk). apply qemu_srcfd in Hlk as ->; [|done].
  wp_step.
  apply wpF_report; [by apply qemu_print|]. intros ? ?.
  apply wpF_read; [apply qemu_free|by intros ? []|done|]. intros fails' rr l' Hst' Hr Hpos Hlen _.
  apply wpF_print; [by apply qemu_print|]. intros ? ?. apply wpF_assert. intros E. to_prop.
  assert (data rr = QRESTART) by (apply strcmp_same_length; [solve_no_nul|rewrite Hr in Hlen|done];
    apply Nat2Z.inj; exact Hlen).
  wp_go. intros h _. cbn [app]. repeat (rewrite <- app_assoc; cbn [app]). split; [split_and!; find_fact|].
  eexists _, _, _. split; [reflexivity|]. split; [find_timeline|].
  match goal with H : forall r' ol', _ ∈ _ -> _ <= ns_of (time ?r) |- _ <= ns_of (time ?r) => eapply H end.
  repeat first [by left|right|apply elem_of_app; right].
Qed.

(** *** The whole system *)

Abbreviation qemu_reachable st := (reachable addr qemu_mains st).

Lemma qemu_inv st : qemu_reachable st -> sys_inv addr qemu_handlers qemu_guard installs st.
Proof.
apply reachable_inv; [apply qemu_guard_retry|apply ctl_installs_mono| |].
- intros p sg h. apply (qemu_handler_wp p sg). by intros v ?%elem_of_nil.
- intros p. destruct p; [apply (qemu_src_wp [])|apply (qemu_dst_wp [])|apply (qemu_backup_wp [])]; by intros v ?%elem_of_nil.
Qed.

Section Reached.
Context (st : sys) (Hst : qemu_reachable st).
Abbreviation H p fr := (hist_of p fr (log st)).

Lemma qemu_guarded p fr c r ol :
match c with Print _ => False | _ => True end -> (c, r, ol) ∈ H p fr -> qemu_guard p fr (H p fr) c.
Proof. eapply inv_guarded; [apply qemu_guard_mono|by apply qemu_inv]. Qed.

Lemma qemu_received p fr msg x :
got (H p fr) msg -> x ∈ msg ->
exists q fq v b r l, (Write v b, r, Some l) ∈ H q fq /\ out_dir q = in_dir p /\ x ∈ b /\
qemu_guard q fq (H q fq) (Write v b).
Proof. eapply inv_received; [apply qemu_guard_mono|by apply qemu_inv]. Qed.

Lemma qemu_received_on p fr l msg x :
got_on (H p fr) l msg -> x ∈ msg ->
exists q fq v b r, (Write v b, r, Some l) ∈ H q fq /\ out_dir q = in_dir p /\ x ∈ b /\
qemu_guard q fq (H q fq) (Write v b) /\ (q <> Backup -> server_of l = q).
Proof. eapply inv_received_on; [apply qemu_guard_mono|by apply qemu_inv]. Qed.

Lemma qemu_delivered p sg e : e ∈ H p (Some sg) -> EvDeliver p sg ∈ log st.
Proof. apply (handler_delivered _ _ _ _ _ _ _ _ (qemu_inv _ Hst)). Qed.
End Reached.

(** The source's monitor is told to migrate only after the operator signalled
  the backup, and in post-copy mode it is told to switch only after that. *)
Theorem qemu_migrate_requested st r ol cmd :
qemu_reachable st -> cmd = migrate_cmd \/ cmd = postcopy_cmd ->
EvCall Src None (System (take 2047 cmd)) r ol ∈ log st ->
EvDeliver Backup SIGUSR1 ∈ log st /\
exists r' ol', EvCall Src None (System (take 2047 migrate_cmd)) r' ol' ∈ log st.
Proof.
intros Hst Hcmd He. pose proof He as Hg. apply elem_of_hist, (qemu_guarded _ Hst) in Hg as [Hm Hp]; [|done].
assert (got (hist_of Src None (log st)) QMIGRATE) as Hgot.
{ destruct Hcmd as [->| ->]; [by apply Hm|by apply Hp]. }
split.
- destruct (qemu_received _ Hst _ _ _ "q"%char Hgot) as (q & fq & v & b & r' & l & Hin & Hd & Hb & Hgd);
    [by_decide|].
  destruct q; try done. destruct fq as [[]|]; try done. by eapply qemu_delivered.
- destruct Hcmd as [->| ->]; [by exists r, ol|].
  destruct (Hp eq_refl) as (_ & r' & ol' & Hr). exists r', ol'. by apply elem_of_hist.
Qed.

(** C30: the downtime the backup reports in QEMU's own migration is the exact time between two
  readings of its monotonic clock.  Its last three readings were taken, in this order, on receipt
  of [qemu_pre_copy_finish], [qemu_vm_restart] and [qemu_post_copy_finish]; the time between the
  first two is reported.  It is not negative, and by then the source's QEMU has signalled the end
  of pre-copy and the destination's QEMU has signalled at least once. *)
Theorem qemu_downtime_report st newer t r ol older :
qemu_reachable st -> now st < 2 ^ 63 ->
log st = newer ++ EvCall Backup (Some SIGUSR1) (Print t) r ol :: older -> lit "vm downtime" `prefix_of` t ->
EvDeliver Src SIGUSR1 ∈ older /\
(EvDeliver Dst SIGUSR1 ∈ older \/ EvDeliver Dst SIGUSR2 ∈ older) /\
exists t1 t2 t3, timeline [(QPOST, t3); (QRESTART, t2); (QPRE, t1)] (hist_of Backup (Some SIGUSR1) older) /\
  ns_of t1 <= ns_of t2 /\ t = report_line (lit "vm downtime") (ns_of t2 - ns_of t1).
Proof.
intros Hst Hnow He Ht. pose proof (guarded_at _ _ _ _ _ _ _ _ _ _ _ _ (qemu_inv _ Hst) He) as Hg.
destruct (Hg Ht) as ((Hpre & Hre & _) & t1 & t2 & t3 & -> & Hl & Hle).
pose proof He as He'. rewrite cons_middle, app_assoc in He'. destruct (earlier_state _ _ _ _ _ Hst He') as (st' & Hst' & El & _). split_and!.
- rewrite <- El in Hpre |- *. destruct (qemu_received_on _ Hst' _ _ _ _ "r"%char Hpre) as (q & fq & v & b & r' & Hin & Hd & _ & Hgd & Hs);
    [by_decide|].
  destruct q; [|by discriminate Hs|done]. destruct fq as [[]|]; try done. by eapply qemu_delivered.
- rewrite <- El in Hre |- *. destruct (qemu_received _ Hst' _ _ _ "v"%char Hre) as (q & fq & v & b & r' & l & Hin & Hd & Hb & Hgd);
    [by_decide|].
  destruct q, fq as [[]|]; simpl in Hgd; try done; subst; try refute Hb;
    [left|right]; by eapply qemu_delivered.
- exists t1, t2, t3. split; [done|]. split; [done|]. rewrite ns_diff_exact; [done| |].
  + split; [|done]. eapply timeline_now; [by apply (qemu_inv st)|exact He|exact Hl|]. by right; right; left.
  + eapply Z.le_lt_trans; [|exact Hnow]. eapply timeline_now; [by apply (qemu_inv st)|exact He|exact Hl|]. by right; left.
Qed.
End Qemu.
