(* ===== verification/QemuRun.v ===== *)
(** * A complete post-copy migration

    The session of [qemu-postcopy] under the scheduler of [ShmRun]: it reaches the
    states the theorems of [QemuProtocol] speak of. *)

From Stdlib Require Import Ascii.
From S2P Require Import Prelude CString Config Proc Session Controller WpRules ShmProtocol ShmRun QemuProtocol.

Definition postcopy_src : args :=
  mk_args (lit "apps/vm-boot/redis.exp") (lit "4") (lit "20G") (lit "vm_src.txt") [] (lit "100G") [].
Definition postcopy_dst : args := mk_args [] (lit "4") (lit "20G") (lit "vm_dst.txt") [] (lit "100G") [].

Definition postcopy_mains : role -> prog :=
  qemu_mains repo_config postcopy_src postcopy_dst readme_backup false.
Definition postcopy_start : sys := start_sys postcopy_mains.

(** The operator signals the backup; QEMU signals the end of pre-copy on the
    source, then on the destination the running VM and the end of post-copy. *)
Definition postcopy_script : list (role + role * signal) :=
  [inl Src; inl Dst; inl Backup; inr (Backup, SIGUSR1); inl Backup; inl Src;
   inr (Src, SIGUSR1); inl Src; inl Backup; inr (Dst, SIGUSR1); inl Dst; inl Backup;
   inr (Dst, SIGUSR2); inl Dst; inl Backup].

Definition postcopy_end : sys := default postcopy_start (play readme_addr postcopy_script postcopy_start).

Lemma postcopy_plays :
  match play readme_addr postcopy_script postcopy_start with Some _ => true | None => false end = true.
Proof. vm_compute. reflexivity. Qed.

Lemma postcopy_reachable : reachable readme_addr postcopy_mains postcopy_end.
Proof.
  apply (play_star _ postcopy_script). pose proof postcopy_plays as H. unfold postcopy_end.
  fold postcopy_start. destruct (play readme_addr postcopy_script postcopy_start); [done|discriminate H].
Qed.

Example postcopy_session :
  has_call postcopy_end Src None (System (take 2047 postcopy_cmd)) = true /\
  has_call postcopy_end Backup (Some SIGUSR1) (Print (report_line (lit "vm downtime") 1000)) = true /\
  forallb (is_idle postcopy_end) [Src; Dst; Backup] = true.
Proof. split_and!; vm_compute; reflexivity. Qed.

Lemma qemu_migrate_requested_witness : EvDeliver Backup SIGUSR1 ∈ log postcopy_end.
Proof.
  destruct (has_call_elem postcopy_end Src None _ (proj1 postcopy_session)) as (r & ol & H).
  exact (proj1 (qemu_migrate_requested repo_config postcopy_src postcopy_dst readme_backup false
           postcopy_end r ol postcopy_cmd postcopy_reachable (or_intror eq_refl) H)).
Defined.

Lemma postcopy_now : now postcopy_end < 2 ^ 63.
Proof. vm_compute. reflexivity. Qed.

Lemma qemu_downtime_report_witness :
  exists older t1 t2 t3, EvDeliver Src SIGUSR1 ∈ older /\
    timeline [(QPOST, t3); (QRESTART, t2); (QPRE, t1)] (hist_of Backup (Some SIGUSR1) older) /\
    report_line (lit "vm downtime") 1000 = report_line (lit "vm downtime") (ns_of t2 - ns_of t1).
Proof.
  destruct (has_call_split postcopy_end Backup (Some SIGUSR1) _ (proj1 (proj2 postcopy_session))) as (newer & r & ol & older & E).
  destruct (qemu_downtime_report repo_config postcopy_src postcopy_dst readme_backup false
           postcopy_end newer _ r ol older postcopy_reachable postcopy_now E ltac:(by_decide)) as (Hd & _ & t1 & t2 & t3 & Hl & _ & Et).
  exists older, t1, t2, t3. exact (conj Hd (conj Hl Et)).
Defined.

(** *** The two destination handlers interleaved *)

(** [p] is driven for [n] steps only between two scripts. *)
Definition staged (s1 : list (role + role * signal)) (n : nat) (p : role)
  (s2 : list (role + role * signal)) (st : sys) : option sys :=
  play readme_addr s1 st ≫= fun st1 => drive readme_addr n p st1 ≫= play readme_addr s2.

Lemma staged_star s1 n p s2 st st' : staged s1 n p s2 st = Some st' -> star (step readme_addr) st st'.
Proof.
  intros (st1 & E1 & (st2 & E2 & E3)%bind_Some)%bind_Some.
  eapply star_trans; [by eapply play_star|]. eapply star_trans; [by eapply drive_star|by eapply play_star].
Qed.

(** QEMU's second signal on the destination is delivered while the handler of the
    first one is still in its [usleep]. *)
Definition overlap_script : list (role + role * signal) :=
  take 9 postcopy_script ++ [inr (Dst, SIGUSR1)].
Definition overlap_rest : list (role + role * signal) := [inr (Dst, SIGUSR2); inl Dst; inl Backup].

Definition backup_aborted (st : sys) : bool :=
  match frames (procs st Backup) with (Some SIGUSR1, Abort) :: _ => true | _ => false end.

Lemma overlap_plays :
  match staged overlap_script 3 Dst overlap_rest postcopy_start with
  | Some st => has_call st Dst (Some SIGUSR1) (Write connfd QRESTART) &&
               has_call st Dst (Some SIGUSR2) (Write connfd QRESTART) && backup_aborted st
  | None => false
  end = true.
Proof. vm_compute. reflexivity. Qed.

Lemma backup_aborted_frame st :
  backup_aborted st = true -> exists rest, frames (procs st Backup) = (Some SIGUSR1, Abort) :: rest.
Proof. unfold backup_aborted. repeat case_match; try done. eauto. Qed.

(** The handlers of SIGUSR1 and SIGUSR2 share [sigusr1_count], which the first
    one sets only after it has pinned the VM's cores.  There is a session in which a
    second signal comes in that window: it is also announced as [qemu_vm_restart], and
    the backup, which waits for [qemu_post_copy_finish], aborts in the middle of its
    handler. *)
Theorem overlapping_signals_abort_backup :
  exists st rest, reachable readme_addr postcopy_mains st /\
    (exists r1 r2 ol1 ol2,
       EvCall Dst (Some SIGUSR1) (Write connfd QRESTART) r1 ol1 ∈ log st /\
       EvCall Dst (Some SIGUSR2) (Write connfd QRESTART) r2 ol2 ∈ log st) /\
    frames (procs st Backup) = (Some SIGUSR1, Abort) :: rest.
Proof.
  pose proof overlap_plays as H.
  destruct (staged overlap_script 3 Dst overlap_rest postcopy_start) as [st|] eqn:E; [|discriminate H].
  apply andb_true_iff in H as [[(r1 & ol1 & H1)%has_call_elem (r2 & ol2 & H2)%has_call_elem]%andb_true_iff
    [rest Hf]%backup_aborted_frame].
  apply staged_star in E as Hst. clear E.
  exists st, rest. split_and!; [exact Hst| |exact Hf]. by exists r1, r2, ol1, ol2.
Qed.
