(* ===== verification/Policy.v ===== *)
(** * The write-back policy simulator

    [fmsync_policy/policy.cc] and its variant [backup_policy.cc]: a log of which
    pages were written in which iteration is replayed against three policies that
    choose the pages to write back when more than [dirty_target] are dirty.  An
    [unordered_map<int, bool>] is a [gmap], a [std::list] with iterators into it a
    list of nodes with identities, and an out of range access undefined behaviour. *)

From Stdlib Require Import Ascii.
From S2P Require Import Prelude CString.

Definition PAGE_NUM : nat := 32 * 512.
Arguments PAGE_NUM : simpl never.
Definition MAX_ITER : nat := 1000.

(** ** [parse_input] *)

(** The lines of a file as [std::getline] yields them: without the newline, and
    without an empty line after the last newline. *)
Fixpoint getlines (f : bytes) (cur : bytes) : list bytes :=
  match f with
  | [] => if decide (cur = []) then [] else [reverse cur]
  | c :: f' => if decide (c = NL) then reverse cur :: getlines f' [] else getlines f' (c :: cur)
  end.

(** [line.substr(0, line.length()-1)]; on an empty line the length wraps around
    and the line stays empty. *)
Definition drop_last (line : bytes) : bytes := take (length line - 1) line.

Definition is_bit (c : ascii) : bool := bool_decide (c = "0"%char \/ c = "1"%char).

(** [^[01]+$] *)
Definition binary_pattern (line : bytes) : bool :=
  negb (bool_decide (line = [])) && forallb is_bit line.

(** The globals [n], [m] and rows 1 to [n] of [a]. *)
Record log := mk_log { m : nat; a : list (list Z) }.
Definition n (l : log) : nat := length (a l).

Definition parse_line (l : log) (raw : bytes) : result log :=
  let line := drop_last raw in
  if binary_pattern line then
    let m' := if (m l =? 0)%nat then length line else m l in
    _ ← assert (m' =? length line)%nat;
    _ ← defined_if ((S (n l) <? MAX_ITER)%nat && (m' <=? PAGE_NUM)%nat);
    mret (mk_log m' (a l ++ [(fun c => byte_val c - byte_val "0"%char) <$> line]))
  else mret l.

Definition parse_input (file : option bytes) : result log :=
  match file with
  | None => inl AssertFails
  | Some f => for_each parse_line (mk_log 0 []) (getlines f [])
  end.

(** ** What a policy prints for one iteration, and the pages it evicted *)

Record report := mk_report {
  iter : nat; dirty_size : nat; evict : Z; prev_dirty : nat; evicted : list nat
}.

Abbreviation dirty := (gmap nat bool).

(** [dirty_set[page]], which is [false] for a page that is not there. *)
Definition dirty_at (d : dirty) (page : nat) : bool := default false (d !! page).

(** [dirty_set.size() > dirty_target]: the [int] is converted to [size_t]. *)
Definition over (d : dirty) (dirty_target : Z) : bool := u64 dirty_target <? Z.of_nat (size d).

Section Policies.
Context (l : log).

(** [a[iter][idx]]; the rows that were not read are zero. *)
Definition a_at (iter idx : nat) : Z :=
match iter with O => 0 | S i => default 0 (a l !! i ≫= fun row => row !! idx) end.

Definition pages : list nat := seq 0 (m l).

(** The loop over the iterations that every policy has: the state, and what was
  printed. *)
Definition for_iters {S : Type} (step : nat -> S -> result (S * report)) (iters : nat) (s : S)
  : result (S * list report) :=
for_each (fun '(s, out) iter => '(s', r) ← step iter s; mret (s', out ++ [r])) (s, []) (seq 1 iters).

(** *** [lru_policy] *)

(** A node of the list, and what [page_map] holds: the identity of a node. *)
Definition node : Type := nat * nat.

Record lru := mk_lru {
lru_list : list node; page_map : gmap nat nat; lru_dirty : dirty; next_node : nat;
lru_victims : list nat
}.

(** [std::list::erase]: the iterator must be one of the list's. *)
Definition list_erase (it : nat) (ns : list node) : result (list node) :=
_ ← defined_if (bool_decide (it ∈ ns.*1));
mret (filter (fun nd => nd.1 <> it) ns).

(** [if (page_map.find(idx) != page_map.end()) lru_list.erase(page_map[idx]);] *)
Definition lru_unlink (s : lru) (idx : nat) : result (list node) :=
match page_map s !! idx with
| Some it => list_erase it (lru_list s)
| None => mret (lru_list s)
end.

Definition lru_touch (iter : nat) (s : lru) (idx : nat) : result lru :=
if a_at iter idx =? 1 then
  let d := <[idx := true]> (lru_dirty s) in
  ns ← lru_unlink s idx;
  let it := next_node s in
  mret (mk_lru ((it, idx) :: ns) (<[idx := it]> (page_map s)) d (S it) (lru_victims s))
else mret s.

Definition lru_evict (s : lru) : result lru :=
nd ← the (last (lru_list s));
let lru_page := nd.2 in
_ ← assert (dirty_at (lru_dirty s) lru_page);
mret (mk_lru (take (length (lru_list s) - 1) (lru_list s)) (delete lru_page (page_map s))
        (delete lru_page (lru_dirty s)) (next_node s) (lru_victims s ++ [lru_page])).

Definition lru_step (dirty_target : Z) (iter : nat) (s : lru) : result (lru * report) :=
s1 ← for_each (lru_touch iter) s pages;
let prev := size (lru_dirty s1) in
s2 ← while prev (fun s => over (lru_dirty s) dirty_target) lru_evict
       (mk_lru (lru_list s1) (page_map s1) (lru_dirty s1) (next_node s1) []);
mret (s2, mk_report iter (size (lru_dirty s2)) (Z.of_nat (length (lru_victims s2))) prev (lru_victims s2)).

Definition lru_start : lru := mk_lru [] ∅ ∅ 0 [].
Definition lru_run (iters : nat) (dirty_target : Z) : result (lru * list report) :=
for_iters (lru_step dirty_target) iters lru_start.

(** *** [min_policy] *)

Definition no_next_use : Z := 1000000.

Record mins := mk_mins { next_use : gmap nat (list nat); min_dirty : dirty; min_victims : list nat }.

Definition uses_of (nu : gmap nat (list nat)) (page : nat) : list nat := default [] (nu !! page).

Definition fill_next_use : gmap nat (list nat) :=
foldl (fun nu iter =>
         foldl (fun nu idx => if a_at iter idx =? 1 then <[idx := uses_of nu idx ++ [iter]]> nu else nu)
           nu pages)
  ∅ (seq 1 (n l)).

Definition min_touch (iter : nat) (s : mins) (idx : nat) : result mins :=
if a_at iter idx =? 1 then
  let d := <[idx := true]> (min_dirty s) in
  match uses_of (next_use s) idx with
  | [] => inl AssertFails
  | _ :: us => mret (mk_mins (<[idx := us]> (next_use s)) d (min_victims s))
  end
else mret s.

(** [next_use[page].empty() ? 1000000 : next_use[page].front()] *)
Definition distance (nu : gmap nat (list nat)) (page : nat) : Z :=
match uses_of nu page with [] => no_next_use | iter :: _ => Z.of_nat iter end.

(** The order of [std::pair<int, int>]. *)
Definition pair_le (x y : Z * nat) : Prop := x.1 < y.1 \/ (x.1 = y.1 /\ (x.2 <= y.2)%nat).
#[export] Instance pair_le_dec x y : Decision (pair_le x y).
Proof. unfold pair_le. apply _. Defined.

Definition by_distance (s : mins) : list (Z * nat) :=
merge_sort pair_le
  ((fun page => (- distance (next_use s) page, page)) <$>
     filter (fun page => is_Some (min_dirty s !! page)) pages).

(** One turn of [for (int i = 0; i < dirty_set.size() - dirty_target; ++i)]. *)
Definition min_evict (v : list (Z * nat)) (si : mins * nat) : result (mins * nat) :=
let '(s, i) := si in
x ← the (v !! i);
let min_page := x.2 in
_ ← assert (dirty_at (min_dirty s) min_page);
mret (mk_mins (next_use s) (delete min_page (min_dirty s)) (min_victims s ++ [min_page]), S i).

Definition min_more (dirty_target : Z) (si : mins * nat) : bool :=
Z.of_nat si.2 <? u64 (Z.of_nat (size (min_dirty si.1)) - dirty_target).

Definition min_pass (dirty_target : Z) (s : mins) : result mins :=
let v := by_distance s in
'(s', _) ← while (size (min_dirty s)) (min_more dirty_target) (min_evict v) (s, O);
mret s'.

Definition min_step (dirty_target : Z) (iter : nat) (s : mins) : result (mins * report) :=
s1 ← for_each (min_touch iter) s pages;
let prev := size (min_dirty s1) in
s2 ← while prev (fun s => over (min_dirty s) dirty_target) (min_pass dirty_target)
       (mk_mins (next_use s1) (min_dirty s1) []);
mret (s2, mk_report iter (size (min_dirty s2)) (Z.of_nat (length (min_victims s2))) prev (min_victims s2)).

Definition min_run (iters : nat) (dirty_target : Z) : result (mins * list report) :=
for_iters (min_step dirty_target) iters (mk_mins fill_next_use ∅ []).

(** *** [poly_policy]

  The order in which an [unordered_map] is traversed and the order [std::sort]
  gives to equal elements are not specified: both are parameters. *)

Context (traverse : dirty -> list (nat * bool)) (sort : (nat -> Z) -> list nat -> list nat).

(** [value] holds sums of zeros and ones ([exponential] is 1), exact in a
  [double]; [index_sort] keeps its old contents behind the first [sz] entries. *)
Record poly := mk_poly {
value : list Z; index_sort : list nat; poly_dirty : dirty; poly_victims : list nat
}.

Definition poly_touch (iter : nat) (s : poly) (idx : nat) : result poly :=
v ← the (value s !! idx);
let x := a_at iter idx in
mret (mk_poly (<[idx := v * 1 + x]> (value s)) (index_sort s)
        (if x =? 1 then <[idx := true]> (poly_dirty s) else poly_dirty s) (poly_victims s)).

Definition value_of (s : poly) (page : nat) : Z := default 0 (value s !! page).

Definition poly_keys (s : poly) : result (list nat) :=
for_each (fun keys kv => _ ← assert kv.2; _ ← defined_if (length keys <? PAGE_NUM)%nat; mret (keys ++ [kv.1]))
  [] (traverse (poly_dirty s)).

Definition poly_evict (s : poly) (i : nat) : result poly :=
page ← the (index_sort s !! i);
_ ← assert (dirty_at (poly_dirty s) page);
mret (mk_poly (value s) (index_sort s) (delete page (poly_dirty s)) (poly_victims s ++ [page])).

Definition poly_step (dirty_target : Z) (iter : nat) (s : poly) : result (poly * report) :=
s1 ← for_each (poly_touch iter) s pages;
keys ← poly_keys s1;
let idxs := sort (value_of s1) keys ++ drop (length keys) (index_sort s1) in
let prev := size (poly_dirty s1) in
let evict_num := i32 (Z.of_nat prev - dirty_target) in
let evict_num := if evict_num <? 0 then 0 else evict_num in
s2 ← for_each poly_evict (mk_poly (value s1) idxs (poly_dirty s1) []) (seq 0 (Z.to_nat evict_num));
mret (s2, mk_report iter (size (poly_dirty s2)) evict_num prev (poly_victims s2)).

Definition poly_start : poly := mk_poly (replicate PAGE_NUM 0) (replicate PAGE_NUM O) ∅ [].
Definition poly_run (iters : nat) (dirty_target : Z) : result (poly * list report) :=
for_iters (poly_step dirty_target) iters poly_start.
End Policies.

Arguments a_at : simpl never.

(** ** [main] *)

(** [std::stoi]: an exception when there is no number or it is no [int]. *)
Definition starts_number (s : bytes) : bool :=
  match skip_space s with
  | c :: s' =>
      if bool_decide (c = "-"%char \/ c = "+"%char) then
        match s' with d :: _ => is_digit d | [] => false end
      else is_digit c
  | [] => false
  end.
Definition stoi (s : bytes) : option Z :=
  if starts_number s && bool_decide (in_s 32 (strtol10 s)) then Some (strtol10 s) else None.

Inductive policy_outcome :=
| PolicyUsage                      (** wrong number of arguments: [return 1] *)
| PolicyThrows                     (** [std::stoi] throws *)
| PolicyStops (e : fault)          (** a failed assertion, or undefined behaviour *)
| PolicyPrints (n m : nat) (lfu lru min : list report).

Section PolicyMain.
Context (traverse : dirty -> list (nat * bool)) (sort : (nat -> Z) -> list nat -> list nat).
(** The number of iterations the policies replay: [n] in policy.cc, 7 in
  backup_policy.cc. *)
Context (iters : log -> nat) (files : bytes -> option bytes).

Definition run_policies (l : log) (cache_size : Z) : result (list report * list report * list report) :=
'(_, lfu) ← poly_run l traverse sort (iters l) cache_size;
'(_, lru) ← lru_run l (iters l) cache_size;
'(_, min) ← min_run l (iters l) cache_size;
mret (lfu, lru, min).

Definition policy_main (argv : list bytes) : policy_outcome :=
match argv with
| [_; filename; size] =>
    match stoi size with
    | None => PolicyThrows
    | Some cache_size =>
        match (l ← parse_input (files filename); '(lfu, lru, min) ← run_policies l cache_size;
               mret (l, lfu, lru, min)) with
        | inl e => PolicyStops e
        | inr (l, lfu, lru, min) => PolicyPrints (n l) (m l) lfu lru min
        end
    end
| _ => PolicyUsage
end.
End PolicyMain.

(** backup_policy.cc prints the history of every page it evicts: the iterations
    up to [iter], a space, and those up to 15. *)
Definition page_history (l : log) (page iter : nat) : list Z * list Z :=
  ((fun i => a_at l i page) <$> seq 1 iter, (fun i => a_at l i page) <$> seq (S iter) (15 - iter)).

(** The policies of backup_policy.cc replay seven iterations; the pages whose
    history they print are those of [evicted]. *)
Definition BACKUP_ITERS : nat := 7.
Definition backup_min_policy (l : log) := min_run l BACKUP_ITERS.
Definition backup_lru_policy (l : log) := lru_run l BACKUP_ITERS.
Definition backup_poly_policy (l : log) traverse sort := poly_run l traverse sort BACKUP_ITERS.
Definition main_of_policy traverse sort := policy_main traverse sort n.
Definition main_of_backup_policy traverse sort := policy_main traverse sort (fun _ => BACKUP_ITERS).
