(* ===== verification/PolicyFacts.v ===== *)
(** * What the write-back policies guarantee

    An abstract account of one iteration ([evicts]) and of a whole run ([follows])
    with the rule that chooses the victims as a parameter; [lru_policy],
    [min_policy] and [poly_policy] never fail an assertion or leave an array, and
    follow it with their own rule. *)

From Stdlib Require Import Ascii.
From S2P Require Import Prelude CString Policy.

Definition dirty_of (D : gset nat) : dirty := gset_to_gmap true D.

Lemma dirty_of_insert p D : <[p := true]> (dirty_of D) = dirty_of ({[p]} ∪ D).
Proof. unfold dirty_of. by rewrite gset_to_gmap_union_singleton. Qed.
Lemma dirty_of_delete p D : delete p (dirty_of D) = dirty_of (D ∖ {[p]}).
Proof. unfold dirty_of. by rewrite gset_to_gmap_difference_singleton. Qed.
Lemma dirty_of_size D : size (dirty_of D) = size D.
Proof. unfold dirty_of. by rewrite <- size_dom, dom_gset_to_gmap. Qed.
Lemma dirty_of_at D p : p ∈ D -> dirty_at (dirty_of D) p = true.
Proof. intros Hp. unfold dirty_at, dirty_of. by rewrite lookup_gset_to_gmap, option_guard_True. Qed.
Lemma dirty_of_lookup D p : is_Some (dirty_of D !! p) <-> p ∈ D.
Proof. unfold dirty_of. rewrite <- elem_of_dom. by rewrite dom_gset_to_gmap. Qed.

#[export] Hint Rewrite dirty_of_insert dirty_of_delete dirty_of_size : study.

Lemma over_spec D T :
  0 <= T < 2 ^ 64 -> over (dirty_of D) T = (T <? Z.of_nat (size D)).
Proof. intros HT. unfold over. rewrite dirty_of_size. f_equal. by apply wrap_u_id. Qed.

Lemma size_delete (p : nat) (D : gset nat) : p ∈ D -> size (D ∖ {[p]}) = (size D - 1)%nat.
Proof. intros. rewrite size_difference, size_singleton by set_solver. done. Qed.

(** What [parse_input] establishes of the log. *)
Record log_ok (l : log) : Prop := {
  lo_iters : (n l < MAX_ITER)%nat;
  lo_pages : (m l <= PAGE_NUM)%nat;
  lo_width : m l = O -> a l = [];
  lo_rows : Forall (fun row => length row = m l /\ Forall (fun x => x = 0 \/ x = 1) row) (a l);
}.

Lemma a_at_range l i p : log_ok l -> a_at l i p = 1 -> (p < m l)%nat /\ (0 < i <= n l)%nat.
Proof.
  intros [_ _ _ Hr] Ha. destruct i as [|i]; [done|]. unfold a_at in Ha.
  destruct (a l !! i) as [row|] eqn:E; [|done]. simpl in Ha.
  rewrite Forall_forall in Hr. destruct (Hr row) as [<- _]; [by eapply list_elem_of_lookup_2|].
  destruct (row !! p) eqn:E2; [|done]. apply lookup_lt_Some in E, E2. unfold n. lia.
Qed.

Section Spec.
Context (l : log) (T : Z).

Definition touched (i : nat) : gset nat :=
list_to_set (filter (fun idx => a_at l i idx = 1) (pages l)).

Lemma elem_of_touched i p : p ∈ touched i <-> (p < m l)%nat /\ a_at l i p = 1.
Proof.
unfold touched, pages. rewrite elem_of_list_to_set, list_elem_of_filter, elem_of_seq.
split; [intros [? ?]; split; [lia|done]|intros [? ?]; split; [done|lia]].
Qed.

(** One iteration: [D] was dirty before, [A] is written, [D'] is left. *)
Record evicts (A D D' : gset nat) (r : report) : Prop := {
ev_prev : prev_dirty r = size (D ∪ A);
ev_rest : D' ∪ list_to_set (evicted r) = D ∪ A;
ev_gone : D' ## list_to_set (evicted r);
ev_nodup : NoDup (evicted r);
ev_dirty : dirty_size r = size D';
ev_evict : evict r = Z.of_nat (length (evicted r));
ev_count : evict r = Z.max 0 (Z.of_nat (size (D ∪ A)) - T);
}.

(** [choice i E D']: keeping [D'] of [E] after iteration [i] is allowed. *)
Inductive follows (choice : nat -> gset nat -> gset nat -> Prop) : nat -> gset nat -> list report -> Prop :=
| follows_start : follows choice 0 ∅ []
| follows_next i D D' rs r :
  follows choice i D rs -> iter r = S i -> evicts (touched (S i)) D D' r ->
  choice (S i) (D ∪ touched (S i)) D' -> follows choice (S i) D' (rs ++ [r]).

(** An eviction that is still to be completed. *)
Definition evicting (E D : gset nat) (victims : list nat) : Prop :=
D ∪ list_to_set victims = E /\ D ## list_to_set victims /\ NoDup victims /\
(length victims <= Z.to_nat (Z.of_nat (size E) - T))%nat.

Lemma evicting_size E D vs : evicting E D vs -> (size D + length vs = size E)%nat.
Proof.
intros (HE & Hd & Hn & _). rewrite <- HE, size_union by done.
by rewrite size_list_to_set.
Qed.

Lemma evicting_one E D vs p :
0 <= T -> evicting E D vs -> p ∈ D -> T < Z.of_nat (size D) -> evicting E (D ∖ {[p]}) (vs ++ [p]).
Proof.
intros HT Hev Hp HD. pose proof (evicting_size _ _ _ Hev) as Hs. destruct Hev as (HE & Hd & Hn & Hl).
assert (p ∉ vs) by (intros Hv; apply (Hd p); [done|by apply elem_of_list_to_set]).
unfold evicting. rewrite list_to_set_app_L, length_app. split_and!.
- rewrite <- HE. apply set_eq. intros x. destruct (decide (x = p)); set_solver.
- set_solver.
- apply NoDup_app. split_and!; [done|set_solver|apply NoDup_singleton].
- simpl. lia.
Qed.

Lemma evicting_done i A D D' vs E :
0 <= T -> E = D ∪ A -> evicting E D' vs -> Z.of_nat (size D') <= T ->
evicts A D D' (mk_report i (size D') (Z.of_nat (length vs)) (size E) vs).
Proof.
intros HT -> Hev HD. pose proof (evicting_size _ _ _ Hev). destruct Hev as (HE & Hd & Hn & Hl).
split; simpl; try done. lia.
Qed.

Lemma evicting_start E : evicting E E [].
Proof. repeat split; [set_solver..|constructor|simpl; lia]. Qed.

(** A policy whose step keeps an invariant and follows a rule does so for a run. *)
Lemma for_iters_follows {S : Type} (inv : nat -> S -> gset nat -> Prop) choice step s0 iters :
inv O s0 ∅ ->
(forall i s D, inv i s D -> exists s' r D',
   step (Datatypes.S i) s = inr (s', r) /\ inv (Datatypes.S i) s' D' /\ iter r = Datatypes.S i /\
   evicts (touched (Datatypes.S i)) D D' r /\ choice (Datatypes.S i) (D ∪ touched (Datatypes.S i)) D') ->
exists s' rs D', for_iters step iters s0 = inr (s', rs) /\ inv iters s' D' /\ follows choice iters D' rs /\
  length rs = iters.
Proof.
intros H0 Hstep. induction iters as [|i (s & rs & D & E & Hi & Hf & Hl)].
- exists s0, [], ∅. split_and!; [done..|constructor|done].
- destruct (Hstep i s D Hi) as (s' & r & D' & Es & Hi' & Hr & Hev & Hc).
  exists s', (rs ++ [r]), D'. unfold for_iters in *. rewrite seq_S, for_each_app, E. simpl. rewrite Es. simpl.
  split_and!; [done..|by eapply follows_next|]. rewrite length_app. simpl. lia.
Qed.
End Spec.

(** ** LRU *)

Section Lru.
Context (l : log) (T : Z) (Hl : log_ok l) (HT : 0 <= T < 2 ^ 64).

(** The last iteration up to [i] in which [p] was written, 0 if there is none. *)
Fixpoint last_use (i p : nat) : nat :=
match i with
| O => O
| S i' => if a_at l i p =? 1 then i else last_use i' p
end.

(** Every page written back was last written no later than any page kept. *)
Definition lru_choice (i : nat) (E D' : gset nat) : Prop :=
forall p q, p ∈ E -> p ∉ D' -> q ∈ D' -> (last_use i p <= last_use i q)%nat.

Definition in_list (s : lru) : gset nat := list_to_set (lru_list s).*2.

(** [lu]: the last use of each page so far. *)
Record lru_inv (lu : nat -> nat) (s : lru) : Prop := {
li_nodes : NoDup (lru_list s).*1;
li_pages : NoDup (lru_list s).*2;
li_map : forall p it, page_map s !! p = Some it <-> (it, p) ∈ lru_list s;
li_fresh : Forall (fun it => (it < next_node s)%nat) (lru_list s).*1;
li_dirty : lru_dirty s = dirty_of (in_list s);
li_order : StronglySorted (fun p q => (lu q <= lu p)%nat) (lru_list s).*2;
}.

Lemma last_use_le i p : (last_use i p <= i)%nat.
Proof. induction i; simpl; [done|]. case_match; lia. Qed.

(** Removing the node of a page removes the page, the others keep their order. *)
Lemma erase_pages it p (ns : list node) :
NoDup ns.*1 -> NoDup ns.*2 -> (it, p) ∈ ns ->
(filter (fun nd => nd.1 <> it) ns).*2 = filter (fun q => q <> p) ns.*2.
Proof.
induction ns as [|[it' q] ns IH]; csimpl; intros H1 H2 Hin; [by apply elem_of_nil in Hin|].
apply NoDup_cons in H1 as [Hn1 H1], H2 as [Hn2 H2].
rewrite !filter_cons. csimpl. apply elem_of_cons in Hin as [[= <- <-]|Hin].
- rewrite !decide_False by tauto.
  rewrite (list_filter_all _ ns), (list_filter_all _ ns.*2); [done| |];
    apply Forall_forall; intros x Hx; [congruence|].
  intros E. apply Hn1. rewrite <- E. apply list_elem_of_fmap. eauto.
- assert (it' <> it) by (intros ->; apply Hn1; apply list_elem_of_fmap; by exists (it, p)).
  assert (q <> p) by (intros ->; apply Hn2; apply list_elem_of_fmap; by exists (it, p)).
  rewrite !decide_True by done. csimpl. f_equal. by apply IH.
Qed.

Lemma lru_unlink_ok lu s idx :
lru_inv lu s ->
exists ns, lru_unlink s idx = inr ns /\ ns.*2 = filter (fun q => q <> idx) (lru_list s).*2 /\
  sublist ns (lru_list s) /\ (forall nd, nd ∈ ns <-> nd ∈ lru_list s /\ nd.2 <> idx).
Proof.
intros [Hn Hp Hm _ _ _]. unfold lru_unlink. destruct (page_map s !! idx) as [it|] eqn:E.
- apply Hm in E as Hin. unfold list_erase.
  rewrite bool_decide_true by (apply list_elem_of_fmap; by exists (it, idx)).
  eexists. split_and!; [done|by apply erase_pages|apply sublist_filter|].
  intros [it' q]. simpl. rewrite list_elem_of_filter. simpl. split; intros [H1 H2]; split; try done.
  + intros ->. apply Hm in H2. congruence.
  + intros ->. apply H2. by injection (NoDup_fmap_inj_in fst (lru_list s) (it, q) (it, idx) Hn H1 Hin eq_refl).
- exists (lru_list s). split_and!; [done| |done|].
  + symmetry. apply list_filter_all, Forall_forall.
    intros q [[it q'] [-> Hin]]%list_elem_of_fmap Eq. simpl in Eq. subst q'.
    apply Hm in Hin. by rewrite E in Hin.
  + intros [it q]. simpl. split; [|tauto]. intros Hin. split; [done|]. intros ->.
    apply Hm in Hin. by rewrite E in Hin.
Qed.

Lemma lru_touch_ok lu s i idx :
lru_inv lu s -> (forall p, (lu p <= i)%nat) -> a_at l i idx = 1 ->
exists s', lru_touch l i s idx = inr s' /\ lru_inv (<[idx := i]> lu) s' /\ in_list s' = {[idx]} ∪ in_list s.
Proof.
intros Hinv Hlu Ha. unfold lru_touch. rewrite Ha.
destruct (lru_unlink_ok _ _ idx Hinv) as (ns & -> & Hns & Hsub & Hin).
destruct Hinv as [Hn Hp Hm Hfr Hd Ho]. eexists. split; [done|].
assert (idx ∉ ns.*2) as Hidx by (rewrite Hns; intros [? _]%list_elem_of_filter; done).
assert (in_list (mk_lru ((next_node s, idx) :: ns) (<[idx:=next_node s]> (page_map s))
   (<[idx:=true]> (lru_dirty s)) (S (next_node s)) (lru_victims s)) = {[idx]} ∪ in_list s) as Hset.
{ apply set_eq. intros q. unfold in_list. csimpl. rewrite Hns, !elem_of_union, !elem_of_list_to_set.
  rewrite list_elem_of_filter, elem_of_singleton. destruct (decide (q = idx)); tauto. }
split; [|done]. split; csimpl.
- apply NoDup_cons. split; [|eapply sublist_NoDup; [exact Hn|by apply fmap_sublist]].
  intros Hold. rewrite Forall_forall in Hfr.
  apply list_elem_of_fmap in Hold as ([it q] & Eit & [Hq _]%Hin).
  assert (next_node s < next_node s)%nat; [|lia]. apply Hfr, list_elem_of_fmap. by exists (it, q).
- apply NoDup_cons. split; [done|]. rewrite Hns. by apply NoDup_filter.
- intros p it. rewrite lookup_insert_Some, elem_of_cons, Hin, Hm. simpl.
  naive_solver.
- apply Forall_cons. split; [lia|]. eapply Forall_impl; [|].
  + eapply Forall_sublist; [by apply fmap_sublist|exact Hfr].
  + intros x Hx. simpl in Hx. lia.
- rewrite Hset, Hd. by rewrite dirty_of_insert.
- constructor.
  + rewrite Hns. eapply StronglySorted_ext_in; [|by apply StronglySorted_filter].
    intros x y [Hx _]%list_elem_of_filter [Hy _]%list_elem_of_filter. by rewrite !fn_lookup_insert_ne by done.
  + apply Forall_forall. intros q Hq. rewrite fn_lookup_insert.
    destruct (decide (idx = q)) as [->|]; [by rewrite fn_lookup_insert|]. by rewrite fn_lookup_insert_ne.
Qed.

Lemma lru_inv_ext lu lu' s : (forall p, lu p = lu' p) -> lru_inv lu s -> lru_inv lu' s.
Proof.
intros E [? ? ? ? ? Ho]. split; try done. eapply StronglySorted_ext_in; [|exact Ho].
intros x y _ _. simpl. by rewrite !E.
Qed.

Lemma lru_touch_all s D j :
lru_inv (last_use j) s -> in_list s = D ->
exists s', for_each (lru_touch l (S j)) s (pages l) = inr s' /\ lru_inv (last_use (S j)) s' /\
  in_list s' = D ∪ touched l (S j).
Proof.
intros Hinv HD.
set (lu := fun (pre : list nat) p => if decide (p ∈ pre /\ a_at l (S j) p = 1) then S j else last_use j p).
destruct (for_each_inv (fun pre s => lru_inv (lu pre) s /\
    in_list s = D ∪ list_to_set (filter (fun idx => a_at l (S j) idx = 1) pre))
  (lru_touch l (S j)) s (pages l)) as (s' & -> & Hinv' & HD').
- split; [|set_solver]. eapply lru_inv_ext; [|exact Hinv]. intros p. unfold lu.
  rewrite decide_False; [done|]. by intros [?%elem_of_nil _].
- intros pre idx post s1 _ [Hi1 HD1]. rewrite filter_app, list_to_set_app_L.
  destruct (decide (a_at l (S j) idx = 1)) as [Ha|Ha].
  + destruct (lru_touch_ok (lu pre) s1 (S j) idx) as (s2 & -> & Hi2 & HD2); [done| |done|].
    { intros p. unfold lu. case_decide; [done|]. pose proof (last_use_le j p). lia. }
    exists s2. split; [done|]. split.
    * eapply lru_inv_ext; [|exact Hi2]. intros p. unfold lu. destruct (decide (idx = p)) as [<-|Hne].
      -- rewrite fn_lookup_insert, decide_True; [done|]. set_solver.
      -- rewrite fn_lookup_insert_ne by done. apply decide_ext. set_solver.
    * rewrite HD2, HD1, filter_cons_True by done. set_solver.
  + exists s1. unfold lru_touch. rewrite (proj2 (Z.eqb_neq _ _)) by done. split; [done|]. split.
    * eapply lru_inv_ext; [|exact Hi1]. intros p. unfold lu. apply decide_ext. set_solver.
    * rewrite HD1, filter_cons_False by done. set_solver.
- exists s'. split; [done|]. split; [|done]. eapply lru_inv_ext; [|exact Hinv'].
  intros p. unfold lu. simpl. destruct (decide (a_at l (S j) p = 1)) as [Ha|Ha].
  + rewrite decide_True, (proj2 (Z.eqb_eq _ _)); [done|done|]. split; [|done].
    apply elem_of_seq. apply a_at_range in Ha as [? ?]; [lia|done].
  + rewrite decide_False, (proj2 (Z.eqb_neq _ _)) by naive_solver. done.
Qed.

(** What holds while pages are evicted: the victims are older than what is left. *)
Definition lru_evicting (i : nat) (E : gset nat) (s : lru) : Prop :=
lru_inv (last_use i) s /\ evicting T E (in_list s) (lru_victims s) /\ lru_choice i E (in_list s).

Lemma lru_evict_ok i E s :
lru_evicting i E s -> over (lru_dirty s) T = true ->
exists s', lru_evict s = inr s' /\ lru_evicting i E s' /\ (size (lru_dirty s') < size (lru_dirty s))%nat.
Proof.
intros ([Hn Hp Hm Hfr Hd Ho] & Hev & Hch) Hov. rewrite Hd, over_spec in Hov by done. to_prop.
assert (exists ns it p, lru_list s = ns ++ [(it, p)]) as (ns & it & p & El).
{ destruct (lru_list s) as [|x xs _] eqn:El using rev_ind; [|destruct x; eauto].
  unfold in_list in Hov. rewrite El in Hov. change (size (list_to_set _)) with 0%nat in Hov. lia. }
rewrite El, fmap_app in *. csimpl in *. apply StronglySorted_snoc in Ho as [Ho Hold].
apply NoDup_app in Hp as (Hp & Hpn & _), Hn as (Hn & Hnn & _). apply Forall_app in Hfr as [Hfr _].
assert (p ∉ ns.*2) as Hpp by (intros H; by apply (Hpn p H), list_elem_of_singleton).
assert (in_list s = list_to_set ns.*2 ∪ {[p]}) as Hset.
{ unfold in_list. rewrite El, fmap_app, list_to_set_app_L. set_solver. }
set (s' := mk_lru ns (delete p (page_map s)) (delete p (lru_dirty s)) (next_node s) (lru_victims s ++ [p])).
assert (in_list s' = in_list s ∖ {[p]}) as Hset'.
{ unfold in_list at 1. simpl. rewrite Hset. set_solver. }
assert (p ∈ in_list s) as Hin by set_solver.
exists s'. split; [|split; [split; [|split]|]].
- unfold lru_evict. rewrite El, last_snoc. simpl. rewrite Hd, dirty_of_at by done. simpl.
  unfold s'. rewrite Hd, length_app. simpl. by rewrite Nat.add_sub, take_app_length.
- split; simpl; try done.
  + intros q it'. rewrite lookup_delete_Some, Hm, elem_of_app, list_elem_of_singleton.
    split; [naive_solver|]. intros Hq. split; [|by left]. intros ->. apply Hpp, list_elem_of_fmap.
    by exists (it', q).
  + rewrite Hset', Hd. apply dirty_of_delete.
- rewrite Hset'. apply evicting_one; [lia|done..].
- intros x q Hx Hnx Hq. rewrite Hset' in Hq, Hnx.
  assert (q ∈ ns.*2) as Hq' by (rewrite Hset in Hq; set_solver).
  destruct (decide (x = p)) as [->|Hxp]; [|apply Hch; set_solver].
  rewrite Forall_forall in Hold. by apply Hold.
- simpl. rewrite Hd, dirty_of_delete, !dirty_of_size, size_delete by done. lia.
Qed.

Lemma lru_step_ok i s D :
lru_inv (last_use i) s /\ in_list s = D -> exists s' r D',
  lru_step l T (S i) s = inr (s', r) /\ (lru_inv (last_use (S i)) s' /\ in_list s' = D') /\ iter r = S i /\
  evicts T (touched l (S i)) D D' r /\ lru_choice (S i) (D ∪ touched l (S i)) D'.
Proof.
intros [Hinv HD]. destruct (lru_touch_all s D i Hinv HD) as (s1 & E1 & Hinv1 & HD1).
set (s1' := mk_lru (lru_list s1) (page_map s1) (lru_dirty s1) (next_node s1) []).
destruct (while_inv (lru_evicting (S i) (in_list s1)) (fun s => size (lru_dirty s))
  (size (lru_dirty s1)) (fun s => over (lru_dirty s) T) lru_evict s1') as (s2 & E2 & (Hinv2 & Hev & Hch) & Hov).
- split_and!; [by destruct Hinv1|apply evicting_start|]. intros p q Hp Hnp. by destruct Hnp.
- done.
- apply lru_evict_ok.
- pose proof (li_dirty _ _ Hinv1) as Hd1. pose proof (li_dirty _ _ Hinv2) as Hd2.
  rewrite Hd2, over_spec in Hov by done. to_prop.
  eexists s2, _, (in_list s2). unfold lru_step. rewrite E1. simpl. fold s1'. rewrite E2. simpl.
  split_and!; [done..| |by rewrite <- HD1].
  rewrite Hd1, Hd2, !dirty_of_size. eapply evicting_done; [lia|exact HD1|exact Hev|lia].
Qed.

Lemma lru_policy_ok iters :
exists s rs D, lru_run l iters T = inr (s, rs) /\ follows l T lru_choice iters D rs /\
  lru_dirty s = dirty_of D /\ length rs = iters.
Proof.
destruct (for_iters_follows l T (fun i s D => lru_inv (last_use i) s /\ in_list s = D) lru_choice
  (lru_step l T) lru_start iters) as (s & rs & D & E & [Hinv HD] & Hf & Hlen).
- split; [|done]. split; simpl; try by constructor. intros p it. rewrite elem_of_nil. by rewrite lookup_empty.
- apply lru_step_ok.
- exists s, rs, D. split_and!; [done..| |done]. rewrite (li_dirty _ _ Hinv). by rewrite HD.
Qed.

(** C3: with a target of at least 0, [lru_policy] returns for every log: no
  assertion fails ("in lru but not dirty" does not happen), no iterator is stale
  and no list is popped empty; each iteration evicts exactly the excess over the
  target, and what it evicts was last written no later than what it keeps. *)
Theorem lru_policy_correct iters :
exists s rs D, lru_run l iters T = inr (s, rs) /\ follows l T lru_choice iters D rs /\
  lru_dirty s = dirty_of D /\ length rs = iters.
Proof. apply lru_policy_ok. Qed.
End Lru.
