(* ===== verification/PolicyMin.v ===== *)
(** * Belady's policy is optimal

    [min_policy] returns for every log and evicts pages whose next use is farthest
    away; no sequence of evictions that keeps at most [dirty_target] pages dirty
    writes back fewer pages in total. *)

From Stdlib Require Import Ascii.
From S2P Require Import Prelude CString Policy PolicyFacts.

#[export] Instance pair_le_total : Total pair_le.
Proof. intros [x p] [y q]. unfold pair_le. simpl. lia. Qed.
#[export] Instance pair_le_trans : Transitive pair_le.
Proof. intros [x p] [y q] [z r]. unfold pair_le. simpl. lia. Qed.

Section Min.
Context (l : log) (T : Z) (Hl : log_ok l) (HT : 0 <= T < 2 ^ 64).

(** The iterations after [i] in which [p] is written. *)
Definition uses (i p : nat) : list nat := filter (fun j => a_at l j p = 1) (seq (S i) (n l - i)).

Definition next_after (i p : nat) : Z :=
match uses i p with [] => no_next_use | j :: _ => Z.of_nat j end.

(** What is kept is needed no later than what is written back. *)
Definition min_choice (i : nat) (E D' : gset nat) : Prop :=
forall p q, p ∈ E -> p ∉ D' -> q ∈ D' -> next_after i q <= next_after i p.

Definition min_inv (i : nat) (s : mins) (D : gset nat) : Prop :=
min_dirty s = dirty_of D /\ (forall p, p ∈ D -> (p < m l)%nat) /\
(forall p, uses_of (next_use s) p = uses i p).

(** *** The table of next uses *)

Lemma uses_fill_row i ps nu p :
NoDup ps ->
uses_of (foldl (fun nu idx => if a_at l i idx =? 1 then <[idx := uses_of nu idx ++ [i]]> nu else nu) nu ps) p =
uses_of nu p ++ (if decide (p ∈ ps /\ a_at l i p = 1) then [i] else []).
Proof.
intros Hn. revert nu. induction ps as [|q ps IH]; intros nu; cbn [foldl].
- rewrite decide_False; [by rewrite app_nil_r|]. by intros [?%elem_of_nil _].
- apply NoDup_cons in Hn as [Hq Hn]. rewrite IH by done.
  destruct (decide (p = q)) as [->|Hpq].
  + rewrite (decide_False (P := q ∈ ps /\ _)) by tauto. rewrite app_nil_r.
    destruct (Z.eqb_spec (a_at l i q) 1) as [Ha|Ha].
    * rewrite decide_True by (split; [by left|done]). unfold uses_of at 1. by rewrite lookup_insert_eq.
    * rewrite decide_False by tauto. by rewrite app_nil_r.
  + f_equal; [|apply decide_ext; set_solver].
    destruct (_ =? 1); [|done]. unfold uses_of. by rewrite lookup_insert_ne.
Qed.

Lemma uses_fill p : uses_of (fill_next_use l) p = uses 0 p.
Proof.
unfold fill_next_use, uses. replace (n l - 0)%nat with (n l) by lia.
induction (n l) as [|k IH]; [done|]. rewrite seq_S, foldl_snoc, filter_app, uses_fill_row by apply NoDup_seq.
rewrite IH. f_equal. simpl. rewrite filter_cons, filter_nil. apply decide_ext.
split; [tauto|]. intros Ha. split; [|done]. apply elem_of_seq. apply a_at_range in Ha; [lia|done].
Qed.

Lemma uses_cons i p :
uses i p = (if decide (a_at l (S i) p = 1) then [S i] else []) ++ uses (S i) p.
Proof.
unfold uses. destruct (decide (S i <= n l)%nat) as [Hi|Hi].
- replace (n l - i)%nat with (S (n l - S i)) by lia. cbn [seq]. rewrite filter_cons. by destruct (decide _).
- replace (n l - i)%nat with O by lia. replace (n l - S i)%nat with O by lia.
  rewrite decide_False; [done|]. intros Ha. apply a_at_range in Ha; [lia|done].
Qed.

Lemma min_touch_all s D i :
min_inv i s D ->
exists s', for_each (min_touch l (S i)) s (pages l) = inr s' /\ min_inv (S i) s' (D ∪ touched l (S i)).
Proof.
intros (Hd & HD & Hu).
destruct (for_each_inv (fun pre s =>
    min_dirty s = dirty_of (D ∪ list_to_set (filter (fun idx => a_at l (S i) idx = 1) pre)) /\
    (forall p, uses_of (next_use s) p = if decide (p ∈ pre) then uses (S i) p else uses i p))
  (min_touch l (S i)) s (pages l)) as (s' & -> & Hd' & Hu').
- split; [rewrite Hd; f_equal; set_solver|]. intros p. rewrite decide_False; [done|]. apply not_elem_of_nil.
- intros pre idx post s1 Epre [Hd1 Hu1].
  assert (idx ∉ pre) as Hidx.
  { pose proof (NoDup_seq 0 (m l)) as Hnd. fold (pages l) in Hnd. rewrite Epre in Hnd.
    apply NoDup_app in Hnd as (_ & Hnd & _). intros Hin. apply (Hnd _ Hin). by left. }
  unfold min_touch. rewrite Hu1, decide_False, uses_cons by done.
  rewrite filter_app, list_to_set_app_L.
  destruct (Z.eqb_spec (a_at l (S i) idx) 1) as [Ha|Ha].
  + rewrite decide_True by done. simpl. eexists. split; [done|]. simpl. split.
    * rewrite Hd1, dirty_of_insert, filter_cons_True by done. f_equal. set_solver.
    * intros p. unfold uses_of. destruct (decide (idx = p)) as [<-|Hne].
      -- rewrite lookup_insert_eq, decide_True by set_solver. done.
      -- rewrite lookup_insert_ne by done. fold (uses_of (next_use s1) p). rewrite Hu1. apply decide_ext. set_solver.
  + exists s1. split; [done|]. rewrite filter_cons_False by done. split; [rewrite Hd1; f_equal; set_solver|].
    intros p. rewrite Hu1. destruct (decide (p = idx)) as [->|Hne]; [|apply decide_ext; set_solver].
    rewrite decide_False, decide_True by set_solver. by rewrite uses_cons, decide_False.
- exists s'. split; [done|]. split_and!; [done| |].
  + intros p [Hp|Hp]%elem_of_union; [by apply HD|]. by apply elem_of_touched in Hp as [? _].
  + intros p. rewrite Hu'. case_decide as Hp; [done|]. rewrite uses_cons, decide_False; [done|].
    intros Ha. apply Hp, elem_of_seq. apply a_at_range in Ha; [lia|done].
Qed.

(** *** The eviction passes *)

Lemma distance_uses s i p :
uses_of (next_use s) p = uses i p -> distance (next_use s) p = next_after i p.
Proof. unfold distance, next_after. by intros ->. Qed.

Lemma by_distance_pages s D :
min_dirty s = dirty_of D -> (forall p, p ∈ D -> (p < m l)%nat) ->
NoDup (by_distance l s).*2 /\ (forall p, p ∈ (by_distance l s).*2 <-> p ∈ D).
Proof.
intros Hd HD. unfold by_distance.
assert ((merge_sort pair_le ((fun page => (- distance (next_use s) page, page)) <$>
  filter (fun page => is_Some (min_dirty s !! page)) (pages l))).*2 ≡ₚ
  filter (fun page => is_Some (min_dirty s !! page)) (pages l)) as Hperm.
{ rewrite merge_sort_Permutation, <- list_fmap_compose. by rewrite list_fmap_id. }
split; [rewrite Hperm; apply NoDup_filter, NoDup_seq|].
intros p. unfold pages in Hperm. rewrite Hperm, list_elem_of_filter, Hd, dirty_of_lookup, elem_of_seq.
split; [tauto|]. intros Hp. split; [done|]. specialize (HD p Hp). lia.
Qed.

Lemma by_distance_fst s : Forall (fun x => x.1 = - distance (next_use s) x.2) (by_distance l s).
Proof.
unfold by_distance. rewrite merge_sort_Permutation. apply Forall_forall.
by intros x (p & -> & _)%list_elem_of_fmap.
Qed.

(** Whatever stands before position [i] of the sorted list is needed no earlier
  than what stands at [i] or behind. *)
Lemma by_distance_sorted s i p q :
p ∈ (take i (by_distance l s)).*2 -> q ∈ (drop i (by_distance l s)).*2 ->
distance (next_use s) q <= distance (next_use s) p.
Proof.
intros ([d p'] & -> & Hp)%list_elem_of_fmap ([e q'] & -> & Hq)%list_elem_of_fmap. simpl.
pose proof (StronglySorted_merge_sort pair_le ((fun page => (- distance (next_use s) page, page)) <$>
  filter (fun page => is_Some (min_dirty s !! page)) (pages l))) as Hs.
fold (by_distance l s) in Hs. pose proof (by_distance_fst s) as Hf. rewrite Forall_forall in Hf.
assert (pair_le (d, p') (e, q')) as Hle.
{ rewrite <- (take_drop i (by_distance l s)) in Hs. by eapply StronglySorted_app_1_elem_of. }
apply subseteq_take, Hf in Hp. apply subseteq_drop, Hf in Hq. unfold pair_le in Hle. simpl in *. lia.
Qed.

(** Eviction in progress: [D] is left of [E]. *)
Definition min_evicting (i : nat) (E : gset nat) (s : mins) (D : gset nat) : Prop :=
min_inv i s D /\ evicting T E D (min_victims s) /\ min_choice i E D.

(** Inside a pass that started with [s0] dirty in [D0], [k] pages are gone. *)
Definition min_passing (E D0 : gset nat) (s0 : mins) (sk : mins * nat) : Prop :=
let '(s, k) := sk in
let D := list_to_set (drop k (by_distance l s0)).*2 in
next_use s = next_use s0 /\ min_dirty s = dirty_of D /\ evicting T E D (min_victims s) /\
(size D + k = size D0)%nat /\ T <= Z.of_nat (size D).

Lemma size_pages (D : gset nat) : (forall p, p ∈ D -> (p < m l)%nat) -> (size D <= PAGE_NUM)%nat.
Proof.
intros HD. transitivity (size (set_seq 0 (m l) : gset nat)); [|rewrite size_set_seq; apply Hl].
apply subseteq_size. intros p Hp. apply elem_of_set_seq. specialize (HD p Hp). lia.
Qed.

Lemma min_more_spec E D0 s0 sk :
min_passing E D0 s0 sk -> (size D0 <= PAGE_NUM)%nat ->
min_more T sk = (Z.of_nat sk.2 <? Z.of_nat (size (min_dirty sk.1)) - T).
Proof.
destruct sk as [s k]. intros (_ & Hd & _ & Hk & HTk) HD0. unfold min_more. simpl.
rewrite wrap_u_id; [done|]. rewrite Hd, dirty_of_size. unfold in_u. split; [lia|].
assert (Z.of_nat PAGE_NUM < 2 ^ 64) by reflexivity. lia.
Qed.

Lemma min_evict_ok i E D0 s0 sk :
min_inv i s0 D0 -> min_passing E D0 s0 sk -> min_more T sk = true ->
exists sk', min_evict (by_distance l s0) sk = inr sk' /\ min_passing E D0 s0 sk' /\
  (size (min_dirty sk'.1) < size (min_dirty sk.1))%nat.
Proof.
intros (Hd0 & HD0 & _) Hps Hmore. rewrite (min_more_spec E D0 s0) in Hmore by (done || by apply size_pages).
destruct (by_distance_pages s0 D0 Hd0 HD0) as [Hnd _].
destruct sk as [s k]. destruct Hps as (Hnu & Hd & Hev & Hk & HTk). simpl in Hmore. rewrite Hd, dirty_of_size in Hmore.
to_prop. set (v := by_distance l s0) in *.
destruct (v !! k) as [x|] eqn:Ex; cycle 1.
{ apply lookup_ge_None in Ex. rewrite drop_ge in Hmore by done. change (size _) with 0%nat in Hmore. lia. }
rewrite (drop_S _ _ _ Ex) in *. csimpl in *.
set (D := list_to_set (drop (S k) v).*2 : gset nat) in *.
assert (x.2 ∉ D) as Hx.
{ unfold D. rewrite elem_of_list_to_set. rewrite <- (take_drop k v), (drop_S _ _ _ Ex), fmap_app in Hnd.
  apply NoDup_app in Hnd as (_ & _ & Hnd). csimpl in Hnd. by apply NoDup_cons in Hnd as [? _]. }
assert (({[x.2]} ∪ D) ∖ {[x.2]} = D) as HD by set_solver.
assert (size ({[x.2]} ∪ D) = S (size D)) as Hsz.
{ rewrite size_union, size_singleton by set_solver. done. }
unfold min_evict. rewrite Ex. simpl. rewrite Hd, dirty_of_at by set_solver. simpl.
eexists. split; [done|]. split; simpl.
- fold v D. split_and!; [done|by rewrite dirty_of_delete, HD| |lia..].
  rewrite <- HD. apply evicting_one; [lia|done|set_solver|lia].
- rewrite dirty_of_delete, !dirty_of_size, HD. lia.
Qed.

Lemma min_pass_ok i E s D :
min_evicting i E s D -> over (min_dirty s) T = true ->
exists s' D', min_pass l T s = inr s' /\ min_evicting i E s' D' /\ (size (min_dirty s') < size (min_dirty s))%nat.
Proof.
intros (Hinv & Hev & Hch) Hov. pose proof Hinv as (Hd & HD & Hu).
destruct (by_distance_pages s D Hd HD) as [Hnd Hin].
rewrite Hd, over_spec in Hov by done. to_prop.
assert (list_to_set (by_distance l s).*2 = D) as Hset by (apply set_eq; intros p; by rewrite elem_of_list_to_set).
assert (min_passing E D s (s, O)) as Hstart.
{ simpl. rewrite drop_0, Hset. split_and!; [done..|lia|lia]. }
destruct (while_inv (min_passing E D s) (fun sk => size (min_dirty sk.1)) (size (min_dirty s))
  (min_more T) (min_evict (by_distance l s)) (s, O)) as ([s' k] & E2 & Hps & Hend); [done..| |].
{ intros sk Hsk Hmore. by eapply min_evict_ok. }
rewrite (min_more_spec E D s) in Hend by (done || by apply size_pages).
destruct Hps as (Hnu & Hd' & Hev' & Hk & HTk). simpl in Hend. rewrite Hd', dirty_of_size in Hend. to_prop.
set (D' := list_to_set (drop k (by_distance l s)).*2 : gset nat) in *.
assert (forall p, p ∈ D' -> p ∈ D) as Hsub.
{ intros p. unfold D'. rewrite elem_of_list_to_set. intros Hp. apply Hin.
  rewrite fmap_drop in Hp. by apply subseteq_drop in Hp. }
exists s', D'. unfold min_pass. rewrite E2. simpl. split; [done|]. split.
- split_and!; [|done|].
  + split_and!; [done|intros p Hp; by apply HD, Hsub|]. intros p. by rewrite Hnu.
  + intros p q Hp Hnp Hq. destruct (decide (p ∈ D)) as [HpD|HpD]; [|apply Hch; [done..|by apply Hsub]].
    rewrite <- !(distance_uses s) by done.
    apply (by_distance_sorted s k); [|by apply elem_of_list_to_set in Hq].
    rewrite <- Hin, <- (take_drop k (by_distance l s)), fmap_app, elem_of_app in HpD.
    destruct HpD as [|HpD]; [done|]. destruct Hnp. by apply elem_of_list_to_set.
- rewrite Hd, Hd', !dirty_of_size. destruct k; [|lia]. lia.
Qed.

Lemma min_step_ok i s D :
min_inv i s D -> exists s' r D',
  min_step l T (S i) s = inr (s', r) /\ min_inv (S i) s' D' /\ iter r = S i /\
  evicts T (touched l (S i)) D D' r /\ min_choice (S i) (D ∪ touched l (S i)) D'.
Proof.
intros Hinv. destruct (min_touch_all s D i Hinv) as (s1 & E1 & Hinv1).
set (E := D ∪ touched l (S i)) in *. set (s1' := mk_mins (next_use s1) (min_dirty s1) []).
destruct (while_inv (fun s => exists D, min_evicting (S i) E s D) (fun s => size (min_dirty s))
  (size (min_dirty s1)) (fun s => over (min_dirty s) T) (min_pass l T) s1')
  as (s2 & E2 & (D' & Hinv2 & Hev & Hch) & Hov).
- exists E. split_and!; [done|apply evicting_start|]. intros p q Hp Hnp. by destruct Hnp.
- done.
- intros s' (D' & Hs') Hov. destruct (min_pass_ok _ _ _ _ Hs' Hov) as (s'' & D'' & ? & ? & ?). eauto.
- destruct Hinv1 as (Hd1 & _). pose proof Hinv2 as (Hd2 & _).
  rewrite Hd2, over_spec in Hov by done. to_prop.
  eexists s2, _, D'. unfold min_step. rewrite E1. simpl. fold s1'. rewrite E2. simpl.
  split_and!; [done..| |done].
  rewrite Hd1, Hd2, !dirty_of_size. eapply evicting_done; [lia|done|exact Hev|lia].
Qed.

Lemma min_policy_ok iters :
exists s rs D, min_run l iters T = inr (s, rs) /\ follows l T min_choice iters D rs /\
  min_dirty s = dirty_of D /\ length rs = iters.
Proof.
destruct (for_iters_follows l T min_inv min_choice (min_step l T) (mk_mins (fill_next_use l) ∅ []) iters)
  as (s & rs & D & E & (Hd & _) & Hf & Hlen).
- split_and!; [done|by intros p ?%elem_of_empty|]. intros p. apply uses_fill.
- apply min_step_ok.
- by exists s, rs, D.
Qed.

(** C2: with a target of at least 0, [min_policy] returns for every log: its table of
  next uses is never empty when a page is written, the halving passes end, and
  together they evict exactly the excess over the target; what is kept is needed
  again no later than what is evicted. *)
Theorem min_policy_correct iters :
exists s rs D, min_run l iters T = inr (s, rs) /\ follows l T min_choice iters D rs /\
  min_dirty s = dirty_of D /\ length rs = iters.
Proof. apply min_policy_ok. Qed.
End Min.

(** ** Optimality *)

Section Optimal.
Context (l : log) (T : Z) (Hl : log_ok l) (HT : 0 <= T < 2 ^ 64).

(** Any way to run a write-back policy: after each iteration some pages are written
  back, and at most [T] stay dirty.  The index counts the pages written back. *)
Inductive feasible : nat -> gset nat -> Z -> Prop :=
| feasible_start : feasible 0 ∅ 0
| feasible_next i D D' c :
  feasible i D c -> D' ⊆ D ∪ touched l (S i) -> Z.of_nat (size D') <= T ->
  feasible (S i) D' (c + Z.of_nat (size (D ∪ touched l (S i))) - Z.of_nat (size D')).

(** The pages a run wrote back in total. *)
Definition total (rs : list report) : Z := foldr (fun r c => evict r + c) 0 rs.

Lemma total_snoc rs r : total (rs ++ [r]) = total rs + evict r.
Proof. induction rs as [|r' rs IH]; simpl; [lia|]. rewrite IH. lia. Qed.

Lemma evicts_size A D D' r :
evicts T A D D' r -> evict r = Z.of_nat (size (D ∪ A)) - Z.of_nat (size D') /\ D' ⊆ D ∪ A /\
  size D' = Nat.min (size (D ∪ A)) (Z.to_nat T).
Proof.
intros [_ Hr Hg Hn _ He Hc].
assert (size (D ∪ A) = size D' + length (evicted r))%nat as Hs.
{ rewrite <- Hr, size_union by done. by rewrite size_list_to_set. }
split_and!; [lia|set_solver|lia].
Qed.

Lemma follows_feasible choice i D rs : follows l T choice i D rs -> feasible i D (total rs).
Proof.
induction 1 as [|i D D' rs r Hf IH Hr Hev Hc]; [constructor|].
destruct (evicts_size _ _ _ _ Hev) as (He & Hs & Hm). rewrite total_snoc, He.
replace (total rs + _) with (total rs + Z.of_nat (size (D ∪ touched l (S i))) - Z.of_nat (size D')) by lia.
constructor; [done..|]. lia.
Qed.

(** [p] is written again after [i] and not after [t]. *)
Definition due (i t p : nat) : Prop := match uses l i p with [] => False | j :: _ => (j <= t)%nat end.
#[local] Instance due_dec i t p : Decision (due i t p).
Proof. unfold due. destruct (uses l i p); apply _. Defined.

Definition needed (i t : nat) (D : gset nat) : nat := size (filter (due i t) D).

Lemma due_touched i t p : (S i <= t)%nat -> p ∈ touched l (S i) -> due i t p.
Proof. intros Ht [_ Ha]%elem_of_touched. unfold due. rewrite (uses_cons l Hl), decide_True by done. exact Ht. Qed.

Lemma due_untouched i t p : p ∉ touched l (S i) -> due i t p <-> due (S i) t p.
Proof.
intros Hp. unfold due. rewrite (uses_cons l Hl), decide_False; [done|].
intros Ha. apply Hp, elem_of_touched. split; [|done]. by apply (a_at_range l _ _ Hl) in Ha as [? _].
Qed.

Lemma due_later i t p : due i t p -> (i < t)%nat.
Proof.
unfold due. destruct (uses l i p) as [|j js] eqn:E; [done|].
assert (j ∈ uses l i p) as [_ Hj]%list_elem_of_filter by (rewrite E; by left).
apply elem_of_seq in Hj. lia.
Qed.

Lemma needed_now i D : needed i (S i) D = size (D ∩ touched l (S i)).
Proof.
unfold needed. f_equal. apply set_eq. intros p. rewrite elem_of_filter, elem_of_intersection.
destruct (decide (p ∈ touched l (S i))) as [Hp|Hp].
- split; [tauto|]. intros [? _]. split; [by apply due_touched|done].
- split; [|tauto]. intros [Hd _]. apply due_untouched, due_later in Hd; [lia|done].
Qed.

Lemma size_after i D :
(size (D ∪ touched l (S i)) + needed i (S i) D = size D + size (touched l (S i)))%nat.
Proof.
rewrite needed_now, size_union_alt, size_difference_alt.
rewrite (intersection_comm_L (touched l (S i)) D).
assert (size (D ∩ touched l (S i)) <= size (touched l (S i)))%nat by (apply subseteq_size; set_solver). lia.
Qed.

Lemma needed_after i t D :
(S i <= t)%nat ->
(needed (S i) t (D ∪ touched l (S i)) + needed i (S i) D =
 needed i t D + needed (S i) t (touched l (S i)))%nat.
Proof.
intros Ht. rewrite needed_now. unfold needed. set (A := touched l (S i)).
assert (filter (due (S i) t) (D ∪ A) = filter (due (S i) t) (D ∖ A) ∪ filter (due (S i) t) A) as ->.
{ apply set_eq. intros p. rewrite elem_of_union, !elem_of_filter, elem_of_union, elem_of_difference.
  destruct (decide (p ∈ A)); tauto. }
assert (filter (due i t) D = filter (due (S i) t) (D ∖ A) ∪ (D ∩ A)) as ->.
{ apply set_eq. intros p. rewrite elem_of_union, !elem_of_filter, elem_of_difference, elem_of_intersection.
  destruct (decide (p ∈ A)) as [Hp|Hp]; [|rewrite (due_untouched i t p Hp); tauto].
  pose proof (due_touched i t p Ht Hp). tauto. }
rewrite (size_union (filter _ (D ∖ A)) (filter _ A)), (size_union _ (D ∩ A)) by set_solver. lia.
Qed.

(** MIN with [c] pages written back is ahead of any run with [c']: counting also the
  dirty pages, and after crediting both with the pages needed again soon. *)
Definition ahead (i : nat) (D : gset nat) (c : Z) (D' : gset nat) (c' : Z) : Prop :=
c + Z.of_nat (size D) <= c' + Z.of_nat (size D') /\
(forall t, (i <= t <= n l)%nat ->
   c + Z.of_nat (size D) + Z.of_nat (needed i t D') <= c' + Z.of_nat (size D') + Z.of_nat (needed i t D)).

Lemma ahead_touch i D c D' c' :
ahead i D c D' c' -> ahead (S i) (D ∪ touched l (S i)) c (D' ∪ touched l (S i)) c'.
Proof.
intros [H0 Ht]. pose proof (size_after i D) as HD. pose proof (size_after i D') as HD'. split.
- destruct (decide (S i <= n l)%nat) as [Hi|Hi]; [specialize (Ht (S i) ltac:(lia)); lia|].
  assert (touched l (S i) = ∅) as ->; [|rewrite !(right_id_L ∅ (∪)); lia].
  apply set_eq. intros p. split; [|by intros ?%elem_of_empty].
  intros [_ Ha]%elem_of_touched. apply a_at_range in Ha; [lia|done].
- intros t Hti. specialize (Ht t ltac:(lia)).
  pose proof (needed_after i t D ltac:(lia)). pose proof (needed_after i t D' ltac:(lia)). lia.
Qed.

Lemma needed_mono i t D D' : D' ⊆ D -> (needed i t D' <= needed i t D)%nat.
Proof. intros. apply subseteq_size. set_solver. Qed.

Lemma needed_le i t D : (needed i t D <= size D)%nat.
Proof. apply subseteq_size. set_solver. Qed.

(** If MIN gives up a page that is due by [t], all it keeps is due by [t]. *)
Lemma min_keeps_due i t E D :
(t <= n l)%nat -> D ⊆ E -> min_choice l i E D -> needed i t D = needed i t E \/ needed i t D = size D.
Proof.
intros Ht HDE Hch. unfold needed.
destruct (decide (filter (due i t) (E ∖ D) = ∅)) as [He|He].
- left. f_equal. apply set_eq. intros p. rewrite !elem_of_filter. split; [set_solver|].
  intros [Hd Hp]. split; [done|]. destruct (decide (p ∈ D)); [done|].
  exfalso. apply (not_elem_of_empty (C := gset nat) p). rewrite <- He. set_solver.
- right. f_equal. apply set_choose_L in He as [p [Hdp [Hp Hnp]%elem_of_difference]%elem_of_filter].
  apply set_eq. intros q. rewrite elem_of_filter. split; [tauto|]. intros Hq. split; [|done].
  specialize (Hch p q Hp Hnp Hq). unfold due in *. unfold next_after in Hch.
  pose proof (lo_iters _ Hl) as Hn. unfold no_next_use in Hch. unfold MAX_ITER in Hn.
  destruct (uses l i p), (uses l i q); try done; lia.
Qed.

Lemma ahead_evict i E c E' c' D D' :
ahead i E c E' c' -> D ⊆ E -> D' ⊆ E' -> min_choice l i E D ->
size D = Nat.min (size E) (Z.to_nat T) -> Z.of_nat (size D') <= T ->
ahead i D (c + Z.of_nat (size E) - Z.of_nat (size D)) D' (c' + Z.of_nat (size E') - Z.of_nat (size D')).
Proof.
intros [H0 Ht] HD HD' Hch Hs Hs'. split; [lia|]. intros t Hti. specialize (Ht t Hti).
pose proof (needed_mono i t E' D' HD'). pose proof (needed_le i t D').
destruct (min_keeps_due i t E D) as [Hk|Hk]; [lia|done..|lia|].
destruct (decide (size E <= Z.to_nat T)%nat); [|lia].
assert (D = E) as ->; [|lia]. apply set_subseteq_size_eq; [done|lia].
Qed.

Lemma feasible_bound i D c : feasible i D c -> Z.of_nat (size D) <= T.
Proof. destruct 1; [rewrite size_empty; lia|done]. Qed.

Lemma min_ahead i D rs D' c' :
follows l T (min_choice l) i D rs -> feasible i D' c' ->
ahead i D (total rs) D' c' /\ (size D = Z.to_nat T \/ D' ⊆ D).
Proof.
intros Hf. revert D' c'. induction Hf as [|i D0 D rs r Hf IH Hr Hev Hc]; intros D' c' Hfe.
- inversion Hfe; subst. split; [|by right]. split; [simpl; lia|]. intros t _. simpl. lia.
- inversion Hfe as [|i' D0' D'' c0' Hfe0 Hsub Hsz]; subst.
  destruct (IH _ _ Hfe0) as [Hah Hfull]. destruct (evicts_size _ _ _ _ Hev) as (He & Hs & Hm).
  rewrite total_snoc, He. split.
  + apply ahead_touch in Hah.
    replace (total rs + _) with (total rs + Z.of_nat (size (D0 ∪ touched l (S i))) - Z.of_nat (size D)) by lia.
    by apply ahead_evict.
  + destruct (decide (Z.to_nat T <= size (D0 ∪ touched l (S i)))%nat); [left; lia|right].
    assert (D = D0 ∪ touched l (S i)) as -> by (apply set_subseteq_size_eq; [done|lia]).
    destruct Hfull as [Hfull|Hfull]; [|set_solver].
    assert (size D0 <= size (D0 ∪ touched l (S i)))%nat by (apply subseteq_size; set_solver). lia.
Qed.

Lemma min_optimal iters D' c' :
feasible iters D' c' -> exists s rs, min_run l iters T = inr (s, rs) /\ total rs <= c'.
Proof.
intros Hfe. destruct (min_policy_ok l T Hl HT iters) as (s & rs & D & E & Hf & _).
exists s, rs. split; [done|]. destruct (min_ahead _ _ _ _ _ Hf Hfe) as [[H0 _] Hfull].
apply feasible_bound in Hfe. destruct Hfull as [Hfull|Hsub]; [lia|].
apply subseteq_size in Hsub. lia.
Qed.

(** C1: Belady's rule as [min_policy] implements it is optimal: every way of keeping
  at most [dirty_target] pages dirty writes back at least as many pages over the
  whole log as [min_policy] reports. *)
Theorem min_policy_optimal iters D' c' :
feasible iters D' c' -> exists s rs, min_run l iters T = inr (s, rs) /\ total rs <= c'.
Proof. apply min_optimal. Qed.

(** With a target no log can exceed nothing is written back. *)
Lemma follows_total_zero choice i D rs :
Z.of_nat PAGE_NUM <= T -> follows l T choice i D rs -> total rs = 0 /\ (forall p, p ∈ D -> (p < m l)%nat).
Proof.
intros Hbig. induction 1 as [|i D D' rs r Hf [IH HD] Hr Hev Hc]; [split; [done|by intros p ?%elem_of_empty]|].
assert (forall p, p ∈ D ∪ touched l (S i) -> (p < m l)%nat) as HE.
{ intros p [Hp|Hp]%elem_of_union; [by apply HD|]. by apply elem_of_touched in Hp as [? _]. }
pose proof (size_pages l Hl _ HE). destruct (evicts_size _ _ _ _ Hev) as (He & Hs & Hm). split.
- rewrite total_snoc, IH. lia.
- intros p Hp. by apply HE, Hs.
Qed.
End Optimal.

(** The target is only used as an unsigned number. *)
Lemma for_iters_ext {S} (step step' : nat -> S -> result (S * report)) iters s :
  (forall i s, step i s = step' i s) -> for_iters step iters s = for_iters step' iters s.
Proof. intros E. apply for_each_ext. intros [s' out] i. by rewrite E. Qed.

Lemma over_u64 d T : over d T = over d (u64 T).
Proof. unfold over, wrap_u. by rewrite Zmod_mod. Qed.

Lemma lru_run_u64 l iters T : lru_run l iters T = lru_run l iters (u64 T).
Proof.
  apply for_iters_ext. intros i s. unfold lru_step. destruct (for_each _ _ _) as [|s1]; [done|]. simpl.
  erewrite while_ext; [reflexivity|intros; apply over_u64|done].
Qed.

Lemma min_run_u64 l iters T : min_run l iters T = min_run l iters (u64 T).
Proof.
  apply for_iters_ext. intros i s. unfold min_step. destruct (for_each _ _ _) as [|s1]; [done|]. simpl.
  erewrite while_ext; [reflexivity|intros; apply over_u64|]. intros s2. unfold min_pass.
  erewrite while_ext; [reflexivity| |done]. intros [s3 k]. unfold min_more, wrap_u.
  by rewrite Zminus_mod_idemp_r.
Qed.
