(* ===== verification/PolicyLfu.v ===== *)
(** * The frequency policy

    [poly_policy] (with [exponential] 1, so least frequently written first) follows
    the abstract account for every order of traversal of the hash map and every
    result [std::sort] may give, and what it does with a negative target.  Belady's
    rule is compared with the two others. *)

From Stdlib Require Import Ascii.
From S2P Require Import Prelude CString Policy PolicyFacts PolicyMin.

(** What is relied on of [std::unordered_map]'s iteration and of [std::sort]. *)
Class SortSpec (traverse : dirty -> list (nat * bool)) (sort : (nat -> Z) -> list nat -> list nat) : Prop := {
  traverse_all : forall d, traverse d ≡ₚ map_to_list d;
  sort_perm : forall v ks, sort v ks ≡ₚ ks;
  sort_sorted : forall v ks, StronglySorted (fun x y => v x <= v y) (sort v ks);
}.

Section Lfu.
Context (l : log) (traverse : dirty -> list (nat * bool)) (sort : (nat -> Z) -> list nat -> list nat).
Context `{!SortSpec traverse sort} (Hl : log_ok l).

(** The number of iterations up to [i] in which [p] was written. *)
Fixpoint freq (i p : nat) : Z :=
match i with O => 0 | S i' => freq i' p + a_at l i p end.

Definition lfu_choice (i : nat) (E D' : gset nat) : Prop :=
forall p q, p ∈ E -> p ∉ D' -> q ∈ D' -> freq i p <= freq i q.

Record poly_inv (i : nat) (s : poly) (D : gset nat) : Prop := {
pi_len : length (value s) = PAGE_NUM;
pi_idx : length (index_sort s) = PAGE_NUM;
pi_value : forall p, (p < m l)%nat -> value s !! p = Some (freq i p);
pi_dirty : poly_dirty s = dirty_of D;
pi_pages : forall p, p ∈ D -> (p < m l)%nat;
}.

Lemma poly_touch_all i s D :
poly_inv i s D ->
exists s', for_each (poly_touch l (S i)) s (pages l) = inr s' /\ poly_inv (S i) s' (D ∪ touched l (S i)) /\
  index_sort s' = index_sort s.
Proof.
intros [Hlen Hidx Hv Hd HD].
destruct (for_each_inv (fun pre s' => length (value s') = PAGE_NUM /\ index_sort s' = index_sort s /\
    (forall p, (p < m l)%nat -> value s' !! p = Some (if decide (p ∈ pre) then freq (S i) p else freq i p)) /\
    poly_dirty s' = dirty_of (D ∪ list_to_set (filter (fun idx => a_at l (S i) idx = 1) pre)))
  (poly_touch l (S i)) s (pages l)) as (s' & -> & Hlen' & Hidx' & Hv' & Hd').
- split_and!; [done..| |rewrite Hd; f_equal; set_solver].
  intros p Hp. rewrite decide_False; [by apply Hv|apply not_elem_of_nil].
- intros pre idx post s1 Epre (Hlen1 & Hidx1 & Hv1 & Hd1).
  assert (idx ∉ pre /\ (idx < m l)%nat) as [Hnin Hlt].
  { pose proof (NoDup_seq 0 (m l)) as Hnd. fold (pages l) in Hnd. rewrite Epre in Hnd.
    apply NoDup_app in Hnd as (_ & Hnd & _). split; [intros Hin; apply (Hnd _ Hin); by left|].
    assert (idx ∈ pages l) as Hin by (rewrite Epre; set_solver). apply elem_of_seq in Hin. lia. }
  unfold poly_touch. rewrite Hv1, decide_False by done. simpl. eexists. split; [done|]. simpl.
  split_and!; [by rewrite length_insert|done| |].
  + intros p Hp. destruct (decide (idx = p)) as [<-|Hne].
    * rewrite list_lookup_insert_eq by (pose proof (lo_pages _ Hl); lia).
      rewrite decide_True by set_solver. f_equal. lia.
    * rewrite list_lookup_insert_ne, Hv1 by done. f_equal. apply decide_ext. set_solver.
  + rewrite filter_app, list_to_set_app_L. destruct (Z.eqb_spec (a_at l (S i) idx) 1) as [Ha|Ha].
    * rewrite Hd1, dirty_of_insert, filter_cons_True by done. f_equal. set_solver.
    * rewrite Hd1, filter_cons_False by done. f_equal. set_solver.
- exists s'. split; [done|]. split; [|done]. split; [done|by rewrite Hidx'| |done|].
  + intros p Hp. rewrite Hv', decide_True; [done| |done]. apply elem_of_seq. lia.
  + intros p [Hp|Hp]%elem_of_union; [by apply HD|]. by apply elem_of_touched in Hp as [? _].
Qed.

Lemma poly_keys_ok s D :
poly_dirty s = dirty_of D -> (size D <= PAGE_NUM)%nat ->
exists keys, poly_keys traverse s = inr keys /\ NoDup keys /\ (forall p, p ∈ keys <-> p ∈ D) /\ length keys = size D.
Proof.
intros Hd HD. pose proof (traverse_all (poly_dirty s)) as Htr. unfold poly_keys.
assert ((traverse (poly_dirty s)).*1 ≡ₚ elements D) as Hk.
{ rewrite Htr, Hd. unfold dirty_of. apply NoDup_Permutation; [apply NoDup_fst_map_to_list|apply NoDup_elements|].
  intros p. rewrite elem_of_elements, list_elem_of_fmap. split.
  - intros ([q b] & -> & Hq%elem_of_map_to_list). by apply lookup_gset_to_gmap_Some in Hq as [? _].
  - intros Hp. exists (p, true). split; [done|]. apply elem_of_map_to_list. by apply lookup_gset_to_gmap_Some. }
assert (length (traverse (poly_dirty s)) = size D) as Hlen.
{ rewrite <- (length_fmap fst). by rewrite Hk. }
destruct (for_each_inv (fun pre keys => keys = pre.*1)
  (fun keys kv => _ ← assert kv.2; _ ← defined_if (length keys <? PAGE_NUM)%nat; mret (keys ++ [kv.1]))
  [] (traverse (poly_dirty s))) as (keys & -> & ->).
- done.
- intros pre [p b] post keys Epre ->.
  assert (b = true) as ->.
  { assert ((p, b) ∈ traverse (poly_dirty s)) as Hin by (rewrite Epre; set_solver).
    rewrite Htr, elem_of_map_to_list, Hd in Hin. by apply lookup_gset_to_gmap_Some in Hin as [_ <-]. }
  simpl. rewrite length_fmap. apply (f_equal length) in Epre. rewrite length_app in Epre. simpl in Epre.
  rewrite (proj2 (Nat.ltb_lt _ _)) by lia. simpl. eexists. split; [done|]. by rewrite fmap_app.
- eexists. split; [done|]. split_and!.
  + rewrite Hk. apply NoDup_elements.
  + intros p. by rewrite Hk, elem_of_elements.
  + by rewrite length_fmap.
Qed.

(** [k] evictions from a sorted index remove its first [k] pages. *)
Lemma poly_evict_some s D keys k :
poly_dirty s = dirty_of D -> take (length keys) (index_sort s) = keys -> NoDup keys ->
(forall p, p ∈ keys <-> p ∈ D) -> poly_victims s = [] -> (k <= length keys)%nat ->
for_each poly_evict s (seq 0 k) =
  inr (mk_poly (value s) (index_sort s) (dirty_of (list_to_set (drop k keys))) (take k keys)).
Proof.
intros Hd Hidx Hnd Hin Hvs. induction k as [|k IH]; intros Hk.
- simpl. rewrite drop_0. destruct s; simpl in *; subst. unfold mret, result_ret. do 3 f_equal.
  apply set_eq. intros p. by rewrite elem_of_list_to_set, Hin.
- rewrite seq_S, for_each_app, IH by lia. simpl. unfold poly_evict. simpl.
  destruct (keys !! k) as [p|] eqn:Ep; [|apply lookup_ge_None in Ep; lia].
  assert (index_sort s !! k = Some p) as ->.
  { rewrite <- Hidx in Ep. by apply lookup_take_Some in Ep as [? _]. }
  rewrite (drop_S _ _ _ Ep). simpl. rewrite dirty_of_at by set_solver. simpl.
  rewrite dirty_of_delete, (take_S_r _ _ _ Ep). unfold mret, result_ret. do 3 f_equal.
  rewrite <- (take_drop k keys), (drop_S _ _ _ Ep) in Hnd. apply NoDup_app in Hnd as (_ & _ & [Hp _]%NoDup_cons).
  set_solver.
Qed.

(** The state after the pages of an iteration were counted and sorted. *)
Lemma poly_sort_ok i s D :
poly_inv i s D -> exists keys s' sorted,
  poly_keys traverse s = inr keys /\ sorted = sort (value_of s) keys /\
  s' = mk_poly (value s) (sorted ++ drop (length keys) (index_sort s)) (poly_dirty s) [] /\
  poly_inv i s' D /\ take (length sorted) (index_sort s') = sorted /\
  NoDup sorted /\ (forall p, p ∈ sorted <-> p ∈ D) /\ length sorted = size D /\
  StronglySorted (fun p q => freq i p <= freq i q) sorted.
Proof.
intros [Hlen Hidx Hv Hd HD]. assert (size D <= PAGE_NUM)%nat as Hsz by by eapply size_pages.
destruct (poly_keys_ok s D Hd Hsz) as (keys & Ek & Hnd & Hin & Hlk).
pose proof (sort_perm (value_of s) keys) as Hp.
assert (length (sort (value_of s) keys) = length keys) as Hls by by rewrite Hp.
eexists keys, _, _. split_and!; [done..| | | | | |].
- split; simpl; try done. rewrite length_app, length_drop. lia.
- simpl. by rewrite take_app_length.
- by rewrite Hp.
- intros p. by rewrite Hp.
- lia.
- eapply StronglySorted_ext_in; [|apply (sort_sorted (value_of s) keys)].
  intros x y Hx Hy. rewrite Hp in Hx, Hy. apply Hin, HD, Hv in Hx, Hy. unfold value_of. by rewrite Hx, Hy.
Qed.

Lemma poly_inv_start : poly_inv 0 poly_start ∅.
Proof.
split; [done..| |done|by intros p ?%elem_of_empty].
intros p Hp. change (value poly_start) with (replicate PAGE_NUM 0). apply lookup_replicate_2.
pose proof (lo_pages _ Hl). lia.
Qed.

Section Target.
Context (T : Z) (HT : 0 <= T < 2 ^ 31).

Lemma poly_step_ok i s D :
poly_inv i s D -> exists s' r D',
poly_step l traverse sort T (S i) s = inr (s', r) /\ poly_inv (S i) s' D' /\ iter r = S i /\
evicts T (touched l (S i)) D D' r /\ lfu_choice (S i) (D ∪ touched l (S i)) D'.
Proof.
intros Hinv. destruct (poly_touch_all i s D Hinv) as (s1 & E1 & Hinv1 & _).
set (E := D ∪ touched l (S i)) in *.
destruct (poly_sort_ok _ _ _ Hinv1) as (keys & s2 & sorted & Ek & Es & E2 & Hinv2 & Hpre & Hnd & Hin & Hls & Hord).
assert (size E <= PAGE_NUM)%nat as Hsz by (eapply size_pages; [done|apply Hinv1]).
assert (Z.of_nat PAGE_NUM < 2 ^ 31) as Hpn by reflexivity.
set (k := Z.to_nat (Z.max 0 (Z.of_nat (size E) - T))).
assert (let e := i32 (Z.of_nat (size (poly_dirty s1)) - T) in (if e <? 0 then 0 else e) = Z.of_nat k) as Hk.
{ rewrite (pi_dirty _ _ _ Hinv1), dirty_of_size. simpl. rewrite wrap_s_id; [|lia|unfold in_s; lia].
destruct (Z.ltb_spec (Z.of_nat (size E) - T) 0); lia. }
pose proof (poly_evict_some s2 E sorted k (pi_dirty _ _ _ Hinv2) Hpre Hnd Hin) as Hev.
rewrite E2 in Hev at 1. specialize (Hev eq_refl ltac:(lia)).
eexists _, _, (list_to_set (drop k sorted)). unfold poly_step. rewrite E1. cbn. rewrite Ek. cbn.
rewrite <- Es, <- E2. cbn in Hk. rewrite Hk, Nat2Z.id, Hev. cbn. split; [done|].
rewrite <- (take_drop k sorted) in Hnd. apply NoDup_app in Hnd as (Hnd & Hdis & Hnd').
assert (length (take k sorted) = k) as Hlk by (rewrite length_take; lia).
split_and!; [|done| |].
- destruct Hinv2 as [Hlen2 Hidx2 Hv2 Hd2 HD2]. split; simpl; try done.
intros p Hp%elem_of_list_to_set%subseteq_drop. by apply HD2, Hin.
- split; simpl; fold E.
+ by rewrite (pi_dirty _ _ _ Hinv1), dirty_of_size.
+ apply set_eq. intros p. rewrite elem_of_union, !elem_of_list_to_set, <- Hin.
  rewrite <- (take_drop k sorted) at 3. rewrite elem_of_app. tauto.
+ intros p. rewrite !elem_of_list_to_set. intros Hp Hq. by apply (Hdis p).
+ done.
+ by rewrite dirty_of_size.
+ by rewrite Hlk.
+ lia.
- intros p q Hp Hnp Hq. apply Hin in Hp. rewrite elem_of_list_to_set in Hnp, Hq.
rewrite <- (take_drop k sorted), elem_of_app in Hp. destruct Hp as [Hp|]; [|done].
rewrite <- (take_drop k sorted) in Hord. by apply (StronglySorted_app_1_elem_of _ _ _ _ _ Hord).
Qed.

Lemma lfu_policy_ok iters :
exists s rs D, poly_run l traverse sort iters T = inr (s, rs) /\ follows l T lfu_choice iters D rs /\
poly_dirty s = dirty_of D /\ length rs = iters.
Proof.
destruct (for_iters_follows l T poly_inv lfu_choice (poly_step l traverse sort T) poly_start iters)
as (s & rs & D & E & Hinv & Hf & Hlen).
- apply poly_inv_start.
- apply poly_step_ok.
- exists s, rs, D. split_and!; [done..|apply Hinv|done].
Qed.

(** C6: with a target of at least 0, [poly_policy] returns for every log, every order
in which the hash map may be traversed and every result [std::sort] may give;
each iteration evicts exactly the excess, and what it evicts was written in no
more iterations than what it keeps. *)
Theorem poly_policy_correct iters :
exists s rs D, poly_run l traverse sort iters T = inr (s, rs) /\ follows l T lfu_choice iters D rs /\
poly_dirty s = dirty_of D /\ length rs = iters.
Proof. apply lfu_policy_ok. Qed.

(** Over any log and for any target of at least 0, [min_policy] reports no more
pages written back in total than [lru_policy] and than [poly_policy]. *)
Lemma min_never_worse iters :
exists s1 s2 s3 r_min r_lru r_lfu,
min_run l iters T = inr (s1, r_min) /\ lru_run l iters T = inr (s2, r_lru) /\
poly_run l traverse sort iters T = inr (s3, r_lfu) /\
total r_min <= total r_lru /\ total r_min <= total r_lfu /\
length r_lfu = iters /\ length r_lru = iters.
Proof.
assert (0 <= T < 2 ^ 64) as HT' by lia.
destruct (lru_policy_ok l T Hl HT' iters) as (s2 & r2 & D2 & E2 & H2 & _ & L2).
destruct (lfu_policy_ok iters) as (s3 & r3 & D3 & E3 & H3 & _ & L3).
apply (follows_feasible l T Hl HT') in H2, H3.
destruct (min_optimal l T Hl HT' iters D2 _ H2) as (s1 & r1 & E1 & Hle2).
destruct (min_optimal l T Hl HT' iters D3 _ H3) as (s1' & r1' & E1' & Hle3).
rewrite E1 in E1'. injection E1' as <- <-. by exists s1, s2, s3, r1, r2, r3.
Qed.
End Target.

(** The first iteration with a negative target runs past the sorted pages. *)
Lemma poly_step_negative T :
- 2 ^ 30 <= T < 0 -> (m l < PAGE_NUM)%nat -> poly_step l traverse sort T 1 poly_start = inl AssertFails.
Proof.
intros HT Hm. destruct (poly_touch_all 0 poly_start ∅) as (s1 & E1 & Hinv1 & Hidx1); [apply poly_inv_start|].
set (E := ∅ ∪ touched l 1) in *.
destruct (poly_sort_ok _ _ _ Hinv1) as (keys & s2 & sorted & Ek & Es & E2 & Hinv2 & Hpre & Hnd & Hin & Hls & _).
assert (size E <= m l)%nat as Hsz.
{ rewrite <- (size_set_seq (C := gset nat) 0 (m l)). apply subseteq_size. intros p Hp.
  apply elem_of_set_seq. apply Hinv1 in Hp. lia. }
assert (Z.of_nat PAGE_NUM < 2 ^ 30) as Hpn by reflexivity.
set (k := Z.to_nat (- T - 1)).
assert (let e := i32 (Z.of_nat (size (poly_dirty s1)) - T) in
        Z.to_nat (if e <? 0 then 0 else e) = (size E + S k)%nat) as Hk.
{ rewrite (pi_dirty _ _ _ Hinv1), dirty_of_size. simpl. rewrite wrap_s_id; [|lia|unfold in_s; lia].
  destruct (Z.ltb_spec (Z.of_nat (size E) - T) 0); lia. }
pose proof (poly_evict_some s2 E sorted (size E) (pi_dirty _ _ _ Hinv2) Hpre Hnd Hin) as Hev.
rewrite E2 in Hev at 1. specialize (Hev eq_refl ltac:(lia)).
unfold poly_step. rewrite E1. cbn. rewrite Ek. cbn. rewrite <- Es, <- E2. cbn in Hk. rewrite Hk.
rewrite seq_app, for_each_app, Hev. cbn. unfold poly_evict. cbn.
assert (index_sort s2 !! size E = Some O) as ->.
{ rewrite E2, Hidx1. cbn. rewrite lookup_app_r by lia.
  assert (length keys = length sorted) as -> by (rewrite Es; by rewrite sort_perm).
  rewrite Hls, Nat.sub_diag, lookup_drop, Nat.add_0_r. apply lookup_replicate_2. lia. }
cbn. rewrite <- Hls, drop_all. done.
Qed.

(** With a negative target the policies disagree: LRU and MIN compare it as an
  unsigned number and never evict, while [poly_policy] evicts every page of the
  first iteration and then fails its assertion on an entry left over in
  [index_sort]. *)
Theorem negative_target iters T :
- 2 ^ 30 <= T < 0 -> (m l < PAGE_NUM)%nat ->
poly_run l traverse sort (S iters) T = inl AssertFails /\
(exists s rs, lru_run l (S iters) T = inr (s, rs) /\ total rs = 0) /\
(exists s rs, min_run l (S iters) T = inr (s, rs) /\ total rs = 0).
Proof.
intros HT Hm. pose proof (wrap_u_range 64 T ltac:(lia)) as Hu. unfold in_u in Hu.
assert (Z.of_nat PAGE_NUM <= u64 T) as Hbig.
{ unfold wrap_u. rewrite <- (Z_mod_plus_full T 1), Z.mod_small by lia.
  assert (Z.of_nat PAGE_NUM < 2 ^ 30) by reflexivity. lia. }
split_and!.
- unfold poly_run, for_iters. cbn [seq for_each]. by rewrite poly_step_negative.
- rewrite lru_run_u64. destruct (lru_policy_ok l _ Hl Hu (S iters)) as (s & rs & D & E & Hf & _).
  exists s, rs. split; [done|]. by eapply follows_total_zero.
- rewrite min_run_u64. destruct (min_policy_ok l _ Hl Hu (S iters)) as (s & rs & D & E & Hf & _).
  exists s, rs. split; [done|]. by eapply follows_total_zero.
Qed.
End Lfu.
