(* ===== verification/PolicyLog.v ===== *)
(** * Logs read from files

    What [parse_input] establishes, that it reads back what was logged with CRLF
    line ends, what it does with LF line ends, and the simulator's [main] as a
    whole. *)

From Stdlib Require Import Ascii.
From S2P Require Import Prelude CString Policy PolicyFacts PolicyMin PolicyLfu.

Definition CR : ascii := "013"%char.
Definition bit_char (x : Z) : ascii := if x =? 1 then "1"%char else "0"%char.

(** A log as a file, each line ended by [eol]. *)
Definition render_log (eol : bytes) (l : log) : bytes := mjoin ((fun row => (bit_char <$> row) ++ eol) <$> a l).

Lemma getlines_line line rest acc :
  no_char NL line -> getlines (line ++ NL :: rest) acc = reverse (reverse line ++ acc) :: getlines rest [].
Proof.
  intros H. revert acc. induction H as [|c line Hc _ IH]; intros acc; simpl.
  - done.
  - rewrite decide_False by done. rewrite IH, (reverse_cons line c). by rewrite <- app_assoc.
Qed.

Lemma getlines_lines (ls : list bytes) :
  Forall (no_char NL) ls -> getlines (mjoin ((fun x => x ++ [NL]) <$> ls)) [] = ls.
Proof.
  induction 1 as [|x ls Hx _ IH]; [done|]. csimpl. rewrite <- app_assoc. simpl.
  rewrite getlines_line, app_nil_r, reverse_involutive by done. by rewrite IH.
Qed.

(** What one more line of bits does. *)
Lemma parse_line_bits l raw :
  binary_pattern (drop_last raw) = true ->
  (m l = O \/ m l = length (drop_last raw)) -> (S (n l) < MAX_ITER)%nat -> (length (drop_last raw) <= PAGE_NUM)%nat ->
  parse_line l raw =
    inr (mk_log (length (drop_last raw)) (a l ++ [(fun c => byte_val c - byte_val "0"%char) <$> drop_last raw])).
Proof.
  intros Hb Hm Hn Hp. unfold parse_line. rewrite Hb.
  assert ((if (m l =? 0)%nat then length (drop_last raw) else m l) = length (drop_last raw)) as ->.
  { destruct (Nat.eqb_spec (m l) 0); lia. }
  rewrite Nat.eqb_refl. simpl. by rewrite (proj2 (Nat.ltb_lt _ _)), (proj2 (Nat.leb_le _ _)).
Qed.

Lemma bits_are_bits line :
  forallb is_bit line = true ->
  Forall (fun x => x = 0 \/ x = 1) ((fun c => byte_val c - byte_val "0"%char) <$> line).
Proof.
  rewrite forallb_forall. intros Hb. apply Forall_fmap, Forall_forall. intros c Hc%list_elem_of_In%Hb.
  unfold is_bit in Hc. to_prop. destruct Hc as [-> | ->]; [by left|by right].
Qed.

Lemma parse_line_ok l raw l' : log_ok l -> parse_line l raw = inr l' -> log_ok l'.
Proof.
  intros [Hn Hm Hw Hr]. unfold parse_line. destruct (binary_pattern (drop_last raw)) eqn:Hb; [|by intros [= <-]].
  set (line := drop_last raw) in *. set (m' := if (m l =? 0)%nat then length line else m l).
  destruct (m' =? length line)%nat eqn:E1; [|done]. simpl.
  destruct ((S (n l) <? MAX_ITER)%nat && (m' <=? PAGE_NUM)%nat) eqn:E2; [|done]. simpl.
  intros [= <-]. unfold binary_pattern in Hb. to_prop. split; simpl; [|done| |].
  - unfold n in *. simpl. rewrite length_app. simpl. lia.
  - intros E0. destruct line; [done|]. simpl in *. lia.
  - apply Forall_app. split.
    + unfold m' in *. destruct (Nat.eqb_spec (m l) 0) as [E0|]; [|done]. by rewrite (Hw E0).
    + apply Forall_singleton. split; [by rewrite length_fmap|by apply bits_are_bits].
Qed.

Lemma parse_lines_ok ls l l' : log_ok l -> for_each parse_line l ls = inr l' -> log_ok l'.
Proof.
  revert l; induction ls as [|raw ls IH]; intros l Hl; simpl; [by intros [= <-]|].
  destruct (parse_line l raw) as [|l1] eqn:E; [done|]. apply IH. by eapply parse_line_ok.
Qed.

Lemma empty_log_ok : log_ok (mk_log 0 []).
Proof. split; [apply Nat.ltb_lt; reflexivity|simpl; lia|done|constructor]. Qed.

Lemma parse_input_ok file l : parse_input file = inr l -> log_ok l.
Proof. destruct file; [|done]. apply parse_lines_ok, empty_log_ok. Qed.

(** Reading lines whose bits are [rows], given what [drop_last] leaves of them. *)
Lemma parse_rows w (rows : list (list Z)) (raws : list bytes) l0 :
  (0 < w <= PAGE_NUM)%nat -> Forall (fun row => length row = w /\ Forall (fun x => x = 0 \/ x = 1) row) rows ->
  drop_last <$> raws = (fun row => bit_char <$> row) <$> rows ->
  (m l0 = O \/ m l0 = w) -> (n l0 + length rows < MAX_ITER)%nat ->
  for_each parse_line l0 raws = inr (mk_log (if decide (rows = []) then m l0 else w) (a l0 ++ rows)).
Proof.
  intros Hw Hrows. revert raws l0. induction Hrows as [|row rows [Hlen Hbits] _ IH]; intros raws l0 Er Hm Hn.
  - destruct raws; [|done]. rewrite app_nil_r. by destruct l0.
  - destruct raws as [|raw raws]; [done|]. csimpl in *. injection Er as E1 E2.
    assert (length (drop_last raw) = w) as Hl by (rewrite E1, length_fmap; done).
    rewrite parse_line_bits; [| |lia|lia|lia].
    + simpl. rewrite IH; [|done|by right|unfold n in *; simpl in *; rewrite length_app; simpl; lia]. simpl.
      f_equal. f_equal; [by destruct (decide (rows = []))|]. rewrite <- app_assoc. f_equal. simpl. f_equal.
      rewrite E1, <- list_fmap_compose. rewrite <- (list_fmap_id row) at 2. apply list_fmap_ext.
      intros i x Hx. simpl. rewrite Forall_forall in Hbits.
      destruct (Hbits x) as [-> | ->]; [by eapply list_elem_of_lookup_2|done..].
    + unfold binary_pattern. apply andb_true_iff. split.
      * apply negb_true_iff, bool_decide_eq_false. intros E. rewrite E in Hl. simpl in Hl. lia.
      * apply forallb_forall. intros c Hc%list_elem_of_In. rewrite E1 in Hc.
        apply list_elem_of_fmap in Hc as (x & -> & _). unfold is_bit, bit_char. by destruct (x =? 1).
Qed.

Lemma render_raws eol (rows : list (list Z)) :
  mjoin ((fun row => (bit_char <$> row) ++ eol ++ [NL]) <$> rows) =
  mjoin ((fun x => x ++ [NL]) <$> ((fun row => (bit_char <$> row) ++ eol) <$> rows)).
Proof. rewrite <- list_fmap_compose. f_equal. apply list_fmap_ext. intros. simpl. by rewrite app_assoc. Qed.

Lemma no_nl_bits eol (rows : list (list Z)) :
  no_char NL eol -> Forall (no_char NL) ((fun row => (bit_char <$> row) ++ eol) <$> rows).
Proof.
  intros He. apply Forall_fmap, Forall_true. intros row. apply Forall_app. split; [|done].
  apply Forall_fmap, Forall_true. intros x. unfold bit_char. simpl. by destruct (x =? 1).
Qed.

Lemma drop_last_snoc s c : drop_last (s ++ [c]) = s.
Proof. unfold drop_last. rewrite length_app. simpl. by rewrite Nat.add_sub, take_app_length. Qed.

(** C35: a log of any size the simulator has room for, written with CRLF line ends, is
    read back exactly. *)
Theorem parse_input_roundtrip l :
  log_ok l -> a l <> [] -> parse_input (Some (render_log [CR; NL] l)) = inr l.
Proof.
  intros [Hn Hm Hw Hr] Ha. unfold parse_input, render_log. change [CR; NL] with ([CR] ++ [NL]).
  rewrite render_raws, getlines_lines by (apply no_nl_bits; by repeat constructor).
  rewrite (parse_rows (m l) (a l)); [| |done| |by left|done].
  - rewrite decide_False by done. by destruct l.
  - split; [|done]. destruct (decide (m l = O)) as [E|]; [by apply Hw in E|lia].
  - rewrite <- list_fmap_compose. apply list_fmap_ext. intros. simpl. apply drop_last_snoc.
Qed.

(** [parse_input] drops the last character of every line, whatever it is: of a
    log written with plain newlines, as generate_random_lines.py writes them, every
    row silently loses its last page. *)
Theorem parse_input_lf_loses_page l :
  log_ok l -> a l <> [] -> (2 <= m l)%nat ->
  parse_input (Some (render_log [NL] l)) = inr (mk_log (m l - 1) (take (m l - 1) <$> a l)).
Proof.
  intros [Hn Hm Hw Hr] Ha Hm2. unfold parse_input, render_log. change [NL] with ([] ++ [NL]).
  rewrite render_raws, getlines_lines by (apply no_nl_bits; constructor).
  rewrite (parse_rows (m l - 1) (take (m l - 1) <$> a l)); [|lia| | |by left|by rewrite length_fmap].
  - rewrite decide_False; [done|]. by intros ?%fmap_nil_inv.
  - apply Forall_fmap. eapply Forall_impl; [exact Hr|]. intros row [Hlen Hb]. simpl.
    rewrite length_take, Hlen. split; [lia|by apply Forall_take].
  - rewrite <- !list_fmap_compose. apply list_fmap_ext. intros i row Hi. simpl.
    rewrite app_nil_r. unfold drop_last. rewrite length_fmap, fmap_take.
    rewrite Forall_forall in Hr. by destruct (Hr row) as [-> _]; [by eapply list_elem_of_lookup_2|].
Qed.

Section Main.
Context (traverse : dirty -> list (nat * bool)) (sort : (nat -> Z) -> list nat -> list nat).
Context `{!SortSpec traverse sort} (files : bytes -> option bytes).

(** C8: started on a readable log with a target of at least 0, the simulator runs the
  three policies over all iterations and prints their reports in the order LFU, LRU,
  MIN: each report is one line per iteration with exactly the evictions that the rule
  of its own policy allows, and MIN's total of written back pages is no larger than
  LFU's and LRU's. *)
Theorem policy_main_prints prog filename size l T :
parse_input (files filename) = inr l -> stoi size = Some T -> 0 <= T ->
exists lfu lru min, main_of_policy traverse sort files [prog; filename; size] = PolicyPrints (n l) (m l) lfu lru min /\
  (exists D, follows l T (lfu_choice l) (n l) D lfu) /\ (exists D, follows l T (lru_choice l) (n l) D lru) /\
  (exists D, follows l T (min_choice l) (n l) D min) /\
  length lfu = n l /\ length lru = n l /\ length min = n l /\ total min <= total lru /\ total min <= total lfu.
Proof.
intros Hp Hs HT. assert (T < 2 ^ 31) as HT2.
{ unfold stoi in Hs. case_match eqn:E; [|done]. injection Hs as <-. to_prop. unfold in_s in *. lia. }
pose proof (parse_input_ok _ _ Hp) as Hl.
destruct (min_never_worse l traverse sort Hl T ltac:(lia) (n l)) as (s1 & s2 & s3 & r1 & r2 & r3 & E1 & E2 & E3 & H1 & H2 & _).
destruct (lfu_policy_ok l traverse sort Hl T ltac:(lia) (n l)) as (s3' & r3' & D3 & E3' & F3 & _ & L3).
destruct (lru_policy_ok l T Hl ltac:(lia) (n l)) as (s2' & r2' & D2 & E2' & F2 & _ & L2).
destruct (min_policy_ok l T Hl ltac:(lia) (n l)) as (s1' & r1' & D1 & E1' & F1 & _ & L1).
rewrite E1 in E1'. rewrite E2 in E2'. rewrite E3 in E3'. injection E1' as <- <-. injection E2' as <- <-. injection E3' as <- <-.
exists r3, r2, r1. split_and!; [|by exists D3|by exists D2|by exists D1|done..].
unfold main_of_policy, policy_main. rewrite Hs, Hp. simpl. unfold run_policies.
by rewrite E3, E2, E1.
Qed.
End Main.

(** ** A small log through the simulator

    A log of five iterations over six pages, the reports of the three policies on
    it, and a library sort that meets [SortSpec]: the hypotheses of the policy
    theorems hold of them. *)

Definition sample : log :=
  mk_log 6 [[1; 1; 0; 0; 1; 0]; [0; 0; 1; 1; 1; 0]; [0; 0; 0; 0; 0; 1]; [1; 1; 1; 0; 0; 0]; [1; 1; 0; 0; 1; 1]].

Definition by_value (v : nat -> Z) (x y : nat) : Prop := v x <= v y.
#[export] Instance by_value_dec v x y : Decision (by_value v x y).
Proof. unfold by_value. apply _. Defined.
#[export] Instance by_value_total v : Total (by_value v).
Proof. intros x y. unfold by_value. lia. Qed.
#[export] Instance by_value_trans v : Transitive (by_value v).
Proof. intros x y z. unfold by_value. lia. Qed.

Definition sort_by (v : nat -> Z) (ks : list nat) : list nat := merge_sort (by_value v) ks.

#[export] Instance sort_by_spec : SortSpec map_to_list sort_by.
Proof.
  split; [done| |].
  - intros v ks. apply merge_sort_Permutation.
  - intros v ks. apply (StronglySorted_merge_sort (by_value v)).
Qed.

Lemma sample_ok : log_ok sample.
Proof.
  split; [apply Nat.ltb_lt; reflexivity|apply Nat.leb_le; reflexivity|done|].
  repeat (apply Forall_cons; split; [split; [done|by_decide]|]). constructor.
Qed.

Definition evictions {S} (r : result (S * list report)) : option (list (list nat)) :=
  match r with inr (_, rs) => Some (evicted <$> rs) | inl _ => None end.

(** The three policies with room for three dirty pages. *)
Example sample_policies :
  evictions (lru_run sample 5 3) = Some [[]; [0; 1]; [2]; [3; 4; 5]; [2; 0]]%nat /\
  evictions (min_run sample 5 3) = Some [[]; [3; 4]; [5]; []; [0; 1]]%nat /\
  (length <$> (evictions (poly_run sample map_to_list sort_by 5 3) ≫= last)) = Some 2%nat.
Proof. split_and!; vm_compute; reflexivity. Qed.

Lemma target_3 : 0 <= 3 < 2 ^ 64.
Proof. done. Qed.

Lemma lru_policy_correct_witness :
  exists s rs D, lru_run sample 5 3 = inr (s, rs) /\ follows sample 3 (lru_choice sample) 5 D rs /\
    lru_dirty s = dirty_of D /\ length rs = 5%nat.
Proof. exact (lru_policy_correct sample 3 sample_ok target_3 5). Defined.

Lemma min_policy_correct_witness :
  exists s rs D, min_run sample 5 3 = inr (s, rs) /\ follows sample 3 (min_choice sample) 5 D rs /\
    min_dirty s = dirty_of D /\ length rs = 5%nat.
Proof. exact (min_policy_correct sample 3 sample_ok target_3 5). Defined.

(** Writing back everything after the first iteration costs three pages. *)
Lemma sample_feasible : feasible sample 3 1 ∅ 3.
Proof.
  change 3 with (0 + Z.of_nat (size (∅ ∪ touched sample 1)) - Z.of_nat (size (∅ : gset nat))) at 2.
  constructor; [constructor|set_solver|done].
Qed.

Lemma min_policy_optimal_witness : exists s rs, min_run sample 1 3 = inr (s, rs) /\ total rs <= 3.
Proof. exact (min_policy_optimal sample 3 sample_ok target_3 1 ∅ 3 sample_feasible). Defined.

Lemma poly_policy_correct_witness :
  exists s rs D, poly_run sample map_to_list sort_by 5 3 = inr (s, rs) /\
    follows sample 3 (lfu_choice sample) 5 D rs /\ poly_dirty s = dirty_of D /\ length rs = 5%nat.
Proof.
  refine (poly_policy_correct sample map_to_list sort_by sample_ok 3 _ 5). done.
Defined.

Lemma negative_target_witness : poly_run sample map_to_list sort_by 1 (-1) = inl AssertFails.
Proof.
  refine (proj1 (negative_target sample map_to_list sort_by sample_ok 0 (-1) _ _)); [done|].
  apply Nat.ltb_lt. reflexivity.
Defined.

Lemma parse_input_roundtrip_witness : parse_input (Some (render_log [CR; NL] sample)) = inr sample.
Proof. apply (parse_input_roundtrip sample sample_ok). done. Defined.

Lemma parse_input_lf_loses_page_witness :
  parse_input (Some (render_log [NL] sample)) = inr (mk_log 5 (take 5 <$> a sample)).
Proof. apply (parse_input_lf_loses_page sample sample_ok); [done|simpl; lia]. Defined.

Lemma policy_main_prints_witness :
  exists lfu lru min,
    main_of_policy map_to_list sort_by (fun _ => Some (render_log [CR; NL] sample))
      [lit "policy"; lit "log.txt"; lit "3"] = PolicyPrints 5 6 lfu lru min /\
    (exists D, follows sample 3 (lfu_choice sample) 5 D lfu) /\ (exists D, follows sample 3 (lru_choice sample) 5 D lru) /\
    (exists D, follows sample 3 (min_choice sample) 5 D min) /\
    length lfu = 5%nat /\ length lru = 5%nat /\ length min = 5%nat /\ total min <= total lru /\ total min <= total lfu.
Proof.
  refine (policy_main_prints map_to_list sort_by (fun _ => Some (render_log [CR; NL] sample))
    (lit "policy") (lit "log.txt") (lit "3") sample 3 _ _ _); [vm_compute; reflexivity..|done].
Defined.
