(* ===== verification/RandomWrite.v ===== *)
(** * The random write workload

    [apps/random-write/mem_access.c]: threads that flip one bit of random bytes of a
    large region, and [alloc.c], which touches every page of an allocation.  The
    threads' read-modify-write is two steps, so that they interleave as the
    compiled code does; [rand()] is any value between 0 and [RAND_MAX]. *)

From Stdlib Require Import Ascii.
From S2P Require Import Prelude CString.

Definition GB : Z := 1024 * 1024 * 1024.
Definition RAND_MAX : Z := 2 ^ 31 - 1.

(** [(upper << 32) | lower] *)
Definition rand_u64 (upper lower : Z) : Z := Z.lor (u64 (Z.shiftl (u64 upper) 32)) (u64 lower).

(** [tv_sec * 1000000ULL + tv_nsec / 1000] *)
Definition time_now_us (tv_sec tv_nsec : Z) : Z := u64 (u64 (u64 tv_sec * 1000000) + u64 (tv_nsec / 1000)).

(** [est_cycles_per_sec]: the difference of two readings of the counter. *)
Definition est_cycles_per_sec (start stop : Z) : Z := u64 (stop - start).

(** ** [mem_access] *)

(** A thread between two accesses, or between the load and the store of [^= 1]. *)
Inductive thread := Drawing | Loaded (offset byte : Z).

Record region := mk_region { memory : Z -> Z; threads : list thread }.

Inductive access_label :=
| ALoad (t : nat) (r1 r2 : Z)  (** thread [t] draws two numbers and loads *)
| AStore (t : nat).            (** thread [t] stores *)

Section Access.
Context (size : Z).

Definition random_offset (r1 r2 : Z) : Z := rand_u64 r1 r2 mod size.

Definition access_step (g : region) (lb : access_label) : option region :=
match lb with
| ALoad t r1 r2 =>
    if (0 <=? r1) && (r1 <=? RAND_MAX) && (0 <=? r2) && (r2 <=? RAND_MAX) then
      match threads g !! t with
      | Some Drawing =>
          let off := random_offset r1 r2 in
          Some (mk_region (memory g) (<[t := Loaded off (memory g off)]> (threads g)))
      | _ => None
      end
    else None
| AStore t =>
    match threads g !! t with
    | Some (Loaded off b) =>
        Some (mk_region (<[off := u8 (Z.lxor b 1)]> (memory g)) (<[t := Drawing]> (threads g)))
    | _ => None
    end
end.

Fixpoint access_run (g : region) (ls : list access_label) : option region :=
match ls with
| [] => Some g
| lb :: ls' => access_step g lb ≫= fun g' => access_run g' ls'
end.
End Access.

Definition start_region (mem : Z -> Z) (num_threads : nat) : region := mk_region mem (replicate num_threads Drawing).

(** ** [main] of mem_access.c *)

Definition to_size_t (z : Z) : Z := u64 z.

Inductive access_outcome :=
| AccessFails                       (** usage or argument error *)
| AccessRuns (cxl : bool) (size : Z) (num_threads interval non_hot : Z).

Definition access_main (argv : list bytes) : access_outcome :=
  match argv with
  | [_; a1; a2; a3; a4; a5] =>
      let N := to_size_t (atoi a1) in
      if N =? 0 then AccessFails else
      let K := to_size_t (atoi a2) in
      let secs := to_size_t (atoi a3) in
      if secs =? 0 then AccessFails else
      let NT := to_size_t (atoi a4) in
      if NT =? 0 then AccessFails else
      let only_use_cxl := atoi a5 in
      AccessRuns (negb (only_use_cxl =? 0)) (u64 (N * GB)) NT secs K
  | _ => AccessFails
  end.

(** ** alloc.c *)

(** [GB(atol(argv[1]))] *)
Definition alloc_size (arg : bytes) : Z := u64 (Z.shiftl (u64 (strtol10 arg)) 30).

(** [for (i = 0; i < size; i += pagesize) buffer[i] = 1;] *)
Definition touch_pages (size pagesize : Z) (fuel : nat) (buffer : Z -> Z) : result ((Z -> Z) * Z) :=
  while fuel (fun s => s.2 <? size)
    (fun s => mret (<[s.2 := 1]> s.1, u64 (s.2 + pagesize))) (buffer, 0).

(** ** Facts *)

Lemma mod_bit31 z k : 32 <= k -> Z.testbit (z mod 2 ^ k) 31 = Z.testbit z 31.
Proof. intros. rewrite <- Z.land_ones, Z.land_spec, Z.ones_spec_low by lia. by rewrite andb_true_r. Qed.

(** [rand] yields 31 bits, so bit 31 of the two numbers put together is never set. *)
Lemma rand_u64_bit31 r1 r2 :
  0 <= r1 <= RAND_MAX -> 0 <= r2 <= RAND_MAX -> Z.testbit (rand_u64 r1 r2) 31 = false.
Proof.
  unfold RAND_MAX, rand_u64. intros H1 H2. rewrite !(wrap_u_id 64 r1), (wrap_u_id 64 r2) by (unfold in_u; lia).
  rewrite wrap_u_id by (unfold in_u; rewrite Z.shiftl_mul_pow2; lia).
  rewrite Z.lor_spec, Z.shiftl_spec, (Z.testbit_neg_r _ (31 - 32)) by lia. rewrite orb_false_l.
  apply Z.bits_above_log2; [lia|]. destruct (decide (r2 = 0)) as [->|]; [done|].
  apply Z.log2_lt_pow2; lia.
Qed.

(** Every byte the threads may touch satisfies [P]. *)
Section Touch.
Context (size : Z) (P : Z -> Prop) (mem0 : Z -> Z).
Context (HP : forall r1 r2, 0 <= r1 <= RAND_MAX -> 0 <= r2 <= RAND_MAX -> P (random_offset size r1 r2)).
Context (Hbytes : forall p, in_u 8 (mem0 p)).

(** A byte differs from the original in bit 0 at most, and only where [P] holds. *)
Definition flipped (p b : Z) : Prop := b = mem0 p \/ (P p /\ b = Z.lxor (mem0 p) 1).

Definition region_inv (g : region) : Prop :=
(forall p, flipped p (memory g p)) /\
Forall (fun t => match t with Drawing => True | Loaded off b => P off /\ flipped off b end) (threads g).

Lemma flip_again p b : P p -> flipped p b -> flipped p (u8 (Z.lxor b 1)).
Proof.
intros Hp Hb. unfold flipped in *. pose proof (Hbytes p) as Hm.
assert (in_u 8 (Z.lxor (mem0 p) 1)) as Hx.
{ unfold in_u in *. split; [apply Z.lxor_nonneg; lia|].
  destruct (decide (Z.lxor (mem0 p) 1 = 0)) as [->|Hne]; [lia|].
  assert (0 <= Z.lxor (mem0 p) 1) by (apply Z.lxor_nonneg; lia).
  apply Z.log2_lt_pow2; [lia|]. eapply Z.le_lt_trans; [apply Z.log2_lxor; lia|].
  apply Z.max_lub_lt; [|simpl; lia]. destruct (decide (mem0 p = 0)) as [->|]; [simpl; lia|].
  apply Z.log2_lt_pow2; lia. }
destruct Hb as [->|[_ ->]].
- right. split; [done|]. by apply wrap_u_id.
- left. rewrite Z.lxor_assoc, Z.lxor_nilpotent, Z.lxor_0_r. by apply wrap_u_id.
Qed.

Lemma access_step_inv g lb g' : region_inv g -> access_step size g lb = Some g' -> region_inv g'.
Proof.
intros [Hm Ht]. destruct lb as [t r1 r2|t]; simpl.
- case_match eqn:E; [|done]. case_match eqn:Et; [|done]. case_match; [|done]. intros [= <-]. to_prop.
  split; [done|]. simpl. apply Forall_insert; [done|]. split; [by apply HP|apply Hm].
- case_match eqn:Et; [|done]. case_match; [done|]. intros [= <-].
  rewrite Forall_forall in Ht. pose proof (Ht _ (list_elem_of_lookup_2 _ _ _ Et)) as [HPo Hb]. split; simpl.
  + intros p. destruct (decide (offset = p)) as [<-|]; [rewrite fn_lookup_insert; by apply flip_again|].
    by rewrite fn_lookup_insert_ne.
  + apply Forall_insert; [by apply Forall_forall|done].
Qed.

Lemma access_run_inv g ls g' : region_inv g -> access_run size g ls = Some g' -> region_inv g'.
Proof.
revert g; induction ls as [|lb ls IH]; intros g Hg; simpl; [by intros [= <-]|].
intros (g1 & E & H)%bind_Some. eapply IH; [|exact H]. by eapply access_step_inv.
Qed.

Lemma start_inv k : region_inv (start_region mem0 k).
Proof. split; [intros p; by left|]. apply Forall_replicate. done. Qed.
End Touch.

(** C40: however the threads interleave, every access is inside the mapping, and every
    byte is its old value or its old value with bit 0 flipped. *)
Theorem accesses_in_bounds size mem0 k ls g :
  0 < size -> (forall p, in_u 8 (mem0 p)) -> access_run size (start_region mem0 k) ls = Some g ->
  (forall p, memory g p = mem0 p \/ (0 <= p < size /\ memory g p = Z.lxor (mem0 p) 1)) /\
  (forall t off b, threads g !! t = Some (Loaded off b) -> 0 <= off < size).
Proof.
  intros Hs Hb Hrun.
  destruct (access_run_inv size (fun p => 0 <= p < size) mem0) with (start_region mem0 k) ls g as [Hm Ht]; try done.
  - intros r1 r2 _ _. by apply Z.mod_pos_bound.
  - apply start_inv.
  - split; [done|]. intros t off b Et. rewrite Forall_forall in Ht.
    by destruct (Ht _ (list_elem_of_lookup_2 _ _ _ Et)).
Qed.

(** When the region's size is a power of two of at least 4 GB, the half of its
    bytes whose address has bit 31 set is never written, by any number of threads
    in any number of accesses: [rand()] has 31 bits, not 32. *)
Theorem half_never_written e mem0 k ls g :
  32 <= e -> (forall p, in_u 8 (mem0 p)) -> access_run (2 ^ e) (start_region mem0 k) ls = Some g ->
  forall p, Z.testbit p 31 = true -> memory g p = mem0 p.
Proof.
  intros He Hb Hrun p Hp.
  destruct (access_run_inv (2 ^ e) (fun p => Z.testbit p 31 = false) mem0) with (start_region mem0 k) ls g
    as [Hm _]; try done.
  - intros r1 r2 H1 H2. unfold random_offset. rewrite mod_bit31 by done. by apply rand_u64_bit31.
  - apply start_inv.
  - destruct (Hm p) as [|[Hp' _]]; [done|congruence].
Qed.

(** The usage text offers [cxl] or [mmap] as the last argument, but the argument is
    read as a number: with either word the region is ordinary memory. *)
Theorem cxl_word_selects_mmap p n k s t word r :
  word = lit "cxl" \/ word = lit "mmap" -> access_main [p; n; k; s; t; word] = r ->
  r = AccessFails \/ exists size nt secs K, r = AccessRuns false size nt secs K.
Proof.
  intros Hw <-. unfold access_main. repeat case_match; try by left. right.
  eexists _, _, _, _. by destruct Hw as [-> | ->].
Qed.

Lemma alloc_size_pages arg k : 0 <= k <= 30 -> exists n, alloc_size arg = n * 2 ^ k.
Proof.
  intros Hk. unfold alloc_size, wrap_u. rewrite Z.shiftl_mul_pow2 by lia. set (x := strtol10 arg mod 2 ^ 64).
  exists ((x mod 2 ^ 34) * 2 ^ (30 - k)). rewrite <- Z.mul_assoc, <- Z.pow_add_r by lia.
  replace (30 - k + k) with 30 by lia. change (2 ^ 64) with (2 ^ 34 * 2 ^ 30).
  by rewrite Z.mul_mod_distr_r by lia.
Qed.

(** Pages below [i] are touched, [i] is the start of a page. *)
Definition touched_below (pagesize size : Z) (buffer : Z -> Z) (s : (Z -> Z) * Z) : Prop :=
  (exists j, s.2 = j * pagesize) /\ 0 <= s.2 <= size /\
  forall p, s.1 p = if (0 <=? p) && (p <? s.2) && (p mod pagesize =? 0) then 1 else buffer p.

Lemma touch_one pagesize size buffer s :
  0 < pagesize -> size < 2 ^ 64 -> (exists n, size = n * pagesize) -> touched_below pagesize size buffer s ->
  s.2 < size -> touched_below pagesize size buffer (<[s.2 := 1]> s.1, u64 (s.2 + pagesize)) /\
    u64 (s.2 + pagesize) = s.2 + pagesize.
Proof.
  intros Hps Hsz [n Hn] ([j Hj] & Hr & Hb) Hlt. destruct s as [b i]; simpl in *.
  assert (i + pagesize <= size) as Hle.
  { subst. apply Z.mul_lt_mono_pos_r in Hlt; [|done].
    replace (j * pagesize + pagesize) with ((j + 1) * pagesize) by ring. apply Z.mul_le_mono_nonneg_r; lia. }
  assert (u64 (i + pagesize) = i + pagesize) as Hu by (apply wrap_u_id; unfold in_u; lia).
  rewrite Hu. split; [|done]. split_and!; [exists (j + 1); simpl; rewrite Hj; ring|simpl; lia..|].
  intros p. simpl. destruct (decide (i = p)) as [<-|Hne].
  - rewrite fn_lookup_insert, Hj, Z.mod_mul by lia. symmetry. rewrite <- Hj.
    by rewrite (proj2 (Z.leb_le _ _)), (proj2 (Z.ltb_lt _ _)) by lia.
  - rewrite fn_lookup_insert_ne, Hb by done.
    destruct (Z.eqb_spec (p mod pagesize) 0) as [Hp|]; [|by rewrite !andb_false_r].
    rewrite !andb_true_r. apply Z.mod_divide in Hp as [q Hq]; [|lia].
    replace (p <? i + pagesize) with (p <? i); [done|].
    apply eq_true_iff_eq. rewrite !Z.ltb_lt. split; [lia|]. subst p i. intros Hlt'.
    replace (j * pagesize + pagesize) with ((j + 1) * pagesize) in Hlt' by ring.
    apply Z.mul_lt_mono_pos_r in Hlt'; [|done]. apply Z.mul_lt_mono_pos_r; [done|].
    assert (q <> j) by congruence. lia.
Qed.

(** Alloc.c's loop ends and touches the first byte of every page and nothing
    else, for every size it accepts, although its counter and the size are 64 bits
    wide. *)
Theorem touch_pages_all arg k fuel buffer :
  0 <= k <= 30 -> alloc_size arg <= Z.of_nat fuel * 2 ^ k ->
  exists b i, touch_pages (alloc_size arg) (2 ^ k) fuel buffer = inr (b, i) /\
    forall p, b p = if (0 <=? p) && (p <? alloc_size arg) && (p mod 2 ^ k =? 0) then 1 else buffer p.
Proof.
  intros Hk Hf. pose proof (alloc_size_pages arg k Hk) as Hn. set (size := alloc_size arg) in *.
  assert (0 < 2 ^ k) as Hps by (apply Z.pow_pos_nonneg; lia). set (pagesize := 2 ^ k) in *.
  assert (0 <= size < 2 ^ 64) as Hsz by (apply wrap_u_range; lia).
  destruct (while_inv (touched_below pagesize size buffer) (fun s => Z.to_nat ((size - s.2) / pagesize)) fuel
    (fun s => s.2 <? size) (fun s => mret (<[s.2 := 1]> s.1, u64 (s.2 + pagesize))) (buffer, 0))
    as ([b i] & E & (_ & Hi & Hb) & Hend).
  - split_and!; [by exists 0|simpl; lia..|]. intros p. simpl.
    destruct (Z.leb_spec 0 p); [|done]. by rewrite (proj2 (Z.ltb_ge _ _)).
  - simpl. rewrite Z.sub_0_r. assert (size / pagesize <= Z.of_nat fuel); [|lia].
    apply Z.div_le_upper_bound; lia.
  - intros s Hs Hlt. to_prop. eexists. split; [done|].
    destruct (touch_one pagesize size buffer s) as [Hs' Hu]; [done|lia|done..|]. split; [done|]. simpl. rewrite Hu.
    destruct Hs' as (_ & Hr & _). simpl in Hr. rewrite Hu in Hr.
    replace (size - s.2) with ((size - (s.2 + pagesize)) + 1 * pagesize) by lia.
    rewrite Z.div_add by lia. assert (0 <= (size - (s.2 + pagesize)) / pagesize) by (apply Z.div_pos; lia). lia.
  - simpl in *. to_prop. exists b, i. split; [done|]. intros p. rewrite Hb. by replace i with size by lia.
Qed.

(** *** Concrete runs *)

Definition zero_memory : Z -> Z := fun _ => 0.

(** Two threads that load the same byte before either stores: one flip is lost. *)
Definition lost_update : list access_label := [ALoad 0 1 7; ALoad 1 1 7; AStore 0; AStore 1].

Lemma zero_bytes p : in_u 8 (zero_memory p).
Proof. done. Qed.

Definition lost_update_end : region :=
  default (start_region zero_memory 2) (access_run (2 ^ 33) (start_region zero_memory 2) lost_update).

Lemma accesses_in_bounds_witness :
  (forall p, memory lost_update_end p = 0 \/ (0 <= p < 2 ^ 33 /\ memory lost_update_end p = 1)) /\
  memory lost_update_end 4294967303 = 1.
Proof.
  split; [|vm_compute; reflexivity].
  exact (proj1 (accesses_in_bounds (2 ^ 33) zero_memory 2 lost_update lost_update_end eq_refl zero_bytes eq_refl)).
Defined.

Lemma half_never_written_witness : memory lost_update_end (2 ^ 31) = 0.
Proof.
  refine (half_never_written 33 zero_memory 2 lost_update lost_update_end _ zero_bytes eq_refl (2 ^ 31) eq_refl).
  lia.
Defined.

Lemma cxl_word_selects_mmap_witness :
  access_main [lit "mem-access"; lit "4"; lit "1"; lit "1"; lit "1"; lit "cxl"] = AccessFails \/
  exists size nt secs K,
    access_main [lit "mem-access"; lit "4"; lit "1"; lit "1"; lit "1"; lit "cxl"] = AccessRuns false size nt secs K.
Proof.
  exact (cxl_word_selects_mmap (lit "mem-access") (lit "4") (lit "1") (lit "1") (lit "1") (lit "cxl") _
           (or_introl eq_refl) eq_refl).
Defined.

Lemma touch_pages_all_witness :
  exists b i, touch_pages (alloc_size (lit "1")) (2 ^ 30) 1 zero_memory = inr (b, i) /\
    forall p, b p = if (0 <=? p) && (p <? alloc_size (lit "1")) && (p mod 2 ^ 30 =? 0) then 1 else zero_memory p.
Proof. apply (touch_pages_all (lit "1") 30 1 zero_memory); vm_compute; [split|]; discriminate. Defined.
