(* ===== verification/ModArith.v ===== *)
(** * Arithmetic modulo 2^31 - 1

    [generator/mod_arith_64bit.h] and [generator/mod_arith_32bit.h], the two
    implementations [mod_arith.h] chooses from.  [w] is the width of
    [uint_fast32_t], 32 or 64; the operations stop at a failed [assert] and at an
    overflow of a signed type. *)

From S2P Require Import Prelude.

Definition P : Z := 0x7FFFFFFF.
Definition MRG_X : Z := 107374182.
Definition MRG_Y : Z := 104480.

(** [assert (a <= 0x7FFFFFFE);] *)
Definition assert_res (a : Z) : result unit := assert (a <=? 0x7FFFFFFE).
Definition assert_all (l : list Z) : result unit := for_each (fun _ a => assert_res a) tt l.

(** A signed expression: undefined when it does not fit. *)
Definition signed (w z : Z) : result Z := _ ← defined_if (bool_decide (in_s w z)); mret z.

Section Width.
Context (w : Z).

(** ** mod_arith_64bit.h *)

Definition mod_add_64 (a b : Z) : result Z :=
_ ← assert_all [a; b]; mret (wrap_u w (a + b) mod 0x7FFFFFFF).
Definition mod_mul_64 (a b : Z) : result Z :=
_ ← assert_all [a; b]; mret (wrap_u w (u64 (a * b) mod 0x7FFFFFFF)).
Definition mod_mac_64 (sum a b : Z) : result Z :=
_ ← assert_all [sum; a; b]; mret (wrap_u w (u64 (a * b + sum) mod 0x7FFFFFFF)).
Definition mod_mac2_64 (sum a b c d : Z) : result Z :=
_ ← assert_all [sum; a; b; c; d]; mret (wrap_u w (u64 (a * b + c * d + sum) mod 0x7FFFFFFF)).
Definition mod_mac3_64 (sum a b c d e f : Z) : result Z :=
_ ← assert_all [sum; a; b; c; d; e; f]; mret (wrap_u w (u64 (a * b + c * d + e * f + sum) mod 0x7FFFFFFF)).
Definition mod_mac4_64 (sum a b c d e f g h : Z) : result Z :=
_ ← assert_all [sum; a; b; c; d; e; f; g; h];
mret (wrap_u w (u64 (a * b + c * d + e * f + g * h + sum) mod 0x7FFFFFFF)).
Definition mod_mul_x_64 (a : Z) : result Z := mod_mul_64 a MRG_X.
Definition mod_mul_y_64 (a : Z) : result Z := mod_mul_64 a MRG_Y.
Definition mod_mac_y_64 (sum a : Z) : result Z := mod_mac_64 sum a MRG_Y.

(** ** mod_arith_32bit.h *)

(** [(x >= 0x7FFFFFFF) ? (x - 0x7FFFFFFF) : x] *)
Definition reduce_once (x : Z) : Z := if 0x7FFFFFFF <=? x then wrap_u w (x - 0x7FFFFFFF) else x.

(** [(uint_fast32_t)(temp & 0x7FFFFFFF) + (uint_fast32_t)(temp >> 31)], reduced *)
Definition fold_31 (temp : Z) : Z :=
reduce_once (wrap_u w (wrap_u w (Z.land temp 0x7FFFFFFF) + wrap_u w (Z.shiftr temp 31))).

Definition mod_add_32 (a b : Z) : result Z :=
_ ← assert_all [a; b]; mret (reduce_once (wrap_u w (a + b))).
Definition mod_mul_32 (a b : Z) : result Z :=
_ ← assert_all [a; b]; mret (fold_31 (u64 (a * b))).
Definition mod_mac_32 (sum a b : Z) : result Z :=
_ ← assert_all [sum; a; b]; mret (fold_31 (u64 (a * b + sum))).
Definition mod_mac2_32 (sum a b c d : Z) : result Z :=
_ ← assert_all [sum; a; b; c; d]; x ← mod_mac_32 sum a b; mod_mac_32 x c d.
Definition mod_mac3_32 (sum a b c d e f : Z) : result Z :=
_ ← assert_all [sum; a; b; c; d; e; f]; x ← mod_mac_32 sum a b; mod_mac2_32 x c d e f.
Definition mod_mac4_32 (sum a b c d e f g h : Z) : result Z :=
_ ← assert_all [sum; a; b; c; d; e; f; g; h]; x ← mod_mac2_32 sum a b c d; mod_mac2_32 x e f g h.

(** Multiplication by a constant [k] with [k * q + r = 0x7FFFFFFF] in signed
  arithmetic. *)
Definition mul_approx (k q r a : Z) : result Z :=
q1 ← signed w (Z.quot a q);
s1 ← signed w (q1 * q); s2 ← signed w (a - s1); s3 ← signed w (k * s2); s4 ← signed w (q1 * r);
res ← signed w (s3 - s4);
res ← signed w (res + (if res <? 0 then 0x7FFFFFFF else 0));
check ← mod_mul_32 a k; _ ← assert (wrap_u w res =? check); mret (wrap_u w res).

Definition mod_mul_x_32 (a : Z) : result Z := mul_approx MRG_X 20 7 a.
Definition mod_mul_y_32 (a : Z) : result Z := mul_approx MRG_Y 20554 1727 a.
Definition mod_mac_y_32 (sum a : Z) : result Z :=
y ← mod_mul_y_32 a; res ← mod_add_32 sum y; check ← mod_mac_32 sum a MRG_Y;
_ ← assert (res =? check); mret res.
End Width.

(** ** The interface of mod_arith.h *)

Class ModOps := {
  mod_add : Z -> Z -> result Z;
  mod_mul : Z -> Z -> result Z;
  mod_mac : Z -> Z -> Z -> result Z;
  mod_mac2 : Z -> Z -> Z -> Z -> Z -> result Z;
  mod_mac3 : Z -> Z -> Z -> Z -> Z -> Z -> Z -> result Z;
  mod_mac4 : Z -> Z -> Z -> Z -> Z -> Z -> Z -> Z -> Z -> result Z;
  mod_mul_x : Z -> result Z;
  mod_mul_y : Z -> result Z;
  mod_mac_y : Z -> Z -> result Z;
}.

Definition residue (z : Z) : Prop := 0 <= z < P.

(** What the generator relies on: on residues every operation returns the residue
    of its exact value. *)
Class ModLaws (o : ModOps) : Prop := {
  mod_add_ok a b : residue a -> residue b -> mod_add a b = inr ((a + b) mod P);
  mod_mul_ok a b : residue a -> residue b -> mod_mul a b = inr ((a * b) mod P);
  mod_mac_ok s a b : residue s -> residue a -> residue b -> mod_mac s a b = inr ((s + a * b) mod P);
  mod_mac2_ok s a b c d : residue s -> residue a -> residue b -> residue c -> residue d ->
    mod_mac2 s a b c d = inr ((s + a * b + c * d) mod P);
  mod_mac3_ok s a b c d e f : residue s -> residue a -> residue b -> residue c -> residue d ->
    residue e -> residue f -> mod_mac3 s a b c d e f = inr ((s + a * b + c * d + e * f) mod P);
  mod_mac4_ok s a b c d e f g h : residue s -> residue a -> residue b -> residue c -> residue d ->
    residue e -> residue f -> residue g -> residue h ->
    mod_mac4 s a b c d e f g h = inr ((s + a * b + c * d + e * f + g * h) mod P);
  mod_mul_x_ok a : residue a -> mod_mul_x a = inr ((a * MRG_X) mod P);
  mod_mul_y_ok a : residue a -> mod_mul_y a = inr ((a * MRG_Y) mod P);
  mod_mac_y_ok s a : residue s -> residue a -> mod_mac_y s a = inr ((s + a * MRG_Y) mod P);
}.

Definition ops_64 (w : Z) : ModOps :=
  Build_ModOps (mod_add_64 w) (mod_mul_64 w) (mod_mac_64 w) (mod_mac2_64 w) (mod_mac3_64 w) (mod_mac4_64 w)
    (mod_mul_x_64 w) (mod_mul_y_64 w) (mod_mac_y_64 w).
Definition ops_32 (w : Z) : ModOps :=
  Build_ModOps (mod_add_32 w) (mod_mul_32 w) (mod_mac_32 w) (mod_mac2_32 w) (mod_mac3_32 w) (mod_mac4_32 w)
    (mod_mul_x_32 w) (mod_mul_y_32 w) (mod_mac_y_32 w).

(** ** Congruence modulo [P] *)

Record congr (x y : Z) : Prop := mk_congr { congr_mod : x mod P = y mod P }.

Declare Scope mod_scope.
Delimit Scope mod_scope with modP.
Infix "==" := congr (at level 70, no associativity) : mod_scope.
Open Scope mod_scope.

#[export] Instance congr_equiv : Equivalence congr.
Proof.
  split; [by split|by intros x y [E]; split|].
  intros x y z [E1] [E2]. split. congruence.
Qed.
#[export] Instance congr_add : Proper (congr ==> congr ==> congr) Z.add.
Proof.
  intros x x' [E1] y y' [E2]. split. rewrite (Zplus_mod x), (Zplus_mod x'). by rewrite E1, E2.
Qed.
#[export] Instance congr_mul : Proper (congr ==> congr ==> congr) Z.mul.
Proof.
  intros x x' [E1] y y' [E2]. split. rewrite (Zmult_mod x), (Zmult_mod x'). by rewrite E1, E2.
Qed.
Lemma congr_reduce x : x mod P == x.
Proof. split. by rewrite Zmod_mod. Qed.
Lemma congr_eq x y : x = y -> x == y.
Proof. by intros ->. Qed.

(** ** Facts *)

Lemma residue_mod z : residue (z mod P).
Proof. apply Z.mod_pos_bound. reflexivity. Qed.

Lemma residue_x : residue MRG_X.
Proof. done. Qed.
Lemma residue_y : residue MRG_Y.
Proof. done. Qed.
Lemma residue_0 : residue 0.
Proof. done. Qed.
#[export] Hint Resolve residue_mod residue_x residue_y residue_0 : study.

Lemma assert_all_ok l : Forall residue l -> assert_all l = inr tt.
Proof.
  induction 1 as [|a l Ha _ IH]; [done|]. unfold assert_all in *. cbn [for_each].
  assert (assert_res a = inr tt) as ->; [|exact IH].
  unfold residue, P in Ha. unfold assert_res. by rewrite (proj2 (Z.leb_le _ _)) by lia.
Qed.

(** The product of two residues. *)
Lemma residue_mul a b : residue a -> residue b -> 0 <= a * b <= 0x3FFFFFFE00000004.
Proof.
  unfold residue, P. intros [? ?] [? ?]. split; [nia|].
  transitivity (0x7FFFFFFE * 0x7FFFFFFE); [|lia]. apply Z.mul_le_mono_nonneg; lia.
Qed.

Section Laws.
Context (w : Z) (Hw : 32 <= w).

Lemma wide : 2 ^ 32 <= 2 ^ w.
Proof. apply Z.pow_le_mono_r; lia. Qed.

Lemma wrap_w z : 0 <= z < 2 ^ 32 -> wrap_u w z = z.
Proof. intros. apply wrap_u_id. pose proof wide. unfold in_u. lia. Qed.

Lemma signed_w z : - 2 ^ 31 <= z < 2 ^ 31 -> signed w z = inr z.
Proof.
intros Hz. unfold signed. rewrite bool_decide_true; [done|].
assert (2 ^ 31 <= 2 ^ (w - 1)) by (apply Z.pow_le_mono_r; lia). unfold in_s. lia.
Qed.

Lemma mod_down_w z : 0 <= z < 2 ^ 64 -> wrap_u w (u64 z mod 0x7FFFFFFF) = z mod P.
Proof.
intros Hz. rewrite (wrap_u_id 64) by done. apply wrap_w. pose proof (residue_mod z). unfold residue, P in *. lia.
Qed.

Lemma reduce_once_ok x : 0 <= x < 2 * P -> reduce_once w x = x mod P.
Proof.
intros Hx. unfold reduce_once, P in *. destruct (Z.leb_spec 0x7FFFFFFF x).
- rewrite wrap_w by lia. replace x with (x - 0x7FFFFFFF + 1 * 0x7FFFFFFF) at 2 by lia.
  rewrite Z.mod_add, Z.mod_small; lia.
- by rewrite Z.mod_small by lia.
Qed.

(** 2^31 is 1 modulo [P]: the low and the high part may be added. *)
Lemma fold_31_ok t : 0 <= t < 2 ^ 62 - 2 ^ 31 -> fold_31 w t = t mod P.
Proof.
intros Ht. unfold fold_31. change 0x7FFFFFFF with (Z.ones 31).
rewrite Z.land_ones, Z.shiftr_div_pow2 by lia.
assert (0 <= t mod 2 ^ 31 < 2 ^ 31) as Hl by (apply Z.mod_pos_bound; lia).
assert (0 <= t / 2 ^ 31 < 2 ^ 31) as Hh by (split; [apply Z.div_pos; lia|apply Z.div_lt_upper_bound; lia]).
rewrite (wrap_w (t mod 2 ^ 31)), (wrap_w (t / 2 ^ 31)), wrap_w by lia.
pose proof (Z.div_mod t (2 ^ 31) ltac:(lia)) as Hdm.
destruct (decide (t mod 2 ^ 31 + t / 2 ^ 31 = 2 * P)) as [E|].
- exfalso. unfold P in E. lia.
- rewrite reduce_once_ok by (unfold P in *; lia). rewrite Hdm at 3.
  replace (2 ^ 31 * (t / 2 ^ 31) + t mod 2 ^ 31) with (t mod 2 ^ 31 + t / 2 ^ 31 + (t / 2 ^ 31) * P) by (unfold P; lia).
  by rewrite Z.mod_add.
Qed.

(** Evaluate the asserts of an operation on residues. *)
Ltac asserts_hold := rewrite assert_all_ok by (repeat (apply Forall_cons; split); by auto with study).

#[export] Instance laws_64 : ModLaws (ops_64 w).
Proof.
split; simpl; intros;
  unfold mod_add_64, mod_mul_x_64, mod_mul_y_64, mod_mac_y_64, mod_mul_64, mod_mac_64, mod_mac2_64, mod_mac3_64, mod_mac4_64;
  asserts_hold; simpl; unfold mret, result_ret; f_equal;
  repeat match goal with
  | |- context [?x * ?y] => lazymatch goal with
      | H : 0 <= x * y <= _ |- _ => fail
      | _ => pose proof (residue_mul x y ltac:(auto with study) ltac:(auto with study)) end
  end.
1: { rewrite wrap_w; [done|]. unfold residue, P in *. lia. }
all: rewrite mod_down_w by (unfold residue, P in *; lia); f_equal; lia.
Qed.

Lemma mod_mul_32_ok a b : residue a -> residue b -> mod_mul_32 w a b = inr ((a * b) mod P).
Proof.
intros Ha Hb. unfold mod_mul_32. asserts_hold. simpl. pose proof (residue_mul a b Ha Hb).
rewrite wrap_u_id by (unfold in_u; lia). by rewrite fold_31_ok by lia.
Qed.

Lemma mod_mac_32_ok s a b : residue s -> residue a -> residue b -> mod_mac_32 w s a b = inr ((s + a * b) mod P).
Proof.
intros Hs Ha Hb. unfold mod_mac_32. asserts_hold. simpl. pose proof (residue_mul a b Ha Hb).
unfold residue, P in Hs. rewrite wrap_u_id by (unfold in_u; lia). rewrite fold_31_ok by lia.
by rewrite Z.add_comm.
Qed.

Lemma mod_add_32_ok a b : residue a -> residue b -> mod_add_32 w a b = inr ((a + b) mod P).
Proof.
intros Ha Hb. unfold mod_add_32. asserts_hold. simpl. unfold residue, P in Ha, Hb.
rewrite wrap_w by lia. by rewrite reduce_once_ok by (unfold P; lia).
Qed.

Lemma mod_mac2_32_ok s a b c d : residue s -> residue a -> residue b -> residue c -> residue d ->
mod_mac2_32 w s a b c d = inr ((s + a * b + c * d) mod P).
Proof.
intros. unfold mod_mac2_32. asserts_hold. simpl. rewrite mod_mac_32_ok by done. simpl.
rewrite mod_mac_32_ok by auto with study. by rewrite Zplus_mod_idemp_l.
Qed.

(** The quotient and the remainder of [a] by [q] recombine to [k * a]. *)
Lemma mul_approx_ok k q r a :
residue a -> 0 < k < P -> 0 <= r <= q -> k * q + r = P -> 0 < q < 2 ^ 15 ->
mul_approx w k q r a = inr ((a * k) mod P).
Proof.
intros Ha Hk Hr Hkq Hq. unfold mul_approx, residue in *.
assert (P = 2 ^ 31 - 1) as HP by reflexivity.
rewrite Z.quot_div_nonneg by lia. set (i := a / q). set (j := a mod q).
pose proof (Z.div_mod a q ltac:(lia)) as Hdm. fold i j in Hdm.
assert (0 <= j < q) as Hj by (apply Z.mod_pos_bound; lia).
assert (0 <= i) as Hi by (apply Z.div_pos; lia).
assert (0 <= i * q <= a) as Hiq by lia. assert (i <= a) as Hia by nia.
assert (0 <= i * r <= a) as Hir by (split; [nia|transitivity (i * q); [apply Z.mul_le_mono_nonneg_l; lia|lia]]).
assert (0 <= k * j < P) as Hkj.
{ split; [nia|]. apply Z.le_lt_trans with (k * (q - 1)); [apply Z.mul_le_mono_nonneg_l; lia|lia]. }
rewrite signed_w by lia. simpl. rewrite signed_w by lia. simpl. rewrite signed_w by lia. simpl.
replace (a - i * q) with j by lia. rewrite signed_w by lia. simpl. rewrite signed_w by lia. simpl.
rewrite signed_w by lia. simpl.
assert (0 <= k * j - i * r + (if k * j - i * r <? 0 then 0x7FFFFFFF else 0) < P) as Hres.
{ destruct (Z.ltb_spec (k * j - i * r) 0); lia. }
rewrite signed_w by lia. simpl. rewrite mod_mul_32_ok by (unfold residue; lia). simpl.
rewrite wrap_w by lia.
assert (k * j - i * r + (if k * j - i * r <? 0 then 0x7FFFFFFF else 0) = (a * k) mod P) as ->.
{ rewrite <- (Z.mod_small _ P Hres). rewrite Hdm.
  destruct (Z.ltb_spec (k * j - i * r) 0).
  - replace ((q * i + j) * k) with (k * j - i * r + 0x7FFFFFFF + (i - 1) * P) by (unfold P in *; nia).
    by rewrite Z.mod_add by lia.
  - replace ((q * i + j) * k) with (k * j - i * r + 0 + i * P) by (unfold P in *; nia).
    by rewrite Z.mod_add by lia. }
by rewrite Z.eqb_refl.
Qed.

#[export] Instance laws_32 : ModLaws (ops_32 w).
Proof.
assert (forall a, residue a -> mod_mul_y_32 w a = inr ((a * MRG_Y) mod P)) as Hy.
{ intros. apply mul_approx_ok; done. }
split; simpl; intros.
- by apply mod_add_32_ok.
- by apply mod_mul_32_ok.
- by apply mod_mac_32_ok.
- by apply mod_mac2_32_ok.
- unfold mod_mac3_32. asserts_hold. simpl. rewrite mod_mac_32_ok by done. simpl.
  rewrite mod_mac2_32_ok by auto with study.
  by rewrite <- Z.add_assoc, Zplus_mod_idemp_l, Z.add_assoc.
- unfold mod_mac4_32. asserts_hold. simpl. rewrite mod_mac2_32_ok by done. simpl.
  rewrite mod_mac2_32_ok by auto with study.
  by rewrite <- Z.add_assoc, Zplus_mod_idemp_l, Z.add_assoc.
- apply mul_approx_ok; done.
- by apply Hy.
- unfold mod_mac_y_32. rewrite Hy by done. simpl. rewrite mod_add_32_ok by auto with study. simpl.
  rewrite mod_mac_32_ok by auto with study. simpl. by rewrite Zplus_mod_idemp_r, Z.eqb_refl.
Qed.
End Laws.

(** Both implementations return the residue [v]. *)
Definition both (r32 r64 : result Z) (v : Z) : Prop := r32 = inr (v mod P) /\ r64 = inr (v mod P).

(** C39: on residues the 32-bit and the 64-bit implementation of every modular operation
    agree: they return the residue of the exact value, with no failed assertion, no
    overflow of a signed product and no wrap-around, whether [uint_fast32_t] has 32
    bits or more. *)
Theorem mod_arith_equiv w s a b c d e f g h :
  32 <= w -> residue s -> residue a -> residue b -> residue c -> residue d -> residue e -> residue f ->
  residue g -> residue h ->
  both (mod_add_32 w a b) (mod_add_64 w a b) (a + b) /\
  both (mod_mul_32 w a b) (mod_mul_64 w a b) (a * b) /\
  both (mod_mac_32 w s a b) (mod_mac_64 w s a b) (s + a * b) /\
  both (mod_mac2_32 w s a b c d) (mod_mac2_64 w s a b c d) (s + a * b + c * d) /\
  both (mod_mac3_32 w s a b c d e f) (mod_mac3_64 w s a b c d e f) (s + a * b + c * d + e * f) /\
  both (mod_mac4_32 w s a b c d e f g h) (mod_mac4_64 w s a b c d e f g h)
    (s + a * b + c * d + e * f + g * h) /\
  both (mod_mul_x_32 w a) (mod_mul_x_64 w a) (a * MRG_X) /\
  both (mod_mul_y_32 w a) (mod_mul_y_64 w a) (a * MRG_Y) /\
  both (mod_mac_y_32 w s a) (mod_mac_y_64 w s a) (s + a * MRG_Y).
Proof.
  intros Hw Hs Ha Hb Hc Hd He Hf Hg Hh.
  pose proof (laws_32 w Hw) as []. pose proof (laws_64 w Hw) as []. cbn in *. unfold both. split_and!; auto.
Qed.

Lemma mod_arith_equiv_witness :
  both (mod_mac4_32 32 1 2 3 4 5 6 7 8 0x7FFFFFFE) (mod_mac4_64 32 1 2 3 4 5 6 7 8 0x7FFFFFFE)
    (1 + 2 * 3 + 4 * 5 + 6 * 7 + 8 * 0x7FFFFFFE).
Proof. apply (mod_arith_equiv 32 1 2 3 4 5 6 7 8 0x7FFFFFFE); by_decide. Defined.
