(* ===== verification/Mrg.v ===== *)
(** * The splittable random number generator of Graph500

    [generator/splittable_mrg.c]: a multiple recursive generator modulo 2^31 - 1,
    the matrices that advance it many steps at once, and [mrg_skip].  The table of
    matrices is a parameter here; [MrgTable] gives the one of mrg_transitions.c. *)

From Stdlib Require Import Setoid.
From S2P Require Import Prelude ModArith.

Record mrg_state := mk_st { z1 : Z; z2 : Z; z3 : Z; z4 : Z; z5 : Z }.

(** [m_s] to [m_w] is the bottom row of a power of the transition matrix, [m_a] to
    [m_d] the cached rest. *)
Record mrg_transition_matrix := mk_mat {
  m_s : Z; m_t : Z; m_u : Z; m_v : Z; m_w : Z; m_a : Z; m_b : Z; m_c : Z; m_d : Z
}.

#[export] Instance mat_eq_dec : EqDecision mrg_transition_matrix.
Proof. solve_decision. Defined.

Section Mrg.
Context {ops : ModOps}.

Definition mrg_update_cache (s t u v w : Z) : result mrg_transition_matrix :=
x ← mod_mul_x s; a ← mod_add x t;
x ← mod_mul_x a; b ← mod_add x u;
x ← mod_mul_x b; c ← mod_add x v;
x ← mod_mul_x c; d ← mod_add x w;
mret (mk_mat s t u v w a b c d).

Definition mrg_make_identity : result mrg_transition_matrix := mrg_update_cache 0 0 0 0 1.
Definition mrg_make_A : result mrg_transition_matrix := mrg_update_cache 0 0 0 1 0.

(** The results are stored in [uint_least32_t]s. *)
Definition mrg_multiply (m n : mrg_transition_matrix) : result mrg_transition_matrix :=
x ← mod_mul (m_s m) (m_d n); x ← mod_mac x (m_t m) (m_c n); x ← mod_mac x (m_u m) (m_b n);
x ← mod_mac x (m_v m) (m_a n); rs ← mod_mac x (m_w m) (m_s n);
x ← mod_mul (m_s m) (m_s n); x ← mod_mul_y x; x ← mod_mac x (m_t m) (m_w n);
x ← mod_mac x (m_u m) (m_v n); x ← mod_mac x (m_v m) (m_u n); rt ← mod_mac x (m_w m) (m_t n);
x ← mod_mul (m_s m) (m_a n); x ← mod_mac x (m_t m) (m_s n); x ← mod_mul_y x;
x ← mod_mac x (m_u m) (m_w n); x ← mod_mac x (m_v m) (m_v n); ru ← mod_mac x (m_w m) (m_u n);
x ← mod_mul (m_s m) (m_b n); x ← mod_mac x (m_t m) (m_a n); x ← mod_mac x (m_u m) (m_s n);
x ← mod_mul_y x; x ← mod_mac x (m_v m) (m_w n); rv ← mod_mac x (m_w m) (m_v n);
x ← mod_mul (m_s m) (m_c n); x ← mod_mac x (m_t m) (m_b n); x ← mod_mac x (m_u m) (m_a n);
x ← mod_mac x (m_v m) (m_s n); x ← mod_mul_y x; rw ← mod_mac x (m_w m) (m_w n);
mrg_update_cache (u32 rs) (u32 rt) (u32 ru) (u32 rv) (u32 rw).

(** [exponent] is an [unsigned int]: 32 halvings bring it to zero. *)
Definition power_turn (s : mrg_transition_matrix * mrg_transition_matrix * Z)
  : result (mrg_transition_matrix * mrg_transition_matrix * Z) :=
let '(res, cur, e) := s in
res ← (if e mod 2 =? 1 then mrg_multiply res cur else mret res);
cur ← mrg_multiply cur cur;
mret (res, cur, e / 2).

Definition mrg_power (m : mrg_transition_matrix) (exponent : Z) : result mrg_transition_matrix :=
one ← mrg_make_identity;
'(res, _, _) ← while 32 (fun s => 0 <? s.2) power_turn (one, m, exponent);
mret res.

Definition mrg_apply_transition (mat : mrg_transition_matrix) (st : mrg_state) : result mrg_state :=
x ← mod_mul (m_d mat) (z1 st);
y ← mod_mac4 0 (m_s mat) (z2 st) (m_a mat) (z3 st) (m_b mat) (z4 st) (m_c mat) (z5 st);
o1 ← mod_mac_y x y;
x ← mod_mac2 0 (m_c mat) (z1 st) (m_w mat) (z2 st);
y ← mod_mac3 0 (m_s mat) (z3 st) (m_a mat) (z4 st) (m_b mat) (z5 st);
o2 ← mod_mac_y x y;
x ← mod_mac3 0 (m_b mat) (z1 st) (m_v mat) (z2 st) (m_w mat) (z3 st);
y ← mod_mac2 0 (m_s mat) (z4 st) (m_a mat) (z5 st);
o3 ← mod_mac_y x y;
x ← mod_mac4 0 (m_a mat) (z1 st) (m_u mat) (z2 st) (m_v mat) (z3 st) (m_w mat) (z4 st);
y ← mod_mul (m_s mat) (z5 st);
o4 ← mod_mac_y x y;
x ← mod_mac3 0 (m_s mat) (z1 st) (m_t mat) (z2 st) (m_u mat) (z3 st);
o5 ← mod_mac2 x (m_v mat) (z4 st) (m_w mat) (z5 st);
mret (mk_st o1 o2 o3 o4 o5).

Definition mrg_step := mrg_apply_transition.

Definition mrg_orig_step (st : mrg_state) : result mrg_state :=
x ← mod_mul_x (z1 st); new_elt ← mod_mac_y x (z5 st);
mret (mk_st new_elt (z1 st) (z2 st) (z3 st) (z4 st)).

Definition mrg_get_uint_orig (st : mrg_state) : result (Z * mrg_state) :=
st' ← mrg_orig_step st; mret (z1 st', st').

Definition mrg_seed (seed : list Z) : result mrg_state :=
s0 ← the (seed !! 0%nat); s1 ← the (seed !! 1%nat); s2 ← the (seed !! 2%nat);
s3 ← the (seed !! 3%nat); s4 ← the (seed !! 4%nat);
mret (mk_st s0 s1 s2 s3 s4).

Section Skip.
Context (mrg_skip_matrices : list (list mrg_transition_matrix)).

(** [for (; exponent; ++byte_index, exponent >>= 8)]: eight turns at most. *)
Definition skip_turn (s : mrg_state * nat * Z) : result (mrg_state * nat * Z) :=
let '(st, i, e) := s in
let val := Z.land e 0xFF in
st ← (if negb (val =? 0) then
      row ← the (mrg_skip_matrices !! i); mat ← the (row !! Z.to_nat val); mrg_step mat st
    else mret st);
mret (st, S i, Z.shiftr e 8).

Definition skip_word (byte_index : nat) (exponent : Z) (st : mrg_state) : result mrg_state :=
'(st', _, _) ← while 8 (fun s => negb (s.2 =? 0)) skip_turn (st, byte_index, exponent);
mret st'.

Definition mrg_skip (st : mrg_state) (exponent_high exponent_middle exponent_low : Z) : result mrg_state :=
st ← skip_word 0 exponent_low st;
st ← skip_word 8 exponent_middle st;
skip_word 16 exponent_high st.
End Skip.
End Mrg.

(** ** The generator as linear algebra

    States with integer coordinates, compared modulo [P]. *)

Definition S1 (x : mrg_state) : mrg_state := mk_st (MRG_X * z1 x + MRG_Y * z5 x) (z1 x) (z2 x) (z3 x) (z4 x).

Definition st_add (x y : mrg_state) : mrg_state :=
  mk_st (z1 x + z1 y) (z2 x + z2 y) (z3 x + z3 y) (z4 x + z4 y) (z5 x + z5 y).
Definition st_scale (k : Z) (x : mrg_state) : mrg_state :=
  mk_st (k * z1 x) (k * z2 x) (k * z3 x) (k * z4 x) (k * z5 x).

Definition st_mod (x : mrg_state) : mrg_state :=
  mk_st (z1 x mod P) (z2 x mod P) (z3 x mod P) (z4 x mod P) (z5 x mod P).
Definition st_eqm (x y : mrg_state) : Prop := st_mod x = st_mod y.
Definition st_residue (x : mrg_state) : Prop :=
  residue (z1 x) /\ residue (z2 x) /\ residue (z3 x) /\ residue (z4 x) /\ residue (z5 x).

(** A matrix acts as the polynomial s A^4 + t A^3 + u A^2 + v A + w. *)
Definition act (s t u v w : Z) (x : mrg_state) : mrg_state :=
  st_add (st_scale s (S1 (S1 (S1 (S1 x))))) (st_add (st_scale t (S1 (S1 (S1 x))))
    (st_add (st_scale u (S1 (S1 x))) (st_add (st_scale v (S1 x)) (st_scale w x)))).

Definition mat_act (m : mrg_transition_matrix) : mrg_state -> mrg_state := act (m_s m) (m_t m) (m_u m) (m_v m) (m_w m).

(** Entries are residues and the cache is the one [mrg_update_cache] computes. *)
Record mat_ok (m : mrg_transition_matrix) : Prop := {
  mo_row : Forall residue [m_s m; m_t m; m_u m; m_v m; m_w m];
  mo_a : m_a m = (MRG_X * m_s m + m_t m) mod P;
  mo_b : m_b m = (MRG_X * m_a m + m_u m) mod P;
  mo_c : m_c m = (MRG_X * m_b m + m_v m) mod P;
  mo_d : m_d m = (MRG_X * m_c m + m_w m) mod P;
}.

#[export] Instance st_eqm_equiv : Equivalence st_eqm.
Proof. unfold st_eqm. split; [done|by intros ? ?|]. intros ? ? ?. congruence. Qed.

Lemma st_eqm_iff x y :
  st_eqm x y <-> z1 x == z1 y /\ z2 x == z2 y /\ z3 x == z3 y /\ z4 x == z4 y /\ z5 x == z5 y.
Proof.
  unfold st_eqm, st_mod. split; [by intros [= ? ? ? ? ?]; split_and!|].
  by intros ([->] & [->] & [->] & [->] & [->]).
Qed.

Lemma st_mod_id x : st_residue x -> st_mod x = x.
Proof. intros (? & ? & ? & ? & ?). destruct x. unfold st_mod. simpl in *. by rewrite !Z.mod_small. Qed.

Lemma st_mod_residue x : st_residue (st_mod x).
Proof. unfold st_residue, st_mod. simpl. auto using residue_mod. Qed.

Lemma st_mod_eqm x : st_eqm (st_mod x) x.
Proof. unfold st_eqm. apply st_mod_id, st_mod_residue. Qed.

(** Prove [st_eqm] by reducing both sides to integers modulo [P]. *)
Ltac to_eqm := apply st_eqm_iff; simpl; split_and!.

#[export] Instance S1_proper : Proper (st_eqm ==> st_eqm) S1.
Proof.
  intros x y (E1 & E2 & E3 & E4 & E5)%st_eqm_iff. to_eqm; try done.
  by rewrite E1, E5.
Qed.

#[export] Instance st_add_proper : Proper (st_eqm ==> st_eqm ==> st_eqm) st_add.
Proof.
  intros x x' (E1 & E2 & E3 & E4 & E5)%st_eqm_iff y y' (F1 & F2 & F3 & F4 & F5)%st_eqm_iff.
  to_eqm; by rewrite ?E1, ?E2, ?E3, ?E4, ?E5, ?F1, ?F2, ?F3, ?F4, ?F5.
Qed.
#[export] Instance st_scale_proper : Proper (congr ==> st_eqm ==> st_eqm) st_scale.
Proof.
  intros k k' Ek x x' (E1 & E2 & E3 & E4 & E5)%st_eqm_iff. to_eqm; by rewrite Ek, ?E1, ?E2, ?E3, ?E4, ?E5.
Qed.
#[export] Instance act_proper : Proper (congr ==> congr ==> congr ==> congr ==> congr ==> st_eqm ==> st_eqm) act.
Proof. unfold act. solve_proper. Qed.

Lemma st_ext x y :
  z1 x = z1 y -> z2 x = z2 y -> z3 x = z3 y -> z4 x = z4 y -> z5 x = z5 y -> x = y.
Proof. destruct x, y. simpl. congruence. Qed.

(** *** [S1] is linear and satisfies the recurrence *)

Lemma S1_add x y : S1 (st_add x y) = st_add (S1 x) (S1 y).
Proof. unfold S1, st_add. simpl. f_equal. ring. Qed.
Lemma S1_scale k x : S1 (st_scale k x) = st_scale k (S1 x).
Proof. unfold S1, st_scale. simpl. f_equal. ring. Qed.
Lemma S1_recurrence x :
  S1 (S1 (S1 (S1 (S1 x)))) = st_add (st_scale MRG_X (S1 (S1 (S1 (S1 x))))) (st_scale MRG_Y x).
Proof. destruct x. unfold S1, st_add, st_scale. cbn [z1 z2 z3 z4 z5]. f_equal; ring. Qed.

Lemma act_S1 s t u v w x : S1 (act s t u v w x) = act s t u v w (S1 x).
Proof. unfold act. by rewrite !S1_add, !S1_scale. Qed.

(** The action of the product, an identity of integer polynomials. *)
Lemma act_multiply s t u v w s' t' u' v' w' x :
  let a := MRG_X * s' + t' in let b := MRG_X * a + u' in let c := MRG_X * b + v' in let d := MRG_X * c + w' in
  act s t u v w (act s' t' u' v' w' x) =
  act (s * d + t * c + u * b + v * a + w * s')
      ((s * s') * MRG_Y + t * w' + u * v' + v * u' + w * t')
      ((s * a + t * s') * MRG_Y + u * w' + v * v' + w * u')
      ((s * b + t * a + u * s') * MRG_Y + v * w' + w * v')
      ((s * c + t * b + u * a + v * s') * MRG_Y + w * w') x.
Proof.
  intros a b c d. unfold act at 1. rewrite !act_S1. unfold act. rewrite !S1_recurrence.
  rewrite ?S1_add, ?S1_scale, ?S1_recurrence.
  generalize (S1 (S1 (S1 (S1 x)))), (S1 (S1 (S1 x))), (S1 (S1 x)), (S1 x). intros y4 y3 y2 y1.
  unfold d, c, b, a. generalize MRG_X, MRG_Y. intros X Y.
  apply st_ext; cbn [z1 z2 z3 z4 z5 st_add st_scale]; ring.
Qed.

(** ** The operations compute the linear algebra *)

Section Correct.
Context {ops : ModOps} `{!ModLaws ops}.

(** Run a sequence of modular operations on residues. *)
Ltac mod_op :=
first [ rewrite mod_mul_ok by auto with study | rewrite mod_mac_ok by auto with study
      | rewrite mod_add_ok by auto with study | rewrite mod_mul_x_ok by auto with study
      | rewrite mod_mul_y_ok by auto with study | rewrite mod_mac_y_ok by auto with study
      | rewrite mod_mac2_ok by auto with study | rewrite mod_mac3_ok by auto with study
      | rewrite mod_mac4_ok by auto with study ]; cbn [mbind result_bind].
Ltac mod_ops := cbn [mbind result_bind]; repeat mod_op.

Lemma u32_residue z : residue z -> u32 z = z.
Proof. intros. apply wrap_u_id. unfold residue, P, in_u in *. lia. Qed.

Lemma mrg_update_cache_ok s t u v w :
Forall residue [s; t; u; v; w] ->
exists m, mrg_update_cache s t u v w = inr m /\ mat_ok m /\
  m_s m = s /\ m_t m = t /\ m_u m = u /\ m_v m = v /\ m_w m = w.
Proof.
intros Hr. pose proof Hr as Hr'. rewrite !Forall_cons in Hr. destruct Hr as (? & ? & ? & ? & ? & _).
unfold mrg_update_cache. mod_ops. eexists. split; [done|]. split; [|done].
split; simpl; [done|..]; apply congr_mod; rewrite !congr_reduce; apply congr_eq; ring.
Qed.

Lemma mat_ok_residues m : mat_ok m ->
residue (m_s m) /\ residue (m_t m) /\ residue (m_u m) /\ residue (m_v m) /\ residue (m_w m) /\
residue (m_a m) /\ residue (m_b m) /\ residue (m_c m) /\ residue (m_d m).
Proof.
intros [Hr Ha Hb Hc Hd]. rewrite !Forall_cons in Hr. destruct Hr as (? & ? & ? & ? & ? & _).
rewrite Ha, Hb, Hc, Hd. auto 10 with study.
Qed.

(** The cache modulo [P]. *)
Lemma mat_cache m : mat_ok m ->
m_a m == MRG_X * m_s m + m_t m /\ m_b m == MRG_X * (MRG_X * m_s m + m_t m) + m_u m /\
m_c m == MRG_X * (MRG_X * (MRG_X * m_s m + m_t m) + m_u m) + m_v m /\
m_d m == MRG_X * (MRG_X * (MRG_X * (MRG_X * m_s m + m_t m) + m_u m) + m_v m) + m_w m.
Proof.
intros [_ Ha Hb Hc Hd].
assert (m_a m == MRG_X * m_s m + m_t m) as Ha' by (rewrite Ha; apply congr_reduce).
assert (m_b m == MRG_X * m_a m + m_u m) as Hb' by (rewrite Hb; apply congr_reduce).
assert (m_c m == MRG_X * m_b m + m_v m) as Hc' by (rewrite Hc; apply congr_reduce).
assert (m_d m == MRG_X * m_c m + m_w m) as Hd' by (rewrite Hd; apply congr_reduce).
clear Ha Hb Hc Hd. rewrite Ha' in Hb'. rewrite Hb' in Hc'. rewrite Hc' in Hd'. done.
Qed.

Lemma mrg_multiply_ok m n :
mat_ok m -> mat_ok n ->
exists r, mrg_multiply m n = inr r /\ mat_ok r /\ forall x, st_eqm (mat_act r x) (mat_act m (mat_act n x)).
Proof.
intros Hm Hn. destruct (mat_ok_residues m Hm) as (? & ? & ? & ? & ? & _).
destruct (mat_ok_residues n Hn) as (? & ? & ? & ? & ? & ? & ? & ? & ?).
unfold mrg_multiply. mod_ops. rewrite !u32_residue by auto with study.
match goal with |- context [mrg_update_cache ?s ?t ?u ?v ?w] =>
  destruct (mrg_update_cache_ok s t u v w) as (r & E & Hr & Es & Et & Eu & Ev & Ew);
    [repeat (apply Forall_cons; split; [apply residue_mod|]); constructor|] end.
exists r. split; [done|]. split; [done|]. intros x.
destruct (mat_cache n Hn) as (Ha & Hb & Hc & Hd).
unfold mat_act. rewrite act_multiply, Es, Et, Eu, Ev, Ew.
apply act_proper; [..|done]; rewrite !congr_reduce, ?Ha, ?Hb, ?Hc, ?Hd; apply congr_eq; ring.
Qed.

Lemma mrg_apply_transition_ok m x :
mat_ok m -> st_residue x -> mrg_apply_transition m x = inr (st_mod (mat_act m x)).
Proof.
intros Hm Hx. destruct (mat_ok_residues m Hm) as (? & ? & ? & ? & ? & ? & ? & ? & ?).
destruct Hx as (? & ? & ? & ? & ?). unfold mrg_apply_transition. mod_ops.
destruct (mat_cache m Hm) as (Ha & Hb & Hc & Hd).
unfold mret, result_ret, mat_act, st_mod. f_equal. f_equal; apply congr_mod;
  rewrite !congr_reduce, ?Ha, ?Hb, ?Hc, ?Hd; apply congr_eq;
  unfold act; cbn [z1 z2 z3 z4 z5 st_add st_scale S1]; ring.
Qed.

Lemma mrg_orig_step_ok x : st_residue x -> mrg_orig_step x = inr (st_mod (S1 x)).
Proof.
intros (? & ? & ? & ? & ?). unfold mrg_orig_step. mod_ops.
unfold mret, result_ret, st_mod. f_equal. cbn [S1 z1 z2 z3 z4 z5].
rewrite !(Z.mod_small (_ x)) by done. f_equal. apply congr_mod. rewrite congr_reduce. apply congr_eq. ring.
Qed.

(** *** Matrices that advance the generator [k] steps *)

Definition steps (k : N) (x : mrg_state) : mrg_state := N.iter k S1 x.

#[export] Instance steps_proper k : Proper (st_eqm ==> st_eqm) (steps k).
Proof.
intros x y E. unfold steps. induction k as [|k IH] using N.peano_ind; [done|].
rewrite !N.iter_succ. by rewrite IH.
Qed.

Lemma steps_add j k x : steps (j + k) x = steps j (steps k x).
Proof. apply N.iter_add. Qed.

Definition advances (m : mrg_transition_matrix) (k : N) : Prop :=
mat_ok m /\ forall x, st_eqm (mat_act m x) (steps k x).

Lemma mrg_make_identity_ok : exists m, mrg_make_identity = inr m /\ advances m 0.
Proof.
destruct (mrg_update_cache_ok 0 0 0 0 1) as (m & E & Hm & Es & Et & Eu & Ev & Ew); [by_decide|].
exists m. split; [done|]. split; [done|]. intros x. unfold mat_act. rewrite Es, Et, Eu, Ev, Ew.
apply st_eqm_iff. unfold act. cbn [z1 z2 z3 z4 z5 st_add st_scale S1]. split_and!; apply congr_eq; cbn -[Z.mul Z.add]; ring.
Qed.

Lemma mrg_make_A_ok : exists m, mrg_make_A = inr m /\ advances m 1.
Proof.
destruct (mrg_update_cache_ok 0 0 0 1 0) as (m & E & Hm & Es & Et & Eu & Ev & Ew); [by_decide|].
exists m. split; [done|]. split; [done|]. intros x. unfold mat_act. rewrite Es, Et, Eu, Ev, Ew.
apply st_eqm_iff. unfold act. cbn [z1 z2 z3 z4 z5 st_add st_scale S1]. split_and!; apply congr_eq; cbn -[Z.mul Z.add]; ring.
Qed.

Lemma advances_multiply m n j k :
advances m j -> advances n k -> exists r, mrg_multiply m n = inr r /\ advances r (j + k).
Proof.
intros [Hm Hj] [Hn Hk]. destruct (mrg_multiply_ok m n Hm Hn) as (r & E & Hr & Hact).
exists r. split; [done|]. split; [done|]. intros x. rewrite Hact, Hj, steps_add. apply steps_proper, Hk.
Qed.

(** Square and multiply: what is left to multiply is [e] times the current power. *)
Lemma power_turn_ok res cur e j c :
advances res j -> advances cur c -> 0 < e ->
exists res' cur' j', power_turn (res, cur, e) = inr (res', cur', e / 2) /\
  advances res' j' /\ advances cur' (c + c) /\ (j' + Z.to_N (e / 2) * (c + c) = j + Z.to_N e * c)%N.
Proof.
intros Hres Hcur He. destruct (advances_multiply cur cur c c Hcur Hcur) as (cur' & Ec & Hcur').
destruct (advances_multiply res cur j c Hres Hcur) as (res' & Er & Hres').
pose proof (Z.div_mod e 2 ltac:(lia)) as Hdm. pose proof (Z.mod_pos_bound e 2 ltac:(lia)) as Hmod.
assert (0 <= e / 2) by (apply Z.div_pos; lia).
unfold power_turn. destruct (Z.eqb_spec (e mod 2) 1) as [Hodd|Heven].
- exists res', cur', (j + c)%N. rewrite Er. cbn [mbind result_bind]. rewrite Ec. split_and!; [done..|].
  replace (Z.to_N e) with (2 * Z.to_N (e / 2) + 1)%N by lia. ring.
- exists res, cur', j. cbn [mbind result_bind mret result_ret]. rewrite Ec. split_and!; [done..|].
  replace (Z.to_N e) with (2 * Z.to_N (e / 2))%N by lia. ring.
Qed.

Lemma power_loop_ok fuel res cur e j c :
advances res j -> advances cur c -> 0 <= e < 2 ^ Z.of_nat fuel ->
exists r cur' e', while fuel (fun s => 0 <? s.2) power_turn (res, cur, e) = inr (r, cur', e') /\
  advances r (j + Z.to_N e * c).
Proof.
revert res cur e j c. induction fuel as [|fuel IH]; intros res cur e j c Hres Hcur He.
- assert (e = 0) as -> by (change (2 ^ Z.of_nat 0) with 1 in He; lia).
  exists res, cur, 0. split; [done|]. by rewrite N.add_0_r.
- cbn [while snd]. destruct (Z.ltb_spec 0 e) as [Hpos|Hneg].
  + destruct (power_turn_ok res cur e j c Hres Hcur Hpos) as (res' & cur' & j' & -> & Hres' & Hcur' & <-).
    apply IH; [done..|]. rewrite Nat2Z.inj_succ, Z.pow_succ_r in He by lia.
    split; [apply Z.div_pos; lia|apply Z.div_lt_upper_bound; lia].
  + assert (e = 0) as -> by lia. exists res, cur, 0. split; [done|]. by rewrite N.add_0_r.
Qed.

Lemma mrg_power_ok m k e :
advances m k -> 0 <= e < 2 ^ 32 -> exists r, mrg_power m e = inr r /\ advances r (Z.to_N e * k).
Proof.
intros Hm He. unfold mrg_power. destruct mrg_make_identity_ok as (one & -> & Hone). cbn [mbind result_bind].
destruct (power_loop_ok 32 one m e 0 k Hone Hm He) as (r & cur & e' & -> & Hr). exists r. by split.
Qed.

(** *** [mrg_skip] *)

(** What [mrg_skip] relies on of its table: entry [i][j] advances j * 256^i steps. *)
Definition table_ok (tbl : list (list mrg_transition_matrix)) : Prop :=
forall i j, (i < 24)%nat -> (0 < j < 256)%nat -> exists row m,
  tbl !! i = Some row /\ row !! j = Some m /\ advances m (N.of_nat j * 256 ^ N.of_nat i).

Context (tbl : list (list mrg_transition_matrix)) (Htbl : table_ok tbl).

Lemma mrg_step_ok m k x : advances m k -> st_residue x -> mrg_step m x = inr (st_mod (steps k x)).
Proof.
intros [Hm Hk] Hx. unfold mrg_step. rewrite mrg_apply_transition_ok by done. f_equal. apply Hk.
Qed.

Lemma skip_turn_ok x i e :
st_residue x -> (i < 24)%nat -> 0 <= e ->
exists y, skip_turn tbl (x, i, e) = inr (y, S i, e / 256) /\ st_residue y /\
  y = st_mod (steps (Z.to_N (e mod 256) * 256 ^ N.of_nat i) x).
Proof.
intros Hx Hi He. unfold skip_turn. change 0xFF with (Z.ones 8). rewrite Z.land_ones, Z.shiftr_div_pow2 by lia.
change (2 ^ 8) with 256. pose proof (Z.mod_pos_bound e 256 ltac:(lia)) as Hm.
destruct (Z.eqb_spec (e mod 256) 0) as [E0|Hne]; cbn [negb].
- exists x. rewrite E0. split_and!; [done..|]. symmetry. by apply st_mod_id.
- destruct (Htbl i (Z.to_nat (e mod 256)) Hi ltac:(lia)) as (row & m & -> & Hrow & Hadv).
  cbn [mbind result_bind the]. rewrite Hrow. cbn [mbind result_bind the].
  rewrite (mrg_step_ok m _ x Hadv Hx). eexists. split; [done|]. split; [apply st_mod_residue|].
  do 3 f_equal. lia.
Qed.

Lemma skip_loop_ok fuel x i e :
st_residue x -> (i + fuel <= 24)%nat -> 0 <= e < 256 ^ Z.of_nat fuel ->
exists j e', while fuel (fun s => negb (s.2 =? 0)) (skip_turn tbl) (x, i, e) =
  inr (st_mod (steps (Z.to_N e * 256 ^ N.of_nat i) x), j, e').
Proof.
revert x i e. induction fuel as [|fuel IH]; intros x i e Hx Hi He.
- assert (e = 0) as -> by (change (256 ^ Z.of_nat 0) with 1 in He; lia).
  exists i, 0. simpl. by rewrite st_mod_id.
- cbn [while snd]. destruct (Z.eqb_spec e 0) as [->|Hne]; cbn [negb].
  { exists i, 0. simpl. by rewrite st_mod_id. }
  destruct (skip_turn_ok x i e Hx ltac:(lia) ltac:(lia)) as (y & -> & Hy & Ey). cbn [mbind result_bind].
  rewrite Nat2Z.inj_succ, Z.pow_succ_r in He by lia.
  destruct (IH y (S i) (e / 256) Hy ltac:(lia)) as (j & e' & ->).
  { split; [apply Z.div_pos; lia|apply Z.div_lt_upper_bound; lia]. }
  exists j, e'. do 3 f_equal. change (st_eqm (steps (Z.to_N (e / 256) * 256 ^ N.of_nat (S i)) y)
    (steps (Z.to_N e * 256 ^ N.of_nat i) x)).
  rewrite Ey, st_mod_eqm, <- steps_add. rewrite Nat2N.inj_succ, N.pow_succ_r'.
  pose proof (Z.div_mod e 256 ltac:(lia)). pose proof (Z.mod_pos_bound e 256 ltac:(lia)).
  assert (0 <= e / 256) by (apply Z.div_pos; lia).
  replace (Z.to_N e) with (256 * Z.to_N (e / 256) + Z.to_N (e mod 256))%N by lia.
  match goal with |- st_eqm (steps ?a x) (steps ?b x) => replace a with b by ring end. done.
Qed.

Lemma skip_word_ok x i e :
st_residue x -> (i + 8 <= 24)%nat -> 0 <= e < 2 ^ 64 ->
skip_word tbl i e x = inr (st_mod (steps (Z.to_N e * 256 ^ N.of_nat i) x)).
Proof.
intros Hx Hi He. unfold skip_word. by destruct (skip_loop_ok 8 x i e Hx Hi He) as (j & e' & ->).
Qed.

(** The exponent as one 192-bit number. *)
Definition exponent (high middle low : Z) : N := (Z.to_N high * 2 ^ 128 + Z.to_N middle * 2 ^ 64 + Z.to_N low)%N.

Lemma mrg_skip_ok x high middle low :
st_residue x -> in_u 64 high -> in_u 64 middle -> in_u 64 low ->
mrg_skip tbl x high middle low = inr (st_mod (steps (exponent high middle low) x)).
Proof.
intros Hx Hh Hm Hl. unfold mrg_skip. rewrite (skip_word_ok x 0 low) by (done || lia). cbn [mbind result_bind].
rewrite skip_word_ok by (apply st_mod_residue || done || lia). cbn [mbind result_bind].
rewrite skip_word_ok by (apply st_mod_residue || done || lia). f_equal.
change (st_eqm (steps (Z.to_N high * 256 ^ 16) (st_mod (steps (Z.to_N middle * 256 ^ 8)
  (st_mod (steps (Z.to_N low * 256 ^ 0) x))))) (steps (exponent high middle low) x)).
rewrite st_mod_eqm, st_mod_eqm, <- !steps_add. unfold exponent.
match goal with |- st_eqm (steps ?a x) (steps ?b x) => replace a with b; [done|] end.
change (256 ^ 16)%N with (2 ^ 128)%N. change (256 ^ 8)%N with (2 ^ 64)%N. change (256 ^ 0)%N with 1%N. ring.
Qed.

(** [k] calls of [mrg_orig_step] in a row. *)
Definition orig_steps (k : N) (x : mrg_state) : result mrg_state := N.iter k (fun r => r ≫= mrg_orig_step) (inr x).

Lemma orig_steps_ok k x : st_residue x -> orig_steps k x = inr (st_mod (steps k x)).
Proof.
intros Hx. unfold orig_steps, steps. induction k as [|k IH] using N.peano_ind; simpl; [by rewrite st_mod_id|].
rewrite !N.iter_succ, IH. cbn [mbind result_bind]. rewrite mrg_orig_step_ok by apply st_mod_residue. f_equal.
apply S1_proper, st_mod_eqm.
Qed.
End Correct.
