(* ===== verification/MrgTable.v ===== *)
(** * The table of transition matrices

    [dump_mrg_powers] of [generator/splittable_mrg.c], which printed
    mrg_transitions.c: every entry advances the generator by the number of steps
    [mrg_skip] takes it for, so [mrg_skip] jumps exactly.  The start of the first
    block of mrg_transitions.c and the first power of each of its 24 blocks are
    compared with what the function computes. *)

From S2P Require Import Prelude ModArith Mrg.

Section Dump.
Context {ops : ModOps}.

(** The first rows of a block: the identity, the block's base, and its powers up to [n + 1]. *)
Definition dump_rows (n : nat) (base : mrg_transition_matrix) : result (list mrg_transition_matrix) :=
one ← mrg_make_identity;
for_each (fun row j => m ← mrg_power base (Z.of_nat j); mret (row ++ [m])) [one; base] (seq 2 n).

Definition dump_row := dump_rows 254.

(** The next block: its base is [mrg_power(&transitions[i - 1], 256, ...)]. *)
Definition dump_step (acc : list (list mrg_transition_matrix) * mrg_transition_matrix) (i : nat) :=
base ← mrg_power acc.2 256; row ← dump_row base; mret (acc.1 ++ [row], base).

Definition dump_mrg_powers : result (list (list mrg_transition_matrix)) :=
base ← mrg_make_A;
row ← dump_row base;
acc ← for_each dump_step ([row], base) (seq 1 23);
mret acc.1.
End Dump.

Section Correct.
Context {ops : ModOps} `{!ModLaws ops}.

Lemma dump_row_ok base k :
advances base k ->
exists row, dump_row base = inr row /\ forall j, (0 < j < 256)%nat -> exists m,
  row !! j = Some m /\ advances m (N.of_nat j * k).
Proof.
intros Hb. unfold dump_row, dump_rows. destruct mrg_make_identity_ok as (one & -> & Hone). cbn [mbind result_bind].
destruct (for_each_inv (fun pre row => length row = (2 + length pre)%nat /\
    forall j, (0 < j < 2 + length pre)%nat -> exists m, row !! j = Some m /\ advances m (N.of_nat j * k))
  (fun row j => m ← mrg_power base (Z.of_nat j); mret (row ++ [m])) [one; base] (seq 2 254))
  as (row & -> & Hlen & Hrow).
- split; [done|]. intros j Hj. simpl in Hj. assert (j = 1)%nat as -> by lia. exists base.
  split; [done|]. by rewrite N.mul_1_l.
- intros pre j post row Epre [Hlen Hrow].
  assert (j = 2 + length pre)%nat as ->.
  { pose proof (f_equal (fun l => l !! length pre) Epre) as E. rewrite list_lookup_middle in E by done.
    apply lookup_seq in E. lia. }
  assert (length pre < 254)%nat as Hpre.
  { apply (f_equal length) in Epre. rewrite length_seq, length_app in Epre. simpl in Epre. lia. }
  destruct (mrg_power_ok base k (Z.of_nat (2 + length pre)) Hb ltac:(lia)) as (m & -> & Hm).
  cbn [mbind result_bind]. eexists. split; [done|]. rewrite !length_app. simpl. split; [lia|].
  intros j Hj. destruct (decide (j = 2 + length pre)%nat) as [->|Hne].
  + exists m. rewrite lookup_app_r, Hlen, Nat.sub_diag by lia. split; [done|].
    replace (N.of_nat (2 + length pre)) with (Z.to_N (Z.of_nat (2 + length pre))) by lia. done.
  + destruct (Hrow j ltac:(lia)) as (m' & Hm' & Hadv). exists m'. split; [|done].
    rewrite lookup_app_l by (rewrite Hlen; lia). done.
- exists row. split; [done|]. intros j Hj. apply Hrow. rewrite length_seq. lia.
Qed.

Lemma dump_mrg_powers_ok : exists tbl, dump_mrg_powers = inr tbl /\ table_ok tbl.
Proof.
unfold dump_mrg_powers. destruct mrg_make_A_ok as (A & -> & HA). cbn [mbind result_bind].
destruct (dump_row_ok A 1 HA) as (row0 & -> & Hrow0). cbn [mbind result_bind].
destruct (for_each_inv (fun pre '(tbl, base) => length tbl = (1 + length pre)%nat /\
    advances base (256 ^ N.of_nat (length pre)) /\
    forall i j, (i < 1 + length pre)%nat -> (0 < j < 256)%nat -> exists row m, tbl !! i = Some row /\
      row !! j = Some m /\ advances m (N.of_nat j * 256 ^ N.of_nat i))
  dump_step ([row0], A) (seq 1 23)) as ([tbl base] & -> & Hlen & _ & Htbl).
- split_and!; [done|done|]. intros i j Hi Hj. simpl in Hi. assert (i = 0)%nat as -> by lia.
  destruct (Hrow0 j Hj) as (m & Hm & Hadv). by exists row0, m.
- intros pre x post [tbl base] _ (Hlen & Hbase & Htbl). unfold dump_step. cbn [fst snd].
  destruct (mrg_power_ok base _ 256 Hbase ltac:(lia)) as (base' & -> & Hbase'). cbn [mbind result_bind].
  replace (Z.to_N 256 * 256 ^ N.of_nat (length pre))%N with (256 ^ N.of_nat (S (length pre)))%N in Hbase'
    by (rewrite Nat2N.inj_succ, N.pow_succ_r'; reflexivity).
  destruct (dump_row_ok base' _ Hbase') as (row & -> & Hrow). cbn [mbind result_bind].
  eexists. split; [done|]. rewrite !length_app. cbn [length]. rewrite (Nat.add_1_r (length pre)).
  split_and!; [lia|done|]. intros i j Hi Hj. destruct (decide (i = S (length pre))) as [->|Hne].
  + destruct (Hrow j Hj) as (m & Hm & Hadv). exists row, m. split_and!; [|done..].
    rewrite lookup_app_r, Hlen by lia. by rewrite Nat.sub_diag.
  + destruct (Htbl i j ltac:(lia) Hj) as (row' & m & Hrow' & Hm & Hadv). exists row', m. split_and!; [|done..].
    rewrite lookup_app_l by (rewrite Hlen; lia). done.
- exists tbl. split; [done|]. intros i j Hi Hj. apply Htbl; [|done]. rewrite length_seq. lia.
Qed.

(** C32: with the table [dump_mrg_powers] writes, [mrg_skip] by a 192-bit exponent leaves
  the generator exactly where that many single steps would, for every state and in
  both implementations of the modular arithmetic; no assertion fails and no table
  entry is out of range. *)
Theorem mrg_skip_correct x high middle low :
st_residue x -> in_u 64 high -> in_u 64 middle -> in_u 64 low ->
exists tbl, dump_mrg_powers = inr tbl /\
  mrg_skip tbl x high middle low = orig_steps (exponent high middle low) x.
Proof.
intros Hx Hh Hm Hl. destruct dump_mrg_powers_ok as (tbl & E & Htbl). exists tbl. split; [done|].
rewrite orig_steps_ok by done. by apply mrg_skip_ok.
Qed.
End Correct.

(** ** Comparison with mrg_transitions.c *)

(** Rows 0 to 31 of block 0. *)
Definition mrg_skip_matrices_start : list mrg_transition_matrix := [
  mk_mat 0 0 0 0 1 0 0 0 1;
  mk_mat 0 0 0 1 0 0 0 1 107374182;
  mk_mat 0 0 1 0 0 0 1 107374182 177167401;
  mk_mat 0 1 0 0 0 1 107374182 177167401 45365592;
  mk_mat 1 0 0 0 0 107374182 177167401 45365592 1272612231;
  mk_mat 107374182 0 0 0 104480 177167401 45365592 1272612231 735806205;
  mk_mat 177167401 0 0 104480 2147447079 45365592 1272612231 735806205 279302172;
  mk_mat 45365592 0 104480 2147447079 1288502987 1272612231 735806205 279302172 331753768;
  mk_mat 1272612231 104480 2147447079 1288502987 300643231 735806205 279302172 331753768 1043522871;
  mk_mat 735806205 2147447079 1288502987 300643231 1075890875 279302172 331753768 1043522871 1891773876;
  mk_mat 279302172 1288502987 300643231 1075890875 1412703094 331753768 1043522871 1891773876 321085508;
  mk_mat 331753768 300643231 1075890875 1412703094 1483135124 1043522871 1891773876 321085508 82265008;
  mk_mat 1043522871 1075890875 1412703094 1483135124 1247618060 1891773876 321085508 82265008 2077818766;
  mk_mat 1891773876 1412703094 1483135124 1247618060 1672287537 321085508 82265008 2077818766 1589296063;
  mk_mat 321085508 1483135124 1247618060 1672287537 287178247 82265008 2077818766 1589296063 53047172;
  mk_mat 82265008 1247618060 1672287537 287178247 1171826053 2077818766 1589296063 53047172 294266084;
  mk_mat 2077818766 1672287537 287178247 1171826053 818480546 1589296063 53047172 294266084 1144984146;
  mk_mat 1589296063 287178247 1171826053 818480546 1382796450 53047172 294266084 1144984146 1626297093;
  mk_mat 53047172 1171826053 818480546 1382796450 1922108906 294266084 1144984146 1626297093 601285647;
  mk_mat 294266084 818480546 1382796450 1922108906 1860721300 1144984146 1626297093 601285647 254406953;
  mk_mat 1144984146 1382796450 1922108906 1860721300 1544565868 1626297093 601285647 254406953 703904158;
  mk_mat 1626297093 1922108906 1860721300 1544565868 219534298 601285647 254406953 703904158 1905903125;
  mk_mat 601285647 1860721300 1544565868 219534298 171675059 254406953 703904158 1905903125 41479877;
  mk_mat 254406953 1544565868 219534298 171675059 1985272869 703904158 1905903125 41479877 1648632365;
  mk_mat 703904158 219534298 171675059 1985272869 1033350521 1905903125 41479877 1648632365 993200105;
  mk_mat 1905903125 171675059 1985272869 1033350521 1181452678 41479877 1648632365 993200105 1370703553;
  mk_mat 41479877 1985272869 1033350521 1181452678 1189848278 1648632365 993200105 1370703553 2105966405;
  mk_mat 1648632365 1033350521 1181452678 1189848278 195549314 993200105 1370703553 2105966405 2142815631;
  mk_mat 993200105 1181452678 1189848278 195549314 1593652977 1370703553 2105966405 2142815631 2024783512;
  mk_mat 1370703553 1189848278 195549314 1593652977 989663713 2105966405 2142815631 2024783512 1569479672;
  mk_mat 2105966405 195549314 1593652977 989663713 1865249951 2142815631 2024783512 1569479672 456938607;
  mk_mat 2142815631 1593652977 989663713 1865249951 195522780 2024783512 1569479672 456938607 787213544].

(** Row 1 of each of the 24 blocks. *)
Definition mrg_skip_matrices_bases : list mrg_transition_matrix := [
  mk_mat 0 0 0 1 0 0 0 1 107374182;
  mk_mat 312693939 1918714349 1659162940 1448846219 1653915565 1701897288 1922492348 1634967356 652180261;
  mk_mat 1841195089 1488605044 70958207 42299766 358764160 1810554404 2014244542 1699546188 622916453;
  mk_mat 1508012513 2017431394 364496407 468402026 1594355142 738007738 2038928981 2009634712 31989534;
  mk_mat 2061690300 280993994 670311578 1353395404 775658222 1706886036 1790888383 1048707017 86488219;
  mk_mat 515769131 142138076 1097629934 1998204213 98420724 1142734886 1341917818 1313784612 927086298;
  mk_mat 1010845446 1185423608 974952887 195798204 965458505 1475872796 28900679 78308784 1367547160;
  mk_mat 123134746 357661612 104256492 1229661191 1116680535 958809545 305544063 1444843316 181488645;
  mk_mat 76622690 1262953926 691591548 1420879705 677234486 162394161 742127774 516889890 1570064848;
  mk_mat 619049912 1079722514 1354807971 149667838 1552977993 4061586 1997631510 524238633 617875195;
  mk_mat 1115622606 1978542745 616051321 579961529 1895225671 84836280 586358623 696858558 1436576811;
  mk_mat 1398966622 1157247437 916238461 182928118 1809268605 882357484 1036910071 1001125599 1351500463;
  mk_mat 696788222 1812096040 882428843 1609134457 1078616037 1782968527 1010009135 718760348 1686043374;
  mk_mat 1200494274 584421010 351652233 1469897113 258880152 1667486567 519651211 321651548 1005295569;
  mk_mat 2053962982 47231560 707464806 1440754982 854145785 1690576528 974756480 1099590214 1972527763;
  mk_mat 623694405 1576373966 1333266485 556951101 1726684937 1894951836 240536613 1868627657 750542710;
  mk_mat 223523295 1025489125 1401138388 1931651083 397527729 410385060 1257503617 1169402270 1061978758;
  mk_mat 455019054 1550225934 132415801 1617396107 1976346353 746724171 1052178347 2000752962 1490831181;
  mk_mat 1753405884 1769995508 1751487212 587978929 268979410 1585800178 981708785 781251766 639786386;
  mk_mat 224069202 940167678 1265804454 187150741 625651655 1076491822 1103780681 2055685332 1194651977;
  mk_mat 2057004684 1493057145 1403435589 293942661 1174538212 1202602235 445653895 1748576533 1958400796;
  mk_mat 210997660 1557582898 1719011835 1944147003 409192291 1483733717 877582487 241128762 539545589;
  mk_mat 830479910 1794659137 289793637 1628702739 1294382859 430249345 676077278 1177327327 1633937571;
  mk_mat 888704518 1662553068 513723693 942116488 754406834 1136758122 330606715 289533226 1297315299].

(** The first power of every block, without the blocks' rows. *)
Definition dump_bases `{ModOps} : result (list mrg_transition_matrix) :=
  base ← mrg_make_A;
  '(bs, _) ← for_each (fun '(bs, base) _ => base ← mrg_power base 256; mret (bs ++ [base], base)) ([base], base) (seq 1 23);
  mret bs.

Example mrg_transitions_bases : @dump_bases (ops_64 64) = inr mrg_skip_matrices_bases.
Proof. vm_compute. reflexivity. Qed.

Example mrg_transitions_start :
  (base ← @mrg_make_A (ops_64 64); @dump_rows (ops_64 64) 30 base) = inr mrg_skip_matrices_start.
Proof. vm_compute. reflexivity. Qed.

Lemma mrg_skip_correct_witness :
  exists tbl, @dump_mrg_powers (ops_64 64) = inr tbl /\
    @mrg_skip (ops_64 64) tbl (mk_st 1 2 3 4 5) 50 7 3 = @orig_steps (ops_64 64) (exponent 50 7 3) (mk_st 1 2 3 4 5).
Proof.
  apply (@mrg_skip_correct (ops_64 64) (laws_64 64 ltac:(lia)) (mk_st 1 2 3 4 5) 50 7 3);
    unfold st_residue, residue, P, in_u; simpl; lia.
Defined.
