(* ===== verification/Scramble.v ===== *)
(** * Vertex scrambling and packed edges

    [bitreverse], [scramble] of [generator/graph_generator.c] and the edge
    accessors of [generator/graph_generator.h].  [bitreverse] is modelled in the
    forms its preprocessor conditions select; all of them move bit [i] to bit
    [63 - i], and [scramble] permutes the vertex numbers. *)

From Stdlib Require Import Znumtheory Zpow_facts.
From S2P Require Import Prelude.

(** ** Bit reversal *)

(** One butterfly: [((x >> k) & mask) | ((x & mask) << k)] at width [w]. *)
Definition swap_bits (w k mask x : Z) : Z :=
  Z.lor (Z.land (Z.shiftr x k) mask) (wrap_u w (Z.shiftl (Z.land x mask) k)).
(** [(x >> k) | (x << k)] at width [w]. *)
Definition rotate_half (w k x : Z) : Z := Z.lor (Z.shiftr x k) (wrap_u w (Z.shiftl x k)).

(** [__builtin_bswap64] and [__builtin_bswap32]: the bytes in reverse order. *)
Definition bswap (n : nat) (x : Z) : Z :=
  foldr (fun i acc => Z.lor (Z.shiftl (Z.land (Z.shiftr x (8 * Z.of_nat i)) 0xFF) (8 * Z.of_nat (n - 1 - i))) acc)
    0 (seq 0 n).

(** Byte reversal with and without [USE_GCC_BYTESWAP]. *)
Definition byteswap_64 (use_gcc_byteswap : bool) (x : Z) : Z :=
  if use_gcc_byteswap then bswap 8 x
  else swap_bits 64 8 0x00FF00FF00FF00FF (swap_bits 64 16 0x0000FFFF0000FFFF (rotate_half 64 32 x)).
Definition byteswap_32 (use_gcc_byteswap : bool) (x : Z) : Z :=
  if use_gcc_byteswap then bswap 4 x
  else swap_bits 32 8 0x00FF00FF (rotate_half 32 16 x).

(** With [FAST_64BIT_ARITHMETIC]. *)
Definition bitreverse_64 (use_gcc_byteswap : bool) (x : Z) : Z :=
  swap_bits 64 1 0x5555555555555555 (swap_bits 64 2 0x3333333333333333
    (swap_bits 64 4 0x0F0F0F0F0F0F0F0F (byteswap_64 use_gcc_byteswap x))).

(** Without it: the halves are reversed and swapped. *)
Definition bitreverse_half (use_gcc_byteswap : bool) (x : Z) : Z :=
  swap_bits 32 1 0x55555555 (swap_bits 32 2 0x33333333
    (swap_bits 32 4 0x0F0F0F0F (byteswap_32 use_gcc_byteswap x))).
Definition bitreverse_32 (use_gcc_byteswap : bool) (x : Z) : Z :=
  let h := bitreverse_half use_gcc_byteswap (u32 (Z.shiftr x 32)) in
  let l := bitreverse_half use_gcc_byteswap (u32 (Z.land x 0xFFFFFFFF)) in
  Z.lor (u64 (Z.shiftl l 32)) h.

Definition bitreverse (fast_64bit use_gcc_byteswap : bool) (x : Z) : Z :=
  if fast_64bit then bitreverse_64 use_gcc_byteswap x else bitreverse_32 use_gcc_byteswap x.

(** ** Scrambling *)

(** [v >> k] on a 64-bit type: undefined unless [0 <= k < 64]. *)
Definition shift_right_64 (v k : Z) : result Z :=
  _ ← defined_if ((0 <=? k) && (k <? 64)); mret (Z.shiftr v k).

Section Config.
Context (fast_64bit use_gcc_byteswap : bool).

(** One half of [scramble]: multiply, reverse, keep the low [lgN] bits, and the
  assertion. *)
Definition scramble_round (lgN m v : Z) : result Z :=
v ← shift_right_64 (bitreverse fast_64bit use_gcc_byteswap (u64 (v * m))) (64 - lgN);
t ← shift_right_64 v lgN;
_ ← assert (t =? 0);
mret v.

Definition scramble (v0 lgN val0 val1 : Z) : result Z :=
let v := u64 (u64 v0 + u64 (val0 + val1)) in
v ← scramble_round lgN (Z.lor val0 0x4519840211493211) v;
v ← scramble_round lgN (Z.lor val1 0x3050852102C843A5) v;
mret (i64 v).
End Config.

(** ** Edges *)

Record packed_edge := mk_edge { v0_low : Z; v1_low : Z; high : Z }.
#[export] Instance packed_edge_eq_dec : EqDecision packed_edge.
Proof. solve_decision. Defined.

Definition get_v0_from_edge (p : packed_edge) : Z := Z.lor (v0_low p) (Z.shiftl (i16 (Z.land (high p) 0xFFFF)) 32).
Definition get_v1_from_edge (p : packed_edge) : Z := Z.lor (v1_low p) (Z.shiftl (i16 (Z.shiftr (high p) 16)) 32).
Definition write_edge (v0 v1 : Z) : packed_edge :=
  mk_edge (u32 v0) (u32 v1)
    (u32 (Z.lor (Z.land (Z.shiftr v0 32) 0xFFFF) (Z.shiftl (Z.land (Z.shiftr v1 32) 0xFFFF) 16))).

(** ** Reversal moves bit [i] to bit [63 - i]

    Every step distributes over bitwise or, so it is enough to know the images of
    the 64 powers of two. *)

Class Additive (f : Z -> Z) : Prop := {
  additive_0 : f 0 = 0;
  additive_lor x y : f (Z.lor x y) = Z.lor (f x) (f y);
}.

Lemma wrap_u_land w z : 0 <= w -> wrap_u w z = Z.land z (Z.ones w).
Proof. intros. symmetry. by apply Z.land_ones. Qed.

#[export] Instance additive_compose f g : Additive f -> Additive g -> Additive (fun x => f (g x)).
Proof. intros [? Hf] [E Hg]. split; [by rewrite E|]. intros. by rewrite Hg, Hf. Qed.
#[export] Instance additive_or f g : Additive f -> Additive g -> Additive (fun x => Z.lor (f x) (g x)).
Proof.
  intros [E1 Hf] [E2 Hg]. split; [by rewrite E1, E2|]. intros x y. rewrite Hf, Hg.
  apply Z.bits_inj'. intros n Hn. rewrite !Z.lor_spec. by destruct (Z.testbit _ n), (Z.testbit _ n), (Z.testbit _ n), (Z.testbit _ n).
Qed.
Lemma additive_id : Additive (fun x => x).
Proof. by split. Qed.
Lemma additive_zero : Additive (fun _ => 0).
Proof. by split. Qed.
Lemma additive_land m : Additive (fun x => Z.land x m).
Proof. split; [apply Z.land_0_l|]. intros. apply Z.land_lor_distr_l. Qed.
Lemma additive_shiftr k : Additive (fun x => Z.shiftr x k).
Proof. split; [apply Z.shiftr_0_l|]. intros. apply Z.shiftr_lor. Qed.
Lemma additive_shiftl k : Additive (fun x => Z.shiftl x k).
Proof. split; [apply Z.shiftl_0_l|]. intros. apply Z.shiftl_lor. Qed.
Lemma additive_wrap w : 0 <= w -> Additive (wrap_u w).
Proof. intros. split; [done|]. intros. rewrite !wrap_u_land by done. apply Z.land_lor_distr_l. Qed.

Lemma swap_bits_additive w k mask : 0 <= w -> Additive (swap_bits w k mask).
Proof.
  intros. unfold swap_bits. apply additive_or.
  - apply (additive_compose (fun y => Z.land y mask)); [apply additive_land|apply additive_shiftr].
  - apply (additive_compose (wrap_u w)); [by apply additive_wrap|].
    apply (additive_compose (fun y => Z.shiftl y k)); [apply additive_shiftl|apply additive_land].
Qed.
Lemma rotate_half_additive w k : 0 <= w -> Additive (rotate_half w k).
Proof.
  intros. unfold rotate_half. apply additive_or; [apply additive_shiftr|].
  apply (additive_compose (wrap_u w)); [by apply additive_wrap|apply additive_shiftl].
Qed.
Lemma bswap_additive n : Additive (bswap n).
Proof.
  unfold bswap. induction (seq 0 n) as [|i l IH]; simpl; [apply additive_zero|].
  apply additive_or; [|done].
  apply (additive_compose (fun y => Z.shiftl y _)); [apply additive_shiftl|].
  apply (additive_compose (fun y => Z.land y _)); [apply additive_land|apply additive_shiftr].
Qed.

Lemma bitreverse_64_additive g : Additive (bitreverse_64 g).
Proof.
  unfold bitreverse_64. apply (additive_compose (swap_bits _ _ _)); [by apply swap_bits_additive|].
  do 2 (apply (additive_compose (swap_bits _ _ _)); [by apply swap_bits_additive|]).
  unfold byteswap_64. destruct g; [apply bswap_additive|].
  do 2 (apply (additive_compose (swap_bits _ _ _)); [by apply swap_bits_additive|]).
  by apply rotate_half_additive.
Qed.
Lemma bitreverse_half_additive g : Additive (bitreverse_half g).
Proof.
  unfold bitreverse_half.
  do 3 (apply (additive_compose (swap_bits _ _ _)); [by apply swap_bits_additive|]).
  unfold byteswap_32. destruct g; [apply bswap_additive|].
  apply (additive_compose (swap_bits _ _ _)); [by apply swap_bits_additive|]. by apply rotate_half_additive.
Qed.
Lemma bitreverse_32_additive g : Additive (bitreverse_32 g).
Proof.
  unfold bitreverse_32. cbv zeta. apply additive_or.
  - apply (additive_compose (wrap_u 64)); [by apply additive_wrap|].
    apply (additive_compose (fun y => Z.shiftl y 32)); [apply additive_shiftl|].
    apply (additive_compose (bitreverse_half g)); [apply bitreverse_half_additive|].
    apply (additive_compose (wrap_u 32)); [by apply additive_wrap|apply additive_land].
  - apply (additive_compose (bitreverse_half g)); [apply bitreverse_half_additive|].
    apply (additive_compose (wrap_u 32)); [by apply additive_wrap|apply additive_shiftr].
Qed.

(** A number is the or of its powers of two. *)
Definition bit_at (x : Z) (i : nat) : Z := if Z.testbit x (Z.of_nat i) then 2 ^ Z.of_nat i else 0.

Lemma bits_sum x n : in_u (Z.of_nat n) x -> x = foldr Z.lor 0 (bit_at x <$> seq 0 n).
Proof.
  intros Hx. apply Z.bits_inj'. intros k Hk.
  assert (forall l, Z.testbit (foldr Z.lor 0 (bit_at x <$> l)) k = bool_decide (Z.to_nat k ∈ l) && Z.testbit x k) as ->.
  { induction l as [|i l IH]; csimpl; [by rewrite Z.bits_0|]. rewrite Z.lor_spec, IH. unfold bit_at.
    destruct (decide (i = Z.to_nat k)) as [->|Hne].
    - rewrite Z2Nat.id by done. rewrite (bool_decide_true (_ ∈ _ :: _)) by left.
      destruct (Z.testbit x k) eqn:E; [by rewrite Z.pow2_bits_true by done|]. by rewrite Z.bits_0, andb_false_r.
    - rewrite (bool_decide_ext (Z.to_nat k ∈ i :: l) (Z.to_nat k ∈ l)) by (rewrite elem_of_cons; naive_solver).
      destruct (Z.testbit x (Z.of_nat i)); [|by rewrite Z.bits_0]. rewrite Z.pow2_bits_false by lia. done. }
  destruct (decide (k < Z.of_nat n)) as [Hlt|Hge].
  - by rewrite bool_decide_true by (apply elem_of_seq; lia).
  - rewrite bool_decide_false by (rewrite elem_of_seq; lia). simpl.
    destruct Hx. destruct (decide (x = 0)) as [->|]; [apply Z.bits_0|].
    apply Z.bits_above_log2; [lia|]. apply Z.log2_lt_pow2; [lia|].
    apply Z.lt_le_trans with (2 ^ Z.of_nat n); [done|]. apply Z.pow_le_mono_r; lia.
Qed.

Lemma additive_sum f l : Additive f -> f (foldr Z.lor 0 l) = foldr Z.lor 0 (f <$> l).
Proof. intros [E H]. induction l as [|x l IH]; csimpl; [done|]. by rewrite H, IH. Qed.

Lemma additive_ext f g n :
  Additive f -> Additive g -> Forall (fun i => f (2 ^ Z.of_nat i) = g (2 ^ Z.of_nat i)) (seq 0 n) ->
  forall x, in_u (Z.of_nat n) x -> f x = g x.
Proof.
  intros Hf Hg Hpow x Hx. rewrite (bits_sum x n Hx), !additive_sum by done. f_equal.
  rewrite <- !list_fmap_compose. apply list_fmap_ext. intros k i Hi. apply list_elem_of_lookup_2 in Hi. unfold compose, bit_at.
  rewrite Forall_forall in Hpow. destruct (Z.testbit _ _); [by apply Hpow|]. by rewrite !additive_0.
Qed.

(** The reference: the number whose bit [i] is bit [63 - i] of [x]. *)
Definition reversed (x : Z) : Z :=
  foldr (fun i acc => Z.lor (Z.shiftl (Z.land (Z.shiftr x (Z.of_nat i)) 1) (63 - Z.of_nat i)) acc) 0 (seq 0 64).

Lemma reversed_additive : Additive reversed.
Proof.
  unfold reversed. induction (seq 0 64) as [|i l IH]; simpl; [apply additive_zero|].
  apply additive_or; [|done].
  apply (additive_compose (fun y => Z.shiftl y _)); [apply additive_shiftl|].
  apply (additive_compose (fun y => Z.land y _)); [apply additive_land|apply additive_shiftr].
Qed.

Lemma bitreverse_reversed fast g x : in_u 64 x -> bitreverse fast g x = reversed x.
Proof.
  intros Hx. apply (additive_ext (bitreverse fast g) reversed 64); [| |destruct fast, g; by_decide|done].
  - destruct fast; [apply bitreverse_64_additive|apply bitreverse_32_additive].
  - apply reversed_additive.
Qed.

Lemma reversed_testbit x j : 0 <= j < 64 -> Z.testbit (reversed x) j = Z.testbit x (63 - j).
Proof.
  intros Hj. unfold reversed.
  assert (forall l, Z.testbit (foldr (fun i acc => Z.lor (Z.shiftl (Z.land (Z.shiftr x (Z.of_nat i)) 1) (63 - Z.of_nat i)) acc) 0 l) j
    = bool_decide (Z.to_nat (63 - j) ∈ l) && Z.testbit x (63 - j)) as ->.
  { induction l as [|i l IH]; csimpl; [by rewrite Z.bits_0|]. rewrite Z.lor_spec, IH, Z.shiftl_spec, Z.land_spec by lia.
    change 1 with (Z.ones 1). destruct (decide (i = Z.to_nat (63 - j))) as [->|Hne].
    - rewrite (bool_decide_true (_ ∈ _ :: _)) by left. rewrite Z.testbit_ones_nonneg by lia. rewrite Z.shiftr_spec by lia.
      rewrite Z2Nat.id by lia. replace (j - (63 - (63 - j))) with 0 by lia. rewrite Z.add_0_l. simpl.
      rewrite andb_true_r. destruct (Z.testbit x (63 - j)); [done|]. by rewrite andb_false_r.
    - rewrite (bool_decide_ext (_ ∈ i :: l) (Z.to_nat (63 - j) ∈ l)) by (rewrite elem_of_cons; naive_solver).
      destruct (decide (j - (63 - Z.of_nat i) < 0)); [by rewrite (Z.testbit_neg_r (Z.shiftr _ _)) by lia|].
      rewrite Z.testbit_ones_nonneg by lia. rewrite (proj2 (Z.ltb_ge _ _)) by lia. by rewrite andb_false_r. }
  by rewrite bool_decide_true by (apply elem_of_seq; lia).
Qed.

Lemma reversed_above x j : 64 <= j -> Z.testbit (reversed x) j = false.
Proof.
  intros Hj. unfold reversed. induction (seq 0 64) as [|i l IH]; csimpl; [apply Z.bits_0|].
  rewrite Z.lor_spec, IH, Z.shiftl_spec, Z.land_spec by lia. change 1 with (Z.ones 1).
  rewrite Z.testbit_ones_nonneg by lia. rewrite (proj2 (Z.ltb_ge _ _)) by lia. by rewrite andb_false_r.
Qed.

Lemma reversed_range x : in_u 64 (reversed x).
Proof.
  assert (reversed x = Z.land (reversed x) (Z.ones 64)) as ->.
  { apply Z.bits_inj'. intros k Hk. rewrite Z.land_spec, Z.testbit_ones_nonneg by lia.
    destruct (Z.ltb_spec k 64); [by rewrite andb_true_r|]. by rewrite reversed_above, andb_false_r by lia. }
  rewrite Z.land_ones by lia. by apply (wrap_u_range 64).
Qed.

(** *** The low [n] bits, reversed *)

Definition low_reversed (n x : Z) : Z := Z.shiftr (reversed x) (64 - n).

Lemma low_reversed_range n x : 0 <= n <= 64 -> in_u n (low_reversed n x).
Proof.
  intros Hn. unfold low_reversed. rewrite Z.shiftr_div_pow2 by lia. destruct (reversed_range x) as [H0 H1].
  split; [apply Z.div_pos; [done|apply pow2_pos; lia]|].
  apply Z.div_lt_upper_bound; [apply pow2_pos; lia|]. rewrite <- Z.pow_add_r by lia. by replace (64 - n + n) with 64 by lia.
Qed.

Lemma low_reversed_inj n x y : 0 <= n <= 64 -> low_reversed n x = low_reversed n y -> x mod 2 ^ n = y mod 2 ^ n.
Proof.
  intros Hn E. apply Z.bits_inj'. intros k Hk.
  destruct (decide (k < n)); [|by rewrite !Z.mod_pow2_bits_high by lia].
  rewrite !Z.mod_pow2_bits_low by lia.
  apply (f_equal (fun z => Z.testbit z (n - 1 - k))) in E. unfold low_reversed in E.
  rewrite !Z.shiftr_spec, !reversed_testbit in E by lia.
  by replace (63 - (n - 1 - k + (64 - n))) with k in E by lia.
Qed.

(** ** [scramble] permutes the vertices *)

Lemma lor_odd_r x c : Z.odd c = true -> Z.odd (Z.lor x c) = true.
Proof. rewrite <- !Z.bit0_odd, Z.lor_spec. intros ->. apply orb_true_r. Qed.

Lemma odd_mul_inj n m x y :
  0 <= n -> Z.odd m = true -> (x * m) mod 2 ^ n = (y * m) mod 2 ^ n -> x mod 2 ^ n = y mod 2 ^ n.
Proof.
  intros Hn Hm E. pose proof (pow2_pos n Hn) as Hp.
  assert ((2 ^ n | (x - y) * m)) as Hd.
  { apply Z.mod_divide; [lia|]. rewrite Z.mul_sub_distr_r, Zminus_mod, E, Z.sub_diag. by apply Z.mod_0_l, Z.pow_nonzero. }
  rewrite Z.mul_comm in Hd. apply Z.gauss in Hd.
  - destruct Hd as [k Hk]. replace x with (y + k * 2 ^ n) by lia. by rewrite Z.mod_add by lia.
  - apply Znumtheory.Zgcd_1_rel_prime, Znumtheory.rel_prime_sym, Zpow_facts.rel_prime_Zpower_r; [done|].
    apply Znumtheory.Zgcd_1_rel_prime. apply Z.odd_spec in Hm as [k ->]. rewrite Z.gcd_comm, Z.add_comm, Z.mul_comm.
    rewrite Z.gcd_add_mult_diag_r. apply Z.gcd_1_r.
Qed.

Lemma wrap_u_mod w n z : 0 <= n <= w -> wrap_u w z mod 2 ^ n = z mod 2 ^ n.
Proof.
  intros. unfold wrap_u. symmetry. apply Znumtheory.Zmod_div_mod; [apply pow2_pos; lia..|].
  exists (2 ^ (w - n)). rewrite <- Z.pow_add_r by lia. f_equal. lia.
Qed.

Section Permutation.
Context (fast_64bit use_gcc_byteswap : bool) (lgN val0 val1 : Z) (HlgN : 1 <= lgN <= 63).
Local Abbreviation round := (scramble_round fast_64bit use_gcc_byteswap lgN).

Lemma scramble_round_ok m v : round m v = inr (low_reversed lgN (u64 (v * m))).
Proof.
unfold scramble_round, shift_right_64. rewrite (proj2 (Z.leb_le 0 (64 - lgN))), (proj2 (Z.ltb_lt (64 - lgN) 64)) by lia.
cbn [andb defined_if mbind result_bind mret result_ret].
rewrite bitreverse_reversed by (apply wrap_u_range; lia). fold (low_reversed lgN (u64 (v * m))).
rewrite (proj2 (Z.leb_le 0 lgN)), (proj2 (Z.ltb_lt lgN 64)) by lia.
cbn [andb defined_if mbind result_bind mret result_ret].
destruct (low_reversed_range lgN (u64 (v * m)) ltac:(lia)) as [H0 H1].
by rewrite Z.shiftr_div_pow2, Z.div_small by lia.
Qed.

Lemma round_inj m x y :
Z.odd m = true -> low_reversed lgN (u64 (x * m)) = low_reversed lgN (u64 (y * m)) -> x mod 2 ^ lgN = y mod 2 ^ lgN.
Proof.
intros Hm E. apply low_reversed_inj in E; [|lia]. rewrite !wrap_u_mod in E by lia. apply odd_mul_inj in E; [done|lia|done].
Qed.

(** What [scramble] computes. *)
Definition scrambled (v0 : Z) : Z :=
low_reversed lgN (u64 (low_reversed lgN (u64 (u64 (u64 v0 + u64 (val0 + val1)) * Z.lor val0 0x4519840211493211))
  * Z.lor val1 0x3050852102C843A5)).

Lemma scrambled_range v0 : in_u lgN (scrambled v0).
Proof. apply low_reversed_range. lia. Qed.

Lemma scramble_ok v0 : scramble fast_64bit use_gcc_byteswap v0 lgN val0 val1 = inr (scrambled v0).
Proof.
unfold scramble. rewrite scramble_round_ok. cbn [mbind result_bind]. rewrite scramble_round_ok. cbn [mbind result_bind].
fold (scrambled v0). unfold mret, result_ret. f_equal. apply wrap_s_id; [lia|]. destruct (scrambled_range v0) as [H0 H1].
assert (2 ^ lgN <= 2 ^ 63) by (apply Z.pow_le_mono_r; lia). split; lia.
Qed.

Lemma scrambled_inj x y : in_u lgN x -> in_u lgN y -> scrambled x = scrambled y -> x = y.
Proof.
intros Hx Hy E. unfold scrambled in E. apply round_inj in E; [|by apply lor_odd_r].
rewrite !Z.mod_small in E by (apply (low_reversed_range lgN); lia). apply round_inj in E; [|by apply lor_odd_r].
rewrite !wrap_u_mod in E by lia. assert (forall z, in_u lgN z -> u64 z = z) as Hid.
{ intros z [H0 H1]. apply wrap_u_id. assert (2 ^ lgN <= 2 ^ 64) by (apply Z.pow_le_mono_r; lia). split; lia. }
rewrite (Hid x Hx), (Hid y Hy) in E. rewrite <- (Z.mod_small x (2 ^ lgN)), <- (Z.mod_small y (2 ^ lgN)) by done.
replace x with (x + u64 (val0 + val1) - u64 (val0 + val1)) by ring.
replace y with (y + u64 (val0 + val1) - u64 (val0 + val1)) by ring. by rewrite Zminus_mod, E, <- Zminus_mod.
Qed.

(** C33: [scramble] is a permutation of the vertex numbers [0, 2^lgN), whatever the two
  scrambling values and whichever form of [bitreverse] is compiled: it always returns,
  its assertions hold, and its values on the vertices are the vertices. *)
Theorem scramble_permutation :
exists f, (forall v, scramble fast_64bit use_gcc_byteswap v lgN val0 val1 = inr (f v)) /\
  f <$> seqZ 0 (2 ^ lgN) ≡ₚ seqZ 0 (2 ^ lgN).
Proof.
exists scrambled. split; [apply scramble_ok|].
apply submseteq_length_Permutation; [|by rewrite length_fmap]. apply NoDup_submseteq.
- apply NoDup_fmap_2_strong; [|apply NoDup_seqZ]. intros x y Hx Hy. rewrite elem_of_seqZ in Hx, Hy.
  apply scrambled_inj; split; lia.
- intros z. rewrite list_elem_of_fmap. intros (x & -> & _). apply elem_of_seqZ.
  destruct (scrambled_range x). lia.
Qed.
End Permutation.

Lemma scramble_permutation_witness :
  exists f, (forall v, scramble true true v 4 5 6 = inr (f v)) /\ f <$> seqZ 0 (2 ^ 4) ≡ₚ seqZ 0 (2 ^ 4).
Proof. apply (scramble_permutation true true 4 5 6). lia. Defined.

(** ** Packed edges *)

Lemma pack_low v : Z.lor (u32 v) (Z.shiftl (Z.shiftr v 32) 32) = v.
Proof.
  apply Z.bits_inj'. intros k Hk. rewrite Z.lor_spec, Z.shiftl_spec, wrap_u_land by lia.
  rewrite Z.land_spec, Z.testbit_ones_nonneg by lia. destruct (Z.ltb_spec k 32).
  - rewrite (Z.testbit_neg_r _ (k - 32)) by lia. by rewrite andb_true_r, orb_false_r.
  - rewrite andb_false_r, Z.shiftr_spec by lia. simpl. f_equal. lia.
Qed.

Lemma pack_high v : in_s 48 v -> i16 (Z.land (Z.shiftr v 32) 0xFFFF) = Z.shiftr v 32.
Proof.
  intros [H0 H1]. change 0xFFFF with (Z.ones 16). rewrite Z.land_ones by lia. rewrite Z.shiftr_div_pow2 by lia.
  assert (in_s 16 (v / 2 ^ 32)) as Hin by (unfold in_s in *; simpl in *; split; [apply Z.div_le_lower_bound|apply Z.div_lt_upper_bound]; lia).
  unfold wrap_s. rewrite Zplus_mod_idemp_l. fold (wrap_s 16 (v / 2 ^ 32)). by apply wrap_s_id.
Qed.

(** The two halves of [high]. *)
Lemma high_parts a b :
  let h := u32 (Z.lor (Z.land a 0xFFFF) (Z.shiftl (Z.land b 0xFFFF) 16)) in
  Z.land h 0xFFFF = Z.land a 0xFFFF /\ Z.shiftr h 16 = Z.land b 0xFFFF.
Proof.
  cbv zeta. change 0xFFFF with (Z.ones 16). rewrite wrap_u_land by lia.
  split; apply Z.bits_inj'; intros k Hk.
  - rewrite !Z.land_spec, Z.lor_spec, Z.shiftl_spec, !Z.land_spec, !Z.testbit_ones by lia.
    destruct (Z.ltb_spec k 16); [|by rewrite !andb_false_r]. rewrite (Z.testbit_neg_r b) by lia.
    rewrite (proj2 (Z.leb_le 0 k)), (proj2 (Z.ltb_lt k 32)) by lia. by rewrite !andb_true_r, orb_false_r.
  - rewrite Z.shiftr_spec, !Z.land_spec, Z.lor_spec, Z.shiftl_spec, !Z.land_spec, !Z.testbit_ones by lia.
    rewrite (proj2 (Z.ltb_ge (k + 16) 16)), (proj2 (Z.leb_le 0 (k + 16))) by lia. rewrite !andb_false_r. simpl.
    replace (k + 16 - 16) with k by lia. rewrite (proj2 (Z.leb_le 0 k)) by lia.
    destruct (Z.ltb_spec k 16); [|by rewrite !andb_false_r]. rewrite (proj2 (Z.ltb_lt (k + 16) 32)) by lia.
    by rewrite !andb_true_r.
Qed.

Lemma get_write_edge v0 v1 :
  in_s 48 v0 -> in_s 48 v1 -> get_v0_from_edge (write_edge v0 v1) = v0 /\ get_v1_from_edge (write_edge v0 v1) = v1.
Proof.
  intros H0 H1. unfold get_v0_from_edge, get_v1_from_edge, write_edge. cbn [v0_low v1_low high].
  destruct (high_parts (Z.shiftr v0 32) (Z.shiftr v1 32)) as [-> ->]. rewrite !pack_high, !pack_low by done. done.
Qed.
