(* ===== verification/Kronecker.v ===== *)
(** * The Kronecker graph generator

    [generator/graph_generator.c], [make_mrg_seed] of [generator/utils.c] and
    [generator/make_graph.c], on top of the random number generator ([Mrg]) and
    the vertex scrambling ([Scramble]).  An array that is written from its first
    element on is the list of its elements. *)

From S2P Require Import Prelude ModArith Mrg Scramble.

Definition INITIATOR_A_NUMERATOR : Z := 5700.
Definition INITIATOR_BC_NUMERATOR : Z := 1900.
Definition INITIATOR_DENOMINATOR : Z := 10000.

Definition make_mrg_seed (userseed1 userseed2 : Z) : list Z :=
  [ u32 (u32 (Z.land userseed1 0x3FFFFFFF) + 1);
    u32 (u32 (Z.land (Z.shiftr userseed1 30) 0x3FFFFFFF) + 1);
    u32 (u32 (Z.land userseed2 0x3FFFFFFF) + 1);
    u32 (u32 (Z.land (Z.shiftr userseed2 30) 0x3FFFFFFF) + 1);
    u32 (u32 (u32 (u64 (Z.shiftl (Z.shiftr userseed2 60) 4)) + u32 (Z.shiftr userseed1 60)) + 1) ].

Definition limit : Z := 0x7FFFFFFF mod INITIATOR_DENOMINATOR.

(** The square a draw selects. *)
Definition square_of (val : Z) : Z :=
  let adjusted_bc_numerator := INITIATOR_BC_NUMERATOR in
  let val := val mod INITIATOR_DENOMINATOR in
  if val <? adjusted_bc_numerator then 1 else
  let val := u32 (val - adjusted_bc_numerator) in
  if val <? adjusted_bc_numerator then 2 else
  let val := u32 (val - adjusted_bc_numerator) in
  if val <? INITIATOR_A_NUMERATOR then 0 else 3.

Section Generator.
Context {ops : ModOps}.

(** [uint32_t val = mrg_get_uint_orig(st);] *)
Definition draw (st : mrg_state) : result (Z * mrg_state) :=
'(v, st) ← mrg_get_uint_orig st; mret (u32 v, st).

(** [level] and [nlevels] only matter with [SPK_NOISE_LEVEL]. *)
Definition generate_4way_bernoulli (st : mrg_state) (level nlevels : Z) : result (Z * mrg_state) :=
s ← draw st;
'(val, st) ← (if s.1 <? limit then s ← draw s.2; while 8 (fun s => s.1 <? limit) (fun s => draw s.2) s
              else mret s);
mret (square_of val, st).

Record edge_loop := mk_loop { l_nverts : Z; l_level : Z; l_src : Z; l_tgt : Z; l_st : mrg_state }.

Definition edge_turn (lgN : Z) (s : edge_loop) : result edge_loop :=
'(square, st) ← generate_4way_bernoulli (l_st s) (l_level s) lgN;
let src_offset := Z.quot square 2 in
let tgt_offset := Z.rem square 2 in
_ ← assert (l_src s <=? l_tgt s);
let '(src_offset, tgt_offset) :=
  if (l_src s =? l_tgt s) && (tgt_offset <? src_offset) then (tgt_offset, src_offset) else (src_offset, tgt_offset) in
let nverts := Z.quot (l_nverts s) 2 in
base_src ← signed 64 (l_src s + nverts * src_offset);
base_tgt ← signed 64 (l_tgt s + nverts * tgt_offset);
mret (mk_loop nverts (l_level s + 1) base_src base_tgt st).

Section Config.
Context (fast_64bit use_gcc_byteswap : bool) (mrg_skip_matrices : list (list mrg_transition_matrix)).

Definition make_one_edge (nverts level lgN : Z) (st : mrg_state) (val0 val1 : Z) : result (packed_edge * mrg_state) :=
s ← while 63 (fun s => 1 <? l_nverts s) (edge_turn lgN) (mk_loop nverts level 0 0 st);
v0 ← scramble fast_64bit use_gcc_byteswap (l_src s) lgN val0 val1;
v1 ← scramble fast_64bit use_gcc_byteswap (l_tgt s) lgN val0 val1;
mret (write_edge v0 v1, l_st s).

(** The values for scrambling. *)
Definition scramble_values (state : mrg_state) : result (Z * Z) :=
st ← mrg_skip mrg_skip_matrices state 50 7 0;
'(a, st) ← mrg_get_uint_orig st; '(b, st) ← mrg_get_uint_orig st;
'(c, st) ← mrg_get_uint_orig st; '(d, st) ← mrg_get_uint_orig st;
mret (u64 (u64 (a * 0xFFFFFFFF) + b), u64 (u64 (c * 0xFFFFFFFF) + d)).

(** One edge of the range, and the integer [mrg_get_float_orig] scales to the
edge's weight when [SSSP] is defined. *)
Definition kronecker_edge (state : mrg_state) (nverts logN val0 val1 ei : Z) : result (packed_edge * Z) :=
st ← mrg_skip mrg_skip_matrices state 0 (u64 ei) 0;
'(e, st) ← make_one_edge nverts 0 logN st val0 val1;
'(w, _) ← mrg_get_uint_orig st;
mret (e, w).

Definition generate_kronecker_range (seed : list Z) (logN start_edge end_edge : Z) : result (list (packed_edge * Z)) :=
_ ← defined_if ((0 <=? logN) && (logN <? 63));
let nverts := Z.shiftl 1 logN in
state ← mrg_seed seed;
'(val0, val1) ← scramble_values state;
for_each (fun edges ei => e ← kronecker_edge state nverts logN val0 val1 ei; mret (edges ++ [e]))
[] (seqZ start_edge (end_edge - start_edge)).

Definition make_graph (log_numverts M userseed1 userseed2 : Z) : result (Z * list (packed_edge * Z)) :=
edges ← generate_kronecker_range (make_mrg_seed userseed1 userseed2) log_numverts 0 M;
mret (M, edges).

(** The two draws [mrg_get_double_orig] combines, in the order they are made; which
of the two factors each is multiplied by is left to the compiler. *)
Definition mrg_get_double_orig (st : mrg_state) : result ((Z * Z) * mrg_state) :=
'(a, st) ← mrg_get_uint_orig st; '(b, st) ← mrg_get_uint_orig st; mret ((a, b), st).

Definition make_random_numbers (nvalues userseed1 userseed2 position : Z) : result (list (Z * Z)) :=
st ← mrg_seed (make_mrg_seed userseed1 userseed2);
st ← mrg_skip mrg_skip_matrices st 2 0 (u64 (2 * u64 position));
'(res, _) ← for_each (fun '(res, st) _ => '(d, st) ← mrg_get_double_orig st; mret (res ++ [d], st))
([], st) (seqZ 0 nvalues);
mret res.
End Config.
End Generator.

(** ** Seeds *)

Lemma land_ones_30 z : Z.land z 0x3FFFFFFF = z mod 2 ^ 30.
Proof. change 0x3FFFFFFF with (Z.ones 30). by rewrite Z.land_ones. Qed.

Lemma make_mrg_seed_eq u1 u2 : in_u 64 u1 -> in_u 64 u2 ->
  make_mrg_seed u1 u2 = [u1 mod 2 ^ 30 + 1; (u1 / 2 ^ 30) mod 2 ^ 30 + 1; u2 mod 2 ^ 30 + 1;
    (u2 / 2 ^ 30) mod 2 ^ 30 + 1; u2 / 2 ^ 60 * 16 + u1 / 2 ^ 60 + 1].
Proof.
  intros H1 H2. unfold make_mrg_seed. rewrite !land_ones_30, !Z.shiftr_div_pow2, Z.shiftl_mul_pow2 by lia.
  assert (forall z, in_u 64 z -> 0 <= z / 2 ^ 60 < 16) as Hq.
  { intros z [? ?]. split; [apply Z.div_pos; lia|apply Z.div_lt_upper_bound; lia]. }
  pose proof (Hq u1 H1). pose proof (Hq u2 H2). change (2 ^ 4) with 16.
  assert (forall z, 0 <= z < 2 ^ 31 -> u32 z = z) as Hu by (intros; apply wrap_u_id; unfold in_u; lia).
  pose proof (Z.mod_pos_bound u1 (2 ^ 30) ltac:(lia)). pose proof (Z.mod_pos_bound u2 (2 ^ 30) ltac:(lia)).
  pose proof (Z.mod_pos_bound (u1 / 2 ^ 30) (2 ^ 30) ltac:(lia)).
  pose proof (Z.mod_pos_bound (u2 / 2 ^ 30) (2 ^ 30) ltac:(lia)).
  rewrite (wrap_u_id 64) by (unfold in_u; lia).
  rewrite (Hu (u1 mod _)), (Hu ((u1 / 2 ^ 30) mod _)), (Hu (u2 mod _)), (Hu ((u2 / 2 ^ 30) mod _)),
    (Hu (u2 / _ * _)), (Hu (u1 / _)) by lia. by rewrite !Hu by (rewrite ?Hu; lia).
Qed.

Lemma seed_digits u : in_u 64 u -> u = u mod 2 ^ 30 + 2 ^ 30 * ((u / 2 ^ 30) mod 2 ^ 30) + 2 ^ 60 * (u / 2 ^ 60).
Proof.
  intros. pose proof (Z.div_mod u (2 ^ 30) ltac:(lia)). pose proof (Z.div_mod (u / 2 ^ 30) (2 ^ 30) ltac:(lia)) as E.
  rewrite Z.div_div in E by lia. change (2 ^ 30 * 2 ^ 30) with (2 ^ 60) in E. lia.
Qed.

Lemma make_mrg_seed_range u1 u2 : in_u 64 u1 -> in_u 64 u2 -> Forall (fun z => 1 <= z <= 2 ^ 30) (make_mrg_seed u1 u2).
Proof.
  intros H1 H2. rewrite make_mrg_seed_eq by done.
  assert (forall z, in_u 64 z -> 0 <= z / 2 ^ 60 < 16) as Hq.
  { intros z [? ?]. split; [apply Z.div_pos; lia|apply Z.div_lt_upper_bound; lia]. }
  pose proof (Hq u1 H1). pose proof (Hq u2 H2).
  pose proof (Z.mod_pos_bound u1 (2 ^ 30) ltac:(lia)). pose proof (Z.mod_pos_bound u2 (2 ^ 30) ltac:(lia)).
  pose proof (Z.mod_pos_bound (u1 / 2 ^ 30) (2 ^ 30) ltac:(lia)).
  pose proof (Z.mod_pos_bound (u2 / 2 ^ 30) (2 ^ 30) ltac:(lia)). repeat constructor; lia.
Qed.

(** [make_mrg_seed] spreads the two user seeds into five numbers of [1, 2^30], so the
    generator's state is valid and not zero, and different pairs of user seeds give
    different generator seeds: no bit of the 128 is lost. *)
Theorem make_mrg_seed_faithful u1 u2 v1 v2 :
  in_u 64 u1 -> in_u 64 u2 -> in_u 64 v1 -> in_u 64 v2 ->
  length (make_mrg_seed u1 u2) = 5%nat /\ Forall (fun z => 1 <= z <= 2 ^ 30) (make_mrg_seed u1 u2) /\
  (make_mrg_seed u1 u2 = make_mrg_seed v1 v2 <-> u1 = v1 /\ u2 = v2).
Proof.
  intros H1 H2 H3 H4. split; [done|]. split; [by apply make_mrg_seed_range|]. split; [|by intros [-> ->]].
  rewrite !make_mrg_seed_eq by done. intros E. injection E as E1 E2 E3 E4 E5.
  assert (forall z, in_u 64 z -> 0 <= z / 2 ^ 60 < 16) as Hq.
  { intros z [? ?]. split; [apply Z.div_pos; lia|apply Z.div_lt_upper_bound; lia]. }
  pose proof (Hq u1 H1). pose proof (Hq u2 H2). pose proof (Hq v1 H3). pose proof (Hq v2 H4).
  rewrite (seed_digits u1), (seed_digits u2), (seed_digits v1), (seed_digits v2) by done. lia.
Qed.

Lemma make_mrg_seed_faithful_witness :
  length (make_mrg_seed 2 3) = 5%nat /\ Forall (fun z => 1 <= z <= 2 ^ 30) (make_mrg_seed 2 3) /\
  (make_mrg_seed 2 3 = make_mrg_seed 3 2 <-> 2 = 3 /\ 3 = 2).
Proof. apply (make_mrg_seed_faithful 2 3 3 2); by_decide. Defined.
