(* ===== verification/KroneckerFacts.v ===== *)
(** * Correctness of the graph generator

    The rejection loop of [generate_4way_bernoulli] ends, every edge joins two
    vertices of the graph, the ranges of [generate_kronecker_range] fit together,
    and [make_random_numbers] is random access. *)

From Stdlib Require Import Znumtheory.
From S2P Require Import Prelude ModArith Mrg MrgTable Scramble Kronecker.

(** ** The generator never reaches the zero state *)

Definition st_zero : mrg_state := mk_st 0 0 0 0 0.
Definition st_good (x : mrg_state) : Prop := st_residue x /\ x <> st_zero.
Definition next (x : mrg_state) : mrg_state := st_mod (S1 x).

Lemma y_cancel a : (MRG_Y * a) mod P = 0 -> a mod P = 0.
Proof.
  intros E. apply Z.mod_divide in E; [|done]. apply Z.gauss in E; [|done]. by apply Z.mod_divide.
Qed.

Lemma next_good x : st_good x -> st_good (next x).
Proof.
  intros [(H1 & H2 & H3 & H4 & H5) Hne]. split; [apply st_mod_residue|]. intros E. apply Hne.
  unfold next, st_mod in E. cbn [S1 z1 z2 z3 z4 z5] in E. injection E as E1 E2 E3 E4 E5.
  rewrite Z.mod_small in E2, E3, E4, E5 by done. rewrite E2, Z.mul_0_r, Z.add_0_l in E1.
  apply y_cancel in E1. rewrite Z.mod_small in E1 by done. destruct x; simpl in *. by subst.
Qed.

Lemma iter_next_good n x : st_good x -> st_good (Nat.iter n next x).
Proof. intros. induction n; simpl; auto using next_good. Qed.

Lemma iter_next_steps k x : st_residue x -> Nat.iter k next x = st_mod (steps (N.of_nat k) x).
Proof.
  intros Hx. induction k as [|k IH]; [by rewrite st_mod_id|]. rewrite Nat2N.inj_succ. unfold steps in *.
  rewrite N.iter_succ. rewrite Nat.iter_succ, IH. unfold next. apply S1_proper, st_mod_eqm.
Qed.

Lemma steps_good k x : st_good x -> st_good (st_mod (steps k x)).
Proof.
  intros H. rewrite <- (N2Nat.id k), <- iter_next_steps by apply H. by apply iter_next_good.
Qed.

Lemma iter_next_shift n x : Nat.iter n next (next x) = next (Nat.iter n next x).
Proof. symmetry. apply (Nat.iter_succ_r n next x). Qed.

(** ** Ten small draws in a row do not happen *)

Definition small (v : Z) : Prop := 0 <= v < limit.

(** 20 times the next output plus 7 times the last one is 2089600 times the fifth last,
    modulo [P]; three small outputs leave only 0 for the latter. *)
Lemma gap_check : forallb (fun k => 27 * limit <=? (2089600 * Z.of_nat k) mod P) (seq 1 (Z.to_nat limit - 1)) = true.
Proof. vm_compute. reflexivity. Qed.

Lemma small_gap a1 a5 a6 : a6 = (MRG_X * a5 + MRG_Y * a1) mod P -> small a1 -> small a5 -> small a6 -> a1 = 0.
Proof.
  intros E H1 H5 H6. destruct (decide (a1 = 0)) as [|Hne]; [done|]. exfalso. unfold small in *. change limit with 3647 in *.
  pose proof gap_check as Hc. rewrite forallb_forall in Hc. specialize (Hc (Z.to_nat a1)).
  rewrite Z2Nat.id in Hc by lia. change limit with 3647 in Hc.
  assert (((2089600 * a1) mod P) = 20 * a6 + 7 * a5) as Ea.
  { rewrite <- (Z.mod_small (20 * a6 + 7 * a5) P) by (unfold P; lia). apply congr_mod.
    rewrite E, congr_reduce. split. replace (20 * (MRG_X * a5 + MRG_Y * a1) + 7 * a5) with (2089600 * a1 + a5 * P)
      by (unfold MRG_X, MRG_Y, P; ring). by rewrite Z.mod_add. }
  rewrite Ea in Hc. specialize (Hc ltac:(apply in_seq; change (Z.to_nat 3647) with 3647%nat; lia)).
  apply Z.leb_le in Hc. lia.
Qed.

Lemma next_z1 x : z1 (next x) = (MRG_X * z1 x + MRG_Y * z5 x) mod P.
Proof. done. Qed.

Lemma ten_small x : st_good x -> ~ (forall n, (n < 10)%nat -> small (z1 (Nat.iter (S n) next x))).
Proof.
  intros Hx Hs. set (y := Nat.iter 5 next x).
  assert (st_good y) as [Hr Hne] by by apply iter_next_good.
  assert (forall x, st_residue x -> z5 (Nat.iter 4 next x) = z1 x) as Hshift.
  { intros u Hu. rewrite iter_next_steps by done. unfold st_mod. cbn [z5]. change (z5 (steps (N.of_nat 4) u)) with (z1 u).
    apply Z.mod_small, Hu. }
  assert (forall n, (n < 5)%nat -> z1 (Nat.iter (S n) next x) = 0) as Hz.
  { intros n Hn. apply (small_gap _ (z1 (Nat.iter (S (4 + n)) next x)) (z1 (Nat.iter (S (5 + n)) next x)));
      [|apply Hs; lia..].
    change (Nat.iter (S (5 + n)) next x) with (next (Nat.iter (S (4 + n)) next x)). rewrite next_z1. do 2 f_equal.
    f_equal. replace (S (4 + n)) with (4 + S n)%nat by lia. rewrite Nat.iter_add.
    apply Hshift, iter_next_good, Hx. }
  apply Hne. unfold y. rewrite iter_next_steps by apply Hx.
  assert (forall j, (j < 5)%nat -> z1 (steps (N.of_nat (S j)) x) mod P = 0) as Hs0.
  { intros j Hj. specialize (Hz j Hj). rewrite iter_next_steps in Hz by apply Hx. done. }
  unfold st_mod, st_zero. change (z5 (steps (N.of_nat 5) x)) with (z1 (steps (N.of_nat 1) x)).
  change (z4 (steps (N.of_nat 5) x)) with (z1 (steps (N.of_nat 2) x)).
  change (z3 (steps (N.of_nat 5) x)) with (z1 (steps (N.of_nat 3) x)).
  change (z2 (steps (N.of_nat 5) x)) with (z1 (steps (N.of_nat 4) x)). rewrite !Hs0 by lia. done.
Qed.

Section Correct.
Context {ops : ModOps} `{!ModLaws ops}.

Lemma mrg_get_uint_orig_ok x : st_residue x -> mrg_get_uint_orig x = inr (z1 (next x), next x).
Proof. intros Hx. unfold mrg_get_uint_orig. by rewrite mrg_orig_step_ok. Qed.

Lemma draw_ok x : st_residue x -> draw x = inr (z1 (next x), next x).
Proof.
intros Hx. unfold draw. rewrite mrg_get_uint_orig_ok by done. cbn [mbind result_bind mret result_ret].
by rewrite u32_residue by apply st_mod_residue.
Qed.

(** After [fuel] turns the loop has ended or every draw so far was small. *)
Lemma reject_loop fuel x :
st_good x ->
(exists n, while fuel (fun s => s.1 <? limit) (fun s => draw s.2) (z1 x, x) =
   inr (z1 (Nat.iter n next x), Nat.iter n next x) /\ limit <= z1 (Nat.iter n next x)) \/
(forall n, (n <= fuel)%nat -> small (z1 (Nat.iter n next x))).
Proof.
revert x. induction fuel as [|fuel IH]; intros x Hx; cbn [while fst snd].
- destruct (Z.ltb_spec (z1 x) limit) as [Hlt|Hge]; [right|left; by exists O].
  intros n Hn. assert (n = O) as -> by lia. split; [apply Hx|done].
- destruct (Z.ltb_spec (z1 x) limit) as [Hlt|Hge]; [|left; by exists O].
  rewrite draw_ok by apply Hx. cbn [mbind result_bind].
  destruct (IH (next x) (next_good x Hx)) as [(n & -> & Hn)|Hall].
  + left. exists (S n). rewrite iter_next_shift in Hn |- *. done.
  + right. intros [|n] Hn; [split; [apply Hx|done]|]. specialize (Hall n ltac:(lia)). by rewrite iter_next_shift in Hall.
Qed.

Lemma square_of_range v : 0 <= square_of v < 4.
Proof. unfold square_of. repeat case_match; lia. Qed.

Lemma generate_4way_bernoulli_ok x level nlevels :
st_good x -> exists v y, generate_4way_bernoulli x level nlevels = inr (square_of v, y) /\
  limit <= v < P /\ st_good y.
Proof.
intros Hx. unfold generate_4way_bernoulli. rewrite draw_ok by apply Hx. cbn [mbind result_bind fst snd].
destruct (Z.ltb_spec (z1 (next x)) limit) as [Hlt|Hge].
- rewrite draw_ok by apply st_mod_residue. cbn [mbind result_bind].
  assert (st_good (next (next x))) as H2 by by do 2 apply next_good.
  destruct (reject_loop 8 _ H2) as [(n & -> & Hn)|Hall].
  + cbn [mbind result_bind]. eexists _, _. split; [done|]. pose proof (iter_next_good n _ H2) as [(Hr & _) ?].
    split; [split; [done|apply Hr]|by apply iter_next_good].
  + exfalso. apply (ten_small x Hx). intros [|n] Hn; [split; [apply st_mod_residue|done]|].
    specialize (Hall n ltac:(lia)). by rewrite !iter_next_shift in Hall.
- cbn [mbind result_bind mret result_ret]. eexists _, _. split; [done|].
  split; [split; [done|apply st_mod_residue]|by apply next_good].
Qed.

(** ** Edges *)

(** The corner of the square the loop has narrowed the edge to: [2^k] wide, aligned, in
  the upper triangle. *)
Record in_square (lgN : Z) (s : edge_loop) : Prop := {
sq_k : exists k : nat, l_nverts s = 2 ^ Z.of_nat k /\ Z.of_nat k <= lgN;
sq_src : 0 <= l_src s /\ (l_nverts s | l_src s) /\ l_src s + l_nverts s <= 2 ^ lgN;
sq_tgt : 0 <= l_tgt s /\ (l_nverts s | l_tgt s) /\ l_tgt s + l_nverts s <= 2 ^ lgN;
sq_le : l_src s <= l_tgt s;
sq_st : st_good (l_st s);
}.

Lemma aligned_gap n a b : 0 < n -> (n | a) -> (n | b) -> a < b -> a + n <= b.
Proof. intros Hn [x ->] [y ->] Hlt. assert (x < y) by nia. nia. Qed.

Lemma offset_step n N a o : 0 < n -> (2 * n | a) -> a + 2 * n <= N -> 0 <= a -> 0 <= o <= 1 ->
0 <= a + n * o /\ (n | a + n * o) /\ a + n * o + n <= N.
Proof.
intros Hn [q ->] HN Ha Ho. split; [nia|]. split; [|nia]. exists (q * 2 + o). ring.
Qed.

Lemma signed_in z : 0 <= z < 2 ^ 63 -> signed 64 z = inr z.
Proof. intros. unfold signed. rewrite bool_decide_true; [done|]. unfold in_s. simpl in *. lia. Qed.

Lemma edge_turn_ok lgN s :
0 <= lgN <= 62 -> in_square lgN s -> 1 < l_nverts s ->
exists s', edge_turn lgN s = inr s' /\ in_square lgN s' /\ l_nverts s = 2 * l_nverts s'.
Proof.
intros HlgN [(k & Ek & Hk) (Hs0 & Hsd & Hs1) (Ht0 & Htd & Ht1) Hle Hst] Hn. unfold edge_turn.
destruct k as [|k]; [rewrite Ek in Hn; simpl in Hn; lia|].
rewrite Nat2Z.inj_succ, Z.pow_succ_r in Ek by lia.
destruct (generate_4way_bernoulli_ok (l_st s) (l_level s) lgN Hst) as (v & y & -> & Hv & Hy).
cbn [mbind result_bind]. pose proof (square_of_range v) as Hq. set (q := square_of v) in *.
rewrite (proj2 (Z.leb_le _ _) Hle). cbn [assert mbind result_bind].
pose proof (pow2_pos (Z.of_nat k) ltac:(lia)) as Hp.
assert (2 ^ lgN <= 2 ^ 62) as HN by (apply Z.pow_le_mono_r; lia). rewrite Ek in *.
rewrite (Z.mul_comm 2), Z.quot_mul by lia.
rewrite (Z.mul_comm 2) in *. set (n := 2 ^ Z.of_nat k) in *. rewrite (Z.mul_comm n 2) in *.
assert (exists so to, (if (l_src s =? l_tgt s) && (Z.rem q 2 <? Z.quot q 2) then (Z.rem q 2, Z.quot q 2) else
  (Z.quot q 2, Z.rem q 2)) = (so, to) /\ 0 <= so <= 1 /\ 0 <= to <= 1 /\ (l_src s = l_tgt s -> so <= to))
  as (so & to & -> & Hso & Hto & Hord).
{ assert (0 <= Z.rem q 2 <= 1) by (pose proof (Z.rem_bound_pos q 2); lia).
  assert (0 <= Z.quot q 2 <= 1) by (rewrite Z.quot_div_nonneg by lia; pose proof (Z.div_mod q 2); pose proof (Z.mod_pos_bound q 2); lia).
  destruct (Z.eqb_spec (l_src s) (l_tgt s)); cbn [andb]; [|eexists _, _; split; [done|lia]].
  destruct (Z.ltb_spec (Z.rem q 2) (Z.quot q 2)); eexists _, _; split; [done|lia|done|lia]. }
destruct (offset_step n (2 ^ lgN) (l_src s) so Hp Hsd Hs1 Hs0 Hso) as (Ha & Had & Ha1).
destruct (offset_step n (2 ^ lgN) (l_tgt s) to Hp Htd Ht1 Ht0 Hto) as (Hb & Hbd & Hb1).
rewrite (signed_in (l_src s + n * so)) by lia. cbn [mbind result_bind].
rewrite (signed_in (l_tgt s + n * to)) by lia. cbn [mbind result_bind].
eexists. split; [done|]. split; [|done]. split; cbn [l_nverts l_src l_tgt l_st]; [|done|done| |done].
- exists k. split; [done|lia].
- destruct (decide (l_src s = l_tgt s)) as [E|Hne].
  + rewrite E. specialize (Hord E). nia.
  + pose proof (aligned_gap (2 * n) (l_src s) (l_tgt s) ltac:(lia) Hsd Htd ltac:(lia)). nia.
Qed.

Section Graph.
Context (fast_64bit use_gcc_byteswap : bool) (tbl : list (list mrg_transition_matrix)) (Htbl : table_ok tbl).

Lemma make_one_edge_ok lgN st val0 val1 :
1 <= lgN <= 62 -> st_good st ->
exists src tgt st', make_one_edge fast_64bit use_gcc_byteswap (2 ^ lgN) 0 lgN st val0 val1 =
inr (write_edge (scrambled lgN val0 val1 src) (scrambled lgN val0 val1 tgt), st') /\
0 <= src <= tgt /\ tgt < 2 ^ lgN /\ st_good st'.
Proof.
intros Hn Hst. unfold make_one_edge. pose proof (pow2_pos lgN ltac:(lia)) as Hp.
destruct (while_inv (in_square lgN) (fun s => Z.to_nat (Z.log2 (l_nverts s))) 63 (fun s => 1 <? l_nverts s)
(edge_turn lgN) (mk_loop (2 ^ lgN) 0 0 0 st)) as (s & -> & [Hk Hs Ht Hle Hgood] & _).
- split; cbn [l_nverts l_src l_tgt l_st]; [|split_and!; [lia|apply Z.divide_0_r|lia]..|lia|done].
exists (Z.to_nat lgN). rewrite Z2Nat.id by lia. done.
- cbn [l_nverts]. rewrite Z.log2_pow2 by lia. lia.
- intros s Hs Hc. apply Z.ltb_lt in Hc. destruct (edge_turn_ok lgN s ltac:(lia) Hs Hc) as (s' & E & Hs' & En).
exists s'. split_and!; [done..|]. rewrite En, Z.log2_double by lia. pose proof (Z.log2_nonneg (l_nverts s')). lia.
- cbn [mbind result_bind]. rewrite !scramble_ok by lia. cbn [mbind result_bind].
exists (l_src s), (l_tgt s), (l_st s). split; [done|]. destruct Hk as (k & Ek & ?).
pose proof (pow2_pos (Z.of_nat k) ltac:(lia)). split_and!; [lia..|done].
Qed.

Definition edge_in_range (logN : Z) (e : packed_edge * Z) : Prop :=
0 <= get_v0_from_edge e.1 < 2 ^ logN /\ 0 <= get_v1_from_edge e.1 < 2 ^ logN /\ 0 <= e.2 < P.

Lemma kronecker_edge_ok st logN val0 val1 ei :
1 <= logN <= 47 -> st_good st ->
exists e, kronecker_edge fast_64bit use_gcc_byteswap tbl st (2 ^ logN) logN val0 val1 ei = inr e /\ edge_in_range logN e.
Proof.
intros Hn Hst. unfold kronecker_edge. rewrite (mrg_skip_ok tbl Htbl) by first [apply Hst|done|apply wrap_u_range; lia].
cbn [mbind result_bind].
destruct (make_one_edge_ok logN _ val0 val1 ltac:(lia) (steps_good (exponent 0 (u64 ei) 0) st Hst))
as (src & tgt & st' & -> & Hsrc & Htgt & Hst'). cbn [mbind result_bind].
rewrite mrg_get_uint_orig_ok by apply Hst'. eexists. split; [done|]. unfold edge_in_range. cbn [fst snd].
pose proof (scrambled_range logN val0 val1 ltac:(lia) src) as Hs. pose proof (scrambled_range logN val0 val1 ltac:(lia) tgt) as Ht.
assert (forall z, in_u logN z -> in_s 48 z) as H48.
{ intros z [? ?]. assert (2 ^ logN <= 2 ^ 47) by (apply Z.pow_le_mono_r; lia). unfold in_s. simpl in *. lia. }
destruct (get_write_edge _ _ (H48 _ Hs) (H48 _ Ht)) as [-> ->]. split_and!; [apply Hs|apply Hs|apply Ht|apply Ht|apply (st_mod_residue (S1 st'))..].
Qed.

(** A loop that appends the value it computes for each element. *)
Lemma for_each_collect {A B} (d : B) (f : A -> result B) acc l :
(forall x, exists e, f x = inr e) ->
for_each (fun acc x => e ← f x; mret (acc ++ [e])) acc l =
inr (acc ++ ((fun x => match f x with inr e => e | inl _ => d end) <$> l)).
Proof.
intros Hf. revert acc. induction l as [|x l IH]; intros acc; [by rewrite app_nil_r|]. cbn [for_each fmap list_fmap].
destruct (Hf x) as [e E]. rewrite E. cbn [mbind result_bind mret result_ret]. rewrite IH, <- app_assoc. done.
Qed.

Lemma scramble_values_ok st : st_good st -> exists val0 val1, scramble_values tbl st = inr (val0, val1).
Proof.
intros Hst. unfold scramble_values. rewrite (mrg_skip_ok tbl Htbl) by first [apply Hst|by_decide]. cbn [mbind result_bind].
do 4 (rewrite mrg_get_uint_orig_ok by apply st_mod_residue; cbn [mbind result_bind]).
unfold mret, result_ret. eexists _, _. reflexivity.
Qed.

Lemma mrg_seed_ok u1 u2 : in_u 64 u1 -> in_u 64 u2 -> exists st, mrg_seed (make_mrg_seed u1 u2) = inr st /\ st_good st.
Proof.
intros H1 H2. pose proof (make_mrg_seed_range u1 u2 H1 H2) as Hr. unfold make_mrg_seed in *.
repeat (apply Forall_cons in Hr as [? Hr]). eexists. split; [reflexivity|]. unfold st_good, st_residue, residue, P. cbn [z1 z2 z3 z4 z5].
split; [lia|]. intros E. injection E. lia.
Qed.

Lemma generate_kronecker_range_ok seed st logN :
mrg_seed seed = inr st -> st_good st -> 1 <= logN <= 47 ->
exists edge, (forall a b, generate_kronecker_range fast_64bit use_gcc_byteswap tbl seed logN a b = inr (edge <$> seqZ a (b - a))) /\
forall ei, edge_in_range logN (edge ei).
Proof.
intros Eseed Hst Hn. destruct (scramble_values_ok st Hst) as (val0 & val1 & Ev).
pose proof (fun ei => kronecker_edge_ok st logN val0 val1 ei Hn Hst) as Hedge.
exists (fun ei => match kronecker_edge fast_64bit use_gcc_byteswap tbl st (2 ^ logN) logN val0 val1 ei with
inr e => e | inl _ => (mk_edge 0 0 0, 0) end). split.
- intros a b. unfold generate_kronecker_range. rewrite Eseed. rewrite (proj2 (Z.leb_le 0 logN)), (proj2 (Z.ltb_lt logN 63)) by lia.
cbn [andb defined_if mbind result_bind]. rewrite Ev. cbn [mbind result_bind]. rewrite Z.shiftl_mul_pow2, Z.mul_1_l by lia.
rewrite (for_each_collect (mk_edge 0 0 0, 0)); [done|]. intros ei. destruct (Hedge ei) as (e & ? & _). by exists e.
- intros ei. by destruct (Hedge ei) as (e & -> & ?).
Qed.
End Graph.

(** C31: [make_graph] always returns: no assertion fails, no signed arithmetic overflows and
  the rejection loop of every draw ends within ten draws.  It gives exactly [M] edges,
  both ends of each are vertices of [0, 2^logN), and the edge with number [ei] is the
  same whichever range of [generate_kronecker_range] it is generated in, so the pieces
  that parallel ranks generate are slices of one graph. *)
Theorem make_graph_correct fast_64bit use_gcc_byteswap tbl logN u1 u2 :
dump_mrg_powers = inr tbl -> in_u 64 u1 -> in_u 64 u2 -> 1 <= logN <= 47 ->
exists edge : Z -> packed_edge * Z,
  (forall M, make_graph fast_64bit use_gcc_byteswap tbl logN M u1 u2 = inr (M, edge <$> seqZ 0 M)) /\
  (forall a b, generate_kronecker_range fast_64bit use_gcc_byteswap tbl (make_mrg_seed u1 u2) logN a b =
     inr (edge <$> seqZ a (b - a))) /\
  forall ei, edge_in_range logN (edge ei).
Proof.
intros Etbl H1 H2 Hn. destruct dump_mrg_powers_ok as (tbl' & Etbl' & Htbl).
rewrite Etbl in Etbl'. injection Etbl' as <-.
destruct (mrg_seed_ok u1 u2 H1 H2) as (st & Est & Hst).
destruct (generate_kronecker_range_ok fast_64bit use_gcc_byteswap tbl Htbl _ st logN Est Hst Hn) as (edge & Hedge & Hrange).
exists edge. split; [|done]. intros M. unfold make_graph. rewrite Hedge. cbn [mbind result_bind]. by rewrite Z.sub_0_r.
Qed.

(** ** Random access *)

Section Random.
Context (tbl : list (list mrg_transition_matrix)) (Htbl : table_ok tbl).

(** The pair of draws behind the number with index [i]. *)
Definition stream (st : mrg_state) (i : Z) : Z * Z :=
let y := st_mod (steps (exponent 2 0 (2 * i)) st) in (z1 (next y), z1 (next (next y))).

Lemma next_steps k x : st_residue x -> next (st_mod (steps k x)) = st_mod (steps (N.succ k) x).
Proof. intros Hx. unfold next, steps. rewrite N.iter_succ. apply S1_proper, st_mod_eqm. Qed.

Lemma make_random_numbers_ok u1 u2 st n p :
mrg_seed (make_mrg_seed u1 u2) = inr st -> st_residue st -> 0 <= p < 2 ^ 63 ->
make_random_numbers tbl n u1 u2 p = inr (stream st <$> seqZ p n).
Proof.
intros Est Hst Hp. unfold make_random_numbers. rewrite Est. cbn [mbind result_bind].
rewrite (wrap_u_id 64 p) by (unfold in_u; lia). rewrite (wrap_u_id 64) by (unfold in_u; lia).
rewrite (mrg_skip_ok tbl Htbl) by first [done|unfold in_u; lia]. cbn [mbind result_bind].
match goal with |- context [for_each ?b ?s _] => destruct (for_each_inv (fun pre '(res, x) =>
res = stream st <$> seqZ p (Z.of_nat (length pre)) /\
x = st_mod (steps (exponent 2 0 (2 * (p + Z.of_nat (length pre)))) st)) b s (seqZ 0 n))
as ([res x] & -> & -> & _) end.
- cbn [length]. by rewrite Z.add_0_r.
- intros pre i post [res x] _ [-> ->]. unfold mrg_get_double_orig.
rewrite mrg_get_uint_orig_ok by apply st_mod_residue. cbn [mbind result_bind].
rewrite mrg_get_uint_orig_ok by apply st_mod_residue. cbn [mbind result_bind mret result_ret].
eexists. split; [done|]. rewrite length_app, Nat2Z.inj_add. cbn [length]. change (Z.of_nat 1) with 1. split.
+ rewrite seqZ_app by lia. rewrite fmap_app. done.
+ rewrite !next_steps by done. do 2 f_equal. unfold exponent. lia.
- cbn [mbind result_bind]. unfold mret, result_ret. do 2 f_equal. rewrite length_seqZ.
destruct (decide (0 <= n)); [f_equal; lia|]. rewrite !seqZ_nil by lia. done.
Qed.
End Random.

(** [make_random_numbers] is reproducible and random access: for given user seeds there is
  one stream of numbers, and a call for [nvalues] numbers at [position] returns exactly
  the elements of that stream from [position] on. *)
Theorem make_random_numbers_random_access tbl u1 u2 :
dump_mrg_powers = inr tbl -> in_u 64 u1 -> in_u 64 u2 ->
exists numbers : Z -> Z * Z, forall nvalues position, 0 <= position < 2 ^ 63 ->
  make_random_numbers tbl nvalues u1 u2 position = inr (numbers <$> seqZ position nvalues).
Proof.
intros Etbl H1 H2. destruct dump_mrg_powers_ok as (tbl' & Etbl' & Htbl).
rewrite Etbl in Etbl'. injection Etbl' as <-. destruct (mrg_seed_ok u1 u2 H1 H2) as (st & Est & Hst).
exists (stream st). intros n p Hp. apply (make_random_numbers_ok tbl Htbl); [done|apply Hst|done].
Qed.
End Correct.

Lemma make_graph_correct_witness :
  exists tbl, @dump_mrg_powers (ops_32 32) = inr tbl /\
  exists edge : Z -> packed_edge * Z,
    (forall M, @make_graph (ops_32 32) true false tbl 10 M 2 3 = inr (M, edge <$> seqZ 0 M)) /\
    (forall a b, @generate_kronecker_range (ops_32 32) true false tbl (make_mrg_seed 2 3) 10 a b =
       inr (edge <$> seqZ a (b - a))) /\
    forall ei, edge_in_range 10 (edge ei).
Proof.
  destruct (@dump_mrg_powers_ok (ops_32 32) (laws_32 32 ltac:(lia))) as (tbl & E & _). exists tbl. split; [exact E|].
  apply (@make_graph_correct (ops_32 32) (laws_32 32 ltac:(lia)) true false tbl 10 2 3 E); unfold in_u; lia.
Defined.

Lemma make_random_numbers_random_access_witness :
  exists tbl, @dump_mrg_powers (ops_64 64) = inr tbl /\
  exists numbers : Z -> Z * Z, forall nvalues position, 0 <= position < 2 ^ 63 ->
    @make_random_numbers (ops_64 64) tbl nvalues 2 3 position = inr (numbers <$> seqZ position nvalues).
Proof.
  destruct (@dump_mrg_powers_ok (ops_64 64) (laws_64 64 ltac:(lia))) as (tbl & E & _). exists tbl. split; [exact E|].
  apply (@make_random_numbers_random_access (ops_64 64) (laws_64 64 ltac:(lia)) tbl 2 3 E); unfold in_u; lia.
Defined.
