(* ===== verification/Bytes.v ===== *)
(** * Byte buffers

    Memory blocks of the C code as lists of bytes: little-endian loads and stores,
    [memcpy]/[memmove] within and between blocks, and [realloc].  An access outside
    the block is undefined behaviour. *)

From S2P Require Import Prelude.

Definition bytes := list Z.

(** The value of little-endian bytes, and the [n] low bytes of a value. *)
Fixpoint le_val (bs : bytes) : Z := match bs with [] => 0 | b :: bs => b + 256 * le_val bs end.
Fixpoint le_bytes (n : nat) (z : Z) : bytes := match n with O => [] | S n => z mod 256 :: le_bytes n (z / 256) end.

(** [n] bytes at [off]. *)
Definition read (n off : nat) (m : bytes) : result bytes :=
  _ ← defined_if (off + n <=? length m)%nat; mret (take n (drop off m)).
Definition write (off : nat) (bs m : bytes) : result bytes :=
  _ ← defined_if (off + length bs <=? length m)%nat; mret (take off m ++ bs ++ drop (off + length bs) m).

Definition load (n off : nat) (m : bytes) : result Z := bs ← read n off m; mret (le_val bs).
Definition store (n off : nat) (v : Z) (m : bytes) : result bytes := write off (le_bytes n v) m.

(** [memmove(m + dst, m + src, n)] *)
Definition memmove (dst src n : nat) (m : bytes) : result bytes := bs ← read n src m; write dst bs m.

(** [realloc(m, n)]: what is new has an unspecified value, here [junk]. *)
Definition realloc (junk : Z) (n : nat) (m : bytes) : bytes := take n m ++ replicate (n - length m) junk.

(** [zmalloc] and [zrealloc], which abort the process when there is no memory.  A block asked
    for with [n] bytes has [usable n] of them, a [size_t], and new bytes have an unspecified
    value. *)
Class Allocator := {
  usable : nat -> nat;
  junk : Z;
  usable_enough n : (n <= usable n)%nat;
  usable_size_t n : Z.of_nat n < 2 ^ 63 -> Z.of_nat (usable n) < 2 ^ 64;
}.

(** Blocks of a multiple of eight bytes. *)
Definition rounding : Allocator.
Proof.
  refine {| usable n := (8 * ((n + 7) / 8))%nat; junk := 170 |};
    intros n; pose proof (Nat.div_mod (n + 7) 8); pose proof (Nat.mod_upper_bound (n + 7) 8); lia.
Defined.

(** With an offset that may be wrong: [m[p]], and [memcpy(m + p, bs, n)]. *)
Definition byte_at (m : bytes) (p : Z) : result Z := _ ← defined_if (0 <=? p); the (m !! Z.to_nat p).
Definition put_bytes (m : bytes) (p : Z) (bs : bytes) : result bytes := _ ← defined_if (0 <=? p); write (Z.to_nat p) bs m.

(** ** Values *)

Lemma length_le_bytes n z : length (le_bytes n z) = n.
Proof. revert z; induction n; intros; simpl; auto. Qed.

Lemma le_val_bytes n z : le_val (le_bytes n z) = z mod 256 ^ Z.of_nat n.
Proof.
  revert z; induction n as [|n IH]; intros z; [by rewrite Z.mod_1_r|]. cbn [le_bytes le_val]. rewrite IH.
  rewrite Nat2Z.inj_succ, Z.pow_succ_r by lia. rewrite Z.rem_mul_r by (try apply Z.pow_nonzero; lia). lia.
Qed.

Lemma le_val_wrap n z : le_val (le_bytes n z) = wrap_u (8 * Z.of_nat n) z.
Proof. rewrite le_val_bytes. unfold wrap_u. rewrite Z.pow_mul_r by lia. done. Qed.

Lemma le_bytes_wrap n z : le_bytes n (wrap_u (8 * Z.of_nat n) z) = le_bytes n z.
Proof.
  unfold wrap_u. rewrite Z.pow_mul_r by lia. change (2 ^ 8) with 256.
  revert z; induction n as [|n IH]; intros z; [done|]. cbn [le_bytes].
  rewrite Nat2Z.inj_succ, Z.pow_succ_r by lia. pose proof (Z.pow_pos_nonneg 256 (Z.of_nat n) ltac:(lia) ltac:(lia)).
  rewrite Z.rem_mul_r by lia. f_equal.
  - rewrite (Z.mul_comm 256), Z.mod_add, Z.mod_mod by lia. done.
  - rewrite (Z.mul_comm 256), Z.div_add, (Z.div_small (z mod 256)), Z.add_0_l by (try apply Z.mod_pos_bound; lia). apply IH.
Qed.

Definition is_bytes (m : bytes) : Prop := Forall (in_u 8) m.

Lemma is_bytes_le n z : is_bytes (le_bytes n z).
Proof. revert z; induction n as [|n IH]; intros z; constructor; [by apply Z.mod_pos_bound|apply IH]. Qed.

Lemma le_val_range bs : is_bytes bs -> 0 <= le_val bs < 256 ^ Z.of_nat (length bs).
Proof.
  induction 1 as [|b bs Hb _ IH]; [done|]. cbn [le_val length]. rewrite Nat2Z.inj_succ, Z.pow_succ_r by lia.
  unfold in_u in Hb. simpl in Hb. lia.
Qed.

Lemma le_bytes_val bs : is_bytes bs -> le_bytes (length bs) (le_val bs) = bs.
Proof.
  induction 1 as [|b bs Hb _ IH]; [done|]. cbn [le_val length le_bytes]. unfold in_u in Hb. simpl in Hb.
  rewrite (Z.mul_comm 256), Z.mod_add, Z.div_add, Z.mod_small, Z.div_small by lia. by rewrite Z.add_0_l, IH.
Qed.

(** ** Accesses *)

Lemma read_ok n off m : (off + n <= length m)%nat -> read n off m = inr (take n (drop off m)).
Proof. intros. unfold read. by rewrite (proj2 (Nat.leb_le _ _)). Qed.

Lemma write_ok off bs m :
  (off + length bs <= length m)%nat -> write off bs m = inr (take off m ++ bs ++ drop (off + length bs) m).
Proof. intros. unfold write. by rewrite (proj2 (Nat.leb_le _ _)). Qed.

Lemma write_length off bs m m' : write off bs m = inr m' -> length m' = length m.
Proof.
  unfold write, defined_if. destruct (Nat.leb_spec (off + length bs) (length m)) as [H|]; [|done].
  intros [= <-]. rewrite !length_app, length_take, length_drop. lia.
Qed.

Lemma write_read_same off bs m m' : write off bs m = inr m' -> read (length bs) off m' = inr bs.
Proof.
  intros E. pose proof (write_length _ _ _ _ E) as El. unfold write, defined_if in E.
  destruct (Nat.leb_spec (off + length bs) (length m)) as [H|]; [|done]. injection E as <-. rewrite read_ok by lia.
  rewrite drop_app_length', take_app_length by (rewrite length_take; lia). done.
Qed.

Lemma write_read_other n k off bs m m' :
  write off bs m = inr m' -> (k + n <= off \/ off + length bs <= k)%nat -> read n k m' = read n k m.
Proof.
  intros E Hd. pose proof (write_length _ _ _ _ E) as El. unfold read. rewrite El.
  unfold write, defined_if in E. destruct (Nat.leb_spec (off + length bs) (length m)) as [H|]; [|done].
  injection E as <-. destruct (Nat.leb_spec (k + n) (length m)) as [Hk|]; [|done]. cbn [mbind result_bind defined_if mret result_ret].
  f_equal. destruct Hd as [Hd|Hd].
  - rewrite drop_app_le by (rewrite length_take; lia). rewrite take_app_le by (rewrite length_drop, length_take; lia).
    by rewrite skipn_firstn_comm, take_take, Nat.min_l by lia.
  - rewrite drop_app_ge by (rewrite length_take; lia). rewrite drop_app_ge by (rewrite length_take; lia).
    rewrite drop_drop. do 2 f_equal. rewrite length_take. lia.
Qed.

Section Words.
Context (n : nat).

Lemma load_ok off m : (off + n <= length m)%nat -> load n off m = inr (le_val (take n (drop off m))).
Proof. intros. unfold load. by rewrite read_ok. Qed.

Lemma load_inv off m v : load n off m = inr v -> (off + n <= length m)%nat.
Proof. unfold load, read, defined_if. by destruct (Nat.leb_spec (off + n) (length m)). Qed.

Lemma store_ok off v m : (off + n <= length m)%nat -> exists m', store n off v m = inr m'.
Proof. intros. unfold store. rewrite write_ok by (rewrite length_le_bytes; lia). eauto. Qed.

Lemma store_length off v m m' : store n off v m = inr m' -> length m' = length m.
Proof. apply write_length. Qed.

Lemma load_store_same off v m m' : store n off v m = inr m' -> load n off m' = inr (wrap_u (8 * Z.of_nat n) v).
Proof.
intros E. unfold load. apply write_read_same in E. rewrite length_le_bytes in E. rewrite E.
cbn [mbind result_bind]. by rewrite le_val_wrap.
Qed.

Lemma load_store_other k off n' v m m' :
store n off v m = inr m' -> (k + n' <= off \/ off + n <= k)%nat -> load n' k m' = load n' k m.
Proof.
intros E Hd. unfold load. by rewrite (write_read_other n' k off _ m m' E) by (rewrite length_le_bytes; lia).
Qed.
End Words.

(** ** Moves *)

Lemma memmove_ok dst src n m :
  (src + n <= length m)%nat -> (dst + n <= length m)%nat ->
  exists m', memmove dst src n m = inr m' /\ length m' = length m /\
    (forall w k, (k + w <= n)%nat -> read w (dst + k) m' = read w (src + k) m) /\
    (forall w k, (k + w <= dst \/ dst + n <= k)%nat -> read w k m' = read w k m).
Proof.
  intros Hs Hd. unfold memmove. rewrite read_ok by lia. cbn [mbind result_bind].
  set (bs := take n (drop src m)). assert (length bs = n) as Hlen by (unfold bs; rewrite length_take, length_drop; lia).
  destruct (write dst bs m) as [|m'] eqn:E; [rewrite write_ok in E by lia; done|].
  exists m'. split; [done|]. split; [by eapply write_length|]. split.
  - intros w k Hk. pose proof (write_read_same _ _ _ _ E) as Hr. pose proof (write_length _ _ _ _ E) as El.
    rewrite Hlen, read_ok in Hr by lia. injection Hr as Hr. rewrite !read_ok by lia. f_equal.
    apply (f_equal (fun l => take w (drop k l))) in Hr. unfold bs in Hr.
    rewrite !skipn_firstn_comm, !take_take, !drop_drop, !Nat.min_l in Hr by lia. done.
  - intros w k Hk. apply (write_read_other _ _ _ _ _ _ E). lia.
Qed.

Lemma length_realloc junk n m : length (realloc junk n m) = n.
Proof. unfold realloc. rewrite length_app, length_take, length_replicate. lia. Qed.

Lemma read_realloc junk n m w k : (k + w <= n)%nat -> (k + w <= length m)%nat -> read w k (realloc junk n m) = read w k m.
Proof.
  intros Hn Hm. rewrite !read_ok by (rewrite ?length_realloc; lia). f_equal. unfold realloc.
  rewrite drop_app_le by (rewrite length_take; lia). rewrite take_app_le by (rewrite length_drop, length_take; lia).
  rewrite skipn_firstn_comm, take_take, Nat.min_l by lia. done.
Qed.

(** ** Blocks in parts *)

Abbreviation len_ l := (Z.of_nat (length l)).

Lemma byte_at_app pre b post : byte_at (pre ++ b :: post) (len_ pre) = inr b.
Proof.
  unfold byte_at, bytes. rewrite (proj2 (Z.leb_le _ _)) by lia. cbn [defined_if mbind result_bind].
  rewrite Nat2Z.id, lookup_app_r, Nat.sub_diag by lia. done.
Qed.

Lemma byte_at_next pre a b post : byte_at (pre ++ a :: b :: post) (len_ pre + 1) = inr b.
Proof.
  change (a :: b :: post) with ([a] ++ b :: post). rewrite app_assoc.
  replace (len_ pre + 1) with (len_ (pre ++ [a])) by (rewrite length_app; cbn [length]; lia). apply byte_at_app.
Qed.

Lemma write_app pre old new post : length old = length new -> write (length pre) new (pre ++ old ++ post) = inr (pre ++ new ++ post).
Proof.
  intros E. rewrite write_ok by (rewrite !length_app; lia). rewrite take_app_length, drop_app_ge by lia.
  by rewrite drop_app_length' by lia.
Qed.

Lemma put_app pre old new post p :
  p = len_ pre -> length old = length new -> put_bytes (pre ++ old ++ post) p new = inr (pre ++ new ++ post).
Proof. intros -> E. unfold put_bytes. rewrite (proj2 (Z.leb_le _ _)) by lia. rewrite Nat2Z.id. by apply write_app. Qed.
