(* ===== verification/IntSet.v ===== *)
(** * Integer sets

    [intset.c] of Redis: a sorted array of integers of one width, kept in a byte
    block.  The host is little endian, so the [*ifbe] conversions are the identity.
    [junk] is the value of the bytes [zrealloc] adds. *)

From S2P Require Import Prelude Bytes.

Definition INTSET_ENC_INT16 : Z := 2.
Definition INTSET_ENC_INT32 : Z := 4.
Definition INTSET_ENC_INT64 : Z := 8.

Record intset := mk_is { encoding : Z; is_length : Z; contents : bytes }.

Definition intsetValueEncoding (v : Z) : Z :=
  if (v <? - 2 ^ 31) || (2 ^ 31 - 1 <? v) then INTSET_ENC_INT64
  else if (v <? - 2 ^ 15) || (2 ^ 15 - 1 <? v) then INTSET_ENC_INT32
  else INTSET_ENC_INT16.

(** The element width the branches on the encoding select. *)
Definition elem_width (enc : Z) : nat :=
  if enc =? INTSET_ENC_INT64 then 8%nat else if enc =? INTSET_ENC_INT32 then 4%nat else 2%nat.

(** The element with index [pos] of an array of signed [w]-byte integers. *)
Definition elem (w pos : nat) (m : bytes) : result Z :=
  v ← load w (w * pos) m; mret (wrap_s (8 * Z.of_nat w) v).

Definition intsetGetEncoded (iset : intset) (pos enc : Z) : result Z :=
  _ ← defined_if (0 <=? pos); elem (elem_width enc) (Z.to_nat pos) (contents iset).
Definition intsetGet_ (iset : intset) (pos : Z) : result Z := intsetGetEncoded iset pos (encoding iset).

Definition intsetSet (iset : intset) (pos value : Z) : result intset :=
  _ ← defined_if (0 <=? pos);
  let w := elem_width (encoding iset) in
  m ← store w (w * Z.to_nat pos) value (contents iset); mret (mk_is (encoding iset) (is_length iset) m).

Definition intsetNew : intset := mk_is INTSET_ENC_INT16 0 [].

(** [SIZE_MAX - sizeof(intset)] on a 64-bit host. *)
Definition SIZE_LIMIT : Z := 2 ^ 64 - 1 - 8.

Definition intsetResize (junk : Z) (iset : intset) (len : Z) : result intset :=
  let size := u64 (len * encoding iset) in
  _ ← assert (size <=? SIZE_LIMIT);
  mret (mk_is (encoding iset) (is_length iset) (realloc junk (Z.to_nat size) (contents iset))).

Record search := mk_search { s_min : Z; s_max : Z; s_mid : Z; s_cur : Z; s_break : bool }.

Definition search_turn (iset : intset) (value : Z) (s : search) : result search :=
  let mid := Z.shiftr (u32 (u32 (s_min s) + u32 (s_max s))) 1 in
  cur ← intsetGet_ iset mid;
  mret (if cur <? value then mk_search (mid + 1) (s_max s) mid cur false
        else if value <? cur then mk_search (s_min s) (mid - 1) mid cur false
        else mk_search (s_min s) (s_max s) mid cur true).

(** Whether the value was found, and [*pos]. *)
Definition intsetSearch (iset : intset) (value : Z) : result (bool * Z) :=
  let max := i32 (is_length iset - 1) in
  if is_length iset =? 0 then mret (false, 0) else
  last ← intsetGet_ iset max;
  if last <? value then mret (false, is_length iset) else
  first ← intsetGet_ iset 0;
  if value <? first then mret (false, 0) else
  s ← while 32 (fun s => negb (s_break s) && (s_min s <=? s_max s)) (search_turn iset value)
        (mk_search 0 max (-1) (-1) false);
  if value =? s_cur s then mret (true, s_mid s) else mret (false, s_min s).

Definition intsetUpgradeAndAdd (junk : Z) (iset : intset) (value : Z) : result intset :=
  let curenc := encoding iset in
  let newenc := intsetValueEncoding value in
  let length := i32 (is_length iset) in
  let prepend := if value <? 0 then 1 else 0 in
  iset ← intsetResize junk (mk_is newenc (is_length iset) (contents iset)) (u32 (is_length iset + 1));
  iset ← for_each (fun iset i => v ← intsetGetEncoded iset (Z.of_nat i) curenc; intsetSet iset (Z.of_nat i + prepend) v)
         iset (rev (seq 0 (Z.to_nat length)));
  iset ← intsetSet iset (if negb (prepend =? 0) then 0 else is_length iset) value;
  mret (mk_is (encoding iset) (u32 (is_length iset + 1)) (contents iset)).

Definition intsetMoveTail (iset : intset) (from to : Z) : result intset :=
  let w := elem_width (encoding iset) in
  let bytes := u32 (u32 (is_length iset - from) * Z.of_nat w) in
  m ← memmove (w * Z.to_nat to) (w * Z.to_nat from) (Z.to_nat bytes) (contents iset);
  mret (mk_is (encoding iset) (is_length iset) m).

(** The set, and [*success]. *)
Definition intsetAdd (junk : Z) (iset : intset) (value : Z) : result (intset * bool) :=
  let valenc := intsetValueEncoding value in
  if encoding iset <? valenc then iset ← intsetUpgradeAndAdd junk iset value; mret (iset, true)
  else
    '(found, pos) ← intsetSearch iset value;
    if (found : bool) then mret (iset, false) else
    iset ← intsetResize junk iset (u32 (is_length iset + 1));
    iset ← (if pos <? is_length iset then intsetMoveTail iset pos (u32 (pos + 1)) else mret iset);
    iset ← intsetSet iset pos value;
    mret (mk_is (encoding iset) (u32 (is_length iset + 1)) (contents iset), true).

Definition intsetRemove (junk : Z) (iset : intset) (value : Z) : result (intset * bool) :=
  let valenc := intsetValueEncoding value in
  if valenc <=? encoding iset then
    '(found, pos) ← intsetSearch iset value;
    if (found : bool) then
      let len := is_length iset in
      iset ← (if pos <? u32 (len - 1) then intsetMoveTail iset (u32 (pos + 1)) pos else mret iset);
      iset ← intsetResize junk iset (u32 (len - 1));
      mret (mk_is (encoding iset) (u32 (len - 1)) (contents iset), true)
    else mret (iset, false)
  else mret (iset, false).

Definition intsetFind (iset : intset) (value : Z) : result bool :=
  if intsetValueEncoding value <=? encoding iset then '(found, _) ← intsetSearch iset value; mret found else mret false.

(** [r] is the value of [rand()]. *)
Definition intsetRandom (r : Z) (iset : intset) : result Z :=
  _ ← assert (negb (is_length iset =? 0)); intsetGet_ iset (Z.rem r (is_length iset)).
Definition intsetMax (iset : intset) : result Z := intsetGet_ iset (i32 (u32 (is_length iset - 1))).
Definition intsetMin (iset : intset) : result Z := intsetGet_ iset 0.

Definition intsetGet (iset : intset) (pos : Z) : result (option Z) :=
  if pos <? is_length iset then v ← intsetGet_ iset pos; mret (Some v) else mret None.
Definition intsetLen (iset : intset) : Z := is_length iset.
Definition intsetBlobLen (iset : intset) : Z := 8 + is_length iset * encoding iset.

(** The blob is read as a header of two 32-bit numbers and the contents. *)
Definition intset_of_blob (p : bytes) : result intset :=
  e ← load 4 0 p; l ← load 4 4 p; mret (mk_is e l (drop 8 p)).

(** The scan for duplicate or unordered records, from [prev] on. *)
Fixpoint integrity_scan (iset : intset) (n : nat) (i prev : Z) : result bool :=
  match n with
  | O => mret true
  | S n => cur ← intsetGet_ iset i; if cur <=? prev then mret false else integrity_scan iset n (i + 1) cur
  end.

Definition intsetValidateIntegrity (p : bytes) (deep : bool) : result bool :=
  let size := Z.of_nat (length p) in
  if size <? 8 then mret false else
  iset ← intset_of_blob p;
  if negb ((encoding iset =? INTSET_ENC_INT64) || (encoding iset =? INTSET_ENC_INT32) || (encoding iset =? INTSET_ENC_INT16))
  then mret false else
  if negb (8 + is_length iset * encoding iset =? size) then mret false else
  if is_length iset =? 0 then mret false else
  if negb deep then mret true else
  prev ← intsetGet_ iset 0; integrity_scan iset (Z.to_nat (is_length iset - 1)) 1 prev.

(** ** The representation of a sorted list *)

Definition valid_encoding (enc : Z) : Prop := enc = 2 \/ enc = 4 \/ enc = 8.

(** [m] starts with the elements [vs] at width [w]. *)
Definition holds (w : nat) (m : bytes) (vs : list Z) : Prop := forall i v, vs !! i = Some v -> elem w i m = inr v.

Record intset_rep (iset : intset) (vs : list Z) : Prop := {
  rep_enc : valid_encoding (encoding iset);
  rep_len : is_length iset = Z.of_nat (length vs);
  rep_size : length (contents iset) = (elem_width (encoding iset) * length vs)%nat;
  rep_holds : holds (elem_width (encoding iset)) (contents iset) vs;
  rep_sorted : StronglySorted Z.lt vs;
  rep_small : Z.of_nat (length vs) < 2 ^ 29;
}.
