(* ===== verification/IntSetFacts.v ===== *)
(** * Correctness of the integer sets

    The byte block of an [intset] represents a strictly sorted list; search, insertion
    (in place, with a move of the tail, or with an upgrade of the encoding) and removal
    implement the operations of a mathematical set. *)

From S2P Require Import Prelude Bytes IntSet.

(** ** Encodings *)

Lemma elem_width_enc enc : valid_encoding enc -> Z.of_nat (elem_width enc) = enc.
Proof. by intros [-> | [-> | ->]]. Qed.

Lemma value_encoding_valid v : valid_encoding (intsetValueEncoding v).
Proof. unfold intsetValueEncoding, valid_encoding. repeat case_match; auto. Qed.

Lemma value_encoding_fits v enc :
  in_s 64 v -> valid_encoding enc -> intsetValueEncoding v <= enc <-> in_s (8 * enc) v.
Proof.
  unfold intsetValueEncoding, in_s, INTSET_ENC_INT16, INTSET_ENC_INT32, INTSET_ENC_INT64.
  intros Hv [-> | [-> | ->]]; simpl in *; repeat case_match; to_prop; lia.
Qed.

(** ** Elements *)

Lemma elem_read w i m : elem w i m = (bs ← read w (w * i) m; mret (wrap_s (8 * Z.of_nat w) (le_val bs))).
Proof. unfold elem, load. by destruct (read _ _ _). Qed.

Lemma elem_ext w i j m m' : read w (w * i) m = read w (w * j) m' -> elem w i m = elem w j m'.
Proof. intros E. by rewrite !elem_read, E. Qed.

Lemma wrap_s_u w z : 0 < w -> wrap_s w (wrap_u w z) = wrap_s w z.
Proof. intros. unfold wrap_s, wrap_u. by rewrite Zplus_mod_idemp_l. Qed.

Lemma elem_store_same w i v m m' :
  store w (w * i) v m = inr m' -> in_s (8 * Z.of_nat w) v -> (0 < w)%nat -> elem w i m' = inr v.
Proof.
  intros E Hv Hw. unfold elem. rewrite (load_store_same _ _ _ _ _ E). cbn [mbind result_bind].
  rewrite wrap_s_u, wrap_s_id by (done || lia). done.
Qed.

Lemma elem_store_other w w' i j v m m' :
  store w (w * i) v m = inr m' -> (w' * S j <= w * i \/ w * S i <= w' * j)%nat -> elem w' j m' = elem w' j m.
Proof.
  intros E Hd. unfold elem. by rewrite (load_store_other w (w' * j) (w * i) w' v m m' E) by lia.
Qed.

Lemma elem_range w i m v : (0 < w)%nat -> elem w i m = inr v -> in_s (8 * Z.of_nat w) v.
Proof. unfold elem. destruct (load _ _ _); [done|]. intros ? [= <-]. apply wrap_s_range. lia. Qed.

Lemma holds_app w m vs ws : holds w m (vs ++ ws) -> holds w m vs.
Proof. intros H i v Hi. apply H. by apply lookup_app_l_Some. Qed.

Lemma width_pos enc : (0 < elem_width enc)%nat.
Proof. unfold elem_width. repeat case_match; lia. Qed.

Lemma intsetGetEncoded_nat iset i enc : intsetGetEncoded iset (Z.of_nat i) enc = elem (elem_width enc) i (contents iset).
Proof.
  unfold intsetGetEncoded. rewrite (proj2 (Z.leb_le _ _)) by lia. cbn [defined_if mbind result_bind]. by rewrite Nat2Z.id.
Qed.

Lemma rep_get iset vs i v : intset_rep iset vs -> vs !! i = Some v -> intsetGet_ iset (Z.of_nat i) = inr v.
Proof. intros [] Hi. unfold intsetGet_. rewrite intsetGetEncoded_nat. by apply rep_holds. Qed.

Lemma rep_range iset vs : intset_rep iset vs -> Forall (in_s (8 * encoding iset)) vs.
Proof.
  intros []. apply Forall_lookup. intros i v Hi. rewrite <- (elem_width_enc (encoding iset)) by done.
  by apply (elem_range _ i (contents iset)); [apply width_pos|apply rep_holds].
Qed.

(** ** Sorted lists *)

Lemma sorted_lookup vs i j x y :
  StronglySorted Z.lt vs -> vs !! i = Some x -> vs !! j = Some y -> (i < j)%nat -> x < y.
Proof.
  intros Hs. revert i j. induction Hs as [|z vs _ IH Hz]; intros i j Hi Hj Hlt; [done|].
  destruct j as [|j]; [lia|]. destruct i as [|i]; simplify_eq/=.
  - rewrite Forall_lookup in Hz. by apply (Hz j).
  - apply (IH i j); [done..|lia].
Qed.

Lemma sorted_lookup_le vs i j x y :
  StronglySorted Z.lt vs -> vs !! i = Some x -> vs !! j = Some y -> (i <= j)%nat -> x <= y.
Proof.
  intros Hs Hi Hj Hle. destruct (decide (i = j)) as [->|]; [by simplify_eq|].
  pose proof (sorted_lookup vs i j x y Hs Hi Hj). lia.
Qed.

Lemma sorted_of_lookup vs :
  (forall i j x y, vs !! i = Some x -> vs !! j = Some y -> (i < j)%nat -> x < y) -> StronglySorted Z.lt vs.
Proof.
  induction vs as [|z vs IH]; intros H; constructor.
  - apply IH. intros i j x y Hi Hj Hlt. apply (H (S i) (S j)); [done..|lia].
  - apply Forall_lookup. intros i x Hi. apply (H O (S i)); [done..|lia].
Qed.

(** [pos] splits [vs] around [v]. *)
Definition splits (vs : list Z) (v : Z) (pos : nat) : Prop :=
  (pos <= length vs)%nat /\
  (forall i x, vs !! i = Some x -> (i < pos)%nat -> x < v) /\
  (forall i x, vs !! i = Some x -> (pos <= i)%nat -> v <= x).

Lemma splits_elem vs v pos :
  StronglySorted Z.lt vs -> splits vs v pos -> v ∈ vs -> vs !! pos = Some v.
Proof.
  intros Hs (Hp & Hlt & Hge) (i & Hi)%list_elem_of_lookup. destruct (decide (i < pos)%nat) as [Hip|].
  - pose proof (Hlt i v Hi Hip). lia.
  - destruct (decide (i = pos)) as [->|]; [done|]. destruct (lookup_lt_is_Some_2 vs pos) as [y Hy].
    { apply lookup_lt_Some in Hi. lia. }
    pose proof (Hge pos y Hy ltac:(lia)). pose proof (sorted_lookup vs pos i y v Hs Hy Hi ltac:(lia)). lia.
Qed.

(** ** Search *)

Section Search.
Context (iset : intset) (vs : list Z) (value : Z) (Hrep : intset_rep iset vs).
Local Abbreviation n := (Z.of_nat (length vs)).

Record search_inv (s : search) : Prop := {
si_min : 0 <= s_min s;
si_max : s_max s < n;
si_meet : s_min s <= s_max s + 1;
si_below : forall i x, vs !! i = Some x -> Z.of_nat i < s_min s -> x < value;
si_above : forall i x, vs !! i = Some x -> s_max s < Z.of_nat i -> value < x;
si_break : s_break s = true -> s_cur s = value /\ 0 <= s_mid s /\ vs !! Z.to_nat (s_mid s) = Some value;
si_cur : s_break s = false -> s_min s <= s_max s \/ s_cur s <> value;
}.

Definition search_measure (s : search) : nat :=
if s_break s then O else if s_min s <=? s_max s then Z.to_nat (1 + Z.log2 (s_max s - s_min s + 1)) else O.

Lemma half_log n m : 0 < m <= n / 2 -> 1 + Z.log2 m <= Z.log2 n.
Proof.
intros [Hm Hn]. assert (2 * m <= n) by (pose proof (Z.div_mod n 2); pose proof (Z.mod_pos_bound n 2); lia).
rewrite Z.add_comm, Z.add_1_r, <- Z.log2_double by lia. by apply Z.log2_le_mono.
Qed.

Lemma measure_le s k : s_break s = false -> 0 <= k -> (s_min s <= s_max s -> s_max s - s_min s + 1 <= k / 2) -> 
0 < k -> (search_measure s < Z.to_nat (1 + Z.log2 k))%nat.
Proof.
intros Eb Hk Hh Hp. unfold search_measure. rewrite Eb. pose proof (Z.log2_nonneg k).
destruct (Z.leb_spec (s_min s) (s_max s)) as [Hle|]; [|lia].
pose proof (half_log k (s_max s - s_min s + 1) ltac:(lia)). lia.
Qed.

Lemma search_turn_ok s :
search_inv s -> negb (s_break s) && (s_min s <=? s_max s) = true ->
exists s', search_turn iset value s = inr s' /\ search_inv s' /\ (search_measure s' < search_measure s)%nat.
Proof.
intros [Hmin Hmax Hmeet Hbelow Habove Hbr Hcur] Hc. to_prop. pose proof (rep_small _ _ Hrep) as Hsm.
unfold search_turn. rewrite (wrap_u_id 32 (s_min s)), (wrap_u_id 32 (s_max s)), (wrap_u_id 32 (_ + _)) by (unfold in_u; lia). rewrite Z.shiftr_div_pow2 by lia. change (2 ^ 1) with 2.
set (mid := (s_min s + s_max s) / 2).
assert (s_min s <= mid <= s_max s) as Hmid by (unfold mid; split; [apply Z.div_le_lower_bound|apply Z.div_le_upper_bound]; lia).
destruct (lookup_lt_is_Some_2 vs (Z.to_nat mid)) as [cur Ecur]; [lia|].
replace mid with (Z.of_nat (Z.to_nat mid)) by lia. rewrite (rep_get _ _ _ _ Hrep Ecur). rewrite Z2Nat.id by lia.
cbn [mbind result_bind]. unfold mret, result_ret. set (k := s_max s - s_min s + 1).
assert (search_measure s = Z.to_nat (1 + Z.log2 k)) as ->.
{ unfold search_measure. rewrite H. rewrite (proj2 (Z.leb_le _ _)) by lia. done. }
assert (mid - s_min s <= k / 2 /\ s_max s - mid <= k / 2) as [Hl Hr].
{ unfold mid, k. split; [|]; apply Z.div_le_lower_bound; try lia;
    pose proof (Z.div_mod (s_min s + s_max s) 2 ltac:(lia)); pose proof (Z.mod_pos_bound (s_min s + s_max s) 2 ltac:(lia)); lia. }
destruct (Z.ltb_spec cur value) as [Hlt|Hge]; [|destruct (Z.ltb_spec value cur) as [Hgt|Hle]];
  eexists; (split; [done|]); (split; [split; cbn [s_min s_max s_mid s_cur s_break]; try done; try lia|]).
- intros i x Hi Hix. pose proof (sorted_lookup_le vs i (Z.to_nat mid) x cur (rep_sorted _ _ Hrep) Hi Ecur ltac:(lia)). lia.
- apply measure_le; cbn [s_min s_max s_break]; [done|lia..].
- intros i x Hi Hix. pose proof (sorted_lookup_le vs (Z.to_nat mid) i cur x (rep_sorted _ _ Hrep) Ecur Hi ltac:(lia)). lia.
- apply measure_le; cbn [s_min s_max s_break]; [done|lia..].
- intros _. assert (cur = value) by lia. subst. split_and!; [done|lia|done].
- unfold search_measure. cbn [s_break]. pose proof (Z.log2_nonneg k). lia.
Qed.

Lemma intsetSearch_ok :
exists pos, intsetSearch iset value = inr (bool_decide (value ∈ vs), Z.of_nat pos) /\ splits vs value pos.
Proof.
pose proof (rep_small _ _ Hrep) as Hsm. pose proof (rep_sorted _ _ Hrep) as Hso. unfold intsetSearch. rewrite (rep_len _ _ Hrep).
destruct (Z.eqb_spec n 0) as [En|Hn].
{ assert (vs = []) as -> by (apply length_zero_iff_nil; lia). exists O. split; [done|]. split_and!; [done|intros ? ? Hi; done..]. }
rewrite (wrap_s_id 32) by (unfold in_s; simpl; lia).
destruct (lookup_lt_is_Some_2 vs (length vs - 1)) as [last Elast]; [lia|].
replace (n - 1) with (Z.of_nat (length vs - 1)) by lia. rewrite (rep_get _ _ _ _ Hrep Elast). cbn [mbind result_bind].
destruct (Z.ltb_spec last value) as [Hlast|Hlast].
{ assert (forall i x, vs !! i = Some x -> x < value) as Hall.
  { intros i x Hi. pose proof (lookup_lt_Some _ _ _ Hi). pose proof (sorted_lookup_le vs i (length vs - 1) x last Hso Hi Elast ltac:(lia)). lia. }
  exists (length vs). rewrite bool_decide_false.
  - split; [done|]. split_and!; [done|by eauto|]. intros i x Hi Hge. apply lookup_lt_Some in Hi. lia.
  - intros (i & Hi)%list_elem_of_lookup. pose proof (Hall i value Hi). lia. }
destruct (lookup_lt_is_Some_2 vs 0) as [first Efirst]; [lia|].
rewrite (rep_get _ _ 0 _ Hrep Efirst : intsetGet_ iset 0 = _). cbn [mbind result_bind].
destruct (Z.ltb_spec value first) as [Hfirst|Hfirst].
{ assert (forall i x, vs !! i = Some x -> value < x) as Hall.
  { intros i x Hi. pose proof (sorted_lookup_le vs 0 i first x Hso Efirst Hi ltac:(lia)). lia. }
  exists O. rewrite bool_decide_false.
  - split; [done|]. split_and!; [lia|intros; lia|]. intros i x Hi _. pose proof (Hall i x Hi). lia.
  - intros (i & Hi)%list_elem_of_lookup. pose proof (Hall i value Hi). lia. }
destruct (while_inv search_inv search_measure 32 (fun s => negb (s_break s) && (s_min s <=? s_max s))
  (search_turn iset value) (mk_search 0 (Z.of_nat (length vs - 1)) (-1) (-1) false)) as (s & -> & Hs & Hend).
- split; cbn [s_min s_max s_mid s_cur s_break]; try done; try lia; intros i x Hi Hix; apply lookup_lt_Some in Hi; lia.
- unfold search_measure. cbn [s_break s_min s_max]. rewrite (proj2 (Z.leb_le _ _)) by lia.
  assert (Z.log2 (Z.of_nat (length vs - 1) - 0 + 1) < 29) by (apply Z.log2_lt_pow2; lia). lia.
- apply search_turn_ok.
- cbn [mbind result_bind]. destruct Hs as [Hmin Hmax Hmeet Hbelow Habove Hbr Hcur]. destruct (s_break s) eqn:Eb.
  + destruct (Hbr eq_refl) as (-> & Hmid & Ev). rewrite Z.eqb_refl. exists (Z.to_nat (s_mid s)).
    rewrite bool_decide_true by (by eapply list_elem_of_lookup_2). rewrite Z2Nat.id by lia. split; [done|]. split_and!.
    * apply lookup_lt_Some in Ev. lia.
    * intros i x Hi Hlt. by apply (sorted_lookup vs i (Z.to_nat (s_mid s)) x value).
    * intros i x Hi Hge. by apply (sorted_lookup_le vs (Z.to_nat (s_mid s)) i value x).
  + cbn [negb andb] in Hend. to_prop. destruct (Hcur eq_refl) as [|Hne]; [lia|]. destruct (Z.eqb_spec value (s_cur s)); [congruence|].
    exists (Z.to_nat (s_min s)). rewrite bool_decide_false.
    * rewrite Z2Nat.id by lia. split; [done|]. split_and!; [lia|intros i x Hi Hlt; apply (Hbelow i); [done|lia]|].
      intros i x Hi Hge. pose proof (Habove i x Hi ltac:(lia)). lia.
    * intros (i & Hi)%list_elem_of_lookup. destruct (decide (Z.of_nat i < s_min s)).
      -- pose proof (Hbelow i value Hi ltac:(lia)). lia.
      -- pose proof (Habove i value Hi ltac:(lia)). lia.
Qed.
End Search.

(** ** Insertion and deletion in lists *)

Definition insert_at (pos : nat) (v : Z) (vs : list Z) : list Z := take pos vs ++ v :: drop pos vs.

Lemma length_insert_at pos v vs : length (insert_at pos v vs) = S (length vs).
Proof. unfold insert_at. rewrite length_app. cbn [length]. rewrite length_take, length_drop. lia. Qed.

Lemma lookup_insert_at pos v vs i x :
  (pos <= length vs)%nat -> insert_at pos v vs !! i = Some x ->
  ((i < pos)%nat /\ vs !! i = Some x) \/ (i = pos /\ x = v) \/ ((pos < i)%nat /\ vs !! (i - 1)%nat = Some x).
Proof.
  intros Hp. unfold insert_at. intros [Hi|[Hi Hx]]%lookup_app_Some.
  - left. apply lookup_take_Some in Hi as [? ?]. done.
  - rewrite length_take, Nat.min_l in Hi, Hx by done. destruct (i - pos)%nat as [|k] eqn:Ek; simplify_eq/=.
    + right. left. split; [lia|done].
    + right. right. rewrite lookup_drop in Hx. split; [lia|]. by replace (i - 1)%nat with (pos + k)%nat by lia.
Qed.

Lemma insert_at_sorted pos v vs :
  StronglySorted Z.lt vs -> splits vs v pos -> v ∉ vs -> StronglySorted Z.lt (insert_at pos v vs).
Proof.
  intros Hs (Hp & Hlt & Hge) Hv.
  assert (forall i x, vs !! i = Some x -> (pos <= i)%nat -> v < x) as Hgt.
  { intros i x Hi Hpi. pose proof (Hge i x Hi Hpi). destruct (decide (x = v)) as [->|]; [|lia].
    exfalso. by apply Hv, (list_elem_of_lookup_2 vs i). }
  apply sorted_of_lookup. intros i j x y Hi Hj Hij.
  apply lookup_insert_at in Hi as [[? ?]|[[-> ->]|[? ?]]], Hj as [[? ?]|[[-> ->]|[? ?]]]; try done; try lia;
    try solve [eapply sorted_lookup; [done| | |]; [done|done|lia]].
  - by eapply Hlt.
  - eapply Hgt; [done|lia].
Qed.

Lemma elem_of_insert_at pos v vs x : x ∈ insert_at pos v vs <-> x = v \/ x ∈ vs.
Proof.
  unfold insert_at. rewrite elem_of_app, elem_of_cons. rewrite <- (take_drop pos vs) at 3. rewrite elem_of_app. tauto.
Qed.

Lemma delete_sorted pos (vs : list Z) : StronglySorted Z.lt vs -> StronglySorted Z.lt (delete pos vs).
Proof.
  intros Hs. apply sorted_of_lookup. intros i j x y Hi Hj Hij.
  destruct (decide (i < pos)%nat), (decide (j < pos)%nat); try lia;
    rewrite ?list_lookup_delete_lt, ?list_lookup_delete_ge in Hi by lia;
    rewrite ?list_lookup_delete_lt, ?list_lookup_delete_ge in Hj by lia;
    (eapply sorted_lookup; [exact Hs|exact Hi|exact Hj|lia]).
Qed.

Lemma elem_of_delete_sorted pos v (vs : list Z) x :
  StronglySorted Z.lt vs -> vs !! pos = Some v -> x ∈ delete pos vs <-> x ∈ vs /\ x <> v.
Proof.
  intros Hs Hv. rewrite !list_elem_of_lookup. split.
  - intros (i & Hi). destruct (decide (i < pos)%nat).
    + rewrite list_lookup_delete_lt in Hi by done. split; [eauto|].
      pose proof (sorted_lookup vs i pos x v Hs Hi Hv). lia.
    + rewrite list_lookup_delete_ge in Hi by lia. split; [eauto|].
      pose proof (sorted_lookup vs pos (S i) v x Hs Hv Hi). lia.
  - intros ((i & Hi) & Hne). destruct (decide (i < pos)%nat).
    + exists i. by rewrite list_lookup_delete_lt.
    + assert (i <> pos) by congruence. exists (i - 1)%nat. rewrite list_lookup_delete_ge by lia. rewrite <- Hi. f_equal. lia.
Qed.

(** ** Primitive updates *)

Section Update.
Context (junk : Z).

Lemma intsetResize_ok iset len :
valid_encoding (encoding iset) -> 0 <= len < 2 ^ 30 ->
exists m, intsetResize junk iset len = inr (mk_is (encoding iset) (is_length iset) m) /\
  length m = (elem_width (encoding iset) * Z.to_nat len)%nat /\
  forall w k, (k + w <= length m)%nat -> (k + w <= length (contents iset))%nat -> read w k m = read w k (contents iset).
Proof.
intros He Hl. unfold intsetResize. pose proof (elem_width_enc _ He) as Ew.
assert (0 <= len * encoding iset < 2 ^ 33) as Hb by (destruct He as [-> | [-> | ->]]; lia).
rewrite wrap_u_id by (unfold in_u; lia). unfold SIZE_LIMIT. rewrite (proj2 (Z.leb_le _ _)) by lia.
cbn [assert mbind result_bind]. eexists. split; [done|]. rewrite length_realloc.
split; [rewrite Z2Nat.inj_mul by lia; lia|]. intros w k H1 H2. by apply read_realloc.
Qed.

Lemma intsetSet_ok iset pos v :
valid_encoding (encoding iset) -> in_s (8 * encoding iset) v -> (elem_width (encoding iset) * S pos <= length (contents iset))%nat ->
exists m, intsetSet iset (Z.of_nat pos) v = inr (mk_is (encoding iset) (is_length iset) m) /\
  length m = length (contents iset) /\ elem (elem_width (encoding iset)) pos m = inr v /\
  forall w j, (w * S j <= elem_width (encoding iset) * pos \/ elem_width (encoding iset) * S pos <= w * j)%nat ->
    elem w j m = elem w j (contents iset).
Proof.
intros He Hv Hl. unfold intsetSet. rewrite (proj2 (Z.leb_le _ _)) by lia. rewrite Nat2Z.id. cbn [defined_if mbind result_bind].
destruct (store_ok (elem_width (encoding iset)) (elem_width (encoding iset) * pos) v (contents iset)) as [m E]; [lia|].
rewrite E. exists m. split; [done|]. split; [by eapply store_length|]. split.
- eapply elem_store_same; [done| |apply width_pos]. by rewrite elem_width_enc.
- intros w j Hd. by eapply elem_store_other.
Qed.

Lemma holds_ext w m m' vs :
(forall k, (k + w <= w * length vs)%nat -> read w k m' = read w k m) -> holds w m vs -> holds w m' vs.
Proof.
intros Hr H i v Hi. rewrite <- (H i v Hi). apply elem_ext. apply Hr. apply lookup_lt_Some in Hi. nia.
Qed.

(** ** Upgrade *)

(** During the copy loop the first [k] elements are still at the old width, the others
  are at their new places. *)
Lemma upgrade_loop vs e e' prepend k iset :
valid_encoding e -> valid_encoding e' -> e <= e' -> encoding iset = e' -> (prepend <= 1)%nat -> (k <= length vs)%nat ->
Forall (in_s (8 * e)) vs ->
length (contents iset) = (elem_width e' * S (length vs))%nat ->
holds (elem_width e) (contents iset) (take k vs) ->
(forall i v, (k <= i)%nat -> vs !! i = Some v -> elem (elem_width e') (i + prepend) (contents iset) = inr v) ->
exists m, for_each (fun iset i => v ← intsetGetEncoded iset (Z.of_nat i) e; intsetSet iset (Z.of_nat i + Z.of_nat prepend) v)
  iset (rev (seq 0 k)) = inr (mk_is e' (is_length iset) m) /\ length m = length (contents iset) /\
  forall i v, vs !! i = Some v -> elem (elem_width e') (i + prepend) m = inr v.
Proof.
intros He He' Hee Eenc Hpre. revert iset Eenc. induction k as [|k IH]; intros iset Eenc Hk Hin Hlen Hold Hnew.
{ exists (contents iset). destruct iset; simpl in *. subst. split_and!; [done..|]. intros i v Hi. apply Hnew; [lia|done]. }
rewrite seq_S, rev_app_distr. cbn [rev app plus for_each].
destruct (lookup_lt_is_Some_2 vs k) as [v Ev]; [lia|].
rewrite intsetGetEncoded_nat, (Hold k v) by (apply lookup_take_Some; split; [done|lia]). cbn [mbind result_bind].
assert (in_s (8 * e') v) as Hv.
{ rewrite Forall_lookup in Hin. specialize (Hin k v Ev). unfold in_s in *. destruct He as [-> | [-> | ->]], He' as [-> | [-> | ->]]; simpl in *; lia. }
pose proof (elem_width_enc _ He). pose proof (elem_width_enc _ He'). pose proof (width_pos e').
assert (elem_width e <= elem_width e')%nat as Hww by lia.
rewrite <- Nat2Z.inj_add. destruct (intsetSet_ok iset (k + prepend) v) as (m & -> & Hlm & Hsame & Hother); rewrite ?Eenc; [done|done|nia|].
cbn [mbind result_bind]. rewrite Eenc in *.
destruct (IH (mk_is e' (is_length iset) m)) as (m' & -> & Hlm' & Hall); cbn [encoding contents is_length]; [done|lia|done|lia| | |].
- intros i x Hi. apply lookup_take_Some in Hi as [Hi Hik]. rewrite Hother by (left; nia). apply Hold.
  apply lookup_take_Some. split; [done|lia].
- intros i x Hki Hi. destruct (decide (i = k)) as [->|]; [by simplify_eq|]. rewrite Hother by (right; nia). apply Hnew; [lia|done].
- exists m'. cbn [contents is_length] in *. split_and!; [done|congruence|done].
Qed.

Lemma intsetUpgradeAndAdd_ok iset vs value :
intset_rep iset vs -> in_s 64 value -> encoding iset < intsetValueEncoding value -> Z.of_nat (length vs) + 1 < 2 ^ 29 ->
exists iset', intsetUpgradeAndAdd junk iset value = inr iset' /\
  intset_rep iset' (if value <? 0 then value :: vs else vs ++ [value]) /\ value ∉ vs.
Proof.
intros Hrep Hv Henc Hsm. pose proof (rep_range _ _ Hrep) as Hin. destruct Hrep as [He Hlen Hsize Hold Hso _].
pose proof (value_encoding_valid value) as He'. set (e' := intsetValueEncoding value) in *.
assert (in_s (8 * e') value) as Hv' by (apply value_encoding_fits; [done..|lia]).
assert (forall x, x ∈ vs -> in_s (8 * encoding iset) x) as Hin' by (by apply Forall_forall).
assert (~ in_s (8 * encoding iset) value) as Hout by (rewrite <- value_encoding_fits by done; lia).
unfold intsetUpgradeAndAdd. fold e'. rewrite Hlen. rewrite (wrap_u_id 32), (wrap_s_id 32) by (unfold in_u, in_s; simpl; lia).
destruct (intsetResize_ok (mk_is e' (Z.of_nat (length vs)) (contents iset)) (Z.of_nat (length vs) + 1) He' ltac:(lia))
  as (m & -> & Hlm & Hread). cbn [mbind result_bind encoding is_length contents] in *.
rewrite Nat2Z.id. set (prepend := if value <? 0 then 1%nat else 0%nat).
replace (if value <? 0 then 1 else 0) with (Z.of_nat prepend) by (unfold prepend; by case_match).
pose proof (elem_width_enc _ He). pose proof (elem_width_enc _ He').
destruct (upgrade_loop vs (encoding iset) e' prepend (length vs) (mk_is e' (Z.of_nat (length vs)) m))
  as (m' & -> & Hlm' & Hall); cbn [encoding contents is_length] in *; [done|done|lia|done|unfold prepend; case_match; lia|done|done|nia| | |].
- rewrite take_ge by done. apply (holds_ext _ (contents iset)); [|done]. intros k Hk. apply Hread; nia.
- intros i v Hi Hiv. apply lookup_lt_Some in Hiv. lia.
- cbn [mbind result_bind is_length]. set (pos := if value <? 0 then 0%nat else length vs).
  replace (if negb (Z.of_nat prepend =? 0) then 0 else Z.of_nat (length vs)) with (Z.of_nat pos) by (unfold pos, prepend; by case_match).
  destruct (intsetSet_ok (mk_is e' (Z.of_nat (length vs)) m') pos value) as (m'' & -> & Hlm'' & Hsame & Hother);
    cbn [encoding contents is_length] in *; [done|done|unfold pos; case_match; nia|].
  cbn [mbind result_bind encoding contents is_length]. rewrite wrap_u_id by (unfold in_u; lia). eexists. split; [done|].
  assert (value ∉ vs) as Hnotin by (intros Hx; by apply Hout, Hin'). split; [|done].
  assert (forall x, x ∈ vs -> if value <? 0 then value < x else x < value) as Hside.
  { intros x Hx. specialize (Hin' x Hx). unfold in_s in Hout, Hin'. case_match; to_prop; destruct He as [E|[E|E]]; rewrite E in *; simpl in *; lia. }
  split; cbn [encoding contents is_length]; [done|case_match; rewrite ?length_app; simpl; lia|case_match; rewrite ?length_app; simpl; nia| | |case_match; rewrite ?length_app; simpl; lia].
  + unfold pos, prepend in *. destruct (value <? 0).
    * intros [|i] v Hi; simplify_eq/=; [done|]. rewrite Hother by (right; nia). rewrite <- (Hall i v Hi). f_equal. lia.
    * intros i v [Hi|[Hi Hx]]%lookup_app_Some.
      -- pose proof (lookup_lt_Some _ _ _ Hi). rewrite Hother by (left; nia). rewrite <- (Hall i v Hi). f_equal. lia.
      -- destruct (i - length vs)%nat eqn:Ei; simplify_eq/=. by replace i with (length vs) by lia.
  + destruct (value <? 0); [constructor; [done|by apply Forall_forall]|].
    apply sorted_of_lookup. intros i j x y Hi Hj Hij. apply lookup_app_Some in Hi as [Hi|[? Hi]], Hj as [Hj|[? Hj]].
    * by eapply sorted_lookup.
    * destruct (j - length vs)%nat; simplify_eq/=. apply Hside. by eapply list_elem_of_lookup_2.
    * apply lookup_lt_Some in Hj. lia.
    * destruct (i - length vs)%nat eqn:?, (j - length vs)%nat eqn:?; simplify_eq/=. lia.
Qed.

(** ** Add, remove, find *)

Lemma intsetMoveTail_ok iset n from to :
valid_encoding (encoding iset) -> is_length iset = Z.of_nat n -> Z.of_nat n < 2 ^ 29 -> (from <= n)%nat ->
(elem_width (encoding iset) * n <= length (contents iset))%nat ->
(elem_width (encoding iset) * (to + (n - from)) <= length (contents iset))%nat ->
exists m, intsetMoveTail iset (Z.of_nat from) (Z.of_nat to) = inr (mk_is (encoding iset) (is_length iset) m) /\
  length m = length (contents iset) /\
  (forall k, (k < n - from)%nat -> elem (elem_width (encoding iset)) (to + k) m = elem (elem_width (encoding iset)) (from + k) (contents iset)) /\
  (forall k, (k < to)%nat -> elem (elem_width (encoding iset)) k m = elem (elem_width (encoding iset)) k (contents iset)).
Proof.
intros He En Hn Hf Hl1 Hl2. unfold intsetMoveTail. rewrite En, !Nat2Z.id. pose proof (elem_width_enc _ He) as Ew.
set (w := elem_width (encoding iset)) in *. assert (w <= 8)%nat as Hw by (destruct He as [E|[E|E]]; lia).
rewrite (wrap_u_id 32 (_ - _)), (wrap_u_id 32) by (unfold in_u; try split; nia).
replace (Z.to_nat ((Z.of_nat n - Z.of_nat from) * Z.of_nat w)) with (w * (n - from))%nat by nia.
destruct (memmove_ok (w * to) (w * from) (w * (n - from)) (contents iset)) as (m & -> & Hlm & Hmove & Hkeep); [nia|nia|].
cbn [mbind result_bind]. exists m. split; [done|]. split; [done|]. split; intros k Hk; apply elem_ext.
- replace (w * (to + k))%nat with (w * to + w * k)%nat by lia. replace (w * (from + k))%nat with (w * from + w * k)%nat by lia.
  apply Hmove. nia.
- apply Hkeep. left. nia.
Qed.

Lemma intsetAdd_ok iset vs value :
intset_rep iset vs -> in_s 64 value -> Z.of_nat (length vs) + 1 < 2 ^ 29 ->
exists iset' vs', intsetAdd junk iset value = inr (iset', bool_decide (value ∉ vs)) /\ intset_rep iset' vs' /\
  (forall x, x ∈ vs' <-> x = value \/ x ∈ vs) /\ (length vs' <= S (length vs))%nat.
Proof.
intros Hrep Hv Hsm. unfold intsetAdd. destruct (Z.ltb_spec (encoding iset) (intsetValueEncoding value)) as [Hup|Hfit].
{ destruct (intsetUpgradeAndAdd_ok iset vs value Hrep Hv Hup Hsm) as (iset' & -> & Hrep' & Hnin).
  cbn [mbind result_bind]. eexists _, _. rewrite bool_decide_true by done. split; [done|]. split; [done|]. split.
  - intros x. case_match; [by rewrite elem_of_cons|]. rewrite elem_of_app, list_elem_of_singleton. tauto.
  - case_match; rewrite ?length_app; simpl; lia. }
destruct (intsetSearch_ok iset vs value Hrep) as (pos & -> & Hsp). cbn [mbind result_bind].
destruct (decide (value ∈ vs)) as [Hin|Hnin].
{ rewrite bool_decide_true by done. exists iset, vs. rewrite bool_decide_false by tauto. split; [done|]. split; [done|]. split; [naive_solver|lia]. }
rewrite bool_decide_false by done. pose proof Hrep as [He Hlen Hsize Hold Hso _]. pose proof Hsp as (Hpos & _ & _).
rewrite Hlen. rewrite (wrap_u_id 32 (Z.of_nat (length vs) + 1)) by (unfold in_u; lia).
destruct (intsetResize_ok iset (Z.of_nat (length vs) + 1) He ltac:(lia)) as (m & -> & Hlm & Hread).
cbn [mbind result_bind is_length]. pose proof (width_pos (encoding iset)) as Hw. set (w := elem_width (encoding iset)) in *.
assert (holds w m vs) as Hm by (apply (holds_ext _ (contents iset)); [|done]; intros k Hk; apply Hread; nia).
rewrite Hlen.
assert (exists m', (if Z.of_nat pos <? Z.of_nat (length vs) then
    intsetMoveTail (mk_is (encoding iset) (Z.of_nat (length vs)) m) (Z.of_nat pos) (u32 (Z.of_nat pos + 1))
    else mret (mk_is (encoding iset) (Z.of_nat (length vs)) m)) = inr (mk_is (encoding iset) (Z.of_nat (length vs)) m') /\
    length m' = length m /\
    (forall i v, vs !! i = Some v -> (i < pos)%nat -> elem w i m' = inr v) /\
    (forall i v, vs !! i = Some v -> (pos <= i)%nat -> elem w (S i) m' = inr v)) as (m' & -> & Hlm' & Hbelow & Habove).
{ destruct (Z.ltb_spec (Z.of_nat pos) (Z.of_nat (length vs))) as [Hlt|Hge].
  - rewrite wrap_u_id by (unfold in_u; lia). replace (Z.of_nat pos + 1) with (Z.of_nat (S pos)) by lia.
    destruct (intsetMoveTail_ok (mk_is (encoding iset) (Z.of_nat (length vs)) m) (length vs) pos (S pos))
      as (m' & -> & Hlm' & Hmove & Hkeep); cbn [encoding is_length contents]; fold w; [done|done|lia|done|nia|nia|].
    exists m'. cbn [encoding is_length contents] in *. split; [done|]. split; [done|]. split.
    + intros i v Hi Hip. rewrite Hkeep by lia. by apply Hm.
    + intros i v Hi Hip. pose proof (lookup_lt_Some _ _ _ Hi). replace (S i) with (S pos + (i - pos))%nat by lia.
      rewrite Hmove by lia. replace (pos + (i - pos))%nat with i by lia. by apply Hm.
  - exists m. split; [done|]. split; [done|]. split; [intros; by apply Hm|]. intros i v Hi. apply lookup_lt_Some in Hi. lia. }
cbn [mbind result_bind].
destruct (intsetSet_ok (mk_is (encoding iset) (Z.of_nat (length vs)) m') pos value) as (m'' & -> & Hlm'' & Hsame & Hother);
  cbn [encoding contents is_length] in *; fold w; [done|by apply value_encoding_fits|nia|]; fold w in Hsame, Hother.
cbn [mbind result_bind encoding contents is_length]. rewrite wrap_u_id by (unfold in_u; lia).
rewrite bool_decide_true by done. eexists _, (insert_at pos value vs). split; [done|]. split; [|split].
- split; cbn [encoding contents is_length]; rewrite ?length_insert_at; [done|lia|fold w; nia| |by apply insert_at_sorted|lia].
  fold w. intros i v Hi. apply lookup_insert_at in Hi as [[? Hi]|[[-> ->]|[? Hi]]]; [| | |done].
  + rewrite Hother by (left; nia). by apply Hbelow.
  + done.
  + rewrite Hother by (right; nia). replace i with (S (i - 1)) by lia. apply Habove; [done|lia].
- intros x. apply elem_of_insert_at.
- by rewrite length_insert_at.
Qed.

Lemma intsetRemove_ok iset vs value :
intset_rep iset vs -> in_s 64 value ->
exists iset' vs', intsetRemove junk iset value = inr (iset', bool_decide (value ∈ vs)) /\ intset_rep iset' vs' /\
  (forall x, x ∈ vs' <-> x <> value /\ x ∈ vs) /\ (length vs' <= length vs)%nat.
Proof.
intros Hrep Hv. unfold intsetRemove. pose proof (rep_range _ _ Hrep) as Hrange. rewrite Forall_forall in Hrange.
pose proof Hrep as [He Hlen Hsize Hold Hso Hsm].
destruct (Z.leb_spec (intsetValueEncoding value) (encoding iset)) as [Hfit|Hbig].
2: { assert (value ∉ vs) as Hnin.
     { intros Hin. specialize (Hrange value Hin). apply value_encoding_fits in Hrange; [lia|done|done]. }
     exists iset, vs. rewrite bool_decide_false by done. split; [done|]. split; [done|]. split; [naive_solver|lia]. }
destruct (intsetSearch_ok iset vs value Hrep) as (pos & -> & Hsp). cbn [mbind result_bind].
destruct (decide (value ∈ vs)) as [Hin|Hnin].
2: { rewrite bool_decide_false by done. exists iset, vs. split; [done|]. split; [done|]. split; [naive_solver|lia]. }
rewrite bool_decide_true by done. pose proof (splits_elem vs value pos Hso Hsp Hin) as Epos.
pose proof (lookup_lt_Some _ _ _ Epos) as Hpos. rewrite Hlen. rewrite (wrap_u_id 32 (_ - 1)) by (unfold in_u; lia).
pose proof (width_pos (encoding iset)) as Hw. set (w := elem_width (encoding iset)) in *.
assert (exists m', (if Z.of_nat pos <? Z.of_nat (length vs) - 1 then intsetMoveTail iset (u32 (Z.of_nat pos + 1)) (Z.of_nat pos)
    else mret iset) = inr (mk_is (encoding iset) (Z.of_nat (length vs)) m') /\ length m' = length (contents iset) /\
    (forall i v, delete pos vs !! i = Some v -> elem w i m' = inr v)) as (m' & -> & Hlm' & Hdel).
{ destruct (Z.ltb_spec (Z.of_nat pos) (Z.of_nat (length vs) - 1)) as [Hlt|Hge].
  - rewrite wrap_u_id by (unfold in_u; lia). replace (Z.of_nat pos + 1) with (Z.of_nat (S pos)) by lia.
    destruct (intsetMoveTail_ok iset (length vs) (S pos) pos) as (m' & -> & Hlm' & Hmove & Hkeep); [done|done|done|lia|fold w; nia|fold w; nia|].
    exists m'. rewrite Hlen. split; [done|]. split; [done|]. fold w in Hmove, Hkeep. intros i v Hi. destruct (decide (i < pos)%nat).
    + rewrite list_lookup_delete_lt in Hi by done. rewrite Hkeep by done. by apply Hold.
    + rewrite list_lookup_delete_ge in Hi by lia. pose proof (lookup_lt_Some _ _ _ Hi).
      replace i with (pos + (i - pos))%nat by lia. rewrite Hmove by lia. replace (S pos + (i - pos))%nat with (S i) by lia. by apply Hold.
  - exists (contents iset). destruct iset as [e l c]; simpl in *. subst l. split; [done|]. split; [done|]. intros i v Hi.
    destruct (decide (i < pos)%nat).
    + rewrite list_lookup_delete_lt in Hi by done. by apply Hold.
    + rewrite list_lookup_delete_ge in Hi by lia. apply lookup_lt_Some in Hi. lia. }
cbn [mbind result_bind].
destruct (intsetResize_ok (mk_is (encoding iset) (Z.of_nat (length vs)) m') (Z.of_nat (length vs) - 1) He ltac:(lia))
  as (m & -> & Hlm & Hread). cbn [mbind result_bind encoding contents is_length] in *. fold w in Hlm.
assert (length (delete pos vs) = (length vs - 1)%nat) as Hld by (by apply length_delete).
eexists _, (delete pos vs). split; [done|]. split; [|split].
- split; cbn [encoding contents is_length]; rewrite ?Hld; [done|lia|fold w; nia| |by apply delete_sorted|lia].
  fold w. intros i v Hi. rewrite <- (Hdel i v Hi). apply elem_ext. pose proof (lookup_lt_Some _ _ _ Hi). apply Hread; nia.
- intros x. rewrite (elem_of_delete_sorted pos value vs x Hso Epos). tauto.
- lia.
Qed.

Lemma intsetFind_ok iset vs value :
intset_rep iset vs -> in_s 64 value -> intsetFind iset value = inr (bool_decide (value ∈ vs)).
Proof.
intros Hrep Hv. unfold intsetFind. destruct (Z.leb_spec (intsetValueEncoding value) (encoding iset)) as [Hfit|Hbig].
- destruct (intsetSearch_ok iset vs value Hrep) as (pos & -> & _). done.
- rewrite bool_decide_false; [done|]. intros Hin. pose proof (rep_range _ _ Hrep) as Hr. rewrite Forall_forall in Hr.
  specialize (Hr value Hin). apply value_encoding_fits in Hr; [lia|done|apply Hrep].
Qed.
End Update.

(** ** Refinement of a mathematical set *)

Inductive set_op := SAdd (v : Z) | SRemove (v : Z) | SFind (v : Z).
Definition op_value (o : set_op) : Z := match o with SAdd v | SRemove v | SFind v => v end.

(** One operation on the byte block, with the answer the caller sees. *)
Definition intset_op (junk : Z) (iset : intset) (o : set_op) : result (intset * bool) :=
  match o with
  | SAdd v => intsetAdd junk iset v
  | SRemove v => intsetRemove junk iset v
  | SFind v => b ← intsetFind iset v; mret (iset, b)
  end.
Fixpoint intset_ops (junk : Z) (iset : intset) (os : list set_op) : result (intset * list bool) :=
  match os with
  | [] => mret (iset, [])
  | o :: os => '(iset, b) ← intset_op junk iset o; '(iset, bs) ← intset_ops junk iset os; mret (iset, b :: bs)
  end.

(** The same on a set. *)
Definition spec_op (X : gset Z) (o : set_op) : gset Z * bool :=
  match o with
  | SAdd v => ({[ v ]} ∪ X, bool_decide (v ∉ X))
  | SRemove v => (X ∖ {[ v ]}, bool_decide (v ∈ X))
  | SFind v => (X, bool_decide (v ∈ X))
  end.
Fixpoint spec_ops (X : gset Z) (os : list set_op) : gset Z * list bool :=
  match os with
  | [] => (X, [])
  | o :: os => let '(X, b) := spec_op X o in let '(X, bs) := spec_ops X os in (X, b :: bs)
  end.

Lemma intsetNew_rep : intset_rep intsetNew [].
Proof. split; cbn; [by left|done|done|by intros ? ? ?|constructor|lia]. Qed.

Lemma intset_op_ok junk iset vs o :
  intset_rep iset vs -> in_s 64 (op_value o) -> Z.of_nat (length vs) + 1 < 2 ^ 29 ->
  exists iset' vs', intset_op junk iset o = inr (iset', (spec_op (list_to_set vs) o).2) /\ intset_rep iset' vs' /\
    list_to_set vs' = (spec_op (list_to_set vs) o).1 /\ (length vs' <= S (length vs))%nat.
Proof.
  intros Hrep Hv Hsm. destruct o as [v|v|v]; cbn [intset_op spec_op op_value fst snd] in *.
  - destruct (intsetAdd_ok junk iset vs v Hrep Hv Hsm) as (iset' & vs' & -> & Hrep' & Hin & Hlen). exists iset', vs'.
    split_and!; [do 2 f_equal; apply bool_decide_ext; by rewrite elem_of_list_to_set|done| |done].
    apply set_eq. intros x. rewrite elem_of_union, elem_of_singleton, !elem_of_list_to_set. apply Hin.
  - destruct (intsetRemove_ok junk iset vs v Hrep Hv) as (iset' & vs' & -> & Hrep' & Hin & Hlen). exists iset', vs'.
    split_and!; [do 2 f_equal; apply bool_decide_ext; by rewrite elem_of_list_to_set|done| |lia].
    apply set_eq. intros x. rewrite elem_of_difference, elem_of_singleton, !elem_of_list_to_set, Hin. tauto.
  - rewrite (intsetFind_ok iset vs v Hrep Hv). exists iset, vs. cbn [mbind result_bind].
    split_and!; [unfold mret, result_ret; do 2 f_equal; apply bool_decide_ext; by rewrite elem_of_list_to_set|done|done|lia].
Qed.

Lemma intset_ops_ok junk os : forall iset vs,
  intset_rep iset vs -> Forall (fun o => in_s 64 (op_value o)) os -> Z.of_nat (length vs + length os) < 2 ^ 29 ->
  exists iset' vs', intset_ops junk iset os = inr (iset', (spec_ops (list_to_set vs) os).2) /\ intset_rep iset' vs' /\
    list_to_set vs' = (spec_ops (list_to_set vs) os).1.
Proof.
  induction os as [|o os IH]; intros iset vs Hrep Hos Hsm; cbn [intset_ops spec_ops].
  { exists iset, vs. done. }
  apply Forall_cons in Hos as [Ho Hos]. cbn [length] in Hsm.
  destruct (intset_op_ok junk iset vs o Hrep Ho ltac:(lia)) as (iset1 & vs1 & -> & Hrep1 & E1 & Hl1). cbn [mbind result_bind].
  destruct (IH iset1 vs1 Hrep1 Hos ltac:(lia)) as (iset2 & vs2 & -> & Hrep2 & E2). cbn [mbind result_bind].
  rewrite E1 in *. destruct (spec_op (list_to_set vs) o) as [X b]. cbn [fst snd] in *.
  exists iset2, vs2. destruct (spec_ops X os) as [Y bs]. done.
Qed.

(** C16: the integer set refines a mathematical set: any sequence of fewer than 2^29 additions,
    removals and look-ups of 64-bit integers, starting from [intsetNew], gives the answers
    a set gives; the memory accesses stay inside the block, through every upgrade of the
    encoding, and the block finally holds exactly the elements, in increasing order. *)
Theorem intset_refines_set junk os :
  Forall (fun o => in_s 64 (op_value o)) os -> Z.of_nat (length os) < 2 ^ 29 ->
  exists iset vs, intset_ops junk intsetNew os = inr (iset, (spec_ops ∅ os).2) /\
    list_to_set vs = (spec_ops ∅ os).1 /\ StronglySorted Z.lt vs /\ intsetLen iset = Z.of_nat (length vs) /\
    forall i, intsetGet iset (Z.of_nat i) = inr (vs !! i).
Proof.
  intros Hos Hsm. destruct (intset_ops_ok junk os intsetNew [] intsetNew_rep Hos Hsm) as (iset & vs & E & Hrep & Evs).
  exists iset, vs. split_and!; [done|done|apply Hrep|apply Hrep|]. intros i. unfold intsetGet. rewrite (rep_len _ _ Hrep).
  destruct (Z.ltb_spec (Z.of_nat i) (Z.of_nat (length vs))) as [Hlt|Hge].
  - destruct (lookup_lt_is_Some_2 vs i) as [v Hv]; [lia|]. by rewrite (rep_get _ _ _ _ Hrep Hv), Hv.
  - by rewrite lookup_ge_None_2 by lia.
Qed.

Lemma intset_refines_set_witness :
  let os := [SAdd 5; SAdd (-70000); SAdd 5; SAdd (2 ^ 40); SRemove 5; SFind (2 ^ 40)] in
  exists iset vs, intset_ops 0 intsetNew os = inr (iset, (spec_ops ∅ os).2) /\
    list_to_set vs = (spec_ops ∅ os).1 /\ StronglySorted Z.lt vs /\ intsetLen iset = Z.of_nat (length vs) /\
    forall i, intsetGet iset (Z.of_nat i) = inr (vs !! i).
Proof.
  intros os. apply (intset_refines_set 0 os).
  - repeat constructor; unfold in_s; simpl; lia.
  - simpl. lia.
Defined.

(** ** Integrity check of a serialised set *)

Lemma holds_exists w m n : (w * n <= length m)%nat -> exists vs, length vs = n /\ holds w m vs.
Proof.
  intros Hl. exists ((fun i => match elem w i m with inr v => v | inl _ => 0 end) <$> seq 0 n).
  split; [by rewrite length_fmap, length_seq|]. intros i v Hi. apply list_lookup_fmap_Some in Hi as (j & -> & Hj).
  apply lookup_seq in Hj as [-> Hj]. unfold elem. simpl. rewrite load_ok by nia. done.
Qed.

Lemma sorted_cons2 x y (l : list Z) : StronglySorted Z.lt (x :: y :: l) <-> x < y /\ StronglySorted Z.lt (y :: l).
Proof.
  split.
  - intros H. apply StronglySorted_inv in H as [H1 H2]. apply Forall_cons in H2. tauto.
  - intros [Hxy H]. constructor; [done|]. apply StronglySorted_inv in H as [_ H]. constructor; [done|].
    apply (Forall_impl _ _ _ H). intros. lia.
Qed.

Lemma integrity_scan_ok iset vs n i prev :
  holds (elem_width (encoding iset)) (contents iset) vs -> (i + n = length vs)%nat ->
  exists b, integrity_scan iset n (Z.of_nat i) prev = inr b /\ (b = true <-> StronglySorted Z.lt (prev :: drop i vs)).
Proof.
  intros Hh. revert i prev. induction n as [|n IH]; intros i prev Hn; cbn [integrity_scan].
  - exists true. rewrite drop_ge by lia. split; [done|]. split; [|done]. by repeat constructor.
  - destruct (lookup_lt_is_Some_2 vs i) as [cur Ecur]; [lia|]. unfold intsetGet_. rewrite intsetGetEncoded_nat, (Hh i cur Ecur).
    cbn [mbind result_bind]. rewrite (drop_S vs cur i Ecur). setoid_rewrite sorted_cons2.
    destruct (Z.leb_spec cur prev); [exists false; split; [done|]; split; [done|lia]|].
    replace (Z.of_nat i + 1) with (Z.of_nat (S i)) by lia. destruct (IH (S i) cur ltac:(lia)) as (b & -> & Hb).
    exists b. split; [done|]. rewrite Hb. split; [done|tauto].
Qed.

(** The deep integrity check accepts a blob of up to a gigabyte exactly when it is a
    non-empty, strictly sorted set in one of the three encodings that fills the blob, so a
    corrupt payload is never used as a set; it reads nothing outside the blob. *)
Theorem integrity_check_exact p :
  is_bytes p -> Z.of_nat (length p) < 2 ^ 30 ->
  exists b, intsetValidateIntegrity p true = inr b /\
    (b = true <-> exists iset vs, intset_of_blob p = inr iset /\ vs <> [] /\ intset_rep iset vs).
Proof.
  intros Hp Hl. unfold intsetValidateIntegrity. destruct (Z.ltb_spec (Z.of_nat (length p)) 8) as [Hs|Hs].
  { exists false. split; [done|]. split; [done|]. intros (iset & vs & E & _). exfalso. unfold intset_of_blob in E.
    destruct (load 4 0 p); [done|]. cbn [mbind result_bind] in E. destruct (load 4 4 p) eqn:E4; [done|].
    apply load_inv in E4. lia. }
  assert (exists e l, intset_of_blob p = inr (mk_is e l (drop 8 p)) /\ 0 <= l) as (e & l & -> & Hl0).
  { unfold intset_of_blob. rewrite !load_ok by lia. cbn [mbind result_bind]. eexists _, _. split; [done|].
    apply le_val_range. by apply Forall_take, Forall_drop. }
  cbn [mbind result_bind encoding is_length]. unfold INTSET_ENC_INT16, INTSET_ENC_INT32, INTSET_ENC_INT64.
  assert (forall b, (forall vs, intset_rep (mk_is e l (drop 8 p)) vs -> vs <> [] -> False) ->
    b = false -> exists b', inr (A:=fault) b = inr b' /\ (b' = true <-> exists iset vs, inr (A:=fault) (mk_is e l (drop 8 p)) = inr iset /\ vs <> [] /\ intset_rep iset vs)) as Hno.
  { intros b Hn ->. exists false. split; [done|]. split; [done|]. intros (iset & vs & E & Hne & Hrep). injection E as <-. by destruct (Hn vs). }
  destruct (negb _) eqn:Eenc.
  { apply Hno; [|done]. intros vs [He] _. unfold valid_encoding in He. cbn [encoding] in He. to_prop. lia. }
  assert (valid_encoding e) as He.
  { unfold valid_encoding. destruct (Z.eqb_spec e 8), (Z.eqb_spec e 4), (Z.eqb_spec e 2); try done; auto. }
  pose proof (elem_width_enc e He) as Ew.
  destruct (Z.eqb_spec (8 + l * e) (Z.of_nat (length p))) as [Esz|Hne]; cbn [negb].
  2: { apply Hno; [|done]. intros vs [_ Hlen Hsize] _. cbn [encoding is_length contents] in *. rewrite length_drop in Hsize. nia. }
  destruct (Z.eqb_spec l 0) as [->|Hl1].
  { apply Hno; [|done]. intros vs [_ Hlen _] Hne. cbn [is_length] in Hlen. destruct vs; [done|]. simpl in Hlen. lia. }
  cbn [negb]. destruct (holds_exists (elem_width e) (drop 8 p) (Z.to_nat l)) as (vs & Hvs & Hh); [rewrite length_drop; nia|].
  destruct (lookup_lt_is_Some_2 vs 0) as [v0 E0]; [lia|].
  unfold intsetGet_ at 1. change 0 with (Z.of_nat 0) at 1. rewrite intsetGetEncoded_nat. cbn [encoding contents]. rewrite (Hh O v0 E0).
  cbn [mbind result_bind]. change 1 with (Z.of_nat 1) at 2.
  destruct (integrity_scan_ok (mk_is e l (drop 8 p)) vs (Z.to_nat (l - 1)) 1 v0 Hh ltac:(lia)) as (b & -> & Hb).
  exists b. split; [done|]. rewrite Hb. assert (v0 :: drop 1 vs = vs) as -> by (destruct vs; simplify_eq/=; by rewrite ?drop_0). split.
  - intros Hso. eexists _, vs. split; [done|]. split; [intros ->; done|]. split; cbn [encoding is_length contents]; [done|lia|rewrite length_drop; nia|done|done|].
    assert (2 <= e) by (destruct He as [-> | [-> | ->]]; lia). nia.
  - intros (iset & vs' & E & Hne & Hrep). injection E as <-. pose proof (rep_len _ _ Hrep) as Hlen. cbn [is_length] in Hlen.
    replace vs with vs'; [apply Hrep|]. apply list_eq_same_length with (length vs'); [lia|lia|].
    intros i x y Hi Hx Hy. pose proof (rep_holds _ _ Hrep i x Hx) as H1. cbn [encoding contents] in H1. rewrite (Hh i y Hy) in H1. by injection H1.
Qed.

Lemma integrity_check_exact_witness :
  let p := [2; 0; 0; 0; 2; 0; 0; 0; 255; 255; 3; 0] in
  exists b, intsetValidateIntegrity p true = inr b /\
    (b = true <-> exists iset vs, intset_of_blob p = inr iset /\ vs <> [] /\ intset_rep iset vs).
Proof.
  intros p. apply (integrity_check_exact p); [|simpl; lia]. repeat constructor; unfold in_u; simpl; lia.
Defined.

(** With 2^29 elements of 64 bits the 32-bit byte count of [intsetMoveTail] wraps to zero:
    nothing is moved, although the caller goes on to store into the gap. *)
Lemma move_tail_wraps m :
  (8 <= length m)%nat -> intsetMoveTail (mk_is 8 (2 ^ 29) m) 0 1 = inr (mk_is 8 (2 ^ 29) m).
Proof.
  intros Hm. unfold intsetMoveTail. cbn [encoding is_length contents]. change (elem_width 8) with 8%nat.
  change (Z.to_nat (u32 (u32 (2 ^ 29 - 0) * Z.of_nat 8))) with 0%nat. unfold memmove. rewrite read_ok by lia.
  cbn [mbind result_bind]. rewrite write_ok by (simpl; lia). cbn [mbind result_bind]. rewrite take_0. cbn [app length].
  change (8 * Z.to_nat 1)%nat with 8%nat. rewrite Nat.add_0_r. by rewrite take_drop.
Qed.
