(* ===== verification/StringMatch.v ===== *)
(** * Glob-style matching

    [stringmatchlen] of Redis's [util.c].  A pattern is the list of its characters; the
    code also reads the character behind it, [next] (a null in the strings of Redis).  What the
    code would do when it goes on behind that one is undefined.  The theorem compares the
    routine, with its early termination through [skipLongerMatches], with the meaning of the
    pattern as a sequence of tokens. *)

From Stdlib Require Import Ascii.
From S2P Require Import Prelude.

Definition chr (c : ascii) : Z := Z.of_nat (nat_of_ascii c).
Definition STAR : Z := chr "*".
Definition QUESTION : Z := chr "?".
Definition LBRACKET : Z := chr "[".
Definition RBRACKET : Z := chr "]".
Definition CARET : Z := chr "^".
Definition BACKSLASH : Z := chr "\".
Definition DASH : Z := chr "-".

Definition tolower (c : Z) : Z := if (chr "A" <=? c) && (c <=? chr "Z") then c + 32 else c.

Section Match.
Context (next : Z) (nocase : bool).

(** [pattern[k]], up to and including the character behind the pattern. *)
Definition peek (p : list Z) (k : nat) : result Z :=
_ ← defined_if (k <=? length p)%nat; mret (nth k p next).

Definition fold_case (c : Z) : Z := if nocase then tolower c else c.

(** [while (patternLen && pattern[1] == '*')] *)
Fixpoint skip_double (p : list Z) : result (list Z) :=
match p with
| _ :: (y :: _) as p' => if y =? STAR then skip_double p' else mret p
| [_] => _ ← defined_if (negb (next =? STAR)); mret p
| [] => mret p
end.

(** [while ( *pattern == '*')] *)
Fixpoint skip_stars (p : list Z) : result (list Z) :=
match p with
| y :: p' => if y =? STAR then skip_stars p' else mret p
| [] => _ ← defined_if (negb (next =? STAR)); mret []
end.

(** One turn after another of the loop over a character class, for the character [c]:
  whether the class contains it, and the pattern behind the class. *)
Fixpoint scan_class (fuel : nat) (p : list Z) (c : Z) (matched : bool) : result (bool * list Z) :=
match fuel with
| O => inl OutOfFuel
| S fuel =>
    p0 ← peek p 0;
    if (p0 =? BACKSLASH) && (2 <=? length p)%nat then
      p1 ← peek p 1; scan_class fuel (drop 2 p) c (if p1 =? c then true else matched)
    else if p0 =? RBRACKET then _ ← defined_if (1 <=? length p)%nat; mret (matched, drop 1 p)
    else if (length p =? 0)%nat then mret (matched, p)
    else
      dash ← (if (3 <=? length p)%nat then p1 ← peek p 1; mret (p1 =? DASH) else mret false);
      if (dash : bool) then
        p2 ← peek p 2;
        let '(start, stop) := if p2 <? p0 then (p2, p0) else (p0, p2) in
        let '(start, stop, c') := (fold_case start, fold_case stop, fold_case c) in
        scan_class fuel (drop 3 p) c (if (start <=? c') && (c' <=? stop) then true else matched)
      else
        scan_class fuel (drop 1 p) c (if fold_case p0 =? fold_case c then true else matched)
end.

(** The value returned, and [*skipLongerMatches]. *)
Fixpoint stringmatchlen_impl (fuel : nat) (p s : list Z) (skip : bool) : result (bool * bool) :=
match fuel with
| O => inl OutOfFuel
| S fuel =>
    match p, s with
    | p0 :: _, c :: s' =>
        let behind (p' : list Z) : result (bool * bool) :=
          match s' with
          | [] => p' ← skip_stars p'; mret (bool_decide (p' = []), skip)
          | _ => stringmatchlen_impl fuel p' s' skip
          end in
        if p0 =? STAR then
          p ← skip_double p;
          if (length p =? 1)%nat then mret (true, skip) else
          (fix try (s : list Z) (skip : bool) : result (bool * bool) :=
             match s with
             | [] => mret (false, true)
             | _ :: s' =>
                 '(m, skip) ← stringmatchlen_impl fuel (drop 1 p) s skip;
                 if (m : bool) then mret (true, skip) else if (skip : bool) then mret (false, skip) else try s' skip
             end) s skip
        else if p0 =? QUESTION then behind (drop 1 p)
        else if p0 =? LBRACKET then
          let p := drop 1 p in
          first ← peek p 0;
          let negate := first =? CARET in
          _ ← defined_if (negb negate || (1 <=? length p)%nat);
          let p := if negate then drop 1 p else p in
          '(m, p) ← scan_class (S (length p)) p c false;
          if xorb negate m then behind p else mret (false, skip)
        else
          let p := if (p0 =? BACKSLASH) && (2 <=? length p)%nat then drop 1 p else p in
          p0 ← peek p 0;
          if fold_case p0 =? fold_case c then behind (drop 1 p) else mret (false, skip)
    | _, _ => mret (bool_decide (p = []) && bool_decide (s = []), skip)
    end
end.

Definition stringmatchlen (p s : list Z) : result bool :=
'(m, _) ← stringmatchlen_impl (S (length p)) p s false; mret m.

(** ** What a pattern means *)

(** An item of a character class: a character after a backslash, a range, a character. *)
Inductive item := Escaped (c : Z) | Range (a b : Z) | Plain (c : Z).

Definition item_ok (c : Z) (i : item) : bool :=
match i with
| Escaped d => d =? c
| Range a b => (fold_case (Z.min a b) <=? fold_case c) && (fold_case c <=? fold_case (Z.max a b))
| Plain d => fold_case d =? fold_case c
end.

(** The items up to the closing bracket or the end of the pattern, and what is behind. *)
Fixpoint class_items (fuel : nat) (p : list Z) : list item * list Z :=
match fuel with
| O => ([], p)
| S fuel =>
    let more i n := let '(its, rest) := class_items fuel (drop n p) in (i :: its, rest) in
    match p with
    | [] => ([], [])
    | p0 :: p' =>
        if (p0 =? BACKSLASH) && (2 <=? length p)%nat then more (Escaped (nth 1 p 0)) 2%nat
        else if p0 =? RBRACKET then ([], p')
        else if (3 <=? length p)%nat && (nth 1 p 0 =? DASH) then more (Range p0 (nth 2 p 0)) 3%nat
        else more (Plain p0) 1%nat
    end
end.

Inductive token := AnySequence | AnyOf (ok : Z -> bool).

(** The first token of a pattern that is not empty, and what is behind it. *)
Definition first_token (p0 : Z) (p' : list Z) : token * list Z :=
if p0 =? STAR then (AnySequence, p')
else if p0 =? QUESTION then (AnyOf (fun _ => true), p')
else if p0 =? LBRACKET then
  let negate := nth 0 p' 0 =? CARET in
  let p := if negate then drop 1 p' else p' in
  let '(its, rest) := class_items (S (length p)) p in
  (AnyOf (fun c => xorb negate (existsb (item_ok c) its)), rest)
else
  let p := if (p0 =? BACKSLASH) && (1 <=? length p')%nat then p' else p0 :: p' in
  (AnyOf (fun c => fold_case (nth 0 p 0) =? fold_case c), drop 1 p).

(** Whether a string matches: every token but [AnySequence] takes one character. *)
Inductive glob : list Z -> list Z -> Prop :=
| glob_end : glob [] []
| glob_any p0 p' rest s1 s2 : first_token p0 p' = (AnySequence, rest) -> glob rest s2 -> glob (p0 :: p') (s1 ++ s2)
| glob_one p0 p' rest ok c s : first_token p0 p' = (AnyOf ok, rest) -> ok c = true -> glob rest s -> glob (p0 :: p') (c :: s).

(** The pattern without the stars at its start. *)
Fixpoint no_stars (p : list Z) : list Z :=
match p with y :: p' => if y =? STAR then no_stars p' else p | [] => [] end.

(** ** Tokens *)

(** The character behind a pattern could be taken for a part of it. *)
Definition harmless : bool := negb ((next =? STAR) || (next =? RBRACKET) || (next =? CARET)).
Hypothesis Hnext : harmless = true.

Lemma next_star : next =? STAR = false.
Proof using Hnext. unfold harmless in Hnext. by destruct (next =? STAR). Qed.
Lemma next_rbracket : next =? RBRACKET = false.
Proof using Hnext. unfold harmless in Hnext. by destruct (next =? STAR), (next =? RBRACKET). Qed.
Lemma next_caret : next =? CARET = false.
Proof using Hnext. unfold harmless in Hnext. by destruct (next =? STAR), (next =? RBRACKET), (next =? CARET). Qed.

Lemma class_items_length fuel p : (length (class_items fuel p).2 <= length p)%nat.
Proof.
revert p. induction fuel as [|fuel IH]; intros p; [done|]. cbn [class_items]. destruct p as [|p0 p']; [done|].
assert (forall i n, (length (let '(its, rest) := class_items fuel (drop n (p0 :: p')) in (i :: its : list item, rest)).2 <=
  length (p0 :: p'))%nat) as H.
{ intros i n. specialize (IH (drop n (p0 :: p'))). destruct (class_items _ _). cbn [snd] in *. rewrite length_drop in IH. lia. }
destruct (_ && _); [apply H|]. destruct (_ =? _); [simpl; lia|]. destruct (_ && _); apply H.
Qed.

Lemma peek_ok p k : (k < length p)%nat -> peek p k = inr (nth k p 0).
Proof. intros. unfold peek. rewrite (proj2 (Nat.leb_le _ _)) by lia. cbn. f_equal. by apply nth_indep. Qed.

Lemma scan_class_ok fuel p c m :
(length p < fuel)%nat ->
scan_class fuel p c m = inr (m || existsb (item_ok c) (class_items fuel p).1, (class_items fuel p).2).
Proof.
revert p m. induction fuel as [|fuel IH]; intros p m Hl; [lia|]. cbn [scan_class class_items].
destruct p as [|p0 p'].
{ unfold peek. cbn [length Nat.leb defined_if mbind result_bind mret result_ret nth]. rewrite next_rbracket, andb_false_r. by destruct m. }
rewrite (peek_ok _ 0) by (simpl; lia). cbn [mbind result_bind].
change (nth 0 (p0 :: p') 0) with p0.
destruct ((p0 =? BACKSLASH) && (2 <=? length (p0 :: p'))%nat) eqn:E1.
{ apply andb_prop in E1 as [_ E1%Nat.leb_le]. rewrite peek_ok by lia. cbn [mbind result_bind].
  rewrite IH by (rewrite length_drop; cbn [length] in *; lia). destruct (class_items fuel (drop 2 (p0 :: p'))) as [its rest].
  cbn [fst snd existsb item_ok]. by destruct (nth 1 (p0 :: p') 0 =? c), m. }
destruct (p0 =? RBRACKET); [cbn; by rewrite orb_false_r|].
change (length (p0 :: p') =? 0)%nat with false. cbn iota.
destruct (3 <=? length (p0 :: p'))%nat eqn:E3; cbn [andb].
- apply Nat.leb_le in E3. rewrite (peek_ok _ 1) by lia. cbn [mbind result_bind mret result_ret].
  destruct (nth 1 (p0 :: p') 0 =? DASH).
  + rewrite (peek_ok _ 2) by lia. cbn [mbind result_bind mret result_ret]. set (p2 := nth 2 (p0 :: p') 0).
    destruct (Z.ltb_spec p2 p0); rewrite IH by (rewrite length_drop; cbn [length] in *; lia);
      destruct (class_items fuel (drop 3 (p0 :: p'))) as [its rest]; cbn [fst snd existsb item_ok];
      rewrite ?(Z.min_r p0 p2), ?(Z.max_l p0 p2), ?(Z.min_l p0 p2), ?(Z.max_r p0 p2) by lia;
      destruct ((_ <=? _) && (_ <=? _)), m; reflexivity.
  + rewrite IH by (rewrite length_drop; cbn [length] in *; lia). destruct (class_items fuel (drop 1 (p0 :: p'))) as [its rest].
    cbn [fst snd existsb item_ok]. by destruct (fold_case p0 =? fold_case c), m.
- cbn [mbind result_bind mret result_ret]. rewrite IH by (rewrite length_drop; cbn [length] in *; lia).
  destruct (class_items fuel (drop 1 (p0 :: p'))) as [its rest]. cbn [fst snd existsb item_ok].
  by destruct (fold_case p0 =? fold_case c), m.
Qed.

Lemma first_token_length p0 p' t rest : first_token p0 p' = (t, rest) -> (length rest <= length p')%nat.
Proof.
unfold first_token. destruct (p0 =? STAR); [by intros [= _ <-]|]. destruct (p0 =? QUESTION); [by intros [= _ <-]|].
destruct (p0 =? LBRACKET).
- set (p := if nth 0 p' 0 =? CARET then _ else _). pose proof (class_items_length (S (length p)) p) as H.
  destruct (class_items _ p) as [its r]. intros [= _ <-]. cbn [snd] in H.
  assert (length p <= length p')%nat by (unfold p; case_match; rewrite ?length_drop; lia). lia.
- intros [= _ <-]. destruct (_ && _) eqn:E; rewrite length_drop; simpl; lia.
Qed.

Lemma first_token_star p0 p' rest : first_token p0 p' = (AnySequence, rest) <-> p0 = STAR /\ rest = p'.
Proof.
unfold first_token. destruct (Z.eqb_spec p0 STAR) as [->|Hne].
- split; [by intros [= <-]|by intros [_ ->]].
- split; [|tauto]. destruct (p0 =? QUESTION); [done|]. destruct (p0 =? LBRACKET); [|done].
  by destruct (class_items _ _).
Qed.

(** ** Matching *)

Lemma glob_nil s : glob [] s <-> s = [].
Proof. split; [by inversion 1|]. intros ->. constructor. Qed.

Lemma glob_star p' s : glob (STAR :: p') s <-> exists s2, s2 `suffix_of` s /\ glob p' s2.
Proof.
split.
- inversion 1 as [|? ? ? s1 s2 Et Hg|? ? ? ? ? ? Et]; subst.
  + apply first_token_star in Et as [_ ->]. exists s2. split; [by exists s1|done].
  + assert (first_token STAR p' = (AnySequence, p')) as Et' by by apply first_token_star. by rewrite Et in Et'.
- intros (s2 & [s1 ->] & Hg). econstructor; [by apply first_token_star|done].
Qed.

Lemma glob_token p0 p' ok rest s :
first_token p0 p' = (AnyOf ok, rest) -> glob (p0 :: p') s <-> exists c s', s = c :: s' /\ ok c = true /\ glob rest s'.
Proof.
intros Et. split.
- inversion 1; subst; [congruence|]. match goal with H : first_token _ _ = _ |- _ => rewrite H in Et end. simplify_eq. eauto.
- intros (c & s' & -> & Hok & Hg). by eapply glob_one.
Qed.

Lemma skip_stars_eq p : skip_stars p = inr (no_stars p).
Proof using Hnext. induction p as [|y p IH]; cbn [skip_stars no_stars]; [by rewrite next_star|]. by destruct (y =? STAR). Qed.

Lemma skip_double_eq p' : skip_double (STAR :: p') = inr (STAR :: no_stars p').
Proof using Hnext.
induction p' as [|y p' IH]; cbn [skip_double no_stars]; [by rewrite next_star|].
destruct (Z.eqb_spec y STAR) as [->|]; [apply IH|done].
Qed.

Lemma skip_stars_length p : (length (no_stars p) <= length p)%nat.
Proof. induction p as [|y p IH]; [done|]. simpl. case_match; simpl; lia. Qed.

Lemma skip_stars_idem p : no_stars (no_stars p) = no_stars p.
Proof. induction p as [|y p IH]; [done|]. simpl. destruct (y =? STAR) eqn:E; [done|]. simpl. by rewrite E. Qed.

Lemma glob_empty p : glob p [] <-> no_stars p = [].
Proof.
induction p as [|y p IH]; [rewrite glob_nil; done|]. cbn [no_stars]. destruct (Z.eqb_spec y STAR) as [->|Hne].
- rewrite glob_star. split.
  + intros (s2 & Hs & Hg). apply suffix_nil_inv in Hs as ->. by apply IH.
  + intros E. exists []. split; [done|]. by apply IH.
- split; [|done]. destruct (first_token y p) as [[|ok] rest] eqn:Et; [apply first_token_star in Et; naive_solver|].
  intros (c & s' & ? & _)%(glob_token _ _ _ _ _ Et). done.
Qed.

Lemma glob_skip_stars p s :
(exists s2, s2 `suffix_of` s /\ glob p s2) <-> (exists s2, s2 `suffix_of` s /\ glob (no_stars p) s2).
Proof.
induction p as [|y p IH]; [done|]. cbn [no_stars]. destruct (Z.eqb_spec y STAR) as [->|Hne]; [|done]. rewrite <- IH. split.
- intros (s2 & Hs & (s3 & Hs3 & Hg)%glob_star). exists s3. split; [by trans s2|done].
- intros (s2 & Hs & Hg). exists s2. split; [done|]. apply glob_star. by exists s2.
Qed.

Lemma suffix_cases {A} (s2 : list A) c s : s2 `suffix_of` c :: s -> s2 = c :: s \/ s2 `suffix_of` s.
Proof. intros [[|x k] E]; simplify_eq/=; [by left|]. right. by exists k. Qed.

(** What the routine tells its caller: the answer, and when it raises
  [skipLongerMatches], that no later part of the string matches either. *)
Definition answers (p s : list Z) (r : result (bool * bool)) : Prop :=
exists m k, r = inr (m, k) /\ (m = true <-> glob p s) /\
  (k = true -> forall s2, s2 `suffix_of` s -> ~ glob p s2).

Section Step.
Context (fuel : nat) (IH : forall p s, (length p < fuel)%nat -> s <> [] -> answers p s (stringmatchlen_impl fuel p s false)).

Lemma behind_ok p' s' :
(length p' < fuel)%nat ->
answers p' s' (match s' with [] => p' ← skip_stars p'; mret (bool_decide (p' = []), false) | _ => stringmatchlen_impl fuel p' s' false end).
Proof.
intros Hl. destruct s' as [|c s']; [|by apply IH]. rewrite skip_stars_eq. eexists _, _. split; [done|].
rewrite bool_decide_eq_true, glob_empty. done.
Qed.

Lemma token_ok p0 p' ok rest c s' r :
first_token p0 p' = (AnyOf ok, rest) -> ok c = true -> answers rest s' r -> answers (p0 :: p') (c :: s') r.
Proof.
intros Et Hok (m & k & -> & Hm & Hk). exists m, k. split; [done|]. split.
- rewrite Hm, (glob_token _ _ _ _ _ Et). split; [eauto|]. by intros (? & ? & [= <- <-] & _ & Hg).
- intros Ek s2 Hs (d & s3 & -> & _ & Hg)%(glob_token _ _ _ _ _ Et). apply (Hk Ek s3); [|done].
apply suffix_cases in Hs as [E|Hs]; [by injection E as _ ->|]. trans (d :: s3); [by exists [d]|done].
Qed.

Lemma mismatch_ok p0 p' ok rest c s' :
first_token p0 p' = (AnyOf ok, rest) -> ok c = false -> answers (p0 :: p') (c :: s') (mret (false, false)).
Proof.
intros Et Hok. exists false, false. split; [done|]. split; [|done]. split; [done|].
intros (? & ? & [= <- <-] & ? & _)%(glob_token _ _ _ _ _ Et). congruence.
Qed.

(** The loop of a star tries the suffixes in turn; the first flag it sees ends it. *)
Lemma try_ok rest s :
(length rest < fuel)%nat -> no_stars rest = rest -> rest <> [] ->
exists m k, (fix try (s : list Z) (skip : bool) : result (bool * bool) :=
 match s with
 | [] => mret (false, true)
 | _ :: s' =>
     '(m, skip) ← stringmatchlen_impl fuel rest s skip;
     if (m : bool) then mret (true, skip) else if (skip : bool) then mret (false, skip) else try s' skip
 end) s false = inr (m, k) /\
(m = true <-> exists s2, s2 `suffix_of` s /\ glob rest s2) /\ (k = true -> m = false).
Proof.
intros Hl Hst Hne. induction s as [|c s IHs].
- exists false, true. split; [done|]. split; [|done]. split; [done|]. intros (s2 & ->%suffix_nil_inv & Hg).
apply glob_empty in Hg. congruence.
- destruct (IH rest (c :: s) Hl ltac:(done)) as (m & k & -> & Hm & Hk). cbn [mbind result_bind]. destruct m.
+ exists true, k. split; [done|]. split; [|].
  * split; [|done]. intros _. exists (c :: s). split; [done|]. by apply Hm.
  * intros Ek. exfalso. apply (Hk Ek (c :: s)); [done|]. by apply Hm.
+ destruct k.
  * exists false, true. split; [done|]. split; [|done]. split; [done|]. intros (s2 & Hs & Hg). exfalso. by apply (Hk eq_refl s2).
  * destruct IHs as (m & k & -> & Hm' & Hk'). exists m, k. split; [done|]. split; [|done]. rewrite Hm'. split.
    -- intros (s2 & Hs & Hg). exists s2. split; [by apply suffix_cons_r|done].
    -- intros (s2 & [->|Hs]%suffix_cases & Hg); [by apply Hm in Hg|eauto].
Qed.
End Step.

Lemma stringmatchlen_impl_ok fuel p s :
(length p < fuel)%nat -> s <> [] -> answers p s (stringmatchlen_impl fuel p s false).
Proof.
revert p s. induction fuel as [|fuel IH]; intros p s Hl Hs; [lia|]. destruct s as [|c s']; [done|]. cbn [stringmatchlen_impl].
destruct p as [|p0 p']; [exists false, false; split; [done|]; by rewrite glob_nil|]. cbn [length] in Hl.
destruct (first_token p0 p') as [t rest] eqn:Et. pose proof (first_token_length _ _ _ _ Et) as Hrest. pose proof Et as Et0. unfold first_token in Et.
destruct (Z.eqb_spec p0 STAR) as [->|Hstar].
{ injection Et as <- <-. rewrite skip_double_eq. cbn [mbind result_bind length drop]. pose proof (skip_stars_length p').
  assert (glob (STAR :: p') (c :: s') <-> exists s2, s2 `suffix_of` (c :: s') /\ glob (no_stars p') s2) as Hg by (by rewrite glob_star, glob_skip_stars).
  destruct (no_stars p') as [|q0 q] eqn:Eq.
  - exists true, false. split; [done|]. split; [|done]. rewrite Hg. split; [|done]. intros _. exists [].
    split; [apply suffix_nil|constructor].
  - cbn [length Nat.eqb]. rewrite ?drop_0. destruct (try_ok fuel IH (q0 :: q) (c :: s')) as (m & k & -> & Hm & Hk); [simpl in *; lia|rewrite <- Eq; apply skip_stars_idem|done|].
    exists m, k. split; [done|]. rewrite Hg. split; [done|]. intros Ek s2 Hs2 (s3 & Hs3 & Hg3)%glob_star.
    specialize (Hk Ek). subst m. assert (exists s4, s4 `suffix_of` (c :: s') /\ glob p' s4) as Hex by (exists s3; split; [by trans s2|done]).
    rewrite glob_skip_stars, Eq in Hex. by apply Hm in Hex. }
destruct (Z.eqb_spec p0 QUESTION) as [->|Hq].
{ injection Et as <- <-. cbn [drop]. rewrite ?drop_0. eapply token_ok; [done|done|]. apply behind_ok; [done|lia]. }
destruct (Z.eqb_spec p0 LBRACKET) as [->|Hb].
{ cbn [drop]. rewrite ?drop_0. unfold peek. change (defined_if (0 <=? length p')%nat) with (inr tt : result ()). cbn [mbind result_bind mret result_ret].
  assert ((nth 0 p' next =? CARET) = (nth 0 p' 0 =? CARET)) as -> by (destruct p'; [apply next_caret|done]).
  assert (defined_if (negb (nth 0 p' 0 =? CARET) || (1 <=? length p')%nat) = inr tt) as -> by (destruct p'; [done|]; cbn; by rewrite orb_true_r).
  cbn [mbind result_bind].
  set (q := if nth 0 p' 0 =? CARET then _ else _) in *. rewrite scan_class_ok by lia. cbn [mbind result_bind].
  destruct (class_items _ q) as [its r]. injection Et as <- <-. cbn [fst snd] in *. rewrite orb_false_l.
  destruct (xorb _ _) eqn:Ex; [|by eapply mismatch_ok].
  eapply token_ok; [done|done|]. apply behind_ok; [done|lia]. }
set (q := if (p0 =? BACKSLASH) && (1 <=? length p')%nat then p' else p0 :: p') in *. injection Et as <- <-.
replace (if (p0 =? BACKSLASH) && (2 <=? length (p0 :: p'))%nat then drop 1 (p0 :: p') else p0 :: p') with q by done.
rewrite peek_ok by (unfold q; case_match eqn:E; [to_prop|]; simpl; lia). cbn [mbind result_bind].
destruct (fold_case (nth 0 q 0) =? fold_case c) eqn:Ec; [|by eapply mismatch_ok].
eapply token_ok; [done|done|]. apply behind_ok; [done|lia].
Qed.

(** On the empty string it answers no unless the pattern is empty, even for a pattern of
  stars. *)
Lemma stringmatchlen_empty p : stringmatchlen p [] = inr (bool_decide (p = [])).
Proof. unfold stringmatchlen. by destruct p. Qed.

(** C18: [stringmatchlen] returns whether the string matches the pattern as a sequence of tokens
  ('*', '?', character classes with ranges, negation and escapes, and single characters, folding
  case on request); the empty string is an exception, it only matches the empty pattern.  The
  shortcut through [skipLongerMatches], which gives up the earlier stars, never loses a match,
  and the pattern is not read beyond the character behind it, provided that is none of '*', ']'
  and '^'. *)
Theorem stringmatchlen_correct p s :
exists m, stringmatchlen p s = inr m /\ (m = true <-> if bool_decide (s = []) then p = [] else glob p s).
Proof using Hnext.
destruct s as [|c s]; [exists (bool_decide (p = [])); rewrite stringmatchlen_empty, bool_decide_eq_true; done|].
destruct (stringmatchlen_impl_ok (S (length p)) p (c :: s) ltac:(lia) ltac:(done)) as (m & k & E & Hm & _).
exists m. unfold stringmatchlen. rewrite E. done.
Qed.
End Match.

Lemma star_misses_empty : stringmatchlen 0 false [STAR] [] = inr false /\ glob false [STAR] [].
Proof. split; [reflexivity|]. by apply (glob_empty false). Qed.

Lemma stringmatchlen_correct_witness :
  exists m, stringmatchlen 0 true (chr <$> ["*"; "["; "a"; "-"; "c"; "]"; "*"; "z"]%char) (chr <$> ["x"; "B"; "q"; "Z"]%char) = inr m /\
    (m = true <-> glob true (chr <$> ["*"; "["; "a"; "-"; "c"; "]"; "*"; "z"]%char) (chr <$> ["x"; "B"; "q"; "Z"]%char)).
Proof. apply (stringmatchlen_correct 0 true eq_refl). Defined.
