(* ===== verification/NumString.v ===== *)
(** * Integers and decimal strings

    [digits10], [sdigits10], [ull2string], [ll2string], [string2ll] and [string2l] of
    Redis's [util.c].  A destination buffer is a byte block; a string is the list of its
    characters.  Redis relies on [string2ll] accepting exactly the strings [ll2string]
    prints. *)

From S2P Require Import Prelude Bytes.

Definition ch_0 : Z := 48.
Definition ch_1 : Z := 49.
Definition ch_9 : Z := 57.
Definition ch_minus : Z := 45.
Definition LONG_STR_SIZE : Z := 21.
Definition ULLONG_MAX : Z := 2 ^ 64 - 1.
Definition LLONG_MAX : Z := 2 ^ 63 - 1.
Definition LLONG_MIN : Z := - 2 ^ 63.

(** One comparison cascade of [digits10], then the recursive call. *)
Fixpoint digits10_fuel (fuel : nat) (v : Z) : Z :=
  if v <? 10 then 1 else
  if v <? 100 then 2 else
  if v <? 1000 then 3 else
  if v <? 1000000000000 then
    if v <? 100000000 then
      if v <? 1000000 then
        if v <? 10000 then 4 else 5 + (if 100000 <=? v then 1 else 0)
      else 7 + (if 10000000 <=? v then 1 else 0)
    else if v <? 10000000000 then 9 + (if 1000000000 <=? v then 1 else 0)
    else 11 + (if 100000000000 <=? v then 1 else 0)
  else match fuel with O => 0 | S fuel => 12 + digits10_fuel fuel (v / 1000000000000) end.
Definition digits10 (v : Z) : Z := digits10_fuel 1 v.

Definition sdigits10 (v : Z) : Z :=
  if v <? 0 then
    let uv := if negb (v =? LLONG_MIN) then u64 (- v) else u64 (LLONG_MAX + 1) in
    digits10 uv + 1
  else digits10 (u64 v).

(** [static const char digits[201]] *)
Definition digits : list Z :=
  (fun c => Z.of_nat (Ascii.nat_of_ascii c)) <$> String.list_ascii_of_string (
    "0001020304050607080910111213141516171819" ++
    "2021222324252627282930313233343536373839" ++
    "4041424344454647484950515253545556575859" ++
    "6061626364656667686970717273747576777879" ++
    "8081828384858687888990919293949596979899").
Definition digit_at (i : Z) : result Z := _ ← defined_if (0 <=? i); the (digits !! Z.to_nat i).

(** [dst[i] = c;] *)
Definition put (i c : Z) (dst : bytes) : result bytes := _ ← defined_if (0 <=? i); write (Z.to_nat i) [c] dst.

Record conv := mk_conv { c_value : Z; c_next : Z; c_dst : bytes }.

(** The turn of [while (value >= 100)]: two digits from the table. *)
Definition ull_turn (s : conv) : result conv :=
  let i := (c_value s mod 100) * 2 in
  d1 ← digit_at (i + 1); dst ← put (c_next s) d1 (c_dst s);
  d0 ← digit_at i; dst ← put (u32 (c_next s - 1)) d0 dst;
  mret (mk_conv (c_value s / 100) (u32 (c_next s - 2)) dst).

(** The destination has [dstlen] bytes; the returned length and the new contents. *)
Definition ull2string (dst : bytes) (value : Z) : result (Z * bytes) :=
  let dstlen := Z.of_nat (length dst) in
  let len := digits10 value in
  if dstlen <=? len then
    dst ← (if 0 <? dstlen then put 0 0 dst else mret dst); mret (0, dst)
  else
    let next := u32 (len - 1) in
    dst ← put (u32 (next + 1)) 0 dst;
    s ← while 10 (fun s => 100 <=? c_value s) ull_turn (mk_conv value next dst);
    if c_value s <? 10 then
      dst ← put (c_next s) (ch_0 + c_value s) (c_dst s); mret (len, dst)
    else
      let i := c_value s * 2 in
      d1 ← digit_at (i + 1); dst ← put (c_next s) d1 (c_dst s);
      d0 ← digit_at i; dst ← put (u32 (c_next s - 1)) d0 dst;
      mret (len, dst).

Definition ll2string (dst : bytes) (svalue : Z) : result (Z * bytes) :=
  if svalue <? 0 then
    let value := if negb (svalue =? LLONG_MIN) then u64 (- svalue) else u64 (LLONG_MAX + 1) in
    if (length dst <? 2)%nat then
      dst ← (if (0 <? length dst)%nat then put 0 0 dst else mret dst); mret (0, dst)
    else
      dst ← put 0 ch_minus dst;
      '(len, tail) ← ull2string (drop 1 dst) value;
      mret (if len =? 0 then 0 else len + 1, take 1 dst ++ tail)
  else ull2string dst (u64 svalue).

(** The digits after the first one; [None] when the value overflows.  The rest of the
    string that is not a digit is returned. *)
Fixpoint parse_digits (v : Z) (p : list Z) : option (Z * list Z) :=
  match p with
  | c :: p' =>
      if (ch_0 <=? c) && (c <=? ch_9) then
        if ULLONG_MAX / 10 <? v then None else
        let v := u64 (v * 10) in
        if ULLONG_MAX - (c - ch_0) <? v then None else
        parse_digits (u64 (v + (c - ch_0))) p'
      else Some (v, p)
  | [] => Some (v, [])
  end.

Definition string2ll (s : list Z) : option Z :=
  let slen := Z.of_nat (length s) in
  if (slen =? 0) || (LONG_STR_SIZE <=? slen) then None else
  if (slen =? 1) && (nth 0 s 0 =? ch_0) then Some 0 else
  let negative := nth 0 s 0 =? ch_minus in
  let p := if negative then drop 1 s else s in
  match p with
  | [] => None
  | c :: p =>
      if (ch_1 <=? c) && (c <=? ch_9) then
        match parse_digits (c - ch_0) p with
        | None => None
        | Some (v, _ :: _) => None
        | Some (v, []) =>
            if negative then if u64 (- (LLONG_MIN + 1)) + 1 <? v then None else Some (i64 (- v))
            else if LLONG_MAX <? v then None else Some v
        end
      else None
  end.

(** [long] has 64 bits. *)
Definition string2l (s : list Z) : option Z :=
  match string2ll s with
  | None => None
  | Some llval => if (llval <? - 2 ^ 63) || (2 ^ 63 - 1 <? llval) then None else Some llval
  end.

(** ** Decimal notation *)

Fixpoint dec_fuel (fuel : nat) (v : Z) : list Z :=
  match fuel with
  | O => []
  | S fuel => if v <? 10 then [ch_0 + v] else dec_fuel fuel (v / 10) ++ [ch_0 + v mod 10]
  end.
(** Numbers of at most twenty digits. *)
Definition dec (v : Z) : list Z := dec_fuel 20 v.
Definition decimal (v : Z) : list Z := if v <? 0 then ch_minus :: dec (- v) else dec v.
