(* ===== verification/NumStringFacts.v ===== *)
(** * Correctness of the integer conversions

    [digits10] is the length of the decimal notation, [ull2string] and [ll2string] write
    it, and [string2ll] accepts exactly the decimal notations of the 64-bit integers. *)

From S2P Require Import Prelude Bytes NumString.

(** ** Decimal notation *)

Lemma dec_fuel_stable n m v : 0 <= v < 10 ^ Z.of_nat n -> (1 <= n <= m)%nat -> dec_fuel m v = dec_fuel n v.
Proof.
  revert m v. induction n as [|n IH]; intros m v Hv Hn; [lia|]. destruct m as [|m]; [lia|]. cbn [dec_fuel].
  destruct (Z.ltb_spec v 10); [done|]. rewrite Nat2Z.inj_succ, Z.pow_succ_r in Hv by lia.
  destruct n as [|n]; [simpl in Hv; lia|]. rewrite (IH m (v / 10)); [done| |lia].
  split; [apply Z.div_pos; lia|apply Z.div_lt_upper_bound; lia].
Qed.

Lemma dec_small v : 0 <= v < 10 -> dec v = [ch_0 + v].
Proof.
  intros. unfold dec. change 20%nat with (S 19). generalize 19%nat. intros n. cbn [dec_fuel].
  by rewrite (proj2 (Z.ltb_lt _ _)) by lia.
Qed.

Lemma dec_step v : 10 <= v < 10 ^ 20 -> dec v = dec (v / 10) ++ [ch_0 + v mod 10].
Proof.
  intros Hv. assert (dec (v / 10) = dec_fuel 19 (v / 10)) as ->.
  { unfold dec. apply (dec_fuel_stable 19); [|lia]. change (10 ^ Z.of_nat 19) with (10 ^ 19).
    split; [apply Z.div_pos; lia|apply Z.div_lt_upper_bound; lia]. }
  unfold dec. change 20%nat with (S 19). generalize 19%nat. intros n. cbn [dec_fuel].
  by rewrite (proj2 (Z.ltb_ge _ _)) by lia.
Qed.

Lemma dec_snoc v d : 1 <= v -> 0 <= d < 10 -> v * 10 + d < 10 ^ 20 -> dec (v * 10 + d) = dec v ++ [ch_0 + d].
Proof.
  intros Hv Hd Hb. rewrite dec_step by lia. rewrite Z.div_add_l, Z.div_small, Z.add_0_r by lia.
  by rewrite (Z.add_comm (v * 10)), Z.mod_add, Z.mod_small by lia.
Qed.

Lemma length_dec n v : (n <= 19)%nat -> 0 <= v < 10 ^ Z.of_nat (S n) -> n = O \/ 10 ^ Z.of_nat n <= v -> length (dec v) = S n.
Proof.
  revert v. induction n as [|n IH]; intros v Hn Hv Hlow.
  - rewrite dec_small; [done|]. simpl in Hv. lia.
  - destruct Hlow as [|Hlow]; [done|]. rewrite (Nat2Z.inj_succ (S n)), Z.pow_succ_r in Hv by lia.
    rewrite (Nat2Z.inj_succ n), Z.pow_succ_r in Hlow by lia.
    assert (1 <= 10 ^ Z.of_nat n) by (apply (Z.pow_le_mono_r 10 0); lia).
    assert (10 ^ Z.of_nat (S n) <= 10 ^ 19) by (apply Z.pow_le_mono_r; lia).
    rewrite dec_step by lia. rewrite length_app, (IH (v / 10)); [simpl; lia|lia| |].
    + split; [apply Z.div_pos; lia|apply Z.div_lt_upper_bound; lia].
    + right. apply Z.div_le_lower_bound; lia.
Qed.

(** ** [digits10] *)

Lemma digits10_spec v :
  in_u 64 v -> exists n, digits10 v = Z.of_nat (S n) /\ (n <= 19)%nat /\ v < 10 ^ Z.of_nat (S n) /\ (n = O \/ 10 ^ Z.of_nat n <= v).
Proof.
  intros [H0 H1]. unfold digits10. cbn [digits10_fuel].
  assert (forall w, w = v / 1000000000000 -> 1000000000000 * w <= v < 1000000000000 * (w + 1)) as Hw.
  { intros w ->. pose proof (Z.div_mod v 1000000000000). pose proof (Z.mod_pos_bound v 1000000000000). lia. }
  specialize (Hw _ eq_refl). set (w := v / 1000000000000) in *.
  repeat match goal with |- context [if ?b then _ else _] => destruct b eqn:?; to_prop end;
    match goal with
    | |- exists n, 1 = _ /\ _ => exists 0%nat | |- exists n, 2 = _ /\ _ => exists 1%nat | |- exists n, 3 = _ /\ _ => exists 2%nat
    | |- exists n, 4 = _ /\ _ => exists 3%nat
    | |- exists n, 5 + 0 = _ /\ _ => exists 4%nat | |- exists n, 5 + 1 = _ /\ _ => exists 5%nat
    | |- exists n, 7 + 0 = _ /\ _ => exists 6%nat | |- exists n, 7 + 1 = _ /\ _ => exists 7%nat
    | |- exists n, 9 + 0 = _ /\ _ => exists 8%nat | |- exists n, 9 + 1 = _ /\ _ => exists 9%nat
    | |- exists n, 11 + 0 = _ /\ _ => exists 10%nat | |- exists n, 11 + 1 = _ /\ _ => exists 11%nat
    | |- exists n, 12 + 1 = _ /\ _ => exists 12%nat | |- exists n, 12 + 2 = _ /\ _ => exists 13%nat
    | |- exists n, 12 + 3 = _ /\ _ => exists 14%nat | |- exists n, 12 + 4 = _ /\ _ => exists 15%nat
    | |- exists n, 12 + (5 + 0) = _ /\ _ => exists 16%nat | |- exists n, 12 + (5 + 1) = _ /\ _ => exists 17%nat
    | |- exists n, 12 + (7 + 0) = _ /\ _ => exists 18%nat | |- exists n, 12 + (7 + 1) = _ /\ _ => exists 19%nat
    | _ => exists 0%nat
    end; simpl; lia.
Qed.

Lemma digits10_length v : in_u 64 v -> digits10 v = Z.of_nat (length (dec v)) /\ (1 <= length (dec v) <= 20)%nat.
Proof.
  intros Hv. destruct (digits10_spec v Hv) as (n & -> & Hn & Hup & Hlow). destruct Hv. rewrite (length_dec n v) by (done || lia). lia.
Qed.

(** ** Printing *)

Lemma put_ok pre x post c i : i = Z.of_nat (length pre) -> put i c (pre ++ x :: post) = inr (pre ++ c :: post).
Proof.
  intros ->. unfold put. rewrite (proj2 (Z.leb_le _ _)) by lia. rewrite Nat2Z.id. cbn [defined_if mbind result_bind].
  rewrite write_ok by (rewrite length_app; simpl; lia). rewrite take_app_length. cbn [length].
  rewrite drop_app_ge by lia. replace (length pre + 1 - length pre)%nat with 1%nat by lia. done.
Qed.

Lemma digits_check :
  forallb (fun k => bool_decide (digit_at (Z.of_nat k * 2) = inr (48 + Z.of_nat k / 10)) &&
    bool_decide (digit_at (Z.of_nat k * 2 + 1) = inr (48 + Z.of_nat k mod 10))) (seq 0 100) = true.
Proof. vm_compute. reflexivity. Qed.

Lemma digit_at_ok k : 0 <= k < 100 -> digit_at (k * 2) = inr (ch_0 + k / 10) /\ digit_at (k * 2 + 1) = inr (ch_0 + k mod 10).
Proof.
  intros Hk. pose proof digits_check as H. rewrite forallb_forall in H. specialize (H (Z.to_nat k)).
  rewrite Z2Nat.id in H by lia. destruct (andb_prop _ _ (H ltac:(apply in_seq; lia))) as [H1 H2].
  apply bool_decide_eq_true in H1, H2. done.
Qed.

Lemma dec_two v : 100 <= v < 10 ^ 20 -> dec v = dec (v / 100) ++ [ch_0 + (v mod 100) / 10; ch_0 + (v mod 100) mod 10].
Proof.
  intros Hv. rewrite dec_step by lia. rewrite (dec_step (v / 10)).
  - rewrite Z.div_div by lia. change (10 * 10) with 100. rewrite <- app_assoc. cbn [app].
    pose proof (Z.div_mod v 100 ltac:(lia)). pose proof (Z.mod_pos_bound v 100 ltac:(lia)).
    pose proof (Z.div_mod (v mod 100) 10 ltac:(lia)). pose proof (Z.mod_pos_bound (v mod 100) 10 ltac:(lia)).
    assert (v mod 10 = (v mod 100) mod 10) as ->.
    { replace v with ((v mod 100) + (v / 100 * 10) * 10) at 1 by lia. by rewrite Z.mod_add by lia. }
    assert ((v / 10) mod 10 = (v mod 100) / 10) as ->; [|done].
    replace (v / 10) with ((v mod 100) / 10 + (v / 100) * 10).
    + rewrite Z.mod_add, Z.mod_small by lia. done.
    + apply (Z.div_unique_pos _ _ _ ((v mod 100) mod 10)); lia.
  - split; [apply Z.div_le_lower_bound; lia|apply Z.div_lt_upper_bound; lia].
Qed.

Lemma dec_nonempty v : 0 <= v < 10 ^ 20 -> (1 <= length (dec v))%nat.
Proof.
  intros Hv. destruct (decide (v < 10)); [rewrite dec_small by lia; done|].
  rewrite dec_step by lia. rewrite length_app. simpl. lia.
Qed.

Lemma two_last {A} (l : list A) : (2 <= length l)%nat -> exists l' a b, l = l' ++ [a; b].
Proof.
  intros Hl. destruct (rev l) as [|b [|a l']] eqn:E; apply (f_equal (@rev A)) in E; rewrite rev_involutive in E; subst; [simpl in Hl; lia..|].
  exists (rev l'), a, b. cbn [rev]. by rewrite <- app_assoc.
Qed.

(** Two digits at the end of the free part. *)
Lemma put_two pre' a b post k :
  0 <= k < 100 -> Z.of_nat (length pre') + 2 < 2 ^ 32 ->
  (d1 ← digit_at (k * 2 + 1); dst ← put (Z.of_nat (length pre') + 1) d1 (pre' ++ a :: b :: post);
   d0 ← digit_at (k * 2); put (u32 (Z.of_nat (length pre') + 1 - 1)) d0 dst) =
  inr (pre' ++ ch_0 + k / 10 :: ch_0 + k mod 10 :: post).
Proof.
  intros Hk Hl. destruct (digit_at_ok k Hk) as [-> ->]. cbn [mbind result_bind].
  replace (pre' ++ a :: b :: post) with ((pre' ++ [a]) ++ b :: post) by by rewrite <- app_assoc.
  rewrite put_ok by (rewrite length_app; simpl; lia). cbn [mbind result_bind]. rewrite <- app_assoc. cbn [app].
  rewrite wrap_u_id by (unfold in_u; lia). by rewrite put_ok by lia.
Qed.

Lemma bind_assoc {A B C} (m : result A) (f : A -> result B) (g : B -> result C) : ((m ≫= f) ≫= g) = (m ≫= (fun x => f x ≫= g)).
Proof. by destruct m. Qed.

Lemma ull_turn_ok v pre' a b post :
  0 <= v -> Z.of_nat (length pre') + 2 < 2 ^ 32 -> (1 <= length pre')%nat ->
  ull_turn (mk_conv v (Z.of_nat (length pre') + 1) (pre' ++ a :: b :: post)) =
  inr (mk_conv (v / 100) (Z.of_nat (length pre') - 1) (pre' ++ ch_0 + v mod 100 / 10 :: ch_0 + (v mod 100) mod 10 :: post)).
Proof.
  intros Hv Hl Hp. unfold ull_turn. cbn [c_value c_next c_dst]. pose proof (Z.mod_pos_bound v 100 ltac:(lia)) as Hm.
  pose proof (put_two pre' a b post (v mod 100) Hm Hl) as Hput.
  destruct (digit_at_ok (v mod 100) Hm) as [E0 E1]. rewrite E0, E1 in *. cbn [mbind result_bind] in Hput |- *.
  destruct (put _ _ (pre' ++ _)) as [|dst]; [done|]. cbn [mbind result_bind] in Hput |- *. rewrite Hput. cbn [mbind result_bind].
  rewrite wrap_u_id by (unfold in_u; lia). unfold mret, result_ret. do 2 f_equal. lia.
Qed.

Lemma ull_loop fuel v pre rest post :
  0 <= v < 100 ^ Z.of_nat (S fuel) -> v < 10 ^ 20 -> length pre = length (dec v) -> Z.of_nat (length pre) < 2 ^ 31 ->
  exists v' pre' rest', while fuel (fun s => 100 <=? c_value s) ull_turn (mk_conv v (Z.of_nat (length pre) - 1) (pre ++ rest ++ post)) =
    inr (mk_conv v' (Z.of_nat (length pre') - 1) (pre' ++ rest' ++ post)) /\
    0 <= v' < 100 /\ length pre' = length (dec v') /\ dec v ++ rest = dec v' ++ rest' /\ (length pre' <= length pre)%nat.
Proof.
  revert v pre rest. induction fuel as [|fuel IH]; intros v pre rest Hv Hb Hl Hs; cbn [while c_value].
  { simpl in Hv. rewrite (proj2 (Z.leb_gt _ _)) by lia. exists v, pre, rest. split_and!; done || lia. }
  destruct (Z.leb_spec 100 v) as [Hge|Hlt]; [|exists v, pre, rest; split_and!; done || lia].
  pose proof (dec_two v ltac:(lia)) as Edec. rewrite Edec, length_app in Hl. cbn [length] in Hl.
  destruct (two_last pre) as (pre' & a & b & ->); [lia|]. rewrite length_app in Hl, Hs |- *. cbn [length] in Hl, Hs |- *.
  replace (Z.of_nat (length pre' + 2) - 1) with (Z.of_nat (length pre') + 1) by lia. rewrite <- app_assoc. cbn [app].
  pose proof (dec_nonempty (v / 100) ltac:(split; [apply Z.div_pos; lia|apply Z.div_lt_upper_bound; lia])).
  rewrite ull_turn_ok by lia. cbn [mbind result_bind].
  change (pre' ++ ch_0 + v mod 100 / 10 :: ch_0 + (v mod 100) mod 10 :: rest ++ post) with
    (pre' ++ ([ch_0 + v mod 100 / 10; ch_0 + (v mod 100) mod 10] ++ rest) ++ post).
  rewrite (Nat2Z.inj_succ (S fuel)), Z.pow_succ_r in Hv by lia.
  destruct (IH (v / 100) pre' ([ch_0 + v mod 100 / 10; ch_0 + (v mod 100) mod 10] ++ rest)) as (v' & p' & r' & -> & Hv' & Hl' & Ed & Hle).
  - split; [apply Z.div_pos; lia|apply Z.div_lt_upper_bound; lia].
  - apply Z.div_lt_upper_bound; lia.
  - lia.
  - lia.
  - exists v', p', r'. split_and!; [done|lia|lia|done| |lia]. rewrite Edec, <- app_assoc. done.
Qed.

Lemma ull2string_ok dst v :
  in_u 64 v -> (length (dec v) < length dst)%nat ->
  ull2string dst v = inr (Z.of_nat (length (dec v)), dec v ++ 0 :: drop (S (length (dec v))) dst).
Proof.
  intros Hv Hd. destruct (digits10_length v Hv) as [Ed Hlen]. unfold ull2string. rewrite Ed.
  rewrite (proj2 (Z.leb_gt _ _)) by lia. rewrite (wrap_u_id 32 (_ - 1)) by (unfold in_u; lia).
  rewrite Z.sub_add. rewrite wrap_u_id by (unfold in_u; lia).
  destruct (nth_lookup_or_length dst (length (dec v)) 0) as [E|E]; [|lia].
  rewrite <- (take_drop_middle dst _ _ E) at 1. rewrite put_ok by (rewrite length_take; lia). cbn [mbind result_bind].
  set (post := 0 :: drop (S (length (dec v))) dst).
  replace (take (length (dec v)) dst ++ post) with (take (length (dec v)) dst ++ [] ++ post) by done.
  assert (length (take (length (dec v)) dst) = length (dec v)) as Elen by (rewrite length_take; lia).
  unfold in_u in Hv.
  destruct (ull_loop 10 v (take (length (dec v)) dst) [] post) as (v' & pre & rest & Ew & Hv' & Hp & Edec & Hle).
  { assert (100 ^ Z.of_nat 11 = 10 ^ 22) by done. lia. } { lia. } { done. } { lia. }
  rewrite Elen in Ew. rewrite Ew. cbn [mbind result_bind c_value c_next c_dst]. rewrite app_nil_r in Edec.
  destruct (Z.ltb_spec v' 10) as [Hs|Hs].
  - rewrite (dec_small v') in Hp, Edec by lia. destruct pre as [|x [|]]; [done| |done]. cbn [app]. rewrite (put_ok [] x (rest ++ post) _ _ eq_refl : put _ _ (x :: rest ++ post) = _).
    cbn [mbind result_bind app]. unfold mret, result_ret. rewrite Edec. done.
  - rewrite (dec_step v'), (dec_small (v' / 10)) in Hp, Edec by (try split; try apply Z.div_pos; try apply Z.div_lt_upper_bound; lia).
    destruct pre as [|a [|b [|]]]; [done|done| |done].
    pose proof (put_two [] a b (rest ++ post) v' Hv' ltac:(done)) as Hput. cbn [length app] in Hput |- *.
    change (Z.of_nat 2 - 1) with (Z.of_nat 0 + 1). destruct (digit_at_ok v' Hv') as [E0 E1]. rewrite E0, E1 in *. cbn [mbind result_bind] in Hput |- *.
    destruct (put _ _ (a :: b :: _)) as [|dst']; [done|]. cbn [mbind result_bind] in Hput |- *. rewrite Hput. cbn [mbind result_bind].
    unfold mret, result_ret. rewrite Edec. done.
Qed.

(** The magnitude the callers pass to [ull2string]. *)
Lemma magnitude v : in_s 64 v -> v < 0 -> (if negb (v =? LLONG_MIN) then u64 (- v) else u64 (LLONG_MAX + 1)) = - v.
Proof.
  unfold in_s, LLONG_MIN, LLONG_MAX. simpl. intros Hv Hn. destruct (Z.eqb_spec v (- 2 ^ 63)) as [->|Hne]; [done|].
  apply wrap_u_id. unfold in_u. simpl in *. lia.
Qed.

Lemma sdigits10_length v : in_s 64 v -> sdigits10 v = Z.of_nat (length (decimal v)).
Proof.
  intros Hv. unfold sdigits10, decimal. destruct (Z.ltb_spec v 0).
  - rewrite magnitude by done. destruct (digits10_length (- v)) as [-> _]; [unfold in_s, in_u in *; simpl in *; lia|]. simpl. lia.
  - rewrite wrap_u_id by (unfold in_s, in_u in *; simpl in *; lia). apply digits10_length. unfold in_s, in_u in *; simpl in *; lia.
Qed.

Lemma ll2string_ok dst v :
  in_s 64 v -> (length (decimal v) < length dst)%nat ->
  ll2string dst v = inr (Z.of_nat (length (decimal v)), decimal v ++ 0 :: drop (S (length (decimal v))) dst).
Proof.
  intros Hv Hd. unfold ll2string, decimal in *. destruct (Z.ltb_spec v 0) as [Hn|Hn].
  - rewrite magnitude by done. assert (in_u 64 (- v)) as Hu by (unfold in_s, in_u in *; simpl in *; lia).
    destruct (digits10_length (- v) Hu) as [_ Hlen]. cbn [length] in Hd. destruct (Nat.ltb_spec (length dst) 2); [lia|].
    destruct dst as [|x dst]; [simpl in Hd; lia|]. rewrite (put_ok [] x dst ch_minus 0 eq_refl : put 0 ch_minus (x :: dst) = _).
    cbn [mbind result_bind app drop]. rewrite drop_0. rewrite ull2string_ok by (done || (simpl in Hd; lia)). cbn [mbind result_bind].
    destruct (Z.eqb_spec (Z.of_nat (length (dec (- v)))) 0); [lia|]. unfold mret, result_ret. cbn [take length app drop]. rewrite take_0. cbn [app].
    do 2 f_equal. lia.
  - rewrite wrap_u_id by (unfold in_s, in_u in *; simpl in *; lia). apply ull2string_ok; [|done]. unfold in_s, in_u in *; simpl in *; lia.
Qed.

(** ** Parsing *)

Definition is_digit (c : Z) : Prop := ch_0 <= c <= ch_9.
Definition add_digit (v c : Z) : Z := v * 10 + (c - ch_0).
Abbreviation value_from := (foldl add_digit).

Lemma value_from_mono v p : 0 <= v -> Forall is_digit p -> v <= value_from v p.
Proof.
  intros Hv Hp. revert v Hv. induction Hp as [|c p [H1 H2] _ IH]; intros v Hv; simpl; [lia|].
  unfold ch_0, ch_9 in *. specialize (IH (add_digit v c)). unfold add_digit, ch_0 in *. lia.
Qed.

Lemma parse_digits_ok v p :
  0 <= v -> Forall is_digit p -> value_from v p <= ULLONG_MAX -> parse_digits v p = Some (value_from v p, []).
Proof.
  intros Hv Hp. revert v Hv. induction Hp as [|c p [H1 H2] Hp IH]; intros v Hv Hb; [done|]. cbn [parse_digits foldl] in *.
  unfold ch_0, ch_9 in H1, H2. assert (0 <= add_digit v c) by (unfold add_digit, ch_0; lia).
  pose proof (value_from_mono (add_digit v c) p ltac:(done) Hp) as Hm.
  assert (add_digit v c <= ULLONG_MAX) as Ha by lia. unfold ULLONG_MAX, add_digit, ch_0 in *.
  rewrite (proj2 (Z.leb_le 48 c)), (proj2 (Z.leb_le c ch_9)) by (unfold ch_9; lia). cbn [andb].
  destruct (Z.ltb_spec ((2 ^ 64 - 1) / 10) v) as [Hbig|_]; [assert ((2 ^ 64 - 1) / 10 = 1844674407370955161) as E by done; lia|].
  rewrite (wrap_u_id 64 (v * 10)) by (unfold in_u; lia). destruct (Z.ltb_spec (2 ^ 64 - 1 - (c - 48)) (v * 10)); [lia|].
  rewrite wrap_u_id by (unfold in_u; lia). apply IH; lia.
Qed.

Lemma parse_digits_inv v p w :
  0 <= v <= ULLONG_MAX -> parse_digits v p = Some (w, []) -> Forall is_digit p /\ w = value_from v p /\ w <= ULLONG_MAX.
Proof.
  revert v. induction p as [|c p IH]; intros v Hv; cbn [parse_digits foldl].
  { intros [= <-]. split; [constructor|]. split; [done|lia]. }
  destruct (Z.leb_spec ch_0 c), (Z.leb_spec c ch_9); cbn [andb]; try (intros ?; discriminate).
  destruct (Z.ltb_spec (ULLONG_MAX / 10) v) as [|Hq]; [discriminate|]. unfold ULLONG_MAX, ch_0, ch_9 in *.
  assert ((2 ^ 64 - 1) / 10 = 1844674407370955161) as E by done. rewrite E in Hq.
  rewrite (wrap_u_id 64 (v * 10)) by (unfold in_u; lia). destruct (Z.ltb_spec (2 ^ 64 - 1 - (c - 48)) (v * 10)); [discriminate|].
  rewrite wrap_u_id by (unfold in_u; lia). intros (Hd & Hw & Hb)%IH; [|lia]. split; [constructor; [split; done|done]|done].
Qed.

Lemma dec_value v p : 1 <= v -> Forall is_digit p -> value_from v p <= ULLONG_MAX -> dec (value_from v p) = dec v ++ p.
Proof.
  intros Hv Hp. revert v Hv. induction Hp as [|c p [H1 H2] Hp IH]; intros v Hv Hb; cbn [foldl]; [by rewrite app_nil_r|].
  cbn [foldl] in Hb. unfold ch_0, ch_9 in H1, H2. assert (1 <= add_digit v c) by (unfold add_digit, ch_0; lia).
  pose proof (value_from_mono (add_digit v c) p ltac:(lia) Hp). rewrite IH by done. unfold add_digit.
  rewrite dec_snoc by (unfold add_digit, ULLONG_MAX, ch_0 in *; lia). rewrite <- app_assoc. cbn [app]. do 2 f_equal. unfold ch_0. lia.
Qed.

(** A positive number is printed with a first digit that is not zero, then digits. *)
Lemma dec_cons n v : (n <= 20)%nat -> 1 <= v < 10 ^ Z.of_nat n ->
  exists c p, dec v = c :: p /\ ch_1 <= c <= ch_9 /\ Forall is_digit p /\ value_from (c - ch_0) p = v.
Proof.
  revert v. induction n as [|n IH]; intros v Hn Hv; [simpl in Hv; lia|].
  rewrite Nat2Z.inj_succ, Z.pow_succ_r in Hv by lia. destruct (decide (v < 10)).
  - exists (ch_0 + v), []. rewrite dec_small by lia. unfold ch_0, ch_1, ch_9. split; [done|]. split; [lia|]. split; [constructor|]. simpl. lia.
  - assert (10 ^ Z.of_nat n <= 10 ^ 19) by (apply Z.pow_le_mono_r; lia).
    destruct (IH (v / 10)) as (c & p & Ed & Hc & Hp & Ev); [lia|split; [apply Z.div_le_lower_bound; lia|apply Z.div_lt_upper_bound; lia]|].
    exists c, (p ++ [ch_0 + v mod 10]). rewrite dec_step, Ed by lia. pose proof (Z.mod_pos_bound v 10 ltac:(lia)).
    split; [done|]. split; [done|]. split; [apply Forall_app; split; [done|]; repeat constructor; unfold ch_0, ch_9; lia|].
    rewrite foldl_snoc, Ev. unfold add_digit. pose proof (Z.div_mod v 10 ltac:(lia)). unfold ch_0. lia.
Qed.

Lemma dec_cons64 v : 1 <= v <= ULLONG_MAX ->
  exists c p, dec v = c :: p /\ ch_1 <= c <= ch_9 /\ Forall is_digit p /\ value_from (c - ch_0) p = v.
Proof. unfold ULLONG_MAX. intros. apply (dec_cons 20); [done|]. change (10 ^ Z.of_nat 20) with (10 ^ 20). lia. Qed.

(** The part of [string2ll] after the sign. *)
Definition magnitude_of (p : list Z) : option Z :=
  match p with
  | [] => None
  | c :: p =>
      if (ch_1 <=? c) && (c <=? ch_9) then
        match parse_digits (c - ch_0) p with Some (v, []) => Some v | _ => None end
      else None
  end.

Lemma magnitude_of_iff p v : magnitude_of p = Some v <-> 1 <= v <= ULLONG_MAX /\ p = dec v.
Proof.
  split.
  - destruct p as [|c p]; [done|]. cbn [magnitude_of]. destruct (Z.leb_spec ch_1 c), (Z.leb_spec c ch_9); try (intros ?; discriminate). cbn [andb].
    destruct (parse_digits _ _) as [[w [|]]|] eqn:E; try (intros ?; discriminate). intros [= <-].
    unfold ch_0, ch_1, ch_9 in *. apply parse_digits_inv in E as (Hd & Ew & Hb); [|unfold ULLONG_MAX; lia].
    pose proof (value_from_mono (c - 48) p ltac:(lia) Hd). split; [lia|]. rewrite Ew, dec_value by (done || lia).
    rewrite dec_small by lia. cbn [app]. f_equal. unfold ch_0. lia.
  - intros [Hv ->]. destruct (dec_cons64 v Hv) as (c & p & -> & Hc & Hp & Ev). cbn [magnitude_of].
    rewrite (proj2 (Z.leb_le _ _)), (proj2 (Z.leb_le _ _)) by lia. cbn [andb]. unfold ch_0, ch_1, ch_9 in *.
    rewrite parse_digits_ok by (done || lia). by rewrite Ev.
Qed.

Lemma string2ll_eq s :
  string2ll s =
    if (Z.of_nat (length s) =? 0) || (LONG_STR_SIZE <=? Z.of_nat (length s)) then None else
    if (Z.of_nat (length s) =? 1) && (nth 0 s 0 =? ch_0) then Some 0 else
    let negative := nth 0 s 0 =? ch_minus in
    match magnitude_of (if negative then drop 1 s else s) with
    | None => None
    | Some v => if negative then if 2 ^ 63 <? v then None else Some (i64 (- v)) else if LLONG_MAX <? v then None else Some v
    end.
Proof.
  unfold string2ll. destruct (_ || _); [done|]. destruct (_ && _); [done|]. cbv zeta.
  destruct (if _ =? ch_minus then _ else _) as [|c p]; [done|]. cbn [magnitude_of]. destruct (_ && _); [|done].
  change (u64 (- (LLONG_MIN + 1)) + 1) with (2 ^ 63). destruct (parse_digits _ _) as [[v [|]]|]; done.
Qed.

Lemma length_decimal v : in_s 64 v -> (1 <= length (decimal v) <= 20)%nat.
Proof.
  unfold in_s, decimal. simpl. intros Hv. destruct (Z.ltb_spec v 0).
  - cbn [length]. assert (in_u 64 (- v)) as Hu by (unfold in_u; simpl; lia).
    destruct (digits10_spec (- v) Hu) as (n & _ & Hn & Hup & Hlow). rewrite (length_dec n) by (done || lia).
    enough (n <> 19%nat) by lia. intros ->. destruct Hlow as [|Hlow]; [done|]. change (10 ^ Z.of_nat 19) with (10 ^ 19) in Hlow. lia.
  - apply digits10_length. unfold in_u. simpl. lia.
Qed.

Lemma string2ll_iff s v : string2ll s = Some v <-> in_s 64 v /\ s = decimal v.
Proof.
  rewrite string2ll_eq. unfold LONG_STR_SIZE. split.
  - destruct (Z.eqb_spec (Z.of_nat (length s)) 0) as [|Hne]; [done|]. destruct (Z.leb_spec 21 (Z.of_nat (length s))); [done|]. cbn [orb].
    destruct (Z.eqb_spec (Z.of_nat (length s)) 1) as [E1|_], (Z.eqb_spec (nth 0 s 0) ch_0) as [E0|_]; cbn [andb];
      try (intros [= <-]; split; [done|]; destruct s as [|c [|]]; simpl in *; try lia; by subst);
      (cbv zeta; destruct (Z.eqb_spec (nth 0 s 0) ch_minus) as [Em|Hm];
       destruct (magnitude_of _) as [w|] eqn:Ew; try (intros ?; discriminate);
       apply magnitude_of_iff in Ew as [Hw Es]; unfold LLONG_MAX, ULLONG_MAX in *;
       [destruct (Z.ltb_spec (2 ^ 63) w); [done|]|destruct (Z.ltb_spec (2 ^ 63 - 1) w); [done|]]; intros [= <-]).
    all: try (assert (in_s 64 w) as Hin by (unfold in_s; simpl; lia); split; [done|]; unfold decimal; by rewrite (proj2 (Z.ltb_ge _ _)) by lia).
    all: assert (in_s 64 (- w)) as Hin by (unfold in_s; simpl; lia); rewrite (wrap_s_id 64 (- w)) by (done || lia); split; [done|];
      unfold decimal; rewrite (proj2 (Z.ltb_lt _ _)) by lia; rewrite Z.opp_involutive; destruct s as [|c s]; [done|]; simpl in Em, Es; subst;
      rewrite drop_0 in Es; by subst.
  - intros [Hv ->]. pose proof (length_decimal v Hv) as Hlen.
    destruct (Z.eqb_spec (Z.of_nat (length (decimal v))) 0); [lia|]. destruct (Z.leb_spec 21 (Z.of_nat (length (decimal v)))); [lia|]. cbn [orb].
    unfold in_s in Hv. simpl in Hv. destruct (decide (v = 0)) as [->|Hnz]; [done|]. unfold decimal in *. destruct (Z.ltb_spec v 0).
    + destruct (dec_cons64 (- v)) as (c & p & Ed & _); [unfold ULLONG_MAX; lia|]. rewrite Ed in *. cbn [length nth].
      destruct (Z.eqb_spec (Z.of_nat (S (S (length p)))) 1); [lia|]. cbn [andb]. change (ch_minus =? ch_minus) with true. cbv zeta. cbn [drop].
      rewrite ?drop_0, <- Ed. rewrite (proj2 (magnitude_of_iff (dec (- v)) (- v))) by (unfold ULLONG_MAX; split; [lia|done]).
      destruct (Z.ltb_spec (2 ^ 63) (- v)); [lia|]. rewrite Z.opp_involutive, wrap_s_id by (unfold in_s; simpl; lia). done.
    + destruct (dec_cons64 v) as (c & p & Ed & Hc & _); [unfold ULLONG_MAX; lia|]. rewrite Ed in *. cbn [length nth]. unfold ch_0, ch_1, ch_9, ch_minus in *.
      destruct (Z.eqb_spec c 48); [lia|]. rewrite andb_false_r. destruct (Z.eqb_spec c 45); [lia|]. cbv zeta. rewrite <- Ed.
      rewrite (proj2 (magnitude_of_iff (dec v) v)) by (unfold ULLONG_MAX; split; [lia|done]). unfold LLONG_MAX.
      destruct (Z.ltb_spec (2 ^ 63 - 1) v); [lia|]. done.
Qed.

(** C34: [ll2string] and [string2ll] are inverse to each other on all 64-bit integers.  Into a
    buffer with room, [ll2string] writes the decimal notation and a null, returning the
    length [sdigits10] predicts; and [string2ll] accepts a string exactly when it is the
    decimal notation of a 64-bit integer, so the string can be obtained back from the
    number without loss. *)
Theorem ll2string_string2ll_roundtrip v dst s w :
  in_s 64 v -> (21 <= length dst)%nat ->
  (exists dst', ll2string dst v = inr (sdigits10 v, dst') /\ length dst' = length dst /\
     string2ll (take (Z.to_nat (sdigits10 v)) dst') = Some v /\ dst' !! Z.to_nat (sdigits10 v) = Some 0) /\
  (string2ll s = Some w ->
     exists dst', ll2string dst w = inr (Z.of_nat (length s), dst') /\ take (length s) dst' = s).
Proof.
  intros Hv Hd. split.
  - pose proof (length_decimal v Hv) as Hlen. rewrite ll2string_ok by (done || lia). rewrite sdigits10_length, Nat2Z.id by done. eexists. split; [done|].
    rewrite length_app, take_app_length. cbn [length]. rewrite length_drop. split; [lia|]. split; [by apply string2ll_iff|].
    exact (list_lookup_middle (decimal v) _ 0 _ eq_refl).
  - intros [Hw ->]%string2ll_iff. pose proof (length_decimal w Hw). rewrite ll2string_ok by (done || lia). eexists. split; [done|].
    by rewrite take_app_length.
Qed.

Lemma ll2string_string2ll_roundtrip_witness :
  let dst := replicate 24 7 in
  (exists dst', ll2string dst (-2024) = inr (sdigits10 (-2024), dst') /\ length dst' = length dst /\
     string2ll (take (Z.to_nat (sdigits10 (-2024))) dst') = Some (-2024) /\ dst' !! Z.to_nat (sdigits10 (-2024)) = Some 0) /\
  (string2ll [49; 50] = Some 12 ->
     exists dst', ll2string dst 12 = inr (Z.of_nat (length [49; 50]), dst') /\ take (length [49; 50]) dst' = [49; 50]).
Proof.
  intros dst. apply (ll2string_string2ll_roundtrip (-2024) dst [49; 50] 12).
  - unfold in_s. simpl. lia.
  - simpl. lia.
Defined.
