(* ===== verification/Adlist.v ===== *)
(** * Doubly linked lists

    [adlist.c] of Redis.  Nodes live in a heap; pointers are shared between the nodes,
    the list header and the iterators, so every assignment through a pointer is an update
    of the heap and a dangling or null pointer is undefined behaviour.  [zmalloc] aborts
    the process instead of returning NULL, so an allocation always succeeds.  Values are
    numbers; the [free] method is recorded as the list of the values it was called for. *)

From S2P Require Import Prelude.

Definition loc := positive.
Record listNode := mk_node { prev : option loc; next : option loc; value : Z }.

(** The nodes, and the values handed to the [free] method so far. *)
Record heap := mk_heap { nodes : gmap loc listNode; freed : list Z }.

(** The methods: [dup] can fail, [match] compares with a key. *)
Record alist := mk_list {
  head : option loc; tail : option loc;
  dup : option (Z -> option Z); free : bool; match_ : option (Z -> Z -> bool);
  len : Z }.

Inductive direction := AL_START_HEAD | AL_START_TAIL.
Record listIter := mk_iter { i_next : option loc; i_dir : direction }.

Definition deref (h : heap) (p : option loc) : result listNode := l ← the p; the (nodes h !! l).
Definition set_node (h : heap) (p : option loc) (f : listNode -> listNode) : result heap :=
  l ← the p; n ← the (nodes h !! l); mret (mk_heap (<[l := f n]> (nodes h)) (freed h)).
Definition set_prev (p : option loc) (n : listNode) : listNode := mk_node p (next n) (value n).
Definition set_next (p : option loc) (n : listNode) : listNode := mk_node (prev n) p (value n).

(** [zmalloc(sizeof( *node))] with the value set; the pointers are not initialised yet. *)
Definition alloc (h : heap) (v : Z) : heap * loc :=
  let l := fresh (dom (nodes h)) in (mk_heap (<[l := mk_node None None v]> (nodes h)) (freed h), l).
Definition zfree (h : heap) (p : option loc) : result heap :=
  l ← the p; _ ← the (nodes h !! l); mret (mk_heap (delete l (nodes h)) (freed h)).
Definition call_free (h : heap) (l : alist) (v : Z) : heap := if free l then mk_heap (nodes h) (freed h ++ [v]) else h.

Definition set_ends (l : alist) (hd tl : option loc) (n : Z) : alist := mk_list hd tl (dup l) (free l) (match_ l) n.

Definition listCreate : alist := mk_list None None None false None 0.

(** The turn of [while(len--)]: the heap and [current]. *)
Definition empty_turn (l : alist) (s : heap * option loc) (_ : Z) : result (heap * option loc) :=
  n ← deref s.1 s.2;
  h ← zfree (call_free s.1 l (value n)) s.2;
  mret (h, next n).
Definition listEmpty (h : heap) (l : alist) : result (heap * alist) :=
  s ← for_each (empty_turn l) (h, head l) (seqZ 0 (len l));
  mret (s.1, set_ends l None None 0).
Definition listRelease (h : heap) (l : alist) : result heap := '(h, _) ← listEmpty h l; mret h.

Definition listLinkNodeHead (h : heap) (l : alist) (node : loc) : result (heap * alist) :=
  if len l =? 0 then
    h ← set_node h (Some node) (fun n => mk_node None None (value n));
    mret (h, set_ends l (Some node) (Some node) (u64 (len l + 1)))
  else
    h ← set_node h (Some node) (set_prev None);
    h ← set_node h (Some node) (set_next (head l));
    h ← set_node h (head l) (set_prev (Some node));
    mret (h, set_ends l (Some node) (tail l) (u64 (len l + 1))).
Definition listAddNodeHead (h : heap) (l : alist) (v : Z) : result (heap * alist) :=
  let '(h, node) := alloc h v in listLinkNodeHead h l node.

Definition listLinkNodeTail (h : heap) (l : alist) (node : loc) : result (heap * alist) :=
  if len l =? 0 then
    h ← set_node h (Some node) (fun n => mk_node None None (value n));
    mret (h, set_ends l (Some node) (Some node) (u64 (len l + 1)))
  else
    h ← set_node h (Some node) (set_prev (tail l));
    h ← set_node h (Some node) (set_next None);
    h ← set_node h (tail l) (set_next (Some node));
    mret (h, set_ends l (head l) (Some node) (u64 (len l + 1))).
Definition listAddNodeTail (h : heap) (l : alist) (v : Z) : result (heap * alist) :=
  let '(h, node) := alloc h v in listLinkNodeTail h l node.

Definition listInsertNode (h : heap) (l : alist) (old_node : option loc) (v : Z) (after : bool) : result (heap * alist) :=
  let '(h, node) := alloc h v in
  old ← deref h old_node;
  '(h, l) ←
    (if after then
       h ← set_node h (Some node) (fun n => mk_node old_node (next old) (value n));
       mret (h, if bool_decide (tail l = old_node) then set_ends l (head l) (Some node) (len l) else l)
     else
       h ← set_node h (Some node) (fun n => mk_node (prev old) old_node (value n));
       mret (h, if bool_decide (head l = old_node) then set_ends l (Some node) (tail l) (len l) else l));
  n ← deref h (Some node);
  h ← (if prev n then set_node h (prev n) (set_next (Some node)) else mret h);
  n ← deref h (Some node);
  h ← (if next n then set_node h (next n) (set_prev (Some node)) else mret h);
  mret (h, set_ends l (head l) (tail l) (u64 (len l + 1))).

Definition listUnlinkNode (h : heap) (l : alist) (node : option loc) : result (heap * alist) :=
  n ← deref h node;
  '(h, l) ← (if prev n then h ← set_node h (prev n) (set_next (next n)); mret (h, l)
             else mret (h, set_ends l (next n) (tail l) (len l)));
  n ← deref h node;
  '(h, l) ← (if next n then h ← set_node h (next n) (set_prev (prev n)); mret (h, l)
             else mret (h, set_ends l (head l) (prev n) (len l)));
  h ← set_node h node (fun n => mk_node None None (value n));
  mret (h, set_ends l (head l) (tail l) (u64 (len l - 1))).
Definition listDelNode (h : heap) (l : alist) (node : option loc) : result (heap * alist) :=
  '(h, l) ← listUnlinkNode h l node;
  n ← deref h node;
  h ← zfree (call_free h l (value n)) node;
  mret (h, l).

Definition listRewind (l : alist) : listIter := mk_iter (head l) AL_START_HEAD.
Definition listRewindTail (l : alist) : listIter := mk_iter (tail l) AL_START_TAIL.
Definition listGetIterator (l : alist) (d : direction) : listIter :=
  match d with AL_START_HEAD => mk_iter (head l) d | AL_START_TAIL => mk_iter (tail l) d end.

Definition listNext (h : heap) (it : listIter) : result (option loc * listIter) :=
  match i_next it with
  | None => mret (None, it)
  | Some current =>
      n ← deref h (Some current);
      mret (Some current, mk_iter (match i_dir it with AL_START_HEAD => next n | AL_START_TAIL => prev n end) (i_dir it))
  end.

(** The loop over the iterator, at most [fuel] nodes; [None] when [dup] fails. *)
Fixpoint dup_loop (fuel : nat) (h : heap) (copy : alist) (it : listIter) : result (heap * option alist) :=
  match fuel with
  | O => inl OutOfFuel
  | S fuel =>
      '(node, it) ← listNext h it;
      match node with
      | None => mret (h, Some copy)
      | Some _ =>
          n ← deref h node;
          match (match dup copy with Some f => f (value n) | None => Some (value n) end) with
          | None => h ← listRelease h copy; mret (h, None)
          | Some v => '(h, copy) ← listAddNodeTail h copy v; dup_loop fuel h copy it
          end
      end
  end.
Definition listDup (h : heap) (orig : alist) : result (heap * option alist) :=
  let copy := mk_list None None (dup orig) (free orig) (match_ orig) 0 in
  dup_loop (S (Z.to_nat (len orig))) h copy (listRewind orig).

Fixpoint search_loop (fuel : nat) (h : heap) (l : alist) (key : Z) (it : listIter) : result (option loc) :=
  match fuel with
  | O => inl OutOfFuel
  | S fuel =>
      '(node, it) ← listNext h it;
      match node with
      | None => mret None
      | Some _ =>
          n ← deref h node;
          if (match match_ l with Some f => f (value n) key | None => key =? value n end) then mret node
          else search_loop fuel h l key it
      end
  end.
Definition listSearchKey (h : heap) (l : alist) (key : Z) : result (option loc) :=
  search_loop (S (Z.to_nat (len l))) h l key (listRewind l).

(** [while(index-- && n) n = n->next;] *)
Fixpoint walk (step : listNode -> option loc) (index : nat) (h : heap) (n : option loc) : result (option loc) :=
  match index, n with
  | O, _ | _, None => mret n
  | S index, Some _ => nd ← deref h n; walk step index h (step nd)
  end.
Definition listIndex (h : heap) (l : alist) (index : Z) : result (option loc) :=
  if index <? 0 then walk prev (Z.to_nat (- index - 1)) h (tail l)
  else walk next (Z.to_nat index) h (head l).

Definition listRotateTailToHead (h : heap) (l : alist) : result (heap * alist) :=
  if len l <=? 1 then mret (h, l) else
  let tl := tail l in
  t ← deref h tl;
  h ← set_node h (prev t) (set_next None);
  h ← set_node h (head l) (set_prev tl);
  h ← set_node h tl (set_prev None);
  h ← set_node h tl (set_next (head l));
  mret (h, set_ends l tl (prev t) (len l)).
Definition listRotateHeadToTail (h : heap) (l : alist) : result (heap * alist) :=
  if len l <=? 1 then mret (h, l) else
  let hd := head l in
  n ← deref h hd;
  h ← set_node h (next n) (set_prev None);
  h ← set_node h (tail l) (set_next hd);
  h ← set_node h hd (set_next None);
  h ← set_node h hd (set_prev (tail l));
  mret (h, set_ends l (next n) hd (len l)).

Definition listJoin (h : heap) (l o : alist) : result (heap * alist * alist) :=
  if len o =? 0 then mret (h, l, o) else
  h ← set_node h (head o) (set_prev (tail l));
  '(h, l) ← (if tail l then h ← set_node h (tail l) (set_next (head o)); mret (h, l)
             else mret (h, set_ends l (head o) (tail l) (len l)));
  mret (h, set_ends l (head l) (tail o) (u64 (len l + len o)), set_ends o None None 0).

Definition listInitNode (h : heap) (node : option loc) (v : Z) : result heap :=
  set_node h node (fun _ => mk_node None None v).
