(* ===== verification/AdlistFacts.v ===== *)
(** * Correctness of the doubly linked lists

    [rep] relates a heap and a list header to the sequence of the nodes and values; every
    operation of adlist.c implements the operation on sequences. *)

From S2P Require Import Prelude Adlist.

Abbreviation cell := (loc * Z)%type.

Definition first (xs : list cell) (n : option loc) : option loc := match xs with [] => n | (l, _) :: _ => Some l end.
Fixpoint final (p : option loc) (xs : list cell) : option loc := match xs with [] => p | (l, _) :: xs => final (Some l) xs end.

(** The nodes [xs] in a row, after [p] and before [n]. *)
Fixpoint seg (m : gmap loc listNode) (p : option loc) (xs : list cell) (n : option loc) : Prop :=
  match xs with
  | [] => True
  | (l, v) :: xs => m !! l = Some (mk_node p (first xs n) v) /\ seg m (Some l) xs n
  end.

Record rep (h : heap) (l : alist) (xs : list cell) : Prop := {
  rep_seg : seg (nodes h) None xs None;
  rep_nodup : NoDup xs.*1;
  rep_head : head l = first xs None;
  rep_tail : tail l = final None xs;
  rep_len : len l = Z.of_nat (length xs);
  rep_small : Z.of_nat (length xs) < 2 ^ 63;
}.

(** ** Segments *)

Lemma first_app xs ys n : first (xs ++ ys) n = first xs (first ys n).
Proof. by destruct xs as [|[]]. Qed.

Lemma final_app p xs ys : final p (xs ++ ys) = final (final p xs) ys.
Proof. revert p. induction xs as [|[l v] xs IH]; intros p; [done|]. apply IH. Qed.

Lemma final_cons p l v xs : final p ((l, v) :: xs) = final (Some l) xs.
Proof. done. Qed.

Lemma seg_app m p xs ys n : seg m p (xs ++ ys) n <-> seg m p xs (first ys n) /\ seg m (final p xs) ys n.
Proof.
  revert p. induction xs as [|[l v] xs IH]; intros p; [simpl; tauto|]. cbn [app seg final]. rewrite IH, first_app. tauto.
Qed.

Lemma seg_ext m m' p xs n : (forall l, l ∈ xs.*1 -> m' !! l = m !! l) -> seg m p xs n -> seg m' p xs n.
Proof.
  revert p. induction xs as [|[l v] xs IH]; intros p Hm; [done|]. cbn [seg]. intros [Hl Hs]. split.
  - rewrite Hm by left. done.
  - apply IH; [|done]. intros l' Hl'. apply Hm. by right.
Qed.

Lemma seg_insert m p xs n l x : l ∉ xs.*1 -> seg m p xs n -> seg (<[l := x]> m) p xs n.
Proof. intros Hl. apply seg_ext. intros l' Hl'. apply lookup_insert_ne. by intros ->. Qed.

Lemma seg_alter m p xs n l f : l ∉ xs.*1 -> seg m p xs n -> seg (alter f l m) p xs n.
Proof. intros Hl. apply seg_ext. intros l' Hl'. apply lookup_alter_ne. by intros ->. Qed.

Lemma seg_delete m p xs n l : l ∉ xs.*1 -> seg m p xs n -> seg (delete l m) p xs n.
Proof. intros Hl. apply seg_ext. intros l' Hl'. apply lookup_delete_ne. by intros ->. Qed.

Lemma seg_dom m p xs n l : seg m p xs n -> l ∈ xs.*1 -> is_Some (m !! l).
Proof.
  revert p. induction xs as [|[l' v] xs IH]; intros p; [by intros _ ?%elem_of_nil|]. intros [Hl Hs] [->|Hin]%elem_of_cons; eauto.
Qed.

Lemma snoc_cases (xs : list cell) : xs = [] \/ exists ys l v, xs = ys ++ [(l, v)].
Proof. induction xs as [|[l v] xs _] using rev_ind; [by left|]. right. eauto. Qed.

Lemma final_snoc p xs l v : final p (xs ++ [(l, v)]) = Some l.
Proof. by rewrite final_app. Qed.

(** *** Changing what is before and what is behind a segment *)

Definition upd_next (p q : option loc) (m : gmap loc listNode) := match p with Some a => alter (set_next q) a m | None => m end.
Definition upd_prev (p q : option loc) (m : gmap loc listNode) := match p with Some a => alter (set_prev q) a m | None => m end.

Lemma seg_upd_last m p xs n n' l v : NoDup (xs ++ [(l, v)]).*1 -> seg m p (xs ++ [(l, v)]) n -> seg (alter (set_next n') l m) p (xs ++ [(l, v)]) n'.
Proof.
  rewrite fmap_app, NoDup_app. intros (_ & Hd & _). rewrite !seg_app. intros [Hxs [Hl _]]. split.
  - apply seg_alter; [|done]. intros Hin. by apply (Hd l Hin), list_elem_of_singleton.
  - split; [|done]. by rewrite lookup_alter_eq, Hl.
Qed.

Lemma seg_upd_first m p p' xs n l v : NoDup ((l, v) :: xs).*1 -> seg m p ((l, v) :: xs) n -> seg (alter (set_prev p') l m) p' ((l, v) :: xs) n.
Proof.
  rewrite fmap_cons, NoDup_cons. intros [Hnin _] [Hl Hs]. split; [by rewrite lookup_alter_eq, Hl|]. by apply seg_alter.
Qed.

Lemma seg_set_next m xs n n' : NoDup xs.*1 -> seg m None xs n -> seg (upd_next (final None xs) n' m) None xs n'.
Proof.
  intros Hn Hs. destruct (snoc_cases xs) as [->|(ys & l & v & ->)]; [done|]. rewrite final_snoc. by eapply seg_upd_last.
Qed.

Lemma seg_set_prev m p p' xs : NoDup xs.*1 -> seg m p xs None -> seg (upd_prev (first xs None) p' m) p' xs None.
Proof. intros Hn Hs. destruct xs as [|[l v] xs]; [done|]. by eapply seg_upd_first. Qed.

Lemma upd_next_frame m p xs n q q' : (forall a, q = Some a -> a ∉ xs.*1) -> seg m p xs n -> seg (upd_next q q' m) p xs n.
Proof. destruct q as [a|]; [|done]. intros H. by apply seg_alter, H. Qed.
Lemma upd_prev_frame m p xs n q q' : (forall a, q = Some a -> a ∉ xs.*1) -> seg m p xs n -> seg (upd_prev q q' m) p xs n.
Proof. destruct q as [a|]; [|done]. intros H. by apply seg_alter, H. Qed.

Lemma final_in xs a : final None xs = Some a -> a ∈ xs.*1.
Proof.
  destruct (snoc_cases xs) as [->|(ys & l & v & ->)]; [done|]. rewrite final_snoc. intros [= <-]. rewrite fmap_app, elem_of_app. right. by left.
Qed.
Lemma first_in xs a : first xs None = Some a -> a ∈ xs.*1.
Proof. destruct xs as [|[l v] xs]; [done|]. intros [= <-]. by left. Qed.

(** A new node between [ys] and [zs]. *)
Definition linked (m : gmap loc listNode) (a : option loc) (l : loc) (v : Z) (b : option loc) :=
  upd_prev b (Some l) (upd_next a (Some l) (<[l := mk_node a b v]> m)).

Lemma seg_link m ys zs l v :
  NoDup (ys ++ zs).*1 -> l ∉ (ys ++ zs).*1 -> seg m None (ys ++ zs) None ->
  seg (linked m (final None ys) l v (first zs None)) None (ys ++ (l, v) :: zs) None.
Proof.
  intros Hn Hl. rewrite fmap_app in Hn, Hl. apply NoDup_app in Hn as (Hny & Hd & Hnz). rewrite elem_of_app in Hl.
  rewrite !seg_app. intros [Hy Hz]. unfold linked. cbn [first seg]. split_and!.
  - apply upd_prev_frame; [intros a Ha%first_in Hin; by apply (Hd a Hin)|]. eapply seg_set_next; [done|]. apply seg_insert; [tauto|done].
  - assert (forall m' q, (forall a, q = Some a -> a <> l) -> upd_prev q (Some l) m' !! l = m' !! l) as Hp.
    { intros m' [a|] Hne; [|done]. apply lookup_alter_ne. by apply Hne. }
    assert (forall m' q, (forall a, q = Some a -> a <> l) -> upd_next q (Some l) m' !! l = m' !! l) as Hq.
    { intros m' [a|] Hne; [|done]. apply lookup_alter_ne. by apply Hne. }
    rewrite Hp, Hq by (intros a Ha ->; apply Hl; first [left; by apply final_in|right; by apply first_in]).
    by rewrite lookup_insert_eq.
  - eapply seg_set_prev; [done|]. apply upd_next_frame; [intros a Ha%final_in Hin; by apply (Hd a Ha)|]. apply seg_insert; [tauto|done].
Qed.

(** The node between [ys] and [zs] taken out. *)
Lemma seg_unlink m ys zs l v :
  NoDup (ys ++ (l, v) :: zs).*1 -> seg m None (ys ++ (l, v) :: zs) None ->
  seg (upd_prev (first zs None) (final None ys) (upd_next (final None ys) (first zs None) m)) None (ys ++ zs) None.
Proof.
  intros Hn. rewrite fmap_app, fmap_cons in Hn. apply NoDup_app in Hn as (Hny & Hd & Hn). apply NoDup_cons in Hn as [Hl Hnz].
  rewrite !seg_app. cbn [first seg]. intros (Hy & _ & Hz). split.
  - apply upd_prev_frame; [intros a Ha%first_in Hin; apply (Hd a Hin); by right|]. by eapply seg_set_next.
  - eapply seg_set_prev; [done|]. apply upd_next_frame; [intros a Ha%final_in Hin; apply (Hd a Ha); by right|done].
Qed.

(** ** Primitive heap operations *)

Lemma set_node_ok h l f : is_Some (nodes h !! l) -> set_node h (Some l) f = inr (mk_heap (alter f l (nodes h)) (freed h)).
Proof. intros [n E]. unfold set_node. cbn [the mbind result_bind]. rewrite E. cbn [the mbind result_bind]. by rewrite alter_alt, E. Qed.

Lemma deref_ok h l n : nodes h !! l = Some n -> deref h (Some l) = inr n.
Proof. intros E. unfold deref. cbn [the mbind result_bind]. by rewrite E. Qed.

Lemma zfree_ok h l n : nodes h !! l = Some n -> zfree h (Some l) = inr (mk_heap (delete l (nodes h)) (freed h)).
Proof. intros E. unfold zfree. cbn [the mbind result_bind]. by rewrite E. Qed.

Lemma fresh_seg h xs p n : seg (nodes h) p xs n -> fresh (dom (nodes h)) ∉ xs.*1.
Proof. intros Hs Hin. destruct (seg_dom _ _ _ _ _ Hs Hin) as [x Hx]. apply elem_of_dom_2 in Hx. by apply (is_fresh (dom (nodes h))). Qed.

Lemma is_Some_alter (m : gmap loc listNode) f i j : is_Some (m !! i) -> is_Some (alter f j m !! i).
Proof. intros [x E]. destruct (decide (j = i)) as [->|]; [rewrite lookup_alter_eq, E; by eexists|rewrite lookup_alter_ne, E by done; by eexists]. Qed.
Lemma is_Some_insert (m : gmap loc listNode) x i j : is_Some (m !! i) -> is_Some (<[j := x]> m !! i).
Proof. intros [y E]. destruct (decide (j = i)) as [->|]; [rewrite lookup_insert_eq; by eexists|rewrite lookup_insert_ne, E by done; by eexists]. Qed.
Lemma is_Some_insert_eq (m : gmap loc listNode) x j : is_Some (<[j := x]> m !! j).
Proof. rewrite lookup_insert_eq. by eexists. Qed.
#[local] Hint Resolve is_Some_alter is_Some_insert is_Some_insert_eq : study.

(** ** Adding nodes *)

Lemma rep_len0 h l xs : rep h l xs -> len l = 0 <-> xs = [].
Proof. intros [_ _ _ _ -> _]. destruct xs; simpl; split; (done || lia). Qed.

Lemma length_link (ys zs : list cell) c : length (ys ++ c :: zs) = S (length (ys ++ zs)).
Proof. rewrite !length_app. simpl. lia. Qed.

Lemma nodup_link (ys zs : list cell) l v : NoDup (ys ++ zs).*1 -> l ∉ (ys ++ zs).*1 -> NoDup (ys ++ (l, v) :: zs).*1.
Proof.
  rewrite !fmap_app, fmap_cons. intros Hn Hl. cbn [fst]. rewrite <- Permutation_middle. apply NoDup_cons. done.
Qed.

(** A header and a heap that were linked this way represent the longer sequence. *)
Lemma rep_link h l ys zs node v h' l' :
  rep h l (ys ++ zs) -> node ∉ (ys ++ zs).*1 -> Z.of_nat (length (ys ++ zs)) + 1 < 2 ^ 63 ->
  nodes h' = linked (nodes h) (final None ys) node v (first zs None) ->
  head l' = first (ys ++ (node, v) :: zs) None -> tail l' = final None (ys ++ (node, v) :: zs) -> len l' = u64 (len l + 1) ->
  rep h' l' (ys ++ (node, v) :: zs).
Proof.
  intros [Hs Hn _ _ Hl _] Hf Hsm En Eh Et El. split; [|by apply nodup_link|done|done| |rewrite length_link; lia].
  - rewrite En. by apply seg_link.
  - rewrite El, Hl, wrap_u_id, length_link by (unfold in_u; lia). lia.
Qed.

Lemma listAddNodeHead_ok h l xs v :
  rep h l xs -> Z.of_nat (length xs) + 1 < 2 ^ 63 ->
  exists h' l', listAddNodeHead h l v = inr (h', l') /\ rep h' l' ((fresh (dom (nodes h)), v) :: xs) /\ freed h' = freed h.
Proof.
  intros Hrep Hsm. pose proof (fresh_seg _ _ _ _ (rep_seg _ _ _ Hrep)) as Hf. unfold listAddNodeHead, alloc, listLinkNodeHead.
  set (node := fresh (dom (nodes h))) in *. pose proof Hrep as [Hs Hn Hh Ht Hl _].
  destruct (Z.eqb_spec (len l) 0) as [E0|Hne].
  - apply (rep_len0 _ _ _ Hrep) in E0 as ->. rewrite set_node_ok by (cbn; auto with study). cbn [mbind result_bind nodes freed].
    eexists _, _. split; [done|]. split; [|done]. apply (rep_link h l [] [] node v); [done..| |done|done|done]. cbn. by rewrite alter_insert_eq.
  - destruct xs as [|[b vb] xs]; [simpl in Hl; lia|]. rewrite Hh. cbn [first].
    assert (is_Some (nodes h !! b)) as Hb by (eapply seg_dom; [done|by left]).
    rewrite set_node_ok by (cbn; auto with study). cbn [mbind result_bind].
    rewrite set_node_ok by (cbn; auto with study). cbn [mbind result_bind].
    rewrite set_node_ok by (cbn; auto with study). cbn [mbind result_bind nodes freed].
    eexists _, _. split; [done|]. split; [|done]. apply (rep_link h l [] ((b, vb) :: xs) node v); [done..| |done| |done].
    + cbn. by rewrite !alter_insert_eq.
    + cbn [set_ends tail]. by rewrite Ht.
Qed.

Lemma listAddNodeTail_ok h l xs v :
  rep h l xs -> Z.of_nat (length xs) + 1 < 2 ^ 63 ->
  exists h' l', listAddNodeTail h l v = inr (h', l') /\ rep h' l' (xs ++ [(fresh (dom (nodes h)), v)]) /\ freed h' = freed h.
Proof.
  intros Hrep Hsm. pose proof (fresh_seg _ _ _ _ (rep_seg _ _ _ Hrep)) as Hf. unfold listAddNodeTail, alloc, listLinkNodeTail.
  set (node := fresh (dom (nodes h))) in *. pose proof Hrep as [Hs Hn Hh Ht Hl _].
  destruct (Z.eqb_spec (len l) 0) as [E0|Hne].
  - apply (rep_len0 _ _ _ Hrep) in E0 as ->. rewrite set_node_ok by (cbn; auto with study). cbn [mbind result_bind nodes freed].
    eexists _, _. split; [done|]. split; [|done]. apply (rep_link h l [] [] node v); [done..| |done|done|done]. cbn. by rewrite alter_insert_eq.
  - destruct (snoc_cases xs) as [->|(ys & a & va & ->)]; [simpl in Hl; lia|]. rewrite Ht, final_snoc.
    assert (is_Some (nodes h !! a)) as Ha by (eapply seg_dom; [done|rewrite fmap_app, elem_of_app; right; by left]).
    rewrite set_node_ok by (cbn; auto with study). cbn [mbind result_bind].
    rewrite set_node_ok by (cbn; auto with study). cbn [mbind result_bind].
    rewrite set_node_ok by (cbn; auto with study). cbn [mbind result_bind nodes freed].
    eexists _, _. split; [done|]. split; [|done]. apply (rep_link h l (ys ++ [(a, va)]) [] node v); rewrite ?app_nil_r; [done..| | | |done].
    + rewrite final_snoc. cbn. by rewrite !alter_insert_eq.
    + cbn [set_ends head]. rewrite Hh. by rewrite (first_app _ [_]), !first_app.
    + by rewrite final_snoc.
Qed.

Lemma listInsertNode_ok h l ys zs node v w (after : bool) :
  rep h l (ys ++ (node, v) :: zs) -> Z.of_nat (length (ys ++ (node, v) :: zs)) + 1 < 2 ^ 63 ->
  exists h' l' node', listInsertNode h l (Some node) w after = inr (h', l') /\ freed h' = freed h /\
    rep h' l' (if after then ys ++ (node, v) :: (node', w) :: zs else ys ++ (node', w) :: (node, v) :: zs).
Proof.
  intros Hrep Hsm. pose proof (fresh_seg _ _ _ _ (rep_seg _ _ _ Hrep)) as Hf. unfold listInsertNode, alloc.
  set (new := fresh (dom (nodes h))) in *. pose proof Hrep as [Hs Hn Hh Ht Hl _].
  pose proof Hs as (Hsy & Hnode & Hsz)%seg_app. cbn [seg] in Hnode. rewrite fmap_app, fmap_cons in Hn, Hf. cbn [fst] in *.
  assert (node <> new) as Hnew by (intros ->; apply Hf; rewrite elem_of_app; right; by left).
  rewrite (deref_ok _ node (mk_node (final None ys) (first zs None) v)) by (cbn; by rewrite lookup_insert_ne). cbn [mbind result_bind next prev].
  apply NoDup_app in Hn as (Hny & Hd & Hnz). apply NoDup_cons in Hnz as [Hnode' Hnz].
  assert (forall a, first zs None = Some a -> is_Some (nodes h !! a) /\ a <> node /\ a <> new) as Hfirst.
  { intros a Ha%first_in. split; [by eapply seg_dom|]. split; intros ->; [done|]. apply Hf. rewrite elem_of_app. right. by right. }
  assert (forall a, final None ys = Some a -> is_Some (nodes h !! a) /\ a <> node /\ a <> new) as Hfinal.
  { intros a Ha%final_in. split; [exact (seg_dom _ _ _ _ _ Hsy Ha)|]. split; intros ->; [by apply (Hd node Ha); left|]. apply Hf. rewrite elem_of_app. by left. }
  destruct after.
  - rewrite set_node_ok by (cbn; auto with study). cbn [mbind result_bind mret result_ret nodes freed]. rewrite alter_insert_eq. cbn [value].
    rewrite (deref_ok _ new (mk_node (Some node) (first zs None) w)) by (cbn; by rewrite lookup_insert_eq). cbn [mbind result_bind prev next].
    rewrite set_node_ok by (cbn; rewrite lookup_insert_ne by done; eauto). cbn [mbind result_bind nodes freed].
    rewrite (deref_ok _ new (mk_node (Some node) (first zs None) w)) by (cbn; rewrite lookup_alter_ne by done; by rewrite lookup_insert_eq).
    cbn [mbind result_bind prev next].
    assert (exists h', (if first zs None then set_node (mk_heap (alter (set_next (Some new)) node (<[new:=mk_node (Some node) (first zs None) w]> (nodes h))) (freed h))
        (first zs None) (set_prev (Some new)) else mret (mk_heap (alter (set_next (Some new)) node (<[new:=mk_node (Some node) (first zs None) w]> (nodes h))) (freed h))) = inr h' /\
        freed h' = freed h /\ nodes h' = linked (nodes h) (final None (ys ++ [(node, v)])) new w (first zs None)) as (h' & -> & Hfr & Hnodes).
    { rewrite final_snoc. unfold linked, upd_prev, upd_next. destruct (first zs None) as [b|] eqn:Eb.
      - destruct (Hfirst b eq_refl) as (Hb & ? & ?). rewrite set_node_ok by (cbn; auto with study). eexists. split; [done|]. done.
      - eexists. split; [done|]. done. }
    cbn [mbind result_bind]. eexists _, _, new. split; [done|]. split; [done|].
    replace (ys ++ (node, v) :: (new, w) :: zs) with ((ys ++ [(node, v)]) ++ (new, w) :: zs) by by rewrite <- app_assoc.
    assert (rep h l ((ys ++ [(node, v)]) ++ zs)) as Hrep' by by rewrite <- app_assoc.
    eapply (rep_link h l (ys ++ [(node, v)]) zs new w); rewrite <- ?app_assoc; cbn [app]; [done|by rewrite fmap_app, fmap_cons|done|done| | |].
    + rewrite first_app. cbn [first]. destruct (bool_decide _); cbn [set_ends head]; by rewrite Hh, first_app.
    + rewrite final_app. cbn [final]. rewrite Ht, final_app. cbn [final]. destruct zs as [|[b vb] zs]; cbn [final].
      * rewrite bool_decide_true by done. done.
      * rewrite bool_decide_false; cbn [set_ends tail]; [by rewrite Ht, final_app|].
        intros E. apply (Hnode'). change (final (Some b) zs) with (final None ((b, vb) :: zs)) in E. by apply final_in in E.
    + destruct (bool_decide _); done.
  - rewrite set_node_ok by (cbn; auto with study). cbn [mbind result_bind mret result_ret nodes freed]. rewrite alter_insert_eq. cbn [value].
    rewrite (deref_ok _ new (mk_node (final None ys) (Some node) w)) by (cbn; by rewrite lookup_insert_eq). cbn [mbind result_bind prev next].
    assert (exists h', (if final None ys then set_node (mk_heap (<[new:=mk_node (final None ys) (Some node) w]> (nodes h)) (freed h))
        (final None ys) (set_next (Some new)) else mret (mk_heap (<[new:=mk_node (final None ys) (Some node) w]> (nodes h)) (freed h))) = inr h' /\
        freed h' = freed h /\ nodes h' = upd_next (final None ys) (Some new) (<[new := mk_node (final None ys) (Some node) w]> (nodes h))) as (h' & -> & Hfr & Hnodes).
    { unfold upd_next. destruct (final None ys) as [b|] eqn:Eb.
      - destruct (Hfinal b eq_refl) as (Hb & ? & ?). rewrite set_node_ok by (cbn; auto with study). eexists. split; [done|]. done.
      - eexists. split; [done|]. done. }
    cbn [mbind result_bind]. rewrite (deref_ok _ new (mk_node (final None ys) (Some node) w)).
    2: { rewrite Hnodes. unfold upd_next. destruct (final None ys) as [b|]; [|by rewrite lookup_insert_eq].
         destruct (Hfinal b eq_refl) as (_ & _ & ?). rewrite lookup_alter_ne by done. by rewrite lookup_insert_eq. }
    cbn [mbind result_bind next]. rewrite set_node_ok.
    2: { rewrite Hnodes. unfold upd_next. destruct (final None ys) as [b|]; cbn; auto with study; rewrite ?lookup_insert_ne by done; eauto with study. }
    cbn [mbind result_bind]. eexists _, _, new. split; [done|]. split; [done|].
    eapply (rep_link h l ys ((node, v) :: zs) new w); [done|by rewrite fmap_app, fmap_cons|done| | | |].
    + cbn [nodes]. by rewrite Hnodes.
    + rewrite Hh, !first_app. cbn [first]. destruct ys as [|[b vb] ys]; cbn [first].
      * rewrite bool_decide_true by done. done.
      * rewrite bool_decide_false; [cbn [set_ends head]; rewrite Hh; done|]. intros [= ->]. apply (Hd node); by left.
    + rewrite final_app. cbn [final]. destruct (bool_decide _); cbn [set_ends tail]; by rewrite Ht, final_app.
    + destruct (bool_decide _); done.
Qed.

(** ** Removing nodes *)

Lemma listUnlinkNode_ok h l ys zs node v :
  rep h l (ys ++ (node, v) :: zs) ->
  exists h' l', listUnlinkNode h l (Some node) = inr (h', l') /\ rep h' l' (ys ++ zs) /\ freed h' = freed h /\
    nodes h' !! node = Some (mk_node None None v) /\ dup l' = dup l /\ free l' = free l /\ match_ l' = match_ l.
Proof.
  intros [Hs Hn Hh Ht Hl Hsm]. pose proof (seg_unlink _ _ _ _ _ Hn Hs) as Hs'. unfold listUnlinkNode.
  pose proof Hs as (Hsy & Hnode & Hsz)%seg_app. cbn [seg] in Hnode. rewrite fmap_app, fmap_cons in Hn. cbn [fst] in *.
  apply NoDup_app in Hn as (Hny & Hd & Hnz). apply NoDup_cons in Hnz as [Hnode' Hnz].
  assert (forall a, first zs None = Some a -> is_Some (nodes h !! a) /\ a <> node) as Hfirst.
  { intros a Ha%first_in. split; [exact (seg_dom _ _ _ _ _ Hsz Ha)|]. by intros ->. }
  assert (forall a, final None ys = Some a -> is_Some (nodes h !! a) /\ a <> node) as Hfinal.
  { intros a Ha%final_in. split; [exact (seg_dom _ _ _ _ _ Hsy Ha)|]. intros ->. by apply (Hd node Ha); left. }
  assert (NoDup (ys ++ zs).*1) as Hnd.
  { rewrite fmap_app. apply NoDup_app. split_and!; [done| |done]. intros a Ha Hin. apply (Hd a Ha). by right. }
  rewrite (deref_ok _ node _ Hnode). cbn [mbind result_bind prev next].
  set (m1 := upd_next (final None ys) (first zs None) (nodes h)) in *.
  assert (exists l1, (if final None ys then h ← set_node h (final None ys) (set_next (first zs None)); mret (h, l)
      else mret (h, set_ends l (first zs None) (tail l) (len l))) = inr (mk_heap m1 (freed h), l1) /\
      head l1 = first (ys ++ zs) None /\ tail l1 = tail l /\ len l1 = len l /\ dup l1 = dup l /\ free l1 = free l /\ match_ l1 = match_ l)
    as (l1 & -> & Eh1 & Et1 & El1 & Em1).
  { unfold m1, upd_next. destruct ys as [|[b vb] ys']; [cbn; destruct h; by eexists|]. destruct (final None ((b, vb) :: ys')) as [a|] eqn:Ea.
    - destruct (Hfinal a eq_refl) as [Ha _]. rewrite set_node_ok by done. eexists. split; [done|]. by rewrite Hh.
    - exfalso. destruct (snoc_cases ((b, vb) :: ys')) as [|(? & ? & ? & E)]; [done|]. rewrite E, final_snoc in Ea. done. }
  cbn [mbind result_bind].
  assert (m1 !! node = Some (mk_node (final None ys) (first zs None) v)) as Hnode1.
  { unfold m1, upd_next. destruct (final None ys) as [a|]; [|done]. destruct (Hfinal a eq_refl) as [_ ?]. by rewrite lookup_alter_ne. }
  rewrite (deref_ok (mk_heap m1 _) node _ Hnode1). cbn [mbind result_bind prev next].
  set (m2 := upd_prev (first zs None) (final None ys) m1) in *.
  assert (exists l2, (if first zs None then h ← set_node (mk_heap m1 (freed h)) (first zs None) (set_prev (final None ys)); mret (h, l1)
      else mret (mk_heap m1 (freed h), set_ends l1 (head l1) (final None ys) (len l1))) = inr (mk_heap m2 (freed h), l2) /\
      head l2 = first (ys ++ zs) None /\ tail l2 = final None (ys ++ zs) /\ len l2 = len l /\ dup l2 = dup l /\ free l2 = free l /\ match_ l2 = match_ l)
    as (l2 & -> & Eh2 & Et2 & El2 & Ed2 & Ef2 & Em2).
  { unfold m2, upd_prev. rewrite Ht, !final_app in *. cbn [final] in *. destruct zs as [|[b vb] zs']; cbn [first].
    - eexists. split; [done|]. cbn. done.
    - destruct (Hfirst b eq_refl) as [[x Hb] _]. rewrite set_node_ok.
      + eexists. split; [done|]. done.
      + cbn [nodes]. unfold m1, upd_next. destruct (final None ys); cbn; eauto with study. }
  cbn [mbind result_bind].
  assert (m2 !! node = Some (mk_node (final None ys) (first zs None) v)) as Hnode2.
  { unfold m2, upd_prev. destruct (first zs None) as [a|]; [|done]. destruct (Hfirst a eq_refl) as [_ ?]. by rewrite lookup_alter_ne. }
  rewrite set_node_ok by by eexists. cbn [mbind result_bind nodes freed]. eexists _, _. split; [done|].
  rewrite length_link in Hl, Hsm. split_and!; [|done|cbn; by rewrite lookup_alter_eq, Hnode2|done..].
  split; cbn [nodes set_ends head tail len]; [|done|done|done| |lia].
  - apply seg_alter; [|done]. rewrite fmap_app, elem_of_app. intros [Hin|Hin]; [apply (Hd node Hin); by left|done].
  - rewrite El2, Hl, wrap_u_id by (unfold in_u; lia). lia.
Qed.

Lemma listDelNode_ok h l ys zs node v :
  rep h l (ys ++ (node, v) :: zs) ->
  exists h' l', listDelNode h l (Some node) = inr (h', l') /\ rep h' l' (ys ++ zs) /\
    freed h' = freed h ++ (if free l then [v] else []) /\ nodes h' !! node = None.
Proof.
  intros Hrep. unfold listDelNode. pose proof (rep_nodup _ _ _ Hrep) as Hn.
  destruct (listUnlinkNode_ok h l ys zs node v Hrep) as (h1 & l1 & -> & [Hs Hn' Hh Ht Hl Hsm] & Hfr & Hnode & _ & Hfree & _).
  cbn [mbind result_bind]. rewrite (deref_ok _ node _ Hnode). cbn [mbind result_bind value].
  assert (nodes (call_free h1 l1 v) = nodes h1) as En by (unfold call_free; by destruct (free l1)).
  unfold zfree. cbn [the mbind result_bind]. rewrite En, Hnode. cbn [the mbind result_bind]. eexists _, _. split; [done|].
  split; [|split; [|cbn; by rewrite lookup_delete_eq]].
  - split; [|done..]. cbn [nodes]. apply seg_delete; [|done]. rewrite fmap_app, fmap_cons in Hn. cbn [fst] in Hn.
    rewrite fmap_app. intros Hin. rewrite <- Permutation_middle in Hn. apply NoDup_cons in Hn as [Hn _]. done.
  - cbn [freed]. unfold call_free. rewrite Hfree. destruct (free l); cbn [freed]; rewrite Hfr; by rewrite ?app_nil_r.
Qed.

(** ** Reading *)

Lemma walk_next_ok h p xs n k :
  seg (nodes h) p xs n -> (k <= length xs)%nat -> walk next k h (first xs n) = inr (first (drop k xs) n).
Proof.
  revert p xs. induction k as [|k IH]; intros p xs Hs Hk; [by rewrite drop_0|]. destruct xs as [|[l v] xs]; [simpl in Hk; lia|].
  destruct Hs as [Hl Hs]. cbn [first walk]. rewrite (deref_ok _ _ _ Hl). cbn [mbind result_bind next drop]. apply (IH (Some l)); [done|simpl in Hk; lia].
Qed.

Lemma walk_end step h k : walk step k h None = inr None.
Proof. by destruct k. Qed.

Lemma walk_add step h a b n : walk step (a + b) h n = (m ← walk step a h n; walk step b h m).
Proof.
  revert n. induction a as [|a IH]; intros n; [done|]. cbn [plus walk]. destruct n as [x|].
  - destruct (deref h (Some x)); [done|]. cbn [mbind result_bind]. apply IH.
  - unfold mret, result_ret. cbn [mbind result_bind]. by rewrite walk_end.
Qed.

Lemma walk_prev_ok h xs n k :
  seg (nodes h) None xs n -> (k <= length xs)%nat -> walk prev k h (final None xs) = inr (final None (take (length xs - k) xs)).
Proof.
  revert xs n. induction k as [|k IH]; intros xs n Hs Hk; [by rewrite Nat.sub_0_r, firstn_all|].
  destruct (snoc_cases xs) as [->|(ys & l & v & ->)]; [simpl in Hk; lia|]. rewrite final_snoc. cbn [walk].
  apply seg_app in Hs as (Hy & Hl & _). cbn [first] in *. rewrite (deref_ok _ _ _ Hl). cbn [mbind result_bind prev].
  rewrite length_app in *. cbn [length] in *. rewrite (IH ys (Some l)) by (done || lia). rewrite take_app_le by lia. do 2 f_equal. f_equal. lia.
Qed.

(** The node at [index], from the head or, when negative, from the tail. *)
Definition nth_cell (xs : list cell) (index : Z) : option cell :=
  if index <? 0 then if Z.of_nat (length xs) + index <? 0 then None else xs !! Z.to_nat (Z.of_nat (length xs) + index)
  else xs !! Z.to_nat index.

Lemma first_lookup (xs : list cell) k : first (drop k xs) None = fst <$> (xs !! k).
Proof. rewrite <- (Nat.add_0_r k) at 2. rewrite <- lookup_drop. by destruct (drop k xs) as [|[]]. Qed.

Lemma final_lookup (xs : list cell) k : (k < length xs)%nat -> final None (take (S k) xs) = fst <$> (xs !! k).
Proof.
  intros Hk. destruct (lookup_lt_is_Some_2 xs k Hk) as [[l v] E]. rewrite (take_S_r xs k (l, v)) by done. by rewrite final_snoc, E.
Qed.

Lemma listIndex_ok h l xs index :
  rep h l xs -> listIndex h l index = inr (fst <$> nth_cell xs index).
Proof.
  intros [Hs Hn Hh Ht Hl Hsm]. unfold listIndex, nth_cell. destruct (Z.ltb_spec index 0) as [Hneg|Hpos].
  - rewrite Ht. set (k := Z.to_nat (- index - 1)). destruct (Z.ltb_spec (Z.of_nat (length xs) + index) 0) as [Hout|Hin].
    + assert (forall k', (length xs <= k')%nat -> walk prev k' h (final None xs) = inr None) as Hw; [|apply Hw; lia].
      intros k' Hk'. replace k' with (length xs + (k' - length xs))%nat by lia.
      rewrite walk_add, (walk_prev_ok _ _ None) by done. rewrite Nat.sub_diag, take_0. cbn [final mbind result_bind]. apply walk_end.
    + rewrite (walk_prev_ok _ _ None) by (done || lia). f_equal.
      replace (length xs - k)%nat with (S (Z.to_nat (Z.of_nat (length xs) + index))) by lia. apply final_lookup. lia.
  - rewrite Hh. destruct (decide (Z.to_nat index <= length xs)%nat) as [Hle|Hgt].
    + rewrite (walk_next_ok _ None) by done. by rewrite first_lookup.
    + rewrite lookup_ge_None_2 by lia. cbn [fmap option_fmap option_map].
      replace (Z.to_nat index) with (length xs + (Z.to_nat index - length xs))%nat by lia.
      rewrite walk_add, (walk_next_ok _ None) by done. rewrite drop_ge by done. cbn [first mbind result_bind]. apply walk_end.
Qed.

(** What [listSearchKey] compares. *)
Definition matches (l : alist) (key : Z) (c : cell) : bool := match match_ l with Some f => f c.2 key | None => key =? c.2 end.

Lemma search_loop_ok fuel h l key p xs :
  seg (nodes h) p xs None -> (length xs < fuel)%nat ->
  search_loop fuel h l key (mk_iter (first xs None) AL_START_HEAD) = inr (fst <$> (snd <$> list_find (fun c => matches l key c = true) xs)).
Proof.
  revert p xs. induction fuel as [|fuel IH]; intros p xs Hs Hf; [lia|]. cbn [search_loop]. unfold listNext. cbn [i_next i_dir].
  destruct xs as [|[a v] xs]; [done|]. destruct Hs as [Hl Hs]. cbn [first]. rewrite (deref_ok _ _ _ Hl). cbn [mbind result_bind mret result_ret].
  rewrite (deref_ok _ _ _ Hl). cbn [mbind result_bind value next list_find].
  change (match match_ l with Some f => f v key | None => key =? v end) with (matches l key (a, v)).
  destruct (decide (matches l key (a, v) = true)) as [E|E].
  - by rewrite E.
  - rewrite (not_true_is_false _ E). rewrite (IH (Some a)) by (done || (simpl in Hf; lia)).
    by destruct (list_find _ xs) as [[]|].
Qed.

Lemma listSearchKey_ok h l xs key :
  rep h l xs -> listSearchKey h l key = inr (fst <$> (snd <$> list_find (fun c => matches l key c = true) xs)).
Proof.
  intros [Hs Hn Hh Ht Hl Hsm]. unfold listSearchKey, listRewind. rewrite Hh. apply (search_loop_ok _ _ _ _ None); [done|lia].
Qed.

(** ** Rotation, joining, emptying *)

Lemma listRotateTailToHead_ok h l xs :
  rep h l xs -> exists h' l', listRotateTailToHead h l = inr (h', l') /\ freed h' = freed h /\
    rep h' l' (match last xs with Some c => c :: take (length xs - 1) xs | None => [] end).
Proof.
  intros Hrep. pose proof Hrep as [Hs Hn Hh Ht Hl Hsm]. unfold listRotateTailToHead. rewrite Hl.
  destruct (Z.leb_spec (Z.of_nat (length xs)) 1) as [Hle|Hgt].
  { exists h, l. split; [done|]. split; [done|]. by destruct xs as [|? [|]]; simpl in Hle; try lia. }
  destruct (snoc_cases xs) as [->|(ys & t & vt & ->)]; [simpl in Hgt; lia|]. rewrite length_app in *. cbn [length] in *.
  destruct (snoc_cases ys) as [->|(ys' & p & vp & Ey)]; [simpl in Hgt; lia|].
  destruct ys as [|[b vb] zs] eqn:Eyz; [simpl in Hgt; lia|]. rewrite <- Eyz in *.
  pose proof Hs as (Hsy & Hst & _)%seg_app. cbn [first] in Hsy, Hst. rewrite Ht, final_snoc, Hh.
  assert (final None ys = Some p) as Efin by by rewrite Ey, final_snoc.
  rewrite Efin in Hst. rewrite (deref_ok _ t _ Hst). cbn [mbind result_bind prev].
  assert (first (ys ++ [(t, vt)]) None = Some b) as -> by (by rewrite Eyz).
  rewrite fmap_app in Hn. apply NoDup_app in Hn as (Hny & Hd & _).
  assert (p ∈ ys.*1) as Hp by (rewrite Ey, fmap_app, elem_of_app; right; by left).
  assert (b ∈ ys.*1) as Hb by (rewrite Eyz; by left).
  assert (t ∉ ys.*1) as Ht' by (intros Hin; apply (Hd t Hin); by left).
  assert (p <> t /\ b <> t) as [Hpt Hbt] by (split; by intros ->).
  pose proof (seg_dom _ _ _ _ _ Hsy Hp) as Sp. pose proof (seg_dom _ _ _ _ _ Hsy Hb) as Sb. assert (is_Some (nodes h !! t)) as St by by eexists.
  do 4 (rewrite set_node_ok by (cbn [nodes]; auto with study); cbn [mbind result_bind nodes freed]).
  eexists _, _. split; [done|]. split; [done|]. rewrite last_snoc. replace (length ys + 1 - 1)%nat with (length ys) by lia. rewrite take_app_length.
  split; cbn [nodes set_ends head tail len].
  - cbn [seg]. split.
    + rewrite !lookup_alter_eq, !lookup_alter_ne by done. rewrite Hst. cbn. by rewrite Eyz.
    + do 2 (apply seg_alter; [done|]). rewrite Eyz in *. eapply seg_upd_first; [done|]. rewrite Ey in *. by eapply seg_upd_last.
  - rewrite fmap_cons. apply NoDup_cons. done.
  - done.
  - rewrite final_cons, Ey, final_app. done.
  - cbn [length]. lia.
  - cbn [length]. lia.
Qed.

Lemma listRotateHeadToTail_ok h l xs :
  rep h l xs -> exists h' l', listRotateHeadToTail h l = inr (h', l') /\ freed h' = freed h /\
    rep h' l' (match xs with c :: xs => xs ++ [c] | [] => [] end).
Proof.
  intros Hrep. pose proof Hrep as [Hs Hn Hh Ht Hl Hsm]. unfold listRotateHeadToTail. rewrite Hl.
  destruct (Z.leb_spec (Z.of_nat (length xs)) 1) as [Hle|Hgt].
  { exists h, l. split; [done|]. split; [done|]. by destruct xs as [|? [|]]; simpl in Hle; try lia. }
  destruct xs as [|[b vb] zs]; [simpl in Hgt; lia|]. cbn [length] in *.
  destruct (snoc_cases zs) as [->|(zs' & t & vt & Ez)]; [simpl in Hgt; lia|].
  destruct zs as [|[n vn] ws] eqn:Ezw; [simpl in Hgt; lia|]. rewrite <- Ezw in *.
  destruct Hs as [Hsb Hsz]. rewrite Hh. cbn [first]. rewrite (deref_ok _ b _ Hsb). cbn [mbind result_bind next].
  assert (first zs None = Some n) as -> by by rewrite Ezw. rewrite Ht, final_cons.
  assert (final (Some b) zs = Some t) as -> by by rewrite Ez, final_app.
  rewrite fmap_cons in Hn. apply NoDup_cons in Hn as [Hb' Hnz]. cbn [fst] in *.
  assert (t ∈ zs.*1) as Ht' by (rewrite Ez, fmap_app, elem_of_app; right; by left).
  assert (n ∈ zs.*1) as Hn' by (rewrite Ezw; by left).
  assert (t <> b /\ n <> b) as [Htb Hnb] by (split; by intros ->).
  pose proof (seg_dom _ _ _ _ _ Hsz Ht') as St. pose proof (seg_dom _ _ _ _ _ Hsz Hn') as Sn. assert (is_Some (nodes h !! b)) as Sb by by eexists.
  do 4 (rewrite set_node_ok by (cbn [nodes]; auto with study); cbn [mbind result_bind nodes freed]).
  eexists _, _. split; [done|]. split; [done|]. split; cbn [nodes set_ends head tail len].
  - apply seg_app. cbn [first seg]. split_and!; [| |done].
    + do 2 (apply seg_alter; [done|]). rewrite Ez in Hnz |- *. eapply seg_upd_last; [done|]. rewrite <- Ez, Ezw in *. by eapply seg_upd_first.
    + rewrite !lookup_alter_eq, !lookup_alter_ne by done. rewrite Hsb. cbn. by rewrite Ez, final_snoc.
  - rewrite fmap_app. change [(b, vb)].*1 with [b]. rewrite <- Permutation_cons_append. apply NoDup_cons. done.
  - rewrite Ezw. done.
  - by rewrite final_snoc.
  - rewrite length_app. cbn [length]. lia.
  - rewrite length_app. cbn [length]. lia.
Qed.

Lemma listJoin_ok h l o xs ys :
  rep h l xs -> rep h o ys -> (forall a, a ∈ xs.*1 -> a ∉ ys.*1) -> Z.of_nat (length xs + length ys) < 2 ^ 63 ->
  exists h' l' o', listJoin h l o = inr (h', l', o') /\ rep h' l' (xs ++ ys) /\ rep h' o' [] /\ freed h' = freed h.
Proof.
  intros [Hs Hn Hh Ht Hl Hsm] Hrep' Hd Hlen. pose proof Hrep' as [Hs' Hn' Hh' Ht' Hl' Hsm']. unfold listJoin.
  destruct (Z.eqb_spec (len o) 0) as [E|Hne].
  { apply (rep_len0 _ _ _ Hrep') in E as ->. exists h, l, o. rewrite app_nil_r. done. }
  destruct ys as [|[b vb] zs] eqn:Ey; [simpl in Hl'; lia|]. rewrite <- Ey in *.
  assert (first ys None = Some b) as Efirst by by rewrite Ey. rewrite Hh', Efirst, Ht.
  assert (b ∈ ys.*1) as Hb by (rewrite Ey; by left). pose proof (seg_dom _ _ _ _ _ Hs' Hb) as Sb.
  rewrite set_node_ok by done. cbn [mbind result_bind].
  assert (exists l1, (if final None xs then h ← set_node (mk_heap (alter (set_prev (final None xs)) b (nodes h)) (freed h)) (final None xs) (set_next (Some b)); mret (h, l)
      else mret (mk_heap (alter (set_prev (final None xs)) b (nodes h)) (freed h), set_ends l (Some b) (final None xs) (len l))) =
      inr (mk_heap (upd_next (final None xs) (Some b) (alter (set_prev (final None xs)) b (nodes h))) (freed h), l1) /\
      head l1 = first (xs ++ ys) None /\ len l1 = len l) as (l1 & -> & Eh1 & El1).
  { rewrite first_app, Efirst. destruct (snoc_cases xs) as [->|(xs' & a & va & ->)]; [by eexists|]. rewrite final_snoc.
    rewrite set_node_ok.
    - eexists. split; [done|]. rewrite Hh. by destruct xs' as [|[]].
    - cbn [nodes]. apply is_Some_alter. eapply seg_dom; [exact Hs|]. rewrite fmap_app, elem_of_app. right. by left. }
  cbn [mbind result_bind]. eexists _, _, _. split; [done|]. split; [|split; [|done]].
  - split; cbn [nodes set_ends head tail len]; [| |done| | |].
    + apply seg_app. rewrite Efirst. split.
      * eapply seg_set_next; [done|]. apply seg_alter; [|done]. intros Hin. by apply (Hd b).
      * apply upd_next_frame; [intros a Ha%final_in; by apply Hd|]. rewrite Ey in *. by eapply seg_upd_first.
    + rewrite fmap_app. apply NoDup_app. done.
    + rewrite final_app, Ht', Ey. done.
    + rewrite El1, Hl, Hl', wrap_u_id, length_app by (unfold in_u; lia). lia.
    + rewrite length_app. lia.
  - split; cbn; try done. constructor.
Qed.

Lemma empty_loop (l : alist) its h p xs :
  seg (nodes h) p xs None -> NoDup xs.*1 -> length its = length xs ->
  exists h', for_each (empty_turn l) (h, first xs None) its = inr (h', None) /\ freed h' = freed h ++ (if free l then xs.*2 else []) /\
    forall a, nodes h' !! a = if bool_decide (a ∈ xs.*1) then None else nodes h !! a.
Proof.
  revert its h p. induction xs as [|[a v] xs IH]; intros its h p Hs Hn Hl; destruct its as [|i its]; try discriminate Hl.
  - exists h. split; [done|]. split; [by destruct (free l); rewrite app_nil_r|done].
  - destruct Hs as [Ha Hs]. rewrite fmap_cons in Hn. apply NoDup_cons in Hn as [Hnin Hn]. cbn [fst] in *. cbn [for_each first].
    assert (nodes (call_free h l v) = nodes h) as En by (unfold call_free; by destruct (free l)).
    assert (empty_turn l (h, Some a) i = inr (mk_heap (delete a (nodes h)) (freed (call_free h l v)), first xs None)) as ->.
    { unfold empty_turn. cbn [fst snd]. rewrite (deref_ok _ _ _ Ha). cbn [mbind result_bind value next].
      by rewrite (zfree_ok (call_free h l v) a _ (eq_trans (f_equal (fun m => m !! a) En) Ha)), En. }
    cbn [mbind result_bind].
    destruct (IH its (mk_heap (delete a (nodes h)) (freed (call_free h l v))) (Some a)) as (h' & -> & Hfr & Hnodes);
      [by apply seg_delete|done|by injection Hl|].
    exists h'. split; [done|]. split.
    + rewrite Hfr. cbn [freed]. unfold call_free. destruct (free l); cbn [freed]; [by rewrite <- app_assoc|done].
    + intros a'. rewrite Hnodes. cbn [nodes]. rewrite fmap_cons. cbn [fst].
      destruct (decide (a' ∈ xs.*1)); [rewrite !bool_decide_true by (done || by right); done|].
      rewrite (bool_decide_false (a' ∈ xs.*1)) by done. destruct (decide (a' = a)) as [->|Hne].
      * rewrite bool_decide_true by left. by rewrite lookup_delete_eq.
      * rewrite bool_decide_false by (rewrite elem_of_cons; tauto). by rewrite lookup_delete_ne.
Qed.

Lemma listEmpty_ok h l xs :
  rep h l xs -> exists h' l', listEmpty h l = inr (h', l') /\ rep h' l' [] /\ freed h' = freed h ++ (if free l then xs.*2 else []) /\
    forall a, nodes h' !! a = if bool_decide (a ∈ xs.*1) then None else nodes h !! a.
Proof.
  intros [Hs Hn Hh Ht Hl Hsm]. unfold listEmpty. rewrite Hh, Hl.
  destruct (empty_loop l (seqZ 0 (Z.of_nat (length xs))) h None xs Hs Hn) as (h' & -> & Hfr & Hnodes); [rewrite length_seqZ; lia|].
  cbn [mbind result_bind]. eexists _, _. split; [done|]. split; [|done]. split; cbn; try done. constructor.
Qed.

(** ** Refinement of sequences *)

Inductive list_op :=
| LAddHead (v : Z) | LAddTail (v : Z)
| LInsert (index v : Z) (after : bool) | LDelete (index : Z)
| LRotateTailToHead | LRotateHeadToTail | LEmpty
| LIndex (index : Z) | LSearch (key : Z).

Definition value_at (h : heap) (p : option loc) : result (option Z) :=
  match p with None => mret None | Some _ => n ← deref h p; mret (Some (value n)) end.

(** One client operation on the heap, with its answer; a node to work on is found with
    [listIndex], and nothing happens when there is none. *)
Definition run_op (h : heap) (l : alist) (o : list_op) : result (heap * alist * option Z) :=
  match o with
  | LAddHead v => '(h, l) ← listAddNodeHead h l v; mret (h, l, None)
  | LAddTail v => '(h, l) ← listAddNodeTail h l v; mret (h, l, None)
  | LInsert i v after =>
      p ← listIndex h l i;
      match p with None => mret (h, l, None) | Some _ => '(h, l) ← listInsertNode h l p v after; mret (h, l, None) end
  | LDelete i =>
      p ← listIndex h l i;
      match p with None => mret (h, l, None) | Some _ => '(h, l) ← listDelNode h l p; mret (h, l, None) end
  | LRotateTailToHead => '(h, l) ← listRotateTailToHead h l; mret (h, l, None)
  | LRotateHeadToTail => '(h, l) ← listRotateHeadToTail h l; mret (h, l, None)
  | LEmpty => '(h, l) ← listEmpty h l; mret (h, l, None)
  | LIndex i => p ← listIndex h l i; a ← value_at h p; mret (h, l, a)
  | LSearch key => p ← listSearchKey h l key; a ← value_at h p; mret (h, l, a)
  end.
Fixpoint run_ops (h : heap) (l : alist) (os : list list_op) : result (heap * alist * list (option Z)) :=
  match os with
  | [] => mret (h, l, [])
  | o :: os => '(h, l, a) ← run_op h l o; '(h, l, as_) ← run_ops h l os; mret (h, l, a :: as_)
  end.

(** The same on sequences: the new sequence, the answer, and the values freed. *)
Definition seq_op (vs : list Z) (o : list_op) : list Z * option Z * list Z :=
  match o with
  | LAddHead v => (v :: vs, None, [])
  | LAddTail v => (vs ++ [v], None, [])
  | LInsert i v after =>
      match position (length vs) i with
      | None => (vs, None, [])
      | Some k => let k := if after then S k else k in (take k vs ++ v :: drop k vs, None, [])
      end
  | LDelete i =>
      match position (length vs) i with
      | None => (vs, None, [])
      | Some k => (delete k vs, None, default [] ((fun v => [v]) <$> vs !! k))
      end
  | LRotateTailToHead => (match last vs with Some v => v :: take (length vs - 1) vs | None => [] end, None, [])
  | LRotateHeadToTail => (match vs with v :: vs => vs ++ [v] | [] => [] end, None, [])
  | LEmpty => ([], None, vs)
  | LIndex i => (vs, position (length vs) i ≫= fun k => vs !! k, [])
  | LSearch key => (vs, if bool_decide (key ∈ vs) then Some key else None, [])
  end.
Fixpoint seq_ops (vs : list Z) (os : list list_op) : list Z * list (option Z) * list Z :=
  match os with
  | [] => (vs, [], [])
  | o :: os => let '(vs, a, fs) := seq_op vs o in let '(vs, as_, fs') := seq_ops vs os in (vs, a :: as_, fs ++ fs')
  end.

Lemma nth_cell_position xs index : nth_cell xs index = position (length xs) index ≫= fun k => xs !! k.
Proof.
  unfold nth_cell, position. destruct (Z.ltb_spec index 0).
  - destruct (Z.ltb_spec (Z.of_nat (length xs) + index) 0), (Z.leb_spec 0 (Z.of_nat (length xs) + index)),
      (Z.ltb_spec (Z.of_nat (length xs) + index) (Z.of_nat (length xs))); try lia; done.
  - destruct (Z.leb_spec 0 index), (Z.ltb_spec index (Z.of_nat (length xs))); try lia; [done|]. cbn. apply lookup_ge_None_2. lia.
Qed.

(** A list whose [free] method is set and whose [match] method is not. *)
Definition plain (l : alist) : Prop := free l = true /\ match_ l = None.

Lemma value_at_ok h p xs n c k : seg (nodes h) p xs n -> xs !! k = Some c -> value_at h (Some c.1) = inr (Some c.2).
Proof.
  intros Hs Hk. unfold value_at. destruct c as [a v]. rewrite <- (take_drop_middle _ _ _ Hk) in Hs.
  apply seg_app in Hs as (_ & Ha & _). cbn [fst snd]. by rewrite (deref_ok _ _ _ Ha).
Qed.

(** No operation replaces the methods of the list. *)
Definition same_methods (l l' : alist) : Prop := free l' = free l /\ match_ l' = match_ l.

Ltac each_bind :=
  repeat match goal with
  | H : mbind _ ?e = inr _ |- _ => destruct e eqn:?; [done|cbn [mbind result_bind] in H]
  | H : context [match ?e with _ => _ end] |- _ => destruct e eqn:?; cbn [mbind result_bind] in H
  | H : mret _ = inr _ |- _ => injection H as; subst
  | H : inr _ = inr _ |- _ => injection H as; subst
  | H : @mret result _ _ _ = _ |- _ => unfold mret, result_ret in H
  end; try done.

Lemma run_op_methods h l o h' l' a : run_op h l o = inr (h', l', a) -> same_methods l l'.
Proof.
  unfold run_op, listAddNodeHead, listAddNodeTail, listLinkNodeHead, listLinkNodeTail, listInsertNode, listDelNode, listUnlinkNode,
    listRotateTailToHead, listRotateHeadToTail, listEmpty, alloc.
  intros H. destruct o; each_bind.
Qed.

(** What an operation owes to the sequence [vs] before it. *)
Definition simulates (h : heap) (l : alist) (vs : list Z) (o : list_op) : Prop :=
  exists h' l' xs', run_op h l o = inr (h', l', (seq_op vs o).1.2) /\ rep h' l' xs' /\
    xs'.*2 = (seq_op vs o).1.1 /\ freed h' = freed h ++ (seq_op vs o).2.

Ltac simulated := eexists _, _, _; split; [reflexivity|split; [eassumption|split; [|rewrite ?app_nil_r; congruence]]].

Lemma last_fmap {A B} (f : A -> B) (xs : list A) : last (f <$> xs) = f <$> last xs.
Proof. induction xs as [|x [|y xs] IH]; [done..|]. exact IH. Qed.

Ltac bound := cbn [mbind option_bind result_bind fmap option_fmap option_map fst snd mret result_ret default].

Lemma run_insert_ok h l xs i v after :
  rep h l xs -> Z.of_nat (length xs) + 1 < 2 ^ 63 -> simulates h l xs.*2 (LInsert i v after).
Proof.
  intros Hrep Hsm. unfold simulates. cbn [run_op seq_op]. rewrite (listIndex_ok _ _ _ _ Hrep), nth_cell_position, length_fmap.
  destruct (position (length xs) i) as [k|] eqn:Hp; cbn [mbind option_bind result_bind]; [|by simulated].
  apply position_lt in Hp. destruct (lookup_lt_is_Some_2 _ _ Hp) as [[node w] Hk]. rewrite Hk. bound.
  pose proof (take_drop_middle _ _ _ Hk) as E. rewrite <- E in Hrep, Hsm.
  destruct (listInsertNode_ok _ _ _ _ _ _ v after Hrep Hsm) as (h' & l' & node' & -> & Hf & Hrep'). cbn.
  simulated. assert (xs.*2 = (take k xs).*2 ++ w :: (drop (S k) xs).*2) as -> by (rewrite <- E at 1; by rewrite fmap_app).
  assert (length (take k xs) = k) as Hlen by (rewrite length_take; lia). destruct after; rewrite !fmap_app, !fmap_cons; cbn [snd].
  - replace (S k) with (k + 1)%nat by lia.
    rewrite (take_app_add' _ _ k 1), (drop_app_add' _ _ k 1) by (rewrite length_fmap; lia).
    cbn. by rewrite <- app_assoc.
  - by rewrite take_app_length', drop_app_length' by (rewrite length_fmap; lia).
Qed.

Lemma run_delete_ok h l xs i : rep h l xs -> plain l -> simulates h l xs.*2 (LDelete i).
Proof.
  intros Hrep [Hfree _]. unfold simulates. cbn [run_op seq_op]. rewrite (listIndex_ok _ _ _ _ Hrep), nth_cell_position, length_fmap.
  destruct (position (length xs) i) as [k|] eqn:Hp; cbn [mbind option_bind result_bind]; [|by simulated].
  apply position_lt in Hp. destruct (lookup_lt_is_Some_2 _ _ Hp) as [[node w] Hk]. rewrite list_lookup_fmap, Hk. bound.
  rewrite <- (take_drop_middle _ _ _ Hk) in Hrep.
  destruct (listDelNode_ok _ _ _ _ _ _ Hrep) as (h' & l' & -> & Hrep' & Hf & _). rewrite Hfree in Hf. cbn.
  simulated. by rewrite <- delete_take_drop, list_fmap_delete.
Qed.

Lemma run_search_ok h l xs key : rep h l xs -> plain l -> simulates h l xs.*2 (LSearch key).
Proof.
  intros Hrep [_ Hm]. unfold simulates. cbn [run_op seq_op]. rewrite (listSearchKey_ok _ _ _ _ Hrep). cbn [mbind result_bind].
  assert (forall c, matches l key c = true <-> c.2 = key) as Hmt by (intros c; unfold matches; rewrite Hm; lia).
  destruct (list_find _ xs) as [[k c]|] eqn:Hfind; bound.
  - apply list_find_Some in Hfind as (Hk & Hc & _). apply Hmt in Hc.
    assert (value_at h (Some c.1) = inr (Some c.2)) as -> by exact (value_at_ok _ _ _ _ _ _ (rep_seg _ _ _ Hrep) Hk).
    bound. rewrite bool_decide_true, Hc; [by simulated|].
    apply list_elem_of_fmap. exists c. split; [done|]. by eapply list_elem_of_lookup_2.
  - apply list_find_None in Hfind. rewrite bool_decide_false; [by simulated|].
    intros (c & Hc & Hin)%list_elem_of_fmap. rewrite Forall_forall in Hfind. apply (Hfind c Hin), Hmt. done.
Qed.

Lemma run_op_ok h l xs o :
  rep h l xs -> plain l -> Z.of_nat (length xs) + 1 < 2 ^ 63 -> simulates h l xs.*2 o.
Proof.
  intros Hrep Hpl Hsm. pose proof Hpl as [Hfree _].
  destruct o; auto using run_insert_ok, run_delete_ok, run_search_ok; unfold simulates; cbn [run_op seq_op].
  - destruct (listAddNodeHead_ok _ _ _ v Hrep Hsm) as (h' & l' & -> & Hr & Hf). bound. by simulated.
  - destruct (listAddNodeTail_ok _ _ _ v Hrep Hsm) as (h' & l' & -> & Hr & Hf). bound. simulated. by rewrite fmap_app.
  - destruct (listRotateTailToHead_ok _ _ _ Hrep) as (h' & l' & -> & Hf & Hr). bound. simulated.
    rewrite last_fmap, length_fmap. destruct (last xs); [|done]. cbn. by rewrite fmap_take.
  - destruct (listRotateHeadToTail_ok _ _ _ Hrep) as (h' & l' & -> & Hf & Hr). bound. simulated.
    destruct xs; [done|]. by rewrite fmap_app.
  - destruct (listEmpty_ok _ _ _ Hrep) as (h' & l' & -> & Hr & Hf & _). rewrite Hfree in Hf. bound. by simulated.
  - rewrite (listIndex_ok _ _ _ _ Hrep), nth_cell_position, length_fmap. cbn [mbind result_bind].
    destruct (position (length xs) index) as [k|]; bound; [|by simulated]. rewrite list_lookup_fmap.
    destruct (xs !! k) as [c|] eqn:Hk; bound; [|by simulated].
    assert (value_at h (Some c.1) = inr (Some c.2)) as -> by exact (value_at_ok _ _ _ _ _ _ (rep_seg _ _ _ Hrep) Hk).
    bound. by simulated.
Qed.

Lemma length_seq_op vs o : (length (seq_op vs o).1.1 <= S (length vs))%nat.
Proof.
  destruct o; cbn [seq_op]; repeat case_match; simplify_eq; cbn [fst snd length];
    rewrite ?length_app, ?delete_take_drop, ?length_app, ?length_take, ?length_drop; cbn [length] in *; rewrite ?length_drop; lia.
Qed.

Lemma run_ops_ok os h l xs :
  rep h l xs -> plain l -> Z.of_nat (length xs) + Z.of_nat (length os) < 2 ^ 63 ->
  exists h' l' xs', run_ops h l os = inr (h', l', (seq_ops xs.*2 os).1.2) /\ rep h' l' xs' /\
    xs'.*2 = (seq_ops xs.*2 os).1.1 /\ freed h' = freed h ++ (seq_ops xs.*2 os).2.
Proof.
  revert h l xs. induction os as [|o os IH]; intros h l xs Hrep Hpl Hsm; cbn [run_ops seq_ops length] in *.
  { eexists _, _, _. cbn. rewrite app_nil_r. done. }
  destruct (run_op_ok h l xs o Hrep Hpl) as (h1 & l1 & xs1 & E1 & Hrep1 & Hv1 & Hf1); [lia|].
  pose proof (length_seq_op xs.*2 o) as Hlen. rewrite <- Hv1, !length_fmap in Hlen. rewrite E1.
  destruct (seq_op xs.*2 o) as [[vs a] fs]; cbn [fst snd] in *. subst vs.
  destruct (IH h1 l1 xs1 Hrep1) as (h2 & l2 & xs2 & E2 & Hrep2 & Hv2 & Hf2);
    [destruct (run_op_methods _ _ _ _ _ _ E1), Hpl; split; congruence|lia|].
  cbn [mbind result_bind]. rewrite E2. destruct (seq_ops xs1.*2 os) as [[vs' as_] fs']; cbn [fst snd] in *.
  cbn. eexists _, _, _. split; [reflexivity|]. split; [done|]. split; [done|]. by rewrite Hf2, Hf1, app_assoc.
Qed.

(** C36: adlist.c implements sequences.  Start from a new list with a [free] method and run any
    sequence of fewer than 2^63 operations (add at either end, insert before or after the node
    at an index, delete the node at an index, rotate either way, empty, look up by index or by
    value).  No operation dereferences a null or dangling pointer; every answer is the one the
    sequence gives; the forward and backward pointers hold the same sequence in the end; and
    [free] was called exactly for the values removed, in order. *)
Theorem adlist_refines_list (m : gmap loc listNode) (os : list list_op) :
  Z.of_nat (length os) < 2 ^ 63 ->
  exists h l xs,
    run_ops (mk_heap m []) (mk_list None None None true None (len listCreate)) os = inr (h, l, (seq_ops [] os).1.2) /\
    rep h l xs /\ xs.*2 = (seq_ops [] os).1.1 /\ freed h = (seq_ops [] os).2.
Proof.
  intros Hn. apply (run_ops_ok os (mk_heap m []) (mk_list None None None true None 0) []); [|done|done].
  split; cbn; done || constructor.
Qed.
Lemma adlist_refines_list_witness :
  let os := [LAddTail 2; LAddTail 3; LAddHead 1; LInsert (-1) 9 false; LRotateTailToHead; LDelete 1; LIndex 1; LSearch 9; LInsert 5 0 true] in
  seq_ops [] os = ([3; 2; 9], [None; None; None; None; None; None; Some 2; Some 9; None], [1]) /\
  exists h l xs, run_ops (mk_heap ∅ []) (mk_list None None None true None 0) os = inr (h, l, (seq_ops [] os).1.2) /\
    rep h l xs /\ xs.*2 = (seq_ops [] os).1.1 /\ freed h = (seq_ops [] os).2.
Proof. intros os. split; [vm_compute; reflexivity|]. apply (adlist_refines_list ∅ os). vm_compute. reflexivity. Defined.
