(* ===== verification/Listpack.v ===== *)
(** * Listpacks

    [listpack.c] of Redis: a list of strings and integers in one block of bytes.  The
    block starts with a six byte header (total bytes, number of elements), every entry
    carries its encoding, its data and its own length written so that it can be read from
    the right, and the byte 255 ends the list.  A block is the list of all its bytes, as
    many as the allocator made usable; a pointer into it is an offset, and a read or a
    write outside of the block is undefined behaviour. *)

From S2P Require Import Prelude Bytes NumString.

(** [lp_malloc], [lp_realloc] and [lp_malloc_size] are [zmalloc], [zrealloc] and
    [zmalloc_usable_size]. *)
Section Listpack.
Context `{Allocator}.

Definition lp_malloc (n : Z) : bytes := replicate (usable (Z.to_nat n)) junk.
Definition lp_realloc (lp : bytes) (n : Z) : bytes := realloc junk (usable (Z.to_nat n)) (take (Z.to_nat n) lp).
Definition lp_malloc_size (lp : bytes) : Z := Z.of_nat (length lp).

Definition LP_HDR_SIZE : Z := 6.
Definition LP_HDR_NUMELE_UNKNOWN : Z := 65535.
Definition LP_EOF : Z := 255.
Definition LP_INTBUF_SIZE : nat := 21.
Definition UINT32_MAX : Z := 2 ^ 32 - 1.
Definition UINT64_MAX : Z := 2 ^ 64 - 1.

Definition LP_ENCODING_IS_7BIT_UINT (b : Z) : bool := Z.land b 0x80 =? 0.
Definition LP_ENCODING_IS_6BIT_STR (b : Z) : bool := Z.land b 0xC0 =? 0x80.
Definition LP_ENCODING_IS_13BIT_INT (b : Z) : bool := Z.land b 0xE0 =? 0xC0.
Definition LP_ENCODING_IS_12BIT_STR (b : Z) : bool := Z.land b 0xF0 =? 0xE0.
Definition LP_ENCODING_IS_16BIT_INT (b : Z) : bool := Z.land b 0xFF =? 0xF1.
Definition LP_ENCODING_IS_24BIT_INT (b : Z) : bool := Z.land b 0xFF =? 0xF2.
Definition LP_ENCODING_IS_32BIT_INT (b : Z) : bool := Z.land b 0xFF =? 0xF3.
Definition LP_ENCODING_IS_64BIT_INT (b : Z) : bool := Z.land b 0xFF =? 0xF4.
Definition LP_ENCODING_IS_32BIT_STR (b : Z) : bool := Z.land b 0xFF =? 0xF0.

(** [p[0] | p[1]<<8 | ...], [n] bytes. *)
Fixpoint or_bytes (n : nat) (lp : bytes) (p : Z) : result Z :=
match n with
| O => mret 0
| S n => b ← byte_at lp p; r ← or_bytes n lp (p + 1); mret (Z.lor b (Z.shiftl r 8))
end.
(** [memmove(lp + dst, lp + src, n)] *)
Definition move_bytes (lp : bytes) (dst src n : Z) : result bytes :=
_ ← defined_if ((0 <=? dst) && (0 <=? src) && (0 <=? n)); memmove (Z.to_nat dst) (Z.to_nat src) (Z.to_nat n) lp.

Definition LP_ENCODING_6BIT_STR_LEN (lp : bytes) (p : Z) : result Z := b ← byte_at lp p; mret (Z.land b 0x3F).
Definition LP_ENCODING_12BIT_STR_LEN (lp : bytes) (p : Z) : result Z :=
b ← byte_at lp p; c ← byte_at lp (p + 1); mret (Z.lor (Z.shiftl (Z.land b 0xF) 8) c).
Definition LP_ENCODING_32BIT_STR_LEN (lp : bytes) (p : Z) : result Z := or_bytes 4 lp (p + 1).

Definition lpGetTotalBytes (lp : bytes) : result Z := or_bytes 4 lp 0.
Definition lpGetNumElements (lp : bytes) : result Z := or_bytes 2 lp 4.
Definition lpSetTotalBytes (lp : bytes) (v : Z) : result bytes :=
put_bytes lp 0 [Z.land v 0xff; Z.land (Z.shiftr v 8) 0xff; Z.land (Z.shiftr v 16) 0xff; Z.land (Z.shiftr v 24) 0xff].
Definition lpSetNumElements (lp : bytes) (v : Z) : result bytes := put_bytes lp 4 [Z.land v 0xff; Z.land (Z.shiftr v 8) 0xff].

Definition ASSERT_INTEGRITY (lp : bytes) (p : Z) : result unit :=
t ← lpGetTotalBytes lp; assert ((LP_HDR_SIZE <=? p) && (p <? t)).
Definition ASSERT_INTEGRITY_LEN (lp : bytes) (p len : Z) : result unit :=
t ← lpGetTotalBytes lp; assert ((LP_HDR_SIZE <=? p) && (p + len <? t)).

Definition LISTPACK_MAX_SAFETY_SIZE : Z := 2 ^ 30.
Definition lpSafeToAdd (lp : option bytes) (add : Z) : result bool :=
len ← (match lp with Some lp => lpGetTotalBytes lp | None => mret 0 end);
mret (negb (LISTPACK_MAX_SAFETY_SIZE <? u64 (len + add))).

(** The digits after the first one, as in [string2ll]. *)
Fixpoint int64_digits (v : Z) (p : list Z) : option (Z * list Z) :=
match p with
| c :: p' =>
    if (ch_0 <=? c) && (c <=? ch_9) then
      if UINT64_MAX / 10 <? v then None else
      let v := u64 (v * 10) in
      if UINT64_MAX - (c - ch_0) <? v then None else
      int64_digits (u64 (v + (c - ch_0))) p'
    else Some (v, p)
| [] => Some (v, [])
end.
Definition lpStringToInt64 (s : list Z) : option Z :=
let slen := Z.of_nat (length s) in
if (slen =? 0) || (LONG_STR_SIZE <=? slen) then None else
if (slen =? 1) && (nth 0 s 0 =? ch_0) then Some 0 else
let negative := nth 0 s 0 =? ch_minus in
let p := if negative then drop 1 s else s in
match p with
| [] => None
| c :: p =>
    if (ch_1 <=? c) && (c <=? ch_9) then
      match int64_digits (c - ch_0) p with
      | None => None
      | Some (v, _ :: _) => None
      | Some (v, []) =>
          if negative then if u64 (- (- 2 ^ 63 + 1)) + 1 <? v then None else Some (i64 (- v))
          else if 2 ^ 63 - 1 <? v then None else Some v
      end
    else None
end.

Definition lpNew (capacity : Z) : result bytes :=
let lp := lp_malloc (if LP_HDR_SIZE + 1 <? capacity then capacity else LP_HDR_SIZE + 1) in
lp ← lpSetTotalBytes lp (LP_HDR_SIZE + 1);
lp ← lpSetNumElements lp 0;
put_bytes lp LP_HDR_SIZE [LP_EOF].

Definition lpShrinkToFit (lp : bytes) : result bytes :=
size ← lpGetTotalBytes lp;
mret (if size <? lp_malloc_size lp then lp_realloc lp size else lp).

(** The first [enclen] bytes of [intenc]. *)
Definition lpEncodeIntegerGetType (v : Z) : bytes :=
if (0 <=? v) && (v <=? 127) then [u8 v]
else if (-4096 <=? v) && (v <=? 4095) then
  let v := if v <? 0 then Z.shiftl 1 13 + v else v in
  [u8 (Z.lor (Z.shiftr v 8) 0xC0); Z.land v 0xff]
else if (-32768 <=? v) && (v <=? 32767) then
  let v := if v <? 0 then Z.shiftl 1 16 + v else v in
  [0xF1; Z.land v 0xff; u8 (Z.shiftr v 8)]
else if (-8388608 <=? v) && (v <=? 8388607) then
  let v := if v <? 0 then Z.shiftl 1 24 + v else v in
  [0xF2; Z.land v 0xff; Z.land (Z.shiftr v 8) 0xff; u8 (Z.shiftr v 16)]
else if (-2147483648 <=? v) && (v <=? 2147483647) then
  let v := if v <? 0 then Z.shiftl 1 32 + v else v in
  [0xF3; Z.land v 0xff; Z.land (Z.shiftr v 8) 0xff; Z.land (Z.shiftr v 16) 0xff; u8 (Z.shiftr v 24)]
else
  let uv := u64 v in
  [0xF4; Z.land uv 0xff; Z.land (Z.shiftr uv 8) 0xff; Z.land (Z.shiftr uv 16) 0xff; Z.land (Z.shiftr uv 24) 0xff;
   Z.land (Z.shiftr uv 32) 0xff; Z.land (Z.shiftr uv 40) 0xff; Z.land (Z.shiftr uv 48) 0xff; u8 (Z.shiftr uv 56)].

(** [LP_ENCODING_INT] with the bytes of [intenc], or [LP_ENCODING_STRING] with [enclen]. *)
Definition lpEncodeGetType (ele : bytes) : bytes + Z :=
let size := Z.of_nat (length ele) in
match lpStringToInt64 ele with
| Some v => inl (lpEncodeIntegerGetType v)
| None => inr (if size <? 64 then 1 + size else if size <? 4096 then 2 + size else 5 + size)
end.

(** The bytes written to [buf]; their number is the result, also for a null [buf]. *)
Definition lpEncodeBacklen (l : Z) : bytes :=
if l <=? 127 then [u8 l]
else if l <? 16383 then [u8 (Z.shiftr l 7); Z.lor (Z.land l 127) 128]
else if l <? 2097151 then [u8 (Z.shiftr l 14); Z.lor (Z.land (Z.shiftr l 7) 127) 128; Z.lor (Z.land l 127) 128]
else if l <? 268435455 then
  [u8 (Z.shiftr l 21); Z.lor (Z.land (Z.shiftr l 14) 127) 128; Z.lor (Z.land (Z.shiftr l 7) 127) 128; Z.lor (Z.land l 127) 128]
else
  [u8 (Z.shiftr l 28); Z.lor (Z.land (Z.shiftr l 21) 127) 128; Z.lor (Z.land (Z.shiftr l 14) 127) 128;
   Z.lor (Z.land (Z.shiftr l 7) 127) 128; Z.lor (Z.land l 127) 128].
Definition backlen_size (l : Z) : Z := Z.of_nat (length (lpEncodeBacklen l)).

(** The [do] loop; five turns at most, since [shift] passes 28 in the fifth. *)
Fixpoint decode_backlen (fuel : nat) (lp : bytes) (p val shift : Z) : result Z :=
match fuel with
| O => inl OutOfFuel
| S fuel =>
    b ← byte_at lp p;
    let val := Z.lor val (u64 (Z.shiftl (Z.land b 127) shift)) in
    if Z.land b 128 =? 0 then mret val
    else if 28 <? shift + 7 then mret UINT64_MAX
    else decode_backlen fuel lp (p - 1) val (shift + 7)
end.
Definition lpDecodeBacklen (lp : bytes) (p : Z) : result Z := decode_backlen 5 lp p 0 0.

(** What [lpEncodeString] writes. *)
Definition encoded_string (s : bytes) : bytes :=
let len := Z.of_nat (length s) in
(if len <? 64 then [u8 (Z.lor len 0x80)]
 else if len <? 4096 then [u8 (Z.lor (Z.shiftr len 8) 0xE0); Z.land len 0xff]
 else [0xF0; Z.land len 0xff; Z.land (Z.shiftr len 8) 0xff; Z.land (Z.shiftr len 16) 0xff; Z.land (Z.shiftr len 24) 0xff]) ++ s.
Definition lpEncodeString (lp : bytes) (buf : Z) (s : bytes) : result bytes := put_bytes lp buf (encoded_string s).

Definition lpCurrentEncodedSizeUnsafe (lp : bytes) (p : Z) : result Z :=
b ← byte_at lp p;
if LP_ENCODING_IS_7BIT_UINT b then mret 1 else
if LP_ENCODING_IS_6BIT_STR b then n ← LP_ENCODING_6BIT_STR_LEN lp p; mret (1 + n) else
if LP_ENCODING_IS_13BIT_INT b then mret 2 else
if LP_ENCODING_IS_16BIT_INT b then mret 3 else
if LP_ENCODING_IS_24BIT_INT b then mret 4 else
if LP_ENCODING_IS_32BIT_INT b then mret 5 else
if LP_ENCODING_IS_64BIT_INT b then mret 9 else
if LP_ENCODING_IS_12BIT_STR b then n ← LP_ENCODING_12BIT_STR_LEN lp p; mret (2 + n) else
if LP_ENCODING_IS_32BIT_STR b then n ← LP_ENCODING_32BIT_STR_LEN lp p; mret (u32 (5 + n)) else
if b =? LP_EOF then mret 1 else mret 0.

Definition lpCurrentEncodedSizeBytes (lp : bytes) (p : Z) : result Z :=
b ← byte_at lp p;
mret (
if LP_ENCODING_IS_7BIT_UINT b then 1 else
if LP_ENCODING_IS_6BIT_STR b then 1 else
if LP_ENCODING_IS_13BIT_INT b then 1 else
if LP_ENCODING_IS_16BIT_INT b then 1 else
if LP_ENCODING_IS_24BIT_INT b then 1 else
if LP_ENCODING_IS_32BIT_INT b then 1 else
if LP_ENCODING_IS_64BIT_INT b then 1 else
if LP_ENCODING_IS_12BIT_STR b then 2 else
if LP_ENCODING_IS_32BIT_STR b then 5 else
if b =? LP_EOF then 1 else 0).

Definition lpSkip (lp : bytes) (p : Z) : result Z :=
entrylen ← lpCurrentEncodedSizeUnsafe lp p;
mret (p + (entrylen + backlen_size entrylen)).

Definition lpBytes (lp : bytes) : result Z := lpGetTotalBytes lp.

(** Whether the entry is valid, and the new [*pp]. *)
Definition lpValidateNext (lp : bytes) (pp : option Z) (lpbytes : Z) : result (bool * option Z) :=
let out_of_range p := (p <? LP_HDR_SIZE) || (lpbytes - 1 <? p) in
match pp with
| None => mret (false, pp)
| Some p =>
    if out_of_range p then mret (false, pp) else
    b ← byte_at lp p;
    if b =? LP_EOF then mret (true, None) else
    lenbytes ← lpCurrentEncodedSizeBytes lp p;
    if lenbytes =? 0 then mret (false, pp) else
    if out_of_range (p + lenbytes) then mret (false, pp) else
    entrylen ← lpCurrentEncodedSizeUnsafe lp p;
    let encodedBacklen := backlen_size entrylen in
    let entrylen := entrylen + encodedBacklen in
    if out_of_range (p + entrylen) then mret (false, pp) else
    let p := p + entrylen in
    prevlen ← lpDecodeBacklen lp (p - 1);
    if negb (u64 (prevlen + encodedBacklen) =? entrylen) then mret (false, pp) else
    mret (true, Some p)
end.
Definition lpAssertValidEntry (lp : bytes) (lpbytes p : Z) : result unit :=
'(valid, _) ← lpValidateNext lp (Some p) lpbytes; assert valid.
Definition lpValidateFirst (lp : bytes) : result (option Z) :=
b ← byte_at lp LP_HDR_SIZE; mret (if b =? LP_EOF then None else Some LP_HDR_SIZE).

Definition lpNext (lp : bytes) (p : Z) : result (option Z) :=
p ← lpSkip lp p;
b ← byte_at lp p;
if b =? LP_EOF then mret None else
t ← lpBytes lp; _ ← lpAssertValidEntry lp t p;
mret (Some p).

Definition lpPrev (lp : bytes) (p : Z) : result (option Z) :=
if p =? LP_HDR_SIZE then mret None else
let p := p - 1 in
prevlen ← lpDecodeBacklen lp p;
let prevlen := u64 (prevlen + backlen_size prevlen) in
let p := p - (prevlen - 1) in
t ← lpBytes lp; _ ← lpAssertValidEntry lp t p;
mret (Some p).

Definition lpFirst (lp : bytes) : result (option Z) :=
let p := LP_HDR_SIZE in
b ← byte_at lp p;
if b =? LP_EOF then mret None else
t ← lpBytes lp; _ ← lpAssertValidEntry lp t p;
mret (Some p).
Definition lpLast (lp : bytes) : result (option Z) := t ← lpGetTotalBytes lp; lpPrev lp (t - 1).

(** [while(p) { count++; p = lpNext(lp,p); }] *)
Fixpoint count_entries (fuel : nat) (lp : bytes) (p : option Z) (count : Z) : result Z :=
match p with
| None => mret count
| Some q =>
    match fuel with
    | O => inl OutOfFuel
    | S fuel => p ← lpNext lp q; count_entries fuel lp p (u32 (count + 1))
    end
end.
(** The length, and the block with the header brought up to date. *)
Definition lpLength (lp : bytes) : result (Z * bytes) :=
numele ← lpGetNumElements lp;
if negb (numele =? LP_HDR_NUMELE_UNKNOWN) then mret (numele, lp) else
p ← lpFirst lp;
count ← count_entries (length lp) lp p 0;
lp ← (if count <? LP_HDR_NUMELE_UNKNOWN then lpSetNumElements lp count else mret lp);
mret (count, lp).

(** What [lpGetWithSize] returns: an integer, a pointer into the block with a length, or
  the caller's buffer with a length. *)
Inductive got := GotInt (val : Z) | GotPtr (p count : Z) | GotBuf (intbuf : bytes) (count : Z).

(** The cascade of [lpGetWithSize]: a string (returned at once) or the fields of an
  integer; the last branch leaves the entry size unset. *)
Inductive raw := RawStr (p count : Z) | RawInt (uval negstart negmax : Z).
Definition entry_fields (lp : bytes) (p : Z) : result (raw * option Z) :=
b ← byte_at lp p;
if LP_ENCODING_IS_7BIT_UINT b then mret (RawInt (Z.land b 0x7f) UINT64_MAX 0, Some 2)
else if LP_ENCODING_IS_6BIT_STR b then
  count ← LP_ENCODING_6BIT_STR_LEN lp p; mret (RawStr (p + 1) count, Some (1 + count + backlen_size (count + 1)))
else if LP_ENCODING_IS_13BIT_INT b then
  c ← byte_at lp (p + 1); mret (RawInt (Z.lor (Z.shiftl (Z.land b 0x1f) 8) c) (Z.shiftl 1 12) 8191, Some 3)
else if LP_ENCODING_IS_16BIT_INT b then uval ← or_bytes 2 lp (p + 1); mret (RawInt uval (Z.shiftl 1 15) 65535, Some 4)
else if LP_ENCODING_IS_24BIT_INT b then uval ← or_bytes 3 lp (p + 1); mret (RawInt uval (Z.shiftl 1 23) (Z.shiftr UINT32_MAX 8), Some 5)
else if LP_ENCODING_IS_32BIT_INT b then uval ← or_bytes 4 lp (p + 1); mret (RawInt uval (Z.shiftl 1 31) UINT32_MAX, Some 6)
else if LP_ENCODING_IS_64BIT_INT b then uval ← or_bytes 8 lp (p + 1); mret (RawInt uval (Z.shiftl 1 63) UINT64_MAX, Some 10)
else if LP_ENCODING_IS_12BIT_STR b then
  count ← LP_ENCODING_12BIT_STR_LEN lp p; mret (RawStr (p + 2) count, Some (2 + count + backlen_size (count + 2)))
else if LP_ENCODING_IS_32BIT_STR b then
  count ← LP_ENCODING_32BIT_STR_LEN lp p; mret (RawStr (p + 5) count, Some (5 + count + backlen_size (count + 5)))
else mret (RawInt (12345678900000000 + b) UINT64_MAX 0, None).

(** The element and [*entry_size]. *)
Definition lpGetWithSize (lp : bytes) (p : Z) (intbuf : option bytes) : result (got * option Z) :=
'(r, entry_size) ← entry_fields lp p;
match r with
| RawStr q count => mret (GotPtr q count, entry_size)
| RawInt uval negstart negmax =>
    let val := if negstart <=? uval then - i64 (u64 (negmax - uval)) - 1 else i64 uval in
    match intbuf with
    | Some buf => '(count, buf) ← ll2string buf val; mret (GotBuf buf count, entry_size)
    | None => mret (GotInt val, entry_size)
    end
end.
Definition lpGet (lp : bytes) (p : Z) (intbuf : option bytes) : result got := '(g, _) ← lpGetWithSize lp p intbuf; mret g.
(** [*slen] is an [unsigned int]. *)
Definition lpGetValue (lp : bytes) (p : Z) : result got :=
g ← lpGet lp p None;
mret (match g with GotPtr q count => GotPtr q (u32 count) | _ => g end).

(** [count == n && memcmp(value, s, n) == 0] *)
Definition same_string (lp : bytes) (value count : Z) (s : bytes) : result bool :=
if count =? Z.of_nat (length s) then
  _ ← defined_if (0 <=? value); bs ← read (length s) (Z.to_nat value) lp; mret (bool_decide (bs = s))
else mret false.

Definition lpCompare (lp : bytes) (p : Z) (s : bytes) : result bool :=
b ← byte_at lp p;
if b =? LP_EOF then mret false else
g ← lpGet lp p None;
match g with
| GotPtr value sz => same_string lp value sz s
| GotInt sz => mret (match lpStringToInt64 s with Some sval => sz =? sval | None => false end)
| GotBuf _ _ => mret false
end.

(** [vencoding] and [vll]: not tried yet, tried in vain, or the integer. *)
Inductive venc := Untried | NotInt | IsInt (vll : Z).
Definition try_encode (v : venc) (s : bytes) : venc :=
match v with
| Untried =>
    if (32 <=? Z.of_nat (length s)) || (Z.of_nat (length s) =? 0) then NotInt
    else match lpStringToInt64 s with Some vll => IsInt vll | None => NotInt end
| _ => v
end.
Definition default_entry_size : Z := 123456789.

Fixpoint find_loop (fuel : nat) (lp : bytes) (lp_bytes : Z) (s : bytes) (skip : nat)
  (p : Z) (skipcnt : nat) (v : venc) (entry_size : Z) : result (option Z) :=
match fuel with
| O => inl OutOfFuel
| S fuel =>
    '(found, p', skipcnt, v, entry_size) ←
      (match skipcnt with
       | O =>
           '(g, es) ← lpGetWithSize lp p None;
           let entry_size := default entry_size es in
           match g with
           | GotPtr value ll =>
               _ ← assert ((LP_HDR_SIZE <=? p) && (p + entry_size <? lp_bytes));
               same ← same_string lp value ll s;
               mret (same, p + entry_size, skip, v, entry_size)
           | GotInt ll =>
               let v := try_encode v s in
               mret (match v with IsInt vll => ll =? vll | _ => false end, p + entry_size, skip, v, entry_size)
           | GotBuf _ _ => mret (false, p + entry_size, skip, v, entry_size)
           end
       | S skipcnt => p ← lpSkip lp p; mret (false, p, skipcnt, v, entry_size)
       end);
    if (found : bool) then mret (Some p) else
    _ ← (if lp_bytes <=? p' + 8 then lpAssertValidEntry lp lp_bytes p'
         else assert ((LP_HDR_SIZE <=? p') && (p' <? lp_bytes)));
    b ← byte_at lp p';
    if b =? LP_EOF then mret None else find_loop fuel lp lp_bytes s skip p' skipcnt v entry_size
end.
Definition lpFind (lp : bytes) (p : Z) (s : bytes) (skip : nat) : result (option Z) :=
lp_bytes ← lpBytes lp;
find_loop (length lp) lp lp_bytes s skip p 0 Untried default_entry_size.

Inductive whereto := LP_BEFORE | LP_AFTER | LP_REPLACE.
(** [elestr], [eleint] with its encoded bytes, or both null. *)
Inductive element := ElStr (s : bytes) | ElInt (intenc : bytes) | ElNone.

(** What is stored for the element: the bytes and [enclen]; nothing for a deletion. *)
Definition encode_element (ele : element) : option (bytes * Z) :=
match ele with
| ElStr s =>
    Some (match lpEncodeGetType s with
          | inl intenc => (intenc, Z.of_nat (length intenc))
          | inr enclen => (encoded_string s, enclen)
          end)
| ElInt intenc => Some (intenc, Z.of_nat (length intenc))
| ElNone => None
end.

(** The header after the entry was stored ([stored]) or deleted. *)
Definition insert_header (lp : bytes) (stored replace : bool) (new_listpack_bytes : Z) : result bytes :=
lp ← (if negb replace || negb stored then
        num_elements ← lpGetNumElements lp;
        if negb (num_elements =? LP_HDR_NUMELE_UNKNOWN) then
          lpSetNumElements lp (if stored then num_elements + 1 else u32 (num_elements - 1))
        else mret lp
      else mret lp);
lpSetTotalBytes lp new_listpack_bytes.

(** [enclen] and the bytes of [backlen]. *)
Definition enclen_of (stored : option (bytes * Z)) : Z := match stored with Some (_, enclen) => enclen | None => 0 end.
Definition backlen_of (stored : option (bytes * Z)) : bytes := match stored with Some (_, enclen) => lpEncodeBacklen enclen | None => [] end.

(** [lpInsert] once [p] is where the element goes ([poff]): [stored] is its encoding with
  [enclen], and [replace] whether it takes the place of the entry there. *)
Definition insert_at (lp : bytes) (stored : option (bytes * Z)) (replace : bool) (poff : Z) : result (option (bytes * option Z)) :=
let enclen := enclen_of stored in
let backlen := backlen_of stored in
let blsize := Z.of_nat (length backlen) in
old_listpack_bytes ← lpGetTotalBytes lp;
replaced_len ← (if replace then
                  n ← lpCurrentEncodedSizeUnsafe lp poff;
                  let n := u32 (n + backlen_size n) in
                  _ ← ASSERT_INTEGRITY_LEN lp poff n; mret n
                else mret 0);
let new_listpack_bytes := u64 (old_listpack_bytes + enclen + blsize - replaced_len) in
if UINT32_MAX <? new_listpack_bytes then mret None else
let lp := if (old_listpack_bytes <? new_listpack_bytes) && (lp_malloc_size lp <? new_listpack_bytes)
          then lp_realloc lp new_listpack_bytes else lp in
lp ← move_bytes lp (poff + enclen + blsize) (poff + replaced_len) (old_listpack_bytes - poff - replaced_len);
let lp := if new_listpack_bytes <? old_listpack_bytes then lp_realloc lp new_listpack_bytes else lp in
newp ← (match stored with
        | None => b ← byte_at lp poff; mret (if b =? LP_EOF then None else Some poff)
        | Some _ => mret (Some poff)
        end);
lp ← (match stored with
      | Some (bs, _) => lp ← put_bytes lp poff bs; put_bytes lp (poff + enclen) backlen
      | None => mret lp
      end);
lp ← insert_header lp (if stored then true else false) replace new_listpack_bytes;
mret (Some (lp, newp)).

(** The new block and [*newp]; [None] is the null pointer. *)
Definition lpInsert (lp : bytes) (ele : element) (p : Z) (where_ : whereto) : result (option (bytes * option Z)) :=
let stored := encode_element ele in
match (if stored then where_ else LP_REPLACE) with
| LP_AFTER => p ← lpSkip lp p; _ ← ASSERT_INTEGRITY lp p; insert_at lp stored false p
| LP_BEFORE => insert_at lp stored false p
| LP_REPLACE => insert_at lp stored true p
end.

Definition lpInsertString (lp s : bytes) (p : Z) (where_ : whereto) : result (option (bytes * option Z)) :=
lpInsert lp (ElStr s) p where_.
Definition lpInsertInteger (lp : bytes) (lval p : Z) (where_ : whereto) : result (option (bytes * option Z)) :=
lpInsert lp (ElInt (lpEncodeIntegerGetType lval)) p where_.

Definition lpAppend (lp ele : bytes) : result (option (bytes * option Z)) :=
t ← lpGetTotalBytes lp; lpInsert lp (ElStr ele) (t - 1) LP_BEFORE.
Definition lpAppendInteger (lp : bytes) (lval : Z) : result (option (bytes * option Z)) :=
t ← lpGetTotalBytes lp; lpInsertInteger lp lval (t - 1) LP_BEFORE.
Definition lpPrepend (lp s : bytes) : result (option (bytes * option Z)) :=
p ← lpFirst lp;
match p with None => lpAppend lp s | Some p => lpInsert lp (ElStr s) p LP_BEFORE end.
Definition lpPrependInteger (lp : bytes) (lval : Z) : result (option (bytes * option Z)) :=
p ← lpFirst lp;
match p with None => lpAppendInteger lp lval | Some p => lpInsertInteger lp lval p LP_BEFORE end.
Definition lpReplace (lp : bytes) (p : Z) (s : bytes) : result (option (bytes * option Z)) := lpInsert lp (ElStr s) p LP_REPLACE.
Definition lpReplaceInteger (lp : bytes) (p lval : Z) : result (option (bytes * option Z)) := lpInsertInteger lp lval p LP_REPLACE.
Definition lpDelete (lp : bytes) (p : Z) : result (option (bytes * option Z)) := lpInsert lp ElNone p LP_REPLACE.

(** [while (index > 0 && ele) { ele = lpNext(lp,ele); index--; }], and to the left. *)
Fixpoint seek_next (index : nat) (lp : bytes) (ele : option Z) : result (option Z) :=
match index, ele with
| S index, Some p => ele ← lpNext lp p; seek_next index lp ele
| _, _ => mret ele
end.
Fixpoint seek_prev (index : nat) (lp : bytes) (ele : option Z) : result (option Z) :=
match index, ele with
| S index, Some p => ele ← lpPrev lp p; seek_prev index lp ele
| _, _ => mret ele
end.
Definition seek_forward (lp : bytes) (index : Z) : result (option Z) := ele ← lpFirst lp; seek_next (Z.to_nat index) lp ele.
Definition seek_backward (lp : bytes) (index : Z) : result (option Z) := ele ← lpLast lp; seek_prev (Z.to_nat (- index - 1)) lp ele.
Definition lpSeek (lp : bytes) (index : Z) : result (option Z) :=
numele ← lpGetNumElements lp;
if negb (numele =? LP_HDR_NUMELE_UNKNOWN) then
  let index := if index <? 0 then numele + index else index in
  if index <? 0 then mret None else
  if numele <=? index then mret None else
  if Z.quot numele 2 <? index then seek_backward lp (index - numele) else seek_forward lp index
else if index <? 0 then seek_backward lp index else seek_forward lp index.

(** [while (num--) { ... }]: [tail] and [deleted]. *)
Fixpoint range_end (num : nat) (lp : bytes) (lpbytes tail deleted : Z) : result (Z * Z) :=
match num with
| O => mret (tail, deleted)
| S num =>
    let deleted := deleted + 1 in
    tail ← lpSkip lp tail;
    b ← byte_at lp tail;
    if b =? LP_EOF then mret (tail, deleted) else
    _ ← lpAssertValidEntry lp lpbytes tail;
    range_end num lp lpbytes tail deleted
end.
(** The new block and [*p]. *)
Definition lpDeleteRangeWithEntry (lp : bytes) (p : Z) (num : Z) : result (bytes * option Z) :=
bytes_ ← lpBytes lp;
let eofptr := bytes_ - 1 in
if num =? 0 then mret (lp, Some p) else
'(tail, deleted) ← range_end (Z.to_nat num) lp bytes_ p 0;
lp ← move_bytes lp p tail (eofptr - tail + 1);
lp ← lpSetTotalBytes lp (bytes_ - (tail - p));
numele ← lpGetNumElements lp;
lp ← (if negb (numele =? LP_HDR_NUMELE_UNKNOWN) then lpSetNumElements lp (u64 (numele - deleted)) else mret lp);
lp ← lpShrinkToFit lp;
b ← byte_at lp p;
mret (lp, if b =? LP_EOF then None else Some p).

Definition lpDeleteRange (lp : bytes) (index num : Z) : result bytes :=
numele ← lpGetNumElements lp;
if num =? 0 then mret lp else
p ← lpSeek lp index;
match p with
| None => mret lp
| Some p =>
    let known := negb (numele =? LP_HDR_NUMELE_UNKNOWN) in
    let index := if known && (index <? 0) then numele + index else index in
    if known && (u64 (numele - index) <=? num) then
      lp ← put_bytes lp p [LP_EOF];
      lp ← lpSetTotalBytes lp (p + 1);
      lp ← lpSetNumElements lp index;
      lpShrinkToFit lp
    else '(lp, _) ← lpDeleteRangeWithEntry lp p num; mret lp
end.

(** The loop over [ps]: the block and [dst]; [lp_end] is the offset behind the list. *)
Fixpoint batch_loop (lp : bytes) (lp_end dst : Z) (ps : list Z) : result (bytes * Z) :=
match ps with
| [] => mret (lp, dst)
| skip :: ps' =>
    b ← byte_at lp skip;
    _ ← assert (negb (b =? LP_EOF));
    keep_start ← lpSkip lp skip;
    let '(last, keep_end) := match ps' with next :: _ => (false, next) | [] => (true, lp_end) end in
    if negb last && (keep_start =? keep_end) then batch_loop lp lp_end dst ps'
    else
      _ ← assert (keep_start <? keep_end);
      let bytes_to_keep := keep_end - keep_start in
      lp ← move_bytes lp dst keep_start bytes_to_keep;
      batch_loop lp lp_end (dst + bytes_to_keep) ps'
end.
Definition lpBatchDelete (lp : bytes) (ps : list Z) : result bytes :=
match ps with
| [] => mret lp
| dst :: _ =>
    total_bytes ← lpGetTotalBytes lp;
    let lp_end := total_bytes in
    b ← byte_at lp (lp_end - 1);
    _ ← assert (b =? LP_EOF);
    '(lp, dst) ← batch_loop lp lp_end dst ps;
    let total_bytes := total_bytes - (lp_end - dst) in
    b ← byte_at lp (total_bytes - 1);
    _ ← assert (b =? LP_EOF);
    lp ← lpSetTotalBytes lp total_bytes;
    numele ← lpGetNumElements lp;
    lp ← (if negb (numele =? LP_HDR_NUMELE_UNKNOWN) then lpSetNumElements lp (u64 (numele - Z.of_nat (length ps))) else mret lp);
    lpShrinkToFit lp
end.

(** [*first] and [*second] are null or a block with its address (a null argument is taken as one
  that points to a null).  The results are the pointer returned and what the two variables hold
  at the end: the target replaces the larger block, the other one is freed. *)
Definition lpMerge (first second : option (Z * bytes)) : result (option bytes * option bytes * option bytes) :=
match first, second with
| None, _ | _, None => mret (None, snd <$> first, snd <$> second)
| Some (first_addr, first), Some (second_addr, second) =>
if first_addr =? second_addr then mret (None, Some first, Some second) else
first_bytes ← lpBytes first;
'(first_len, first) ← lpLength first;
second_bytes ← lpBytes second;
'(second_len, second) ← lpLength second;
let append := second_bytes <=? first_bytes in
let '(target, target_bytes, source, source_bytes) :=
  if append then (first, first_bytes, second, second_bytes) else (second, second_bytes, first, first_bytes) in
let lpbytes := first_bytes + second_bytes - LP_HDR_SIZE - 1 in
_ ← assert (lpbytes <? UINT32_MAX);
let lplength := first_len + second_len in
let lplength := if lplength <? 65535 then lplength else 65535 in
let target := lp_realloc target lpbytes in
target ←
  (if (append : bool) then
     bs ← read (Z.to_nat (source_bytes - LP_HDR_SIZE)) (Z.to_nat LP_HDR_SIZE) source;
     put_bytes target (target_bytes - 1) bs
   else
     target ← move_bytes target (source_bytes - 1) LP_HDR_SIZE (target_bytes - LP_HDR_SIZE);
     bs ← read (Z.to_nat (source_bytes - 1)) 0 source;
     put_bytes target 0 bs);
target ← lpSetNumElements target lplength;
target ← lpSetTotalBytes target lpbytes;
mret (if (append : bool) then (Some target, Some target, None) else (Some target, None, Some target))
end.

Definition lpDup (lp : bytes) : result bytes :=
lpbytes ← lpBytes lp;
bs ← read (Z.to_nat lpbytes) 0 lp;
put_bytes (lp_malloc lpbytes) 0 bs.

Definition lpEstimateBytesRepeatedInteger (lval rep : Z) : Z :=
let enclen := Z.of_nat (length (lpEncodeIntegerGetType lval)) in
u64 (LP_HDR_SIZE + (enclen + backlen_size enclen) * rep + 1).

(** The loop over the entries; [None] when an entry is refused. *)
Fixpoint validate_entries (fuel : nat) (lp : bytes) (lpbytes numele : Z) (entry_cb : Z -> Z -> bool) (p : option Z) (count : Z)
  : result (option (option Z * Z)) :=
match p with
| None => mret (Some (p, count))
| Some q =>
    b ← byte_at lp q;
    if b =? LP_EOF then mret (Some (p, count)) else
    match fuel with
    | O => inl OutOfFuel
    | S fuel =>
        '(valid, p) ← lpValidateNext lp p lpbytes;
        if negb valid then mret None else
        if negb (entry_cb q numele) then mret None else
        validate_entries fuel lp lpbytes numele entry_cb p (u32 (count + 1))
    end
end.
(** [lp] is the block of [size] bytes to check; without a callback, [entry_cb] accepts. *)
Definition lpValidateIntegrity (lp : bytes) (size : Z) (deep : bool) (entry_cb : Z -> Z -> bool) : result bool :=
if size <? LP_HDR_SIZE + 1 then mret false else
bytes_ ← lpGetTotalBytes lp;
if negb (bytes_ =? size) then mret false else
b ← byte_at lp (size - 1);
if negb (b =? LP_EOF) then mret false else
if negb deep then mret true else
numele ← lpGetNumElements lp;
r ← validate_entries (length lp) lp bytes_ numele entry_cb (Some LP_HDR_SIZE) 0;
match r with
| None => mret false
| Some (p, count) =>
    if negb (bool_decide (p = Some (size - 1))) then mret false else
    mret ((numele =? LP_HDR_NUMELE_UNKNOWN) || (numele =? count))
end.
End Listpack.
