(* ===== verification/ListpackCodec.v ===== *)
(** * The entries of a listpack

    Encoding and decoding of one entry of [listpack.c]: the bytes written for an integer or
    a string, what the decoders read from them at any place of a block, and the length that
    is written behind an entry so that it can be skipped from the right. *)

From S2P Require Import Prelude Bytes NumString NumStringFacts Listpack.

(** ** Bits *)

Lemma lor_shiftl a b k : 0 <= k -> 0 <= a < 2 ^ k -> Z.lor a (Z.shiftl b k) = a + b * 2 ^ k.
Proof.
  intros Hk Ha. rewrite <- Z.shiftl_mul_pow2 by lia.
  assert (Z.land a (Z.shiftl b k) = 0) as Hz; [|pose proof (Z.add_lor_land a (Z.shiftl b k)); lia].
  apply Z.bits_inj'. intros n Hn. rewrite Z.land_spec, Z.bits_0. destruct (decide (n < k)).
  - rewrite Z.shiftl_spec_low by lia. apply andb_false_r.
  - by rewrite <- (Z.mod_small a (2 ^ k)), Z.mod_pow2_bits_high by lia.
Qed.

Lemma land_low a k : 0 <= k -> Z.land a (Z.ones k) = a mod 2 ^ k.
Proof. intros. by apply Z.land_ones. Qed.
Lemma land_255 a : Z.land a 0xff = a mod 256. Proof. by apply (land_low a 8). Qed.
Lemma land_127 a : Z.land a 127 = a mod 128. Proof. by apply (land_low a 7). Qed.
Lemma shiftr_div a k : 0 <= k -> Z.shiftr a k = a / 2 ^ k. Proof. apply Z.shiftr_div_pow2. Qed.

(** The three bytes of a number that the C code cuts out. *)
Lemma le_bytes_2 v : [Z.land v 0xff; u8 (Z.shiftr v 8)] = le_bytes 2 v.
Proof. cbn [le_bytes]. rewrite land_255, shiftr_div by lia. done. Qed.
Lemma le_bytes_2' v : [Z.land v 0xff; Z.land (Z.shiftr v 8) 0xff] = le_bytes 2 v.
Proof. cbn [le_bytes]. rewrite !land_255, shiftr_div by lia. done. Qed.
Lemma le_bytes_3 v : [Z.land v 0xff; Z.land (Z.shiftr v 8) 0xff; u8 (Z.shiftr v 16)] = le_bytes 3 v.
Proof. cbn [le_bytes]. rewrite !land_255, !shiftr_div by lia. rewrite !Z.div_div by lia. done. Qed.
Lemma le_bytes_4 v :
  [Z.land v 0xff; Z.land (Z.shiftr v 8) 0xff; Z.land (Z.shiftr v 16) 0xff; u8 (Z.shiftr v 24)] = le_bytes 4 v.
Proof. cbn [le_bytes]. rewrite !land_255, !shiftr_div by lia. rewrite !Z.div_div by lia. done. Qed.
Lemma le_bytes_4' v :
  [Z.land v 0xff; Z.land (Z.shiftr v 8) 0xff; Z.land (Z.shiftr v 16) 0xff; Z.land (Z.shiftr v 24) 0xff] = le_bytes 4 v.
Proof. rewrite <- le_bytes_4, (land_255 (Z.shiftr v 24)). done. Qed.
Lemma le_bytes_8 v :
  [Z.land v 0xff; Z.land (Z.shiftr v 8) 0xff; Z.land (Z.shiftr v 16) 0xff; Z.land (Z.shiftr v 24) 0xff;
   Z.land (Z.shiftr v 32) 0xff; Z.land (Z.shiftr v 40) 0xff; Z.land (Z.shiftr v 48) 0xff; u8 (Z.shiftr v 56)] = le_bytes 8 v.
Proof. cbn [le_bytes]. rewrite !land_255, !shiftr_div by lia. rewrite !Z.div_div by lia. done. Qed.

(** The tests on the first byte of an entry. *)
Definition first_byte_check (b : Z) : bool :=
  eqb (LP_ENCODING_IS_7BIT_UINT b) (b <? 128) && eqb (LP_ENCODING_IS_6BIT_STR b) ((128 <=? b) && (b <? 192)) &&
  eqb (LP_ENCODING_IS_13BIT_INT b) ((192 <=? b) && (b <? 224)) && eqb (LP_ENCODING_IS_12BIT_STR b) ((224 <=? b) && (b <? 240)) &&
  eqb (LP_ENCODING_IS_16BIT_INT b) (b =? 241) && eqb (LP_ENCODING_IS_24BIT_INT b) (b =? 242) &&
  eqb (LP_ENCODING_IS_32BIT_INT b) (b =? 243) && eqb (LP_ENCODING_IS_64BIT_INT b) (b =? 244) &&
  eqb (LP_ENCODING_IS_32BIT_STR b) (b =? 240).
Lemma first_byte_all : forallb first_byte_check (seqZ 0 256) = true.
Proof. vm_compute. reflexivity. Qed.

Record first_byte (b : Z) : Prop := {
  is_7 : LP_ENCODING_IS_7BIT_UINT b = (b <? 128);
  is_6s : LP_ENCODING_IS_6BIT_STR b = ((128 <=? b) && (b <? 192));
  is_13 : LP_ENCODING_IS_13BIT_INT b = ((192 <=? b) && (b <? 224));
  is_12s : LP_ENCODING_IS_12BIT_STR b = ((224 <=? b) && (b <? 240));
  is_16 : LP_ENCODING_IS_16BIT_INT b = (b =? 241);
  is_24 : LP_ENCODING_IS_24BIT_INT b = (b =? 242);
  is_32 : LP_ENCODING_IS_32BIT_INT b = (b =? 243);
  is_64 : LP_ENCODING_IS_64BIT_INT b = (b =? 244);
  is_32s : LP_ENCODING_IS_32BIT_STR b = (b =? 240);
}.
Lemma first_byte_ok b : in_u 8 b -> first_byte b.
Proof.
  intros Hb. pose proof first_byte_all as H. rewrite forallb_forall in H. specialize (H b).
  rewrite <- list_elem_of_In, elem_of_seqZ in H. unfold in_u in Hb. specialize (H ltac:(lia)).
  unfold first_byte_check in H. rewrite !andb_true_iff, !eqb_true_iff in H. destruct_and! H. by split.
Qed.

(** ** Reads inside a block *)

Lemma or_bytes_ok pre bs post : is_bytes bs -> or_bytes (length bs) (pre ++ bs ++ post) (len_ pre) = inr (le_val bs).
Proof.
  intros Hbs. revert pre. induction Hbs as [|b bs Hb Hbs IH]; intros pre; [done|]. cbn [length or_bytes app].
  rewrite byte_at_app. cbn [mbind result_bind]. change (pre ++ b :: bs ++ post) with (pre ++ [b] ++ (bs ++ post)).
  rewrite app_assoc. replace (len_ pre + 1) with (len_ (pre ++ [b])) by (rewrite length_app; cbn [length]; lia).
  rewrite IH. cbn [mbind result_bind mret result_ret le_val]. rewrite lor_shiftl by (unfold in_u in Hb; lia). f_equal. lia.
Qed.

(** After one tag byte. *)
Lemma or_bytes_tag pre t bs post :
  is_bytes bs -> or_bytes (length bs) (pre ++ t :: bs ++ post) (len_ pre + 1) = inr (le_val bs).
Proof.
  intros Hbs. change (pre ++ t :: bs ++ post) with (pre ++ [t] ++ (bs ++ post)). rewrite app_assoc.
  replace (len_ pre + 1) with (len_ (pre ++ [t])) by (rewrite length_app; cbn [length]; lia). by apply or_bytes_ok.
Qed.

Lemma or_bytes_le pre t n v post :
  or_bytes n (pre ++ t :: le_bytes n v ++ post) (len_ pre + 1) = inr (wrap_u (8 * Z.of_nat n) v).
Proof.
  rewrite <- (length_le_bytes n v) at 1. rewrite or_bytes_tag by apply is_bytes_le. by rewrite le_val_wrap.
Qed.

(** ** The length behind an entry *)

(** [m] digits in base 128 with the continuation bit, behind the leading digit. *)
Fixpoint back_bytes (m : nat) (l : Z) : bytes :=
  match m with O => [l] | S m => back_bytes m (l / 128) ++ [128 + l mod 128] end.

Lemma length_back_bytes m l : length (back_bytes m l) = S m.
Proof. revert l; induction m; intros l; [done|]. cbn [back_bytes]. rewrite length_app, IHm. cbn. lia. Qed.

Lemma is_bytes_back m l : 0 <= l < 128 ^ Z.of_nat (S m) -> is_bytes (back_bytes m l).
Proof.
  revert l; induction m as [|m IH]; intros l Hl; cbn [back_bytes].
  - repeat constructor; unfold in_u; simpl in *; lia.
  - rewrite (Nat2Z.inj_succ (S m)), Z.pow_succ_r in Hl by lia. apply Forall_app. split.
    + apply IH. split; [apply Z.div_pos; lia|apply Z.div_lt_upper_bound; lia].
    + repeat constructor; pose proof (Z.mod_pos_bound l 128); unfold in_u; lia.
Qed.

Lemma encode_backlen_form l : 0 <= l < 2 ^ 35 ->
  exists m, lpEncodeBacklen l = back_bytes m l /\ (m <= 4)%nat /\ l < 128 ^ Z.of_nat (S m).
Proof.
  intros Hl. assert (forall d, 0 <= d -> Z.lor (d mod 128) 128 = 128 + d mod 128) as Hlor.
  { intros d Hd. change 128 with (Z.shiftl 1 7) at 2. rewrite lor_shiftl; [lia|lia|]. apply Z.mod_pos_bound. lia. }
  unfold lpEncodeBacklen. rewrite !land_127, !shiftr_div by lia.
  assert (forall k, 0 <= l / 2 ^ k) by (intros k; destruct (decide (0 <= k)); [apply Z.div_pos; try apply pow2_pos; lia|];
    rewrite Z.pow_neg_r by lia; by rewrite Zdiv_0_r).
  rewrite !Hlor by (done || lia). unfold wrap_u.
  destruct (Z.leb_spec l 127); [exists 0%nat|destruct (Z.ltb_spec l 16383); [exists 1%nat|
    destruct (Z.ltb_spec l 2097151); [exists 2%nat|destruct (Z.ltb_spec l 268435455); [exists 3%nat|exists 4%nat]]]];
  (split; [|split; [lia|simpl; lia]]); cbn [back_bytes app]; rewrite ?Z.div_div by lia; simpl (_ * _);
  repeat f_equal; apply Z.mod_small; split; try done; try apply Z.div_pos; try lia; apply Z.div_lt_upper_bound; simpl; lia.
Qed.

Lemma decode_back_bytes fuel m l pre post val shift :
  (m < fuel)%nat -> 0 <= l < 128 ^ Z.of_nat (S m) -> 0 <= shift -> shift + 7 * Z.of_nat m <= 28 -> 0 <= val < 2 ^ shift ->
  decode_backlen fuel (pre ++ back_bytes m l ++ post) (len_ pre + Z.of_nat m) val shift = inr (val + l * 2 ^ shift).
Proof.
  revert fuel l post val shift. induction m as [|m IH]; intros fuel l post val shift Hf Hl Hs Hm Hv;
    (destruct fuel as [|fuel]; [lia|]); cbn [decode_backlen back_bytes].
  - rewrite Z.add_0_r. cbn [app]. rewrite byte_at_app. cbn [mbind result_bind]. simpl in Hl.
    change (Z.land l 128 =? 0) with (LP_ENCODING_IS_7BIT_UINT l). rewrite (is_7 _ (first_byte_ok l ltac:(unfold in_u; lia))).
    rewrite (proj2 (Z.ltb_lt l 128)) by lia. rewrite land_127, (Z.mod_small l 128) by lia.
    rewrite wrap_u_id, lor_shiftl; [done..|]. rewrite Z.shiftl_mul_pow2 by lia.
    pose proof (Z.pow_le_mono_r 2 shift 28). pose proof (pow2_pos shift). unfold in_u. nia.
  - rewrite Nat2Z.inj_succ in *. rewrite Z.pow_succ_r in Hl by lia.
    pose proof (Z.mod_pos_bound l 128 ltac:(lia)) as Hr. pose proof (Z.div_mod l 128 ltac:(lia)) as Hdm.
    set (r := l mod 128) in *. set (q := l / 128) in *.
    assert (byte_at (pre ++ (back_bytes m q ++ [128 + r]) ++ post) (len_ pre + Z.succ (Z.of_nat m)) = inr (128 + r)) as ->.
    { rewrite <- app_assoc. cbn [app]. rewrite app_assoc.
      replace (len_ pre + Z.succ (Z.of_nat m)) with (len_ (pre ++ back_bytes m q)) by (rewrite length_app, length_back_bytes; lia).
      apply byte_at_app. }
    cbn [mbind result_bind]. change (Z.land (128 + r) 128 =? 0) with (LP_ENCODING_IS_7BIT_UINT (128 + r)).
    rewrite (is_7 _ (first_byte_ok (128 + r) ltac:(unfold in_u; lia))). rewrite (proj2 (Z.ltb_ge _ 128)) by lia.
    rewrite (proj2 (Z.ltb_ge 28 _)) by lia. rewrite land_127.
    replace ((128 + r) mod 128) with r by (rewrite Z.add_mod, Z.mod_same, Z.add_0_l, Z.mod_mod, Z.mod_small by lia; done).
    pose proof (Z.pow_le_mono_r 2 shift 28). pose proof (pow2_pos shift).
    rewrite wrap_u_id, lor_shiftl by (try done; rewrite Z.shiftl_mul_pow2 by lia; unfold in_u; nia).
    rewrite <- app_assoc. replace (len_ pre + Z.succ (Z.of_nat m) - 1) with (len_ pre + Z.of_nat m) by lia.
    rewrite ?Nat2Z.inj_succ, Z.pow_succ_r in Hl by lia. rewrite IH; [|lia| |lia|lia|].
    + f_equal. rewrite Z.pow_add_r by lia. change (2 ^ 7) with 128. nia.
    + rewrite ?Nat2Z.inj_succ, Z.pow_succ_r by lia. nia.
    + rewrite Z.pow_add_r by lia. change (2 ^ 7) with 128. nia.
Qed.

Lemma decode_backlen_ok pre l post :
  0 <= l < 2 ^ 35 -> lpDecodeBacklen (pre ++ lpEncodeBacklen l ++ post) (len_ pre + backlen_size l - 1) = inr l.
Proof.
  intros Hl. unfold lpDecodeBacklen, backlen_size. destruct (encode_backlen_form l Hl) as (m & -> & Hm & Hlm).
  rewrite length_back_bytes. replace (len_ pre + Z.of_nat (S m) - 1) with (len_ pre + Z.of_nat m) by lia.
  rewrite decode_back_bytes; [f_equal; lia|lia|lia|lia|lia|simpl; lia].
Qed.

Lemma backlen_bounds l : 0 <= l < 2 ^ 35 -> 1 <= backlen_size l <= 5.
Proof. intros Hl. unfold backlen_size. destruct (encode_backlen_form l Hl) as (m & -> & Hm & _). rewrite length_back_bytes. lia. Qed.

Lemma is_bytes_backlen l : 0 <= l < 2 ^ 35 -> is_bytes (lpEncodeBacklen l).
Proof. intros Hl. destruct (encode_backlen_form l Hl) as (m & -> & Hm & ?). apply is_bytes_back. lia. Qed.

(** ** Entries *)

Inductive entry := EInt (v : Z) | EStr (s : bytes).
#[export] Instance entry_eq_dec : EqDecision entry.
Proof. solve_decision. Defined.

Definition enc (e : entry) : bytes := match e with EInt v => lpEncodeIntegerGetType v | EStr s => encoded_string s end.
Definition cell (e : entry) : bytes := enc e ++ lpEncodeBacklen (len_ (enc e)).

(** Entries as [lpInsert] makes them: a string that is a number is stored as the number. *)
Definition wf_entry (e : entry) : Prop :=
  match e with
  | EInt v => in_s 64 v
  | EStr s => is_bytes s /\ len_ s + 5 < 2 ^ 32 /\ lpStringToInt64 s = None
  end.

Definition tags : list (Z * nat) := [(0xF1, 2%nat); (0xF2, 3%nat); (0xF3, 4%nat); (0xF4, 8%nat)].

(** The shapes of an encoded entry. *)
Inductive form : entry -> bytes -> Prop :=
| Form7 v : 0 <= v < 128 -> form (EInt v) [v]
| Form13 v : in_s 13 v -> form (EInt v) [192 + wrap_u 13 v / 256; wrap_u 13 v mod 256]
| FormInt v tag n : (tag, n) ∈ tags -> in_s (8 * Z.of_nat n) v -> form (EInt v) (tag :: le_bytes n (wrap_u (8 * Z.of_nat n) v))
| Form6 s : is_bytes s -> len_ s < 64 -> form (EStr s) ((128 + len_ s) :: s)
| Form12 s : is_bytes s -> len_ s < 4096 -> form (EStr s) (224 + len_ s / 256 :: len_ s mod 256 :: s)
| Form32 s : is_bytes s -> len_ s + 5 < 2 ^ 32 -> form (EStr s) (0xF0 :: le_bytes 4 (len_ s) ++ s).

Lemma wrap_neg w v : 0 < w -> in_s w v -> (if v <? 0 then Z.shiftl 1 w + v else v) = wrap_u w v.
Proof.
  intros Hw Hv. unfold wrap_u. unfold in_s in Hv. pose proof (pow2_half w Hw). rewrite Z.shiftl_mul_pow2, Z.mul_1_l by lia.
  destruct (Z.ltb_spec v 0).
  - rewrite <- (Z.mod_small (2 ^ w + v) (2 ^ w)) by lia. replace (2 ^ w + v) with (v + 1 * 2 ^ w) by lia. by rewrite Z.mod_add by lia.
  - rewrite Z.mod_small; lia.
Qed.

Lemma enc_int_form v : in_s 64 v -> form (EInt v) (lpEncodeIntegerGetType v).
Proof.
  intros Hv. unfold lpEncodeIntegerGetType.
  destruct ((0 <=? v) && (v <=? 127)) eqn:E7; to_prop; [rewrite wrap_u_id by (unfold in_u; lia); constructor; lia|].
  destruct ((-4096 <=? v) && (v <=? 4095)) eqn:E13; to_prop.
  { assert (in_s 13 v) as Hs by (unfold in_s; simpl; lia). rewrite (wrap_neg 13) by done.
    pose proof (wrap_u_range 13 v ltac:(lia)) as Hr. unfold in_u in Hr.
    rewrite land_255, shiftr_div by lia. change (Z.lor _ 192) with (Z.lor (wrap_u 13 v / 2 ^ 8) (Z.shiftl 6 5)).
    assert (0 <= wrap_u 13 v / 2 ^ 8 < 2 ^ 5) as Hq by (split; [apply Z.div_pos; lia|apply Z.div_lt_upper_bound; simpl in *; lia]).
    rewrite lor_shiftl, wrap_u_id by (unfold in_u; simpl in *; lia). rewrite Z.add_comm. by apply Form13. }
  destruct ((-32768 <=? v) && (v <=? 32767)) eqn:E16; to_prop.
  { assert (in_s 16 v) as Hs by (unfold in_s; simpl; lia). rewrite (wrap_neg 16), le_bytes_2 by done.
    apply (FormInt v 0xF1 2); [set_solver|done]. }
  destruct ((-8388608 <=? v) && (v <=? 8388607)) eqn:E24; to_prop.
  { assert (in_s 24 v) as Hs by (unfold in_s; simpl; lia). rewrite (wrap_neg 24), le_bytes_3 by done.
    apply (FormInt v 0xF2 3); [set_solver|done]. }
  destruct ((-2147483648 <=? v) && (v <=? 2147483647)) eqn:E32; to_prop.
  { assert (in_s 32 v) as Hs by (unfold in_s; simpl; lia). rewrite (wrap_neg 32), le_bytes_4 by done.
    apply (FormInt v 0xF3 4); [set_solver|done]. }
  rewrite le_bytes_8. apply (FormInt v 0xF4 8); [set_solver|done].
Qed.

Lemma enc_str_form s : is_bytes s -> len_ s + 5 < 2 ^ 32 -> form (EStr s) (encoded_string s).
Proof.
  intros Hs Hl. unfold encoded_string. destruct (Z.ltb_spec (len_ s) 64).
  { change 128 with (Z.shiftl 2 6). rewrite lor_shiftl, wrap_u_id by (unfold in_u; simpl; lia). rewrite Z.add_comm. by constructor. }
  destruct (Z.ltb_spec (len_ s) 4096).
  - rewrite land_255, shiftr_div by lia. change 224 with (Z.shiftl 14 4).
    assert (0 <= len_ s / 2 ^ 8 < 2 ^ 4) by (split; [apply Z.div_pos; lia|apply Z.div_lt_upper_bound; simpl in *; lia]).
    rewrite lor_shiftl, wrap_u_id by (unfold in_u; simpl in *; lia). rewrite Z.add_comm. by constructor.
  - rewrite le_bytes_4'. by constructor.
Qed.

Lemma enc_form e : wf_entry e -> form e (enc e).
Proof. destruct e; [apply enc_int_form|]. intros (? & ? & ?). by apply enc_str_form. Qed.

Lemma form_bytes e bs : form e bs -> is_bytes bs.
Proof.
  destruct 1 as [v Hv|v Hv|v t n Ht Hv|s Hs Hl|s Hs Hl|s Hs Hl].
  - repeat constructor; lia.
  - pose proof (wrap_u_range 13 v ltac:(lia)) as Hr. unfold in_u in Hr.
    pose proof (Z.mod_pos_bound (wrap_u 13 v) 256 ltac:(lia)).
    assert (0 <= wrap_u 13 v / 256 < 32) by (split; [apply Z.div_pos; lia|apply Z.div_lt_upper_bound; simpl in *; lia]).
    repeat constructor; lia.
  - constructor; [|apply is_bytes_le]. unfold tags in Ht. unfold in_u. set_unfold in Ht. naive_solver lia.
  - constructor; [unfold in_u; lia|done].
  - pose proof (Z.mod_pos_bound (len_ s) 256 ltac:(lia)).
    assert (0 <= len_ s / 256 < 16) by (split; [apply Z.div_pos; lia|apply Z.div_lt_upper_bound; simpl in *; lia]).
    repeat constructor; (lia || done).
  - constructor; [unfold in_u; lia|]. apply Forall_app. split; [apply is_bytes_le|done].
Qed.

(** Evaluate the tests on the first byte [b], which is known to be a byte. *)
Ltac tests b :=
  let H := fresh "Hfb" in
  assert (first_byte b) as H by (apply first_byte_ok; unfold in_u; lia);
  rewrite ?(is_7 b H), ?(is_6s b H), ?(is_13 b H), ?(is_12s b H), ?(is_16 b H), ?(is_24 b H), ?(is_32 b H), ?(is_64 b H), ?(is_32s b H);
  repeat match goal with
  | |- context [if ?c then _ else _] => first [assert (c = true) as -> by lia | assert (c = false) as -> by lia]
  end; clear H.

Lemma div_small_range a m q : 0 < m -> 0 <= a < m * q -> 0 <= a / m < q.
Proof. intros. split; [apply Z.div_pos; lia|apply Z.div_lt_upper_bound; lia]. Qed.

Lemma form_head e bs : form e bs -> exists b bs', bs = b :: bs' /\ 0 <= b < 245.
Proof.
  destruct 1 as [v Hv|v Hv|v t n Ht Hv|s Hs Hl|s Hs Hl|s Hs Hl]; eexists _, _; (split; [reflexivity|]); try lia.
  - pose proof (wrap_u_range 13 v ltac:(lia)) as Hr. unfold in_u in Hr.
    pose proof (div_small_range (wrap_u 13 v) 256 32). simpl in *. lia.
  - unfold tags in Ht. set_unfold in Ht. naive_solver lia.
  - pose proof (div_small_range (len_ s) 256 16). lia.
Qed.

Lemma land_mod_add b k d : 0 <= k -> 0 <= d < 2 ^ k -> Z.land (b * 2 ^ k + d) (Z.ones k) = d.
Proof. intros Hk Hd. rewrite land_low, Z.add_comm, Z.mod_add by lia. apply Z.mod_small. lia. Qed.

Lemma str_len_12 pre s post :
  len_ s < 4096 -> LP_ENCODING_12BIT_STR_LEN (pre ++ (224 + len_ s / 256 :: len_ s mod 256 :: s) ++ post) (len_ pre) = inr (len_ s).
Proof.
  intros Hl. unfold LP_ENCODING_12BIT_STR_LEN. cbn [app]. rewrite byte_at_app. cbn [mbind result_bind]. rewrite byte_at_next.
  cbn [mbind result_bind mret result_ret]. f_equal. pose proof (div_small_range (len_ s) 256 16 ltac:(lia) ltac:(lia)).
  change 0xF with (Z.ones 4). rewrite (land_mod_add 14 4) by (simpl; lia).
  rewrite Z.lor_comm, lor_shiftl by (try lia; apply Z.mod_pos_bound; lia). pose proof (Z.div_mod (len_ s) 256). simpl. lia.
Qed.

Lemma form_size pre e bs post : form e bs -> lpCurrentEncodedSizeUnsafe (pre ++ bs ++ post) (len_ pre) = inr (len_ bs).
Proof.
  unfold lpCurrentEncodedSizeUnsafe. destruct 1 as [v Hv|v Hv|v t n Ht Hv|s Hs Hl|s Hs Hl|s Hs Hl].
  - cbn [app]. rewrite byte_at_app. cbn [mbind result_bind]. by tests v.
  - cbn [app]. rewrite byte_at_app. cbn [mbind result_bind]. pose proof (wrap_u_range 13 v ltac:(lia)) as Hr. unfold in_u in Hr.
    pose proof (div_small_range (wrap_u 13 v) 256 32 ltac:(lia)) as Hd. simpl in Hr, Hd. by tests (192 + wrap_u 13 v / 256).
  - cbn [app]. rewrite byte_at_app. cbn [mbind result_bind length]. rewrite length_le_bytes.
    unfold tags in Ht. set_unfold in Ht. destruct Ht as [[=-> ->]|[[=-> ->]|[[=-> ->]|[[=-> ->]|[]]]]]; reflexivity.
  - cbn [app]. rewrite byte_at_app. cbn [mbind result_bind]. tests (128 + len_ s).
    unfold LP_ENCODING_6BIT_STR_LEN. rewrite byte_at_app. cbn [mbind result_bind mret result_ret length]. f_equal.
    change 0x3F with (Z.ones 6). rewrite (land_mod_add 2 6) by (simpl; lia). lia.
  - pose proof (div_small_range (len_ s) 256 16 ltac:(lia) ltac:(lia)). rewrite str_len_12 by done.
    cbn [app]. rewrite byte_at_app. cbn [mbind result_bind]. tests (224 + len_ s / 256).
    cbn [mret result_ret length]. f_equal. lia.
  - cbn [app]. rewrite byte_at_app. cbn [mbind result_bind]. tests 240.
    unfold LP_ENCODING_32BIT_STR_LEN. rewrite <- app_assoc, or_bytes_le. cbn [mbind result_bind mret result_ret length].
    change (8 * Z.of_nat 4) with 32. rewrite (wrap_u_id 32 (len_ s)), wrap_u_id by (unfold in_u; lia).
    rewrite length_app, length_le_bytes. f_equal. lia.
Qed.

Lemma form_size_bytes pre e bs post : form e bs ->
  exists n, lpCurrentEncodedSizeBytes (pre ++ bs ++ post) (len_ pre) = inr n /\ 1 <= n <= len_ bs.
Proof.
  unfold lpCurrentEncodedSizeBytes. destruct 1 as [v Hv|v Hv|v t n Ht Hv|s Hs Hl|s Hs Hl|s Hs Hl];
    cbn [app]; rewrite byte_at_app; cbn [mbind result_bind]; eexists; (split; [reflexivity|]).
  - tests v. cbn [length]. lia.
  - pose proof (wrap_u_range 13 v ltac:(lia)) as Hr. unfold in_u in Hr.
    pose proof (div_small_range (wrap_u 13 v) 256 32 ltac:(lia)) as Hd. simpl in Hr, Hd. tests (192 + wrap_u 13 v / 256). cbn [length]. lia.
  - cbn [length]. rewrite length_le_bytes. unfold tags in Ht. set_unfold in Ht.
    destruct Ht as [[=-> ->]|[[=-> ->]|[[=-> ->]|[[=-> ->]|[]]]]]; [tests 241|tests 242|tests 243|tests 244]; lia.
  - tests (128 + len_ s). cbn [length]. lia.
  - pose proof (div_small_range (len_ s) 256 16 ltac:(lia) ltac:(lia)). tests (224 + len_ s / 256). cbn [length]. lia.
  - tests 240. cbn [length]. rewrite length_app, length_le_bytes. lia.
Qed.

Lemma signed_of_unsigned w v :
  0 < w <= 64 -> in_s w v ->
  (if 2 ^ (w - 1) <=? wrap_u w v then - i64 (u64 (2 ^ w - 1 - wrap_u w v)) - 1 else i64 (wrap_u w v)) = v.
Proof.
  intros Hw Hv. rewrite <- (wrap_neg w v) by (done || lia). pose proof (pow2_half w ltac:(lia)).
  assert (2 ^ w <= 2 ^ 64) by (apply Z.pow_le_mono_r; lia). assert (2 ^ (w - 1) <= 2 ^ 63) by (apply Z.pow_le_mono_r; lia).
  unfold in_s in Hv. rewrite Z.shiftl_mul_pow2, Z.mul_1_l by lia. destruct (Z.ltb_spec v 0).
  - rewrite (proj2 (Z.leb_le _ _)) by lia. replace (2 ^ w - 1 - (2 ^ w + v)) with (- v - 1) by lia.
    rewrite (wrap_u_id 64), (wrap_s_id 64) by (unfold in_u, in_s; lia). lia.
  - rewrite (proj2 (Z.leb_gt _ _)) by lia. apply wrap_s_id; unfold in_s; lia.
Qed.

Lemma small_backlen l : l <= 127 -> backlen_size l = 1.
Proof. intros. unfold backlen_size, lpEncodeBacklen. by rewrite (proj2 (Z.leb_le _ _)) by lia. Qed.

(** The size of the whole entry. *)
Definition entry_size (bs : bytes) : Z := len_ bs + backlen_size (len_ bs).

Lemma fields_int pre v bs post : form (EInt v) bs ->
  exists uval negstart negmax,
    entry_fields (pre ++ bs ++ post) (len_ pre) = inr (RawInt uval negstart negmax, Some (entry_size bs)) /\
    (if negstart <=? uval then - i64 (u64 (negmax - uval)) - 1 else i64 uval) = v.
Proof.
  unfold entry_fields, entry_size. intros Hf. inversion Hf as [? Hv|? Hv|? t n Ht Hv| | |]; subst.
  - cbn [app]. rewrite byte_at_app. cbn [mbind result_bind]. tests v. eexists _, _, _. split; [reflexivity|].
    change 0x7f with (Z.ones 7). rewrite land_low, Z.mod_small by (simpl; lia).
    rewrite (proj2 (Z.leb_gt _ _)) by (unfold UINT64_MAX; lia). apply wrap_s_id; unfold in_s; lia.
  - cbn [app]. rewrite byte_at_app. cbn [mbind result_bind]. pose proof (wrap_u_range 13 v ltac:(lia)) as Hr. unfold in_u in Hr.
    pose proof (div_small_range (wrap_u 13 v) 256 32 ltac:(lia)) as Hd. simpl in Hr, Hd. tests (192 + wrap_u 13 v / 256).
    rewrite byte_at_next. cbn [mbind result_bind]. eexists _, _, _. split; [reflexivity|].
    change 0x1f with (Z.ones 5). rewrite (land_mod_add 6 5) by (simpl; lia).
    rewrite Z.lor_comm, lor_shiftl by (try lia; apply Z.mod_pos_bound; lia).
    replace (wrap_u 13 v mod 256 + wrap_u 13 v / 256 * 2 ^ 8) with (wrap_u 13 v) by (pose proof (Z.div_mod (wrap_u 13 v) 256); simpl; lia).
    by apply (signed_of_unsigned 13).
  - cbn [app]. rewrite byte_at_app. cbn [mbind result_bind]. cbn [length]. rewrite length_le_bytes, small_backlen.
    2: { unfold tags in Ht. set_unfold in Ht. naive_solver lia. }
    unfold tags in Ht. set_unfold in Ht.
    destruct Ht as [[=-> ->]|[[=-> ->]|[[=-> ->]|[[=-> ->]|[]]]]]; [tests 241|tests 242|tests 243|tests 244];
      rewrite or_bytes_le; cbn [mbind result_bind]; eexists _, _, _; (split; [reflexivity|]);
      (rewrite (wrap_u_id _ (wrap_u _ v)) by (apply wrap_u_range; lia)).
    + by apply (signed_of_unsigned 16).
    + by apply (signed_of_unsigned 24).
    + by apply (signed_of_unsigned 32).
    + by apply (signed_of_unsigned 64).
Qed.

Lemma fields_str pre s bs post : form (EStr s) bs ->
  exists hd, bs = hd ++ s /\
    entry_fields (pre ++ bs ++ post) (len_ pre) = inr (RawStr (len_ (pre ++ hd)) (len_ s), Some (entry_size bs)).
Proof.
  unfold entry_fields, entry_size. intros Hf. inversion Hf as [| | |? Hs Hl|? Hs Hl|? Hs Hl]; subst.
  - exists [128 + len_ s]. split; [done|]. cbn [app]. rewrite byte_at_app. cbn [mbind result_bind]. tests (128 + len_ s).
    unfold LP_ENCODING_6BIT_STR_LEN. rewrite byte_at_app. cbn [mbind result_bind mret result_ret length].
    change 0x3F with (Z.ones 6). rewrite (land_mod_add 2 6) by (simpl; lia). rewrite length_app, Nat2Z.inj_add.
    repeat f_equal; cbn [length]; lia.
  - exists [224 + len_ s / 256; len_ s mod 256]. split; [done|]. pose proof (div_small_range (len_ s) 256 16 ltac:(lia) ltac:(lia)).
    rewrite str_len_12 by done. cbn [app]. rewrite byte_at_app. cbn [mbind result_bind]. tests (224 + len_ s / 256).
    cbn [mret result_ret length]. rewrite length_app, Nat2Z.inj_add. repeat f_equal; cbn [length]; lia.
  - exists (0xF0 :: le_bytes 4 (len_ s)). split; [done|]. cbn [app]. rewrite byte_at_app. cbn [mbind result_bind]. tests 240.
    unfold LP_ENCODING_32BIT_STR_LEN. rewrite <- app_assoc, or_bytes_le. cbn [mbind result_bind mret result_ret length].
    change (8 * Z.of_nat 4) with 32. rewrite (wrap_u_id 32 (len_ s)) by (unfold in_u; lia).
    rewrite !length_app. cbn [length]. rewrite length_le_bytes. repeat f_equal; lia.
Qed.
