(* ===== verification/ListpackLayout.v ===== *)
(** * The layout of a listpack and the moves in it

    [block num xs slack] are the bytes of a listpack with the entries [xs]; [packed] is the
    invariant of the operations.  The functions that read a listpack ([lpNext], [lpPrev],
    [lpFirst], [lpLast], [lpSeek], [lpLength], the validation of an entry) are shown to
    compute on the block what they mean on the list of entries. *)

From S2P Require Import Prelude Bytes NumString NumStringFacts Listpack ListpackCodec.

Definition payload (xs : list entry) : bytes := concat (cell <$> xs).
(** The offset behind the entries [ys], and the bytes of the whole list. *)
Definition pos (ys : list entry) : Z := 6 + len_ (payload ys).
Definition total (xs : list entry) : Z := pos xs + 1.

Definition front (num t : Z) (ys : list entry) : bytes := le_bytes 4 t ++ le_bytes 2 num ++ payload ys.
Definition block (num : Z) (xs : list entry) (slack : bytes) : bytes := front num (total xs) xs ++ LP_EOF :: slack.

(** The count in the header is exact or marked as unknown. *)
Definition count_ok (num : Z) (xs : list entry) : Prop := num = LP_HDR_NUMELE_UNKNOWN \/ (num = len_ xs /\ len_ xs < LP_HDR_NUMELE_UNKNOWN).

Inductive packed : bytes -> list entry -> Prop :=
| Packed num xs slack : Forall wf_entry xs -> total xs < 2 ^ 32 -> count_ok num xs -> packed (block num xs slack) xs.

Lemma packed_inv lp xs : packed lp xs -> exists num slack, lp = block num xs slack /\ Forall wf_entry xs /\ total xs < 2 ^ 32 /\ count_ok num xs.
Proof. destruct 1. eauto 10. Qed.

(** ** Sizes and splits *)

Lemma payload_app xs ys : payload (xs ++ ys) = payload xs ++ payload ys.
Proof. unfold payload. by rewrite fmap_app, concat_app. Qed.
Lemma payload_one e : payload [e] = cell e.
Proof. unfold payload. cbn. apply app_nil_r. Qed.
Lemma payload_cons e xs : payload (e :: xs) = cell e ++ payload xs.
Proof. done. Qed.

Lemma pos_app xs ys : pos (xs ++ ys) = pos xs + len_ (payload ys).
Proof. unfold pos. rewrite payload_app, length_app. lia. Qed.
Lemma pos_snoc xs e : pos (xs ++ [e]) = pos xs + len_ (cell e).
Proof. by rewrite pos_app, payload_one. Qed.
Lemma pos_ge xs : 6 <= pos xs. Proof. unfold pos. lia. Qed.

Lemma length_front num t ys : len_ (front num t ys) = pos ys.
Proof. unfold front, pos. rewrite !length_app, !length_le_bytes. lia. Qed.

Lemma front_app num t ys zs : front num t (ys ++ zs) = front num t ys ++ payload zs.
Proof. unfold front. by rewrite payload_app, !app_assoc. Qed.

Lemma block_split num ys zs slack : block num (ys ++ zs) slack = front num (total (ys ++ zs)) ys ++ payload zs ++ LP_EOF :: slack.
Proof. unfold block. by rewrite front_app, <- app_assoc. Qed.

Lemma length_block num xs slack : len_ (block num xs slack) = total xs + len_ slack.
Proof. unfold block. rewrite length_app, Nat2Z.inj_add, length_front. cbn [length]. unfold total. lia. Qed.

Lemma len_cell e : len_ (cell e) = entry_size (enc e).
Proof. unfold cell, entry_size, backlen_size. rewrite length_app. lia. Qed.

Lemma form_len e bs : form e bs -> 1 <= len_ bs < 2 ^ 35.
Proof.
  destruct 1 as [| |v t n Ht| | |]; cbn [length]; try lia.
  - rewrite length_le_bytes. unfold tags in Ht. set_unfold in Ht. naive_solver lia.
  - rewrite length_app, length_le_bytes. lia.
Qed.
Lemma enc_len e : wf_entry e -> 1 <= len_ (enc e) < 2 ^ 35.
Proof. intros Hw. by eapply form_len, enc_form. Qed.

Lemma cell_bounds e : wf_entry e -> len_ (enc e) + 1 <= len_ (cell e) <= len_ (enc e) + 5.
Proof. intros Hw. rewrite len_cell. unfold entry_size. pose proof (backlen_bounds (len_ (enc e))). pose proof (enc_len e Hw). lia. Qed.

(** ** The header *)

Lemma or_le n pre v post : 0 <= v < 2 ^ (8 * Z.of_nat n) -> or_bytes n (pre ++ le_bytes n v ++ post) (len_ pre) = inr v.
Proof.
  intros Hv. rewrite <- (length_le_bytes n v) at 1. rewrite or_bytes_ok by apply is_bytes_le. by rewrite le_val_wrap, wrap_u_id.
Qed.

Lemma get_total h rest : 0 <= h < 2 ^ 32 -> lpGetTotalBytes (le_bytes 4 h ++ rest) = inr h.
Proof. intros. apply (or_le 4 []). done. Qed.
Lemma get_num h num rest : 0 <= num < 2 ^ 16 -> lpGetNumElements (le_bytes 4 h ++ le_bytes 2 num ++ rest) = inr num.
Proof. intros. unfold lpGetNumElements. rewrite <- (or_le 2 (le_bytes 4 h) num rest) by done. by rewrite length_le_bytes. Qed.

Lemma set_total h v rest : lpSetTotalBytes (le_bytes 4 h ++ rest) v = inr (le_bytes 4 v ++ rest).
Proof. unfold lpSetTotalBytes. rewrite le_bytes_4'. by apply (put_app []). Qed.
Lemma set_num h num v rest : lpSetNumElements (le_bytes 4 h ++ le_bytes 2 num ++ rest) v = inr (le_bytes 4 h ++ le_bytes 2 v ++ rest).
Proof. unfold lpSetNumElements. rewrite le_bytes_2'. by apply put_app. Qed.

Lemma count_range num xs : count_ok num xs -> 0 <= num < 2 ^ 16.
Proof. unfold count_ok, LP_HDR_NUMELE_UNKNOWN. lia. Qed.

(** ** Moves *)

Section Moves.
Context (num : Z) (slack : bytes).

Lemma total_block xs : total xs < 2 ^ 32 -> lpGetTotalBytes (block num xs slack) = inr (total xs).
Proof. intros Ht. unfold block, front. rewrite <- app_assoc. apply get_total. pose proof (pos_ge xs). unfold total in *. lia. Qed.
Lemma num_block xs : count_ok num xs -> lpGetNumElements (block num xs slack) = inr num.
Proof. intros Hc. unfold block, front. rewrite <- !app_assoc. apply get_num. by eapply count_range. Qed.

Lemma byte_end xs : byte_at (block num xs slack) (pos xs) = inr LP_EOF.
Proof. unfold block. rewrite <- (length_front num (total xs)). apply byte_at_app. Qed.

Context (ys zs : list entry) (e : entry).
Abbreviation xs := (ys ++ e :: zs).
Context (Hwf : Forall wf_entry xs) (Hsm : total xs < 2 ^ 32).

Lemma wf_here : wf_entry e.
Proof. rewrite Forall_app, Forall_cons in Hwf. tauto. Qed.

Lemma block_entry : exists pre post, block num xs slack = pre ++ enc e ++ lpEncodeBacklen (len_ (enc e)) ++ post /\ len_ pre = pos ys.
Proof.
rewrite block_split, payload_cons. unfold cell. rewrite <- !app_assoc. eexists _, _. split; [reflexivity|]. apply length_front.
Qed.

Lemma byte_entry : exists b, byte_at (block num xs slack) (pos ys) = inr b /\ b <> LP_EOF.
Proof.
destruct block_entry as (pre & post & -> & <-). destruct (form_head _ _ (enc_form e wf_here)) as (b & bs & -> & Hb).
exists b. cbn [app]. rewrite byte_at_app. unfold LP_EOF. split; [done|lia].
Qed.

Lemma size_entry : lpCurrentEncodedSizeUnsafe (block num xs slack) (pos ys) = inr (len_ (enc e)).
Proof. destruct block_entry as (pre & post & -> & <-). apply (form_size _ e), enc_form, wf_here. Qed.

Lemma skip_entry : lpSkip (block num xs slack) (pos ys) = inr (pos (ys ++ [e])).
Proof. unfold lpSkip. rewrite size_entry. cbn [mbind result_bind mret result_ret]. by rewrite pos_snoc, len_cell. Qed.

Lemma backlen_entry : lpDecodeBacklen (block num xs slack) (pos (ys ++ [e]) - 1) = inr (len_ (enc e)).
Proof.
destruct block_entry as (pre & post & -> & Hp). pose proof (enc_len e wf_here).
rewrite app_assoc, pos_snoc, len_cell, <- Hp.
replace (len_ pre + entry_size (enc e) - 1) with (len_ (pre ++ enc e) + backlen_size (len_ (enc e)) - 1)
  by (unfold entry_size; rewrite length_app; lia).
apply decode_backlen_ok. lia.
Qed.

Lemma pos_step : pos ys < pos (ys ++ [e]) /\ pos (ys ++ [e]) <= total xs - 1 /\ pos ys + len_ (enc e) < pos (ys ++ [e]).
Proof.
unfold total. replace (ys ++ e :: zs) with ((ys ++ [e]) ++ zs) by by rewrite <- app_assoc. rewrite (pos_app (ys ++ [e])), pos_snoc.
pose proof (cell_bounds e wf_here). pose proof (enc_len e wf_here). lia.
Qed.

Lemma valid_entry : lpValidateNext (block num xs slack) (Some (pos ys)) (total xs) = inr (true, Some (pos (ys ++ [e]))).
Proof.
unfold lpValidateNext. pose proof pos_step as (H1 & H2 & H3). pose proof (pos_ge ys). unfold LP_HDR_SIZE.
assert (forall p, pos ys <= p <= total xs - 1 -> (p <? 6) || (total xs - 1 <? p) = false) as Hin by lia.
rewrite Hin by lia. destruct byte_entry as (b & -> & Hb). cbn [mbind result_bind]. rewrite (proj2 (Z.eqb_neq _ _)) by done.
assert (exists n, lpCurrentEncodedSizeBytes (block num xs slack) (pos ys) = inr n /\ 1 <= n <= len_ (enc e)) as (n & -> & Hn).
{ destruct block_entry as (pre & post & -> & <-). apply (form_size_bytes _ e), enc_form, wf_here. }
cbn [mbind result_bind]. rewrite (proj2 (Z.eqb_neq _ _)) by lia. rewrite Hin by lia.
rewrite size_entry. cbn [mbind result_bind].
change (len_ (enc e) + backlen_size (len_ (enc e))) with (entry_size (enc e)). rewrite <- len_cell, <- pos_snoc. rewrite Hin by lia.
rewrite backlen_entry. cbn [mbind result_bind].
change (len_ (enc e) + backlen_size (len_ (enc e))) with (entry_size (enc e)). rewrite <- len_cell.
pose proof (cell_bounds e wf_here). pose proof (enc_len e wf_here).
rewrite wrap_u_id, Z.eqb_refl by (unfold in_u; lia). done.
Qed.

Lemma assert_entry : lpAssertValidEntry (block num xs slack) (total xs) (pos ys) = inr tt.
Proof. unfold lpAssertValidEntry. by rewrite valid_entry. Qed.

Lemma prev_entry : lpPrev (block num xs slack) (pos (ys ++ [e])) = inr (Some (pos ys)).
Proof.
unfold lpPrev, lpBytes. pose proof pos_step as (H1 & H2 & H3). pose proof (pos_ge ys).
rewrite (proj2 (Z.eqb_neq _ _)) by (unfold LP_HDR_SIZE; lia). rewrite backlen_entry. cbn [mbind result_bind].
change (len_ (enc e) + backlen_size (len_ (enc e))) with (entry_size (enc e)). rewrite <- len_cell.
pose proof (cell_bounds e wf_here). pose proof (enc_len e wf_here). rewrite wrap_u_id by (unfold in_u; lia).
replace (pos (ys ++ [e]) - 1 - (len_ (cell e) - 1)) with (pos ys) by (rewrite pos_snoc; lia).
rewrite total_block by done. cbn [mbind result_bind]. by rewrite assert_entry.
Qed.
End Moves.

(** The offset of entry [k], if there is one. *)
Definition at_pos (xs : list entry) (k : nat) : option Z := if (k <? length xs)%nat then Some (pos (take k xs)) else None.

Lemma at_pos_Some xs k : (k < length xs)%nat -> at_pos xs k = Some (pos (take k xs)).
Proof. intros. unfold at_pos. by rewrite (proj2 (Nat.ltb_lt _ _)). Qed.
Lemma at_pos_None xs k : (length xs <= k)%nat -> at_pos xs k = None.
Proof. intros. unfold at_pos. by rewrite (proj2 (Nat.ltb_ge _ _)). Qed.

(** A list cut in front of entry [k]. *)
Lemma cut (xs : list entry) k : (k < length xs)%nat -> exists ys e zs, xs = ys ++ e :: zs /\ take k xs = ys /\ take (S k) xs = ys ++ [e] /\ length ys = k.
Proof.
  intros Hk. destruct (lookup_lt_is_Some_2 xs k Hk) as [e He]. exists (take k xs), e, (drop (S k) xs).
  rewrite (take_drop_middle _ _ _ He), (take_S_r _ _ _ He), length_take. split_and!; [done..|lia].
Qed.

Section Seeks.
Context (num : Z) (xs : list entry) (slack : bytes).
Context (Hwf : Forall wf_entry xs) (Hsm : total xs < 2 ^ 32) (Hcount : count_ok num xs).
Abbreviation lp := (block num xs slack).

Lemma entry_or_end k : (k <= length xs)%nat ->
exists b, byte_at lp (pos (take k xs)) = inr b /\ (b =? LP_EOF) = (length xs <=? k)%nat.
Proof.
intros Hk. destruct (decide (k = length xs)) as [->|Hne].
- rewrite firstn_all, byte_end, Nat.leb_refl. by exists LP_EOF.
- destruct (cut xs k ltac:(lia)) as (ys & e & zs & E & -> & _ & Hl). rewrite E in *.
  destruct (byte_entry num slack ys zs e Hwf) as (b & -> & Hb). exists b. split; [done|].
  rewrite (proj2 (Z.eqb_neq _ _)), (proj2 (Nat.leb_gt _ _)) by (done || lia). done.
Qed.

Lemma assert_at k : (k <= length xs)%nat -> lpAssertValidEntry lp (total xs) (pos (take k xs)) = inr tt.
Proof.
intros Hk. destruct (decide (k = length xs)) as [->|Hne].
- rewrite firstn_all. unfold lpAssertValidEntry, lpValidateNext, total. pose proof (pos_ge xs). unfold LP_HDR_SIZE.
  rewrite (proj2 (Z.ltb_ge _ _)), (proj2 (Z.ltb_ge _ _)) by lia. cbn [orb]. by rewrite byte_end.
- destruct (cut xs k ltac:(lia)) as (ys & e & zs & E & -> & _ & Hl). rewrite E in *. by apply assert_entry.
Qed.

Lemma skip_at k : (k < length xs)%nat -> lpSkip lp (pos (take k xs)) = inr (pos (take (S k) xs)).
Proof. intros Hk. destruct (cut xs k Hk) as (ys & e & zs & E & -> & -> & _). rewrite E in *. by apply skip_entry. Qed.

Lemma lpFirst_ok : lpFirst lp = inr (at_pos xs 0).
Proof.
unfold lpFirst, lpBytes. destruct (entry_or_end 0 ltac:(lia)) as (b & Hb & E). pose proof (assert_at 0 ltac:(lia)) as Ha.
rewrite take_0 in Hb, Ha. change (pos []) with LP_HDR_SIZE in *. rewrite Hb. cbn [mbind result_bind]. rewrite E.
destruct (Nat.leb_spec (length xs) 0); [by rewrite at_pos_None|]. rewrite total_block by done. cbn [mbind result_bind].
rewrite Ha. by rewrite at_pos_Some.
Qed.

Lemma lpNext_ok k : (k < length xs)%nat -> lpNext lp (pos (take k xs)) = inr (at_pos xs (S k)).
Proof.
intros Hk. unfold lpNext, lpBytes. rewrite skip_at by done. cbn [mbind result_bind].
destruct (entry_or_end (S k) ltac:(lia)) as (b & -> & E). cbn [mbind result_bind]. rewrite E.
destruct (Nat.leb_spec (length xs) (S k)); [by rewrite at_pos_None|]. rewrite total_block by done. cbn [mbind result_bind].
rewrite assert_at by lia. by rewrite at_pos_Some.
Qed.

Lemma lpPrev_ok k : (k <= length xs)%nat ->
lpPrev lp (pos (take k xs)) = inr (match k with O => None | S k => Some (pos (take k xs)) end).
Proof.
intros Hk. destruct k as [|k]; [by rewrite take_0|].
destruct (cut xs k ltac:(lia)) as (ys & e & zs & E & -> & -> & _). rewrite E in *. by apply prev_entry.
Qed.

Lemma lpLast_ok : lpLast lp = inr (match length xs with O => None | S k => Some (pos (take k xs)) end).
Proof.
unfold lpLast. rewrite total_block by done. cbn [mbind result_bind].
replace (total xs - 1) with (pos (take (length xs) xs)) by (rewrite firstn_all; unfold total; lia). by apply lpPrev_ok.
Qed.

Lemma seek_next_ok n k : seek_next n lp (at_pos xs k) = inr (at_pos xs (k + n)).
Proof.
revert k; induction n as [|n IH]; intros k; cbn [seek_next]; [by rewrite Nat.add_0_r|].
destruct (decide (k < length xs)%nat).
- rewrite at_pos_Some, lpNext_ok by done. cbn [mbind result_bind]. rewrite IH. do 2 f_equal. lia.
- by rewrite !at_pos_None by lia.
Qed.

(** [n] entries to the left of the last one. *)
Definition from_end (n : nat) : option Z := if (n <? length xs)%nat then Some (pos (take (length xs - 1 - n) xs)) else None.
Lemma seek_prev_ok n m : seek_prev n lp (from_end m) = inr (from_end (m + n)).
Proof.
revert m; induction n as [|n IH]; intros m; cbn [seek_prev]; [by rewrite Nat.add_0_r|]. unfold from_end at 1.
destruct (Nat.ltb_spec m (length xs)).
- rewrite lpPrev_ok by lia. cbn [mbind result_bind]. rewrite <- Nat.add_succ_comm, <- IH. f_equal. unfold from_end.
  destruct (Nat.ltb_spec (S m) (length xs)).
  + by replace (length xs - 1 - m)%nat with (S (length xs - 1 - S m)) by lia.
  + by replace (length xs - 1 - m)%nat with O by lia.
- unfold from_end. by rewrite !(proj2 (Nat.ltb_ge _ _)) by lia.
Qed.

Lemma seek_forward_ok index : 0 <= index -> seek_forward lp index = inr (position (length xs) index ≫= at_pos xs).
Proof.
intros Hi. unfold seek_forward. rewrite lpFirst_ok. cbn [mbind result_bind]. rewrite seek_next_ok. cbn [Nat.add]. f_equal.
unfold position. rewrite (proj2 (Z.ltb_ge _ _)), (proj2 (Z.leb_le _ _)) by lia. cbn [andb].
destruct (Z.ltb_spec index (len_ xs)); [done|]. apply at_pos_None. lia.
Qed.

Lemma seek_backward_ok index : index < 0 -> seek_backward lp index = inr (position (length xs) index ≫= at_pos xs).
Proof.
intros Hi. unfold seek_backward. rewrite lpLast_ok. cbn [mbind result_bind].
assert (match length xs with O => None | S k => Some (pos (take k xs)) end = from_end 0) as ->.
{ unfold from_end. destruct (length xs) as [|k]; [done|]. cbn [Nat.ltb Nat.leb]. by replace (S k - 1 - 0)%nat with k by lia. }
rewrite seek_prev_ok. cbn [Nat.add]. unfold from_end, position. rewrite (proj2 (Z.ltb_lt _ _)) by lia.
destruct (Nat.ltb_spec (Z.to_nat (- index - 1)) (length xs)).
- rewrite (proj2 (Z.leb_le _ _)), (proj2 (Z.ltb_lt _ _)) by lia. cbn. rewrite at_pos_Some by lia. repeat f_equal. lia.
- by rewrite (proj2 (Z.leb_gt _ _)) by lia.
Qed.

Lemma position_neg n i : i < 0 -> 0 <= Z.of_nat n + i -> position n (Z.of_nat n + i) = position n i.
Proof. intros Hi Hn. unfold position. by rewrite (proj2 (Z.ltb_lt i 0)), (proj2 (Z.ltb_ge _ 0)) by lia. Qed.
Lemma position_below n i : Z.of_nat n + i < 0 -> position n i = None.
Proof. intros Hi. unfold position. rewrite (proj2 (Z.ltb_lt i 0)) by lia. by rewrite (proj2 (Z.leb_gt 0 _)) by lia. Qed.
Lemma position_above n i : Z.of_nat n <= i -> position n i = None.
Proof. intros Hi. unfold position. rewrite (proj2 (Z.ltb_ge i 0)) by lia. by rewrite (proj2 (Z.ltb_ge i _)), andb_false_r by lia. Qed.

Lemma seek_known i : num = len_ xs -> 0 <= i -> (if num <=? i then mret None
  else if Z.quot num 2 <? i then seek_backward lp (i - num) else seek_forward lp i) =
inr (position (length xs) i ≫= at_pos xs).
Proof.
intros En Hi. destruct (Z.leb_spec num i); [by rewrite position_above by lia|].
destruct (Z.quot num 2 <? i); [|by apply seek_forward_ok]. rewrite seek_backward_ok by lia.
rewrite <- position_neg by lia. repeat f_equal. lia.
Qed.

Lemma lpSeek_ok index : lpSeek lp index = inr (position (length xs) index ≫= at_pos xs).
Proof.
unfold lpSeek. rewrite num_block by done. cbn [mbind result_bind]. destruct (Z.eqb_spec num LP_HDR_NUMELE_UNKNOWN) as [_|Hne].
{ cbn [negb]. destruct (Z.ltb_spec index 0); [by apply seek_backward_ok|by apply seek_forward_ok]. }
assert (num = len_ xs) as En by (destruct Hcount; tauto). cbn [negb]. destruct (Z.ltb_spec index 0) as [Hn|Hn].
- destruct (Z.ltb_spec (num + index) 0); [by rewrite position_below by lia|].
  rewrite <- position_neg by lia. rewrite <- En. apply seek_known; [done|lia].
- rewrite (proj2 (Z.ltb_ge _ _)) by lia. by apply seek_known.
Qed.
End Seeks.
