(* ===== verification/ListpackRead.v ===== *)
(** * Reading a listpack

    [lpLength], [lpGet], [lpCompare], [lpFind] and [lpValidateIntegrity] of [listpack.c] on a
    block that holds a list of entries. *)

From S2P Require Import Prelude Bytes NumString NumStringFacts Listpack ListpackCodec ListpackLayout.

(** The string an entry stands for, and the entry a string is stored as. *)
Definition text (e : entry) : bytes := match e with EInt v => decimal v | EStr s => s end.
Definition norm (s : bytes) : entry := match lpStringToInt64 s with Some v => EInt v | None => EStr s end.

Lemma int64_digits_eq v p : int64_digits v p = parse_digits v p.
Proof.
  revert v; induction p as [|c p IH]; intros v; [done|]. cbn [int64_digits parse_digits]. unfold UINT64_MAX, ULLONG_MAX.
  destruct (_ && _); [|done]. destruct (_ <? v); [done|]. destruct (_ <? _); [done|apply IH].
Qed.

Lemma lpStringToInt64_eq s : lpStringToInt64 s = string2ll s.
Proof.
  unfold lpStringToInt64, string2ll. destruct (_ || _); [done|]. destruct (_ && _); [done|].
  destruct (if nth 0 s 0 =? ch_minus then drop 1 s else s) as [|c p]; [done|]. by rewrite int64_digits_eq.
Qed.
Lemma lpStringToInt64_iff s v : lpStringToInt64 s = Some v <-> in_s 64 v /\ s = decimal v.
Proof. rewrite lpStringToInt64_eq. apply string2ll_iff. Qed.

Lemma text_norm s : text (norm s) = s.
Proof. unfold norm. destruct (lpStringToInt64 s) eqn:E; [|done]. by apply lpStringToInt64_iff in E as [_ ->]. Qed.
Lemma norm_text e : wf_entry e -> norm (text e) = e.
Proof.
  unfold norm. destruct e as [v|s]; cbn.
  - intros Hv. by rewrite (proj2 (lpStringToInt64_iff _ v)).
  - by intros (_ & _ & ->).
Qed.

Definition same (t s : bytes) : bool := bool_decide (t = s).

Section Reads.
Context (num : Z) (xs : list entry) (slack : bytes).
Context (Hwf : Forall wf_entry xs) (Hsm : total xs < 2 ^ 32) (Hcount : count_ok num xs).
Abbreviation lp := (block num xs slack).

Lemma payload_long ys : Forall wf_entry ys -> 2 * len_ ys <= len_ (payload ys).
Proof.
induction 1 as [|e ys He Hys IH]; [done|]. rewrite payload_cons, length_app. cbn [length].
pose proof (cell_bounds e He). pose proof (enc_len e He). lia.
Qed.
Lemma length_small : 2 * len_ xs + 7 <= total xs.
Proof. pose proof (payload_long xs Hwf). unfold total, pos. lia. Qed.

Lemma count_entries_ok fuel k c :
(length xs - k <= fuel)%nat -> 0 <= c -> c + Z.of_nat (length xs - k) < 2 ^ 32 ->
count_entries fuel lp (at_pos xs k) c = inr (c + Z.of_nat (length xs - k)).
Proof.
revert k c. induction fuel as [|fuel IH]; intros k c Hf Hc Hb; destruct (decide (k < length xs)%nat); try lia.
- rewrite at_pos_None by lia. cbn. f_equal. lia.
- rewrite at_pos_Some by done. cbn [count_entries]. rewrite lpNext_ok by done. cbn [mbind result_bind].
  rewrite wrap_u_id by (unfold in_u; lia). rewrite (IH (S k)) by (unfold in_u; lia). f_equal. lia.
- rewrite at_pos_None by lia. cbn. f_equal. lia.
Qed.

Lemma lpLength_ok : exists num', lpLength lp = inr (len_ xs, block num' xs slack) /\ count_ok num' xs.
Proof.
unfold lpLength. rewrite num_block by done. cbn [mbind result_bind].
destruct (Z.eqb_spec num LP_HDR_NUMELE_UNKNOWN) as [_|Hne]; cbn [negb].
- rewrite lpFirst_ok by done. cbn [mbind result_bind]. pose proof length_small. pose proof (length_block num xs slack).
  rewrite count_entries_ok by lia. cbn [mbind result_bind]. rewrite Nat.sub_0_r, Z.add_0_l.
  destruct (Z.ltb_spec (len_ xs) LP_HDR_NUMELE_UNKNOWN).
  + unfold block, front. rewrite <- !app_assoc, set_num. cbn [mbind result_bind]. exists (len_ xs). split; [|right; lia].
    by unfold block, front; rewrite <- !app_assoc.
  + exists num. by split.
- exists num. split; [|done]. do 3 f_equal. destruct Hcount; tauto.
Qed.

(** What the decoder says of entry [k]. *)
Definition shows (k : nat) (e : entry) (g : got) : Prop :=
match e, g with
| EInt v, GotInt w => w = v
| EStr s, GotPtr q n => 0 <= q /\ n = len_ s /\ read (length s) (Z.to_nat q) lp = inr s
| _, _ => False
end.

Lemma get_at k e : xs !! k = Some e ->
exists g, lpGetWithSize lp (pos (take k xs)) None = inr (g, Some (len_ (cell e))) /\ shows k e g.
Proof.
intros Hk. pose proof (lookup_lt_Some _ _ _ Hk). pose proof (take_drop_middle _ _ _ Hk) as Ex.
unfold shows. rewrite len_cell.
destruct (block_entry num slack (take k xs) (drop (S k) xs) e) as (pre & post & Eb & Ep). rewrite Ex in Eb.
pose proof (enc_form e (Forall_lookup_1 _ _ _ _ Hwf Hk)) as Hf. unfold lpGetWithSize. rewrite Eb, <- Ep. destruct e as [v|s].
- destruct (fields_int pre v _ (lpEncodeBacklen (len_ (enc (EInt v))) ++ post) Hf) as (u & ns & nm & -> & Hv).
  cbn [mbind result_bind]. eexists. split; [reflexivity|]. done.
- destruct (fields_str pre s _ (lpEncodeBacklen (len_ (enc (EStr s))) ++ post) Hf) as (hd & Eh & ->).
  cbn [mbind result_bind]. eexists. split; [reflexivity|]. cbn beta iota. split; [lia|]. split; [done|].
  rewrite Eh. rewrite <- !app_assoc. rewrite (app_assoc pre hd), Nat2Z.id. rewrite read_ok by (rewrite !length_app; lia).
  by rewrite drop_app_length, take_app_length.
Qed.

(** The string form of entry [k], through the caller's buffer when it is an integer. *)
Lemma lpGet_text k e buf : xs !! k = Some e -> length buf = LP_INTBUF_SIZE ->
exists g, lpGet lp (pos (take k xs)) (Some buf) = inr g /\
  match g with
  | GotBuf b n => take (Z.to_nat n) b = text e
  | GotPtr q n => n = len_ (text e) /\ read (length (text e)) (Z.to_nat q) lp = inr (text e)
  | GotInt _ => False
  end.
Proof.
intros Hk Hb. destruct (get_at k e Hk) as (g & Hg & Hs). unfold lpGet. unfold lpGetWithSize in *.
destruct (entry_fields _ _) as [|[[q n|u ns nm] es]]; [done| |]; cbn [mbind result_bind] in *.
- injection Hg as <- ->. destruct e as [v|s]; [done|]. destruct Hs as (H0 & Hn & Hr). eexists. split; [reflexivity|]. done.
- injection Hg as <- ->. destruct e as [v|s]; [|done]. cbn in Hs.
  assert (in_s 64 v) as Hv by exact (Forall_lookup_1 _ _ _ _ Hwf Hk). pose proof (length_decimal v Hv).
  rewrite Hs, ll2string_ok by (try done; unfold LP_INTBUF_SIZE in Hb; lia). cbn [mbind result_bind]. eexists. split; [reflexivity|].
  cbn beta iota. by rewrite Nat2Z.id, take_app_length.
Qed.

Lemma same_string_ok q s t : 0 <= q -> read (length t) (Z.to_nat q) lp = inr t ->
same_string lp q (len_ t) s = inr (same t s).
Proof.
intros Hq Hr. unfold same_string. destruct (Z.eqb_spec (len_ t) (len_ s)) as [El|Hne].
- rewrite (proj2 (Z.leb_le _ _)) by done. cbn [defined_if mbind result_bind].
  replace (length s) with (length t) by lia. by rewrite Hr.
- unfold same. rewrite bool_decide_false; [done|]. by intros ->.
Qed.

Lemma norm_eq e s : wf_entry e -> text e = s <-> e = norm s.
Proof. intros He. split; [intros <-; by rewrite norm_text|]. intros ->. by rewrite text_norm. Qed.

Lemma lpCompare_ok k e s : xs !! k = Some e -> lpCompare lp (pos (take k xs)) s = inr (same (text e) s).
Proof.
intros Hk. pose proof (lookup_lt_Some _ _ _ Hk). unfold lpCompare, lpGet.
destruct (entry_or_end num xs slack Hwf Hsm Hcount k ltac:(lia)) as (b & -> & E). cbn [mbind result_bind].
rewrite E, (proj2 (Nat.leb_gt _ _)) by done. clear E. destruct (get_at k e Hk) as (g & -> & Hs). cbn [mbind result_bind].
pose proof (Forall_lookup_1 _ _ _ _ Hwf Hk) as He. destruct e as [v|t], g as [w|q n|]; try done; cbn in Hs.
- subst w. cbn. f_equal. apply eq_true_iff_eq. unfold same. rewrite bool_decide_eq_true.
  destruct (lpStringToInt64 s) as [sv|] eqn:E.
  + apply lpStringToInt64_iff in E as [Hsv ->]. rewrite Z.eqb_eq. split; [by intros ->|]. intros E.
    pose proof (norm_text (EInt v) He) as E1. pose proof (norm_text (EInt sv) Hsv) as E2. cbn in E1, E2. congruence.
  + split; [done|]. intros <-. by rewrite (proj2 (lpStringToInt64_iff _ v)) in E.
- destruct Hs as (Hq & -> & Hr). by apply same_string_ok.
Qed.

(** ** Search *)

(** The first match, comparing one text after [cnt] and then every [skip + 1]. *)
Fixpoint search (skip cnt : nat) (s : bytes) (ts : list bytes) : option nat :=
match ts, cnt with
| [], _ => None
| t :: ts, O => if same t s then Some O else S <$> search skip skip s ts
| t :: ts, S cnt => S <$> search skip cnt s ts
end.

Lemma try_encode_ok s : try_encode Untried s = match lpStringToInt64 s with Some v => IsInt v | None => NotInt end.
Proof.
cbn [try_encode]. destruct ((32 <=? len_ s) || (len_ s =? 0)) eqn:E; [|done]. unfold lpStringToInt64, LONG_STR_SIZE.
destruct (Z.eqb_spec (len_ s) 0); [done|]. by rewrite (proj2 (Z.leb_le 21 _)) by lia.
Qed.
Lemma int_matches v s : in_s 64 v ->
match try_encode Untried s with IsInt w => v =? w | _ => false end = same (decimal v) s.
Proof.
intros Hv. rewrite try_encode_ok. apply eq_true_iff_eq. unfold same. rewrite bool_decide_eq_true.
pose proof (norm_text (EInt v) Hv) as E1. unfold norm in E1. cbn [text] in E1. destruct (lpStringToInt64 s) as [w|] eqn:E.
- pose proof (proj1 (lpStringToInt64_iff _ _) E) as [_ ->]. rewrite Z.eqb_eq. split; [by intros ->|]. intros E2. rewrite E2, E in E1. congruence.
- split; [done|]. intros <-. by rewrite E in E1.
Qed.

Definition known (s : bytes) (v : venc) : Prop := v = Untried \/ v = try_encode Untried s.
Lemma try_known s v : known s v -> try_encode v s = try_encode Untried s.
Proof. intros [->| ->]; [done|]. rewrite try_encode_ok. by destruct (lpStringToInt64 s). Qed.

(** The step to the next entry. *)
Lemma find_step k (next : result (option Z)) : (k < length xs)%nat ->
(_ ← (if total xs <=? pos (take (S k) xs) + 8 then lpAssertValidEntry lp (total xs) (pos (take (S k) xs))
      else assert ((LP_HDR_SIZE <=? pos (take (S k) xs)) && (pos (take (S k) xs) <? total xs)));
 b ← byte_at lp (pos (take (S k) xs)); if b =? LP_EOF then mret None else next) =
if (length xs <=? S k)%nat then mret None else next.
Proof.
intros Hk. pose proof (pos_ge (take (S k) xs)). rewrite assert_at by (done || lia).
destruct (entry_or_end num xs slack Hwf Hsm Hcount (S k) ltac:(lia)) as (b & -> & E). destruct (Z.leb_spec (total xs) (pos (take (S k) xs) + 8)).
- cbn [mbind result_bind]. by rewrite E.
- rewrite (proj2 (Z.leb_le _ _)), (proj2 (Z.ltb_lt _ _)) by (unfold LP_HDR_SIZE; lia). cbn [andb assert mbind result_bind]. by rewrite E.
Qed.

Lemma find_loop_ok s skip fuel k cnt v es :
(length xs - k <= fuel)%nat -> (k < length xs)%nat -> known s v ->
find_loop fuel lp (total xs) s skip (pos (take k xs)) cnt v es =
inr ((fun j => pos (take (k + j) xs)) <$> search skip cnt s (text <$> drop k xs)).
Proof.
revert k cnt v es. induction fuel as [|fuel IH]; intros k cnt v es Hf Hk Hv; [lia|].
destruct (lookup_lt_is_Some_2 xs k Hk) as [e He]. rewrite (drop_S _ _ _ He), fmap_cons.
assert (pos (take k xs) + len_ (cell e) = pos (take (S k) xs)) as Hpos by by rewrite (take_S_r _ _ _ He), pos_snoc.
assert (forall cnt v es, known s v ->
  (if (length xs <=? S k)%nat then mret None else find_loop fuel lp (total xs) s skip (pos (take (S k) xs)) cnt v es) =
  inr ((fun j => pos (take (k + j) xs)) <$> (S <$> search skip cnt s (text <$> drop (S k) xs)))) as Hnext.
{ intros cnt' v' es' Hv'. destruct (Nat.leb_spec (length xs) (S k)) as [Hle|Hlt].
  - rewrite drop_ge by lia. by destruct cnt'.
  - rewrite IH by (done || lia). f_equal. rewrite <- option_fmap_compose. apply option_fmap_ext. intros j. cbn. do 2 f_equal. lia. }
cbn [find_loop search]. destruct cnt as [|cnt].
- destruct (get_at k e He) as (g & -> & Hs). cbn [mbind result_bind from_option id]. rewrite Hpos.
  pose proof (Forall_lookup_1 _ _ _ _ Hwf He) as Hwe. destruct e as [w|t], g as [w'|q n|]; try done; cbn [shows] in Hs; cbn [mbind result_bind].
  + subst w'. rewrite (try_known s v Hv), int_matches by done. cbn [text]. destruct (same (decimal w) s).
    * cbn [fmap option_fmap option_map]. by rewrite Nat.add_0_r.
    * cbn [mbind result_bind mret result_ret]. rewrite find_step by done. apply Hnext. by right.
  + destruct Hs as (Hq & -> & Hr). pose proof (pos_ge (take k xs)).
    assert (pos (take (S k) xs) < total xs) as Hin by (rewrite <- (take_drop (S k) xs) at 2; unfold total; rewrite pos_app; lia).
    rewrite (proj2 (Z.leb_le _ _)), (proj2 (Z.ltb_lt _ _)) by (unfold LP_HDR_SIZE; lia). cbn [andb assert mbind result_bind].
    rewrite same_string_ok by done. cbn [text mbind result_bind]. destruct (same t s).
    * cbn [fmap option_fmap option_map]. by rewrite Nat.add_0_r.
    * cbn [mbind result_bind mret result_ret]. rewrite find_step by done. by apply Hnext.
- rewrite skip_at by done. cbn [mbind result_bind mret result_ret]. rewrite find_step by done. by apply Hnext.
Qed.

Lemma lpFind_ok s skip k : (k < length xs)%nat ->
lpFind lp (pos (take k xs)) s skip = inr ((fun j => pos (take (k + j) xs)) <$> search skip 0 s (text <$> drop k xs)).
Proof.
intros Hk. unfold lpFind, lpBytes. rewrite total_block by done. cbn [mbind result_bind]. apply find_loop_ok; [|done|by left].
pose proof length_small. pose proof (length_block num xs slack). lia.
Qed.
End Reads.
