(* ===== verification/ListpackInsert.v ===== *)
(** * Changing a listpack

    [lpInsert] of [listpack.c] and its wrappers replace a part of the list of entries.  The
    block keeps its layout whatever the allocator does. *)

From S2P Require Import Prelude Bytes NumString NumStringFacts Listpack ListpackCodec ListpackLayout ListpackRead.

(** ** Gaps *)

(** Moving [B], which lies behind [A] and [O], to [k] bytes behind [A]. *)
Lemma move_gap (A O B S : bytes) dst src n (k : nat) :
  dst = len_ A + Z.of_nat k -> src = len_ A + len_ O -> n = len_ B -> (k + length B <= length (O ++ B ++ S))%nat ->
  exists X R, move_bytes (A ++ O ++ B ++ S) dst src n = inr (A ++ X ++ B ++ R) /\ length X = k /\
    (length X + length B + length R = length (O ++ B ++ S))%nat.
Proof.
  intros -> -> -> Hl. unfold move_bytes, memmove. rewrite !(proj2 (Z.leb_le 0 _)) by lia. cbn [andb defined_if mbind result_bind].
  replace (Z.to_nat (len_ A + len_ O)) with (length (A ++ O)) by (rewrite length_app; lia).
  replace (Z.to_nat (len_ A + Z.of_nat k)) with (length A + k)%nat by lia. rewrite Nat2Z.id.
  rewrite read_ok by (rewrite !length_app in *; lia).
  rewrite (app_assoc A O), drop_app_length, take_app_length, <- app_assoc. cbn [mbind result_bind].
  rewrite write_ok by (rewrite (length_app A); lia). exists (take k (O ++ B ++ S)), (drop (k + length B) (O ++ B ++ S)).
  rewrite (take_app_add' A _ _ k), <- app_assoc by lia. replace (length A + k + length B)%nat with (length A + (k + length B))%nat by lia.
  rewrite drop_app_add'; [|done]. rewrite length_take, length_drop. split; [done|lia].
Qed.

(** Closing the gap [O] leaves what lies behind [B] alone. *)
Lemma move_gap_close (A O B S : bytes) dst src n :
  dst = len_ A -> src = len_ A + len_ O -> n = len_ B ->
  exists R, move_bytes (A ++ O ++ B ++ S) dst src n = inr (A ++ B ++ R ++ S) /\ length R = length O.
Proof.
  intros -> -> ->. unfold move_bytes, memmove. rewrite !(proj2 (Z.leb_le 0 _)) by lia. cbn [andb defined_if mbind result_bind].
  replace (Z.to_nat (len_ A + len_ O)) with (length (A ++ O)) by (rewrite length_app; lia). rewrite !Nat2Z.id.
  rewrite read_ok by (rewrite !length_app in *; lia). rewrite (app_assoc A O), drop_app_length, take_app_length, <- app_assoc.
  cbn [mbind result_bind]. rewrite write_ok by (rewrite !length_app; lia). exists (drop (length B) (O ++ B)).
  rewrite take_app_length, drop_app_add'; [|done]. rewrite (app_assoc O B S), drop_app_le by (rewrite length_app; lia).
  rewrite length_drop, length_app. split; [done|lia].
Qed.

Section Change.
Context `{Allocator}.

(** A reallocation keeps what is asked for. *)
Lemma realloc_any (A S : bytes) n : len_ A <= n -> exists S', lp_realloc (A ++ S) n = A ++ S' /\ n <= len_ (A ++ S').
Proof.
intros Hn. unfold lp_realloc, realloc. pose proof (usable_enough (Z.to_nat n)).
rewrite (take_ge (take _ _)) by (rewrite length_take; lia). rewrite take_app_ge by lia. rewrite <- app_assoc. eexists. split; [reflexivity|].
rewrite app_assoc, length_app, length_replicate. lia.
Qed.
Lemma realloc_keeps (A S : bytes) n : n = len_ A -> exists S', lp_realloc (A ++ S) n = A ++ S'.
Proof. intros ->. destruct (realloc_any A S (len_ A)) as (S' & -> & _); [lia|by eexists]. Qed.
Lemma realloc_grows (A : bytes) n : len_ A <= n -> exists S', lp_realloc A n = A ++ S' /\ n <= len_ (A ++ S').
Proof. intros Hn. destruct (realloc_any A [] n Hn) as (S' & E & Hl). rewrite app_nil_r in E. eauto. Qed.

(** ** Insertion *)

Definition stored_of (new : option entry) : option (bytes * Z) := (fun e => (enc e, len_ (enc e))) <$> new.
Definition news (new : option entry) : list entry := from_option (fun e => [e]) [] new.

Lemma news_payload new : len_ (payload (news new)) =
enclen_of (stored_of new) + len_ (backlen_of (stored_of new)).
Proof. destruct new; [|done]. cbn [news from_option stored_of fmap option_fmap option_map enclen_of backlen_of]. rewrite payload_one. unfold cell. rewrite length_app. lia. Qed.

(** The count after the change. *)
Definition new_count (num : Z) (stored replace : bool) : Z :=
if (negb replace || negb stored) && negb (num =? LP_HDR_NUMELE_UNKNOWN) then (if stored then num + 1 else num - 1) else num.

Lemma insert_header_ok num t stored replace v rest :
0 <= num < 2 ^ 16 -> (stored = false -> 1 <= num) ->
insert_header (le_bytes 4 t ++ le_bytes 2 num ++ rest) stored replace v =
inr (le_bytes 4 v ++ le_bytes 2 (new_count num stored replace) ++ rest).
Proof.
intros Hn Hs. unfold insert_header, new_count. rewrite get_num by done. destruct (negb replace || negb stored); [|apply set_total].
cbn [mbind result_bind andb]. destruct (negb (num =? LP_HDR_NUMELE_UNKNOWN)); [|apply set_total].
rewrite set_num. cbn [mbind result_bind]. destruct stored; [apply set_total|].
rewrite wrap_u_id by (specialize (Hs eq_refl); unfold in_u; lia). apply set_total.
Qed.

Lemma count_changes num ys old new zs :
old <> None \/ new <> None -> count_ok num (ys ++ news old ++ zs) ->
count_ok (new_count num (if new then true else false) (if old then true else false)) (ys ++ news new ++ zs).
Proof.
intros Hon Hc. unfold new_count. destruct (Z.eqb_spec num LP_HDR_NUMELE_UNKNOWN) as [->|Hne].
{ rewrite andb_false_r. by left. }
destruct Hc as [|[-> Hlt]]; [done|]. unfold count_ok. rewrite !length_app in *.
destruct old, new; cbn [negb orb andb news from_option length] in *; try (right; lia); [|naive_solver].
destruct (decide (len_ ys + len_ zs + 1 = LP_HDR_NUMELE_UNKNOWN)); [left|right]; lia.
Qed.

(** The entry to be replaced. *)
Lemma replaced_ok num ys old zs slack :
Forall wf_entry (ys ++ news old ++ zs) -> total (ys ++ news old ++ zs) < 2 ^ 32 ->
(if (if old then true else false) then
   n ← lpCurrentEncodedSizeUnsafe (block num (ys ++ news old ++ zs) slack) (pos ys);
   let n := u32 (n + backlen_size n) in
   _ ← ASSERT_INTEGRITY_LEN (block num (ys ++ news old ++ zs) slack) (pos ys) n; mret n
 else mret 0) = inr (len_ (payload (news old))).
Proof.
intros Hwf Hsm. destruct old as [e|]; [|done]. cbn [news from_option app] in *. rewrite size_entry by done. cbn [mbind result_bind].
change (len_ (enc e) + backlen_size (len_ (enc e))) with (entry_size (enc e)). rewrite <- len_cell.
pose proof (pos_step ys zs e Hwf) as (H1 & H2 & _). rewrite pos_snoc in *. pose proof (pos_ge ys).
rewrite wrap_u_id by (unfold in_u; lia). unfold ASSERT_INTEGRITY_LEN. rewrite total_block by done. cbn [mbind result_bind].
rewrite (proj2 (Z.leb_le _ _)), (proj2 (Z.ltb_lt _ _)) by (unfold LP_HDR_SIZE; lia). cbn [andb assert mbind result_bind]. by rewrite payload_one.
Qed.

(** Enough room in front of the move, and the cut behind it. *)
Lemma room (lp : bytes) (old new : Z) : old <= len_ lp ->
exists S', (if (old <? new) && (lp_malloc_size lp <? new) then lp_realloc lp new else lp) = lp ++ S' /\ new <= len_ (lp ++ S').
Proof.
intros Ho. unfold lp_malloc_size. destruct (Z.ltb_spec old new); cbn [andb].
- destruct (Z.ltb_spec (len_ lp) new); [apply realloc_grows; lia|]. exists []. rewrite app_nil_r. by split.
- exists []. rewrite app_nil_r. split; [done|lia].
Qed.
Lemma shrink (A S : bytes) old new : new = len_ A ->
exists S', (if new <? old then lp_realloc (A ++ S) new else A ++ S) = A ++ S'.
Proof. intros E. destruct (new <? old); [by apply realloc_keeps|by eexists]. Qed.

Lemma put_entry (A X T : bytes) e p :
p = len_ A -> length X = length (cell e) ->
(lp ← put_bytes (A ++ X ++ T) p (enc e); put_bytes lp (p + len_ (enc e)) (lpEncodeBacklen (len_ (enc e)))) = inr (A ++ cell e ++ T).
Proof.
intros -> HX. unfold cell in *. rewrite length_app in HX. rewrite <- (take_drop (length (enc e)) X), <- app_assoc.
rewrite put_app by (try done; rewrite length_take; lia). cbn [mbind result_bind].
rewrite app_assoc, put_app; [by rewrite <- !app_assoc|rewrite length_app; lia|rewrite length_drop; lia].
Qed.

Lemma total_parts ys ms zs : total (ys ++ ms ++ zs) = pos ys + len_ (payload ms) + len_ (payload zs) + 1.
Proof. unfold total. rewrite !pos_app, payload_app, length_app. lia. Qed.

(** What is stored at the gap. *)
Lemma store_ok_at (A X T : bytes) new p :
p = len_ A -> length X = length (payload (news new)) ->
(match stored_of new with
 | Some (bs, _) => lp ← put_bytes (A ++ X ++ T) p bs;
     put_bytes lp (p + enclen_of (stored_of new)) (backlen_of (stored_of new))
 | None => mret (A ++ X ++ T)
 end) = inr (A ++ payload (news new) ++ T).
Proof.
intros Hp HX. destruct new as [e|]; cbn [stored_of fmap option_fmap option_map news from_option] in *.
- rewrite payload_one in *. by apply put_entry.
- by apply length_zero_iff_nil in HX as ->.
Qed.

Lemma newp_ok A X zs R new p :
Forall wf_entry zs -> p = len_ A -> length X = length (payload (news new)) ->
(match stored_of new with
 | None => b ← byte_at (A ++ X ++ (payload zs ++ [LP_EOF]) ++ R) p; mret (if b =? LP_EOF then None else Some p)
 | Some _ => mret (Some p)
 end) = inr (match new, zs with None, [] => None | _, _ => Some p end).
Proof.
intros Hwf -> HX. destruct new; [done|]. apply length_zero_iff_nil in HX as ->. cbn [stored_of fmap option_fmap option_map app].
destruct Hwf as [|e zs He _]; [by rewrite <- app_assoc; cbn [payload fmap list_fmap concat app]; rewrite byte_at_app|].
destruct (form_head _ _ (enc_form e He)) as (b & bs & E & Hb). rewrite payload_cons. unfold cell. rewrite E. cbn [app].
rewrite byte_at_app. cbn [mbind result_bind]. by rewrite (proj2 (Z.eqb_neq b LP_EOF)) by (unfold LP_EOF; lia).
Qed.

(** [insert_at] on the parts: the entries in front, the entry replaced (if any), the entry
  stored (if any), and the entries behind. *)
Section InsertAt.
Context (num : Z) (ys zs : list entry) (old new : option entry) (slack : bytes).
Abbreviation xs := (ys ++ news old ++ zs).
Abbreviation xs' := (ys ++ news new ++ zs).
Context (Hwf : Forall wf_entry xs) (Hsm : total xs < 2 ^ 32) (Hcount : count_ok num xs) (Hon : old <> None \/ new <> None).
Context (Hnew : match new with Some e => len_ (enc e) < 2 ^ 35 | None => True end).

Lemma new_bytes :
u64 (total xs + enclen_of (stored_of new) +
   len_ (backlen_of (stored_of new)) - len_ (payload (news old))) = total xs'.
Proof.
pose proof (news_payload new) as Hp. rewrite !total_parts in *. rewrite wrap_u_id; [lia|]. pose proof (pos_ge ys).
assert (len_ (payload (news new)) < 2 ^ 36) as Hs; [|unfold in_u; lia].
destruct new as [e|]; cbn [news from_option]; [|done]. rewrite payload_one, len_cell. unfold entry_size.
pose proof (backlen_bounds (len_ (enc e))). lia.
Qed.

Lemma old_count : (if new then true else false) = false -> 1 <= num.
Proof.
destruct new; [done|]. destruct old; [|naive_solver]. intros _. destruct Hcount as [->|[-> _]]; [done|].
rewrite !length_app. cbn [news from_option length]. lia.
Qed.

Lemma insert_at_full :
UINT32_MAX < total xs' -> insert_at (block num xs slack) (stored_of new) (if old then true else false) (pos ys) = inr None.
Proof.
intros Hbig. unfold insert_at. rewrite total_block by done. cbn [mbind result_bind]. rewrite replaced_ok by done. cbn [mbind result_bind].
rewrite new_bytes. by rewrite (proj2 (Z.ltb_lt _ _)).
Qed.

Lemma insert_at_ok :
total xs' <= UINT32_MAX ->
exists slack', insert_at (block num xs slack) (stored_of new) (if old then true else false) (pos ys) =
inr (Some (block (new_count num (if new then true else false) (if old then true else false)) xs' slack',
  match new, zs with None, [] => None | _, _ => Some (pos ys) end)).
Proof.
intros Hfit. unfold insert_at. rewrite total_block by done. cbn [mbind result_bind]. rewrite replaced_ok by done. cbn [mbind result_bind].
rewrite new_bytes, (proj2 (Z.ltb_ge _ _)) by done. set (t' := total xs') in *.
destruct (room (block num xs slack) (total xs) t') as (S0 & -> & Hroom); [rewrite length_block; lia|].
assert (block num xs slack ++ S0 = front num (total xs) ys ++ payload (news old) ++ (payload zs ++ [LP_EOF]) ++ (slack ++ S0)) as E0.
{ rewrite block_split, payload_app, <- !app_assoc. done. }
rewrite E0 in *. set (A := front num (total xs) ys) in *. pose proof (length_front num (total xs) ys) as HA. fold A in HA.
pose proof (news_payload new) as Hnp. pose proof (total_parts ys (news old) zs) as Ht. pose proof (total_parts ys (news new) zs) as Ht'.
destruct (move_gap A (payload (news old)) (payload zs ++ [LP_EOF]) (slack ++ S0)
(pos ys + enclen_of (stored_of new) + len_ (backlen_of (stored_of new)))
(pos ys + len_ (payload (news old))) (total xs - pos ys - len_ (payload (news old))) (length (payload (news new))))
as (X & R & -> & HX & _); [lia|lia|rewrite length_app; cbn [length]; lia|rewrite !length_app in *; cbn [length] in *; lia|].
cbn [mbind result_bind].
destruct (shrink (A ++ X ++ (payload zs ++ [LP_EOF])) R (total xs) t') as (R' & Esh); [rewrite !length_app; cbn [length]; lia|].
rewrite <- !(app_assoc A), <- !(app_assoc X) in Esh. rewrite Esh.
rewrite newp_ok by (try done; rewrite !Forall_app in Hwf; tauto). cbn [mbind result_bind].
rewrite store_ok_at by done. cbn [mbind result_bind]. unfold A, front. rewrite <- !app_assoc.
replace (if stored_of new then true else false) with (if new then true else false) by by destruct new.
rewrite insert_header_ok by (apply old_count || by eapply count_range). cbn [mbind result_bind]. exists R'. do 3 f_equal.
unfold block, front. rewrite !payload_app, <- !app_assoc. done.
Qed.
End InsertAt.

(** ** The operations *)

(** [r] turned the list into [xs'], or refused because it would be too large. *)
Definition edits (r : result (option (bytes * option Z))) (xs' : list entry) (newp : option Z) : Prop :=
(UINT32_MAX < total xs' /\ r = inr None) \/
(total xs' <= UINT32_MAX /\ exists lp', r = inr (Some (lp', newp)) /\ packed lp' xs').

(** An element that may be given to [lpInsert]; a string has at most 2^32 - 1 bytes. *)
Definition insertable (e : entry) : Prop :=
match e with EInt v => in_s 64 v | EStr s => is_bytes s /\ len_ s < 2 ^ 32 /\ lpStringToInt64 s = None end.

Lemma encoded_len s : lpStringToInt64 s = None -> lpEncodeGetType s = inr (len_ (encoded_string s)).
Proof.
intros E. unfold lpEncodeGetType, encoded_string. rewrite E, length_app. f_equal.
destruct (len_ s <? 64); [cbn [length]; lia|]. destruct (len_ s <? 4096); cbn [length]; lia.
Qed.
Lemma encode_str s : encode_element (ElStr s) = stored_of (Some (norm s)).
Proof.
cbn [encode_element stored_of fmap option_fmap option_map]. unfold norm. destruct (lpStringToInt64 s) as [v|] eqn:E.
- unfold lpEncodeGetType. by rewrite E.
- by rewrite encoded_len.
Qed.
Lemma encode_int v : encode_element (ElInt (lpEncodeIntegerGetType v)) = stored_of (Some (EInt v)).
Proof. done. Qed.
Lemma norm_insertable s : is_bytes s -> len_ s < 2 ^ 32 -> insertable (norm s).
Proof.
intros Hs Hl. unfold norm. destruct (lpStringToInt64 s) as [v|] eqn:E; [|done]. by apply lpStringToInt64_iff in E as [? _].
Qed.

Lemma insertable_small e : insertable e -> len_ (enc e) < 2 ^ 35.
Proof.
destruct e as [v|s]; intros Hi; [by apply (enc_len (EInt v))|]. destruct Hi as (_ & Hl & _). cbn [enc]. unfold encoded_string.
rewrite length_app. destruct (len_ s <? 64); [cbn [length]; lia|]. destruct (len_ s <? 4096); cbn [length]; lia.
Qed.
Lemma insertable_wf e : insertable e -> len_ (enc e) + 7 <= UINT32_MAX -> wf_entry e.
Proof.
destruct e as [v|s]; [done|]. intros (Hs & Hl & Hp) Hf. split; [done|]. split; [|done]. revert Hf. cbn [enc]. unfold encoded_string, UINT32_MAX.
rewrite length_app. destruct (Z.ltb_spec (len_ s) 64); [lia|]. destruct (Z.ltb_spec (len_ s) 4096); cbn [length]; lia.
Qed.

Lemma insert_edits lp ys old new zs :
packed lp (ys ++ news old ++ zs) -> old <> None \/ new <> None -> match new with Some e => insertable e | None => True end ->
edits (insert_at lp (stored_of new) (if old then true else false) (pos ys)) (ys ++ news new ++ zs)
  (match new, zs with None, [] => None | _, _ => Some (pos ys) end).
Proof.
intros (num & slack & -> & Hwf & Hsm & Hc)%packed_inv Hon Hi.
assert (match new with Some e => len_ (enc e) < 2 ^ 35 | None => True end) as Hs by (destruct new; [by apply insertable_small|done]).
destruct (decide (UINT32_MAX < total (ys ++ news new ++ zs))) as [Hbig|Hfit]; [left|right]; (split; [lia|]).
- by apply insert_at_full.
- destruct (insert_at_ok num ys zs old new slack Hwf Hsm Hc Hon Hs ltac:(lia)) as (slack' & ->). eexists. split; [reflexivity|].
  constructor; [|unfold UINT32_MAX in *; lia|by apply count_changes]. rewrite !Forall_app in *. split; [tauto|]. split; [|tauto].
  destruct new as [e|]; cbn [news from_option]; [|constructor]. constructor; [|constructor]. apply insertable_wf; [done|].
  rewrite total_parts in Hfit. cbn [news from_option] in Hfit. rewrite payload_one in Hfit. unfold cell in Hfit. rewrite length_app in Hfit.
  pose proof (pos_ge ys). lia.
Qed.

Section Edits.
Context (lp : bytes) (xs : list entry) (Hp : packed lp xs).

Lemma lpInsert_before k ele e : (k <= length xs)%nat -> insertable e -> encode_element ele = stored_of (Some e) ->
edits (lpInsert lp ele (pos (take k xs)) LP_BEFORE) (take k xs ++ e :: drop k xs) (Some (pos (take k xs))).
Proof.
intros Hk Hi He. unfold lpInsert. rewrite He. cbn [stored_of fmap option_fmap option_map]. rewrite <- (take_drop k xs) in Hp.
apply (insert_edits lp (take k xs) None (Some e)); [done|by right|done].
Qed.

Lemma lpInsert_after k ele e : (k < length xs)%nat -> insertable e -> encode_element ele = stored_of (Some e) ->
edits (lpInsert lp ele (pos (take k xs)) LP_AFTER) (take (S k) xs ++ e :: drop (S k) xs) (Some (pos (take (S k) xs))).
Proof.
intros Hk Hi He. unfold lpInsert. rewrite He. cbn [stored_of fmap option_fmap option_map].
assert (lpSkip lp (pos (take k xs)) = inr (pos (take (S k) xs)) /\ ASSERT_INTEGRITY lp (pos (take (S k) xs)) = inr tt) as [-> Ha].
{ destruct Hp as [num xs slack Hwf Hsm Hc]. split; [by apply skip_at|]. unfold ASSERT_INTEGRITY. rewrite total_block by done.
cbn [mbind result_bind]. pose proof (pos_ge (take (S k) xs)). rewrite (proj2 (Z.leb_le _ _)), (proj2 (Z.ltb_lt _ _)); [done| |unfold LP_HDR_SIZE; lia].
rewrite <- (take_drop (S k) xs) at 2. unfold total. rewrite pos_app. lia. }
cbn [mbind result_bind]. rewrite Ha. cbn [mbind result_bind]. rewrite <- (take_drop (S k) xs) in Hp.
apply (insert_edits lp (take (S k) xs) None (Some e)); [done|by right|done].
Qed.

Lemma lpInsert_replace k ele e : (k < length xs)%nat -> insertable e -> encode_element ele = stored_of (Some e) ->
edits (lpInsert lp ele (pos (take k xs)) LP_REPLACE) (take k xs ++ e :: drop (S k) xs) (Some (pos (take k xs))).
Proof.
intros Hk Hi He. unfold lpInsert. rewrite He. cbn [stored_of fmap option_fmap option_map].
destruct (lookup_lt_is_Some_2 xs k Hk) as [o Ho]. rewrite <- (take_drop_middle _ _ _ Ho) in Hp.
apply (insert_edits lp (take k xs) (Some o) (Some e)); [done|by right|done].
Qed.

Lemma lpDelete_ok k : (k < length xs)%nat ->
exists lp', lpDelete lp (pos (take k xs)) = inr (Some (lp', if (S k <? length xs)%nat then Some (pos (take k xs)) else None)) /\
packed lp' (delete k xs).
Proof.
intros Hk. destruct (lookup_lt_is_Some_2 xs k Hk) as [o Ho]. pose proof (take_drop_middle _ _ _ Ho) as E. rewrite <- E in Hp.
rewrite delete_take_drop. unfold lpDelete, lpInsert. cbn [encode_element].
destruct (insert_edits lp (take k xs) (Some o) None (drop (S k) xs) Hp) as [[Hbig _]|(_ & lp' & E' & Hp')]; [by left|done| |].
- exfalso. destruct (packed_inv _ _ Hp) as (num & slack & _ & _ & Hsm & _).
change (total (take k xs ++ [o] ++ drop (S k) xs) < 2 ^ 32) in Hsm. rewrite total_parts in Hsm, Hbig. cbn [news from_option] in Hbig.
unfold UINT32_MAX in Hbig. cbn [payload fmap list_fmap concat length] in Hbig. lia.
- exists lp'. split; [|done]. cbn [stored_of fmap option_fmap option_map] in E'. rewrite E'. do 3 f_equal.
destruct (Nat.ltb_spec (S k) (length xs)) as [Hlt|Hge].
+ destruct (drop (S k) xs) eqn:Ed; [|done]. apply (f_equal length) in Ed. rewrite length_drop in Ed. cbn in Ed. lia.
+ by rewrite drop_ge by lia.
Qed.
End Edits.
End Change.
