(* ===== verification/ListpackBulk.v ===== *)
(** * Listpacks as wholes

    [lpNew], [lpShrinkToFit], [lpDeleteRange], [lpBatchDelete], [lpMerge] and [lpDup] of
    [listpack.c], and the acceptance of well-formed blocks by [lpValidateIntegrity]. *)

From S2P Require Import Prelude Bytes NumString NumStringFacts Listpack ListpackCodec ListpackLayout ListpackRead ListpackInsert.

Section Bulk.
Context `{Allocator}.

Lemma set_total_any (a rest : bytes) v : length a = 4%nat -> lpSetTotalBytes (a ++ rest) v = inr (le_bytes 4 v ++ rest).
Proof. intros. unfold lpSetTotalBytes. rewrite le_bytes_4'. by apply (put_app []). Qed.
Lemma set_num_any (a b rest : bytes) v :
length a = 4%nat -> length b = 2%nat -> lpSetNumElements (a ++ b ++ rest) v = inr (a ++ le_bytes 2 v ++ rest).
Proof. intros. unfold lpSetNumElements. rewrite le_bytes_2'. apply put_app; [lia|done]. Qed.

Lemma put_front (old new post : bytes) : length old = length new -> put_bytes (old ++ post) 0 new = inr (new ++ post).
Proof. intros. by apply (put_app []). Qed.

Lemma lpNew_ok capacity : exists lp, lpNew capacity = inr lp /\ packed lp [].
Proof.
unfold lpNew. set (n := if _ <? _ then _ else _). assert (7 <= n) as Hn by (unfold n, LP_HDR_SIZE; destruct (Z.ltb_spec (6 + 1) capacity); lia).
assert (7 <= length (lp_malloc n))%nat as Hl by (unfold lp_malloc; rewrite length_replicate; pose proof (usable_enough (Z.to_nat n)); lia).
revert Hl. generalize (lp_malloc n). intros lp Hl. cbv zeta.
assert (lp = take 4 lp ++ take 2 (drop 4 lp) ++ drop 6 lp) as E0.
{ change 6%nat with (4 + 2)%nat. by rewrite <- (drop_drop lp 2 4), !take_drop. }
assert (lpSetTotalBytes lp (LP_HDR_SIZE + 1) = inr (le_bytes 4 7 ++ take 2 (drop 4 lp) ++ drop 6 lp)) as ->.
{ rewrite E0 at 1. apply set_total_any. rewrite length_take. lia. }
cbn [mbind result_bind].
rewrite set_num_any by (rewrite ?length_take, ?length_drop, ?length_le_bytes; lia). cbn [mbind result_bind].
destruct (drop 6 lp) as [|b slack] eqn:E.
{ apply (f_equal length) in E. rewrite !length_drop in E. cbn in E. lia. }
exists (block 0 [] slack). split; [|constructor; [constructor|done|right; done]].
change (b :: slack) with ([b] ++ slack). rewrite app_assoc. by apply put_app.
Qed.

Lemma packed_shrink lp xs : packed lp xs -> exists lp', lpShrinkToFit lp = inr lp' /\ packed lp' xs.
Proof.
intros [num xs' slack Hwf Hsm Hc]. unfold lpShrinkToFit. rewrite total_block by done. cbn [mbind result_bind].
destruct (total xs' <? lp_malloc_size _); [|eexists; split; [reflexivity|by constructor]].
unfold block. change (LP_EOF :: slack) with ([LP_EOF] ++ slack). rewrite app_assoc.
destruct (realloc_keeps (front num (total xs') xs' ++ [LP_EOF]) slack (total xs')) as (S' & ->).
{ rewrite length_app, Nat2Z.inj_add, length_front. done. }
rewrite <- app_assoc. eexists. split; [reflexivity|]. by apply Packed.
Qed.

(** ** Ranges *)

Section Range.
Context (num : Z) (xs : list entry) (slack : bytes).
Context (Hwf : Forall wf_entry xs) (Hsm : total xs < 2 ^ 32) (Hcount : count_ok num xs).
Abbreviation lp := (block num xs slack).

Lemma range_end_ok n k d : (k < length xs)%nat ->
range_end n lp (total xs) (pos (take k xs)) d =
inr (pos (take (k + n `min` (length xs - k)) xs), d + Z.of_nat (n `min` (length xs - k))).
Proof.
revert k d. induction n as [|n IH]; intros k d Hk; cbn [range_end].
- rewrite Nat.min_0_l, Nat.add_0_r. cbn. do 2 f_equal. lia.
- rewrite skip_at by done. cbn [mbind result_bind].
destruct (entry_or_end num xs slack Hwf Hsm Hcount (S k) ltac:(lia)) as (b & -> & E). cbn [mbind result_bind]. rewrite E.
destruct (Nat.leb_spec (length xs) (S k)).
+ replace (S n `min` (length xs - k))%nat with 1%nat by lia. by replace (k + 1)%nat with (S k) by lia.
+ rewrite assert_at by (done || lia). cbn [mbind result_bind]. rewrite IH by lia.
  f_equal. f_equal; [do 2 f_equal; lia|lia].
Qed.
End Range.

Lemma cut_out ys ms zs slack' num' :
Forall wf_entry (ys ++ ms ++ zs) -> total (ys ++ ms ++ zs) < 2 ^ 32 -> count_ok num' (ys ++ zs) ->
packed (le_bytes 4 (total (ys ++ ms ++ zs) - len_ (payload ms)) ++ le_bytes 2 num' ++ payload ys ++ payload zs ++ LP_EOF :: slack') (ys ++ zs).
Proof.
intros Hwf Hsm Hc. pose proof (total_parts ys ms zs) as Ht. pose proof (total_parts ys [] zs) as Ht'. cbn [app] in Ht'.
change (payload []) with (@nil Z) in Ht'. cbn [length] in Ht'.
replace (total (ys ++ ms ++ zs) - len_ (payload ms)) with (total (ys ++ zs)) by lia.
assert (packed (block num' (ys ++ zs) slack') (ys ++ zs)) as Hp; [constructor; [rewrite !Forall_app in *; tauto|lia|done]|].
unfold block, front in Hp. by rewrite payload_app, <- !app_assoc in Hp.
Qed.

(** The byte at an entry or at the end of a packed block. *)
Lemma packed_byte lp xs k : packed lp xs -> (k <= length xs)%nat ->
exists b, byte_at lp (pos (take k xs)) = inr b /\ (if b =? LP_EOF then None else Some (pos (take k xs))) = at_pos xs k.
Proof.
intros [num xs' slack Hwf Hsm Hc] Hk. destruct (entry_or_end num xs' slack Hwf Hsm Hc k Hk) as (b & -> & E). exists b. split; [done|].
rewrite E. destruct (Nat.leb_spec (length xs') k); [by rewrite at_pos_None|by rewrite at_pos_Some].
Qed.

(** The new header of a list that lost [ms], and the block given back. *)
Lemma finish_cut num ys ms zs t rest :
Forall wf_entry (ys ++ ms ++ zs) -> total (ys ++ ms ++ zs) < 2 ^ 32 -> count_ok num (ys ++ ms ++ zs) -> t = total (ys ++ ms ++ zs) - len_ (payload ms) ->
exists lp', (numele ← lpGetNumElements (le_bytes 4 t ++ le_bytes 2 num ++ payload ys ++ payload zs ++ LP_EOF :: rest);
  lp ← (if negb (numele =? LP_HDR_NUMELE_UNKNOWN)
        then lpSetNumElements (le_bytes 4 t ++ le_bytes 2 num ++ payload ys ++ payload zs ++ LP_EOF :: rest) (u64 (numele - len_ ms))
        else mret (le_bytes 4 t ++ le_bytes 2 num ++ payload ys ++ payload zs ++ LP_EOF :: rest));
  lpShrinkToFit lp) = inr lp' /\ packed lp' (ys ++ zs).
Proof.
intros Hwf Hsm Hc ->. rewrite get_num by by eapply count_range. cbn [mbind result_bind].
destruct (Z.eqb_spec num LP_HDR_NUMELE_UNKNOWN) as [E|Hne]; cbn [negb].
- cbn [mbind result_bind mret result_ret]. apply packed_shrink, cut_out; [done..|by left].
- destruct Hc as [|[-> Hlt]]; [done|]. rewrite set_num. cbn [mbind result_bind]. rewrite !length_app in *. apply packed_shrink, cut_out; [done..|].
  rewrite wrap_u_id by (unfold in_u, LP_HDR_NUMELE_UNKNOWN in *; lia). right. rewrite !length_app. lia.
Qed.

(** A list in three parts: [k] entries, the next [n] (if so many), and the rest. *)
Lemma three_parts (xs : list entry) k n : (k <= length xs)%nat ->
exists ys ms zs, xs = ys ++ ms ++ zs /\ take k xs = ys /\ length ys = k /\ length ms = (n `min` (length xs - k))%nat /\
  drop (k + n) xs = zs /\ take (k + n `min` (length xs - k)) xs = ys ++ ms.
Proof.
intros Hk. exists (take k xs), (take n (drop k xs)), (drop (k + n) xs). rewrite !length_take, length_drop.
split_and!; [by rewrite <- drop_drop, !take_drop|done|lia|lia|done|].
rewrite take_take_drop. destruct (decide (n <= length xs - k)%nat); [by rewrite Nat.min_l by lia|].
rewrite Nat.min_r, (take_ge xs (k + n)), take_ge by lia. done.
Qed.

Lemma lpDeleteRangeWithEntry_ok lp xs k n :
packed lp xs -> (k < length xs)%nat -> 0 <= n ->
exists lp', lpDeleteRangeWithEntry lp (pos (take k xs)) n = inr (lp', at_pos (take k xs ++ drop (k + Z.to_nat n) xs) k) /\
  packed lp' (take k xs ++ drop (k + Z.to_nat n) xs).
Proof.
intros [num xs' slack Hwf Hsm Hc] Hk Hn. unfold lpDeleteRangeWithEntry, lpBytes. rewrite total_block by done. cbn [mbind result_bind].
destruct (Z.eqb_spec n 0) as [->|Hne].
{ eexists. rewrite Nat.add_0_r, take_drop, at_pos_Some by done. split; [reflexivity|by constructor]. }
rewrite range_end_ok by done. cbn [mbind result_bind]. rewrite Z.add_0_l.
destruct (three_parts xs' k (Z.to_nat n) ltac:(lia)) as (ys & ms & zs & Ex & -> & Hys & Hms & -> & ->). rewrite <- Hms, Ex in *. clear Ex.
pose proof (total_parts ys ms zs) as Ht. rewrite pos_app.
assert (block num (ys ++ ms ++ zs) slack = front num (total (ys ++ ms ++ zs)) ys ++ payload ms ++ (payload zs ++ [LP_EOF]) ++ slack) as ->.
{ rewrite block_split, payload_app, <- !app_assoc. done. }
pose proof (length_front num (total (ys ++ ms ++ zs)) ys) as HA.
destruct (move_gap_close (front num (total (ys ++ ms ++ zs)) ys) (payload ms) (payload zs ++ [LP_EOF]) slack (pos ys) (pos ys + len_ (payload ms))
  (total (ys ++ ms ++ zs) - 1 - (pos ys + len_ (payload ms)) + 1)) as (R & -> & _); [lia|lia|rewrite length_app; cbn [length]; lia|].
cbn [mbind result_bind]. unfold front. rewrite <- !app_assoc, set_total. cbn [mbind result_bind app].
destruct (finish_cut num ys ms zs (total (ys ++ ms ++ zs) - (pos ys + len_ (payload ms) - pos ys)) (R ++ slack) Hwf Hsm Hc) as (lp' & E & Hp'); [lia|].
destruct (packed_byte lp' (ys ++ zs) k Hp') as (b & Hb & Ea); [rewrite length_app; lia|]. rewrite take_app_length' in Hb, Ea by done.
revert E. destruct (lpGetNumElements _) as [|ne]; [done|]. cbn [mbind result_bind]. destruct (if negb _ then _ else _) as [|lp1]; [done|].
cbn [mbind result_bind]. intros ->. cbn [mbind result_bind]. rewrite Hb. cbn [mbind result_bind]. rewrite Ea. by eexists.
Qed.

(** The quick path of [lpDeleteRange]: everything behind [ys] goes. *)
Lemma truncate_ok num ys e zs slack :
Forall wf_entry (ys ++ e :: zs) -> total (ys ++ e :: zs) < 2 ^ 32 -> len_ ys < LP_HDR_NUMELE_UNKNOWN ->
exists lp', (lp ← put_bytes (block num (ys ++ e :: zs) slack) (pos ys) [LP_EOF];
  lp ← lpSetTotalBytes lp (pos ys + 1); lp ← lpSetNumElements lp (len_ ys); lpShrinkToFit lp) = inr lp' /\ packed lp' ys.
Proof.
intros Hwf Hsm Hl. pose proof (wf_here _ _ _ Hwf) as He. destruct (form_head _ _ (enc_form e He)) as (b & bs & E & _).
assert (exists R, block num (ys ++ e :: zs) slack = front num (total (ys ++ e :: zs)) ys ++ [b] ++ R) as [R ->].
{ rewrite block_split, payload_cons. unfold cell. rewrite E. cbn [app]. eexists. rewrite <- app_assoc. reflexivity. }
rewrite put_app by (by rewrite ?length_front). cbn [mbind result_bind]. unfold front. rewrite <- !app_assoc, set_total. cbn [mbind result_bind].
rewrite set_num. cbn [mbind result_bind]. apply packed_shrink.
pose proof (Packed (len_ ys) ys R) as Hp. unfold block, front in Hp. rewrite <- !app_assoc in Hp. apply Hp; [by apply Forall_app in Hwf as [? _]| |by right].
pose proof (total_parts ys [e] zs) as Ht. cbn [app] in Ht. unfold total in *. lia.
Qed.

(** [lpDeleteRange(lp, index, num)] removes [num] entries from the one at [index] on. *)
Definition without (xs : list entry) (index num : Z) : list entry :=
match position (length xs) index with None => xs | Some k => take k xs ++ drop (k + Z.to_nat num) xs end.

Lemma position_value n i k : position n i = Some k -> Z.of_nat k = if i <? 0 then Z.of_nat n + i else i.
Proof.
unfold position. destruct (_ && _) eqn:E; [|done]. intros [= <-]. to_prop. lia.
Qed.

Lemma lpDeleteRange_ok lp xs index n :
packed lp xs -> 0 <= n -> exists lp', lpDeleteRange lp index n = inr lp' /\ packed lp' (without xs index n).
Proof.
intros Hp Hn. unfold lpDeleteRange, without. destruct Hp as [num xs' slack Hwf Hsm Hc]. rewrite num_block by done. cbn [mbind result_bind].
destruct (Z.eqb_spec n 0) as [->|Hne].
{ eexists. split; [reflexivity|]. destruct (position _ _); [rewrite Nat.add_0_r, take_drop|]; by constructor. }
rewrite lpSeek_ok by done. cbn [mbind result_bind]. destruct (position (length xs') index) as [k|] eqn:Ep; cbn [mbind option_bind].
2: { eexists. split; [reflexivity|]. by constructor. }
pose proof (position_lt _ _ _ Ep) as Hk. apply position_value in Ep. rewrite at_pos_Some by done.
assert (exists lp', ('(lp, _) ← lpDeleteRangeWithEntry (block num xs' slack) (pos (take k xs')) n; mret lp) = inr lp' /\
  packed lp' (take k xs' ++ drop (k + Z.to_nat n) xs')) as Hslow.
{ destruct (lpDeleteRangeWithEntry_ok (block num xs' slack) xs' k n) as (lp' & -> & Hp'); [by constructor|done..|]. by eexists. }
destruct (Z.eqb_spec num LP_HDR_NUMELE_UNKNOWN) as [E|Hu]; cbn [negb andb]; [done|].
assert (num = len_ xs') as En by (destruct Hc; tauto).
assert ((if index <? 0 then num + index else index) = Z.of_nat k) as -> by by rewrite En.
pose proof (count_range _ _ Hc). rewrite wrap_u_id by (unfold in_u; lia).
destruct (Z.leb_spec (num - Z.of_nat k) n) as [Hall|]; [|done].
destruct (cut xs' k Hk) as (ys & e & zs & Ex & -> & _ & Hl). rewrite drop_ge, app_nil_r by lia. rewrite <- Hl, Ex in *.
apply truncate_ok; [done..|]. destruct Hc as [|[_ Hlt]]; [done|]. rewrite length_app in Hlt. lia.
Qed.

(** ** Batches *)

(** Deleted entries, each with the entries kept behind it. *)
Definition spans (gs : list (entry * list entry)) : list entry := concat ((fun g => g.1 :: g.2) <$> gs).
Definition kept (gs : list (entry * list entry)) : list entry := concat gs.*2.
(** The pointers to the deleted entries, the first one at [p]. *)
Fixpoint ptrs (p : Z) (gs : list (entry * list entry)) : list Z :=
match gs with [] => [] | g :: gs => p :: ptrs (p + len_ (payload (g.1 :: g.2))) gs end.

Lemma skip_any pre e post : wf_entry e -> lpSkip (pre ++ cell e ++ post) (len_ pre) = inr (len_ pre + len_ (cell e)).
Proof.
intros He. unfold lpSkip. rewrite len_cell. unfold cell. rewrite <- app_assoc, (form_size _ e) by by apply enc_form. done.
Qed.
Lemma byte_any pre e post : wf_entry e -> exists b, byte_at (pre ++ cell e ++ post) (len_ pre) = inr b /\ (b =? LP_EOF) = false.
Proof.
intros He. destruct (form_head _ _ (enc_form e He)) as (b & bs & E & Hb). exists b. unfold cell. rewrite E. cbn [app].
rewrite byte_at_app. unfold LP_EOF. split; [done|lia].
Qed.

(** [D] is done, [G] is the gap, and the spans still to be treated follow. *)
Lemma batch_loop_ok gs D G slack lp_end p dst :
gs <> [] -> Forall wf_entry (spans gs) -> p = len_ (D ++ G) -> dst = len_ D -> lp_end = p + len_ (payload (spans gs)) + 1 ->
exists R, batch_loop (D ++ G ++ payload (spans gs) ++ LP_EOF :: slack) lp_end dst (ptrs p gs) =
  inr (D ++ payload (kept gs) ++ LP_EOF :: R, dst + len_ (payload (kept gs)) + 1).
Proof.
revert D G slack p dst. induction gs as [|[e ms] gs IH]; [done|]. intros D G slack p dst _ Hwf Hp Hd Hend.
assert (spans ((e, ms) :: gs) = e :: ms ++ spans gs) as Es by done. assert (kept ((e, ms) :: gs) = ms ++ kept gs) as Ek by done.
rewrite Es, Ek in *. rewrite Forall_cons, Forall_app in Hwf. destruct Hwf as (He & Hms & Hgs).
cbn [ptrs batch_loop fst snd]. rewrite !payload_cons, !payload_app in *. rewrite !length_app in Hend.
assert (D ++ G ++ (cell e ++ payload ms ++ payload (spans gs)) ++ LP_EOF :: slack =
  (D ++ G) ++ cell e ++ payload ms ++ payload (spans gs) ++ LP_EOF :: slack) as E0 by by rewrite <- !app_assoc.
rewrite E0, Hp. destruct (byte_any (D ++ G) e (payload ms ++ payload (spans gs) ++ LP_EOF :: slack) He) as (b & -> & Eb).
cbn [mbind result_bind]. rewrite Eb. cbn [mbind result_bind negb assert]. rewrite skip_any by done. cbn [mbind result_bind].
destruct gs as [|[e' ms'] gs].
- (* the last span, moved with the end marker *)
  cbn [ptrs negb andb]. change (payload (spans [])) with (@nil Z) in *. change (kept []) with (@nil entry). rewrite app_nil_r. cbn [app length] in *.
  rewrite (proj2 (Z.ltb_lt _ _)) by lia. cbn [assert mbind result_bind].
  destruct (move_gap_close D (G ++ cell e) (payload ms ++ [LP_EOF]) slack dst (len_ (D ++ G) + len_ (cell e))
    (lp_end - (len_ (D ++ G) + len_ (cell e)))) as (R & E & _); [done|rewrite !length_app; lia|rewrite !length_app in *; cbn [length]; lia|].
  rewrite <- !app_assoc in E. rewrite <- !app_assoc. cbn [app] in E. rewrite E. cbn [mbind result_bind batch_loop mret result_ret].
  exists (R ++ slack). do 2 f_equal. rewrite !length_app in *. lia.
- set (gs' := (e', ms') :: gs) in *. remember (len_ (D ++ G) + len_ (cell e ++ payload ms)) as q eqn:Eq.
  assert (match ptrs q gs' with next :: _ => (false, next) | [] => (true, lp_end) end = (false, q)) as -> by done.
  rewrite (length_app (cell e)) in Eq. cbn [negb andb]. destruct (Z.eqb_spec (len_ (D ++ G) + len_ (cell e)) q) as [Ez|Hne].
  + assert (payload ms = []) as Em by (apply length_zero_iff_nil; lia). rewrite Em. cbn [app].
    destruct (IH D (G ++ cell e) slack q dst) as (R & E); [done|done|rewrite !length_app in *; lia|done|rewrite !length_app in *; lia|].
    rewrite <- !app_assoc in E. rewrite <- !app_assoc, E. by exists R.
  + rewrite (proj2 (Z.ltb_lt _ _)) by lia. cbn [assert mbind result_bind].
    destruct (move_gap_close D (G ++ cell e) (payload ms) (payload (spans gs') ++ LP_EOF :: slack) dst (len_ (D ++ G) + len_ (cell e))
      (q - (len_ (D ++ G) + len_ (cell e)))) as (R & E & HR); [done|rewrite !length_app; lia|lia|].
    rewrite <- !app_assoc in E. rewrite <- !app_assoc, E. cbn [mbind result_bind].
    replace (dst + (q - (len_ (D ++ G) + len_ (cell e)))) with (dst + len_ (payload ms)) by lia.
    destruct (IH (D ++ payload ms) R slack q (dst + len_ (payload ms))) as (R' & E');
      [done|done|rewrite !length_app in *; lia|rewrite length_app; lia|rewrite !length_app in *; lia|].
    exists R'. rewrite <- !app_assoc in E'. rewrite E', (length_app (payload ms)). do 2 f_equal; [by rewrite <- app_assoc|lia].
Qed.

Lemma length_ptrs p gs : length (ptrs p gs) = length gs.
Proof. revert p; induction gs; intros p; cbn; auto. Qed.

Lemma spans_split gs : len_ (payload (spans gs)) = len_ (payload (gs.*1)) + len_ (payload (kept gs)) /\ len_ (spans gs) = len_ gs + len_ (kept gs).
Proof.
induction gs as [|[e ms] gs [IH1 IH2]]; [done|].
change (spans ((e, ms) :: gs)) with (e :: ms ++ spans gs). change (kept ((e, ms) :: gs)) with (ms ++ kept gs).
rewrite fmap_cons, !payload_cons, !payload_app, !length_app. cbn [length fst]. rewrite length_app. lia.
Qed.

Lemma sublist_kept gs : Forall wf_entry (spans gs) -> Forall wf_entry (kept gs).
Proof.
induction gs as [|[e ms] gs IH]; [done|]. change (spans ((e, ms) :: gs)) with (e :: ms ++ spans gs). change (kept ((e, ms) :: gs)) with (ms ++ kept gs).
rewrite Forall_cons, !Forall_app. tauto.
Qed.

(** Deleting the entries [gs.*1] that the pointers name, in the order of the list. *)
Lemma lpBatchDelete_ok lp ys gs :
packed lp (ys ++ spans gs) -> exists lp', lpBatchDelete lp (ptrs (pos ys) gs) = inr lp' /\ packed lp' (ys ++ kept gs).
Proof.
intros Hp. destruct gs as [|g gs0]; [by exists lp|]. set (gs := g :: gs0) in *. unfold lpBatchDelete.
assert (exists q, ptrs (pos ys) gs = pos ys :: q) as [q E] by by eexists.
destruct (packed_inv _ _ Hp) as (num & slack & -> & Hwf & Hsm & Hc).
rewrite E. rewrite total_block by done. cbn [mbind result_bind].
replace (total (ys ++ spans gs) - 1) with (pos (ys ++ spans gs)) by (unfold total; lia). rewrite byte_end. cbn [mbind result_bind].
rewrite Z.eqb_refl. cbn [assert mbind result_bind]. rewrite <- E, block_split. apply Forall_app in Hwf as Hwf'. destruct Hwf' as [Hys Hgs].
pose proof (length_front num (total (ys ++ spans gs)) ys) as HA. pose proof (total_parts ys (spans gs) []) as Ht. rewrite app_nil_r in Ht.
change (payload []) with (@nil Z) in Ht. cbn [length] in Ht.
destruct (batch_loop_ok gs (front num (total (ys ++ spans gs)) ys) [] slack (total (ys ++ spans gs)) (pos ys) (pos ys)) as (R & Eb);
  [done|done|by rewrite app_nil_r|done|lia|]. cbn [app] in Eb. rewrite Eb. cbn [mbind result_bind].
destruct (spans_split gs) as [Hs1 Hs2]. rewrite length_ptrs.
set (t := total (ys ++ spans gs) - _). assert (t = total (ys ++ kept gs)) as Et by (unfold t, total; rewrite !pos_app; lia). clearbody t. subst t.
replace (total (ys ++ kept gs) - 1) with (len_ (front num (total (ys ++ spans gs)) (ys ++ kept gs))) by (rewrite length_front; unfold total; lia).
rewrite app_assoc, <- front_app, byte_at_app. cbn [mbind result_bind]. rewrite Z.eqb_refl. cbn [assert mbind result_bind].
unfold front. rewrite <- !app_assoc, set_total. cbn [mbind result_bind]. rewrite get_num by by eapply count_range. cbn [mbind result_bind].
assert (forall n, count_ok n (ys ++ kept gs) -> packed (le_bytes 4 (total (ys ++ kept gs)) ++ le_bytes 2 n ++ payload (ys ++ kept gs) ++ LP_EOF :: R) (ys ++ kept gs)) as Hpk.
{ intros n Hn. assert (packed (block n (ys ++ kept gs) R) (ys ++ kept gs)) as Hb; [|unfold block, front in Hb; by rewrite <- !app_assoc in Hb].
  constructor; [rewrite Forall_app; split; [done|by apply sublist_kept]|unfold total in *; rewrite !pos_app in *; lia|done]. }
destruct (Z.eqb_spec num LP_HDR_NUMELE_UNKNOWN) as [Eu|Hne]; cbn [negb]; cbn [mbind result_bind mret result_ret].
- apply packed_shrink, Hpk. by left.
- rewrite set_num. cbn [mbind result_bind]. apply packed_shrink, Hpk. destruct Hc as [|[En Hlt]]; [done|]. rewrite length_app in En, Hlt.
  rewrite wrap_u_id by (unfold in_u, LP_HDR_NUMELE_UNKNOWN in *; lia). right. rewrite length_app. lia.
Qed.

(** ** Copies and unions *)

Lemma read_front (a rest : bytes) n : n = len_ a -> read (Z.to_nat n) 0 (a ++ rest) = inr a.
Proof. intros ->. rewrite Nat2Z.id, read_ok by (rewrite length_app; lia). by rewrite drop_0, take_app_length. Qed.

Lemma read_at (a b rest : bytes) n off : length a = off -> n = len_ b -> read (Z.to_nat n) off (a ++ b ++ rest) = inr b.
Proof. intros <- ->. rewrite Nat2Z.id, read_ok by (rewrite !length_app; lia). by rewrite drop_app_length, take_app_length. Qed.

Lemma lpDup_ok lp xs : packed lp xs -> exists lp', lpDup lp = inr lp' /\ packed lp' xs.
Proof.
intros [num xs' slack Hwf Hsm Hc]. unfold lpDup, lpBytes. rewrite total_block by done. cbn [mbind result_bind].
unfold block. change (LP_EOF :: slack) with ([LP_EOF] ++ slack). rewrite app_assoc.
pose proof (length_front num (total xs') xs') as HA. set (a := front num (total xs') xs' ++ [LP_EOF]).
assert (len_ a = total xs') as Ha by (unfold a; rewrite length_app; cbn [length]; unfold total in *; lia).
rewrite read_front by done. cbn [mbind result_bind].
assert (length a <= length (lp_malloc (total xs')))%nat as Hl.
{ unfold lp_malloc. rewrite length_replicate. pose proof (usable_enough (Z.to_nat (total xs'))). lia. }
rewrite <- (take_drop (length a) (lp_malloc (total xs'))). eexists. split; [apply (put_app []); [done|rewrite length_take; lia]|]. cbn [app]. unfold a. rewrite <- app_assoc. cbn [app]. by apply (Packed num xs').
Qed.

(** The header of the union is written last. *)
(** The block, and the variable that holds it in the end. *)
Definition merged (append : bool) (lp : bytes) : option bytes * option bytes * option bytes :=
if append then (Some lp, Some lp, None) else (Some lp, None, Some lp).

Lemma merge_header append xs ys n t (h4 h2 R : bytes) :
length h4 = 4%nat -> length h2 = 2%nat -> Forall wf_entry (xs ++ ys) -> t = total (xs ++ ys) -> t < 2 ^ 32 -> count_ok n (xs ++ ys) ->
exists lp', (target ← lpSetNumElements (h4 ++ h2 ++ payload xs ++ payload ys ++ LP_EOF :: R) n; target ← lpSetTotalBytes target t;
    mret (merged append target)) = inr (merged append lp') /\
  packed lp' (xs ++ ys).
Proof.
intros H4 H2 Hwf -> Ht Hc. rewrite set_num_any by done. cbn [mbind result_bind]. rewrite set_total_any by done. cbn [mbind result_bind].
eexists. split; [reflexivity|]. pose proof (Packed n (xs ++ ys) R Hwf Ht Hc) as Hp. unfold block, front in Hp. by rewrite payload_app, <- !app_assoc in Hp.
Qed.

Lemma lpMerge_ok a b first second xs ys :
a <> b -> packed first xs -> packed second ys -> total (xs ++ ys) < UINT32_MAX ->
exists lp', lpMerge (Some (a, first)) (Some (b, second)) = inr (merged (total ys <=? total xs) lp') /\ packed lp' (xs ++ ys).
Proof.
intros Hab [n1 xs' s1 Hw1 Hs1 Hc1] [n2 ys' s2 Hw2 Hs2 Hc2] Hsm. unfold lpMerge, lpBytes. rewrite (proj2 (Z.eqb_neq a b)) by done. rewrite (total_block n1) by done. cbn [mbind result_bind].
destruct (lpLength_ok n1 xs' s1 Hw1 Hs1 Hc1) as (m1 & -> & Hm1). cbn [mbind result_bind]. rewrite (total_block n2) by done. cbn [mbind result_bind].
destruct (lpLength_ok n2 ys' s2 Hw2 Hs2 Hc2) as (m2 & -> & Hm2). cbn [mbind result_bind].
assert (total xs' + total ys' - LP_HDR_SIZE - 1 = total (xs' ++ ys')) as -> by (unfold total, LP_HDR_SIZE; rewrite pos_app; unfold pos; lia).
assert (Forall wf_entry (xs' ++ ys')) as Hwf by (by rewrite Forall_app).
assert (count_ok (if len_ xs' + len_ ys' <? 65535 then len_ xs' + len_ ys' else 65535) (xs' ++ ys')) as Hc.
{ unfold count_ok, LP_HDR_NUMELE_UNKNOWN. rewrite length_app. destruct (Z.ltb_spec (len_ xs' + len_ ys') 65535); [right|left]; lia. }
set (n := if _ <? 65535 then _ else _) in *. clearbody n.
rewrite (proj2 (Z.ltb_lt _ _)) by done. destruct (Z.leb_spec (total ys') (total xs')); cbn [assert mbind result_bind].
- (* the second is copied behind the first *)
  assert (exists S, lp_realloc (block m1 xs' s1) (total (xs' ++ ys')) = front m1 (total xs') xs' ++ S /\
    total (xs' ++ ys') <= len_ (front m1 (total xs') xs' ++ S)) as (S & -> & HS).
  { apply realloc_any. rewrite length_front. unfold total. rewrite pos_app. lia. }
  assert (block m2 ys' s2 = (le_bytes 4 (total ys') ++ le_bytes 2 m2) ++ (payload ys' ++ [LP_EOF]) ++ s2) as -> by (unfold block, front; by rewrite <- !app_assoc).
  rewrite (read_at _ (payload ys' ++ [LP_EOF])); [|by rewrite length_app, !length_le_bytes|rewrite length_app; unfold total, pos, LP_HDR_SIZE; cbn [length]; lia].
  cbn [mbind result_bind]. rewrite length_app, Nat2Z.inj_add, length_front in HS. unfold total in HS. rewrite pos_app in HS.
  rewrite <- (take_drop (length (payload ys' ++ [LP_EOF])) S).
  rewrite put_app; [|rewrite length_front; unfold total; lia|rewrite length_take, length_app; cbn [length]; lia].
  cbn [mbind result_bind]. unfold front. rewrite <- !app_assoc. cbn [app].
  by apply (merge_header true); rewrite ?length_le_bytes; try done; unfold UINT32_MAX in *; lia.
- (* the first is copied in front of the second *)
  set (A := le_bytes 4 (total ys') ++ le_bytes 2 m2). assert (length A = 6%nat) as HA by (unfold A; by rewrite length_app, !length_le_bytes).
  set (B := payload ys' ++ [LP_EOF]). assert (len_ B = total ys' - 6) as HB by (unfold B, total, pos; rewrite length_app; cbn [length]; lia).
  assert (block m2 ys' s2 = (A ++ B) ++ s2) as -> by (unfold block, front, A, B; by rewrite <- !app_assoc).
  assert (total (xs' ++ ys') = total xs' + total ys' - 7) as Et by (unfold total; rewrite pos_app; unfold pos; lia).
  pose proof (pos_ge xs') as Hx.
  destruct (realloc_any (A ++ B) s2 (total (xs' ++ ys'))) as (S & -> & HS); [rewrite length_app; unfold total in *; lia|].
  rewrite <- app_assoc in *. unfold LP_HDR_SIZE. rewrite !length_app in HS.
  destruct (move_gap A [] B S (total xs' - 1) 6 (total ys' - 6) (length (payload xs'))) as (X & R & E & HX & _);
    [unfold total, pos; lia|rewrite HA; done|lia|rewrite app_nil_l, length_app; unfold total, pos in *; lia|].
  cbn [app] in E. rewrite E. cbn [mbind result_bind].
  unfold block. rewrite read_front by (rewrite length_front; unfold total; lia). cbn [mbind result_bind].
  rewrite app_assoc. rewrite (put_front (A ++ X)); [|pose proof (length_front m1 (total xs') xs'); unfold pos in *; rewrite length_app; lia].
  cbn [mbind result_bind app]. unfold front, B. rewrite <- !app_assoc. cbn [app].
  by apply (merge_header false); rewrite ?length_le_bytes; try done; unfold UINT32_MAX in *; lia.
Qed.
End Bulk.

(** ** Validation *)

Lemma validate_entries_ok num xs slack fuel k c :
  Forall wf_entry xs -> total xs < 2 ^ 32 -> count_ok num xs -> (length xs - k <= fuel)%nat -> (k <= length xs)%nat -> 0 <= c -> c + Z.of_nat (length xs - k) < 2 ^ 32 ->
  validate_entries fuel (block num xs slack) (total xs) num (fun _ _ => true) (Some (pos (take k xs))) c =
  inr (Some (Some (pos xs), c + Z.of_nat (length xs - k))).
Proof.
  intros Hwf Hsm Hc. revert k c. induction fuel as [|fuel IH]; intros k c Hf Hk H0 Hb;
    destruct (entry_or_end num xs slack Hwf Hsm Hc k Hk) as (b & Eb & E); cbn [validate_entries]; rewrite Eb; cbn [mbind result_bind]; rewrite E;
    destruct (Nat.leb_spec (length xs) k); try lia.
  1, 2: rewrite take_ge by lia; replace (length xs - k)%nat with 0%nat by lia; cbn; do 3 f_equal; lia.
  destruct (cut xs k ltac:(lia)) as (ys & e & zs & Ex & Et & Et' & Hl). rewrite Et.
  assert (lpValidateNext (block num xs slack) (Some (pos ys)) (total xs) = inr (true, Some (pos (ys ++ [e])))) as -> by (rewrite Ex in *; by apply valid_entry).
  cbn [mbind result_bind negb]. rewrite <- Et', wrap_u_id by (unfold in_u; lia). rewrite IH by lia. do 3 f_equal. lia.
Qed.

Lemma lpValidateIntegrity_ok lp xs : packed lp xs -> lpValidateIntegrity lp (total xs) true (fun _ _ => true) = inr true.
Proof.
  intros [num xs' slack Hwf Hsm Hc]. unfold lpValidateIntegrity. pose proof (pos_ge xs') as Hp.
  rewrite (proj2 (Z.ltb_ge _ _)) by (unfold LP_HDR_SIZE, total; lia). rewrite total_block by done. cbn [mbind result_bind].
  rewrite Z.eqb_refl. cbn [negb]. replace (total xs' - 1) with (pos xs') by (unfold total; lia). rewrite byte_end. cbn [mbind result_bind].
  rewrite Z.eqb_refl. cbn [negb]. rewrite num_block by done. cbn [mbind result_bind].
  pose proof (length_small xs' Hwf). pose proof (length_block num xs' slack).
  pose proof (validate_entries_ok num xs' slack (length (block num xs' slack)) 0 0 Hwf Hsm Hc) as E. rewrite take_0 in E.
  change (pos []) with LP_HDR_SIZE in E. rewrite E by lia. cbn [mbind result_bind]. rewrite bool_decide_true by done. cbn [negb].
  destruct Hc as [->|[-> _]]; [done|]. rewrite Z.add_0_l, Nat.sub_0_r, Z.eqb_refl, orb_true_r. done.
Qed.

(** C37: The operations on whole listpacks.  Given a listpack that holds [ys] followed by the
    spans [gs], each a doomed entry with the entries kept behind it, [lpBatchDelete] with the
    pointers to the doomed entries leaves [ys] and the kept entries in order; [lpDup] makes a
    block with the same entries; [lpMerge] with a listpack at another address gives the
    concatenation when its size can be stored, in the variable of the larger one, and does nothing
    when the two are one or one of them is missing; and the deep integrity check accepts the block. *)
Theorem listpack_bulk_correct `{Allocator} (lp1 lp2 : bytes) (ys zs : list entry) (gs : list (entry * list entry)) :
  packed lp1 (ys ++ spans gs) -> packed lp2 zs ->
  (exists lp', lpBatchDelete lp1 (ptrs (pos ys) gs) = inr lp' /\ packed lp' (ys ++ kept gs)) /\
  (exists lp', lpDup lp1 = inr lp' /\ packed lp' (ys ++ spans gs)) /\
  (forall a b, a <> b -> total ((ys ++ spans gs) ++ zs) < UINT32_MAX ->
    exists lp', lpMerge (Some (a, lp1)) (Some (b, lp2)) = inr (merged (total zs <=? total (ys ++ spans gs)) lp') /\ packed lp' ((ys ++ spans gs) ++ zs)) /\
  (forall a, lpMerge (Some (a, lp1)) (Some (a, lp2)) = inr (None, Some lp1, Some lp2) /\
    lpMerge (Some (a, lp1)) None = inr (None, Some lp1, None) /\ lpMerge None (Some (a, lp1)) = inr (None, None, Some lp1)) /\
  lpValidateIntegrity lp1 (total (ys ++ spans gs)) true (fun _ _ => true) = inr true.
Proof.
  intros H1 H2. split; [by apply lpBatchDelete_ok|]. split; [by apply lpDup_ok|]. split; [intros; by apply lpMerge_ok|].
  split; [|by apply lpValidateIntegrity_ok]. intros a. cbn [lpMerge]. by rewrite Z.eqb_refl.
Qed.

Lemma listpack_bulk_correct_witness :
  let ys := [EInt 5] in let gs := [(EStr [97], []); (EInt 300, [EStr [98]; EInt (-1)])] in
  let lp1 := block 5 (ys ++ spans gs) [0; 0; 0] in let lp2 := block LP_HDR_NUMELE_UNKNOWN [EStr [99]] [] in
  (exists lp', @lpBatchDelete rounding lp1 (ptrs (pos ys) gs) = inr lp' /\ packed lp' (ys ++ kept gs)) /\
  (exists lp', @lpDup rounding lp1 = inr lp' /\ packed lp' (ys ++ spans gs)) /\
  (forall a b, a <> b -> total ((ys ++ spans gs) ++ [EStr [99]]) < UINT32_MAX ->
    exists lp', @lpMerge rounding (Some (a, lp1)) (Some (b, lp2)) = inr (merged (total [EStr [99]] <=? total (ys ++ spans gs)) lp') /\ packed lp' ((ys ++ spans gs) ++ [EStr [99]])) /\
  (forall a, @lpMerge rounding (Some (a, lp1)) (Some (a, lp2)) = inr (None, Some lp1, Some lp2) /\
    @lpMerge rounding (Some (a, lp1)) None = inr (None, Some lp1, None) /\ @lpMerge rounding None (Some (a, lp1)) = inr (None, None, Some lp1)) /\
  lpValidateIntegrity lp1 (total (ys ++ spans gs)) true (fun _ _ => true) = inr true.
Proof.
  intros ys gs lp1 lp2. apply (@listpack_bulk_correct rounding lp1 lp2 ys [EStr [99]] gs).
  - apply Packed; [repeat constructor; by_decide|vm_compute; reflexivity|right; split; vm_compute; reflexivity].
  - apply Packed; [repeat constructor; by_decide|vm_compute; reflexivity|left; reflexivity].
Defined.
