(* ===== verification/ListpackRun.v ===== *)
(** * Listpacks implement lists of strings

    Sequences of client operations on a listpack against the list of the strings it holds.
    A client finds an entry by its index ([lpSeek]) or by its text ([lpFind], as the hash
    type does to find a field and then its value), and works on it. *)

From S2P Require Import Prelude Bytes NumString NumStringFacts Listpack ListpackCodec ListpackLayout ListpackRead ListpackInsert ListpackBulk.

Inductive lp_op :=
| LpAppend (s : bytes) | LpAppendInteger (v : Z) | LpPrepend (s : bytes) | LpPrependInteger (v : Z)
| LpInsert (index : Z) (s : bytes) (w : whereto) | LpInsertInteger (index v : Z) (w : whereto)
| LpDelete (index : Z) | LpDeleteRange (index num : Z)
| LpGet (index : Z) | LpCompare (index : Z) (s : bytes) | LpLength | LpFindNext (s : bytes) (skip : nat).

Inductive answer := Done | Refused | NoEntry | Text (s : bytes) | Count (n : Z) | Same (b : bool).

Section Run.
Context `{Allocator}.

(** ** On the block *)

(** The string form of an entry. *)
Definition get_text (lp : bytes) (p : Z) : result bytes :=
g ← lpGet lp p (Some (replicate LP_INTBUF_SIZE junk));
match g with
| GotBuf b n => mret (take (Z.to_nat n) b)
| GotPtr q n => read (Z.to_nat n) (Z.to_nat q) lp
| GotInt _ => inl UndefinedBehaviour
end.
(** The result of an insertion; the old block stays when it is refused. *)
Definition inserted (lp : bytes) (r : result (option (bytes * option Z))) : result (bytes * answer) :=
o ← r; mret (match o with Some (lp', _) => (lp', Done) | None => (lp, Refused) end).
Definition at_index (lp : bytes) (index : Z) (f : Z -> result (bytes * answer)) : result (bytes * answer) :=
p ← lpSeek lp index; match p with None => mret (lp, NoEntry) | Some p => f p end.

Definition lp_run_op (lp : bytes) (o : lp_op) : result (bytes * answer) :=
match o with
| LpAppend s => inserted lp (lpAppend lp s)
| LpAppendInteger v => inserted lp (lpAppendInteger lp v)
| LpPrepend s => inserted lp (lpPrepend lp s)
| LpPrependInteger v => inserted lp (lpPrependInteger lp v)
| LpInsert i s w => at_index lp i (fun p => inserted lp (lpInsertString lp s p w))
| LpInsertInteger i v w => at_index lp i (fun p => inserted lp (lpInsertInteger lp v p w))
| LpDelete i => at_index lp i (fun p => inserted lp (lpDelete lp p))
| LpDeleteRange i n => lp ← lpDeleteRange lp i n; mret (lp, Done)
| LpGet i => at_index lp i (fun p => t ← get_text lp p; mret (lp, Text t))
| LpCompare i s => at_index lp i (fun p => b ← lpCompare lp p s; mret (lp, Same b))
| LpLength => '(n, lp) ← lpLength lp; mret (lp, Count n)
| LpFindNext s skip =>
    p ← lpFirst lp;
    match p with
    | None => mret (lp, NoEntry)
    | Some p =>
        q ← lpFind lp p s skip;
        match q with
        | None => mret (lp, NoEntry)
        | Some q =>
            r ← lpNext lp q;
            match r with None => mret (lp, NoEntry) | Some r => t ← get_text lp r; mret (lp, Text t) end
        end
    end
end.
Fixpoint lp_run (lp : bytes) (os : list lp_op) : result (bytes * list answer) :=
match os with
| [] => mret (lp, [])
| o :: os => '(lp, a) ← lp_run_op lp o; '(lp, as_) ← lp_run lp os; mret (lp, a :: as_)
end.

(** ** On the list of strings *)

(** A list is refused when its block would have 2^32 bytes or more. *)
Definition offer (ts ts' : list bytes) : list bytes * answer :=
if UINT32_MAX <? total (norm <$> ts') then (ts, Refused) else (ts', Done).
Definition put_at (ts : list bytes) (i : Z) (s : bytes) (w : whereto) : list bytes * answer :=
match position (length ts) i with
| None => (ts, NoEntry)
| Some k =>
    offer ts (match w with
              | LP_BEFORE => take k ts ++ s :: drop k ts
              | LP_AFTER => take (S k) ts ++ s :: drop (S k) ts
              | LP_REPLACE => take k ts ++ s :: drop (S k) ts
              end)
end.
Definition look_at (ts : list bytes) (i : Z) (f : bytes -> answer) : list bytes * answer :=
(ts, match position (length ts) i ≫= fun k => ts !! k with Some t => f t | None => NoEntry end).

Definition lp_spec_op (ts : list bytes) (o : lp_op) : list bytes * answer :=
match o with
| LpAppend s => offer ts (ts ++ [s])
| LpAppendInteger v => offer ts (ts ++ [decimal v])
| LpPrepend s => offer ts (s :: ts)
| LpPrependInteger v => offer ts (decimal v :: ts)
| LpInsert i s w => put_at ts i s w
| LpInsertInteger i v w => put_at ts i (decimal v) w
| LpDelete i => match position (length ts) i with None => (ts, NoEntry) | Some k => (delete k ts, Done) end
| LpDeleteRange i n =>
    (match position (length ts) i with None => ts | Some k => take k ts ++ drop (k + Z.to_nat n) ts end, Done)
| LpGet i => look_at ts i Text
| LpCompare i s => look_at ts i (fun t => Same (same t s))
| LpLength => (ts, Count (Z.of_nat (length ts)))
| LpFindNext s skip =>
    (ts, match search skip 0 s ts ≫= fun k => ts !! S k with Some t => Text t | None => NoEntry end)
end.
Fixpoint lp_spec (ts : list bytes) (os : list lp_op) : list bytes * list answer :=
match os with
| [] => (ts, [])
| o :: os => let '(ts, a) := lp_spec_op ts o in let '(ts, as_) := lp_spec ts os in (ts, a :: as_)
end.

(** Arguments of the C types. *)
Definition arg_string (s : bytes) : Prop := is_bytes s /\ len_ s < 2 ^ 32.
Definition valid_op (o : lp_op) : Prop :=
match o with
| LpAppend s | LpPrepend s | LpInsert _ s _ => arg_string s
| LpAppendInteger v | LpPrependInteger v | LpInsertInteger _ v _ => in_s 64 v
| LpDeleteRange _ n => 0 <= n
| _ => True
end.

(** ** Simulation *)

Definition simulated (lp : bytes) (ts : list bytes) (o : lp_op) : Prop :=
exists lp', lp_run_op lp o = inr (lp', (lp_spec_op ts o).2) /\ packed lp' (norm <$> (lp_spec_op ts o).1).

Lemma inserted_ok lp ts ts' r newp :
packed lp (norm <$> ts) -> edits r (norm <$> ts') newp ->
exists lp', inserted lp r = inr (lp', (offer ts ts').2) /\ packed lp' (norm <$> (offer ts ts').1).
Proof.
intros Hp [[Hbig ->]|(Hfit & lp' & -> & Hp')]; unfold offer.
- rewrite (proj2 (Z.ltb_lt _ _)) by done. by exists lp.
- rewrite (proj2 (Z.ltb_ge _ _)) by done. by exists lp'.
Qed.

Lemma norm_int v : in_s 64 v -> EInt v = norm (decimal v).
Proof. intros Hv. by rewrite <- (norm_text (EInt v)). Qed.

Lemma append_ok lp xs ele e : packed lp xs -> insertable e -> encode_element ele = stored_of (Some e) ->
exists newp, edits (t ← lpGetTotalBytes lp; lpInsert lp ele (t - 1) LP_BEFORE) (xs ++ [e]) newp.
Proof.
intros Hp Hi He. exists (Some (pos (take (length xs) xs))).
pose proof (lpInsert_before lp xs Hp (length xs) ele e ltac:(lia) Hi He) as Hed. rewrite firstn_all, drop_all in *.
destruct Hp as [num xs slack Hwf Hsm Hc]. rewrite total_block by done. cbn [mbind result_bind].
by replace (total xs - 1) with (pos xs) by (unfold total; lia).
Qed.

Lemma prepend_ok lp xs ele e : packed lp xs -> insertable e -> encode_element ele = stored_of (Some e) ->
exists newp, edits (p ← lpFirst lp; match p with None => t ← lpGetTotalBytes lp; lpInsert lp ele (t - 1) LP_BEFORE | Some p => lpInsert lp ele p LP_BEFORE end)
  (e :: xs) newp.
Proof.
intros [num xs' slack Hwf Hsm Hc] Hi He. pose proof (Packed num xs' slack Hwf Hsm Hc) as Hp. rewrite lpFirst_ok by done. cbn [mbind result_bind]. destruct xs' as [|x xs'].
- rewrite at_pos_None by done. by apply (append_ok _ []).
- rewrite at_pos_Some by (cbn; lia). exists (Some (pos (take 0 (x :: xs')))). by apply (lpInsert_before _ (x :: xs') Hp 0); [lia|..].
Qed.

Lemma fmap_put (ts : list bytes) k l (s : bytes) : norm <$> (take k ts ++ s :: drop l ts) = take k (norm <$> ts) ++ norm s :: drop l (norm <$> ts).
Proof. by rewrite fmap_app, fmap_cons, fmap_take, fmap_drop. Qed.

Lemma put_at_ok lp ts i ele s w :
packed lp (norm <$> ts) -> insertable (norm s) -> encode_element ele = stored_of (Some (norm s)) ->
exists lp', at_index lp i (fun p => inserted lp (lpInsert lp ele p w)) = inr (lp', (put_at ts i s w).2) /\ packed lp' (norm <$> (put_at ts i s w).1).
Proof.
intros Hp Hi He. unfold at_index, put_at. assert (lpSeek lp i = inr (position (length ts) i ≫= at_pos (norm <$> ts))) as ->.
{ destruct (packed_inv _ _ Hp) as (num & slack & -> & Hwf & Hsm & Hc). rewrite lpSeek_ok by done. by rewrite length_fmap. }
cbn [mbind result_bind]. destruct (position (length ts) i) as [k|] eqn:Ep; cbn [mbind option_bind]; [|by exists lp].
pose proof (position_lt _ _ _ Ep) as Hk. assert (k < length (norm <$> ts))%nat as Hk' by by rewrite length_fmap. rewrite at_pos_Some by done.
destruct w; (eapply inserted_ok; [done|]); rewrite fmap_put.
- apply lpInsert_before; [done|lia|done..].
- by apply lpInsert_after.
- by apply lpInsert_replace.
Qed.

Lemma get_text_ok lp xs k e : packed lp xs -> xs !! k = Some e -> get_text lp (pos (take k xs)) = inr (text e).
Proof.
intros [num xs' slack Hwf Hsm Hc] Hk. unfold get_text.
destruct (lpGet_text num xs' slack Hwf k e (replicate LP_INTBUF_SIZE junk) Hk) as (g & -> & Hg); [by rewrite length_replicate|].
cbn [mbind result_bind]. destruct g as [|q n|b n]; [done| |by rewrite Hg]. destruct Hg as [-> Hr]. by rewrite Nat2Z.id.
Qed.

Lemma at_text (ts : list bytes) k t : ts !! k = Some t -> (norm <$> ts) !! k = Some (norm t).
Proof. intros E. by rewrite list_lookup_fmap, E. Qed.

(** Operations that only read the entry at an index. *)
Lemma look_at_ok lp ts i (f : Z -> result (bytes * answer)) (g : bytes -> answer) :
packed lp (norm <$> ts) -> (forall k t, ts !! k = Some t -> f (pos (take k (norm <$> ts))) = inr (lp, g t)) ->
exists lp', at_index lp i f = inr (lp', (look_at ts i g).2) /\ packed lp' (norm <$> (look_at ts i g).1).
Proof.
intros Hp Hf. exists lp. split; [|done]. unfold at_index, look_at. cbn [fst snd].
assert (lpSeek lp i = inr (position (length ts) i ≫= at_pos (norm <$> ts))) as ->.
{ destruct (packed_inv _ _ Hp) as (num & slack & -> & Hwf & Hsm & Hc). rewrite lpSeek_ok by done. by rewrite length_fmap. }
cbn [mbind result_bind]. destruct (position (length ts) i) as [k|] eqn:Ep; cbn [mbind option_bind]; [|done].
destruct (lookup_lt_is_Some_2 ts k (position_lt _ _ _ Ep)) as [t Ht]. rewrite Ht, at_pos_Some by (rewrite length_fmap; by eapply position_lt).
by apply Hf.
Qed.

Lemma search_lt skip cnt s ts k : search skip cnt s ts = Some k -> (k < length ts)%nat.
Proof.
revert cnt k. induction ts as [|t ts IH]; intros cnt k; [by destruct cnt|]. cbn [search length].
destruct cnt; [destruct (same t s); [intros [= <-]; lia|]|]; (destruct (search _ _ s ts) eqn:E; [|done]); intros [= <-]; apply IH in E; lia.
Qed.

Lemma find_next_ok lp ts s skip : packed lp (norm <$> ts) -> simulated lp ts (LpFindNext s skip).
Proof.
intros Hp. exists lp. split; [|done]. cbn [lp_run_op lp_spec_op fst snd].
assert (text <$> (norm <$> ts) = ts) as Et.
{ rewrite <- list_fmap_compose. rewrite <- (list_fmap_id ts) at 2. apply list_fmap_ext. intros i t _. apply text_norm. }
pose proof (fun k e => get_text_ok lp (norm <$> ts) k e Hp) as Hget. remember (norm <$> ts) as xs eqn:Ex.
destruct (packed_inv _ _ Hp) as (num & slack & -> & Hwf & Hsm & Hc).
rewrite lpFirst_ok by done. cbn [mbind result_bind]. destruct (decide (length xs = 0)%nat) as [E0|Hne].
{ apply length_zero_iff_nil in E0 as E0'. rewrite <- Et, at_pos_None, E0' by lia. done. }
rewrite at_pos_Some, lpFind_ok by (done || lia). cbn [mbind result_bind]. rewrite drop_0, Et.
destruct (search skip 0 s ts) as [k|] eqn:Es; cbn [fmap option_fmap option_map mbind option_bind result_bind Nat.add]; [|done].
assert (length xs = length ts) as El by by rewrite Ex, length_fmap. pose proof (search_lt _ _ _ _ _ Es) as Hk.
rewrite lpNext_ok by (done || lia). cbn [mbind result_bind]. destruct (ts !! S k) as [t|] eqn:Et'.
- pose proof (lookup_lt_Some _ _ _ Et'). rewrite at_pos_Some by lia. rewrite (Hget (S k) (norm t)) by (rewrite Ex; by apply at_text).
  cbn. by rewrite text_norm.
- apply lookup_ge_None in Et'. by rewrite at_pos_None by lia.
Qed.

Lemma delete_ok_at lp ts i : packed lp (norm <$> ts) -> simulated lp ts (LpDelete i).
Proof.
intros Hp. unfold simulated. cbn [lp_run_op lp_spec_op]. unfold at_index.
assert (lpSeek lp i = inr (position (length ts) i ≫= at_pos (norm <$> ts))) as ->.
{ destruct (packed_inv _ _ Hp) as (num & slack & -> & Hwf & Hsm & Hc). rewrite lpSeek_ok by done. by rewrite length_fmap. }
cbn [mbind result_bind]. destruct (position (length ts) i) as [k|] eqn:Ep; cbn [mbind option_bind]; [|by exists lp].
pose proof (position_lt _ _ _ Ep) as Hk. rewrite at_pos_Some by by rewrite length_fmap.
destruct (lpDelete_ok lp (norm <$> ts) Hp k) as (lp' & E & Hp'); [by rewrite length_fmap|]. rewrite E. cbn. exists lp'. split; [done|].
by rewrite list_fmap_delete.
Qed.

Lemma lp_run_op_ok lp ts o : packed lp (norm <$> ts) -> valid_op o -> simulated lp ts o.
Proof.
intros Hp Hv. destruct o; cbn [valid_op] in Hv; auto using find_next_ok, delete_ok_at; unfold simulated; cbn [lp_run_op lp_spec_op].
- destruct Hv as [Hs Hl]. destruct (append_ok lp (norm <$> ts) (ElStr s) (norm s)) as (newp & He); [done|by apply norm_insertable|apply encode_str|].
  eapply inserted_ok; [done|]. rewrite fmap_app. exact He.
- destruct (append_ok lp (norm <$> ts) (ElInt (lpEncodeIntegerGetType v)) (EInt v)) as (newp & He); [done..|].
  eapply inserted_ok; [done|]. rewrite fmap_app. rewrite (norm_int v Hv) in He. exact He.
- destruct Hv as [Hs Hl]. destruct (prepend_ok lp (norm <$> ts) (ElStr s) (norm s)) as (newp & He); [done|by apply norm_insertable|apply encode_str|].
  eapply inserted_ok; [done|]. exact He.
- destruct (prepend_ok lp (norm <$> ts) (ElInt (lpEncodeIntegerGetType v)) (EInt v)) as (newp & He); [done..|].
  eapply inserted_ok; [done|]. rewrite (norm_int v Hv) in He. exact He.
- destruct Hv as [Hs Hl]. apply put_at_ok; [done|by apply norm_insertable|apply encode_str].
- apply put_at_ok; [done| |]; rewrite <- norm_int by done; done.
- destruct (lpDeleteRange_ok lp (norm <$> ts) index num Hp Hv) as (lp' & -> & Hp'). exists lp'. split; [done|]. cbn [fst].
  unfold without in Hp'. rewrite length_fmap in Hp'. destruct (position _ _); [|done]. by rewrite fmap_app, fmap_take, fmap_drop.
- apply look_at_ok; [done|]. intros k t Ht. rewrite (get_text_ok _ _ _ (norm t)) by (done || by apply at_text). cbn. by rewrite text_norm.
- apply look_at_ok; [done|]. intros k t Ht. destruct (packed_inv _ _ Hp) as (num & slack & -> & Hwf & Hsm & Hc).
  rewrite (lpCompare_ok _ _ _ Hwf Hsm Hc k (norm t)) by by apply at_text. cbn [mbind result_bind mret result_ret]. by rewrite text_norm.
- destruct (packed_inv _ _ Hp) as (num & slack & -> & Hwf & Hsm & Hc).
  destruct (lpLength_ok num (norm <$> ts) slack Hwf Hsm Hc) as (num' & -> & Hc'). cbn. eexists. split; [by rewrite length_fmap|]. by constructor.
Qed.

Lemma lp_run_ok lp ts os : packed lp (norm <$> ts) -> Forall valid_op os ->
exists lp', lp_run lp os = inr (lp', (lp_spec ts os).2) /\ packed lp' (norm <$> (lp_spec ts os).1).
Proof.
intros Hp Hv. revert lp ts Hp. induction Hv as [|o os Ho _ IH]; intros lp ts Hp; cbn [lp_run lp_spec]; [by exists lp|].
destruct (lp_run_op_ok lp ts o Hp Ho) as (lp1 & -> & Hp1). destruct (lp_spec_op ts o) as [ts1 a]. cbn [mbind result_bind fst snd] in *.
destruct (IH lp1 ts1 Hp1) as (lp2 & -> & Hp2). destruct (lp_spec ts1 os) as [ts2 as_]. by exists lp2.
Qed.
End Run.

(** C14: listpack.c implements lists of strings.  Start from [lpNew] and run any sequence of
    appends, prepends, insertions, replacements and deletions at an index, range deletions,
    and look-ups by index, by text and of the text behind a match.  Whatever the allocator's
    rounding, no byte outside of the block is read or written, no assertion fails, and the
    answers are those of the list of strings: a string is given back as it was stored, also
    when it was stored as an integer; an insertion is refused exactly when the block would
    have 2^32 bytes or more.  The final block holds the final list. *)
Theorem listpack_refines_list `{Allocator} (capacity : Z) (os : list lp_op) :
  Forall valid_op os ->
  exists lp, (lp ← lpNew capacity; lp_run lp os) = inr (lp, (lp_spec [] os).2) /\ packed lp (norm <$> (lp_spec [] os).1).
Proof.
  intros Hv. destruct (lpNew_ok capacity) as (lp & -> & Hp). cbn [mbind result_bind]. by apply lp_run_ok.
Qed.

Definition sample_ops : list lp_op :=
  [LpAppend [102]; LpAppend [49; 50; 56]; LpPrepend [118; 120]; LpInsertInteger (-1) (-70000) LP_BEFORE; LpInsert 0 [45; 48] LP_AFTER;
   LpLength; LpGet 3; LpCompare 4 [49; 50; 56]; LpFindNext [102] 0; LpDelete 1; LpDeleteRange 1 2; LpGet (-1); LpGet 7].

Lemma listpack_refines_list_witness :
  lp_spec [] sample_ops =
    ([[118; 120]; [49; 50; 56]],
     [Done; Done; Done; Done; Done; Count 5; Text [45; 55; 48; 48; 48; 48]; Same true; Text [45; 55; 48; 48; 48; 48]; Done; Done; Text [49; 50; 56]; NoEntry]) /\
  exists lp, (lp ← @lpNew rounding 16; @lp_run rounding lp sample_ops) = inr (lp, (lp_spec [] sample_ops).2) /\
    packed lp (norm <$> (lp_spec [] sample_ops).1).
Proof.
  split; [vm_compute; reflexivity|]. apply (@listpack_refines_list rounding 16 sample_ops). repeat constructor; by_decide.
Defined.
