(* ===== verification/Lzf.v ===== *)
(** * LZF compression

    [lzf_compress] of [lzf_c.c] and [lzf_decompress] of [lzf_d.c], with which Redis packs
    strings in its dump files and the inner nodes of its quicklists; the options are those of
    [lzfP.h] ([HLOG] 16, [VERY_FAST], [INIT_HTAB] 0, [CHECK_INPUT] 1).  The input and the
    output are byte blocks, pointers are offsets from their starts.  The hash table of
    positions is a local array that nobody initialises: its first contents are a parameter. *)

From S2P Require Import Prelude Bytes.

Definition HLOG : Z := 16.
Definition HSIZE : Z := Z.shiftl 1 HLOG.
Definition MAX_LIT : Z := Z.shiftl 1 5.
Definition MAX_OFF : Z := Z.shiftl 1 13.
Definition MAX_REF : Z := Z.shiftl 1 8 + Z.shiftl 1 3.

Definition FRST (d : bytes) (p : Z) : result Z := a ← byte_at d p; b ← byte_at d (p + 1); mret (Z.lor (Z.shiftl a 8) b).
Definition NEXT (v : Z) (d : bytes) (p : Z) : result Z := c ← byte_at d (p + 2); mret (Z.lor (u32 (Z.shiftl v 8)) c).
Definition IDX (h : Z) : Z := Z.land (u32 (Z.shiftr h (3 * 8 - HLOG) - h * 5)) (HSIZE - 1).

(** The slots hold pointers into the input, or whatever was on the stack. *)
Definition LZF_STATE : Type := Z -> Z.
Definition set_slot (t : LZF_STATE) (i p : Z) : LZF_STATE := fun j => if j =? i then p else t j.

Record comp := mk_comp { ip : Z; op : Z; lit : Z; hval : Z; htab : LZF_STATE; out : bytes }.

(** [op [- lit - 1] = lit - 1;] *)
Definition stop_run (s : comp) : result bytes := put_bytes (out s) (op s - lit s - 1) [u8 (lit s - 1)].

(** [n] times [len++; if (ref [len] != ip [len]) break;]: whether it left, and [len]. *)
Fixpoint unrolled (n : nat) (d : bytes) (ref ip len : Z) : result (bool * Z) :=
  match n with
  | O => mret (false, len)
  | S n =>
      let len := len + 1 in
      x ← byte_at d (ref + len); y ← byte_at d (ip + len);
      if x =? y then unrolled n d ref ip len else mret (true, len)
  end.
(** [do len++; while (len < maxlen && ref[len] == ip[len]);] *)
Fixpoint extend (fuel : nat) (d : bytes) (ref ip maxlen len : Z) : result Z :=
  match fuel with
  | O => inl OutOfFuel
  | S fuel =>
      let len := len + 1 in
      if len <? maxlen then
        x ← byte_at d (ref + len); y ← byte_at d (ip + len);
        if x =? y then extend fuel d ref ip maxlen len else mret len
      else mret len
  end.
Definition match_len (d : bytes) (ref ip maxlen : Z) : result Z :=
  '(broke, len) ← (if 16 <? maxlen then unrolled 16 d ref ip 2 else mret (false, 2));
  if (broke : bool) then mret len else extend (Z.to_nat MAX_REF) d ref ip maxlen len.

(** A step that may be a [return 0;], which leaves the output block as it is then. *)
Inductive step (A : Type) := Return0 (o : bytes) | Next (a : A).
Arguments Return0 {_} _.
Arguments Next {_} _.

(** The look-up of a match: the state with the slot renewed, and [ref] with [off]. *)
Definition find_ref (d : bytes) (s : comp) : result (comp * option (Z * Z)) :=
  h ← NEXT (hval s) d (ip s);
  let slot := IDX h in
  let ref := htab s slot in
  let s := mk_comp (ip s) (op s) (lit s) h (set_slot (htab s) slot (ip s)) (out s) in
  let off := u64 (ip s - ref - 1) in
  if (off <? MAX_OFF) && (0 <? ref) then
    r2 ← byte_at d (ref + 2); i2 ← byte_at d (ip s + 2);
    if r2 =? i2 then
      r ← load 2 (Z.to_nat ref) d; i ← load 2 (Z.to_nat (ip s)) d;
      mret (s, if r =? i then Some (ref, off) else None)
    else mret (s, None)
  else mret (s, None).

(** The bytes of a back reference; [len] is the number of octets less two. *)
Definition ref_bytes (off len : Z) : bytes :=
  if len <? 7 then [u8 (Z.shiftr off 8 + Z.shiftl len 5); u8 off]
  else [u8 (Z.shiftr off 8 + Z.shiftl 7 5); u8 (len - 7); u8 off].

(** A match at [ref]: the flag says whether to leave the loop. *)
Definition emit_match (d : bytes) (s : comp) (ref off : Z) : result (step (comp * bool)) :=
  let in_end := Z.of_nat (length d) in
  let out_end := Z.of_nat (length (out s)) in
  let nolit := if lit s =? 0 then 1 else 0 in
  let maxlen := in_end - ip s - 2 in
  let maxlen := if MAX_REF <? maxlen then MAX_REF else maxlen in
  if (out_end <=? op s + 3 + 1) && (out_end <=? op s - nolit + 3 + 1) then mret (Return0 (out s)) else
  o ← stop_run s;
  let op := op s - nolit in
  len ← match_len d ref (ip s) maxlen;
  let len := len - 2 in
  let ip := ip s + 1 in
  let bs := ref_bytes off len in
  o ← put_bytes o op bs;
  let op := op + Z.of_nat (length bs) + 1 in
  let ip := ip + (len + 1) in
  if in_end - 2 <=? ip then mret (Next (mk_comp ip op 0 (hval s) (htab s) o, true)) else
  let ip := ip - 2 in
  h ← FRST d ip;
  h ← NEXT h d ip;
  let t := set_slot (htab s) (IDX h) ip in
  let ip := ip + 1 in
  h ← NEXT h d ip;
  let t := set_slot t (IDX h) ip in
  let ip := ip + 1 in
  mret (Next (mk_comp ip op 0 h t o, false)).

(** [lit++; *op++ = *ip++;] and the end of a full run. *)
Definition push_literal (d : bytes) (s : comp) : result comp :=
  b ← byte_at d (ip s);
  o ← put_bytes (out s) (op s) [b];
  let s := mk_comp (ip s + 1) (op s + 1) (lit s + 1) (hval s) (htab s) o in
  if lit s =? MAX_LIT then
    o ← stop_run s; mret (mk_comp (ip s) (op s + 1) 0 (hval s) (htab s) o)
  else mret s.

(** [while (ip < in_end - 2)] *)
Fixpoint compress_loop (fuel : nat) (d : bytes) (s : comp) : result (step comp) :=
  if ip s <? Z.of_nat (length d) - 2 then
    match fuel with
    | O => inl OutOfFuel
    | S fuel =>
        '(s, m) ← find_ref d s;
        match m with
        | Some (ref, off) =>
            r ← emit_match d s ref off;
            match r with
            | Return0 o => mret (Return0 o)
            | Next (s, true) => mret (Next s)
            | Next (s, false) => compress_loop fuel d s
            end
        | None =>
            if Z.of_nat (length (out s)) <=? op s then mret (Return0 (out s)) else
            s ← push_literal d s; compress_loop fuel d s
        end
    end
  else mret (Next s).

(** The returned length and the output block. *)
Definition lzf_compress (d : bytes) (htab0 : LZF_STATE) (out0 : bytes) : result (Z * bytes) :=
  if (Z.of_nat (length d) =? 0) || (Z.of_nat (length out0) =? 0) then mret (0, out0) else
  h ← FRST d 0;
  r ← compress_loop (length d) d (mk_comp 0 1 0 h htab0 out0);
  match r with
  | Return0 o => mret (0, o)
  | Next s =>
      if Z.of_nat (length (out s)) <? op s + 3 then mret (0, out s) else
      s ← while (length d) (fun s => ip s <? Z.of_nat (length d)) (push_literal d) s;
      o ← stop_run s;
      mret (op s - (if lit s =? 0 then 1 else 0), o)
  end.

(** ** Decompression *)

(** [do *op++ = *ref++; while (--len);], and the fall-through [switch]. *)
Fixpoint copy_octets (n : nat) (o : bytes) (op ref : Z) : result bytes :=
  match n with
  | O => mret o
  | S n => b ← byte_at o ref; o ← put_bytes o op [b]; copy_octets n o (op + 1) (ref + 1)
  end.
Definition copy_ref (o : bytes) (op ref len : Z) : result bytes :=
  if 9 <? len then
    let len := len + 2 in
    if ref + len <=? op then bs ← read (Z.to_nat len) (Z.to_nat ref) o; put_bytes o op bs
    else copy_octets (Z.to_nat len) o op ref
  else copy_octets (Z.to_nat (len + 2)) o op ref.

Record decomp := mk_decomp { d_ip : Z; d_op : Z; d_out : bytes }.

(** One turn; [Return0] sets [errno]. *)
Definition decompress_turn (c : bytes) (s : decomp) : result (step decomp) :=
  let in_end := Z.of_nat (length c) in
  let out_end := Z.of_nat (length (d_out s)) in
  ctrl ← byte_at c (d_ip s);
  let ip := d_ip s + 1 in
  let op := d_op s in
  if ctrl <? Z.shiftl 1 5 then
    let ctrl := ctrl + 1 in
    if out_end <? op + ctrl then mret (Return0 (d_out s)) else
    if in_end <? ip + ctrl then mret (Return0 (d_out s)) else
    bs ← read (Z.to_nat ctrl) (Z.to_nat ip) c;
    o ← put_bytes (d_out s) op bs;
    mret (Next (mk_decomp (ip + ctrl) (op + ctrl) o))
  else
    let len := Z.shiftr ctrl 5 in
    let ref := op - Z.shiftl (Z.land ctrl 0x1f) 8 - 1 in
    if in_end <=? ip then mret (Return0 (d_out s)) else
    r ← (if len =? 7 then b ← byte_at c ip; mret (if in_end <=? ip + 1 then None else Some (len + b, ip + 1))
         else mret (Some (len, ip)));
    match r with
    | None => mret (Return0 (d_out s))
    | Some (len, ip) =>
        b ← byte_at c ip;
        let ip := ip + 1 in
        let ref := ref - b in
        if out_end <? op + len + 2 then mret (Return0 (d_out s)) else
        if ref <? 0 then mret (Return0 (d_out s)) else
        o ← copy_ref (d_out s) op ref len;
        mret (Next (mk_decomp ip (op + len + 2) o))
    end.

Fixpoint decompress_loop (fuel : nat) (c : bytes) (s : decomp) : result (step decomp) :=
  if d_ip s <? Z.of_nat (length c) then
    match fuel with
    | O => inl OutOfFuel
    | S fuel =>
        r ← decompress_turn c s;
        match r with Return0 o => mret (Return0 o) | Next s => decompress_loop fuel c s end
    end
  else mret (Next s).
(** The returned length (0 for an error) and the output block. *)
Definition lzf_decompress (c out0 : bytes) : result (Z * bytes) :=
  r ← decompress_loop (length c) c (mk_decomp 0 0 out0);
  mret (match r with Return0 o => (0, o) | Next s => (d_op s, d_out s) end).
