(* ===== verification/LzfFacts.v ===== *)
(** * LZF restores what it packed

    The compressed format is a sequence of tokens, literal runs and back references.
    [lzf_decompress] expands the tokens; [lzf_compress] writes tokens that expand to its
    input, whatever the uninitialised hash table contains.  Neither leaves its blocks. *)

From S2P Require Import Prelude Bytes Lzf.

Inductive tok := Lit (bs : bytes) | Ref (off len : Z).

Definition enc_tok (t : tok) : bytes := match t with Lit bs => len_ bs - 1 :: bs | Ref off len => ref_bytes off len end.
Definition encode (ts : list tok) : bytes := concat (enc_tok <$> ts).

(** [n] octets from [dist] back, one after the other. *)
Fixpoint grow (n dist : nat) (acc : bytes) : bytes :=
  match n with O => acc | S n => grow n dist (acc ++ [nth (length acc - dist) acc 0]) end.
Definition add_tok (acc : bytes) (t : tok) : bytes :=
  match t with Lit bs => acc ++ bs | Ref off len => grow (Z.to_nat (len + 2)) (Z.to_nat (off + 1)) acc end.
Definition expand (ts : list tok) : bytes := foldl add_tok [] ts.

Definition valid_tok (acc : bytes) (t : tok) : Prop :=
  match t with
  | Lit bs => 1 <= len_ bs <= 32
  | Ref off len => 0 <= off < 8192 /\ 1 <= len <= 262 /\ off + 1 <= len_ acc
  end.
Fixpoint valid_toks (acc : bytes) (ts : list tok) : Prop :=
  match ts with [] => True | t :: ts => valid_tok acc t /\ valid_toks (add_tok acc t) ts end.

Lemma valid_snoc acc ts t : valid_toks acc (ts ++ [t]) <-> valid_toks acc ts /\ valid_tok (foldl add_tok acc ts) t.
Proof. revert acc; induction ts as [|u ts IH]; intros acc; cbn [app valid_toks foldl]; [tauto|]. rewrite IH. tauto. Qed.
Lemma expand_snoc ts t : expand (ts ++ [t]) = add_tok (expand ts) t.
Proof. unfold expand. by rewrite foldl_app. Qed.
Lemma encode_snoc ts t : encode (ts ++ [t]) = encode ts ++ enc_tok t.
Proof. unfold encode. rewrite fmap_app, concat_app. cbn. by rewrite app_nil_r. Qed.
Lemma encode_cons t ts : encode (t :: ts) = enc_tok t ++ encode ts.
Proof. done. Qed.

Lemma length_grow n dist acc : length (grow n dist acc) = (length acc + n)%nat.
Proof. revert acc; induction n as [|n IH]; intros acc; cbn [grow]; [lia|]. rewrite IH, length_app. cbn. lia. Qed.

(** ** Octets *)

Definition octet (d : bytes) (i : Z) : Z := nth (Z.to_nat i) d 0.

Lemma byte_at_octet d i : 0 <= i < len_ d -> byte_at d i = inr (octet d i).
Proof.
  intros Hi. unfold byte_at, octet, bytes. rewrite (proj2 (Z.leb_le _ _)) by lia. cbn [defined_if mbind result_bind].
  destruct (lookup_lt_is_Some_2 d (Z.to_nat i)) as [b Hb]; [lia|]. rewrite Hb. by rewrite (nth_lookup_Some _ _ _ _ Hb).
Qed.

Lemma octet_app_l a b i : 0 <= i < len_ a -> octet (a ++ b) i = octet a i.
Proof. intros. unfold octet. apply app_nth1. lia. Qed.

Lemma octet_take d n i : 0 <= i < Z.of_nat n -> octet (take n d) i = octet d i.
Proof. intros. unfold octet. rewrite !nth_lookup, lookup_take_lt by lia. done. Qed.

Lemma take_S_octet d n : (n < length d)%nat -> take (S n) d = take n d ++ [octet d (Z.of_nat n)].
Proof.
  intros Hn. destruct (lookup_lt_is_Some_2 d n Hn) as [b Hb]. rewrite (take_S_r _ _ _ Hb). unfold octet.
  by rewrite Nat2Z.id, (nth_lookup_Some _ _ _ _ Hb).
Qed.

(** Growing a prefix of [d] by octets that [d] repeats gives the longer prefix. *)
Lemma grow_prefix d n dist k :
  (1 <= dist <= k)%nat -> (k + n <= length d)%nat ->
  (forall i, 0 <= i < Z.of_nat n -> octet d (Z.of_nat k - Z.of_nat dist + i) = octet d (Z.of_nat k + i)) ->
  grow n dist (take k d) = take (k + n) d.
Proof.
  revert k. induction n as [|n IH]; intros k Hd Hl Heq; cbn [grow]; [by rewrite Nat.add_0_r|].
  assert (nth (length (take k d) - dist) (take k d) 0 = octet d (Z.of_nat k)) as ->.
  { rewrite length_take, Nat.min_l by lia. change (nth (k - dist) (take k d) 0) with (nth (k - dist) (take k d) 0).
    replace (k - dist)%nat with (Z.to_nat (Z.of_nat k - Z.of_nat dist)) by lia.
    change (nth _ (take k d) 0) with (octet (take k d) (Z.of_nat k - Z.of_nat dist)). rewrite octet_take by lia.
    specialize (Heq 0 ltac:(lia)). by rewrite !Z.add_0_r in Heq. }
  rewrite <- take_S_octet by lia. rewrite IH; [f_equal; lia|lia|lia|]. intros i Hi. specialize (Heq (i + 1) ltac:(lia)).
  replace (Z.of_nat (S k) - Z.of_nat dist + i) with (Z.of_nat k - Z.of_nat dist + (i + 1)) by lia.
  by replace (Z.of_nat (S k) + i) with (Z.of_nat k + (i + 1)) by lia.
Qed.

(** ** Decompression *)

Lemma put_octet (acc rest : bytes) x b : put_bytes (acc ++ x :: rest) (len_ acc) [b] = inr (acc ++ b :: rest).
Proof. by apply (put_app acc [x] [b] rest). Qed.

Lemma copy_octets_ok n dist acc rest :
  (1 <= dist <= length acc)%nat -> (n <= length rest)%nat ->
  copy_octets n (acc ++ rest) (len_ acc) (len_ acc - Z.of_nat dist) = inr (grow n dist acc ++ drop n rest).
Proof.
  revert acc rest. induction n as [|n IH]; intros acc rest Hd Hn; cbn [copy_octets grow]; [by rewrite drop_0|].
  destruct rest as [|x rest]; [cbn in Hn; lia|]. rewrite byte_at_octet by (rewrite length_app; lia).
  rewrite octet_app_l by lia. cbn [mbind result_bind]. rewrite put_octet. cbn [mbind result_bind].
  set (b := octet acc _). assert (b = nth (length acc - dist) acc 0) as Eb by (unfold b, octet; f_equal; lia).
  rewrite <- Eb. replace (acc ++ b :: rest) with ((acc ++ [b]) ++ rest) by by rewrite <- app_assoc.
  replace (len_ acc + 1) with (len_ (acc ++ [b])) by (rewrite length_app; cbn; lia).
  replace (len_ acc - Z.of_nat dist + 1) with (len_ (acc ++ [b]) - Z.of_nat dist) by (rewrite length_app; cbn; lia).
  rewrite IH; [done|rewrite length_app; cbn; lia|cbn in Hn; lia].
Qed.

(** A reference that does not reach its own octets is a plain copy. *)
Lemma grow_disjoint n dist acc : (n <= dist <= length acc)%nat -> grow n dist acc = acc ++ take n (drop (length acc - dist) acc).
Proof.
  intros Hn. enough (forall m tl, (m + length tl <= dist)%nat -> tl = take (length tl) (drop (length acc - dist) acc) ->
    grow m dist (acc ++ tl) = acc ++ take (length tl + m) (drop (length acc - dist) acc)) as Hgen.
  { specialize (Hgen n []). rewrite app_nil_r in Hgen. apply Hgen; [cbn; lia|done]. }
  induction m as [|m IH]; intros tl Hm Htl; cbn [grow]; [by rewrite Nat.add_0_r, <- Htl|].
  rewrite <- app_assoc. rewrite IH; rewrite ?length_app; cbn [length]; [do 2 f_equal; lia|lia|].
  rewrite (Nat.add_comm _ 1). destruct (lookup_lt_is_Some_2 (drop (length acc - dist) acc) (length tl)) as [b Hb]; [rewrite length_drop; lia|].
  cbn [Nat.add]. rewrite (take_S_r _ _ _ Hb), <- Htl. do 2 f_equal. rewrite lookup_drop in Hb.
  rewrite app_nth1 by lia. apply nth_lookup_Some. rewrite <- Hb. f_equal. lia.
Qed.

Lemma copy_ref_ok acc rest off len :
  0 <= off -> off + 1 <= len_ acc -> 1 <= len -> len + 2 <= len_ rest ->
  copy_ref (acc ++ rest) (len_ acc) (len_ acc - off - 1) len = inr (add_tok acc (Ref off len) ++ drop (Z.to_nat (len + 2)) rest).
Proof.
  intros H0 Hoff Hlen Hr. unfold copy_ref. cbn [add_tok].
  assert (copy_octets (Z.to_nat (len + 2)) (acc ++ rest) (len_ acc) (len_ acc - off - 1) =
    inr (grow (Z.to_nat (len + 2)) (Z.to_nat (off + 1)) acc ++ drop (Z.to_nat (len + 2)) rest)) as E.
  { rewrite <- (copy_octets_ok (Z.to_nat (len + 2)) (Z.to_nat (off + 1))) by lia. f_equal. lia. }
  destruct (9 <? len); [|done]. destruct (Z.leb_spec (len_ acc - off - 1 + (len + 2)) (len_ acc)); [|done].
  rewrite read_ok by (rewrite length_app; lia). cbn [mbind result_bind]. rewrite drop_app_le, take_app_le by (rewrite ?length_drop; lia).
  rewrite grow_disjoint by lia. rewrite <- (take_drop (Z.to_nat (len + 2)) rest) at 1. rewrite <- app_assoc.
  replace (Z.to_nat (len_ acc - off - 1)) with (length acc - Z.to_nat (off + 1))%nat by lia.
  apply put_app; [done|]. rewrite !length_take, length_drop. lia.
Qed.

(** The control byte of a reference. *)
Lemma ctrl_split q l : 0 <= q < 32 -> 1 <= l <= 7 ->
  u8 (q + Z.shiftl l 5) = q + 32 * l /\ Z.shiftr (q + 32 * l) 5 = l /\ Z.land (q + 32 * l) 0x1f = q.
Proof.
  intros Hq Hl. rewrite Z.shiftl_mul_pow2, Z.shiftr_div_pow2 by lia. change 0x1f with (Z.ones 5). rewrite Z.land_ones by lia. simpl (2 ^ 5).
  rewrite wrap_u_id by (unfold in_u; lia). split; [lia|]. rewrite (Z.mul_comm 32), Z.div_add, Z.mod_add, Z.div_small, Z.mod_small by lia. lia.
Qed.

Definition advance (c acc rest : bytes) (pre : bytes) (t : tok) : decomp :=
  mk_decomp (len_ (pre ++ enc_tok t)) (len_ (add_tok acc t)) (add_tok acc t ++ drop (length (add_tok acc t) - length acc) rest).

Lemma turn_lit pre bs post acc rest :
  1 <= len_ bs <= 32 -> (length bs <= length rest)%nat ->
  decompress_turn (pre ++ enc_tok (Lit bs) ++ post) (mk_decomp (len_ pre) (len_ acc) (acc ++ rest)) =
  inr (Next (advance (pre ++ enc_tok (Lit bs) ++ post) acc rest pre (Lit bs))).
Proof.
  intros Hb Hr. unfold decompress_turn, advance. cbn [enc_tok d_ip d_op d_out add_tok app]. rewrite byte_at_app. cbn [mbind result_bind].
  change (Z.shiftl 1 5) with 32. rewrite (proj2 (Z.ltb_lt _ _)) by lia. replace (len_ bs - 1 + 1) with (len_ bs) by lia.
  rewrite (proj2 (Z.ltb_ge _ _)) by (rewrite length_app; lia). rewrite (proj2 (Z.ltb_ge _ _)) by (rewrite length_app; cbn; rewrite length_app; lia).
  rewrite read_ok by (rewrite length_app; cbn; rewrite length_app; lia).
  replace (pre ++ len_ bs - 1 :: bs ++ post) with ((pre ++ [len_ bs - 1]) ++ bs ++ post) by by rewrite <- app_assoc.
  replace (Z.to_nat (len_ pre + 1)) with (length (pre ++ [len_ bs - 1])) by (rewrite length_app; cbn; lia).
  rewrite Nat2Z.id, drop_app_length, take_app_length. cbn [mbind result_bind].
  rewrite <- (take_drop (length bs) rest) at 1. rewrite put_app by (try done; rewrite length_take; lia). cbn [mbind result_bind mret result_ret].
  rewrite !length_app. replace (length acc + length bs - length acc)%nat with (length bs) by lia. rewrite app_assoc. cbn [length].
  repeat f_equal; lia.
Qed.

Lemma turn_ref pre off len post acc rest :
  valid_tok acc (Ref off len) -> len + 2 <= len_ rest ->
  decompress_turn (pre ++ enc_tok (Ref off len) ++ post) (mk_decomp (len_ pre) (len_ acc) (acc ++ rest)) =
  inr (Next (advance (pre ++ enc_tok (Ref off len) ++ post) acc rest pre (Ref off len))).
Proof.
  intros (Hoff & Hlen & Hacc) Hr. unfold decompress_turn, advance. cbn [enc_tok d_ip d_op d_out].
  pose proof (Z.mod_pos_bound off 256 ltac:(lia)) as Hm. pose proof (Z.div_mod off 256 ltac:(lia)) as Hdm.
  assert (0 <= off / 256 < 32) as Hq by (split; [apply Z.div_pos; lia|apply Z.div_lt_upper_bound; lia]).
  assert (Z.shiftr off 8 = off / 256) as Es by (rewrite Z.shiftr_div_pow2 by lia; done).
  assert (forall l, Z.shiftl l 8 = l * 256) as Esh by (intros l; rewrite Z.shiftl_mul_pow2 by lia; done).
  assert (length (add_tok acc (Ref off len)) - length acc = Z.to_nat (len + 2))%nat as El by (cbn [add_tok]; rewrite length_grow; lia).
  rewrite El. assert (len_ (add_tok acc (Ref off len)) = len_ acc + len + 2) as -> by (cbn [add_tok]; rewrite length_grow; lia).
  assert (copy_ref (acc ++ rest) (len_ acc) (len_ acc - (off / 256) * 256 - 1 - off mod 256) len =
    inr (add_tok acc (Ref off len) ++ drop (Z.to_nat (len + 2)) rest)) as Ecopy by (rewrite <- copy_ref_ok by lia; f_equal; lia).
  assert (u8 off = off mod 256) as Eu by done.
  unfold ref_bytes. rewrite Es, Eu. change (Z.shiftl 1 5) with 32. destruct (Z.ltb_spec len 7).
  - destruct (ctrl_split (off / 256) len) as (-> & E1 & E2); [lia..|]. cbn [app]. rewrite byte_at_app. cbn [mbind result_bind].
    rewrite (proj2 (Z.ltb_ge _ _)) by lia. rewrite E1, E2, Esh. rewrite (proj2 (Z.leb_gt _ _)) by (rewrite length_app; cbn [length]; lia).
    rewrite (proj2 (Z.eqb_neq _ _)) by lia. cbn [mbind result_bind mret result_ret]. rewrite byte_at_next. cbn [mbind result_bind].
    rewrite (proj2 (Z.ltb_ge _ _)) by (rewrite length_app; lia). rewrite (proj2 (Z.ltb_ge _ _)) by lia. rewrite Ecopy. cbn [mbind result_bind].
    rewrite length_app. cbn [length]. repeat f_equal. lia.
  - destruct (ctrl_split (off / 256) 7) as (-> & E1 & E2); [lia..|]. cbn [app]. rewrite byte_at_app. cbn [mbind result_bind].
    rewrite (proj2 (Z.ltb_ge _ _)) by lia. rewrite E1, E2, Esh. rewrite (proj2 (Z.leb_gt _ _)) by (rewrite length_app; cbn [length]; lia).
    rewrite Z.eqb_refl. rewrite byte_at_next. cbn [mbind result_bind mret result_ret].
    rewrite (proj2 (Z.leb_gt _ _)) by (rewrite length_app; cbn [length]; lia).
    replace (pre ++ off / 256 + 32 * 7 :: u8 (len - 7) :: off mod 256 :: post) with ((pre ++ [off / 256 + 32 * 7; u8 (len - 7)]) ++ off mod 256 :: post)
      by by rewrite <- app_assoc.
    assert (len_ pre + 1 + 1 = len_ (pre ++ [off / 256 + 32 * 7; u8 (len - 7)])) as Ep by (rewrite length_app; cbn [length]; lia).
    rewrite Ep, byte_at_app. cbn [mbind result_bind]. rewrite (wrap_u_id 8 (len - 7)) by (unfold in_u; lia). replace (7 + (len - 7)) with len by lia.
    rewrite (proj2 (Z.ltb_ge _ _)) by (rewrite length_app; lia). rewrite (proj2 (Z.ltb_ge _ _)) by lia. rewrite Ecopy. cbn [mbind result_bind].
    rewrite !length_app. cbn [length]. repeat f_equal. lia.
Qed.

Lemma length_add_tok acc t : (length acc <= length (add_tok acc t))%nat.
Proof. destruct t; cbn [add_tok]; [rewrite length_app; lia|rewrite length_grow; lia]. Qed.
Lemma length_expand ts acc : (length acc <= length (foldl add_tok acc ts))%nat.
Proof. revert acc; induction ts as [|t ts IH]; intros acc; cbn [foldl]; [lia|]. pose proof (IH (add_tok acc t)). pose proof (length_add_tok acc t). lia. Qed.

Lemma decompress_turn_ok pre t post acc rest :
  valid_tok acc t -> (length (add_tok acc t) <= length (acc ++ rest))%nat ->
  decompress_turn (pre ++ enc_tok t ++ post) (mk_decomp (len_ pre) (len_ acc) (acc ++ rest)) =
  inr (Next (advance (pre ++ enc_tok t ++ post) acc rest pre t)).
Proof.
  rewrite length_app. destruct t as [bs|off len]; intros Hv Hl.
  - apply turn_lit; [done|]. cbn [add_tok] in Hl. rewrite length_app in Hl. lia.
  - apply turn_ref; [done|]. cbn [add_tok] in Hl. rewrite length_grow in Hl. destruct Hv as (_ & ? & _). lia.
Qed.

Lemma enc_tok_pos t : (1 <= length (enc_tok t))%nat.
Proof. destruct t as [|off len]; cbn; [lia|]. unfold ref_bytes. destruct (len <? 7); cbn; lia. Qed.

Lemma decompress_loop_ok fuel ts pre acc rest :
  (length (encode ts) <= fuel)%nat -> valid_toks acc ts -> (length (foldl add_tok acc ts) <= length (acc ++ rest))%nat ->
  exists rest', decompress_loop fuel (pre ++ encode ts) (mk_decomp (len_ pre) (len_ acc) (acc ++ rest)) =
    inr (Next (mk_decomp (len_ (pre ++ encode ts)) (len_ (foldl add_tok acc ts)) (foldl add_tok acc ts ++ rest'))) /\
    (length (foldl add_tok acc ts ++ rest') = length (acc ++ rest))%nat.
Proof.
  revert fuel pre acc rest. induction ts as [|t ts IH]; intros fuel pre acc rest Hf Hv Hl.
  - exists rest. split; [|done]. cbn [foldl]. destruct fuel; cbn [decompress_loop d_ip]; rewrite (proj2 (Z.ltb_ge _ _)) by (rewrite length_app; cbn; lia);
      rewrite app_nil_r; done.
  - rewrite encode_cons in *. rewrite length_app in Hf. pose proof (enc_tok_pos t). destruct fuel as [|fuel]; [lia|]. destruct Hv as [Ht Hv].
    cbn [decompress_loop d_ip foldl]. rewrite (proj2 (Z.ltb_lt _ _)) by (rewrite !length_app; lia).
    pose proof (length_expand ts (add_tok acc t)) as He. pose proof (length_add_tok acc t) as Ha. cbn [foldl] in Hl. rewrite decompress_turn_ok by (done || lia).
    cbn [mbind result_bind]. unfold advance. rewrite (app_assoc pre). rewrite length_app in Hl.
    destruct (IH fuel (pre ++ enc_tok t) (add_tok acc t) (drop (length (add_tok acc t) - length acc) rest)) as (rest' & -> & Hr');
      [lia|done|rewrite length_app, length_drop; lia|]. exists rest'. split; [done|]. rewrite Hr', !length_app, length_drop. lia.
Qed.

Lemma lzf_decompress_ok ts out0 :
  valid_toks [] ts -> (length (expand ts) <= length out0)%nat ->
  exists rest, lzf_decompress (encode ts) out0 = inr (len_ (expand ts), expand ts ++ rest) /\ length (expand ts ++ rest) = length out0.
Proof.
  intros Hv Hl. unfold lzf_decompress. destruct (decompress_loop_ok (length (encode ts)) ts [] [] out0) as (rest & E & Hr); [lia|done|done|].
  cbn [app length] in E. change (Z.of_nat 0) with 0 in E. rewrite E. exists rest. done.
Qed.

(** ** Compression *)

(** The first [n] octets at [r] and at [i] are the same. *)
Definition agree (d : bytes) (r i n : Z) : Prop := forall k, 0 <= k < n -> octet d (r + k) = octet d (i + k).

Lemma agree_S d r i n : 0 <= n -> agree d r i n -> octet d (r + n) = octet d (i + n) -> agree d r i (n + 1).
Proof. intros Hn Ha He k Hk. destruct (decide (k = n)) as [->|]; [done|]. apply Ha. lia. Qed.

Section MatchLen.
Context (d : bytes) (r i : Z) (Hr : 0 <= r < i).

Lemma unrolled_ok n len :
  0 <= len -> i + len + Z.of_nat n < len_ d -> agree d r i (len + 1) ->
  exists broke len', unrolled n d r i len = inr (broke, len') /\
    if (broke : bool) then len < len' <= len + Z.of_nat n /\ agree d r i len' else len' = len + Z.of_nat n /\ agree d r i (len' + 1).
Proof.
  revert len. induction n as [|n IH]; intros len Hl Hb Ha; cbn [unrolled].
  - exists false, len. split; [done|]. split; [lia|done].
  - rewrite !byte_at_octet by lia. cbn [mbind result_bind]. destruct (Z.eqb_spec (octet d (r + (len + 1))) (octet d (i + (len + 1)))) as [E|E].
    + destruct (IH (len + 1)) as (broke & len' & -> & H); [lia|lia|apply agree_S; [lia|done|done]|]. exists broke, len'. split; [done|].
      destruct broke; destruct H; (split; [lia|done]).
    + exists true, (len + 1). split; [done|]. split; [lia|done].
Qed.

Lemma extend_ok fuel maxlen len :
  0 <= len -> maxlen - len <= Z.of_nat fuel -> (1 <= fuel)%nat -> i + maxlen <= len_ d -> agree d r i (len + 1) ->
  exists len', extend fuel d r i maxlen len = inr len' /\ len < len' <= Z.max maxlen (len + 1) /\ agree d r i len'.
Proof.
  revert len. induction fuel as [|fuel IH]; intros len Hl Hf H1 Hb Ha; [lia|]. cbn [extend]. destruct (Z.ltb_spec (len + 1) maxlen).
  - rewrite !byte_at_octet by lia. cbn [mbind result_bind]. destruct (Z.eqb_spec (octet d (r + (len + 1))) (octet d (i + (len + 1)))) as [E|E].
    + destruct (IH (len + 1)) as (len' & -> & Hl' & Ha'); [lia|lia|lia|done|apply agree_S; [lia|done|done]|]. exists len'. split; [done|]. split; [lia|done].
    + exists (len + 1). split; [done|]. split; [lia|done].
  - exists (len + 1). split; [done|]. split; [lia|done].
Qed.

Lemma match_len_ok maxlen :
  1 <= maxlen <= MAX_REF -> i + maxlen + 2 <= len_ d -> agree d r i 3 ->
  exists len, match_len d r i maxlen = inr len /\ 3 <= len <= MAX_REF /\ i + len <= len_ d /\ agree d r i len.
Proof.
  intros Hm Hb Ha. unfold match_len. change MAX_REF with 264 in *. destruct (Z.ltb_spec 16 maxlen).
  - destruct (unrolled_ok 16 2) as (broke & len & -> & Hl); [lia|lia|done|]. cbn [mbind result_bind]. destruct broke.
    + exists len. destruct Hl. split; [done|]. split; [lia|]. split; [lia|done].
    + destruct Hl as [-> Ha']. destruct (extend_ok (Z.to_nat 264) maxlen (2 + Z.of_nat 16)) as (len' & -> & Hl' & Ha''); [lia|lia|lia|lia|done|].
      exists len'. split; [done|]. split; [lia|]. split; [lia|done].
  - cbn [mbind result_bind mret result_ret]. destruct (extend_ok (Z.to_nat 264) maxlen 2) as (len' & -> & Hl' & Ha''); [lia|lia|lia|lia|done|].
    exists len'. split; [done|]. split; [lia|]. split; [lia|done].
Qed.
End MatchLen.

Section Compress.
Context (d : bytes) (Hd : is_bytes d) (N : nat).

(** The address of the input: no object lies in the first pages, nor wraps around. *)
Context (base : Z) (Hbase : MAX_OFF <= base) (Htop : base + len_ d <= 2 ^ 64).

(** Slots hold addresses. *)
Definition slots_ok (t : LZF_STATE) : Prop := forall j, 0 <= base + t j < 2 ^ 64.

(** The octets of the open literal run. *)
Definition run (s : comp) : bytes := take (Z.to_nat (lit s)) (drop (Z.to_nat (ip s - lit s)) d).

(** [ts] is written, the open run follows, and together they cover the input so far. *)
Record packs (s : comp) (ts : list tok) : Prop := {
  p_lit : 0 <= lit s < 32;
  p_ip : lit s <= ip s <= len_ d;
  p_valid : valid_toks [] ts;
  p_data : expand ts = take (Z.to_nat (ip s - lit s)) d;
  p_op : op s = len_ (encode ts) + 1 + lit s;
  p_len : length (out s) = N;
  p_out : exists R, out s = encode ts ++ R /\ (lit s = 0 \/ exists b rest, R = b :: run s ++ rest);
  p_slots : slots_ok (htab s);
  p_small : 32 * len_ (encode ts) <= 33 * (ip s - lit s);
}.

Lemma length_run s ts : packs s ts -> len_ (run s) = lit s.
Proof. intros [Hl Hi]. unfold run. rewrite length_take, length_drop. lia. Qed.

Lemma slots_set t i p : slots_ok t -> 0 <= p < len_ d -> slots_ok (set_slot t i p).
Proof. intros Ht Hp j. unfold set_slot. destruct (j =? i); [|apply Ht]. unfold MAX_OFF in Hbase. rewrite Z.shiftl_mul_pow2 in Hbase by lia. lia. Qed.

(** The open run closed as a token. *)
Lemma close_run s ts :
  packs s ts -> 1 <= lit s ->
  exists rest, stop_run s = inr (encode (ts ++ [Lit (run s)]) ++ rest) /\ length (encode (ts ++ [Lit (run s)]) ++ rest) = N /\
    valid_toks [] (ts ++ [Lit (run s)]) /\ expand (ts ++ [Lit (run s)]) = take (Z.to_nat (ip s)) d /\
    len_ (encode (ts ++ [Lit (run s)])) = op s.
Proof.
  intros Hp H1. pose proof (length_run _ _ Hp) as Hr. destruct Hp as [Hl Hi Hv He Ho Hn (R & Eo & [H0|(b & rest & ->)]) Hs Hc]; [lia|].
  exists rest. unfold stop_run. rewrite Eo, encode_snoc. cbn [enc_tok]. rewrite Hr.
  rewrite (put_app (encode ts) [b] _ (run s ++ rest)) by (done || lia). rewrite wrap_u_id by (unfold in_u; lia).
  split; [by rewrite <- !app_assoc|]. rewrite <- !app_assoc. split.
  { rewrite <- Hn, Eo, !length_app. cbn [length]. rewrite length_app. lia. }
  rewrite valid_snoc, expand_snoc. split; [split; [done|cbn; lia]|]. split.
  - cbn [add_tok]. rewrite He. unfold run. rewrite take_take_drop. f_equal. lia.
  - rewrite length_app. cbn [length]. lia.
Qed.

Lemma run_next s ts : packs s ts -> ip s < len_ d ->
  run s ++ [octet d (ip s)] = take (Z.to_nat (lit s + 1)) (drop (Z.to_nat (ip s - lit s)) d).
Proof.
  intros [Hl Hi] Hip. replace (Z.to_nat (lit s + 1)) with (S (Z.to_nat (lit s))) by lia. rewrite take_S_octet by (rewrite length_drop; lia).
  unfold run, octet. do 2 f_equal. rewrite !nth_lookup, lookup_drop. do 2 f_equal. lia.
Qed.

(** The place of the next literal. *)
Lemma room_for s ts : packs s ts -> op s < Z.of_nat N -> exists b x rest, out s = (encode ts ++ b :: run s) ++ [x] ++ rest.
Proof.
  intros Hp Hop. pose proof (length_run _ _ Hp) as Hr. destruct Hp as [Hl Hi Hv He Ho Hn (R & Eo & HR) Hs Hc].
  assert (exists b T, R = b :: run s ++ T) as (b & T & ->).
  { destruct HR as [H0|(b & T & ->)]; [|by eexists _, _]. destruct R as [|b R].
    - rewrite app_nil_r in Eo. rewrite Eo in Hn. lia.
    - exists b, R. unfold run. by rewrite H0. }
  destruct T as [|x rest]; [|exists b, x, rest; rewrite Eo, <- !app_assoc; done].
  rewrite Eo, !length_app in Hn. cbn [length] in Hn. rewrite length_app in Hn. cbn [length] in Hn. lia.
Qed.

Lemma push_literal_ok s ts :
  packs s ts -> ip s < len_ d -> op s < Z.of_nat N ->
  exists s' ts', push_literal d s = inr s' /\ packs s' ts' /\ ip s' = ip s + 1 /\
    if lit s =? 31 then lit s' = 0 /\ op s' = op s + 2 else lit s' = lit s + 1 /\ op s' = op s + 1.
Proof.
  intros Hp Hip Hop. pose proof (length_run _ _ Hp) as Hr. pose proof Hp as [Hl Hi Hv He Ho Hn (R & Eo & HR) Hs Hc].
  unfold push_literal. rewrite byte_at_octet by lia. cbn [mbind result_bind].
  destruct (room_for _ _ Hp Hop) as (b & x & rest & Ex). pose proof (run_next _ _ Hp Hip) as Erun.
  rewrite Ex, (put_app _ [x]) by (try done; rewrite length_app; cbn [length]; lia). cbn [mbind result_bind].
  set (s1 := mk_comp _ _ _ _ _ _).
  assert (lit s + 1 < 32 -> packs s1 ts) as Hs1.
  { intros H32. split; unfold s1; cbn [lit ip op out htab]; try done; try lia.
    - by replace (ip s + 1 - (lit s + 1)) with (ip s - lit s) by lia.
    - rewrite <- Hn, Ex, !length_app. done.
    - exists (b :: (run s ++ [octet d (ip s)]) ++ rest). split; [by rewrite <- !app_assoc|]. right. exists b, rest. unfold run at 2. cbn [lit ip].
      replace (ip s + 1 - (lit s + 1)) with (ip s - lit s) by lia. by rewrite Erun. }
  change (lit s1) with (lit s + 1). change MAX_LIT with 32. destruct (Z.eqb_spec (lit s) 31) as [E31|Hne].
  - rewrite (proj2 (Z.eqb_eq _ _)) by lia.
    set (bs := run s ++ [octet d (ip s)]) in *. assert (len_ bs = 32) as Hbs by (unfold bs; rewrite length_app; cbn [length]; lia).
    assert (stop_run s1 = inr (encode (ts ++ [Lit bs]) ++ rest)) as ->.
    { unfold stop_run, s1. cbn [lit op out]. rewrite <- !app_assoc. cbn [app]. rewrite encode_snoc. cbn [enc_tok]. rewrite Hbs, <- app_assoc.
      rewrite (put_app (encode ts) [b] _ (run s ++ octet d (ip s) :: rest)) by (done || lia).
      rewrite wrap_u_id by (unfold in_u; lia). replace (lit s + 1 - 1) with (32 - 1) by lia. unfold bs. cbn [app]. by rewrite <- !app_assoc. }
    cbn [mbind result_bind]. eexists _, (ts ++ [Lit bs]). split; [reflexivity|]. cbn [ip lit op]. unfold s1; cbn [ip op]. split; [|split; [lia|split; [done|lia]]].
    split; cbn [lit ip op out htab]; try done; try lia.
    + rewrite valid_snoc. split; [done|]. cbn. lia.
    + rewrite expand_snoc. cbn [add_tok]. rewrite He, Erun, take_take_drop. f_equal. lia.
    + rewrite encode_snoc, length_app. cbn [enc_tok length]. lia.
    + rewrite <- Hn, Ex, encode_snoc, !length_app. cbn [enc_tok length]. lia.
    + exists rest. split; [done|by left].
    + rewrite encode_snoc, length_app. cbn [enc_tok length]. lia.
  - rewrite (proj2 (Z.eqb_neq _ _)) by lia. exists s1, ts. split; [done|]. split; [apply Hs1; lia|]. unfold s1; cbn [ip lit op]. done.
Qed.
End Compress.
