(* ===== verification/LzfRun.v ===== *)
(** * The LZF round trip

    One turn of [lzf_compress] after the other keeps the invariant [packs] of [LzfFacts]: the
    look-up of a match, the match, the literals and the end of the input.  The output is
    then a sequence of tokens that [lzf_decompress] expands to the input. *)

From S2P Require Import Prelude Bytes Lzf LzfFacts.

Section Run.
Context (d : bytes) (Hd : is_bytes d) (N : nat).
Context (base : Z) (Hbase : MAX_OFF <= base) (Htop : base + len_ d <= 2 ^ 64).
Notation packs := (packs d N base).

Lemma frst_ok p : 0 <= p -> p + 1 < len_ d -> exists h, FRST d p = inr h.
Proof. intros. unfold FRST. rewrite !byte_at_octet by lia. by eexists. Qed.
Lemma next_ok v p : 0 <= p -> p + 2 < len_ d -> exists h, NEXT v d p = inr h.
Proof. intros. unfold NEXT. rewrite !byte_at_octet by lia. by eexists. Qed.

(** Two octets read as one [u16]. *)
Lemma load2_ok p : 0 <= p -> p + 1 < len_ d -> load 2 (Z.to_nat p) d = inr (octet d p + 256 * octet d (p + 1)) /\ 0 <= octet d p < 256.
Proof.
  intros H0 H1. rewrite load_ok by lia. destruct (lookup_lt_is_Some_2 d (Z.to_nat p)) as [a Ha]; [lia|].
  destruct (lookup_lt_is_Some_2 d (S (Z.to_nat p))) as [b Hb]; [lia|].
  rewrite (drop_S _ _ _ Ha), (drop_S _ _ _ Hb). cbn [take le_val]. unfold octet. replace (Z.to_nat (p + 1)) with (S (Z.to_nat p)) by lia.
  rewrite (nth_lookup_Some _ _ _ _ Ha), (nth_lookup_Some _ _ _ _ Hb). split; [rewrite take_0; cbn [le_val]; f_equal; lia|]. exact (Forall_lookup_1 _ _ _ _ Hd Ha).
Qed.

(** An offset below [MAX_OFF] is the distance to an earlier place. *)
Lemma off_ok p ref : 0 <= p < len_ d -> 0 <= base + ref < 2 ^ 64 -> u64 (p - ref - 1) < MAX_OFF -> ref < p /\ u64 (p - ref - 1) = p - ref - 1.
Proof.
  change MAX_OFF with 8192 in *. intros Hp Hr Hoff. destruct (Z.lt_ge_cases ref p) as [H|H].
  - split; [done|]. apply wrap_u_id. unfold in_u. lia.
  - exfalso. replace (p - ref - 1) with (2 ^ 64 + (p - ref - 1) + (-1) * 2 ^ 64) in Hoff by lia. unfold wrap_u in Hoff.
    rewrite Z.mod_add, Z.mod_small in Hoff by lia. lia.
Qed.

Definition with_slots (s : comp) (h : Z) (t : LZF_STATE) : comp := mk_comp (ip s) (op s) (lit s) h t (out s).

Lemma packs_slots s ts h t : packs s ts -> slots_ok base t -> packs (with_slots s h t) ts.
Proof. intros [] Ht. by split. Qed.

Lemma find_ref_ok s ts :
  packs s ts -> ip s < len_ d - 2 ->
  exists h t m, find_ref d s = inr (with_slots s h t, m) /\ packs (with_slots s h t) ts /\
    match m with None => True | Some (ref, off) => 0 < ref < ip s /\ off = ip s - ref - 1 /\ off < MAX_OFF /\ agree d ref (ip s) 3 end.
Proof.
  intros Hp Hip. pose proof (p_lit _ _ _ _ _ Hp). pose proof (p_ip _ _ _ _ _ Hp). unfold find_ref.
  destruct (next_ok (hval s) (ip s)) as [h ->]; [lia..|]. cbn [mbind result_bind]. set (ref := htab s (IDX h)). set (t := set_slot _ _ _).
  assert (packs (with_slots s h t) ts) as Hp'.
  { apply packs_slots; [done|]. eapply slots_set; eauto using p_slots. lia. }
  assert (0 <= base + ref < 2 ^ 64) as Href by apply (p_slots _ _ _ _ _ Hp). cbn [ip].
  destruct ((u64 (ip s - ref - 1) <? MAX_OFF) && (0 <? ref)) eqn:E; [|by exists h, t, None].
  apply andb_true_iff in E as [Hoff%Z.ltb_lt Hpos%Z.ltb_lt]. destruct (off_ok (ip s) ref) as [Hlt Eoff]; [lia|done|done|]. rewrite Eoff in *.
  rewrite !byte_at_octet by lia. cbn [mbind result_bind]. destruct (Z.eqb_spec (octet d (ref + 2)) (octet d (ip s + 2))) as [E2|]; [|by exists h, t, None].
  destruct (load2_ok ref) as [-> Hr]; [lia..|]. destruct (load2_ok (ip s)) as [-> Hi]; [lia..|]. cbn [mbind result_bind].
  destruct (Z.eqb_spec (octet d ref + 256 * octet d (ref + 1)) (octet d (ip s) + 256 * octet d (ip s + 1))) as [E01|]; [|by exists h, t, None].
  exists h, t, (Some (ref, ip s - ref - 1)). split; [done|]. split; [done|]. split_and!; try lia. intros k Hk.
  assert (k = 0 \/ k = 1 \/ k = 2) as [->|[->| ->]] by lia; rewrite ?Z.add_0_r; lia.
Qed.

(** The open run closed, or undone when it is empty. *)
Lemma stop_run_ok s ts :
  packs s ts -> op s - 1 < Z.of_nat N ->
  exists ts' rest, stop_run s = inr (encode ts' ++ rest) /\ length (encode ts' ++ rest) = N /\ valid_toks [] ts' /\
    expand ts' = take (Z.to_nat (ip s)) d /\ len_ (encode ts') = op s - (if lit s =? 0 then 1 else 0).
Proof.
  intros Hp Hop. destruct (Z.eqb_spec (lit s) 0) as [E0|Hne].
  - destruct Hp as [Hl Hi Hv He Ho Hn (R & Eo & _) Hs Hc]. destruct R as [|x R].
    { rewrite app_nil_r in Eo. rewrite Eo in Hn. lia. }
    exists ts, (u8 (lit s - 1) :: R). unfold stop_run. rewrite Eo, (put_app (encode ts) [x] [_] R) by (done || lia). split; [done|].
    split; [rewrite <- Hn, Eo, !length_app; done|]. split; [done|]. split; [by rewrite He, E0, Z.sub_0_r|lia].
  - destruct (close_run _ _ _ _ _ Hp) as (rest & E & Hn & Hv & He & Hl); [pose proof (p_lit _ _ _ _ _ Hp); lia|].
    exists (ts ++ [Lit (run d s)]), rest. rewrite Z.sub_0_r. done.
Qed.

Lemma length_ref_bytes off len : 1 <= len -> 2 <= len_ (ref_bytes off len) <= Z.min 3 (len + 1).
Proof. intros. unfold ref_bytes. destruct (Z.ltb_spec len 7); cbn; lia. Qed.

(** The state never runs ahead of its input by more than one octet in 32. *)
Lemma op_small s ts : packs s ts -> 32 * op s <= 33 * ip s + 32.
Proof. intros [Hl Hi _ _ Ho _ _ _ Hc]. lia. Qed.

(** The output block is too small for the worst input of this length. *)
Definition too_small : Prop := Z.of_nat N < len_ d + len_ d / 32 + 6.
Lemma too_small_if : 32 * Z.of_nat N <= 33 * len_ d + 160 -> too_small.
Proof. unfold too_small. pose proof (Z.div_mod (len_ d) 32). pose proof (Z.mod_pos_bound (len_ d) 32). lia. Qed.

(** The input after a match of [len] octets. *)
Lemma expand_match ts p ref len :
  expand ts = take (Z.to_nat p) d -> 0 < ref < p -> 3 <= len -> p + len <= len_ d -> agree d ref p len ->
  expand (ts ++ [Ref (p - ref - 1) (len - 2)]) = take (Z.to_nat (p + len)) d.
Proof.
  intros He Hr Hl Hlen Ha. rewrite expand_snoc. cbn [add_tok]. rewrite He.
  replace (Z.to_nat (len - 2 + 2)) with (Z.to_nat len) by lia. replace (Z.to_nat (p - ref - 1 + 1)) with (Z.to_nat (p - ref)) by lia.
  rewrite grow_prefix; [f_equal; lia|lia|lia|]. intros i Hi. specialize (Ha i ltac:(lia)).
  replace (Z.of_nat (Z.to_nat p) - Z.of_nat (Z.to_nat (p - ref)) + i) with (ref + i) by lia.
  by replace (Z.of_nat (Z.to_nat p) + i) with (p + i) by lia.
Qed.

(** A state with no open run. *)
Lemma packs_fresh ts rest p h t :
  valid_toks [] ts -> expand ts = take (Z.to_nat p) d -> length (encode ts ++ rest) = N -> 0 <= p <= len_ d -> slots_ok base t ->
  32 * len_ (encode ts) <= 33 * p ->
  packs (mk_comp p (len_ (encode ts) + 1) 0 h t (encode ts ++ rest)) ts.
Proof.
  intros Hv He Hn Hp Ht Hc. split; cbn [lit ip op out htab]; try done; try lia.
  - by rewrite Z.sub_0_r.
  - exists rest. split; [done|by left].
Qed.

Lemma emit_match_ok s ts ref off :
  packs s ts -> ip s < len_ d - 2 -> 0 < ref < ip s -> off = ip s - ref - 1 -> off < MAX_OFF -> agree d ref (ip s) 3 ->
  exists r, emit_match d s ref off = inr r /\
    match r with
    | Return0 o => too_small /\ length o = N
    | Next (s', brk) => (exists ts', packs s' ts') /\ ip s + 3 <= ip s' /\ (brk = true -> len_ d - 2 <= ip s')
    end.
Proof.
  intros Hp Hip Hr -> Hoff Ha. pose proof (p_slots _ _ _ _ _ Hp) as Hs. pose proof (p_len _ _ _ _ _ Hp) as Hn. pose proof (op_small _ _ Hp) as Hc.
  pose proof (p_lit _ _ _ _ _ Hp). pose proof (p_ip _ _ _ _ _ Hp).
  unfold emit_match. rewrite Hn. set (nolit := if lit s =? 0 then 1 else 0). assert (0 <= nolit <= 1) by (unfold nolit; destruct (lit s =? 0); lia).
  destruct ((Z.of_nat N <=? op s + 3 + 1) && (Z.of_nat N <=? op s - nolit + 3 + 1)) eqn:Eg.
  { apply andb_true_iff in Eg as [?%Z.leb_le _]. eexists. split; [done|]. split; [apply too_small_if; lia|done]. }
  assert (op s - nolit + 4 < Z.of_nat N) as Hroom by (apply andb_false_iff in Eg as [?%Z.leb_gt|?%Z.leb_gt]; lia).
  destruct (stop_run_ok _ _ Hp) as (ts1 & rest & -> & Hn1 & Hv & He & Hl); [lia|]. cbn [mbind result_bind]. change (if lit s =? 0 then 1 else 0) with nolit in Hl.
  set (maxlen := if MAX_REF <? _ then _ else _).
  assert (1 <= maxlen <= MAX_REF /\ ip s + maxlen + 2 <= len_ d) as [Hm1 Hm2].
  { unfold maxlen. change MAX_REF with 264. destruct (Z.ltb_spec 264 (len_ d - ip s - 2)); lia. }
  destruct (match_len_ok d ref (ip s) ltac:(lia) maxlen Hm1 Hm2 Ha) as (L & -> & HL & HLd & HaL). cbn [mbind result_bind].
  set (bs := ref_bytes _ _). pose proof (length_ref_bytes (ip s - ref - 1) (L - 2) ltac:(lia)) as Hbs. fold bs in Hbs. rewrite length_app in Hn1.
  rewrite <- (take_drop (length bs) rest), (put_app (encode ts1)) by (rewrite ?length_take; lia). cbn [mbind result_bind].
  set (tk := Ref (ip s - ref - 1) (L - 2)). pose proof (encode_snoc ts1 tk) as Een. change (enc_tok tk) with bs in Een. rewrite app_assoc, <- Een.
  pose proof (expand_match ts1 (ip s) ref L He Hr ltac:(lia) HLd HaL) as Hex. fold tk in Hex.
  assert (valid_toks [] (ts1 ++ [tk])) as Hv2.
  { rewrite valid_snoc. split; [done|]. change (foldl add_tok [] ts1) with (expand ts1). rewrite He. unfold tk. cbn [valid_tok].
    change MAX_OFF with 8192 in Hoff. change MAX_REF with 264 in HL. rewrite length_take. lia. }
  replace (ip s + 1 + (L - 2 + 1)) with (ip s + L) by lia.
  replace (op s - nolit + len_ bs + 1) with (len_ (encode (ts1 ++ [tk])) + 1) by (rewrite Een, length_app; lia).
  assert (forall h t, slots_ok base t -> packs (mk_comp (ip s + L) (len_ (encode (ts1 ++ [tk])) + 1) 0 h t (encode (ts1 ++ [tk]) ++ drop (length bs) rest)) (ts1 ++ [tk])) as Hpk.
  { intros h t Ht. apply packs_fresh; try done; rewrite ?Een, ?length_app, ?length_drop; try lia. }
  destruct (Z.leb_spec (len_ d - 2) (ip s + L)).
  { eexists. split; [done|]. cbn [ip]. split; [eauto|]. split; [lia|done]. }
  destruct (frst_ok (ip s + L - 2)) as [h1 ->]; [lia..|]. cbn [mbind result_bind]. destruct (next_ok h1 (ip s + L - 2)) as [h2 ->]; [lia..|].
  cbn [mbind result_bind]. destruct (next_ok h2 (ip s + L - 2 + 1)) as [h3 ->]; [lia..|]. cbn [mbind result_bind].
  eexists. split; [done|]. cbn [ip]. split; [|split; [lia|done]]. replace (ip s + L - 2 + 1 + 1) with (ip s + L) by lia.
  eexists. apply Hpk. eapply slots_set; eauto; [|lia]. eapply slots_set; eauto. lia.
Qed.

Lemma compress_loop_ok fuel s ts :
  packs s ts -> len_ d - ip s <= Z.of_nat fuel ->
  exists r, compress_loop fuel d s = inr r /\ match r with Return0 o => too_small /\ length o = N | Next s' => len_ d - 2 <= ip s' /\ exists ts', packs s' ts' end.
Proof.
  revert s ts. induction fuel as [|fuel IH]; intros s ts Hp Hf; cbn [compress_loop]; (destruct (Z.ltb_spec (ip s) (len_ d - 2)); [|eexists; split; [done|]; split; [lia|eauto]]); [lia|].
  destruct (find_ref_ok _ _ Hp) as (h & t & m & -> & Hp' & Hm); [done|]. cbn [mbind result_bind]. set (s1 := with_slots s h t) in *.
  change (ip s) with (ip s1) in *. destruct m as [[ref off]|].
  - destruct Hm as (Hr & Eo & Hoff & Ha). destruct (emit_match_ok s1 ts ref off) as (r & -> & Hr'); [done..|]. cbn [mbind result_bind].
    destruct r as [o|[s2 brk]]; [eauto|]. destruct Hr' as ((ts2 & Hp2) & Hip & Hb). destruct brk; [eexists; split; [done|]; split; [by apply Hb|eauto]|].
    apply (IH s2 ts2 Hp2). lia.
  - rewrite (p_len _ _ _ _ _ Hp'). pose proof (op_small _ _ Hp'). destruct (Z.leb_spec (Z.of_nat N) (op s1)).
    { eexists. split; [done|]. split; [apply too_small_if; lia|by apply (p_len _ _ _ _ _ Hp')]. }
    destruct (push_literal_ok _ _ _ _ _ Hp') as (s2 & ts2 & -> & Hp2 & Hip & _); [lia|lia|]. cbn [mbind result_bind]. apply (IH s2 ts2 Hp2). lia.
Qed.

(** The last octets: room for them all, and for the header of a run they may start. *)
Definition room (s : comp) : Prop :=
  len_ d - ip s <= 2 /\
  (op s + (len_ d - ip s) + 1 <= Z.of_nat N \/ lit s + (len_ d - ip s) < 32 /\ op s + (len_ d - ip s) <= Z.of_nat N).

Lemma last_octets_ok s ts :
  packs s ts -> room s ->
  exists s' ts', while (length d) (fun s => ip s <? len_ d) (push_literal d) s = inr s' /\ packs s' ts' /\ ip s' = len_ d /\ op s' <= Z.of_nat N.
Proof.
  intros Hp Hr. destruct (while_inv (fun s => exists ts, packs s ts /\ room s) (fun s => Z.to_nat (len_ d - ip s)) (length d)
    (fun s => ip s <? len_ d) (push_literal d) s) as (s' & -> & (ts' & Hp' & Hr') & Hc%Z.ltb_ge).
  - eauto.
  - pose proof (p_ip _ _ _ _ _ Hp). pose proof (p_lit _ _ _ _ _ Hp). lia.
  - intros s1 (ts1 & Hp1 & Hr1) Hlt%Z.ltb_lt. unfold room in Hr1.
    destruct (push_literal_ok _ _ _ _ _ Hp1) as (s2 & ts2 & E2 & Hp2 & Hip & Hl); [lia|lia|].
    exists s2. split; [done|]. split; [|lia]. exists ts2. split; [done|]. unfold room. pose proof (p_lit _ _ _ _ _ Hp1).
    destruct (Z.eqb_spec (lit s1) 31); lia.
  - exists s', ts'. split; [done|]. split; [done|]. pose proof (p_ip _ _ _ _ _ Hp'). unfold room in Hr'. lia.
Qed.

Lemma packs_start h t out0 : length out0 = N -> slots_ok base t -> packs (mk_comp 0 1 0 h t out0) [].
Proof. intros Hn Ht. apply (packs_fresh [] out0 0 h t); try done. lia. Qed.

Lemma lzf_compress_ok htab0 out0 :
  2 <= len_ d -> length out0 = N -> slots_ok base htab0 ->
  exists n out', lzf_compress d htab0 out0 = inr (n, out') /\ length out' = N /\
    (n = 0 /\ too_small \/
     0 < n <= Z.of_nat N /\ exists ts, valid_toks [] ts /\ expand ts = d /\ take (Z.to_nat n) out' = encode ts).
Proof.
  intros Hlen Hn Ht. unfold lzf_compress. rewrite (proj2 (Z.eqb_neq (len_ d) 0)) by lia. cbn [orb].
  destruct (Z.eqb_spec (len_ out0) 0) as [E0|H0].
  { eexists _, _. split; [done|]. split; [done|]. left. split; [done|]. apply too_small_if. lia. }
  destruct (frst_ok 0) as [h ->]; [lia..|]. cbn [mbind result_bind].
  destruct (compress_loop_ok (length d) _ _ (packs_start h htab0 out0 Hn Ht)) as (r & -> & Hr); [cbn; lia|]. cbn [mbind result_bind].
  destruct r as [o|s]; [by eexists _, _; split; [done|]; split; [apply Hr|]; left; split; [done|apply Hr]|].
  destruct Hr as (Hip & ts & Hp). pose proof (op_small _ _ Hp). pose proof (p_ip _ _ _ _ _ Hp). rewrite (p_len _ _ _ _ _ Hp).
  destruct (Z.ltb_spec (Z.of_nat N) (op s + 3)).
  { eexists _, _. split; [done|]. split; [apply (p_len _ _ _ _ _ Hp)|]. left. split; [done|]. apply too_small_if. lia. }
  destruct (last_octets_ok s ts Hp) as (s1 & ts1 & -> & Hp1 & Hip1 & Hop1); [unfold room; lia|]. cbn [mbind result_bind].
  destruct (stop_run_ok s1 ts1 Hp1) as (ts2 & rest & -> & Hn2 & Hv2 & He2 & Hl2); [lia|]. cbn [mbind result_bind mret result_ret].
  eexists _, _. split; [done|]. split; [done|]. right. rewrite Hip1, Nat2Z.id, firstn_all in He2. rewrite <- Hl2. rewrite length_app in Hn2. split.
  - destruct ts2 as [|t2 ts2]; [rewrite <- He2 in Hlen; cbn in Hlen; lia|]. rewrite encode_cons, length_app in *. pose proof (enc_tok_pos t2). lia.
  - exists ts2. rewrite Nat2Z.id, take_app_length. done.
Qed.
End Run.

(** ** Decompressing anything *)

Lemma put_safe o p bs : 0 <= p -> p + len_ bs <= len_ o -> exists o', put_bytes o p bs = inr o' /\ length o' = length o.
Proof.
  intros H0 Hp. unfold put_bytes. rewrite (proj2 (Z.leb_le _ _)) by done. cbn [defined_if mbind result_bind].
  rewrite write_ok by lia. eexists. split; [done|]. rewrite !length_app, length_take, length_drop. lia.
Qed.

Lemma copy_octets_safe n o op ref :
  0 <= ref -> ref < op -> op + Z.of_nat n <= len_ o -> exists o', copy_octets n o op ref = inr o' /\ length o' = length o.
Proof.
  revert o op ref. induction n as [|n IH]; intros o op ref Hr Ho Hl; cbn [copy_octets]; [eauto|].
  rewrite byte_at_octet by lia. cbn [mbind result_bind]. destruct (put_safe o op [octet o ref]) as (o1 & -> & E1); [lia|cbn [length]; lia|].
  cbn [mbind result_bind]. rewrite <- E1. apply IH; rewrite ?E1; lia.
Qed.

Lemma copy_ref_safe o op ref len :
  0 <= ref -> ref < op -> 0 <= len -> op + len + 2 <= len_ o -> exists o', copy_ref o op ref len = inr o' /\ length o' = length o.
Proof.
  intros. unfold copy_ref. destruct (9 <? len); [|apply copy_octets_safe; lia].
  destruct (Z.leb_spec (ref + (len + 2)) op); [|apply copy_octets_safe; lia]. rewrite read_ok by lia. cbn [mbind result_bind].
  apply put_safe; [lia|]. rewrite length_take, length_drop. lia.
Qed.

(** Every turn that goes on has read at least a byte and stayed in the output block. *)
Lemma decompress_turn_safe c s :
  is_bytes c -> 0 <= d_ip s < len_ c -> 0 <= d_op s <= len_ (d_out s) ->
  exists r, decompress_turn c s = inr r /\
    match r with
    | Return0 o => length o = length (d_out s)
    | Next s' => d_ip s < d_ip s' /\ 0 <= d_op s' <= len_ (d_out s') /\ length (d_out s') = length (d_out s)
    end.
Proof.
  intros Hc Hip Hop. unfold decompress_turn.
  assert (forall p, 0 <= p < len_ c -> byte_at c p = inr (octet c p) /\ 0 <= octet c p < 256) as Hat.
  { intros p Hp. split; [by apply byte_at_octet|]. unfold octet. rewrite nth_lookup.
    destruct (lookup_lt_is_Some_2 c (Z.to_nat p)) as [b Hb]; [lia|]. rewrite Hb. exact (Forall_lookup_1 _ _ _ _ Hc Hb). }
  destruct (Hat (d_ip s)) as [-> Hctrl]; [done|]. cbn [mbind result_bind]. set (ctrl := octet c (d_ip s)) in *. change (Z.shiftl 1 5) with 32.
  destruct (Z.ltb_spec ctrl 32).
  { destruct (Z.ltb_spec (len_ (d_out s)) (d_op s + (ctrl + 1))); [by eexists|]. destruct (Z.ltb_spec (len_ c) (d_ip s + 1 + (ctrl + 1))); [by eexists|].
    rewrite read_ok by lia. cbn [mbind result_bind]. edestruct (put_safe (d_out s) (d_op s)) as (o & -> & Eo); [lia|rewrite length_take, length_drop; lia|].
    eexists. split; [done|]. cbn [d_ip d_op d_out]. rewrite Eo. lia. }
  destruct (Z.leb_spec (len_ c) (d_ip s + 1)); [by eexists|].
  assert (0 <= Z.land ctrl 0x1f) by (apply Z.land_nonneg; lia). assert (0 <= Z.shiftr ctrl 5) by (apply Z.shiftr_nonneg; lia).
  rewrite Z.shiftl_mul_pow2 by lia.
  assert (forall p len, d_ip s < p -> 0 <= len -> p < len_ c -> exists r,
    (b ← byte_at c p; let ip := p + 1 in let ref := d_op s - Z.land ctrl 0x1f * 2 ^ 8 - 1 - b in
     if len_ (d_out s) <? d_op s + len + 2 then mret (Return0 (d_out s)) else
     if ref <? 0 then mret (Return0 (d_out s)) else o ← copy_ref (d_out s) (d_op s) ref len; mret (Next (mk_decomp ip (d_op s + len + 2) o))) = inr r /\
    match r with
    | Return0 o => length o = length (d_out s)
    | Next s' => d_ip s < d_ip s' /\ 0 <= d_op s' <= len_ (d_out s') /\ length (d_out s') = length (d_out s)
    end) as Href.
  { intros p len Hp Hl Hpc. destruct (Hat p) as [-> Hb]; [lia|]. cbn [mbind result_bind]. set (ref := d_op s - _ - 1 - _). cbn zeta.
    destruct (Z.ltb_spec (len_ (d_out s)) (d_op s + len + 2)); [by eexists|]. destruct (Z.ltb_spec ref 0); [by eexists|].
    destruct (copy_ref_safe (d_out s) (d_op s) ref len) as (o & -> & Eo); [lia|unfold ref; lia|lia|lia|].
    eexists. split; [done|]. cbn [d_ip d_op d_out]. rewrite Eo. lia. }
  destruct (Z.eqb_spec (Z.shiftr ctrl 5) 7) as [->|]; [|cbn [mbind result_bind mret result_ret]; apply Href; lia].
  destruct (Hat (d_ip s + 1)) as [-> Hb]; [lia|]. cbn [mbind result_bind mret result_ret].
  destruct (Z.leb_spec (len_ c) (d_ip s + 1 + 1)); [by eexists|]. apply Href; lia.
Qed.

Lemma decompress_loop_safe fuel c s :
  is_bytes c -> 0 <= d_ip s -> len_ c - d_ip s <= Z.of_nat fuel -> 0 <= d_op s <= len_ (d_out s) ->
  exists r, decompress_loop fuel c s = inr r /\
    match r with Return0 o => length o = length (d_out s) | Next s' => 0 <= d_op s' <= len_ (d_out s') /\ length (d_out s') = length (d_out s) end.
Proof.
  intros Hc. revert s. induction fuel as [|fuel IH]; intros s H0 Hf Hop; cbn [decompress_loop];
    (destruct (Z.ltb_spec (d_ip s) (len_ c)); [|by eexists]); [lia|].
  destruct (decompress_turn_safe c s Hc) as (r & -> & Hr); [lia|done|]. cbn [mbind result_bind]. destruct r as [o|s1]; [by eexists|].
  destruct Hr as (Hip & Hop1 & El). rewrite <- El. apply IH; lia.
Qed.

(** C17: Whatever bytes it is given, [lzf_decompress] ends without reading or writing outside its two blocks; it
    answers with an error or with a number of bytes that fits the output. *)
Theorem lzf_decompress_safe c out0 :
  is_bytes c -> exists n out', lzf_decompress c out0 = inr (n, out') /\ 0 <= n <= len_ out0 /\ length out' = length out0.
Proof.
  intros Hc. unfold lzf_decompress. destruct (decompress_loop_safe (length c) c (mk_decomp 0 0 out0)) as (r & -> & Hr); [done|cbn; lia..|].
  cbn [mbind result_bind mret result_ret d_out] in *. destruct r as [o|s]; eexists _, _; (split; [done|]).
  - split; [lia|done].
  - destruct Hr as [Hop El]. rewrite <- El. done.
Qed.

(** A reference before the start of the output is refused. *)
Lemma lzf_decompress_safe_witness :
  lzf_decompress [32; 0] (replicate 8 0) = inr (0, replicate 8 0) /\
  exists n out', lzf_decompress [32; 0] (replicate 8 0) = inr (n, out') /\ 0 <= n <= len_ (replicate 8 0) /\ length out' = length (replicate 8 0).
Proof. split; [vm_compute; reflexivity|]. apply (lzf_decompress_safe [32; 0] (replicate 8 0)). repeat constructor; unfold in_u; lia. Defined.

(** ** The round trip *)

(** C15: Compressing at least two bytes, with any address of the input beyond the first pages and any leftover addresses
    in the hash table, never leaves the input or the output block.  It either returns 0, which needs an output block
    smaller than the input with one byte in 32 and six more, or it returns the length of a packed text that
    [lzf_decompress] turns back into the input in any block that is large enough. *)
Theorem lzf_roundtrip d htab0 out0 base :
  is_bytes d -> 2 <= len_ d -> MAX_OFF <= base -> base + len_ d <= 2 ^ 64 -> slots_ok base htab0 ->
  exists n out', lzf_compress d htab0 out0 = inr (n, out') /\ length out' = length out0 /\
    (n = 0 /\ len_ out0 < len_ d + len_ d / 32 + 6 \/
     0 < n <= len_ out0 /\ forall back, (length d <= length back)%nat ->
       exists rest, lzf_decompress (take (Z.to_nat n) out') back = inr (len_ d, d ++ rest) /\ length (d ++ rest) = length back).
Proof.
  intros Hd Hlen Hb Ht Hs. destruct (lzf_compress_ok d Hd (length out0) base Hb Ht htab0 out0) as (n & out' & -> & Hn & H); [done..|].
  exists n, out'. split; [done|]. split; [done|]. destruct H as [[-> Hsm]|(Hpos & ts & Hv & He & ->)]; [by left|]. right. split; [done|].
  intros back Hback. rewrite <- He in *. destruct (lzf_decompress_ok ts back) as (rest & -> & Hr); [done..|]. by exists rest.
Qed.

(** Forty equal bytes, with an empty table, are packed into nine. *)
Definition sample : bytes := replicate 40 97.
Lemma lzf_roundtrip_witness :
  lzf_compress sample (fun _ => - 2 ^ 20) (replicate 64 0) = inr (9, [1; 97; 97; 224; 27; 0; 1; 97; 97] ++ replicate 55 0) /\
  lzf_decompress [1; 97; 97; 224; 27; 0; 1; 97; 97] (replicate 40 0) = inr (40, sample) /\
  exists n out', lzf_compress sample (fun _ => - 2 ^ 20) (replicate 64 0) = inr (n, out') /\ length out' = length (replicate 64 0) /\
    (n = 0 /\ len_ (replicate 64 0) < len_ sample + len_ sample / 32 + 6 \/
     0 < n <= len_ (replicate 64 0) /\ forall back, (length sample <= length back)%nat ->
       exists rest, lzf_decompress (take (Z.to_nat n) out') back = inr (len_ sample, sample ++ rest) /\ length (sample ++ rest) = length back).
Proof.
  split; [vm_compute; reflexivity|]. split; [vm_compute; reflexivity|].
  apply (lzf_roundtrip sample (fun _ => - 2 ^ 20) (replicate 64 0) (2 ^ 20)); try (vm_compute; congruence).
  - apply Forall_replicate. unfold in_u. lia.
  - intros j. lia.
Defined.

(** With one byte of input, the first hash value already reads the byte after it. *)
Lemma lzf_compress_one_byte b htab0 out0 : (0 < length out0)%nat -> lzf_compress [b] htab0 out0 = inl UndefinedBehaviour.
Proof. intros H. unfold lzf_compress. by destruct out0; [cbn in H; lia|]. Qed.
