(* ===== verification/Dict.v ===== *)
(** * Hash tables with incremental rehashing

    [dict.c] of Redis.  A dictionary has two tables of buckets; while it is rehashed every
    operation moves a bucket from the first table to the second.  Entries live in a heap and
    are chained through their [next] fields.  A pointer to an entry carries its kind in its
    low bits: an entry with a value, an entry without one, or, with an odd pointer, the key
    itself without any entry.  Pointers are numbers, 0 is NULL. *)

From S2P Require Import Prelude.

(** A [struct dictEntry], whose value is not initialised at first, and a [dictEntryNoValue]. *)
Inductive entry := Normal (key : Z) (v : option Z) (next : Z) | NoValue (key next : Z).

Inductive dictResizeEnable := DICT_RESIZE_ENABLE | DICT_RESIZE_AVOID | DICT_RESIZE_FORBID.
#[export] Instance dictResizeEnable_eq_dec : EqDecision dictResizeEnable.
Proof. solve_decision. Defined.

(** What the destructors of the type were called for. *)
Inductive call := FreeKey (k : Z) | FreeVal (v : Z).

Record world := mk_world { objs : gmap Z entry; calls : list call; dict_can_resize : dictResizeEnable }.
Definition dict_force_resize_ratio : Z := 5.

(** The allocator: [zmalloc] of an entry and [zcalloc] of a table, which abort rather than fail. *)
Class Zmalloc := {
  new_entry : gmap Z entry -> Z;
  new_table : world -> Z;
  new_entry_fresh h : h !! new_entry h = None;
  new_entry_pos h : 0 < new_entry h;
  new_entry_aligned h : Z.land (new_entry h) 7 = 0;
  new_table_pos w : 0 < new_table w }.

(** The callbacks of a [dictType]; the destructors only leave a trace.  [expandAllowed] gets the
    bytes, and the two numbers whose quotient is the ratio. *)
Record dictType := mk_type {
  hashFunction : Z -> Z;
  keyDup : option (Z -> Z); valDup : option (Z -> Z);
  keyCompare : option (Z -> Z -> bool);
  keyDestructor : bool; valDestructor : bool;
  expandAllowed : option (Z -> Z -> Z -> bool);
  no_value : bool; keys_are_odd : bool;
  dictEntryMetadataSize : Z }.

Definition DICT_OK : Z := 0.
Definition DICT_ERR : Z := 1.
Definition DICT_HT_INITIAL_EXP : Z := 2.
Definition DICT_HT_INITIAL_SIZE : Z := Z.shiftl 1 DICT_HT_INITIAL_EXP.
Definition DICTHT_SIZE (exp : Z) : Z := if exp =? -1 then 0 else u64 (Z.shiftl 1 exp).
Definition DICTHT_SIZE_MASK (exp : Z) : Z := if exp =? -1 then 0 else DICTHT_SIZE exp - 1.

(** One of the two tables: its address, its buckets, and the fields at its index. *)
Record ht := mk_ht { ht_table : Z; slots : list Z; ht_used : Z; ht_size_exp : Z }.
Record dict := mk_dict { type : dictType; ht0 : ht; ht1 : ht; rehashidx : Z; pauserehash : Z }.

Definition ht_at (d : dict) (t : bool) : ht := if t then ht1 d else ht0 d.
Definition set_ht (d : dict) (t : bool) (x : ht) : dict :=
  if t then mk_dict (type d) (ht0 d) x (rehashidx d) (pauserehash d) else mk_dict (type d) x (ht1 d) (rehashidx d) (pauserehash d).
Definition set_rehashidx (d : dict) (i : Z) : dict := mk_dict (type d) (ht0 d) (ht1 d) i (pauserehash d).
Definition set_pauserehash (d : dict) (p : Z) : dict := mk_dict (type d) (ht0 d) (ht1 d) (rehashidx d) p.
Definition set_slots (x : ht) (s : list Z) : ht := mk_ht (ht_table x) s (ht_used x) (ht_size_exp x).
Definition set_used (x : ht) (n : Z) : ht := mk_ht (ht_table x) (slots x) n (ht_size_exp x).

(** [d->ht_table[t][i]] *)
Definition bucket (d : dict) (t : bool) (i : Z) : result Z := _ ← defined_if (0 <=? i); the (slots (ht_at d t) !! Z.to_nat i).
Definition set_bucket (d : dict) (t : bool) (i : Z) (de : Z) : result dict :=
  _ ← bucket d t i; mret (set_ht d t (set_slots (ht_at d t) (<[Z.to_nat i := de]> (slots (ht_at d t))))).

Definition dictSize (d : dict) : Z := u64 (ht_used (ht0 d) + ht_used (ht1 d)).
Definition dictSlots (d : dict) : Z := u64 (DICTHT_SIZE (ht_size_exp (ht0 d)) + DICTHT_SIZE (ht_size_exp (ht1 d))).
Definition dictIsRehashing (d : dict) : bool := negb (rehashidx d =? -1).
Definition dictPauseRehashing (d : dict) : dict := set_pauserehash d (i16 (pauserehash d + 1)).
Definition dictResumeRehashing (d : dict) : dict := set_pauserehash d (i16 (pauserehash d - 1)).
Definition dictCompareKeys (ty : dictType) (key1 key2 : Z) : bool :=
  match keyCompare ty with Some f => f key1 key2 | None => key1 =? key2 end.
Definition mask_of (d : dict) (t : bool) : Z := DICTHT_SIZE_MASK (ht_size_exp (ht_at d t)).

(** ** Entry pointers *)

Definition ENTRY_PTR_MASK : Z := 7.
Definition ENTRY_PTR_NORMAL : Z := 0.
Definition ENTRY_PTR_NO_VALUE : Z := 2.
Definition entryIsKey (de : Z) : bool := negb (Z.land de 1 =? 0).
Definition entryIsNormal (de : Z) : bool := Z.land de ENTRY_PTR_MASK =? ENTRY_PTR_NORMAL.
Definition entryIsNoValue (de : Z) : bool := Z.land de ENTRY_PTR_MASK =? ENTRY_PTR_NO_VALUE.
Definition entryHasValue (de : Z) : bool := entryIsNormal de.
Definition decodeMaskedPtr (de : Z) : result Z := _ ← assert (negb (entryIsKey de)); mret (Z.land de (Z.lnot ENTRY_PTR_MASK)).

(** Access to a [dictEntry] and to a [dictEntryNoValue]. *)
Definition normal (w : world) (a : Z) : result (Z * option Z * Z) :=
  match objs w !! a with Some (Normal k v n) => mret (k, v, n) | _ => inl UndefinedBehaviour end.
Definition novalue (w : world) (a : Z) : result (Z * Z) :=
  match objs w !! a with Some (NoValue k n) => mret (k, n) | _ => inl UndefinedBehaviour end.
Definition decodeEntryNoValue (w : world) (de : Z) : result (Z * Z) := a ← decodeMaskedPtr de; novalue w a.
Definition put_obj (w : world) (a : Z) (e : entry) : world := mk_world (<[a := e]> (objs w)) (calls w) (dict_can_resize w).
Definition zfree (w : world) (a : Z) : result world :=
  _ ← the (objs w !! a); mret (mk_world (delete a (objs w)) (calls w) (dict_can_resize w)).

Definition dictGetKey (w : world) (de : Z) : result Z :=
  if entryIsKey de then mret de else
  if entryIsNoValue de then '(k, _) ← decodeEntryNoValue w de; mret k else
  '(k, _, _) ← normal w de; mret k.
Definition dictGetNext (w : world) (de : Z) : result Z :=
  if entryIsKey de then mret 0 else
  if entryIsNoValue de then '(_, n) ← decodeEntryNoValue w de; mret n else
  '(_, _, n) ← normal w de; mret n.
Definition dictSetNext (w : world) (de next : Z) : result world :=
  _ ← assert (negb (entryIsKey de));
  if entryIsNoValue de then
    a ← decodeMaskedPtr de; '(k, _) ← novalue w a; mret (put_obj w a (NoValue k next))
  else '(k, v, _) ← normal w de; mret (put_obj w de (Normal k v next)).
Definition dictGetVal (w : world) (de : Z) : result Z :=
  _ ← assert (entryHasValue de); '(_, v, _) ← normal w de; the v.
(** [de->v = val], with the 64 bits of the union. *)
Definition set_v (w : world) (de val : Z) : result world :=
  _ ← assert (entryHasValue de); '(k, _, n) ← normal w de; mret (put_obj w de (Normal k (Some val) n)).
Definition dictSetVal (w : world) (d : dict) (de val : Z) : result world :=
  set_v w de (match valDup (type d) with Some f => f val | None => val end).
Definition dictSetKey (w : world) (d : dict) (de key : Z) : result world :=
  _ ← assert (negb (no_value (type d)));
  '(_, v, n) ← normal w de;
  mret (put_obj w de (Normal (match keyDup (type d) with Some f => f key | None => key end) v n)).
Definition dictSetSignedIntegerVal (w : world) (de val : Z) : result world := set_v w de (u64 val).
Definition dictSetUnsignedIntegerVal (w : world) (de val : Z) : result world := set_v w de val.
Definition dictGetSignedIntegerVal (w : world) (de : Z) : result Z := v ← dictGetVal w de; mret (i64 v).
Definition dictGetUnsignedIntegerVal (w : world) (de : Z) : result Z := dictGetVal w de.
Definition dictIncrSignedIntegerVal (w : world) (de val : Z) : result (world * Z) :=
  v ← dictGetSignedIntegerVal w de; _ ← defined_if (bool_decide (in_s 64 (v + val))); w ← set_v w de (u64 (v + val)); mret (w, v + val).
Definition dictIncrUnsignedIntegerVal (w : world) (de val : Z) : result (world * Z) :=
  v ← dictGetVal w de; w ← set_v w de (u64 (v + val)); mret (w, u64 (v + val)).

Section Operations.
Context `{!Zmalloc}.

Definition createEntryNoValue (w : world) (key next : Z) : world * Z :=
  let a := new_entry (objs w) in (put_obj w a (NoValue key next), Z.lor a ENTRY_PTR_NO_VALUE).

Definition call_back (w : world) (c : call) : world := mk_world (objs w) (calls w ++ [c]) (dict_can_resize w).
Definition dictFreeKey (w : world) (d : dict) (de : Z) : result world :=
  if keyDestructor (type d) then k ← dictGetKey w de; mret (call_back w (FreeKey k)) else mret w.
Definition dictFreeVal (w : world) (d : dict) (de : Z) : result world :=
  if valDestructor (type d) then v ← dictGetVal w de; mret (call_back w (FreeVal v)) else mret w.
(** [dictFreeKey(d, he); dictFreeVal(d, he); if (!entryIsKey(he)) zfree(decodeMaskedPtr(he));] *)
Definition free_entry (w : world) (d : dict) (he : Z) : result world :=
  w ← dictFreeKey w d he; w ← dictFreeVal w d he;
  if entryIsKey he then mret w else a ← decodeMaskedPtr he; zfree w a.

(** ** Creation and sizes *)

Definition _dictReset : ht := mk_ht 0 [] 0 (-1).
Definition dictCreate (ty : dictType) : dict := mk_dict ty _dictReset _dictReset (-1) 0.

Definition __builtin_clzl (x : Z) : Z := 63 - Z.log2 x.
Definition _dictNextExp (size : Z) : Z :=
  if size <=? DICT_HT_INITIAL_SIZE then DICT_HT_INITIAL_EXP else
  if 2 ^ 63 - 1 <=? size then 8 * 8 - 1 else
  8 * 8 - __builtin_clzl (u64 (size - 1)).

(** [try] is whether [malloc_failed] was given; [full] whether [ztrycalloc] then returns NULL.  The
    code returned, and [*malloc_failed]. *)
Definition _dictExpand (w : world) (d : dict) (size : Z) (try full : bool) : dict * Z * bool :=
  if dictIsRehashing d || (size <? ht_used (ht0 d)) then (d, DICT_ERR, false) else
  let new_ht_size_exp := _dictNextExp size in
  let newsize := u64 (Z.shiftl 1 new_ht_size_exp) in
  if (newsize <? size) || (u64 (newsize * 8) <? newsize) then (d, DICT_ERR, false) else
  if new_ht_size_exp =? ht_size_exp (ht0 d) then (d, DICT_ERR, false) else
  if try && full then (d, DICT_ERR, true) else
  let fresh := mk_ht (new_table w) (replicate (Z.to_nat newsize) 0) 0 new_ht_size_exp in
  if ht_table (ht0 d) =? 0 then (set_ht d false fresh, DICT_OK, false)
  else (set_rehashidx (set_ht d true fresh) 0, DICT_OK, false).
Definition dictExpand (w : world) (d : dict) (size : Z) : dict * Z := (_dictExpand w d size false false).1.
Definition dictTryExpand (w : world) (d : dict) (size : Z) (full : bool) : dict * Z :=
  let '(d, _, malloc_failed) := _dictExpand w d size true full in (d, if malloc_failed then DICT_ERR else DICT_OK).

Definition dictResize (w : world) (d : dict) : dict * Z :=
  if negb (bool_decide (dict_can_resize w = DICT_RESIZE_ENABLE)) || dictIsRehashing d then (d, DICT_ERR) else
  let minimal := ht_used (ht0 d) in
  let minimal := if minimal <? DICT_HT_INITIAL_SIZE then DICT_HT_INITIAL_SIZE else minimal in
  dictExpand w d minimal.
Definition dictSetResizeEnabled (w : world) (enable : dictResizeEnable) : world := mk_world (objs w) (calls w) enable.

(** The condition of [dictTypeExpandAllowed] divides by the size, which is not 0 where it is called. *)
Definition dictTypeExpandAllowed (d : dict) : bool :=
  match expandAllowed (type d) with
  | None => true
  | Some f => f (u64 (DICTHT_SIZE (_dictNextExp (u64 (ht_used (ht0 d) + 1))) * 8)) (ht_used (ht0 d)) (DICTHT_SIZE (ht_size_exp (ht0 d)))
  end.
Definition _dictExpandIfNeeded (w : world) (d : dict) : dict * Z :=
  if dictIsRehashing d then (d, DICT_OK) else
  let size := DICTHT_SIZE (ht_size_exp (ht0 d)) in
  if size =? 0 then dictExpand w d DICT_HT_INITIAL_SIZE else
  if (bool_decide (dict_can_resize w = DICT_RESIZE_ENABLE) && (size <=? ht_used (ht0 d))) ||
     (negb (bool_decide (dict_can_resize w = DICT_RESIZE_FORBID)) && (dict_force_resize_ratio <? ht_used (ht0 d) / size)) then
    if dictTypeExpandAllowed d then dictExpand w d (u64 (ht_used (ht0 d) + 1)) else (d, DICT_OK)
  else (d, DICT_OK).

(** ** Rehashing *)

(** A chain holds every entry once, and an odd key at its end. *)
Definition chain_fuel (w : world) : nat := S (size (objs w)).

(** [while(d->ht_table[0][d->rehashidx] == NULL)]: the flag says that it returned. *)
Fixpoint skip_empty (fuel : nat) (d : dict) (empty_visits : Z) : result (dict * Z * bool) :=
  de ← bucket d false (rehashidx d);
  if de =? 0 then
    match fuel with
    | O => inl OutOfFuel
    | S fuel =>
        let d := set_rehashidx d (rehashidx d + 1) in
        let empty_visits := empty_visits - 1 in
        if empty_visits =? 0 then mret (d, empty_visits, true) else skip_empty fuel d empty_visits
    end
  else mret (d, empty_visits, false).

(** The entry as it goes into the bucket of the new table that starts with [head]. *)
Definition relink (w : world) (d : dict) (de key head : Z) : result (world * Z) :=
  if no_value (type d) then
    if keys_are_odd (type d) && (head =? 0) then
      _ ← assert (entryIsKey key);
      w ← (if entryIsKey de then mret w else a ← decodeMaskedPtr de; zfree w a);
      mret (w, key)
    else if entryIsKey de then mret (createEntryNoValue w key head)
    else _ ← assert (entryIsNoValue de); w ← dictSetNext w de head; mret (w, de)
  else w ← dictSetNext w de head; mret (w, de).

(** The index in the new table. *)
Definition rehash_index (d : dict) (key : Z) : Z :=
  if ht_size_exp (ht0 d) <? ht_size_exp (ht1 d) then Z.land (hashFunction (type d) key) (mask_of d true)
  else Z.land (rehashidx d) (mask_of d true).

(** [while(de)]: the keys of one bucket. *)
Fixpoint move_chain (fuel : nat) (w : world) (d : dict) (de : Z) : result (world * dict) :=
  if de =? 0 then mret (w, d) else
  match fuel with
  | O => inl OutOfFuel
  | S fuel =>
      nextde ← dictGetNext w de;
      key ← dictGetKey w de;
      let h := rehash_index d key in
      head ← bucket d true h;
      '(w, de) ← relink w d de key head;
      d ← set_bucket d true h de;
      let d := set_ht d false (set_used (ht0 d) (u64 (ht_used (ht0 d) - 1))) in
      let d := set_ht d true (set_used (ht1 d) (u64 (ht_used (ht1 d) + 1))) in
      move_chain fuel w d nextde
  end.

(** [while(n-- && d->ht_used[0] != 0)] *)
Fixpoint rehash_loop (n : nat) (w : world) (d : dict) (empty_visits : Z) : result (world * dict * bool) :=
  match n with
  | O => mret (w, d, false)
  | S n =>
      if ht_used (ht0 d) =? 0 then mret (w, d, false) else
      _ ← assert (u64 (rehashidx d) <? DICTHT_SIZE (ht_size_exp (ht0 d)));
      '(d, empty_visits, ret) ← skip_empty (length (slots (ht0 d))) d empty_visits;
      if (ret : bool) then mret (w, d, true) else
      de ← bucket d false (rehashidx d);
      '(w, d) ← move_chain (chain_fuel w) w d de;
      d ← set_bucket d false (rehashidx d) 0;
      rehash_loop n w (set_rehashidx d (rehashidx d + 1)) empty_visits
  end.

(** Every caller passes a positive [n]. *)
Definition dictRehash (w : world) (d : dict) (n : nat) : result (world * dict * Z) :=
  _ ← defined_if (10 * Z.of_nat n <? 2 ^ 31);
  let s0 := DICTHT_SIZE (ht_size_exp (ht0 d)) in
  let s1 := DICTHT_SIZE (ht_size_exp (ht1 d)) in
  if bool_decide (dict_can_resize w = DICT_RESIZE_FORBID) || negb (dictIsRehashing d) then mret (w, d, 0) else
  if bool_decide (dict_can_resize w = DICT_RESIZE_AVOID) &&
     (((s0 <? s1) && (s1 / s0 <? dict_force_resize_ratio)) || ((s1 <? s0) && (s0 / s1 <? dict_force_resize_ratio)))
  then mret (w, d, 0) else
  '(w, d, ret) ← rehash_loop n w d (10 * Z.of_nat n);
  if (ret : bool) then mret (w, d, 1) else
  if ht_used (ht0 d) =? 0 then mret (w, mk_dict (type d) (ht1 d) _dictReset (-1) (pauserehash d), 0)
  else mret (w, d, 1).

(** [now] are the answers of [timeInMilliseconds] in the loop. *)
Fixpoint rehash_until (now : list Z) (start ms : Z) (w : world) (d : dict) (rehashes : Z) : result (world * dict * Z) :=
  '(w, d, more) ← dictRehash w d 100;
  if more =? 0 then mret (w, d, rehashes) else
  match now with
  | [] => inl OutOfFuel
  | t :: now =>
      _ ← defined_if (rehashes + 100 <? 2 ^ 31);
      if ms <? t - start then mret (w, d, rehashes + 100) else rehash_until now start ms w d (rehashes + 100)
  end.
Definition dictRehashMilliseconds (w : world) (d : dict) (ms start : Z) (now : list Z) : result (world * dict * Z) :=
  if 0 <? pauserehash d then mret (w, d, 0) else rehash_until now start ms w d 0.

Definition _dictRehashStep (w : world) (d : dict) : result (world * dict) :=
  if pauserehash d =? 0 then '(w, d, _) ← dictRehash w d 1; mret (w, d) else mret (w, d).
(** [if (dictIsRehashing(d)) _dictRehashStep(d);] *)
Definition step_if_rehashing (w : world) (d : dict) : result (world * dict) :=
  if dictIsRehashing d then _dictRehashStep w d else mret (w, d).

(** ** Search *)

Fixpoint find_in_chain (fuel : nat) (w : world) (same : Z -> bool) (he : Z) : result Z :=
  if he =? 0 then mret 0 else
  match fuel with
  | O => inl OutOfFuel
  | S fuel =>
      he_key ← dictGetKey w he;
      if same he_key then mret he else n ← dictGetNext w he; find_in_chain fuel w same n
  end.
(** [key == he_key || dictCompareKeys(d, key, he_key)] *)
Definition same_key (d : dict) (key he_key : Z) : bool := (key =? he_key) || dictCompareKeys (type d) key he_key.

(** [for (table = 0; table <= 1; table++)], with the second one only while rehashing. *)
Definition find_in_tables (w : world) (d : dict) (h : Z) (same : Z -> bool) : result Z :=
  b ← bucket d false (Z.land h (mask_of d false));
  he ← find_in_chain (chain_fuel w) w same b;
  if negb (he =? 0) then mret he else
  if negb (dictIsRehashing d) then mret 0 else
  b ← bucket d true (Z.land h (mask_of d true));
  find_in_chain (chain_fuel w) w same b.

Definition dictFind (w : world) (d : dict) (key : Z) : result (world * dict * Z) :=
  if dictSize d =? 0 then mret (w, d, 0) else
  '(w, d) ← step_if_rehashing w d;
  he ← find_in_tables w d (hashFunction (type d) key) (same_key d key);
  mret (w, d, he).
Definition dictFetchValue (w : world) (d : dict) (key : Z) : result (world * dict * Z) :=
  '(w, d, he) ← dictFind w d key;
  if he =? 0 then mret (w, d, 0) else v ← dictGetVal w he; mret (w, d, v).
Definition dictGetHash (d : dict) (key : Z) : Z := hashFunction (type d) key.
Definition dictFindEntryByPtrAndHash (w : world) (d : dict) (oldptr hash : Z) : result Z :=
  if dictSize d =? 0 then mret 0 else find_in_tables w d hash (fun k => oldptr =? k).

(** ** Insertion *)

(** A position is a bucket: its table and its index; [existing] is 0 when there is none. *)
Definition dictFindPositionForInsert (w : world) (d : dict) (key : Z) : result (world * dict * option (bool * Z) * Z) :=
  let hash := hashFunction (type d) key in
  '(w, d) ← step_if_rehashing w d;
  let '(d, ok) := _dictExpandIfNeeded w d in
  if ok =? DICT_ERR then mret (w, d, None, 0) else
  he ← find_in_tables w d hash (same_key d key);
  if negb (he =? 0) then mret (w, d, None, he) else
  let t := dictIsRehashing d in
  mret (w, d, Some (t, Z.land hash (mask_of d t)), 0).

(** The entry for a bucket that starts with [head]. *)
Definition make_entry (w : world) (d : dict) (key head : Z) : result (world * Z) :=
  if no_value (type d) then
    _ ← assert (dictEntryMetadataSize (type d) =? 0);
    if keys_are_odd (type d) && (head =? 0) then _ ← assert (entryIsKey key); mret (w, key)
    else mret (createEntryNoValue w key head)
  else
    let a := new_entry (objs w) in
    _ ← assert (entryIsNormal a);
    mret (put_obj w a (Normal key None head), a).
Definition dictInsertAtPosition (w : world) (d : dict) (key : Z) (position : bool * Z) : result (world * dict * Z) :=
  let htidx := dictIsRehashing d in
  let '(t, idx) := position in
  _ ← assert (Bool.eqb t htidx && (0 <=? idx) && (idx <=? mask_of d htidx));
  head ← bucket d htidx idx;
  '(w, entry) ← make_entry w d key head;
  d ← set_bucket d htidx idx entry;
  mret (w, set_ht d htidx (set_used (ht_at d htidx) (u64 (ht_used (ht_at d htidx) + 1))), entry).

(** The new entry, or 0 and the existing one. *)
Definition dictAddRaw (w : world) (d : dict) (key : Z) : result (world * dict * Z * Z) :=
  '(w, d, position, existing) ← dictFindPositionForInsert w d key;
  match position with
  | None => mret (w, d, 0, existing)
  | Some p =>
      let key := match keyDup (type d) with Some f => f key | None => key end in
      '(w, d, entry) ← dictInsertAtPosition w d key p;
      mret (w, d, entry, existing)
  end.
Definition dictAdd (w : world) (d : dict) (key val : Z) : result (world * dict * Z) :=
  '(w, d, entry, _) ← dictAddRaw w d key;
  if entry =? 0 then mret (w, d, DICT_ERR) else
  w ← (if no_value (type d) then mret w else dictSetVal w d entry val);
  mret (w, d, DICT_OK).
Definition dictReplace (w : world) (d : dict) (key val : Z) : result (world * dict * Z) :=
  '(w, d, entry, existing) ← dictAddRaw w d key;
  if negb (entry =? 0) then w ← dictSetVal w d entry val; mret (w, d, 1) else
  oldval ← dictGetVal w existing;
  w ← dictSetVal w d existing val;
  mret (if valDestructor (type d) then call_back w (FreeVal oldval) else w, d, 0).
Definition dictAddOrFind (w : world) (d : dict) (key : Z) : result (world * dict * Z) :=
  '(w, d, entry, existing) ← dictAddRaw w d key;
  mret (w, d, if negb (entry =? 0) then entry else existing).

(** ** Deletion *)

Definition dictFreeUnlinkedEntry (w : world) (d : dict) (he : Z) : result world := if he =? 0 then mret w else free_entry w d he.

(** A place that holds a pointer to an entry: a bucket, or the [next] field of an entry. *)
Inductive link := Slot (t : bool) (i : Z) | NextOf (de : Z).
Definition set_link (w : world) (d : dict) (l : link) (de : Z) : result (world * dict) :=
  match l with
  | Slot t i => d ← set_bucket d t i de; mret (w, d)
  | NextOf p => w ← dictSetNext w p de; mret (w, d)
  end.

(** [while(he)] with [prevHe], as the place that points to [he]: the place and the entry found. *)
Fixpoint find_link (fuel : nat) (w : world) (same : Z -> bool) (l : link) (he : Z) : result (option (link * Z)) :=
  if he =? 0 then mret None else
  match fuel with
  | O => inl OutOfFuel
  | S fuel =>
      he_key ← dictGetKey w he;
      if same he_key then mret (Some (l, he)) else n ← dictGetNext w he; find_link fuel w same (NextOf he) n
  end.
Definition find_link_in (w : world) (d : dict) (t : bool) (key : Z) : result (option (link * Z)) :=
  let idx := Z.land (hashFunction (type d) key) (mask_of d t) in
  b ← bucket d t idx; find_link (chain_fuel w) w (same_key d key) (Slot t idx) b.
(** The table in which the key was found, too. *)
Definition find_link_in_tables (w : world) (d : dict) (key : Z) : result (option (bool * link * Z)) :=
  r ← find_link_in w d false key;
  match r with
  | Some (l, he) => mret (Some (false, l, he))
  | None =>
      if negb (dictIsRehashing d) then mret None else
      r ← find_link_in w d true key;
      mret (match r with Some (l, he) => Some (true, l, he) | None => None end)
  end.

Definition dictGenericDelete (w : world) (d : dict) (key : Z) (nofree : bool) : result (world * dict * Z) :=
  if dictSize d =? 0 then mret (w, d, 0) else
  '(w, d) ← step_if_rehashing w d;
  r ← find_link_in_tables w d key;
  match r with
  | None => mret (w, d, 0)
  | Some (t, l, he) =>
      n ← dictGetNext w he;
      '(w, d) ← set_link w d l n;
      w ← (if nofree then mret w else dictFreeUnlinkedEntry w d he);
      mret (w, set_ht d t (set_used (ht_at d t) (u64 (ht_used (ht_at d t) - 1))), he)
  end.
Definition dictDelete (w : world) (d : dict) (key : Z) : result (world * dict * Z) :=
  '(w, d, he) ← dictGenericDelete w d key false; mret (w, d, if negb (he =? 0) then DICT_OK else DICT_ERR).
Definition dictUnlink (w : world) (d : dict) (key : Z) : result (world * dict * Z) := dictGenericDelete w d key true.

(** The entry, with [*plink] and [*table_index]. *)
Definition dictTwoPhaseUnlinkFind (w : world) (d : dict) (key : Z) : result (world * dict * option (bool * link * Z)) :=
  if dictSize d =? 0 then mret (w, d, None) else
  '(w, d) ← step_if_rehashing w d;
  r ← find_link_in_tables w d key;
  mret (w, match r with Some _ => dictPauseRehashing d | None => d end, r).
Definition dictTwoPhaseUnlinkFree (w : world) (d : dict) (r : option (bool * link * Z)) : result (world * dict) :=
  match r with
  | None => mret (w, d)
  | Some (t, plink, he) =>
      let d := set_ht d t (set_used (ht_at d t) (u64 (ht_used (ht_at d t) - 1))) in
      n ← dictGetNext w he;
      '(w, d) ← set_link w d plink n;
      w ← free_entry w d he;
      mret (w, dictResumeRehashing d)
  end.

(** [while(he)] of [_dictClear]. *)
Fixpoint clear_chain (fuel : nat) (w : world) (d : dict) (t : bool) (he : Z) : result (world * dict) :=
  if he =? 0 then mret (w, d) else
  match fuel with
  | O => inl OutOfFuel
  | S fuel =>
      nextHe ← dictGetNext w he;
      w ← free_entry w d he;
      clear_chain fuel w (set_ht d t (set_used (ht_at d t) (u64 (ht_used (ht_at d t) - 1)))) t nextHe
  end.
Definition clear_turn (t : bool) (s : world * dict) (i : Z) : result (world * dict) :=
  let '(w, d) := s in
  if 0 <? ht_used (ht_at d t) then he ← bucket d t i; clear_chain (chain_fuel w) w d t he else mret (w, d).
Definition _dictClear (w : world) (d : dict) (t : bool) : result (world * dict) :=
  '(w, d) ← for_each (clear_turn t) (w, d) (seqZ 0 (DICTHT_SIZE (ht_size_exp (ht_at d t))));
  mret (w, set_ht d t _dictReset).
Definition dictEmpty (w : world) (d : dict) : result (world * dict) :=
  '(w, d) ← _dictClear w d false; '(w, d) ← _dictClear w d true;
  mret (w, set_pauserehash (set_rehashidx d (-1)) 0).
Definition dictRelease (w : world) (d : dict) : result world :=
  '(w, d) ← _dictClear w d false; '(w, d) ← _dictClear w d true; mret w.
End Operations.

(** ** Iterators *)

Record dictIterator := mk_iter { index : Z; table : bool; safe : bool; it_entry : Z; nextEntry : Z; fingerprint : Z }.

(** One turn of the loop of [dictFingerprint]. *)
Definition wang (hash n : Z) : Z :=
  let hash := u64 (hash + n) in
  let hash := u64 (Z.lnot hash + Z.shiftl hash 21) in
  let hash := Z.lxor hash (Z.shiftr hash 24) in
  let hash := u64 (hash + Z.shiftl hash 3 + Z.shiftl hash 8) in
  let hash := Z.lxor hash (Z.shiftr hash 14) in
  let hash := u64 (hash + Z.shiftl hash 2 + Z.shiftl hash 4) in
  let hash := Z.lxor hash (Z.shiftr hash 28) in
  u64 (hash + Z.shiftl hash 31).
Definition dictFingerprint (d : dict) : Z :=
  foldl wang 0 [ht_table (ht0 d); u64 (ht_size_exp (ht0 d)); ht_used (ht0 d); ht_table (ht1 d); u64 (ht_size_exp (ht1 d)); ht_used (ht1 d)].

Definition dictInitIterator : dictIterator := mk_iter (-1) false false 0 0 0.
Definition dictInitSafeIterator : dictIterator := mk_iter (-1) false true 0 0 0.
Definition dictResetIterator (d : dict) (it : dictIterator) : result dict :=
  if negb ((index it =? -1) && negb (table it)) then
    if safe it then mret (dictResumeRehashing d) else _ ← assert (fingerprint it =? dictFingerprint d); mret d
  else mret d.

(** The pause or the fingerprint that the first call takes. *)
Definition begin_iteration (d : dict) (it : dictIterator) : dict * dictIterator :=
  if (index it =? -1) && negb (table it) then
    if safe it then (dictPauseRehashing d, it)
    else (d, mk_iter (index it) (table it) (safe it) (it_entry it) (nextEntry it) (dictFingerprint d))
  else (d, it).
Definition set_place (it : dictIterator) (t : bool) (i e : Z) : dictIterator := mk_iter i t (safe it) e (nextEntry it) (fingerprint it).
(** The next bucket, unless the iteration is over. *)
Definition next_bucket (d : dict) (it : dictIterator) : result (dictIterator * bool) :=
  let i := index it + 1 in
  if DICTHT_SIZE (ht_size_exp (ht_at d (table it))) <=? i then
    if dictIsRehashing d && negb (table it) then e ← bucket d true 0; mret (set_place it true 0 e, false)
    else mret (set_place it (table it) i 0, true)
  else e ← bucket d (table it) i; mret (set_place it (table it) i e, false).
Fixpoint next_loop (fuel : nat) (w : world) (d : dict) (it : dictIterator) : result (dict * dictIterator * Z) :=
  match fuel with
  | O => inl OutOfFuel
  | S fuel =>
      '(d, it, over) ←
        (if it_entry it =? 0 then let '(d, it) := begin_iteration d it in '(it, over) ← next_bucket d it; mret (d, it, over)
         else mret (d, set_place it (table it) (index it) (nextEntry it), false));
      if (over : bool) then mret (d, it, 0) else
      if negb (it_entry it =? 0) then
        n ← dictGetNext w (it_entry it);
        mret (d, mk_iter (index it) (table it) (safe it) (it_entry it) n (fingerprint it), it_entry it)
      else next_loop fuel w d it
  end.
(** The buckets that are left, and one turn to leave a chain. *)
Definition dictNext (w : world) (d : dict) (it : dictIterator) : result (dict * dictIterator * Z) :=
  next_loop (S (S (length (slots (ht0 d)) + length (slots (ht1 d))))) w d it.

(** ** Scan *)

Fixpoint rev_loop (fuel : nat) (s mask v : Z) : Z :=
  match fuel with
  | O => v
  | S fuel =>
      let s := Z.shiftr s 1 in
      if 0 <? s then
        let mask := Z.lxor mask (u64 (Z.shiftl mask s)) in
        rev_loop fuel s mask (Z.lor (Z.land (Z.shiftr v s) mask) (Z.land (u64 (Z.shiftl v s)) (u64 (Z.lnot mask))))
      else v
  end.
Definition rev (v : Z) : Z := rev_loop 7 64 (u64 (Z.lnot 0)) v.

(** The entries of a bucket, to each of which [fn] is applied. *)
Fixpoint emit (fuel : nat) (w : world) (de : Z) : result (list Z) :=
  if de =? 0 then mret [] else
  match fuel with O => inl OutOfFuel | S fuel => n ← dictGetNext w de; ds ← emit fuel w n; mret (de :: ds) end.
Definition emit_bucket (w : world) (d : dict) (t : bool) (i : Z) : result (list Z) := b ← bucket d t i; emit (chain_fuel w) w b.

(** [v |= ~m; v = rev(v); v++; v = rev(v);] *)
Definition next_cursor (v m : Z) : Z := rev (u64 (rev (Z.lor v (u64 (Z.lnot m))) + 1)).
(** [do ... while (v & (m0 ^ m1));] *)
Fixpoint scan_expansions (fuel : nat) (w : world) (d : dict) (t1 : bool) (m0 m1 v : Z) : result (list Z * Z) :=
  match fuel with
  | O => inl OutOfFuel
  | S fuel =>
      ds ← emit_bucket w d t1 (Z.land v m1);
      let v := next_cursor v m1 in
      if negb (Z.land v (Z.lxor m0 m1) =? 0) then '(es, v) ← scan_expansions fuel w d t1 m0 m1 v; mret (ds ++ es, v)
      else mret (ds, v)
  end.
(** [dictScan]: the entries given to [fn], in order, and the new cursor.  [fn] does not change the table. *)
Definition dictScan (w : world) (d : dict) (v : Z) : result (dict * list Z * Z) :=
  if dictSize d =? 0 then mret (d, [], 0) else
  let d := dictPauseRehashing d in
  '(ds, v) ←
    (if negb (dictIsRehashing d) then
       let m0 := mask_of d false in
       ds ← emit_bucket w d false (Z.land v m0);
       mret (ds, next_cursor v m0)
     else
       let t0 := DICTHT_SIZE (ht_size_exp (ht1 d)) <? DICTHT_SIZE (ht_size_exp (ht0 d)) in
       let m0 := mask_of d t0 in
       let m1 := mask_of d (negb t0) in
       ds ← emit_bucket w d t0 (Z.land v m0);
       '(es, v) ← scan_expansions (length (slots (ht_at d (negb t0)))) w d (negb t0) m0 m1 v;
       mret (ds ++ es, v));
  mret (dictResumeRehashing d, ds, v).

(** ** Random entries

    The numbers [randomULong] and [random] give are a list; [OutOfFuel] when it is used up. *)

Definition next_random (rnd : list Z) : result (Z * list Z) := match rnd with [] => inl OutOfFuel | r :: rnd => mret (r, rnd) end.

(** [do ... while(he == NULL);] *)
Fixpoint random_bucket (rnd : list Z) (d : dict) : result (Z * list Z) :=
  match rnd with
  | [] => inl OutOfFuel
  | r :: rnd =>
      he ← (if dictIsRehashing d then
              let s0 := DICTHT_SIZE (ht_size_exp (ht0 d)) in
              let h := u64 (rehashidx d + r mod u64 (dictSlots d - rehashidx d)) in
              if s0 <=? h then bucket d true (h - s0) else bucket d false h
            else bucket d false (Z.land r (mask_of d false)));
      if he =? 0 then random_bucket rnd d else mret (he, rnd)
  end.
Fixpoint nth_in_chain (w : world) (k : nat) (he : Z) : result Z :=
  match k with O => mret he | S k => n ← dictGetNext w he; nth_in_chain w k n end.
Definition dictGetRandomKey `{!Zmalloc} (w : world) (d : dict) (rnd : list Z) : result (world * dict * Z * list Z) :=
  if dictSize d =? 0 then mret (w, d, 0, rnd) else
  '(w, d) ← step_if_rehashing w d;
  '(he, rnd) ← random_bucket rnd d;
  ds ← emit (chain_fuel w) w he;
  let listlen := Z.of_nat (length ds) in
  '(r, rnd) ← next_random rnd;
  he ← nth_in_chain w (Z.to_nat (r mod listlen)) he;
  mret (w, d, he, rnd).

(** [dictGetSomeKeys]: what was stored, the place, and the empty buckets in a row. *)
Record sampling := mk_sampling { stored : Z; des : list Z; place : Z; emptylen : Z; rnds : list Z }.

Definition put_sample (s : sampling) (k he : Z) : result sampling :=
  _ ← defined_if ((0 <=? k) && (k <? Z.of_nat (length (des s))));
  mret (mk_sampling (stored s) (<[Z.to_nat k := he]> (des s)) (place s) (emptylen s) (rnds s)).
(** [while (he)]: reservoir sampling once [count] are stored. *)
Fixpoint sample_chain (fuel : nat) (w : world) (count : Z) (s : sampling) (he : Z) : result sampling :=
  if he =? 0 then mret s else
  match fuel with
  | O => inl OutOfFuel
  | S fuel =>
      s ← (if stored s <? count then put_sample s (stored s) he
           else '(r, rnd) ← next_random (rnds s);
                let r := r mod u64 (stored s + 1) in
                let s := mk_sampling (stored s) (des s) (place s) (emptylen s) rnd in
                if r <? count then put_sample s r he else mret s);
      n ← dictGetNext w he;
      sample_chain fuel w count (mk_sampling (u64 (stored s + 1)) (des s) (place s) (emptylen s) (rnds s)) n
  end.
(** The turn of the inner [for] loop for table [j]; the flag is the [goto end]. *)
Definition sample_table (w : world) (d : dict) (count maxsizemask : Z) (s : sampling) (j : bool) : result (sampling * bool) :=
  let skip := dictIsRehashing d && negb j && (place s <? rehashidx d) in
  if skip && negb (DICTHT_SIZE (ht_size_exp (ht1 d)) <=? place s) then mret (s, false) else
  let s := if skip then mk_sampling (stored s) (des s) (rehashidx d) (emptylen s) (rnds s) else s in
  if DICTHT_SIZE (ht_size_exp (ht_at d j)) <=? place s then mret (s, false) else
  he ← bucket d j (place s);
  if he =? 0 then
    let e := u64 (emptylen s + 1) in
    if (5 <=? e) && (count <? e) then
      '(r, rnd) ← next_random (rnds s); mret (mk_sampling (stored s) (des s) (Z.land r maxsizemask) 0 rnd, false)
    else mret (mk_sampling (stored s) (des s) (place s) e (rnds s), false)
  else
    s ← sample_chain (chain_fuel w) w count (mk_sampling (stored s) (des s) (place s) 0 (rnds s)) he;
    mret (s, count <=? stored s).
(** [while(stored < count && maxsteps--)] *)
Fixpoint sample_loop (maxsteps : nat) (w : world) (d : dict) (count maxsizemask : Z) (s : sampling) : result sampling :=
  if stored s <? count then
    match maxsteps with
    | O => mret s
    | S maxsteps =>
        '(s, over) ← sample_table w d count maxsizemask s false;
        if (over : bool) then mret s else
        '(s, over) ← (if dictIsRehashing d then sample_table w d count maxsizemask s true else mret (s, false));
        if (over : bool) then mret s else
        sample_loop maxsteps w d count maxsizemask
          (mk_sampling (stored s) (des s) (Z.land (u64 (place s + 1)) maxsizemask) (emptylen s) (rnds s))
    end
  else mret s.
(** [for (j = 0; j < count; j++)] of rehashing steps. *)
Fixpoint rehash_some `{!Zmalloc} (n : nat) (w : world) (d : dict) : result (world * dict) :=
  match n with
  | O => mret (w, d)
  | S n => if dictIsRehashing d then '(w, d) ← _dictRehashStep w d; rehash_some n w d else mret (w, d)
  end.
Definition dictGetSomeKeys `{!Zmalloc} (w : world) (d : dict) (des0 : list Z) (count : Z) (rnd : list Z) : result (world * dict * list Z * Z * list Z) :=
  let count := if dictSize d <? count then dictSize d else count in
  let maxsteps := u32 (count * 10) in
  '(w, d) ← rehash_some (Z.to_nat count) w d;
  let m := mask_of d false in
  let maxsizemask := if dictIsRehashing d && (m <? mask_of d true) then mask_of d true else m in
  '(r, rnd) ← next_random rnd;
  s ← sample_loop (Z.to_nat maxsteps) w d count maxsizemask (mk_sampling 0 des0 (Z.land r maxsizemask) 0 rnd);
  mret (w, d, des s, (if count <? stored s then count else stored s), rnds s).
Definition GETFAIR_NUM_ENTRIES : Z := 15.
Definition dictGetFairRandomKey `{!Zmalloc} (w : world) (d : dict) (entries : list Z) (rnd : list Z) : result (world * dict * Z * list Z) :=
  '(w, d, entries, count, rnd) ← dictGetSomeKeys w d entries GETFAIR_NUM_ENTRIES rnd;
  if count =? 0 then dictGetRandomKey w d rnd else
  '(r, rnd) ← next_random rnd;
  e ← the (entries !! Z.to_nat (r mod count));
  mret (w, d, e, rnd).
