(* ===== verification/DictChain.v ===== *)
(** * Chains of entries

    What a bucket of [Dict] points to: tagged pointers, the objects behind them, chains, and
    tables of chains.  A chain is read as a list of nodes; the heap is owned by a list of nodes
    and by the entries that were unlinked. *)

From S2P Require Import Prelude Dict.

Record node := mk_node { nptr : Z; nkey : Z; nval : option Z }.

Definition addr_of (p : Z) : Z := Z.land p (Z.lnot ENTRY_PTR_MASK).
Definition naddr (n : node) : option Z := if entryIsKey (nptr n) then None else Some (addr_of (nptr n)).
Definition addrs (xs : list node) : list Z := omap naddr xs.
Definition obj_of (n : node) (next : Z) : entry := if entryIsNoValue (nptr n) then NoValue (nkey n) next else Normal (nkey n) (nval n) next.

(** The node is in the heap, with this [next]. *)
Definition node_at (m : gmap Z entry) (n : node) (next : Z) : Prop :=
  nptr n <> 0 /\
  if entryIsKey (nptr n) then nkey n = nptr n /\ nval n = None /\ next = 0
  else (if entryIsNoValue (nptr n) then nval n = None else entryIsNormal (nptr n) = true) /\ m !! addr_of (nptr n) = Some (obj_of n next).

Fixpoint chain (m : gmap Z entry) (p : Z) (xs : list node) : Prop :=
  match xs with
  | [] => p = 0
  | n :: xs => p = nptr n /\ exists next, node_at m n next /\ chain m next xs
  end.

(** ** Tags *)

Lemma aligned_mul a : Z.land a 7 = 0 -> exists q, a = 8 * q.
Proof. change 7 with (Z.ones 3). rewrite Z.land_ones by lia. change (2 ^ 3) with 8. intros H. exists (a / 8). pose proof (Z.div_mod a 8 ltac:(lia)). lia. Qed.

Lemma land_7 p : Z.land p ENTRY_PTR_MASK = p mod 8.
Proof. unfold ENTRY_PTR_MASK. change 7 with (Z.ones 3). by rewrite Z.land_ones by lia. Qed.
Lemma land_1 p : Z.land p 1 = p mod 2.
Proof. change 1 with (Z.ones 1) at 1. by rewrite Z.land_ones by lia. Qed.
Lemma addr_of_eq p : addr_of p = 8 * (p / 8).
Proof.
  unfold addr_of, ENTRY_PTR_MASK. change 7 with (Z.ones 3). rewrite <- Z.ldiff_land, Z.ldiff_ones_r by lia.
  rewrite Z.shiftl_mul_pow2, Z.shiftr_div_pow2 by lia. change (2 ^ 3) with 8. lia.
Qed.

Lemma tag_normal q : entryIsKey (8 * q) = false /\ entryIsNoValue (8 * q) = false /\ entryIsNormal (8 * q) = true /\ addr_of (8 * q) = 8 * q.
Proof.
  unfold entryIsKey, entryIsNoValue, entryIsNormal, ENTRY_PTR_NORMAL, ENTRY_PTR_NO_VALUE. rewrite !land_7, land_1, addr_of_eq.
  rewrite (Z.mul_comm 8), Z.mod_mul, Z.div_mul by lia. replace (q * 8) with (q * 4 * 2) by lia. rewrite Z.mod_mul by lia. repeat split; lia.
Qed.
Lemma tag_novalue q : Z.lor (8 * q) ENTRY_PTR_NO_VALUE = 8 * q + 2 /\ entryIsKey (8 * q + 2) = false /\ entryIsNoValue (8 * q + 2) = true /\
  entryIsNormal (8 * q + 2) = false /\ addr_of (8 * q + 2) = 8 * q.
Proof.
  split.
  { unfold ENTRY_PTR_NO_VALUE. assert (Z.land (8 * q) 2 = 0) as E0.
    { apply Z.bits_inj'. intros i Hi. rewrite Z.land_spec, Z.bits_0. change 8 with (2 ^ 3). rewrite (Z.mul_comm (2 ^ 3)).
      destruct (decide (i < 3)); [by rewrite Z.mul_pow2_bits_low by lia|]. rewrite (Z.bits_above_log2 2) by (cbn; lia). apply andb_false_r. }
    rewrite Z.add_nocarry_lxor by done. by rewrite Z.lxor_lor. }
  unfold entryIsKey, entryIsNoValue, entryIsNormal, ENTRY_PTR_NORMAL, ENTRY_PTR_NO_VALUE. rewrite !land_7, land_1, addr_of_eq.
  replace (8 * q + 2) with (2 + q * 8) by lia. rewrite Z.mod_add, Z.div_add by lia. replace (2 + q * 8) with (2 + q * 4 * 2) by lia.
  rewrite Z.mod_add by lia. repeat split; simpl; lia.
Qed.

Lemma normal_addr p : entryIsNormal p = true -> addr_of p = p /\ entryIsKey p = false /\ entryIsNoValue p = false.
Proof.
  unfold entryIsNormal, ENTRY_PTR_NORMAL. rewrite land_7. intros H%Z.eqb_eq. pose proof (Z.div_mod p 8 ltac:(lia)) as E.
  assert (p = 8 * (p / 8)) as -> by lia. destruct (tag_normal (p / 8)) as (? & ? & ? & ?). done.
Qed.

(** ** Access to a node *)

Section Access.
Context (w : world) (n : node) (next : Z) (Hn : node_at (objs w) n next).

Lemma get_key_ok : dictGetKey w (nptr n) = inr (nkey n).
Proof.
  destruct Hn as [_ H]. unfold dictGetKey. destruct (entryIsKey (nptr n)) eqn:Ek; [by destruct H as (-> & _)|]. destruct H as [Hk Ho]. unfold obj_of in Ho.
  unfold decodeEntryNoValue, decodeMaskedPtr. fold (addr_of (nptr n)). rewrite Ek. destruct (entryIsNoValue (nptr n)).
  - cbn [negb assert mbind result_bind mret result_ret]. unfold novalue. by rewrite Ho.
  - unfold normal. apply normal_addr in Hk as (E & _). rewrite E in Ho. by rewrite Ho.
Qed.

Lemma get_next_ok : dictGetNext w (nptr n) = inr next.
Proof.
  destruct Hn as [_ H]. unfold dictGetNext. destruct (entryIsKey (nptr n)) eqn:Ek; [by destruct H as (_ & _ & ->)|]. destruct H as [Hk Ho]. unfold obj_of in Ho.
  unfold decodeEntryNoValue, decodeMaskedPtr. fold (addr_of (nptr n)). rewrite Ek. destruct (entryIsNoValue (nptr n)).
  - cbn [negb assert mbind result_bind mret result_ret]. unfold novalue. by rewrite Ho.
  - unfold normal. apply normal_addr in Hk as (E & _). rewrite E in Ho. by rewrite Ho.
Qed.

Lemma set_next_ok next' : entryIsKey (nptr n) = false -> dictSetNext w (nptr n) next' = inr (put_obj w (addr_of (nptr n)) (obj_of n next')).
Proof.
  intros Ek. destruct Hn as [_ H]. unfold dictSetNext. rewrite Ek in *. destruct H as [Hk Ho]. unfold obj_of in *. cbn [negb assert mbind result_bind].
  unfold decodeMaskedPtr. fold (addr_of (nptr n)). rewrite Ek. destruct (entryIsNoValue (nptr n)).
  - cbn [negb assert mbind result_bind mret result_ret]. unfold novalue. by rewrite Ho.
  - unfold normal. apply normal_addr in Hk as (E & _). rewrite E in *. by rewrite Ho.
Qed.

Lemma table_zfree_ok : entryIsKey (nptr n) = false ->
  (a ← decodeMaskedPtr (nptr n); zfree w a) = inr (mk_world (delete (addr_of (nptr n)) (objs w)) (calls w) (dict_can_resize w)).
Proof.
  intros Ek. destruct Hn as [_ H]. rewrite Ek in H. destruct H as [_ Ho]. unfold decodeMaskedPtr. fold (addr_of (nptr n)). rewrite Ek.
  cbn [negb assert mbind result_bind mret result_ret]. unfold zfree. by rewrite Ho.
Qed.
End Access.

Lemma node_at_set m n next next' : entryIsKey (nptr n) = false -> node_at m n next -> node_at (<[addr_of (nptr n) := obj_of n next']> m) n next'.
Proof. intros Ek [H0 H]. split; [done|]. rewrite Ek in *. destruct H as [Hk _]. split; [done|]. by rewrite lookup_insert_eq. Qed.

Lemma node_at_frame m m' n next : (forall a, naddr n = Some a -> m' !! a = m !! a) -> node_at m n next -> node_at m' n next.
Proof.
  intros Hf [H0 H]. split; [done|]. unfold naddr in Hf. destruct (entryIsKey (nptr n)); [done|]. destruct H as [Hk Ho]. split; [done|].
  by rewrite Hf.
Qed.

Lemma node_at_next m n a b : node_at m n a -> node_at m n b -> a = b.
Proof.
  intros [_ Ha] [_ Hb]. destruct (entryIsKey (nptr n)); [by destruct Ha as (_ & _ & ->), Hb as (_ & _ & ->)|].
  destruct Ha as [_ Ha], Hb as [_ Hb]. rewrite Ha in Hb. unfold obj_of in Hb. by destruct (entryIsNoValue (nptr n)); injection Hb.
Qed.

(** ** Chains *)

Lemma addrs_cons n xs : addrs (n :: xs) = match naddr n with Some a => a :: addrs xs | None => addrs xs end.
Proof. done. Qed.
Lemma addrs_app xs ys : addrs (xs ++ ys) = addrs xs ++ addrs ys.
Proof. unfold addrs. by rewrite omap_app. Qed.
Lemma naddr_some n : entryIsKey (nptr n) = false -> naddr n = Some (addr_of (nptr n)).
Proof. unfold naddr. by intros ->. Qed.

Lemma chain_frame m m' p xs : (forall a, a ∈ addrs xs -> m' !! a = m !! a) -> chain m p xs -> chain m' p xs.
Proof.
  revert p. induction xs as [|n xs IH]; intros p Hf; [done|]. intros (-> & next & Hn & Hc). split; [done|]. exists next. split.
  - eapply node_at_frame; [|done]. intros a Ha. apply Hf. rewrite addrs_cons, Ha. by left.
  - apply IH; [|done]. intros a Ha. apply Hf. rewrite addrs_cons. destruct (naddr n); [by right|done].
Qed.

Lemma chain_nil m xs : chain m 0 xs -> xs = [].
Proof. destruct xs; [done|]. by intros (E & next & (H0 & _) & _). Qed.

Lemma chain_cons m p xs : p <> 0 -> chain m p xs -> exists n xs' next, xs = n :: xs' /\ p = nptr n /\ node_at m n next /\ chain m next xs'.
Proof. destruct xs as [|n xs]; [done|]. intros _ (-> & next & Hn & Hc). by exists n, xs, next. Qed.

Lemma chain_addrs m p xs a : chain m p xs -> a ∈ addrs xs -> a ∈ dom m.
Proof.
  revert p. induction xs as [|n xs IH]; intros p; [by intros _ ?%elem_of_nil|]. intros (-> & next & [_ Hn] & Hc). rewrite addrs_cons. unfold naddr.
  destruct (entryIsKey (nptr n)); [by eapply IH|]. intros [->|Ha]%elem_of_cons; [|by eapply IH]. destruct Hn as [_ Ho]. by apply elem_of_dom_2 in Ho.
Qed.

(** Only the last node can be a bare key. *)
Lemma chain_length_addrs m p xs : chain m p xs -> (length xs <= S (length (addrs xs)))%nat.
Proof.
  revert p. induction xs as [|n xs IH]; intros p; [cbn; lia|]. intros (-> & next & [_ Hn] & Hc). pose proof (IH _ Hc) as H. rewrite addrs_cons. unfold naddr.
  destruct (entryIsKey (nptr n)); [|cbn; lia]. destruct Hn as (_ & _ & ->). apply chain_nil in Hc as ->. cbn. lia.
Qed.

Lemma chain_length w p xs : chain (objs w) p xs -> NoDup (addrs xs) -> (length xs <= chain_fuel w)%nat.
Proof.
  intros Hc Hn. pose proof (chain_length_addrs _ _ _ Hc). unfold chain_fuel. enough (length (addrs xs) <= size (objs w))%nat by lia.
  rewrite <- size_dom, <- (size_list_to_set (C := gset Z) (addrs xs)) by done. apply subseteq_size. intros a Ha%elem_of_list_to_set. by eapply chain_addrs.
Qed.

Lemma chain_not_last m p xs n ys : chain m p (xs ++ n :: ys) -> ys <> [] -> entryIsKey (nptr n) = false.
Proof.
  revert p. induction xs as [|x xs IH]; intros p; cbn [app chain]; intros (-> & next & Hn & Hc) Hne; [|by eapply IH].
  destruct Hn as [_ Hn]. destruct (entryIsKey (nptr n)); [|done]. destruct Hn as (_ & _ & ->). by apply chain_nil in Hc.
Qed.

(** The pointer to the rest of a chain. *)
Lemma chain_split m p xs ys : chain m p (xs ++ ys) -> exists q, chain m q ys.
Proof. revert p. induction xs as [|x xs IH]; intros p; [by exists p|]. cbn. intros (-> & next & _ & Hc). by eapply IH. Qed.

(** Taking the node after [q] out of its chain. *)
Lemma chain_unlink m p xs q n ys next :
  NoDup (addrs (xs ++ q :: n :: ys)) -> chain m p (xs ++ q :: n :: ys) -> node_at m n next ->
  chain (<[addr_of (nptr q) := obj_of q next]> m) p (xs ++ q :: ys).
Proof.
  revert p. induction xs as [|x xs IH]; intros p Hd Hc Hn.
  - cbn [app] in *. pose proof (chain_not_last _ _ [] q (n :: ys) Hc ltac:(done)) as Ek. destruct Hc as (-> & next1 & Hq & -> & next2 & Hn2 & Hc).
    rewrite (node_at_next _ _ _ _ Hn2 Hn) in Hc.
    split; [done|]. exists next. split; [by eapply node_at_set|]. eapply chain_frame; [|done]. intros a Ha. rewrite lookup_insert_ne; [done|]. intros <-.
    rewrite !addrs_cons, naddr_some in Hd by done. apply NoDup_cons in Hd as [Hd _]. apply Hd. destruct (naddr n); [by right|done].
  - cbn [app] in *. destruct Hc as (-> & next1 & Hx & Hc). split; [done|]. exists next1. rewrite addrs_cons in Hd. split.
    + eapply node_at_frame; [|done]. intros a Ha. rewrite lookup_insert_ne; [done|]. intros <-. rewrite Ha in Hd. apply NoDup_cons in Hd as [Hd _]. apply Hd.
      rewrite addrs_app, addrs_cons, (naddr_some q) by exact (chain_not_last _ _ xs q (n :: ys) Hc ltac:(done)). apply elem_of_app. right. by left.
    + eapply IH; [|done|done]. destruct (naddr x); [by apply NoDup_cons in Hd as [_ Hd]|done].
Qed.

(** ** Searching a chain *)

Lemma find_in_chain_ok fuel w same p xs :
  chain (objs w) p xs -> (length xs <= fuel)%nat ->
  find_in_chain fuel w same p = inr (match find (fun n => same (nkey n)) xs with Some n => nptr n | None => 0 end).
Proof.
  revert fuel p. induction xs as [|n xs IH]; intros fuel p Hc Hf.
  - cbn in Hc. subst p. by destruct fuel.
  - destruct Hc as (-> & next & Hn & Hc). destruct fuel as [|fuel]; [cbn in Hf; lia|]. cbn [find_in_chain find].
    rewrite (proj2 (Z.eqb_neq _ _)) by apply Hn. rewrite (get_key_ok _ _ _ Hn). cbn [mbind result_bind].
    destruct (same (nkey n)); [done|]. rewrite (get_next_ok _ _ _ Hn). cbn [mbind result_bind]. apply IH; [done|]. cbn in Hf. lia.
Qed.

(** The place that points to a node with [xs] before it in the chain. *)
Definition link_after (l : link) (xs : list node) : link := match last xs with Some q => NextOf (nptr q) | None => l end.

Lemma link_after_cons l n xs : link_after (NextOf (nptr n)) xs = link_after l (n :: xs).
Proof. unfold link_after. rewrite last_cons. by destruct (last xs). Qed.

Lemma find_link_ok fuel w same l p xs :
  chain (objs w) p xs -> (length xs <= fuel)%nat ->
  (exists ys n zs, xs = ys ++ n :: zs /\ same (nkey n) = true /\ find_link fuel w same l p = inr (Some (link_after l ys, nptr n))) \/
  (Forall (fun n => same (nkey n) = false) xs /\ find_link fuel w same l p = inr None).
Proof.
  revert fuel l p. induction xs as [|n xs IH]; intros fuel l p Hc Hf.
  - right. cbn in Hc. subst p. split; [done|]. by destruct fuel.
  - destruct Hc as (-> & next & Hn & Hc). destruct fuel as [|fuel]; [cbn in Hf; lia|]. cbn [find_link].
    rewrite (proj2 (Z.eqb_neq _ _)) by apply Hn. rewrite (get_key_ok _ _ _ Hn). cbn [mbind result_bind].
    destruct (same (nkey n)) eqn:E; [left; by exists [], n, xs|]. rewrite (get_next_ok _ _ _ Hn). cbn [mbind result_bind].
    destruct (IH fuel (NextOf (nptr n)) next Hc) as [(ys & x & zs & -> & Hs & ->)|[Hall ->]]; [cbn in Hf; lia| |].
    + left. exists (n :: ys), x, zs. split; [done|]. split; [done|]. by rewrite link_after_cons with (l := l).
    + right. split; [by constructor|done].
Qed.

Lemma emit_ok fuel w p xs : chain (objs w) p xs -> (length xs <= fuel)%nat -> emit fuel w p = inr (nptr <$> xs).
Proof.
  revert fuel p. induction xs as [|n xs IH]; intros fuel p Hc Hf.
  - cbn in Hc. subst p. by destruct fuel.
  - destruct Hc as (-> & next & Hn & Hc). destruct fuel as [|fuel]; [cbn in Hf; lia|]. cbn [emit].
    rewrite (proj2 (Z.eqb_neq _ _)) by apply Hn. rewrite (get_next_ok _ _ _ Hn). cbn [mbind result_bind]. rewrite (IH _ _ Hc) by (cbn in Hf; lia). done.
Qed.

(** ** Tables *)

Definition tbl (m : gmap Z entry) (sl : list Z) (b : list (list node)) : Prop := Forall2 (chain m) sl b.

Lemma elem_of_concat {A} (x : A) b : x ∈ concat b <-> exists xs, xs ∈ b /\ x ∈ xs.
Proof. rewrite list_elem_of_In, in_concat. setoid_rewrite list_elem_of_In. done. Qed.
Lemma elem_of_concat_lookup {A} (x : A) b : x ∈ concat b <-> exists i xs, b !! i = Some xs /\ x ∈ xs.
Proof.
  rewrite elem_of_concat. split; [intros (xs & Hx & ?); apply list_elem_of_lookup in Hx as [i Hi]; eauto|].
  intros (i & xs & Hi & ?). eauto using list_elem_of_lookup_2.
Qed.

Lemma elem_of_addrs xs a : a ∈ addrs xs <-> exists n, n ∈ xs /\ naddr n = Some a.
Proof. unfold addrs. rewrite list_elem_of_omap. done. Qed.

Lemma tbl_frame m m' sl b : (forall a, a ∈ addrs (concat b) -> m' !! a = m !! a) -> tbl m sl b -> tbl m' sl b.
Proof.
  intros Hf H. apply Forall2_same_length_lookup_2; [by eapply Forall2_length|]. intros i p xs Hp Hx.
  pose proof (Forall2_lookup_lr _ _ _ _ _ _ H Hp Hx) as Hc. eapply chain_frame; [|done]. intros a Ha. apply Hf.
  apply elem_of_addrs in Ha as (n & Hn & ?). apply elem_of_addrs. exists n. split; [|done]. apply elem_of_concat_lookup. eauto.
Qed.

Lemma tbl_set m sl b i p xs : tbl m sl b -> chain m p xs -> tbl m (<[i := p]> sl) (<[i := xs]> b).
Proof. intros. by apply Forall2_insert. Qed.

Lemma tbl_lookup m sl b i : tbl m sl b -> (i < length sl)%nat -> exists p xs, sl !! i = Some p /\ b !! i = Some xs /\ chain m p xs.
Proof. intros H Hi. destruct (lookup_lt_is_Some_2 sl i Hi) as [p Hp]. destruct (Forall2_lookup_l _ _ _ _ _ H Hp) as (xs & Hx & Hc). eauto. Qed.

Lemma tbl_empty m n : tbl m (replicate n 0) (replicate n []).
Proof. by apply Forall2_replicate. Qed.

(** A bucket set aside. *)
Lemma concat_set {A} (b : list (list A)) i ys xs : b !! i = Some ys -> concat (<[i := xs]> b) ≡ₚ xs ++ concat (<[i := []]> b).
Proof.
  revert i. induction b as [|z b IH]; intros [|i]; cbn; [done..|intros [= <-]; done|]. intros H. rewrite (IH i H). apply Permutation_app_swap_app.
Qed.
Lemma concat_get {A} (b : list (list A)) i ys : b !! i = Some ys -> concat b ≡ₚ ys ++ concat (<[i := []]> b).
Proof. intros H. rewrite <- (concat_set b i ys ys H). by rewrite list_insert_id. Qed.

(** ** The heap *)

(** The objects are those of the nodes, and [ext], which were unlinked. *)
Record owns (m : gmap Z entry) (xs : list node) (ext : gset Z) : Prop := {
  o_nodup : NoDup (addrs xs);
  o_dom : dom m = list_to_set (addrs xs) ∪ ext;
  o_ext a : a ∈ addrs xs -> a ∉ ext;
}.

#[export] Instance addrs_perm : Proper ((≡ₚ) ==> (≡ₚ)) addrs.
Proof. intros xs ys H. induction H; rewrite ?addrs_cons; repeat case_match; try done; [by f_equiv|apply perm_swap|by etrans]. Qed.

Lemma owns_perm m xs ys ext : xs ≡ₚ ys -> owns m xs ext -> owns m ys ext.
Proof.
  intros E [H1 H2 H3]. split; [by rewrite <- E| |intros a; rewrite <- E; apply H3].
  rewrite H2. f_equal. apply leibniz_equiv. intros a. by rewrite !elem_of_list_to_set, E.
Qed.
#[export] Instance owns_proper m : Proper ((≡ₚ) ==> (=) ==> iff) (owns m).
Proof. intros xs ys E ext ? <-. split; by apply owns_perm. Qed.

Lemma owns_set m xs ext a e : a ∈ addrs xs -> owns m xs ext -> owns (<[a := e]> m) xs ext.
Proof. intros Ha [H1 H2 H3]. split; [done| |done]. rewrite dom_insert_L, H2. set_solver. Qed.

Lemma owns_alloc m n xs ext a e : m !! a = None -> naddr n = Some a -> owns m xs ext -> owns (<[a := e]> m) (n :: xs) ext.
Proof.
  intros Hm Ha [H1 H2 H3]. assert (a ∉ dom m) as Hd by by apply not_elem_of_dom. rewrite H2 in Hd.
  split.
  - rewrite addrs_cons, Ha. constructor; [set_solver|done].
  - rewrite addrs_cons, Ha, dom_insert_L, H2. set_solver.
  - intros b. rewrite addrs_cons, Ha. intros [->|Hb]%elem_of_cons; [set_solver|by apply H3].
Qed.

Lemma owns_free m n xs ext a : naddr n = Some a -> owns m (n :: xs) ext -> owns (delete a m) xs ext.
Proof.
  intros Ha [H1 H2 H3]. assert (forall b, b ∈ a :: addrs xs -> b ∉ ext) as H3' by (intros b; specialize (H3 b); by rewrite addrs_cons, Ha in H3).
  rewrite addrs_cons, Ha in H1, H2. apply NoDup_cons in H1 as [H0 H1]. split; [done| |intros b Hb; apply H3'; by right].
  rewrite dom_delete_L, H2. pose proof (H3' a ltac:(by left)). set_solver.
Qed.

Lemma owns_key m n xs ext : naddr n = None -> owns m (n :: xs) ext <-> owns m xs ext.
Proof. intros Ha. assert (addrs (n :: xs) = addrs xs) as E by (by rewrite addrs_cons, Ha). split; intros [H1 H2 H3]; split; rewrite ?E in *; try done; intros a; specialize (H3 a); by rewrite E in *. Qed.

(** What an entry that was unlinked leaves to its new owner. *)
Definition ext_of (n : node) : gset Z := match naddr n with Some a => {[a]} | None => ∅ end.

Lemma owns_unlink m n xs ext : owns m (n :: xs) ext -> owns m xs (ext_of n ∪ ext).
Proof.
  intros H. unfold ext_of. destruct (naddr n) as [a|] eqn:Ha; [|rewrite union_empty_l_L; by apply owns_key in H].
  destruct H as [H1 H2 H3]. assert (forall b, b ∈ a :: addrs xs -> b ∉ ext) as H3' by (intros b; specialize (H3 b); by rewrite addrs_cons, Ha in H3).
  rewrite addrs_cons, Ha in H1, H2. apply NoDup_cons in H1 as [H0 H1]. split; [done|rewrite H2; set_solver|].
  intros b Hb. pose proof (H3' b ltac:(by right)). set_solver.
Qed.
