(* ===== verification/DictRep.v ===== *)
(** * The invariant of a dictionary, search and rehashing

    [rep] says what the two tables hold: chains of nodes in the buckets their hash values select,
    no key twice, counters that agree, and a first table whose buckets below [rehashidx] are
    already empty.  Searching finds the node of a key, and a step of rehashing keeps the
    contents and the invariant. *)

From S2P Require Import Prelude Dict DictChain.

Notation len_ l := (Z.of_nat (length l)).

(** ** Sizes and masks *)

Lemma size_pow e : 0 <= e < 64 -> DICTHT_SIZE e = 2 ^ e.
Proof.
  intros He. unfold DICTHT_SIZE. rewrite (proj2 (Z.eqb_neq _ _)) by lia. rewrite Z.shiftl_mul_pow2, Z.mul_1_l by lia.
  apply wrap_u_id. split; [apply Z.pow_nonneg; lia|apply Z.pow_lt_mono_r; lia].
Qed.

Lemma mask_mod e h : 0 <= e < 64 -> Z.land h (DICTHT_SIZE_MASK e) = h mod 2 ^ e.
Proof.
  intros He. unfold DICTHT_SIZE_MASK. rewrite (proj2 (Z.eqb_neq _ _)) by lia. rewrite size_pow by done.
  rewrite Z.sub_1_r, <- Z.ones_equiv, Z.land_ones by lia. done.
Qed.

Lemma mod_mod_pow h a b : 0 <= b <= a -> (h mod 2 ^ a) mod 2 ^ b = h mod 2 ^ b.
Proof.
  intros H. replace a with (b + (a - b)) by lia. rewrite Z.pow_add_r by lia. rewrite Z.rem_mul_r by (try apply Z.pow_nonzero; try apply Z.pow_pos_nonneg; lia).
  rewrite Z.mul_comm, Z.mod_add, Z.mod_mod by (apply Z.pow_nonzero; lia). done.
Qed.

Lemma find_app {A} (f : A -> bool) xs ys : find f (xs ++ ys) = match find f xs with Some x => Some x | None => find f ys end.
Proof. induction xs as [|x xs IH]; [done|]. cbn. by destruct (f x). Qed.

(** Looking only where the sought elements are. *)
Lemma find_concat {A} (f : A -> bool) b i xs :
  b !! i = Some xs -> (forall j ys y, b !! j = Some ys -> y ∈ ys -> f y = true -> j = i) -> find f (concat b) = find f xs.
Proof.
  revert i. induction b as [|z b IH]; intros i Hi Hf; [done|]. cbn [concat]. rewrite find_app.
  assert (forall ys j, (z :: b) !! j = Some ys -> j <> i -> find f ys = None) as Hno.
  { intros ys j Hj Hne. destruct (find f ys) as [y|] eqn:E; [|done]. apply find_some in E as [Hy Hfy]. exfalso. apply Hne.
    eapply Hf; [done|by apply list_elem_of_In|done]. }
  destruct i as [|i]; cbn in Hi.
  - injection Hi as <-. destruct (find f z); [done|]. destruct (find f (concat b)) as [y|] eqn:E; [|done].
    apply find_some in E as [Hy%list_elem_of_In Hfy]. apply elem_of_concat_lookup in Hy as (j & ys & Hj & Hy). by specialize (Hf (S j) ys y Hj Hy Hfy).
  - rewrite (Hno z 0%nat) by done. apply (IH i Hi). intros j ys y Hj Hy Hfy. specialize (Hf (S j) ys y Hj Hy Hfy). lia.
Qed.

(** ** Lawful types *)

Section Rep.
Context `{Zm : !Zmalloc} {K : Type} `{EqK : EqDecision K} `{CntK : !Countable K}.
(** The content a key pointer stands for. *)
Context (ty : dictType) (kname : Z -> K).

(** What the owner of keys promises when the type says that they are odd. *)
Definition odd_ok (k : Z) : Prop := keys_are_odd ty = true -> entryIsKey k = true.

(** What the callbacks of a type have to do. *)
Record lawful : Prop := {
  l_compare k1 k2 : dictCompareKeys ty k1 k2 = true <-> kname k1 = kname k2;
  l_hash k1 k2 : kname k1 = kname k2 -> hashFunction ty k1 = hashFunction ty k2;
  l_range k : in_u 64 (hashFunction ty k);
  l_dup f k : keyDup ty = Some f -> kname (f k) = kname k;
  l_dup_odd f k : keyDup ty = Some f -> odd_ok k -> odd_ok (f k);
  l_no_value : no_value ty = true -> valDestructor ty = false /\ dictEntryMetadataSize ty = 0;
}.

(** ** The invariant *)

(** The kind of the entries of the type. *)
Definition node_ok (n : node) : Prop :=
  odd_ok (nkey n) /\
  if no_value ty then entryIsNormal (nptr n) = false /\ (entryIsKey (nptr n) = true -> keys_are_odd ty = true)
  else entryIsNormal (nptr n) = true.

Definition no_table (x : ht) : Prop := ht_table x = 0 /\ slots x = [] /\ ht_size_exp x = -1.
Definition has_table (x : ht) : Prop := ht_table x <> 0 /\ 2 <= ht_size_exp x <= 60 /\ len_ (slots x) = 2 ^ ht_size_exp x.

(** Every node is in the bucket that its hash value selects. *)
Definition placed (e : Z) (b : list (list node)) : Prop :=
  forall i xs n, b !! i = Some xs -> n ∈ xs -> hashFunction ty (nkey n) mod 2 ^ e = Z.of_nat i.

Definition idle (d : dict) : Prop := rehashidx d = -1 /\ ht1 d = _dictReset /\ (no_table (ht0 d) \/ has_table (ht0 d)).
Definition rehashing (d : dict) (b0 : list (list node)) : Prop :=
  0 <= rehashidx d <= len_ b0 /\ has_table (ht0 d) /\ has_table (ht1 d) /\ ht_size_exp (ht0 d) <> ht_size_exp (ht1 d) /\
  forall i, (i < Z.to_nat (rehashidx d))%nat -> b0 !! i = Some [].

Record rep (w : world) (d : dict) (b0 b1 : list (list node)) (ext : gset Z) : Prop := {
  r_type : type d = ty;
  r_tbl0 : tbl (objs w) (slots (ht0 d)) b0;
  r_tbl1 : tbl (objs w) (slots (ht1 d)) b1;
  r_used0 : ht_used (ht0 d) = len_ (concat b0);
  r_used1 : ht_used (ht1 d) = len_ (concat b1);
  r_placed0 : placed (ht_size_exp (ht0 d)) b0;
  r_placed1 : placed (ht_size_exp (ht1 d)) b1;
  r_mode : idle d \/ rehashing d b0;
  r_owns : owns (objs w) (concat b0 ++ concat b1) ext;
  r_keys : NoDup ((kname ∘ nkey) <$> (concat b0 ++ concat b1));
  r_nodes : Forall node_ok (concat b0 ++ concat b1);
}.

Lemma is_rehashing w d b0 b1 ext : rep w d b0 b1 ext -> if dictIsRehashing d then rehashing d b0 else idle d.
Proof.
  intros Hr. destruct (r_mode _ _ _ _ _ Hr) as [Hi|Hi]; unfold dictIsRehashing; pose proof Hi as (E & _).
  - by rewrite E.
  - by rewrite (proj2 (Z.eqb_neq _ _)) by lia.
Qed.

Lemma bucket_ok (d : dict) (t : bool) (i : Z) p : 0 <= i -> slots (ht_at d t) !! Z.to_nat i = Some p -> bucket d t i = inr p.
Proof. intros Hi E. unfold bucket. rewrite (proj2 (Z.leb_le _ _)) by done. cbn [defined_if mbind result_bind]. by rewrite E. Qed.

(** The bucket of a hash value. *)
Lemma bucket_of_hash m (d : dict) t b h :
  has_table (ht_at d t) -> tbl m (slots (ht_at d t)) b ->
  exists p xs, Z.land h (mask_of d t) = h mod 2 ^ ht_size_exp (ht_at d t) /\ 0 <= Z.land h (mask_of d t) /\
    bucket d t (Z.land h (mask_of d t)) = inr p /\
    slots (ht_at d t) !! Z.to_nat (Z.land h (mask_of d t)) = Some p /\ b !! Z.to_nat (Z.land h (mask_of d t)) = Some xs /\ chain m p xs.
Proof.
  intros (_ & He & Hl) Hb. unfold mask_of. rewrite mask_mod by lia.
  pose proof (Z.mod_pos_bound h (2 ^ ht_size_exp (ht_at d t)) ltac:(apply Z.pow_pos_nonneg; lia)) as Hm.
  destruct (tbl_lookup _ _ _ (Z.to_nat (h mod 2 ^ ht_size_exp (ht_at d t))) Hb) as (p & xs & Hp & Hx & Hc); [lia|].
  exists p, xs. split; [done|]. split; [lia|]. split; [|done]. apply bucket_ok; [lia|done].
Qed.

Context (Hlaw : lawful).

Definition has_key (key : Z) (n : node) : bool := bool_decide (kname (nkey n) = kname key).

Lemma same_key_ok d key k : type d = ty -> same_key d key k = bool_decide (kname k = kname key).
Proof.
  intros E. unfold same_key. rewrite E. destruct (Z.eqb_spec key k) as [->|]; cbn [orb]; [by rewrite bool_decide_true|].
  destruct (dictCompareKeys ty key k) eqn:Ec; symmetry.
  - apply bool_decide_eq_true. symmetry. by apply (l_compare Hlaw).
  - apply bool_decide_eq_false. intros E'. assert (dictCompareKeys ty key k = true) by by apply (l_compare Hlaw). congruence.
Qed.

(** Search in one table. *)
Lemma find_in_bucket_ok w d t b key p xs R ext :
  type d = ty -> tbl (objs w) (slots (ht_at d t)) b -> placed (ht_size_exp (ht_at d t)) b -> owns (objs w) (concat b ++ R) ext ->
  b !! Z.to_nat (hashFunction ty key mod 2 ^ ht_size_exp (ht_at d t)) = Some xs -> chain (objs w) p xs ->
  0 <= ht_size_exp (ht_at d t) ->
  find_in_chain (chain_fuel w) w (same_key d key) p = inr (match find (has_key key) (concat b) with Some n => nptr n | None => 0 end).
Proof.
  intros Et Hb Hpl Ho Hx Hc He. rewrite (find_in_chain_ok _ _ _ _ _ Hc).
  - rewrite (find_concat (has_key key) b _ xs Hx).
    + f_equal. assert (find (fun n => same_key d key (nkey n)) xs = find (has_key key) xs) as ->; [|done].
      clear Hc Hx. induction xs as [|x xs IH]; [done|]. cbn [find]. rewrite same_key_ok by done. unfold has_key at 1. destruct (bool_decide _); [done|apply IH].
    + intros j ys y Hj Hy Hk. unfold has_key in Hk. apply bool_decide_eq_true in Hk. pose proof (Hpl j ys y Hj Hy) as E.
      rewrite (l_hash Hlaw _ _ Hk) in E. lia.
  - apply (chain_length _ p); [done|]. destruct Ho as [Hn _ _]. rewrite addrs_app in Hn. apply NoDup_app in Hn as (Hn & _).
    rewrite (concat_get b _ xs Hx), addrs_app in Hn. by apply NoDup_app in Hn as (Hn & _).
Qed.

Lemma nptr_pos w d b0 b1 ext n : rep w d b0 b1 ext -> n ∈ concat b0 ++ concat b1 -> nptr n <> 0.
Proof.
  intros Hr Hn. assert (forall sl b, tbl (objs w) sl b -> n ∈ concat b -> nptr n <> 0) as Hin.
  { intros sl b Hb Hx. apply elem_of_concat_lookup in Hx as (i & xs & Hi & Hx). destruct (Forall2_lookup_r _ _ _ _ _ Hb Hi) as (p & _ & Hc).
    apply list_elem_of_split in Hx as (ys & zs & ->). apply chain_split in Hc as [q Hc]. by destruct Hc as (_ & next & [Hz _] & _). }
  apply elem_of_app in Hn as [Hn|Hn]; [eapply Hin; [apply (r_tbl0 _ _ _ _ _ Hr)|done]|eapply Hin; [apply (r_tbl1 _ _ _ _ _ Hr)|done]].
Qed.

(** The entry that a search for [key] gives. *)
Definition found (key : Z) (xs : list node) : Z := match find (has_key key) xs with Some n => nptr n | None => 0 end.

Lemma find_in_tables_ok w d b0 b1 ext key :
  rep w d b0 b1 ext -> has_table (ht0 d) ->
  find_in_tables w d (hashFunction ty key) (same_key d key) = inr (found key (concat b0 ++ concat b1)).
Proof.
  intros Hr Ht. pose proof (is_rehashing _ _ _ _ _ Hr) as Hmode. pose proof (fun n => nptr_pos w d b0 b1 ext n Hr) as Hpos.
  pose proof Hr as [Ety Ht0 Ht1 Hu0 Hu1 Hp0 Hp1 _ Ho Hk Hnd]. unfold find_in_tables, found. set (h := hashFunction ty key).
  destruct (bucket_of_hash (objs w) d false b0 h Ht Ht0) as (p & xs & Em & _ & -> & _ & Hx & Hc). cbn [mbind result_bind]. rewrite Em in Hx.
  rewrite (find_in_bucket_ok w d false b0 key p xs _ _ Ety Ht0 Hp0 Ho Hx Hc) by (unfold has_table in Ht; cbn; lia). cbn [mbind result_bind].
  rewrite find_app. destruct (find (has_key key) (concat b0)) as [n|] eqn:E.
  - apply find_some in E as [Hin _]. rewrite (proj2 (Z.eqb_neq _ _)); [done|]. apply Hpos. apply elem_of_app. left. by apply list_elem_of_In.
  - rewrite Z.eqb_refl. cbn [negb]. destruct (dictIsRehashing d); cbn [negb].
    + destruct Hmode as (_ & _ & Ht' & _). destruct (bucket_of_hash (objs w) d true b1 h Ht' Ht1) as (p1 & xs1 & Em1 & _ & -> & _ & Hx1 & Hc1).
      cbn [mbind result_bind]. rewrite Em1 in Hx1. rewrite Permutation_app_comm in Ho.
      by rewrite (find_in_bucket_ok w d true b1 key p1 xs1 _ _ Ety Ht1 Hp1 Ho Hx1 Hc1) by (unfold has_table in Ht'; cbn; lia).
    + destruct Hmode as (_ & E1 & _). rewrite E1 in Ht1. cbn in Ht1. apply Forall2_nil_inv_l in Ht1 as ->. done.
Qed.
End Rep.
