(* ===== verification/DictRehash.v ===== *)
(** * Rehashing keeps the contents

    [dictRehash] moves whole buckets to the second table: every key and value stays, the invariant
    of [DictRep] is kept, and a call that is allowed to work makes progress. *)

From S2P Require Import Prelude Dict DictChain DictRep.

Section Rehash.
Context `{Zm : !Zmalloc} {K : Type} (ty : dictType) (kname : Z -> K).
Notation rep := (rep ty kname).

(** What survives of a node when it is moved. *)
Definition kv (n : node) : Z * option Z := (nkey n, nval n).
(** The same contents; the entries themselves where they hold values. *)
Definition same_content (xs ys : list node) : Prop := kv <$> xs ≡ₚ kv <$> ys /\ (no_value ty = false -> xs ≡ₚ ys).

#[local] Instance same_content_equiv : Equivalence same_content.
Proof.
  split.
  - by split.
  - intros xs ys [H1 H2]. split; [done|]. intros E. by rewrite (H2 E).
  - intros xs ys zs [H1 H2] [H3 H4]. split; [by rewrite H1|]. intros E. by rewrite (H2 E), (H4 E).
Qed.
Lemma same_content_perm xs ys : xs ≡ₚ ys -> same_content xs ys.
Proof. intros E. split; [by rewrite E|done]. Qed.
Lemma same_content_app xs xs' ys ys' : same_content xs xs' -> same_content ys ys' -> same_content (xs ++ ys) (xs' ++ ys').
Proof. intros [H1 H2] [H3 H4]. split; [by rewrite !fmap_app, H1, H3|]. intros E. by rewrite (H2 E), (H4 E). Qed.
Lemma same_content_length xs ys : same_content xs ys -> length xs = length ys.
Proof. intros [E _]. apply Permutation_length in E. by rewrite !length_fmap in E. Qed.
Lemma same_content_keys xs ys : same_content xs ys -> (kname ∘ nkey) <$> xs ≡ₚ (kname ∘ nkey) <$> ys.
Proof.
  intros [E _]. assert (forall zs, (kname ∘ nkey) <$> zs = (kname ∘ fst) <$> (kv <$> zs)) as Ek by (intros zs; rewrite <- list_fmap_compose; done).
  by rewrite !Ek, E.
Qed.

(** The world apart from the heap. *)
Definition same_rest (w w' : world) : Prop := calls w' = calls w /\ dict_can_resize w' = dict_can_resize w.

Lemma same_rest_trans w1 w2 w3 : same_rest w1 w2 -> same_rest w2 w3 -> same_rest w1 w3.
Proof. intros [? ?] [? ?]. split; congruence. Qed.

(** ** One node *)

(** A bare key is odd, and an entry without value is not a bare key. *)
Lemma node_kind m n next : node_ok ty n -> node_at m n next ->
  if no_value ty then nval n = None /\ (if entryIsKey (nptr n) then nkey n = nptr n /\ next = 0 else entryIsNoValue (nptr n) = true)
  else entryIsKey (nptr n) = false.
Proof.
  intros [_ Hk] [_ Hn]. destruct (no_value ty).
  - destruct Hk as [Hk _]. destruct (entryIsKey (nptr n)); [by destruct Hn as (? & ? & ?)|]. destruct Hn as [Hn _].
    by destruct (entryIsNoValue (nptr n)); [|congruence].
  - by apply normal_addr in Hk as (_ & ? & _).
Qed.

Lemma new_entry_tags h : let a := new_entry h in entryIsKey a = false /\ entryIsNoValue a = false /\ entryIsNormal a = true /\ addr_of a = a /\ a <> 0.
Proof.
  cbn zeta. destruct (aligned_mul (new_entry h) (new_entry_aligned h)) as [q Eq]. pose proof (new_entry_pos h). rewrite Eq in *.
  destruct (tag_normal q) as (? & ? & ? & ?). repeat split; try done. lia.
Qed.
Lemma new_novalue_tags h : let p := Z.lor (new_entry h) ENTRY_PTR_NO_VALUE in
  entryIsKey p = false /\ entryIsNoValue p = true /\ entryIsNormal p = false /\ addr_of p = new_entry h /\ p <> 0.
Proof.
  cbn zeta. destruct (aligned_mul (new_entry h) (new_entry_aligned h)) as [q Eq]. pose proof (new_entry_pos h). rewrite Eq in *.
  destruct (tag_novalue q) as (-> & ? & ? & ? & ?). repeat split; try done. lia.
Qed.

(** [m'] has the objects of [R] and [ext] as [m] has them. *)
Definition frames (m m' : gmap Z entry) (R : list node) (ext : gset Z) : Prop := forall a, a ∈ addrs R \/ a ∈ ext -> m' !! a = m !! a.

Lemma frames_trans m1 m2 m3 R ext : frames m1 m2 R ext -> frames m2 m3 R ext -> frames m1 m3 R ext.
Proof. intros H1 H2 a Ha. by rewrite (H2 a Ha), (H1 a Ha). Qed.
Lemma frames_app_r m m' R1 R2 ext : frames m m' (R1 ++ R2) ext -> frames m m' R2 ext.
Proof. intros H a [Ha|Ha]; apply H; [left; rewrite addrs_app; apply elem_of_app; by right|by right]. Qed.
Lemma frames_perm m m' R R' ext : R ≡ₚ R' -> frames m m' R ext -> frames m m' R' ext.
Proof. intros E H a. rewrite <- E. apply H. Qed.

Lemma owns_other m n R ext a b : owns m (n :: R) ext -> naddr n = Some a -> b ∈ addrs R \/ b ∈ ext -> b <> a.
Proof.
  intros [H1 H2 H3] Ha Hb ->. rewrite addrs_cons, Ha in H1. apply NoDup_cons in H1 as [H1 _]. destruct Hb as [Hb|Hb]; [done|].
  apply (H3 a); [|done]. rewrite addrs_cons, Ha. by left.
Qed.
Lemma owns_fresh m R ext b : owns m R ext -> b ∈ addrs R \/ b ∈ ext -> b <> new_entry m.
Proof.
  intros [H1 H2 H3] Hb ->. assert (new_entry m ∈ dom m) as Hd by (rewrite H2; set_solver). apply elem_of_dom in Hd as [e He].
  by rewrite new_entry_fresh in He.
Qed.

(** An entry without value put before [head]. *)
Lemma create_novalue_ok w key head R ext :
  owns (objs w) R ext -> odd_ok ty key -> no_value ty = true ->
  exists w' n, createEntryNoValue w key head = (w', nptr n) /\ kv n = (key, None) /\ node_at (objs w') n head /\ node_ok ty n /\
    owns (objs w') (n :: R) ext /\ frames (objs w) (objs w') R ext /\ same_rest w w'.
Proof.
  intros Ho Hodd Env. unfold createEntryNoValue. destruct (new_novalue_tags (objs w)) as (T1 & T2 & T3 & T4 & T5).
  exists (put_obj w (new_entry (objs w)) (NoValue key head)), (mk_node (Z.lor (new_entry (objs w)) ENTRY_PTR_NO_VALUE) key None).
  split; [done|]. split; [done|]. cbn [objs put_obj]. split_and!.
  - split; [done|]. cbn [nptr]. rewrite T1, T2. split; [done|]. cbn [nptr]. rewrite T4, lookup_insert_eq. unfold obj_of. cbn [nptr]. by rewrite T2.
  - split; [done|]. cbn [nptr]. rewrite Env, T3. split; [done|]. by rewrite T1.
  - eapply owns_alloc; [apply new_entry_fresh| |done]. unfold naddr. cbn [nptr]. by rewrite T1, T4.
  - intros a Ha. rewrite lookup_insert_ne; [done|]. intros <-. by eapply owns_fresh.
  - done.
Qed.

(** The [next] of a node set anew. *)
Lemma set_next_owns w n next R ext head :
  node_at (objs w) n next -> entryIsKey (nptr n) = false -> owns (objs w) (n :: R) ext ->
  exists w', dictSetNext w (nptr n) head = inr w' /\ node_at (objs w') n head /\ owns (objs w') (n :: R) ext /\
    frames (objs w) (objs w') R ext /\ same_rest w w'.
Proof.
  intros Hn Ek Ho. rewrite (set_next_ok _ _ _ Hn head Ek). eexists. split; [done|]. cbn [objs put_obj]. pose proof (naddr_some n Ek) as Ea.
  split; [by eapply node_at_set|]. split; [apply owns_set; [rewrite addrs_cons, Ea; by left|done]|]. split; [|done].
  intros a Ha. rewrite lookup_insert_ne; [done|]. intros <-. by eapply owns_other.
Qed.

Lemma relink_ok w d n next head R ext :
  type d = ty -> node_ok ty n -> node_at (objs w) n next -> owns (objs w) (n :: R) ext ->
  exists w' n', relink w d (nptr n) (nkey n) head = inr (w', nptr n') /\ kv n' = kv n /\ (no_value ty = false -> n' = n) /\
    node_at (objs w') n' head /\ node_ok ty n' /\ owns (objs w') (n' :: R) ext /\ frames (objs w) (objs w') R ext /\ same_rest w w'.
Proof.
  intros Et Hok Hn Ho. unfold relink. rewrite Et. pose proof (node_kind _ _ _ Hok Hn) as Hkind. pose proof Hok as [Hodd Hk].
  assert (entryIsKey (nptr n) = false -> exists w', dictSetNext w (nptr n) head = inr w' /\ node_at (objs w') n head /\ owns (objs w') (n :: R) ext /\
    frames (objs w) (objs w') R ext /\ same_rest w w') as Hset by (intros Ek; by eapply set_next_owns).
  destruct (no_value ty) eqn:Env.
  2:{ destruct (Hset Hkind) as (w' & -> & ? & ? & ? & ?). exists w', n. done. }
  destruct Hkind as [Ev Hkind]. destruct Hk as [Hnorm Hko].
  destruct (keys_are_odd ty && (head =? 0)) eqn:Ehead.
  - apply andb_true_iff in Ehead as [Eodd ->%Z.eqb_eq]. rewrite (Hodd Eodd). cbn [assert mbind result_bind].
    assert (node_ok ty (mk_node (nkey n) (nkey n) None)) as Hnew.
    { split; [done|]. rewrite Env. cbn [nptr]. split; [|done]. destruct (entryIsNormal (nkey n)) eqn:E; [|done].
      apply normal_addr in E as (_ & E & _). by rewrite (Hodd Eodd) in E. }
    assert (naddr (mk_node (nkey n) (nkey n) None) = None) as Ena by (unfold naddr; cbn [nptr]; by rewrite (Hodd Eodd)).
    assert (nkey n <> 0) as Hne by (intros E; specialize (Hodd Eodd); by rewrite E in Hodd).
    destruct (entryIsKey (nptr n)) eqn:Ek.
    + destruct Hkind as [Ekey _]. exists w, n. split; [by rewrite Ekey|]. split; [done|]. split; [done|].
      split; [|done]. destruct Hn as [H0 Hn]. split; [done|]. rewrite Ek in *. tauto.
    + rewrite (table_zfree_ok _ _ _ Hn Ek). cbn [mbind result_bind mret result_ret]. eexists _, (mk_node (nkey n) (nkey n) None). cbn [nptr].
      split; [done|]. split; [unfold kv; cbn; by rewrite Ev|]. split; [done|]. cbn [objs]. split_and!; try done.
      * split; [done|]. cbn [nptr nkey nval]. by rewrite (Hodd Eodd).
      * apply owns_key; [done|]. eapply owns_free; [by apply naddr_some|done].
      * intros a Ha. rewrite lookup_delete_ne; [done|]. intros <-. eapply owns_other; [done|by apply naddr_some|done|done].
  - destruct (entryIsKey (nptr n)) eqn:Ek.
    + destruct Hkind as [Ekey _]. assert (naddr n = None) as Ena by (unfold naddr; by rewrite Ek).
      apply (proj1 (owns_key _ _ _ _ Ena)) in Ho. destruct (create_novalue_ok w (nkey n) head R ext Ho Hodd Env) as (w' & n' & -> & Ekv & ? & ? & ? & ? & ?).
      exists w', n'. split; [done|]. split; [rewrite Ekv; unfold kv; by rewrite Ev|]. done.
    + rewrite Hkind. cbn [assert mbind result_bind]. destruct (Hset eq_refl) as (w' & -> & ? & ? & ? & ?). exists w', n. done.
Qed.

(** ** One bucket *)

Lemma chain_frames m m' R ext p xs : (exists R', R ≡ₚ xs ++ R') -> frames m m' R ext -> chain m p xs -> chain m' p xs.
Proof. intros [R' E] Hf. apply chain_frame. intros a Ha. apply Hf. left. rewrite E, addrs_app. apply elem_of_app. by left. Qed.
Lemma tbl_frames m m' R ext sl b : (exists R', R ≡ₚ concat b ++ R') -> frames m m' R ext -> tbl m sl b -> tbl m' sl b.
Proof. intros [R' E] Hf. apply tbl_frame. intros a Ha. apply Hf. left. rewrite E, addrs_app. apply elem_of_app. by left. Qed.

(** A node put at the head of a bucket. *)
Lemma tbl_push m sl b i ys n head :
  tbl m sl b -> b !! i = Some ys -> chain m head ys -> node_at m n head -> tbl m (<[i := nptr n]> sl) (<[i := n :: ys]> b).
Proof. intros Hb Hy Hc Hn. apply tbl_set; [done|]. split; [done|]. by exists head. Qed.
Lemma concat_push {A} (b : list (list A)) i ys n : b !! i = Some ys -> concat (<[i := n :: ys]> b) ≡ₚ n :: concat b.
Proof. intros Hy. rewrite (concat_set b i ys _ Hy), (concat_get b i ys Hy). done. Qed.
Lemma placed_push e b i ys n :
  placed ty e b -> b !! i = Some ys -> hashFunction ty (nkey n) mod 2 ^ e = Z.of_nat i -> placed ty e (<[i := n :: ys]> b).
Proof.
  intros Hp Hy Hn j xs x Hj Hx. apply list_lookup_insert_Some in Hj as [(<- & <- & _)|[Hne Hj]]; [|by eapply Hp].
  apply elem_of_cons in Hx as [->|Hx]; [done|by eapply Hp].
Qed.

(** [d] after [k] entries went to the second table, whose buckets are now [sl]. *)
Definition moved (d : dict) (sl : list Z) (k : Z) : dict :=
  mk_dict (type d) (set_used (ht0 d) (ht_used (ht0 d) - k)) (mk_ht (ht_table (ht1 d)) sl (ht_used (ht1 d) + k) (ht_size_exp (ht1 d)))
    (rehashidx d) (pauserehash d).

Lemma moved_moved d sl sl' k k' : moved (moved d sl k) sl' k' = moved d sl' (k + k').
Proof. unfold moved, set_used. cbn. by rewrite Z.sub_add_distr, Z.add_assoc. Qed.

Lemma move_chain_ok fuel w d de xs b1 O ext :
  type d = ty -> has_table (ht1 d) -> chain (objs w) de xs -> (length xs <= fuel)%nat ->
  tbl (objs w) (slots (ht1 d)) b1 -> placed ty (ht_size_exp (ht1 d)) b1 -> Forall (node_ok ty) xs ->
  (forall n, n ∈ xs -> rehash_index d (nkey n) = hashFunction ty (nkey n) mod 2 ^ ht_size_exp (ht1 d)) ->
  owns (objs w) (xs ++ concat b1 ++ O) ext ->
  len_ xs <= ht_used (ht0 d) < 2 ^ 64 -> 0 <= ht_used (ht1 d) -> ht_used (ht1 d) + len_ xs < 2 ^ 64 ->
  exists w' sl b1' xs', move_chain fuel w d de = inr (w', moved d sl (len_ xs)) /\
    tbl (objs w') sl b1' /\ length b1' = length b1 /\ concat b1' ≡ₚ xs' ++ concat b1 /\ same_content xs' xs /\
    placed ty (ht_size_exp (ht1 d)) b1' /\ Forall (node_ok ty) xs' /\ owns (objs w') (concat b1' ++ O) ext /\
    frames (objs w) (objs w') O ext /\ same_rest w w'.
Proof.
  revert fuel w d de b1. induction xs as [|n xs IH]; intros fuel w d de b1 Et Hht Hc Hf Hb Hpl Hok Hidx Ho Hu0 Hu1 Hu2.
  { cbn in Hc. subst de. exists w, (slots (ht1 d)), b1, []. split_and!; try done.
    destruct fuel; cbn [move_chain Z.eqb]; unfold moved, set_used; cbn [length Z.of_nat]; rewrite Z.sub_0_r, Z.add_0_r; destruct d as [? [] [] ? ?]; done. }
  destruct Hc as (-> & next & Hn & Hc). apply Forall_cons in Hok as [Hnok Hok]. destruct fuel as [|fuel]; [cbn in Hf; lia|]. cbn [length] in *.
  cbn [move_chain]. rewrite (proj2 (Z.eqb_neq _ _)) by apply Hn. rewrite (get_next_ok _ _ _ Hn), (get_key_ok _ _ _ Hn). cbn [mbind result_bind].
  set (h := hashFunction ty (nkey n)) in *. rewrite (Hidx n) by by left. fold h.
  destruct (bucket_of_hash (objs w) d true b1 h Hht Hb) as (head & ys & Em & H0 & Ebk & Esl & Hy & Hch). rewrite Em in *. cbn [ht_at] in *.
  set (i := h mod 2 ^ ht_size_exp (ht1 d)) in *. rewrite Ebk. cbn [mbind result_bind].
  destruct (relink_ok w d n next head (xs ++ concat b1 ++ O) ext Et Hnok Hn Ho) as (w1 & n' & -> & Ekv & Esame & Hn' & Hok' & Ho1 & Hf1 & Hs1).
  cbn [mbind result_bind]. unfold set_bucket. rewrite Ebk. cbn [mbind result_bind mret result_ret ht_at].
  set (d1 := set_ht (set_ht (set_ht d true _) _ _) true _).
  assert (d1 = moved d (<[Z.to_nat i := nptr n']> (slots (ht1 d))) 1) as Ed1.
  { unfold d1, moved, set_ht, set_used, set_slots. cbn. rewrite !wrap_u_id by (unfold in_u; lia). done. }
  assert (tbl (objs w1) (slots (ht1 d)) b1) as Hb1.
  { eapply tbl_frames; [|exact Hf1|done]. exists (xs ++ O). by rewrite Permutation_app_swap_app. }
  assert (chain (objs w1) head ys) as Hch1.
  { eapply chain_frames; [|exact Hf1|done]. exists (xs ++ concat (<[Z.to_nat i := []]> b1) ++ O).
    rewrite (concat_get b1 _ ys Hy), <- app_assoc. by rewrite Permutation_app_swap_app. }
  assert (kv n' = kv n) as Ekv' by done. injection Ekv' as Ekey Eval.
  assert (nkey n' = nkey n) as Ekey' by done.
  destruct (IH fuel w1 d1 next (<[Z.to_nat i := n' :: ys]> b1)) as (w2 & sl & b1' & xs' & -> & Hb2 & Hlen & Hperm & Hcont & Hpl2 & Hok2 & Ho2 & Hf2 & Hs2).
  - by rewrite Ed1.
  - rewrite Ed1. cbn. unfold has_table in *. cbn. by rewrite length_insert.
  - eapply chain_frames; [|exact Hf1|done]. by exists (concat b1 ++ O).
  - lia.
  - rewrite Ed1. cbn. by eapply tbl_push.
  - rewrite Ed1. cbn. apply placed_push; [done|done|]. rewrite Ekey'. unfold i. rewrite Z2Nat.id by lia. done.
  - done.
  - intros x Hx. rewrite Ed1. unfold rehash_index, mask_of. cbn. apply (Hidx x). by right.
  - eapply owns_perm; [|exact Ho1]. rewrite (concat_push b1 _ ys n' Hy). cbn. by rewrite <- Permutation_middle.
  - rewrite Ed1. cbn. lia.
  - rewrite Ed1. cbn. lia.
  - rewrite Ed1. cbn. lia.
  - exists w2, sl, b1', (xs' ++ [n']). rewrite Ed1, moved_moved. rewrite Ed1 in Hpl2. cbn in Hpl2. split; [do 3 f_equal; lia|].
    rewrite length_insert in Hlen. split_and!; try done.
    + rewrite Hperm, (concat_push b1 _ ys n' Hy), <- app_assoc. done.
    + etrans; [apply same_content_perm, Permutation_app_comm|]. destruct Hcont as [Hc1 Hc2]. split; [cbn; by rewrite Ekv, Hc1|]. intros E. cbn. by rewrite (Esame E), (Hc2 E).
    + apply Forall_app. split; [done|]. by constructor.
    + eapply frames_trans; [|done]. by do 2 apply frames_app_r in Hf1.
    + by eapply same_rest_trans.
Qed.

(** ** The loop *)

Lemma concat_not_nil {A} (b : list (list A)) j : (forall i, (i < j)%nat -> b !! i = Some []) -> concat b <> [] -> (j < length b)%nat.
Proof.
  intros Hz Hne. destruct (decide (j < length b)%nat) as [|Hge]; [done|]. exfalso. apply Hne. destruct (concat b) as [|x l] eqn:E; [done|]. exfalso.
  assert (x ∈ concat b) as Hx by (rewrite E; by left). apply elem_of_concat_lookup in Hx as (i & xs & Hi & Hx).
  rewrite Hz in Hi by (apply lookup_lt_Some in Hi; lia). injection Hi as <-. by apply elem_of_nil in Hx.
Qed.

Lemma skip_empty_ok fuel d b0 m ev :
  tbl m (slots (ht0 d)) b0 -> 0 <= rehashidx d -> (forall i, (i < Z.to_nat (rehashidx d))%nat -> b0 !! i = Some []) -> concat b0 <> [] ->
  1 <= ev -> len_ b0 - rehashidx d <= Z.of_nat fuel ->
  exists j ev' ret, skip_empty fuel d ev = inr (set_rehashidx d j, ev', ret) /\ rehashidx d <= j < len_ b0 /\
    (forall i, (i < Z.to_nat j)%nat -> b0 !! i = Some []) /\
    if (ret : bool) then rehashidx d < j else 1 <= ev' /\ exists p xs, slots (ht0 d) !! Z.to_nat j = Some p /\ b0 !! Z.to_nat j = Some xs /\ chain m p xs /\ xs <> [].
Proof.
  revert d ev. induction fuel as [|fuel IH]; intros d ev Hb H0 Hz Hne Hev Hf.
  { pose proof (concat_not_nil _ _ Hz Hne). lia. }
  pose proof (concat_not_nil _ _ Hz Hne) as Hlt. pose proof (Forall2_length _ _ _ Hb) as Hlen.
  destruct (tbl_lookup _ _ _ (Z.to_nat (rehashidx d)) Hb) as (p & xs & Hp & Hx & Hc); [lia|]. cbn [skip_empty].
  rewrite (bucket_ok d false _ p H0 Hp). cbn [mbind result_bind]. destruct (Z.eqb_spec p 0) as [->|Hp0].
  - apply chain_nil in Hc as ->. set (d' := set_rehashidx d _).
    assert (forall i, (i < Z.to_nat (rehashidx d'))%nat -> b0 !! i = Some []) as Hz'.
    { cbn. intros i Hi. destruct (decide (i = Z.to_nat (rehashidx d))) as [->|]; [done|]. apply Hz. lia. }
    pose proof (concat_not_nil _ _ Hz' Hne) as Hlt'. cbn in Hlt'. destruct (Z.eqb_spec (ev - 1) 0).
    + exists (rehashidx d + 1), (ev - 1), true. split; [done|]. split; [lia|]. split; [done|lia].
    + destruct (IH d' (ev - 1)) as (j & ev' & ret & -> & Hj & Hzj & Hret); [done|cbn; lia|done|done|lia|cbn; lia|]. exists j, ev', ret. cbn in *.
      split; [done|]. split; [lia|]. split; [done|]. destruct ret; [lia|done].
  - exists (rehashidx d), ev, false. split; [by destruct d|]. split; [lia|]. split; [done|]. split; [done|]. exists p, xs. split_and!; try done.
    intros ->. by cbn in Hc.
Qed.

Lemma tbl_clear m sl b i : tbl m sl b -> tbl m (<[i := 0]> sl) (<[i := []]> b).
Proof. intros. by apply tbl_set. Qed.

(** The index computed for a shrinking table is the one of the hash value, too. *)
Lemma rehash_index_ok d b0 i xs n :
  type d = ty -> has_table (ht0 d) -> has_table (ht1 d) -> placed ty (ht_size_exp (ht0 d)) b0 -> 0 <= rehashidx d ->
  i = Z.to_nat (rehashidx d) -> b0 !! i = Some xs -> n ∈ xs ->
  rehash_index d (nkey n) = hashFunction ty (nkey n) mod 2 ^ ht_size_exp (ht1 d).
Proof.
  intros Et (_ & He0 & _) (_ & He1 & _) Hpl H0 -> Hx Hn. unfold rehash_index. rewrite Et. unfold mask_of. cbn [ht_at]. rewrite !mask_mod by lia.
  destruct (Z.ltb_spec (ht_size_exp (ht0 d)) (ht_size_exp (ht1 d))); [done|]. pose proof (Hpl _ _ _ Hx Hn) as E. rewrite Z2Nat.id in E by lia.
  rewrite <- E. apply mod_mod_pow. lia.
Qed.

(** The dictionary after the bucket at [rehashidx] has been emptied. *)
Definition step_done (d : dict) (sl1 : list Z) (k : Z) : dict :=
  mk_dict (type d) (mk_ht (ht_table (ht0 d)) (<[Z.to_nat (rehashidx d) := 0]> (slots (ht0 d))) (ht_used (ht0 d) - k) (ht_size_exp (ht0 d)))
    (mk_ht (ht_table (ht1 d)) sl1 (ht_used (ht1 d) + k) (ht_size_exp (ht1 d))) (rehashidx d + 1) (pauserehash d).

Definition small (b0 b1 : list (list node)) : Prop := len_ (concat b0 ++ concat b1) < 2 ^ 64.

Lemma move_bucket_ok w d b0 b1 ext p xs :
  rep w d b0 b1 ext -> rehashing d b0 -> small b0 b1 ->
  slots (ht0 d) !! Z.to_nat (rehashidx d) = Some p -> b0 !! Z.to_nat (rehashidx d) = Some xs -> chain (objs w) p xs ->
  exists w' sl b1' b0', move_chain (chain_fuel w) w d p = inr (w', moved d sl (len_ xs)) /\
    rep w' (step_done d sl (len_ xs)) b0' b1' ext /\ rehashing (step_done d sl (len_ xs)) b0' /\
    same_content (concat b0' ++ concat b1') (concat b0 ++ concat b1) /\ same_rest w w' /\ length b0' = length b0.
Proof.
  intros Hr Hre Hsm Hp Hx Hc. pose proof Hr as [Ety Ht0 Ht1 Hu0 Hu1 Hp0 Hp1 _ Ho Hk Hnd]. destruct Hre as (Hi & Hh0 & Hh1 & Hne & Hz).
  set (i := Z.to_nat (rehashidx d)) in *. set (b0' := <[i := []]> b0). pose proof (concat_get b0 i xs Hx) as Eb0. fold b0' in Eb0.
  unfold small in Hsm. rewrite length_app in Hsm. pose proof (Permutation_length Eb0) as El0. rewrite length_app in El0.
  assert (concat b0 ++ concat b1 ≡ₚ xs ++ concat b1 ++ concat b0') as Eall by (rewrite Eb0, <- app_assoc; f_equiv; apply Permutation_app_comm).
  assert (owns (objs w) (xs ++ concat b1 ++ concat b0') ext) as Ho' by by rewrite <- Eall.
  rewrite Eall in Hnd. apply Forall_app in Hnd as [Hndx Hnd]. apply Forall_app in Hnd as [Hnd1 Hnd0].
  destruct (move_chain_ok (chain_fuel w) w d p xs b1 (concat b0') ext Ety Hh1 Hc) as (w' & sl & b1' & xs' & -> & Hb1' & Hl1 & Hperm & Hcont & Hpl1 & Hok & Ho1 & Hfr & Hs).
  { apply (chain_length _ p); [done|]. destruct Ho' as [Hn _ _]. rewrite addrs_app in Hn. by apply NoDup_app in Hn as (Hn & _). }
  1-3: done.
  { intros n Hn. eapply (rehash_index_ok d b0 i xs); try done; lia. }
  1-4: (done || lia).
  exists w', sl, b1', b0'. split; [done|].
  assert (same_content (concat b0' ++ concat b1') (concat b0 ++ concat b1)) as Hsc.
  { etrans; [|symmetry; by apply same_content_perm]. etrans; [apply same_content_perm; by rewrite Hperm, Permutation_app_comm, <- app_assoc|].
    apply same_content_app; [done|]. reflexivity. }
  pose proof (Permutation_length Hperm) as Elp. rewrite length_app, (same_content_length _ _ Hcont) in Elp.
  assert (rehashing (step_done d sl (len_ xs)) b0') as Hre'.
  { pose proof (lookup_lt_Some _ _ _ Hx). pose proof (Forall2_length _ _ _ Hb1'). pose proof (Forall2_length _ _ _ Ht1).
    unfold rehashing, has_table in *. cbn [step_done rehashidx ht0 ht1 slots ht_table ht_size_exp]. unfold b0'. rewrite !length_insert.
    split_and!; try done; try lia. intros j Hj. destruct (decide (j = i)) as [->|]; [by apply list_lookup_insert_eq|].
    rewrite list_lookup_insert_ne by done. apply Hz. lia. }
  split; [|split; [done|split; [done|split; [done|by unfold b0'; rewrite length_insert]]]].
  - split; cbn [type step_done ht0 ht1 slots ht_used ht_size_exp]; try done.
    + eapply tbl_frames; [|exact Hfr|by apply tbl_clear]. exists []. by rewrite app_nil_r.
    + lia.
    + lia.
    + intros j ys y Hj Hy. unfold b0' in Hj. apply list_lookup_insert_Some in Hj as [(<- & <- & _)|[_ Hj]]; [by apply elem_of_nil in Hy|by eapply Hp0].
    + by right.
    + by rewrite Permutation_app_comm.
    + by rewrite (same_content_keys _ _ Hsc).
    + apply Forall_app. split; [done|]. rewrite Hperm. by apply Forall_app.
Qed.

(** The same contents, in a dictionary that may have moved some of them. *)
Definition kept (w : world) (d : dict) (b0 b1 : list (list node)) (ext : gset Z) (w' : world) (d' : dict) (b0' b1' : list (list node)) : Prop :=
  rep w' d' b0' b1' ext /\ same_content (concat b0' ++ concat b1') (concat b0 ++ concat b1) /\ same_rest w w' /\ pauserehash d' = pauserehash d.

Lemma kept_refl w d b0 b1 ext : rep w d b0 b1 ext -> kept w d b0 b1 ext w d b0 b1.
Proof. done. Qed.
Lemma kept_trans w d b0 b1 ext w1 d1 c0 c1 w2 d2 e0 e1 :
  kept w d b0 b1 ext w1 d1 c0 c1 -> kept w1 d1 c0 c1 ext w2 d2 e0 e1 -> kept w d b0 b1 ext w2 d2 e0 e1.
Proof.
  intros (R1 & C1 & S1 & P1) (R2 & C2 & S2 & P2). split; [done|]. split; [by etrans|]. split; [by eapply same_rest_trans|congruence].
Qed.
Lemma kept_small w d b0 b1 ext w' d' b0' b1' : kept w d b0 b1 ext w' d' b0' b1' -> small b0 b1 -> small b0' b1'.
Proof. intros (_ & C & _) H. unfold small in *. by rewrite (same_content_length _ _ C). Qed.

Lemma used_zero w d b0 b1 ext : rep w d b0 b1 ext -> ht_used (ht0 d) = 0 <-> concat b0 = [].
Proof. intros Hr. rewrite (r_used0 _ _ _ _ _ _ _ Hr). destruct (concat b0); cbn; split; (done || lia). Qed.

Lemma rehash_loop_ok n w d ev b0 b1 ext :
  rep w d b0 b1 ext -> rehashing d b0 -> small b0 b1 -> n = O \/ 1 <= ev ->
  exists w' d' ret b0' b1', rehash_loop n w d ev = inr (w', d', ret) /\ kept w d b0 b1 ext w' d' b0' b1' /\ rehashing d' b0' /\ length b0' = length b0 /\
    rehashidx d <= rehashidx d' /\ (n <> O -> rehashidx d < rehashidx d' \/ ht_used (ht0 d') = 0) /\ (ret = true -> ht_used (ht0 d') <> 0).
Proof.
  revert w d ev b0 b1. induction n as [|n IH]; intros w d ev b0 b1 Hr Hre Hsm Hev; cbn [rehash_loop].
  { exists w, d, false, b0, b1. split_and!; try done; apply kept_refl, Hr. }
  destruct (Z.eqb_spec (ht_used (ht0 d)) 0) as [E0|Hu]; [exists w, d, false, b0, b1; split_and!; try done; by right|].
  pose proof Hre as (Hi & Hh0 & Hh1 & Hne & Hz). pose proof (Forall2_length _ _ _ (r_tbl0 _ _ _ _ _ _ _ Hr)) as Hl0.
  assert (concat b0 <> []) as Hcat by (intros E; by apply (used_zero _ _ _ _ _ Hr) in E).
  pose proof (concat_not_nil _ _ Hz Hcat) as Hlt. pose proof Hh0 as (_ & He0 & Hs0).
  assert (2 ^ ht_size_exp (ht0 d) <= 2 ^ 60) as Hpow by (apply Z.pow_le_mono_r; lia).
  rewrite size_pow, wrap_u_id by (unfold in_u; lia). rewrite (proj2 (Z.ltb_lt _ _)) by lia. cbn [assert mbind result_bind].
  destruct (skip_empty_ok (length (slots (ht0 d))) d b0 (objs w) ev) as (j & ev' & ret & -> & Hj & Hzj & Hret);
    [apply (r_tbl0 _ _ _ _ _ _ _ Hr)|lia|done|done|lia|lia|]. cbn [mbind result_bind].
  set (d1 := set_rehashidx d j).
  assert (rehashing d1 b0) as Hre1 by (unfold d1, rehashing; cbn; split_and!; try done; lia).
  assert (rep w d1 b0 b1 ext) as Hr1 by (destruct Hr; split; try done; by right).
  destruct ret.
  { exists w, d1, true, b0, b1. split; [done|]. split; [done|]. split; [done|]. split; [done|]. cbn. split; [lia|]. split; [by left|]. done. }
  destruct Hret as (Hev' & p & xs & Hp & Hx & Hc & Hxs). rewrite (bucket_ok d1 false (rehashidx d1) p) by (try done; cbn; lia). cbn [mbind result_bind].
  destruct (move_bucket_ok w d1 b0 b1 ext p xs Hr1 Hre1 Hsm Hp Hx Hc) as (w2 & sl & b1' & b0' & -> & Hr2 & Hre2 & Hsc & Hs & Hl).
  cbn [mbind result_bind]. unfold set_bucket. rewrite (bucket_ok (moved d1 sl (len_ xs)) false _ p) by (try done; cbn; lia). cbn [mbind result_bind mret result_ret].
  set (d2 := set_rehashidx _ _). change d2 with (step_done d1 sl (len_ xs)). clear d2. set (d2 := step_done d1 sl (len_ xs)) in *.
  assert (kept w d b0 b1 ext w2 d2 b0' b1') as Hk by by split.
  destruct (IH w2 d2 ev' b0' b1' Hr2 Hre2) as (w3 & d3 & ret & c0 & c1 & -> & Hk3 & Hre3 & Hl3 & Hi3 & _ & Hret3); [by eapply kept_small|by right|].
  exists w3, d3, ret, c0, c1. split; [done|]. split; [by eapply kept_trans|]. split; [done|]. split; [congruence|].
  assert (rehashidx d2 = j + 1) as E2 by done. rewrite E2 in Hi3. split; [lia|]. split; [left; lia|done].
Qed.

Lemma dictRehash_ok w d b0 b1 ext n :
  rep w d b0 b1 ext -> small b0 b1 -> 1 <= Z.of_nat n -> 10 * Z.of_nat n < 2 ^ 31 ->
  exists w' d' r b0' b1', dictRehash w d n = inr (w', d', r) /\ kept w d b0 b1 ext w' d' b0' b1' /\
    (r = 1 /\ rehashing d' b0' /\ length b0' = length b0 /\ rehashidx d < rehashidx d' \/
     r = 0 /\ (idle d' \/ w' = w /\ d' = d /\ dict_can_resize w <> DICT_RESIZE_ENABLE)).
Proof.
  intros Hr Hsm Hn Hb. unfold dictRehash. rewrite (proj2 (Z.ltb_lt (10 * Z.of_nat n) (2 ^ 31)) Hb). cbn [defined_if mbind result_bind].
  pose proof (is_rehashing _ _ _ _ _ _ _ Hr) as Hmode. case_bool_decide as EF; cbn [orb].
  { exists w, d, 0, b0, b1. split; [done|]. split; [done|]. right. split; [done|]. right. split_and!; try done. by rewrite EF. }
  destruct (dictIsRehashing d) eqn:Er; cbn [negb]; [|exists w, d, 0, b0, b1; split; [done|]; split; [done|]; right; split; [done|]; by left].
  destruct (bool_decide (dict_can_resize w = DICT_RESIZE_AVOID) && _) eqn:EA.
  { apply andb_true_iff in EA as [EA%bool_decide_eq_true _]. exists w, d, 0, b0, b1. split; [done|]. split; [done|]. right. split; [done|]. right. split_and!; try done. by rewrite EA. }
  destruct (rehash_loop_ok n w d (10 * Z.of_nat n) b0 b1 ext Hr Hmode Hsm) as (w' & d' & ret & b0' & b1' & -> & Hk & Hre & Hl & Hi & Hlt & Hret); [right; lia|].
  cbn [mbind result_bind]. pose proof Hk as (Hr' & Hsc & Hs & Hpa).
  assert (ht_used (ht0 d') <> 0 -> rehashidx d < rehashidx d') as Hprog by (destruct Hlt; [lia|done|done]).
  destruct ret; [exists w', d', 1, b0', b1'; split_and!; try done; left; split_and!; try done; by apply Hprog, Hret|].
  destruct (Z.eqb_spec (ht_used (ht0 d')) 0) as [E0|Hu].
  - apply (used_zero _ _ _ _ _ Hr') in E0. set (d2 := mk_dict _ _ _ _ _). assert (idle d2) as Hi2 by (unfold idle; cbn; split_and!; try done; right; apply Hre).
    exists w', d2, 0, b1', []. split; [done|]. rewrite E0 in Hsc. split; [|right; split; [done|by left]]. cbn [app] in Hsc. split; [|by cbn; rewrite app_nil_r].
    destruct Hr' as [Ety Ht0 Ht1 Hu0 Hu1 Hp0 Hp1 _ Ho Hkk Hnd]. rewrite E0 in *. cbn [app] in *. split; cbn; rewrite ?app_nil_r; try done; [by constructor|by left].
  - exists w', d', 1, b0', b1'. split_and!; try done. left. split_and!; try done. by apply Hprog.
Qed.
End Rehash.
