(* ===== verification/DictEdit.v ===== *)
(** * Every operation keeps the invariant

    Look-ups, growing, insertion, values, deletion and clearing of a dictionary, each with what it
    does to the nodes in the two tables. *)

From S2P Require Import Prelude Dict DictChain DictRep DictRehash.

Section Ops.
Context `{Zm : !Zmalloc} {K : Type} `{EqK : EqDecision K} `{CntK : !Countable K} (ty : dictType) (kname : Z -> K) (Hlaw : lawful ty kname).
Notation rep := (rep ty kname).
Notation kept := (kept ty kname).
Notation found := (found kname).
Notation has_key := (has_key kname).

(** ** Look-up *)

Lemma step_if_rehashing_ok w d b0 b1 ext :
  rep w d b0 b1 ext -> small b0 b1 ->
  exists w' d' b0' b1', step_if_rehashing w d = inr (w', d') /\ kept w d b0 b1 ext w' d' b0' b1'.
Proof.
  intros Hr Hsm. unfold step_if_rehashing, _dictRehashStep. assert (kept w d b0 b1 ext w d b0 b1) as Hk by by split.
  destruct (dictIsRehashing d); [|by exists w, d, b0, b1]. destruct (pauserehash d =? 0); [|by exists w, d, b0, b1].
  destruct (dictRehash_ok ty kname w d b0 b1 ext 1 Hr Hsm) as (w' & d' & r & b0' & b1' & -> & Hk' & _); [done|done|]. by exists w', d', b0', b1'.
Qed.

Lemma dictSize_ok w d b0 b1 ext : rep w d b0 b1 ext -> small b0 b1 -> dictSize d = len_ (concat b0 ++ concat b1).
Proof.
  intros Hr Hsm. unfold dictSize, small in *. rewrite (r_used0 _ _ _ _ _ _ _ Hr), (r_used1 _ _ _ _ _ _ _ Hr), <- Nat2Z.inj_add, <- length_app.
  apply wrap_u_id. unfold in_u. lia.
Qed.

Lemma table_if_nodes w d b0 b1 ext : rep w d b0 b1 ext -> concat b0 ++ concat b1 <> [] -> has_table (ht0 d).
Proof.
  intros Hr Hne. destruct (r_mode _ _ _ _ _ _ _ Hr) as [(_ & E1 & [(_ & E0 & _)|Ht])|(_ & Ht & _)]; [|done|done]. exfalso. apply Hne.
  pose proof (r_tbl0 _ _ _ _ _ _ _ Hr) as T0. pose proof (r_tbl1 _ _ _ _ _ _ _ Hr) as T1. rewrite E0 in T0. rewrite E1 in T1.
  apply Forall2_nil_inv_l in T0 as ->. apply Forall2_nil_inv_l in T1 as ->. done.
Qed.

Lemma kept_nil w d b0 b1 ext w' d' b0' b1' : kept w d b0 b1 ext w' d' b0' b1' -> concat b0 ++ concat b1 <> [] -> concat b0' ++ concat b1' <> [].
Proof. intros (_ & C & _) Hne E. apply Hne. apply nil_length_inv. rewrite <- (same_content_length _ _ _ C), E. done. Qed.

Lemma dictFind_ok w d b0 b1 ext key :
  rep w d b0 b1 ext -> small b0 b1 ->
  exists w' d' b0' b1', dictFind w d key = inr (w', d', found key (concat b0' ++ concat b1')) /\ kept w d b0 b1 ext w' d' b0' b1'.
Proof.
  intros Hr Hsm. unfold dictFind. rewrite (dictSize_ok _ _ _ _ _ Hr Hsm). destruct (Z.eqb_spec (len_ (concat b0 ++ concat b1)) 0) as [E|Hne].
  { exists w, d, b0, b1. assert (concat b0 ++ concat b1 = []) as -> by (apply nil_length_inv; lia). split; [done|]. by split. }
  assert (concat b0 ++ concat b1 <> []) as Hne' by (intros E; by rewrite E in Hne).
  destruct (step_if_rehashing_ok _ _ _ _ _ Hr Hsm) as (w' & d' & b0' & b1' & -> & Hk). cbn [mbind result_bind]. pose proof Hk as (Hr' & _).
  exists w', d', b0', b1'. rewrite (r_type _ _ _ _ _ _ _ Hr'), (find_in_tables_ok _ _ Hlaw _ _ _ _ _ _ Hr'); [done|].
  eapply table_if_nodes; [done|]. by eapply kept_nil.
Qed.

(** ** Growing *)

Lemma nextexp_ok size : 0 <= size -> 2 <= _dictNextExp size <= 63 /\ (size <= 2 ^ 60 -> size <= 2 ^ _dictNextExp size /\ _dictNextExp size <= 60).
Proof.
  intros H0. unfold _dictNextExp, DICT_HT_INITIAL_SIZE, DICT_HT_INITIAL_EXP, __builtin_clzl. change (Z.shiftl 1 2) with 4.
  destruct (Z.leb_spec size 4); [lia|]. destruct (Z.leb_spec (2 ^ 63 - 1) size); [lia|].
  rewrite wrap_u_id by (unfold in_u; lia). pose proof (Z.log2_spec (size - 1) ltac:(lia)) as [Hlo Hhi].
  assert (2 <= Z.log2 (size - 1)) as Hl by (apply (Z.log2_le_mono 4 (size - 1)); lia).
  assert (Z.log2 (size - 1) < 63) as Hu by (apply Z.log2_lt_pow2; lia). split; [lia|]. intros Hs.
  assert (Z.log2 (size - 1) < 60) as Hu' by (apply Z.log2_lt_pow2; lia).
  replace (8 * 8 - (63 - Z.log2 (size - 1))) with (Z.succ (Z.log2 (size - 1))) by lia. lia.
Qed.

(** A table too large for its bytes to be counted is refused. *)
Lemma expand_limit e : 2 <= e <= 63 -> (u64 (u64 (Z.shiftl 1 e) * 8) <? u64 (Z.shiftl 1 e)) = negb (e <=? 60).
Proof.
  intros He. assert (e = 61 \/ e = 62 \/ e = 63 \/ 2 <= e <= 60) as [->|[->|[->|H]]] by lia; [done..|].
  rewrite (proj2 (Z.leb_le e 60)) by lia. cbn [negb]. apply Z.ltb_ge. rewrite Z.shiftl_mul_pow2, Z.mul_1_l by lia.
  assert (2 ^ e <= 2 ^ 60) by (apply Z.pow_le_mono_r; lia). assert (0 < 2 ^ e) by (apply Z.pow_pos_nonneg; lia).
  rewrite !wrap_u_id by (unfold in_u; rewrite ?wrap_u_id by (unfold in_u; lia); lia). lia.
Qed.

Lemma fresh_table (w : world) e : 2 <= e <= 60 -> has_table (mk_ht (new_table w) (replicate (Z.to_nat (u64 (Z.shiftl 1 e))) 0) 0 e).
Proof.
  intros He. pose proof (new_table_pos w). assert (2 ^ e <= 2 ^ 60) by (apply Z.pow_le_mono_r; lia). assert (0 < 2 ^ e) by (apply Z.pow_pos_nonneg; lia).
  split; [cbn; lia|]. cbn. split; [done|]. rewrite length_replicate, Z.shiftl_mul_pow2, Z.mul_1_l, wrap_u_id by (unfold in_u; lia). lia.
Qed.
Lemma concat_replicate_nil {A} n : concat (replicate n ([] : list A)) = [].
Proof. by induction n. Qed.
Lemma placed_replicate e n : placed ty e (replicate n []).
Proof. intros i xs x Hi Hx. apply lookup_replicate in Hi as [-> _]. by apply elem_of_nil in Hx. Qed.

(** The dictionary before and after a change of its size. *)
Definition resized (w : world) (d : dict) (b0 b1 : list (list node)) (ext : gset Z) (d' : dict) : Prop :=
  exists b0' b1', rep w d' b0' b1' ext /\ concat b0' = concat b0 /\ concat b1' = concat b1 /\ pauserehash d' = pauserehash d /\ (has_table (ht0 d) -> ht0 d' = ht0 d).

(** The new table is the first one, or the one to move to. *)
Lemma install_ok w d b0 b1 ext x :
  rep w d b0 b1 ext -> idle d -> has_table x -> slots x = replicate (length (slots x)) 0 -> ht_used x = 0 -> ht_size_exp x <> ht_size_exp (ht0 d) ->
  let d' := if ht_table (ht0 d) =? 0 then set_ht d false x else set_rehashidx (set_ht d true x) 0 in
  resized w d b0 b1 ext d' /\ has_table (ht0 d').
Proof.
  intros [Ety Ht0 Ht1 Hu0 Hu1 Hp0 Hp1 _ Ho Hk Hnd] (Hidx & E1 & Hh0) Hx Hsl Hu He. set (k := length (slots x)) in *.
  pose proof (tbl_empty (objs w) k) as Htx. rewrite <- Hsl in Htx. pose proof (concat_replicate_nil (A := node) k) as Ec.
  rewrite E1 in Ht1. apply Forall2_nil_inv_l in Ht1 as ->. destruct (Z.eqb_spec (ht_table (ht0 d)) 0) as [Ez|Hnz]; cbn zeta.
  - destruct Hh0 as [Hh0|(? & _)]; [|done]. destruct Hh0 as (_ & Es & _). rewrite Es in Ht0. apply Forall2_nil_inv_l in Ht0 as ->.
    split; [|done]. exists (replicate k []), []. split; [|split; [done|split; [done|split; [done|by intros (? & _)]]]].
    split; cbn; rewrite ?Ec, ?E1; try done; [by constructor|apply placed_replicate|]. left. unfold idle. cbn. rewrite Hidx. split_and!; try done. by right.
  - destruct Hh0 as [(? & _)|Hh0]; [done|]. split; [|done]. exists b0, (replicate k []). split; [|done].
    split; cbn; rewrite ?Ec; try done; [apply placed_replicate|]. right. unfold rehashing. cbn. split_and!; try done; lia.
Qed.

Lemma expand_ok w d b0 b1 ext size try full :
  rep w d b0 b1 ext -> 0 <= size -> exists d' r f, _dictExpand w d size try full = (d', r, f) /\ resized w d b0 b1 ext d' /\
    (dictIsRehashing d = false -> ht_used (ht0 d) <= size <= 2 ^ 60 -> _dictNextExp size <> ht_size_exp (ht0 d) -> try = false ->
     r = DICT_OK /\ f = false /\ has_table (ht0 d')).
Proof.
  intros Hr Hs. unfold _dictExpand. assert (resized w d b0 b1 ext d) as Hsame by by exists b0, b1.
  pose proof (is_rehashing _ _ _ _ _ _ _ Hr) as Hmode. destruct (dictIsRehashing d); cbn [orb]; [by eexists _, _, _|].
  destruct (Z.ltb_spec size (ht_used (ht0 d))); [eexists _, _, _; split; [done|]; split; [done|]; lia|].
  destruct (nextexp_ok size Hs) as [He Hle]. set (e := _dictNextExp size) in *. rewrite (expand_limit e He). cbn zeta.
  assert (size <= 2 ^ 60 -> (u64 (Z.shiftl 1 e) <? size) = false) as Hbig.
  { intros Hb. apply Z.ltb_ge. rewrite Z.shiftl_mul_pow2, Z.mul_1_l by lia. assert (2 ^ e < 2 ^ 64) by (apply Z.pow_lt_mono_r; lia).
    pose proof (Z.pow_nonneg 2 e). rewrite wrap_u_id by (unfold in_u; lia). lia. }
  destruct ((u64 (Z.shiftl 1 e) <? size) || negb (e <=? 60)) eqn:Elim.
  { eexists _, _, _. split; [done|]. split; [done|]. intros _ [_ Hb] _ _. rewrite (Hbig Hb), (proj2 (Z.leb_le e 60)) in Elim by lia. done. }
  apply orb_false_iff in Elim as [_ Hle60%negb_false_iff%Z.leb_le].
  destruct (Z.eqb_spec e (ht_size_exp (ht0 d))); [eexists _, _, _; split; [done|]; split; [done|]; done|].
  set (x := mk_ht _ _ _ _). destruct (install_ok w d b0 b1 ext x Hr Hmode) as [Hres Htab]; [by apply fresh_table; lia|cbn; by rewrite length_replicate|done|done|].
  destruct try; cbn [andb]; [destruct full; [by eexists _, _, _|]|]; destruct (ht_table (ht0 d) =? 0); by eexists _, _, _.
Qed.

Lemma dictExpand_ok w d b0 b1 ext size :
  rep w d b0 b1 ext -> 0 <= size -> exists d' r, dictExpand w d size = (d', r) /\ resized w d b0 b1 ext d' /\
    (dictIsRehashing d = false -> ht_used (ht0 d) <= size <= 2 ^ 60 -> _dictNextExp size <> ht_size_exp (ht0 d) -> r = DICT_OK /\ has_table (ht0 d')).
Proof.
  intros Hr Hs. unfold dictExpand. destruct (expand_ok w d b0 b1 ext size false false Hr Hs) as (d' & r & f & -> & Hres & Hok). exists d', r.
  split; [done|]. split; [done|]. intros H1 H2 H3. by destruct (Hok H1 H2 H3 eq_refl) as (? & _ & ?).
Qed.

(** Room for one more entry. *)
Definition roomy (b0 b1 : list (list node)) : Prop := len_ (concat b0 ++ concat b1) < 2 ^ 59.

Lemma grows_ok w d b0 b1 ext :
  rep w d b0 b1 ext -> idle d -> has_table (ht0 d) -> 2 ^ ht_size_exp (ht0 d) <= ht_used (ht0 d) < 2 ^ 59 ->
  exists d' r, dictExpand w d (u64 (ht_used (ht0 d) + 1)) = (d', r) /\ resized w d b0 b1 ext d' /\ r = DICT_OK /\ has_table (ht0 d').
Proof.
  intros Hr Hi Hh0 Hu. assert (0 < 2 ^ ht_size_exp (ht0 d)) by (apply Z.pow_pos_nonneg; destruct Hh0; lia). rewrite wrap_u_id by (unfold in_u; lia).
  destruct (dictExpand_ok w d b0 b1 ext (ht_used (ht0 d) + 1) Hr) as (d' & r & -> & Hres & Hok); [lia|]. exists d', r. split; [done|]. split; [done|].
  apply Hok; [unfold dictIsRehashing; destruct Hi as (-> & _); done|lia|]. intros E. destruct (nextexp_ok (ht_used (ht0 d) + 1)) as [_ Hle]; [lia|].
  rewrite E in Hle. lia.
Qed.

Lemma expand_if_needed_ok w d b0 b1 ext :
  rep w d b0 b1 ext -> roomy b0 b1 ->
  exists d', _dictExpandIfNeeded w d = (d', DICT_OK) /\ resized w d b0 b1 ext d' /\ has_table (ht0 d').
Proof.
  intros Hr Hroom. unfold _dictExpandIfNeeded. pose proof (is_rehashing _ _ _ _ _ _ _ Hr) as Hmode.
  assert (resized w d b0 b1 ext d) as Hsame by by exists b0, b1. assert (ht_used (ht0 d) < 2 ^ 59) as Hu.
  { rewrite (r_used0 _ _ _ _ _ _ _ Hr). unfold roomy in Hroom. rewrite length_app in Hroom. lia. }
  destruct (dictIsRehashing d) eqn:Er; [exists d; split; [done|]; split; [done|]; apply Hmode|]. pose proof Hmode as (_ & _ & [Hno|Hh0]).
  { destruct Hno as (E0 & Esl & Ee). rewrite Ee. change (DICTHT_SIZE (-1) =? 0) with true. cbn iota.
    destruct (dictExpand_ok w d b0 b1 ext DICT_HT_INITIAL_SIZE Hr) as (d' & r & -> & Hres & Hok); [done|].
    destruct Hok as [-> Hh]; [done| |rewrite Ee; done|eauto]. rewrite (r_used0 _ _ _ _ _ _ _ Hr). pose proof (r_tbl0 _ _ _ _ _ _ _ Hr) as T. rewrite Esl in T.
    apply Forall2_nil_inv_l in T as ->. done. }
  pose proof Hh0 as (_ & He & _). assert (0 < 2 ^ ht_size_exp (ht0 d)) by (apply Z.pow_pos_nonneg; lia). rewrite size_pow by lia.
  rewrite (proj2 (Z.eqb_neq _ _)) by lia. cbn zeta. destruct ((bool_decide _ && _) || (_ && _)) eqn:Egrow; [|by exists d].
  destruct (dictTypeExpandAllowed d); [|by exists d].
  destruct (grows_ok w d b0 b1 ext Hr Hmode Hh0) as (d' & r & -> & Hres & -> & Hh'); [|eauto]. split; [|done].
  apply orb_true_iff in Egrow as [[_ E%Z.leb_le]%andb_true_iff|[_ E%Z.ltb_lt]%andb_true_iff]; [done|].
  unfold dict_force_resize_ratio in E. pose proof (Z.mul_div_le (ht_used (ht0 d)) (2 ^ ht_size_exp (ht0 d)) ltac:(lia)). nia.
Qed.
End Ops.

(** ** Changing a dictionary

    Insertion, values, deletion and clearing, each with what it does to the nodes in the two tables. *)

Section Edit.
Context `{Zm : !Zmalloc} {K : Type} `{EqK : EqDecision K} `{CntK : !Countable K} (ty : dictType) (kname : Z -> K) (Hlaw : lawful ty kname).
Notation rep := (rep ty kname).
Notation kept := (kept ty kname).
Notation found := (found kname).
Notation has_key := (has_key kname).

(** ** A table exchanged *)

Definition pick (t : bool) (b0 b1 : list (list node)) : list (list node) := if t then b1 else b0.

Lemma rep_pick w d b0 b1 ext t : rep w d b0 b1 ext ->
  tbl (objs w) (slots (ht_at d t)) (pick t b0 b1) /\ ht_used (ht_at d t) = len_ (concat (pick t b0 b1)) /\ placed ty (ht_size_exp (ht_at d t)) (pick t b0 b1).
Proof. intros []. by destruct t. Qed.

(** One table gets other buckets, the other one and the kind of the dictionary stay. *)
Lemma rep_update w d b0 b1 ext w' ext' t b sl n :
  rep w d b0 b1 ext -> let d' := set_ht d t (mk_ht (ht_table (ht_at d t)) sl n (ht_size_exp (ht_at d t))) in
  let c0 := pick t b b0 in let c1 := pick t b1 b in
  tbl (objs w') sl b -> n = len_ (concat b) -> placed ty (ht_size_exp (ht_at d t)) b -> length b = length (pick t b0 b1) ->
  tbl (objs w') (slots (ht_at d (negb t))) (pick (negb t) b0 b1) ->
  (t = true \/ idle d \/ forall i, b0 !! i = Some [] -> b !! i = Some []) -> (t = true -> dictIsRehashing d = true) ->
  owns (objs w') (concat c0 ++ concat c1) ext' -> NoDup ((kname ∘ nkey) <$> (concat c0 ++ concat c1)) -> Forall (node_ok ty) (concat c0 ++ concat c1) ->
  rep w' d' c0 c1 ext'.
Proof.
  intros Hr d' c0 c1 Hb Hn Hpl Hlen Hother Hz Ht Ho Hk Hnd. pose proof (is_rehashing _ _ _ _ _ _ _ Hr) as Hmode.
  pose proof (Forall2_length _ _ _ Hb) as Hl. destruct (rep_pick _ _ _ _ _ t Hr) as (Hbt & _). pose proof (Forall2_length _ _ _ Hbt) as Hlt.
  destruct Hr as [Ety Ht0 Ht1 Hu0 Hu1 Hp0 Hp1 Hm Ho' Hk' Hnd']. unfold c0, c1, d', pick in *. destruct t; cbn in *.
  - specialize (Ht eq_refl). rewrite Ht in Hmode. split; try done; cbn; try done. right. unfold rehashing, has_table in *. cbn. rewrite Hl, Hlen, <- Hlt. done.
  - split; try done. destruct (dictIsRehashing d).
    + right. destruct Hmode as (Hi & (? & ? & Hs) & Hh1 & Hne & Hzero). destruct Hz as [|[(E & _)|Hz]]; [done|lia|].
      unfold rehashing, has_table. cbn. rewrite Hl, Hlen. destruct Hh1 as (? & ? & ?). split_and!; try done; try lia. intros i Hi'. by apply Hz, Hzero.
    + left. destruct Hmode as (Hi & E1 & Hh). unfold idle, no_table, has_table in *. cbn. split_and!; try done.
      destruct Hh as [(? & E & ?)|(? & ? & ?)]; [left|right]; split_and!; try done; try lia. rewrite E in Hlt. apply nil_length_inv. cbn in Hlt. lia.
Qed.

(** ** Insertion *)

(** The contents with [n] added. *)
Definition added (n : node) (b0 b1 c0 c1 : list (list node)) : Prop := concat c0 ++ concat c1 ≡ₚ n :: concat b0 ++ concat b1.

Lemma added_keys n b0 b1 c0 c1 key :
  added n b0 b1 c0 c1 -> NoDup ((kname ∘ nkey) <$> (concat b0 ++ concat b1)) -> find (has_key key) (concat b0 ++ concat b1) = None ->
  kname (nkey n) = kname key -> NoDup ((kname ∘ nkey) <$> (concat c0 ++ concat c1)).
Proof.
  intros E Hnd Hf Hk. unfold added in E. rewrite E. cbn. apply NoDup_cons. split; [|done]. intros Hin. apply list_elem_of_fmap in Hin as (x & Ex & Hx). cbn in Ex.
  apply list_elem_of_In in Hx. pose proof (find_none _ _ Hf x Hx) as Hno.
  unfold DictRep.has_key in Hno. apply bool_decide_eq_false in Hno. congruence.
Qed.

Definition dup_key (key : Z) : Z := match keyDup ty with Some f => f key | None => key end.
Lemma dup_key_ok key : kname (dup_key key) = kname key /\ (odd_ok ty key -> odd_ok ty (dup_key key)).
Proof. unfold dup_key. destruct (keyDup ty) as [f|] eqn:E; [|done]. split; [by apply (l_dup _ _ Hlaw)|by apply (l_dup_odd _ _ Hlaw)]. Qed.

(** The new entry of a bucket that starts with [head]. *)
Lemma make_entry_ok w (d : dict) key head R ext :
  type d = ty -> odd_ok ty key -> owns (objs w) R ext ->
  exists w' n, make_entry w d key head = inr (w', nptr n) /\ kv n = (key, None) /\ node_at (objs w') n head /\ node_ok ty n /\
    owns (objs w') (n :: R) ext /\ frames (objs w) (objs w') R ext /\ same_rest w w'.
Proof.
  intros Et Hodd Ho. unfold make_entry. rewrite Et. destruct (no_value ty) eqn:Env.
  - destruct (l_no_value _ _ Hlaw Env) as [_ ->]. cbn [Z.eqb assert mbind result_bind]. destruct (keys_are_odd ty && (head =? 0)) eqn:Eh.
    + apply andb_true_iff in Eh as [Eodd ->%Z.eqb_eq]. pose proof (Hodd Eodd) as Ek. rewrite Ek. exists w, (mk_node key key None).
      assert (key <> 0) as Hne by (intros E; by rewrite E in Ek). split; [done|]. split; [done|]. split_and!; try done.
      * split; [done|]. cbn [nptr]. by rewrite Ek.
      * split; [done|]. rewrite Env. cbn [nptr]. split; [|done]. destruct (entryIsNormal key) eqn:E; [|done]. apply normal_addr in E as (_ & E & _). congruence.
      * apply owns_key; [|done]. unfold naddr. cbn [nptr]. by rewrite Ek.
    + destruct (create_novalue_ok ty w key head R ext Ho Hodd Env) as (w' & n & -> & H). by exists w', n.
  - destruct (new_entry_tags (objs w)) as (T1 & T2 & T3 & T4 & T5). cbn zeta. rewrite T3. cbn [assert mbind result_bind].
    eexists _, (mk_node (new_entry (objs w)) key None). split; [done|]. split; [done|]. cbn [objs put_obj]. split_and!; try done.
    + split; [done|]. cbn [nptr]. rewrite T1, T2. split; [done|]. rewrite T4, lookup_insert_eq. unfold obj_of. cbn [nptr]. by rewrite T2.
    + split; [done|]. by rewrite Env.
    + eapply owns_alloc; [apply new_entry_fresh| |done]. unfold naddr. cbn [nptr]. by rewrite T1, T4.
    + intros a Ha. rewrite lookup_insert_ne; [done|]. intros <-. by eapply owns_fresh.
Qed.

Lemma insert_ok w d b0 b1 ext key key' :
  rep w d b0 b1 ext -> roomy b0 b1 -> has_table (ht0 d) -> odd_ok ty key' -> kname key' = kname key -> find (has_key key) (concat b0 ++ concat b1) = None ->
  let t := dictIsRehashing d in
  exists w' d' n c0 c1, dictInsertAtPosition w d key' (t, Z.land (hashFunction ty key) (mask_of d t)) = inr (w', d', nptr n) /\
    rep w' d' c0 c1 ext /\ added n b0 b1 c0 c1 /\ kv n = (key', None) /\ same_rest w w' /\ pauserehash d' = pauserehash d.
Proof.
  intros Hr Hroom Ht0 Hodd Ekey Hf t. pose proof (is_rehashing _ _ _ _ _ _ _ Hr) as Hmode. fold t in Hmode.
  destruct (rep_pick _ _ _ _ _ t Hr) as (Hbt & Hut & Hplt). pose proof (rep_pick _ _ _ _ _ (negb t) Hr) as (Hbo & _ & _).
  assert (has_table (ht_at d t)) as Hht by (destruct t; [apply Hmode|done]).
  destruct (bucket_of_hash (objs w) d t _ (hashFunction ty key) Hht Hbt) as (head & ys & Em & H0 & Ebk & Esl & Hy & Hch).
  pose proof (Z.mod_pos_bound (hashFunction ty key) (2 ^ ht_size_exp (ht_at d t)) ltac:(apply Z.pow_pos_nonneg; destruct Hht; lia)) as Hmod.
  assert (2 ^ ht_size_exp (ht_at d t) <= 2 ^ 60) by (apply Z.pow_le_mono_r; destruct Hht; lia).
  assert (Z.land (hashFunction ty key) (mask_of d t) <= mask_of d t) as Hmask.
  { rewrite Em. unfold mask_of, DICTHT_SIZE_MASK. rewrite (proj2 (Z.eqb_neq _ _)) by (destruct Hht; lia). rewrite size_pow by (destruct Hht; lia). lia. }
  unfold dictInsertAtPosition. fold t. rewrite eqb_reflx, (proj2 (Z.leb_le _ _) H0), (proj2 (Z.leb_le _ _) Hmask). cbn [andb assert mbind result_bind].
  rewrite Ebk. cbn [mbind result_bind]. set (i := Z.to_nat (Z.land (hashFunction ty key) (mask_of d t))) in *.
  destruct (make_entry_ok w d key' head _ ext (r_type _ _ _ _ _ _ _ Hr) Hodd (r_owns _ _ _ _ _ _ _ Hr)) as (w' & n & -> & Ekv & Hn & Hok & Ho & Hfr & Hs).
  cbn [mbind result_bind]. unfold set_bucket. rewrite Ebk. cbn [mbind result_bind mret result_ret].
  injection Ekv as Enk Env. set (b := <[i := n :: ys]> (pick t b0 b1)). set (c0 := pick t b b0). set (c1 := pick t b1 b).
  assert (added n b0 b1 c0 c1) as Hadd.
  { unfold added, c0, c1, b, pick in *. destruct t; rewrite (concat_push _ _ ys n Hy); try done. by rewrite <- Permutation_middle. }
  assert (forall t', tbl (objs w') (slots (ht_at d t')) (pick t' b0 b1)) as Hfrm.
  { intros t'. destruct (rep_pick _ _ _ _ _ t' Hr) as (Hb' & _). eapply tbl_frames; [|exact Hfr|exact Hb']. destruct t'; cbn.
    - exists (concat b0). apply Permutation_app_comm.
    - by exists (concat b1). }
  pose proof (Permutation_length Hadd) as Hlen. cbn [length] in Hlen. unfold roomy in Hroom.
  assert (len_ (concat b) = ht_used (ht_at d t) + 1) as Hused by (rewrite Hut; unfold b; rewrite (concat_push _ _ ys n Hy); cbn [length]; lia).
  assert (0 <= ht_used (ht_at d t) < 2 ^ 59) as Hsmall by (rewrite Hut; rewrite length_app in Hroom; unfold pick; destruct t; lia).
  set (x := mk_ht (ht_table (ht_at d t)) (<[i := nptr n]> (slots (ht_at d t))) (ht_used (ht_at d t) + 1) (ht_size_exp (ht_at d t))).
  exists w', (set_ht d t x), n, c0, c1. split.
  { f_equal. f_equal. f_equal. unfold x, set_ht, set_used, set_slots. destruct t; cbn in *; rewrite wrap_u_id by (unfold in_u; lia); done. }
  split; [|split; [done|split; [unfold kv; by rewrite Enk, Env|split; [done|by destruct t]]]].
  apply (rep_update w d b0 b1 ext w' ext t b); try done.
  - eapply tbl_push; try done. eapply chain_frames; [|exact Hfr|done]. unfold pick in Hy. destruct t.
    + exists (concat b0 ++ concat (<[i := []]> b1)). rewrite (concat_get _ _ ys Hy). apply Permutation_app_swap_app.
    + exists (concat (<[i := []]> b0) ++ concat b1). by rewrite (concat_get _ _ ys Hy), <- app_assoc.
  - apply placed_push; [done|done|]. rewrite Enk, (l_hash _ _ Hlaw _ _ Ekey). unfold i. rewrite Z2Nat.id, Em by done. done.
  - unfold b. by rewrite length_insert.
  - destruct t; [by left|]. right. by left.
  - unfold added in Hadd. fold c0 c1. by rewrite Hadd.
  - eapply added_keys; [done|apply (r_keys _ _ _ _ _ _ _ Hr)|done|congruence].
  - unfold added in Hadd. fold c0 c1. rewrite Hadd. constructor; [done|]. apply (r_nodes _ _ _ _ _ _ _ Hr).
Qed.

Lemma find_none_iff key xs : find (has_key key) xs = None <-> kname key ∉ (kname ∘ nkey) <$> xs.
Proof.
  rewrite list_elem_of_fmap. split.
  - intros Hf (x & Ex & Hx%list_elem_of_In). pose proof (find_none _ _ Hf x Hx) as Hno. unfold DictRep.has_key in Hno. apply bool_decide_eq_false in Hno. cbn in Ex. congruence.
  - intros Hno. destruct (find (has_key key) xs) as [x|] eqn:E; [|done]. apply find_some in E as [Hx Hk]. exfalso. apply Hno. exists x. split; [|by apply list_elem_of_In].
    unfold DictRep.has_key in Hk. by apply bool_decide_eq_true in Hk.
Qed.

(** With one key at most once, the first node with the key is the only one. *)
Lemma find_some_iff key xs n : NoDup ((kname ∘ nkey) <$> xs) -> find (has_key key) xs = Some n <-> n ∈ xs /\ kname (nkey n) = kname key.
Proof.
  intros Hnd. split.
  - intros [Hx Hk]%find_some. split; [by apply list_elem_of_In|]. unfold DictRep.has_key in Hk. by apply bool_decide_eq_true in Hk.
  - intros [Hx Hk]. destruct (find (has_key key) xs) as [x|] eqn:E.
    + apply find_some in E as [Hx' Hk']. unfold DictRep.has_key in Hk'. apply bool_decide_eq_true in Hk'. f_equal.
      apply (NoDup_fmap_inj_in (kname ∘ nkey) xs); [done|by apply list_elem_of_In|done|cbn; congruence].
    + apply find_none_iff in E. exfalso. apply E. rewrite <- Hk. by apply (list_elem_of_fmap_2 (kname ∘ nkey)).
Qed.

Lemma resized_kept w d b0 b1 ext d' :
  resized ty kname w d b0 b1 ext d' -> exists c0 c1, kept w d b0 b1 ext w d' c0 c1 /\ concat c0 ++ concat c1 = concat b0 ++ concat b1.
Proof. intros (c0 & c1 & Hr & E0 & E1 & Ep & _). exists c0, c1. rewrite E0, E1. split; [|done]. split; [done|]. rewrite E0, E1. done. Qed.

Lemma kept_roomy w d b0 b1 ext w' d' c0 c1 : kept w d b0 b1 ext w' d' c0 c1 -> roomy b0 b1 -> roomy c0 c1.
Proof. intros (_ & C & _) H. unfold roomy in *. by rewrite (same_content_length _ _ _ C). Qed.
Lemma roomy_small b0 b1 : roomy b0 b1 -> small b0 b1.
Proof. unfold roomy, small. lia. Qed.

(** The place for a new key, or the entry that has it. *)
Lemma find_position_ok w d b0 b1 ext key :
  rep w d b0 b1 ext -> roomy b0 b1 ->
  exists w' d' c0 c1, kept w d b0 b1 ext w' d' c0 c1 /\ has_table (ht0 d') /\
    dictFindPositionForInsert w d key =
      inr (match find (has_key key) (concat c0 ++ concat c1) with
           | Some n => (w', d', None, nptr n)
           | None => (w', d', Some (dictIsRehashing d', Z.land (hashFunction ty key) (mask_of d' (dictIsRehashing d'))), 0)
           end).
Proof.
  intros Hr Hroom. unfold dictFindPositionForInsert. rewrite (r_type _ _ _ _ _ _ _ Hr).
  destruct (step_if_rehashing_ok ty kname w d b0 b1 ext Hr (roomy_small _ _ Hroom)) as (w1 & d1 & a0 & a1 & -> & Hk1). cbn [mbind result_bind].
  pose proof Hk1 as (Hr1 & _). destruct (expand_if_needed_ok ty kname w1 d1 a0 a1 ext Hr1 (kept_roomy _ _ _ _ _ _ _ _ _ Hk1 Hroom)) as (d2 & -> & Hres & Hht).
  apply resized_kept in Hres as (c0 & c1 & Hk2 & Eall). pose proof Hk2 as (Hr2 & _). exists w1, d2, c0, c1.
  split; [by eapply kept_trans|]. split; [done|]. change (DICT_OK =? DICT_ERR) with false. cbn iota.
  rewrite (find_in_tables_ok _ _ Hlaw _ _ _ _ _ _ Hr2 Hht). cbn [mbind result_bind]. unfold DictRep.found.
  destruct (find (has_key key) (concat c0 ++ concat c1)) as [n|] eqn:E; [|done]. apply find_some in E as [Hn%list_elem_of_In _].
  by rewrite (proj2 (Z.eqb_neq _ _)) by exact (nptr_pos _ _ _ _ _ _ _ _ Hr2 Hn).
Qed.

Lemma dictAddRaw_ok w d b0 b1 ext key :
  rep w d b0 b1 ext -> roomy b0 b1 -> odd_ok ty key ->
  exists w' d' c0 c1, rep w' d' c0 c1 ext /\ same_rest w w' /\ pauserehash d' = pauserehash d /\
    ((exists n, dictAddRaw w d key = inr (w', d', 0, nptr n) /\ same_content ty (concat c0 ++ concat c1) (concat b0 ++ concat b1) /\
        find (has_key key) (concat c0 ++ concat c1) = Some n) \/
     (exists n xs, dictAddRaw w d key = inr (w', d', nptr n, 0) /\ concat c0 ++ concat c1 ≡ₚ n :: xs /\ same_content ty xs (concat b0 ++ concat b1) /\
        kv n = (dup_key key, None) /\ find (has_key key) xs = None)).
Proof.
  intros Hr Hroom Hodd. unfold dictAddRaw. destruct (find_position_ok w d b0 b1 ext key Hr Hroom) as (w1 & d1 & c0 & c1 & Hk & Hht & ->).
  pose proof Hk as (Hr1 & Hsc & Hs & Hp). destruct (find (has_key key) (concat c0 ++ concat c1)) as [n|] eqn:E; cbn [mbind result_bind].
  { exists w1, d1, c0, c1. split_and!; try done. left. by exists n. }
  destruct (dup_key_ok key) as [Ek Hodd']. rewrite (r_type _ _ _ _ _ _ _ Hr1). fold (dup_key key).
  destruct (insert_ok w1 d1 c0 c1 ext key (dup_key key) Hr1 (kept_roomy _ _ _ _ _ _ _ _ _ Hk Hroom) Hht (Hodd' Hodd) Ek E)
    as (w2 & d2 & n & e0 & e1 & -> & Hr2 & Hadd & Ekv & Hs2 & Hp2). cbn [mbind result_bind].
  exists w2, d2, e0, e1. split; [done|]. split; [by eapply same_rest_trans|]. split; [congruence|]. right. by exists n, (concat c0 ++ concat c1).
Qed.

(** ** Values *)

Definition with_val (n : node) (v : Z) : node := mk_node (nptr n) (nkey n) (Some v).
Definition setv (p v : Z) (n : node) : node := if nptr n =? p then with_val n v else n.
Definition setvs (p v : Z) (b : list (list node)) : list (list node) := (fun xs : list node => setv p v <$> xs) <$> b.

Lemma chain_setv m p k old next v q xs :
  m !! p = Some (Normal k old next) -> entryIsNormal p = true -> chain m q xs -> chain (<[p := Normal k (Some v) next]> m) q (setv p v <$> xs).
Proof.
  intros Hm Hp. revert q. induction xs as [|n xs IH]; intros q; [done|]. cbn [fmap list_fmap chain]. intros (-> & nx & Hn & Hc).
  unfold setv at 1 2. destruct (Z.eqb_spec (nptr n) p) as [E|Hne].
  - split; [done|]. exists nx. split; [|by apply IH]. destruct Hn as [Hz Hn]. rewrite E in Hn. destruct (normal_addr p Hp) as (Ea & Ek & Ev).
    rewrite Ek, Ev in Hn. destruct Hn as [_ Hn]. rewrite Ea, Hm in Hn. unfold obj_of in Hn. rewrite E, Ev in Hn. injection Hn as -> -> ->.
    split; [done|]. cbn [with_val nptr]. rewrite E, Ek, Ev, Ea, lookup_insert_eq. split; [done|]. unfold obj_of, with_val. cbn [nptr nkey nval]. by rewrite E, Ev.
  - split; [done|]. exists nx. split; [|by apply IH]. destruct Hn as [Hz Hn]. split; [done|]. destruct (entryIsKey (nptr n)); [done|]. destruct Hn as [Hk Ho].
    split; [done|]. rewrite lookup_insert_ne; [done|]. intros Ea. rewrite <- Ea, Hm in Ho. unfold obj_of in Ho. destruct (entryIsNoValue (nptr n)); [done|].
    apply normal_addr in Hk as (Ea' & _). congruence.
Qed.

Lemma rep_node w d b0 b1 ext n : rep w d b0 b1 ext -> n ∈ concat b0 ++ concat b1 -> exists next, node_at (objs w) n next.
Proof.
  intros Hr Hn. assert (exists t, n ∈ concat (pick t b0 b1)) as [t Ht] by (apply elem_of_app in Hn as [Hn|Hn]; [by exists false|by exists true]).
  destruct (rep_pick _ _ _ _ _ t Hr) as (Hb & _). apply elem_of_concat_lookup in Ht as (i & xs & Hi & Hx).
  destruct (Forall2_lookup_r _ _ _ _ _ Hb Hi) as (p & _ & Hc). apply list_elem_of_split in Hx as (ys & zs & ->).
  apply chain_split in Hc as [q Hc]. destruct Hc as (_ & next & Hat & _). by exists next.
Qed.

Lemma concat_fmap_setv p v (b : list (list node)) : concat (setvs p v b) = setv p v <$> concat b.
Proof. unfold setvs. induction b as [|xs b IH]; [done|]. cbn [fmap list_fmap concat]. by rewrite fmap_app, IH. Qed.
Lemma addrs_setv p v (xs : list node) : addrs (setv p v <$> xs) = addrs xs.
Proof.
  induction xs as [|n xs IH]; [done|]. cbn [fmap list_fmap]. rewrite !addrs_cons, IH.
  assert (naddr (setv p v n) = naddr n) as -> by (unfold setv; by destruct (nptr n =? p)). done.
Qed.
Lemma nkey_setv p v n : nkey (setv p v n) = nkey n.
Proof. unfold setv. by destruct (nptr n =? p). Qed.
Lemma nptr_setv p v n : nptr (setv p v n) = nptr n.
Proof. unfold setv. by destruct (nptr n =? p). Qed.

Lemma set_v_ok w d b0 b1 ext n v :
  rep w d b0 b1 ext -> n ∈ concat b0 ++ concat b1 -> no_value ty = false ->
  exists w', set_v w (nptr n) v = inr w' /\ same_rest w w' /\ rep w' d (setvs (nptr n) v b0) (setvs (nptr n) v b1) ext.
Proof.
  intros Hr Hn Env. destruct (rep_node _ _ _ _ _ _ Hr Hn) as [next Hat]. pose proof (r_nodes _ _ _ _ _ _ _ Hr) as Hnd.
  rewrite Forall_forall in Hnd. pose proof (Hnd n Hn) as [_ Hnorm]. rewrite Env in Hnorm. destruct (normal_addr _ Hnorm) as (Ea & Ek & Ev).
  destruct Hat as [Hz Hat]. rewrite Ek, Ev, Ea in Hat. destruct Hat as [_ Hm]. unfold obj_of in Hm. rewrite Ev in Hm.
  unfold set_v, entryHasValue, normal. rewrite Hnorm, Hm. cbn [assert mbind result_bind mret result_ret]. eexists. split; [done|]. split; [done|].
  set (p := nptr n) in *. destruct Hr as [Ety Ht0 Ht1 Hu0 Hu1 Hp0 Hp1 Hmode Ho Hk _].
  assert (forall sl b, tbl (objs w) sl b -> tbl (<[p := Normal (nkey n) (Some v) next]> (objs w)) sl (setvs p v b)) as Htbl.
  { intros sl b Hb. apply Forall2_fmap_r. eapply Forall2_impl; [exact Hb|]. intros q xs Hc. by eapply chain_setv. }
  assert (forall e b, placed ty e b -> placed ty e (setvs p v b)) as Hpl.
  { intros e b Hb i xs x Hi Hx. apply list_lookup_fmap_Some in Hi as (ys & -> & Hi). apply list_elem_of_fmap in Hx as (y & -> & Hy). rewrite nkey_setv. by eapply Hb. }
  assert ((setv p v <$> concat b0) ++ (setv p v <$> concat b1) = setv p v <$> (concat b0 ++ concat b1)) as Eall by by rewrite fmap_app.
  split; cbn [objs put_obj]; rewrite ?concat_fmap_setv, ?length_fmap, ?Eall; auto.
  - destruct Hmode as [|(? & ? & ? & ? & Hzero)]; [by left|right]. unfold rehashing, setvs. rewrite length_fmap. split_and!; try done; try lia.
    intros i Hi. by rewrite list_lookup_fmap, Hzero.
  - assert (p ∈ addrs (concat b0 ++ concat b1)) as Hin by (apply elem_of_addrs; exists n; split; [done|unfold naddr; fold p; by rewrite Ek, Ea]).
    apply (owns_set _ _ _ p (Normal (nkey n) (Some v) next)) in Ho; [|done]. destruct Ho as [O1 O2 O3]. by split; rewrite ?addrs_setv.
  - rewrite <- list_fmap_compose. replace ((kname ∘ nkey) ∘ setv p v <$> (concat b0 ++ concat b1)) with (kname ∘ nkey <$> (concat b0 ++ concat b1)); [done|].
    apply list_fmap_ext. intros i x _. cbn. by rewrite nkey_setv.
  - apply Forall_fmap. apply Forall_forall. intros x Hx. specialize (Hnd x Hx). unfold node_ok in *. cbn. by rewrite nkey_setv, nptr_setv.
Qed.
End Edit.
