(* ===== verification/DictDelete.v ===== *)
(** * Deletion and clearing

    Taking an entry out of its chain, freeing it, and emptying whole tables. *)

From S2P Require Import Prelude Dict DictChain DictRep DictRehash DictEdit.

Section Delete.
Context `{Zm : !Zmalloc} {K : Type} `{EqK : EqDecision K} `{CntK : !Countable K} (ty : dictType) (kname : Z -> K) (Hlaw : lawful ty kname).
Notation rep := (rep ty kname).
Notation kept := (kept ty kname).
Notation has_key := (has_key kname).

(** ** Freeing *)

(** The destructors that run for a node. *)
Definition freed_calls (n : node) : list call :=
  (if keyDestructor ty then [FreeKey (nkey n)] else []) ++
  (if valDestructor ty then match nval n with Some v => [FreeVal v] | None => [] end else []).

Definition destructible (n : node) : Prop := valDestructor ty = true -> is_Some (nval n).

Lemma get_val_ok w n next v : node_at (objs w) n next -> nval n = Some v -> dictGetVal w (nptr n) = inr v.
Proof.
  intros [_ Hn] Ev. unfold dictGetVal, entryHasValue. destruct (entryIsKey (nptr n)) eqn:Ek; [by destruct Hn as (_ & E & _); rewrite E in Ev|].
  destruct Hn as [Hk Ho]. unfold obj_of in Ho. destruct (entryIsNoValue (nptr n)) eqn:Env; [by rewrite Hk in Ev|]. rewrite Hk. cbn [assert mbind result_bind].
  unfold normal. destruct (normal_addr _ Hk) as (Ea & _). rewrite Ea in Ho. rewrite Ho. cbn. by rewrite Ev.
Qed.

Lemma free_entry_ok w d n next R ext :
  type d = ty -> node_at (objs w) n next -> destructible n -> owns (objs w) (n :: R) ext ->
  exists w', free_entry w d (nptr n) = inr w' /\ owns (objs w') R ext /\ frames (objs w) (objs w') R ext /\
    calls w' = calls w ++ freed_calls n /\ dict_can_resize w' = dict_can_resize w.
Proof.
  intros Et Hn Hv Ho. unfold free_entry, dictFreeKey. rewrite Et. set (w1 := if keyDestructor ty then call_back w (FreeKey (nkey n)) else w).
  assert ((if keyDestructor ty then k ← dictGetKey w (nptr n); mret (call_back w (FreeKey k)) else mret w) = inr w1) as ->.
  { unfold w1. destruct (keyDestructor ty); [|done]. by rewrite (get_key_ok _ _ _ Hn). }
  cbn [mbind result_bind]. assert (objs w1 = objs w) as Eo by (unfold w1; by destruct (keyDestructor ty)).
  assert (node_at (objs w1) n next) as Hn1 by by rewrite Eo.
  assert (exists w2, dictFreeVal w1 d (nptr n) = inr w2 /\ objs w2 = objs w /\ calls w2 = calls w ++ freed_calls n /\ dict_can_resize w2 = dict_can_resize w)
    as (w2 & -> & Eo2 & Ec2 & Er2).
  { unfold dictFreeVal, freed_calls. rewrite Et. unfold w1 in *. destruct (valDestructor ty) eqn:Ed.
    - destruct (Hv Ed) as [v Ev]. rewrite (get_val_ok _ _ _ _ Hn1 Ev), Ev. eexists. split; [done|]. cbn. rewrite <- ?app_assoc. destruct (keyDestructor ty); cbn; rewrite <- ?app_assoc; done.
    - eexists. split; [done|]. rewrite app_nil_r. destruct (keyDestructor ty); cbn; rewrite ?app_nil_r; done. }
  cbn [mbind result_bind]. destruct (entryIsKey (nptr n)) eqn:Ek.
  - exists w2. split; [done|]. rewrite Eo2. split; [by apply owns_key in Ho; [|unfold naddr; by rewrite Ek]|]. by split_and!.
  - assert (node_at (objs w2) n next) as Hn2 by by rewrite Eo2. rewrite (table_zfree_ok _ _ _ Hn2 Ek). eexists. split; [done|]. cbn [objs calls dict_can_resize]. rewrite Eo2.
    split; [eapply owns_free; [by apply naddr_some|done]|]. split; [|done]. intros a Ha. rewrite lookup_delete_ne; [done|]. intros <-.
    eapply owns_other; [done|by apply naddr_some|done|done].
Qed.

(** The heap changed only outside the tables. *)
Lemma rep_frames w w' d b0 b1 ext ext' :
  rep w d b0 b1 ext -> frames (objs w) (objs w') (concat b0 ++ concat b1) ext' -> owns (objs w') (concat b0 ++ concat b1) ext' -> rep w' d b0 b1 ext'.
Proof.
  intros [] Hf Ho. split; try done.
  - eapply tbl_frames; [|exact Hf|done]. by exists (concat b1).
  - eapply tbl_frames; [|exact Hf|done]. exists (concat b0). apply Permutation_app_comm.
Qed.

(** ** Unlinking *)

Definition less_one (d : dict) (t : bool) : dict := set_ht d t (set_used (ht_at d t) (u64 (ht_used (ht_at d t) - 1))).

(** The pointer to [n] replaced by its [next]. *)
Lemma set_link_ok w d t b i ys n zs next R ext :
  tbl (objs w) (slots (ht_at d t)) b -> b !! i = Some (ys ++ n :: zs) -> node_at (objs w) n next -> owns (objs w) (concat b ++ R) ext ->
  exists w' sl, set_link w d (link_after (Slot t (Z.of_nat i)) ys) next = inr (w', set_ht d t (set_slots (ht_at d t) sl)) /\
    tbl (objs w') sl (<[i := ys ++ zs]> b) /\ node_at (objs w') n next /\ same_rest w w' /\
    owns (objs w') (n :: concat (<[i := ys ++ zs]> b) ++ R) ext /\ frames (objs w) (objs w') R ext.
Proof.
  intros Hb Hi Hn Ho. destruct (Forall2_lookup_r _ _ _ _ _ Hb Hi) as (p & Hp & Hc).
  pose proof (concat_get b i _ Hi) as Eb. pose proof (concat_set b i _ (ys ++ zs) Hi) as Eb'. set (r := concat (<[i := []]> b)) in *.
  assert (concat b ++ R ≡ₚ n :: concat (<[i := ys ++ zs]> b) ++ R) as Eall.
  { rewrite Eb, Eb', <- !app_assoc. cbn. by rewrite <- Permutation_middle. }
  destruct ys as [|y ys _] using rev_ind.
  - cbn [app link_after last set_link] in *. destruct Hc as (-> & next' & Hn' & Hc). rewrite (node_at_next _ _ _ _ Hn' Hn) in Hc.
    unfold set_bucket. rewrite (bucket_ok d t (Z.of_nat i) (nptr n)) by (rewrite ?Nat2Z.id; (done || lia)). cbn [mbind result_bind mret result_ret]. rewrite Nat2Z.id.
    eexists w, _. split; [done|]. split; [by apply tbl_set|]. split; [done|]. split; [done|]. split; [by rewrite <- Eall|done].
  - unfold link_after. rewrite last_snoc. cbn [set_link]. rewrite <- app_assoc in Hc. cbn [app] in Hc.
    pose proof (chain_not_last _ _ _ _ _ Hc ltac:(done)) as Ek. pose proof (chain_split _ _ _ _ Hc) as [q (_ & nexty & Hy & _)].
    assert (concat b ++ R ≡ₚ y :: n :: ys ++ zs ++ r ++ R) as Ey.
    { rewrite Eb, <- !app_assoc. cbn. rewrite <- Permutation_middle. f_equiv. by rewrite <- Permutation_middle. }
    rewrite Ey in Ho. destruct (set_next_owns w y nexty _ ext next Hy Ek Ho) as (w' & Eset & _ & Ho' & Hf & Hs).
    rewrite (set_next_ok _ _ _ Hy next Ek) in Eset. injection Eset as <-. rewrite (set_next_ok _ _ _ Hy next Ek). cbn [mbind result_bind mret result_ret].
    exists (put_obj w (addr_of (nptr y)) (obj_of y next)), (slots (ht_at d t)). split; [by destruct d as [? [] [] ? ?], t|]. split; [|split; [|split; [done|split]]].
    + assert (tbl (put_obj w (addr_of (nptr y)) (obj_of y next)).(objs) (<[i := 0]> (slots (ht_at d t))) (<[i := []]> b)) as Hrest.
      { eapply tbl_frames; [|exact Hf|by apply tbl_clear]. exists (n :: ys ++ zs ++ R). fold r. rewrite (Permutation_app_swap_app zs r R), (Permutation_app_swap_app ys r). apply Permutation_middle. }
      apply (tbl_set _ _ _ i p ((ys ++ [y]) ++ zs)) in Hrest; [by rewrite !list_insert_insert_eq, list_insert_id in Hrest|].
      rewrite <- app_assoc. apply (chain_unlink _ _ _ _ n); try done. destruct Ho as [Hnd _ _].
      assert (y :: n :: ys ++ zs ++ r ++ R ≡ₚ (ys ++ y :: n :: zs) ++ r ++ R) as E by (rewrite <- app_assoc; cbn; rewrite <- Permutation_middle; f_equiv; by rewrite <- Permutation_middle).
      rewrite E, addrs_app in Hnd. by apply NoDup_app in Hnd as (Hnd & _).
    + eapply node_at_frame; [|done]. intros a Ha. apply Hf. left. rewrite addrs_cons, Ha. by left.
    + by rewrite <- Eall, Ey.
    + apply frames_app_r with (R1 := n :: ys ++ zs ++ r). eapply frames_perm; [|exact Hf]. cbn. by rewrite <- !app_assoc.
Qed.

Lemma placed_unlink e b i ys n zs : placed ty e b -> b !! i = Some (ys ++ n :: zs) -> placed ty e (<[i := ys ++ zs]> b).
Proof.
  intros Hp Hi j xs x Hj Hx. apply list_lookup_insert_Some in Hj as [(<- & <- & _)|[_ Hj]]; [|by eapply Hp]. eapply Hp; [done|].
  apply elem_of_app in Hx as [Hx|Hx]; apply elem_of_app; [by left|right; by right].
Qed.

(** The node taken out, and not freed yet. *)
Lemma unlink_ok w d b0 b1 ext t i ys n zs :
  rep w d b0 b1 ext -> small b0 b1 -> pick t b0 b1 !! i = Some (ys ++ n :: zs) ->
  exists next w' d' c0 c1, (c0 = pick t (<[i := ys ++ zs]> (pick t b0 b1)) b0 /\ c1 = pick t b1 (<[i := ys ++ zs]> (pick t b0 b1))) /\ rehashidx d' = rehashidx d /\
    dictGetNext w (nptr n) = inr next /\ set_link w d (link_after (Slot t (Z.of_nat i)) ys) next = inr (w', d') /\
    type d' = ty /\ pauserehash d' = pauserehash d /\ rep w' (less_one d' t) c0 c1 (ext_of n ∪ ext) /\ added n c0 c1 b0 b1 /\
    node_at (objs w') n next /\ owns (objs w') (n :: concat c0 ++ concat c1) ext /\ same_rest w w'.
Proof.
  intros Hr Hsm Hi. destruct (rep_pick ty kname w d b0 b1 ext t Hr) as (Hb & Hu & Hpl). pose proof (concat_get _ _ _ Hi) as Eget.
  assert (n ∈ concat b0 ++ concat b1) as Hin by (apply elem_of_app; unfold pick in Hi; destruct t; [right|left]; apply elem_of_concat_lookup; exists i; eexists; (split; [done|]); apply elem_of_app; right; by left).
  destruct (rep_node _ _ _ _ _ _ _ _ Hr Hin) as [next Hn]. exists next. rewrite (get_next_ok _ _ _ Hn).
  assert (concat b0 ++ concat b1 ≡ₚ concat (pick t b0 b1) ++ concat (pick (negb t) b0 b1)) as Esplit by (destruct t; [apply Permutation_app_comm|done]).
  pose proof (r_owns _ _ _ _ _ _ _ Hr) as Ho. rewrite Esplit in Ho.
  destruct (set_link_ok w d t _ i ys n zs next _ ext Hb Hi Hn Ho) as (w' & sl & Eset & Hb' & Hn' & Hs & Ho' & Hf).
  set (b := <[i := ys ++ zs]> (pick t b0 b1)) in *. set (c0 := pick t b b0). set (c1 := pick t b1 b).
  assert (concat b ++ concat (pick (negb t) b0 b1) ≡ₚ concat c0 ++ concat c1) as Ec by (unfold c0, c1, pick; destruct t; [apply Permutation_app_comm|done]).
  assert (concat (pick t b0 b1) ≡ₚ n :: concat b) as Eb.
  { rewrite Eget. unfold b. rewrite (concat_set _ _ _ (ys ++ zs) Hi), <- !app_assoc. cbn. by rewrite <- Permutation_middle. }
  assert (added n c0 c1 b0 b1) as Hadd by (unfold added; rewrite Esplit, Eb, <- Ec; done).
  eexists w', _, c0, c1. split; [done|]. split; [|split; [done|]; split; [exact Eset|]]; [by destruct t|]. assert (type (set_ht d t (set_slots (ht_at d t) sl)) = ty) as Ety by (destruct t; apply (r_type _ _ _ _ _ _ _ Hr)).
  split; [done|]. split; [by destruct t|]. rewrite Ec in Ho'. split; [|split; [done|split; [done|split; [done|done]]]].
  unfold added in Hadd. pose proof (Permutation_length Hadd) as Hlen. cbn [length] in Hlen. unfold small in Hsm. pose proof (Permutation_length Eb) as Hlb. cbn [length] in Hlb.
  assert (len_ (concat b) = ht_used (ht_at d t) - 1) as Hused by lia.
  assert (less_one (set_ht d t (set_slots (ht_at d t) sl)) t = set_ht d t (mk_ht (ht_table (ht_at d t)) sl (len_ (concat b)) (ht_size_exp (ht_at d t)))) as ->.
  { rewrite Hused. pose proof (Permutation_length Ec) as Hlc. rewrite length_app in Hlc. unfold less_one, set_ht, set_slots, set_used. destruct t; cbn in *; rewrite wrap_u_id by (unfold in_u; lia); done. }
  apply (rep_update ty kname w d b0 b1 ext w' _ t b); try done.
  - unfold b. by eapply placed_unlink.
  - unfold b. by rewrite length_insert.
  - destruct (rep_pick ty kname w d b0 b1 ext (negb t) Hr) as (Hbo & _). eapply tbl_frames; [|exact Hf|exact Hbo]. exists []. by rewrite app_nil_r.
  - destruct t; [by left|]. right. right. intros j Hj. unfold b. cbn in *. destruct (decide (i = j)) as [->|]; [rewrite Hi in Hj; by destruct ys|by rewrite list_lookup_insert_ne].
  - intros ->. cbn in Hi. pose proof (is_rehashing _ _ _ _ _ _ _ Hr) as Hm. destruct (dictIsRehashing d); [done|]. destruct Hm as (_ & E1 & _).
    pose proof (r_tbl1 _ _ _ _ _ _ _ Hr) as T. rewrite E1 in T. apply Forall2_nil_inv_l in T as ->. done.
  - by apply owns_unlink.
  - pose proof (r_keys _ _ _ _ _ _ _ Hr) as Hk. rewrite Hadd in Hk. by apply NoDup_cons in Hk as [_ Hk].
  - pose proof (r_nodes _ _ _ _ _ _ _ Hr) as Hk. rewrite Hadd in Hk. by apply Forall_cons in Hk as [_ Hk].
Qed.

(** ** Deletion *)

(** Where a key is: the bucket and the nodes before it in the chain. *)
Definition at_link (b0 b1 : list (list node)) (key : Z) (r : option (bool * link * Z)) : Prop :=
  match r with
  | Some (t, l, p) => exists i ys n zs, pick t b0 b1 !! i = Some (ys ++ n :: zs) /\ l = link_after (Slot t (Z.of_nat i)) ys /\ p = nptr n /\ kname (nkey n) = kname key
  | None => kname key ∉ (kname ∘ nkey) <$> (concat b0 ++ concat b1)
  end.

Lemma find_link_in_ok w d b0 b1 ext t key :
  rep w d b0 b1 ext -> has_table (ht_at d t) ->
  exists r, find_link_in w d t key = inr r /\
    match r with
    | Some (l, p) => at_link b0 b1 key (Some (t, l, p))
    | None => kname key ∉ (kname ∘ nkey) <$> concat (pick t b0 b1)
    end.
Proof.
  intros Hr Ht. destruct (rep_pick ty kname w d b0 b1 ext t Hr) as (Hb & _ & Hpl). unfold find_link_in. rewrite (r_type _ _ _ _ _ _ _ Hr).
  destruct (bucket_of_hash (objs w) d t _ (hashFunction ty key) Ht Hb) as (p & xs & Em & H0 & -> & _ & Hx & Hc). cbn [mbind result_bind].
  assert (NoDup (addrs xs)) as Hnd.
  { destruct (r_owns _ _ _ _ _ _ _ Hr) as [Hnd _ _]. assert (exists R, concat b0 ++ concat b1 ≡ₚ xs ++ R) as [R ER].
    { pose proof (concat_get _ _ _ Hx) as E. unfold pick in E. destruct t.
      - exists (concat b0 ++ concat (<[Z.to_nat (Z.land (hashFunction ty key) (mask_of d true)) := []]> b1)). rewrite E. apply Permutation_app_swap_app.
      - exists (concat (<[Z.to_nat (Z.land (hashFunction ty key) (mask_of d false)) := []]> b0) ++ concat b1). by rewrite E, <- app_assoc. }
    rewrite ER, addrs_app in Hnd. by apply NoDup_app in Hnd as (Hnd & _). }
  destruct (find_link_ok (chain_fuel w) w (same_key d key) (Slot t (Z.land (hashFunction ty key) (mask_of d t))) p xs Hc (chain_length _ _ _ Hc Hnd))
    as [(ys & n & zs & -> & Hs & ->)|[Hall ->]]; eexists; (split; [done|]); rewrite ?same_key_ok in * by (done || apply (r_type _ _ _ _ _ _ _ Hr)).
  - exists (Z.to_nat (Z.land (hashFunction ty key) (mask_of d t))), ys, n, zs. rewrite Z2Nat.id by done. split_and!; try done.
    rewrite (same_key_ok ty kname Hlaw) in Hs by apply (r_type _ _ _ _ _ _ _ Hr). by apply bool_decide_eq_true in Hs.
  - intros Hin. apply list_elem_of_fmap in Hin as (x & Ex & Hxin). apply elem_of_concat_lookup in Hxin as (j & zs & Hj & Hxz).
    pose proof (Hpl j zs x Hj Hxz) as E. cbn in Ex. rewrite (l_hash _ _ Hlaw (nkey x) key (eq_sym Ex)) in E.
    assert (j = Z.to_nat (Z.land (hashFunction ty key) (mask_of d t))) as -> by (rewrite Em; lia). rewrite Hx in Hj. injection Hj as ->.
    rewrite Forall_forall in Hall. specialize (Hall x Hxz). rewrite (same_key_ok ty kname Hlaw) in Hall by apply (r_type _ _ _ _ _ _ _ Hr).
    apply bool_decide_eq_false in Hall. congruence.
Qed.

Lemma find_links_ok w d b0 b1 ext key :
  rep w d b0 b1 ext -> has_table (ht0 d) -> exists r, find_link_in_tables w d key = inr r /\ at_link b0 b1 key r.
Proof.
  intros Hr Ht. unfold find_link_in_tables. destruct (find_link_in_ok w d b0 b1 ext false key Hr Ht) as (r & -> & Hat). cbn [mbind result_bind].
  destruct r as [[l p]|]; [by eexists|]. cbn in Hat. pose proof (is_rehashing _ _ _ _ _ _ _ Hr) as Hm. destruct (dictIsRehashing d); cbn [negb].
  - destruct Hm as (_ & _ & Ht1 & _). destruct (find_link_in_ok w d b0 b1 ext true key Hr Ht1) as (r & -> & Hat1). cbn [mbind result_bind].
    destruct r as [[l p]|]; eexists; (split; [done|]); [done|]. cbn in *. rewrite fmap_app, elem_of_app. tauto.
  - destruct Hm as (_ & E1 & _). pose proof (r_tbl1 _ _ _ _ _ _ _ Hr) as T. rewrite E1 in T. apply Forall2_nil_inv_l in T as ->. eexists. split; [done|]. cbn. by rewrite app_nil_r.
Qed.

Lemma destructible_content xs ys : same_content ty xs ys -> Forall destructible ys -> Forall destructible xs.
Proof.
  intros [E _] Hy. apply Forall_forall. intros x Hx. assert (kv x ∈ kv <$> ys) as Hin by (rewrite <- E; by apply list_elem_of_fmap_2).
  apply list_elem_of_fmap in Hin as (y & Ey & Hyin). rewrite Forall_forall in Hy. specialize (Hy y Hyin). injection Ey as _ Ev. unfold destructible in *. by rewrite Ev.
Qed.

Lemma dictGenericDelete_ok w d b0 b1 ext key (nofree : bool) :
  rep w d b0 b1 ext -> small b0 b1 -> (nofree = false -> Forall destructible (concat b0 ++ concat b1)) ->
  (exists w' d' c0 c1, dictGenericDelete w d key nofree = inr (w', d', 0) /\ kept w d b0 b1 ext w' d' c0 c1 /\ kname key ∉ (kname ∘ nkey) <$> (concat b0 ++ concat b1)) \/
  (exists w' d' c0 c1 n xs, dictGenericDelete w d key nofree = inr (w', d', nptr n) /\ nptr n <> 0 /\ rep w' d' c0 c1 (if nofree then ext_of n ∪ ext else ext) /\
    same_content ty xs (concat b0 ++ concat b1) /\ xs ≡ₚ n :: concat c0 ++ concat c1 /\ kname (nkey n) = kname key /\
    calls w' = calls w ++ (if nofree then [] else freed_calls n) /\ dict_can_resize w' = dict_can_resize w /\ pauserehash d' = pauserehash d /\
    (nofree = true -> exists next, node_at (objs w') n next /\ owns (objs w') (n :: concat c0 ++ concat c1) ext)).
Proof.
  intros Hr Hsm Hdes. unfold dictGenericDelete. rewrite (dictSize_ok ty kname w d b0 b1 ext Hr Hsm).
  destruct (Z.eqb_spec (len_ (concat b0 ++ concat b1)) 0) as [E|Hne].
  { left. exists w, d, b0, b1. assert (concat b0 ++ concat b1 = []) as -> by (apply nil_length_inv; lia). split; [done|]. split; [done|]. apply not_elem_of_nil. }
  assert (concat b0 ++ concat b1 <> []) as Hne' by (intros E; by rewrite E in Hne).
  destruct (step_if_rehashing_ok ty kname w d b0 b1 ext Hr Hsm) as (w1 & d1 & a0 & a1 & -> & Hk). cbn [mbind result_bind]. pose proof Hk as (Hr1 & Hsc & [Hs1 Hs2] & Hp).
  assert (has_table (ht0 d1)) as Ht by (eapply table_if_nodes; [done|by eapply kept_nil]).
  destruct (find_links_ok w1 d1 a0 a1 ext key Hr1 Ht) as (r & -> & Hat). cbn [mbind result_bind]. destruct r as [[[t l] p]|].
  2:{ left. exists w1, d1, a0, a1. split; [done|]. split; [done|]. cbn in Hat. by rewrite (same_content_keys ty kname _ _ Hsc) in Hat. }
  right. destruct Hat as (i & ys & n & zs & Hi & -> & -> & Ekey).
  destruct (unlink_ok w1 d1 a0 a1 ext t i ys n zs Hr1 (kept_small _ _ _ _ _ _ _ _ _ _ _ Hk Hsm) Hi) as (next & w2 & d2 & c0 & c1 & _ & _ & -> & Eset & Ety & Ep & Hr2 & Hadd & Hn & Ho & [Hs3 Hs4]).
  cbn [mbind result_bind]. rewrite Eset. cbn [mbind result_bind]. fold (less_one d2 t). unfold added in Hadd. assert (nptr n <> 0) as Hz by apply Hn. destruct nofree.
  - exists w2, (less_one d2 t), c0, c1, n, (concat a0 ++ concat a1). split; [done|]. split; [done|]. split; [done|]. split; [done|]. split; [done|]. split; [done|].
    rewrite app_nil_r. split; [congruence|]. split; [congruence|]. split; [by destruct t; cbn; congruence|]. by exists next.
  - unfold dictFreeUnlinkedEntry. rewrite (proj2 (Z.eqb_neq _ _) Hz).
    assert (destructible n) as Hd by (eapply Forall_cons; rewrite <- Hadd; apply (destructible_content _ _ Hsc), Hdes; done).
    destruct (free_entry_ok w2 d2 n next _ ext Ety Hn Hd Ho) as (w3 & -> & Ho3 & Hf3 & Ec3 & Er3). cbn [mbind result_bind].
    exists w3, (less_one d2 t), c0, c1, n, (concat a0 ++ concat a1). split; [done|]. split; [done|]. split; [by eapply rep_frames|]. split; [done|]. split; [done|]. split; [done|].
    split; [congruence|]. split; [congruence|]. split; [by destruct t; cbn; congruence|done].
Qed.

(** The buckets without a key. *)
Definition without (k : K) (b : list (list node)) : list (list node) := (fun xs => filter (fun x => kname (nkey x) <> k) xs) <$> b.

Lemma without_notin k b : k ∉ (kname ∘ nkey) <$> concat b -> without k b = b.
Proof.
  intros Hn. unfold without. rewrite <- (list_fmap_id b) at 2. apply list_fmap_ext. intros i xs Hi. apply list_filter_all. apply Forall_forall. intros x Hx E. apply Hn. rewrite <- E.
  apply (list_elem_of_fmap_2 (kname ∘ nkey)). apply elem_of_concat_lookup. eauto.
Qed.
Lemma without_at b i ys n zs :
  NoDup ((kname ∘ nkey) <$> concat b) -> b !! i = Some (ys ++ n :: zs) -> <[i := ys ++ zs]> b = without (kname (nkey n)) b.
Proof.
  intros Hnd Hi. rewrite (concat_get _ _ _ Hi), <- app_assoc in Hnd. cbn [app] in Hnd. rewrite <- Permutation_middle in Hnd. cbn [fmap list_fmap] in Hnd. apply NoDup_cons in Hnd as [Hno _].
  rewrite app_assoc, fmap_app, elem_of_app in Hno. assert (kname (nkey n) ∉ (kname ∘ nkey) <$> concat (<[i := []]> b)) as Hr by tauto. assert (kname (nkey n) ∉ (kname ∘ nkey) <$> concat [ys ++ zs]) as Hx by (cbn; rewrite app_nil_r; tauto).
  apply without_notin in Hr, Hx. unfold without in *. cbn in Hx. injection Hx as Hx. apply list_eq. intros j. rewrite list_lookup_fmap. destruct (decide (i = j)) as [<-|Hne].
  - rewrite list_lookup_insert_eq, Hi by (by eapply lookup_lt_Some). cbn. f_equal. rewrite filter_app in *. rewrite filter_cons_False by tauto. done.
  - rewrite list_lookup_insert_ne by done. apply (f_equal (fun l => l !! j)) in Hr. rewrite list_lookup_fmap, list_lookup_insert_ne in Hr by done. done.
Qed.

Lemma step_paused w d : pauserehash d <> 0 -> step_if_rehashing w d = inr (w, d).
Proof. intros Hp. unfold step_if_rehashing, _dictRehashStep. rewrite (proj2 (Z.eqb_neq _ _) Hp). by destruct (dictIsRehashing d). Qed.

(** While rehashing is paused a deletion leaves all other entries where they are. *)
Lemma delete_paused_ok w d b0 b1 ext n :
  rep w d b0 b1 ext -> small b0 b1 -> Forall destructible (concat b0 ++ concat b1) -> pauserehash d <> 0 -> n ∈ concat b0 ++ concat b1 ->
  exists w' d', dictDelete w d (nkey n) = inr (w', d', DICT_OK) /\ rep w' d' (without (kname (nkey n)) b0) (without (kname (nkey n)) b1) ext /\
    pauserehash d' = pauserehash d /\ rehashidx d' = rehashidx d /\ calls w' = calls w ++ freed_calls n.
Proof.
  intros Hr Hsm Hdes Hp Hin. unfold dictDelete, dictGenericDelete. rewrite (dictSize_ok ty kname w d b0 b1 ext Hr Hsm).
  assert (concat b0 ++ concat b1 <> []) as Hne by (intros E; rewrite E in Hin; by apply elem_of_nil in Hin). destruct (Z.eqb_spec (len_ (concat b0 ++ concat b1)) 0) as [E|_]; [destruct (concat b0 ++ concat b1); [done|cbn in E; lia]|].
  rewrite (step_paused w d Hp). cbn [mbind result_bind].
  destruct (find_links_ok w d b0 b1 ext (nkey n) Hr (table_if_nodes _ _ _ _ _ _ _ Hr Hne)) as (r & -> & Hat). cbn [mbind result_bind].
  pose proof (r_keys _ _ _ _ _ _ _ Hr) as Hk. destruct r as [[[t l] p]|]; [|destruct Hat; by apply (list_elem_of_fmap_2 (kname ∘ nkey))].
  destruct Hat as (i & ys & n' & zs & Hi & -> & -> & Ekey). assert (n' = n) as ->.
  { apply (NoDup_fmap_inj_in (kname ∘ nkey) (concat b0 ++ concat b1)); [done| |done|done]. apply elem_of_app. unfold pick in Hi. destruct t; [right|left]; apply elem_of_concat_lookup; exists i, (ys ++ n' :: zs); (split; [done|]); apply elem_of_app; right; by left. }
  destruct (unlink_ok w d b0 b1 ext t i ys n zs Hr Hsm Hi) as (next & w2 & d2 & c0 & c1 & [Ec0 Ec1] & Ei & -> & Eset & Ety & Ep & Hr2 & Hadd & Hn & Ho & [Hs3 Hs4]).
  cbn [mbind result_bind]. rewrite Eset. cbn [mbind result_bind]. fold (less_one d2 t). assert (nptr n <> 0) as Hz by apply Hn. unfold dictFreeUnlinkedEntry. rewrite (proj2 (Z.eqb_neq _ _) Hz).
  assert (destructible n) as Hd by (rewrite Forall_forall in Hdes; by apply Hdes). destruct (free_entry_ok w2 d2 n next _ ext Ety Hn Hd Ho) as (w3 & -> & Ho3 & Hf3 & Ec3 & Er3). cbn [mbind result_bind mret result_ret].
  rewrite (proj2 (Z.eqb_neq _ _) Hz). exists w3, (less_one d2 t). split; [done|]. split; [|split; [by destruct t|split; [by destruct t|congruence]]].
  rewrite fmap_app in Hk. apply NoDup_app in Hk as (Hk0 & Hd01 & Hk1). assert (kname (nkey n) ∈ (kname ∘ nkey) <$> concat (pick t b0 b1)) as Hnt.
  { apply (list_elem_of_fmap_2 (kname ∘ nkey)), elem_of_concat_lookup. exists i, (ys ++ n :: zs). split; [done|]. apply elem_of_app. right. by left. }
  assert (NoDup ((kname ∘ nkey) <$> concat (pick t b0 b1))) as Hkt by by destruct t. rewrite (without_at _ _ _ _ _ Hkt Hi) in Ec0, Ec1. assert (c0 = without (kname (nkey n)) b0 /\ c1 = without (kname (nkey n)) b1) as [<- <-]; [|by eapply rep_frames].
  destruct t; cbn in *; subst; split; try done; symmetry; apply without_notin; [intros H; exact (Hd01 _ H Hnt)|exact (Hd01 _ Hnt)].
Qed.

(** ** Deletion in two phases *)

Lemma set_link_commute w d t i ys p next :
  set_link w (less_one (set_pauserehash d p) t) (link_after (Slot t i) ys) next =
  ('(w', d') ← set_link w d (link_after (Slot t i) ys) next; mret (w', less_one (set_pauserehash d' p) t)).
Proof.
  unfold link_after. destruct (last ys) as [q|]; cbn [set_link]; [by destruct (dictSetNext w (nptr q) next)|].
  unfold set_bucket, bucket. destruct (0 <=? i); [|done]. cbn [defined_if mbind result_bind].
  assert (slots (ht_at (less_one (set_pauserehash d p) t) t) = slots (ht_at d t)) as -> by by destruct t.
  destruct (slots (ht_at d t) !! Z.to_nat i); [|done]. cbn [the mbind result_bind mret result_ret]. by destruct d, t.
Qed.

(** The two phases together, with nothing in between. *)
Definition two_phase_unlink (w : world) (d : dict) (key : Z) : result (world * dict) :=
  '(w, d, r) ← dictTwoPhaseUnlinkFind w d key; dictTwoPhaseUnlinkFree w d r.

Lemma two_phase_ok w d b0 b1 ext key :
  rep w d b0 b1 ext -> small b0 b1 -> Forall destructible (concat b0 ++ concat b1) -> in_s 16 (pauserehash d) ->
  (exists w' d' c0 c1, two_phase_unlink w d key = inr (w', d') /\ kept w d b0 b1 ext w' d' c0 c1 /\ kname key ∉ (kname ∘ nkey) <$> (concat b0 ++ concat b1)) \/
  (exists w' d' c0 c1 n xs, two_phase_unlink w d key = inr (w', d') /\ rep w' d' c0 c1 ext /\ same_content ty xs (concat b0 ++ concat b1) /\
    xs ≡ₚ n :: concat c0 ++ concat c1 /\ kname (nkey n) = kname key /\ calls w' = calls w ++ freed_calls n /\ dict_can_resize w' = dict_can_resize w /\ pauserehash d' = pauserehash d).
Proof.
  intros Hr Hsm Hdes Hpr. unfold two_phase_unlink, dictTwoPhaseUnlinkFind. rewrite (dictSize_ok ty kname w d b0 b1 ext Hr Hsm).
  destruct (Z.eqb_spec (len_ (concat b0 ++ concat b1)) 0) as [E|Hne].
  { left. exists w, d, b0, b1. assert (concat b0 ++ concat b1 = []) as -> by (apply nil_length_inv; lia). split; [done|]. split; [done|]. apply not_elem_of_nil. }
  assert (concat b0 ++ concat b1 <> []) as Hne' by (intros E; by rewrite E in Hne).
  destruct (step_if_rehashing_ok ty kname w d b0 b1 ext Hr Hsm) as (w1 & d1 & a0 & a1 & -> & Hk). cbn [mbind result_bind]. pose proof Hk as (Hr1 & Hsc & [Hs1 Hs2] & Hp).
  assert (has_table (ht0 d1)) as Ht by (eapply table_if_nodes; [done|by eapply kept_nil]).
  destruct (find_links_ok w1 d1 a0 a1 ext key Hr1 Ht) as (r & -> & Hat). cbn [mbind result_bind]. destruct r as [[[t l] p]|].
  2:{ left. exists w1, d1, a0, a1. split; [done|]. split; [done|]. cbn in Hat. by rewrite (same_content_keys ty kname _ _ Hsc) in Hat. }
  right. destruct Hat as (i & ys & n & zs & Hi & -> & -> & Ekey).
  destruct (unlink_ok w1 d1 a0 a1 ext t i ys n zs Hr1 (kept_small _ _ _ _ _ _ _ _ _ _ _ Hk Hsm) Hi) as (next & w2 & d2 & c0 & c1 & _ & _ & Enext & Eset & Ety & Ep & Hr2 & Hadd & Hn & Ho & [Hs3 Hs4]).
  unfold dictTwoPhaseUnlinkFree. cbn [mret result_ret mbind result_bind]. rewrite Enext. cbn [mbind result_bind]. fold (less_one (dictPauseRehashing d1) t).
  unfold dictPauseRehashing. rewrite set_link_commute, Eset. cbn [mbind result_bind mret result_ret]. set (d3 := less_one (set_pauserehash d2 _) t).
  unfold added in Hadd. assert (destructible n) as Hd by (eapply Forall_cons; rewrite <- Hadd; by apply (destructible_content _ _ Hsc)).
  destruct (free_entry_ok w2 d3 n next (concat c0 ++ concat c1) ext) as (w3 & -> & Ho3 & Hf3 & Ec3 & Er3); [unfold d3; by destruct t|done..|]. cbn [mbind result_bind].
  exists w3, (dictResumeRehashing d3), c0, c1, n, (concat a0 ++ concat a1). split; [done|].
  assert (dictResumeRehashing d3 = less_one d2 t) as ->.
  { unfold dictResumeRehashing, d3. assert (i16 (i16 (pauserehash d1 + 1) - 1) = pauserehash d2) as E.
    { rewrite Ep, Hp. unfold wrap_s. replace ((pauserehash d + 1 + 2 ^ (16 - 1)) mod 2 ^ 16 - 2 ^ (16 - 1) - 1 + 2 ^ (16 - 1)) with ((pauserehash d + 1 + 2 ^ (16 - 1)) mod 2 ^ 16 - 1) by lia.
      rewrite Zminus_mod_idemp_l. unfold in_s in Hpr. rewrite Z.mod_small by lia. lia. }
    unfold less_one, set_pauserehash, set_ht. destruct t; cbn; by rewrite E. }
  split; [by eapply rep_frames|]. split; [done|]. split; [done|]. split; [done|]. split; [congruence|]. split; [congruence|]. destruct t; cbn; congruence.
Qed.

(** ** Clearing *)

Definition minus_used (d : dict) (t : bool) (k : Z) : dict := set_ht d t (set_used (ht_at d t) (ht_used (ht_at d t) - k)).
Definition all_freed (xs : list node) : list call := concat (freed_calls <$> xs).

Lemma clear_chain_ok fuel w d t he xs R ext :
  type d = ty -> chain (objs w) he xs -> (length xs <= fuel)%nat -> owns (objs w) (xs ++ R) ext -> Forall destructible xs -> len_ xs <= ht_used (ht_at d t) < 2 ^ 64 ->
  exists w', clear_chain fuel w d t he = inr (w', minus_used d t (len_ xs)) /\ owns (objs w') R ext /\ frames (objs w) (objs w') R ext /\
    calls w' = calls w ++ all_freed xs /\ dict_can_resize w' = dict_can_resize w.
Proof.
  revert fuel w d he. induction xs as [|n xs IH]; intros fuel w d he Et Hc Hf Ho Hd Hu.
  - cbn in Hc. subst he. exists w. split; [|unfold all_freed; cbn; rewrite app_nil_r; done].
    assert (minus_used d t (len_ (@nil node)) = d) as -> by (unfold minus_used, set_used; cbn [length Z.of_nat]; rewrite Z.sub_0_r; by destruct d as [? [] [] ? ?], t).
    by destruct fuel.
  - destruct Hc as (-> & next & Hn & Hc). destruct fuel as [|fuel]; [cbn in Hf; lia|]. cbn [clear_chain length] in *. apply Forall_cons in Hd as [Hd Hds].
    rewrite (proj2 (Z.eqb_neq _ _)) by apply Hn. rewrite (get_next_ok _ _ _ Hn). cbn [mbind result_bind].
    destruct (free_entry_ok w d n next (xs ++ R) ext Et Hn Hd Ho) as (w1 & -> & Ho1 & Hf1 & Ec1 & Er1). cbn [mbind result_bind]. fold (less_one d t).
    assert (less_one d t = minus_used d t 1) as -> by (unfold less_one, minus_used; by rewrite wrap_u_id by (unfold in_u; lia)).
    destruct (IH fuel w1 (minus_used d t 1) next) as (w2 & -> & Ho2 & Hf2 & Ec2 & Er2).
    + by destruct t.
    + eapply chain_frames; [|exact Hf1|done]. by exists R.
    + lia.
    + done.
    + done.
    + destruct t; cbn in *; lia.
    + exists w2. assert (minus_used (minus_used d t 1) t (len_ xs) = minus_used d t (Z.of_nat (S (length xs)))) as ->.
      { unfold minus_used, set_ht, set_used. replace (ht_used (ht_at d t) - Z.of_nat (S (length xs))) with (ht_used (ht_at d t) - 1 - len_ xs) by lia. by destruct t. }
      split; [done|]. split; [done|]. split; [eapply frames_trans; [|done]; by apply frames_app_r in Hf1|].
      split; [rewrite Ec2, Ec1; unfold all_freed; cbn; by rewrite app_assoc|congruence].
Qed.

Lemma all_freed_app xs ys : all_freed (xs ++ ys) = all_freed xs ++ all_freed ys.
Proof. unfold all_freed. by rewrite fmap_app, concat_app. Qed.

(** The buckets from [i] on. *)
Lemma clear_loop_ok bs w d t i sl pre R ext :
  type d = ty -> slots (ht_at d t) = pre ++ sl -> i = len_ pre -> tbl (objs w) sl bs -> owns (objs w) (concat bs ++ R) ext -> Forall destructible (concat bs) ->
  ht_used (ht_at d t) = len_ (concat bs) -> len_ (concat bs) < 2 ^ 64 ->
  exists w', for_each (clear_turn t) (w, d) (seqZ i (len_ bs)) = inr (w', minus_used d t (len_ (concat bs))) /\ owns (objs w') R ext /\ frames (objs w) (objs w') R ext /\
    calls w' = calls w ++ all_freed (concat bs) /\ dict_can_resize w' = dict_can_resize w.
Proof.
  revert w d i sl pre. induction bs as [|xs bs IH]; intros w d i sl pre Et Esl -> Hb Ho Hd Hu Hs.
  - exists w. cbn [concat length]. split; [|unfold all_freed; cbn; by rewrite app_nil_r].
    assert (minus_used d t (Z.of_nat 0) = d) as -> by (unfold minus_used, set_used; cbn [Z.of_nat]; rewrite Z.sub_0_r; by destruct d as [? [] [] ? ?], t). done.
  - apply Forall2_cons_inv_r in Hb as (p & sl' & Hc & Hb & ->). cbn [concat] in *. rewrite <- app_assoc in Ho. apply Forall_app in Hd as [Hdx Hd]. rewrite length_app in Hu, Hs.
    rewrite seqZ_cons by (cbn; lia). cbn [for_each clear_turn]. replace (Z.pred (len_ (xs :: bs))) with (len_ bs) by (cbn; lia).
    assert (exists w1, (if 0 <? ht_used (ht_at d t) then he ← bucket d t (len_ pre); clear_chain (chain_fuel w) w d t he else mret (w, d)) = inr (w1, minus_used d t (len_ xs)) /\
      owns (objs w1) (concat bs ++ R) ext /\ frames (objs w) (objs w1) (concat bs ++ R) ext /\ calls w1 = calls w ++ all_freed xs /\ dict_can_resize w1 = dict_can_resize w)
      as (w1 & -> & Ho1 & Hf1 & Ec1 & Er1).
    { destruct (Z.ltb_spec 0 (ht_used (ht_at d t))).
      - rewrite (bucket_ok d t _ p) by (try lia; rewrite Nat2Z.id, Esl, list_lookup_middle; done). cbn [mbind result_bind].
        apply (clear_chain_ok (chain_fuel w)); try done; [|lia]. apply (chain_length _ p); [done|]. destruct Ho as [Hn _ _]. rewrite addrs_app in Hn. by apply NoDup_app in Hn as (Hn & _).
      - assert (xs = []) as -> by (apply nil_length_inv; lia). exists w. split; [|unfold all_freed; cbn; by rewrite app_nil_r].
        assert (minus_used d t (len_ (@nil node)) = d) as -> by (unfold minus_used, set_used; cbn [length Z.of_nat]; rewrite Z.sub_0_r; by destruct d as [? [] [] ? ?], t). done. }
    cbn [mbind result_bind]. destruct (IH w1 (minus_used d t (len_ xs)) (Z.succ (len_ pre)) sl' (pre ++ [p])) as (w2 & -> & Ho2 & Hf2 & Ec2 & Er2).
    + by destruct t.
    + rewrite <- app_assoc. cbn [app]. rewrite <- Esl. by destruct t.
    + rewrite length_app. cbn. lia.
    + eapply tbl_frames; [|exact Hf1|done]. by exists R.
    + done.
    + done.
    + destruct t; cbn in *; lia.
    + lia.
    + exists w2. assert (minus_used (minus_used d t (len_ xs)) t (len_ (concat bs)) = minus_used d t (len_ (xs ++ concat bs))) as ->.
      { unfold minus_used, set_ht, set_used. rewrite length_app. replace (ht_used (ht_at d t) - Z.of_nat (length xs + length (concat bs))) with (ht_used (ht_at d t) - len_ xs - len_ (concat bs)) by lia. by destruct t. }
      split; [done|]. split; [done|]. split; [eapply frames_trans; [|done]; by apply frames_app_r in Hf1|].
      split; [by rewrite Ec2, Ec1, all_freed_app, app_assoc|congruence].
Qed.

Lemma table_size w d b0 b1 ext t : rep w d b0 b1 ext -> DICTHT_SIZE (ht_size_exp (ht_at d t)) = len_ (pick t b0 b1).
Proof.
  intros Hr. destruct (rep_pick ty kname w d b0 b1 ext t Hr) as (Hb & _). pose proof (Forall2_length _ _ _ Hb) as Hl.
  assert (no_table (ht_at d t) \/ has_table (ht_at d t)) as [(_ & Es & ->)|(_ & He & Es)].
  { destruct (r_mode _ _ _ _ _ _ _ Hr) as [(_ & E1 & ?)|(_ & ? & ? & _)]; destruct t; cbn; auto. rewrite E1. by left. }
  - rewrite Es in Hl. cbn in Hl. by rewrite <- Hl.
  - rewrite size_pow by lia. lia.
Qed.

Definition empty_dict (d : dict) : dict := mk_dict (type d) _dictReset _dictReset (-1) 0.

Lemma dictEmpty_ok w d b0 b1 ext :
  rep w d b0 b1 ext -> small b0 b1 -> Forall destructible (concat b0 ++ concat b1) ->
  exists w', dictEmpty w d = inr (w', empty_dict d) /\ rep w' (empty_dict d) [] [] ext /\ dom (objs w') = ext /\
    calls w' = calls w ++ all_freed (concat b0 ++ concat b1) /\ dict_can_resize w' = dict_can_resize w.
Proof.
  intros Hr Hsm Hd. unfold dictEmpty, _dictClear. pose proof (table_size _ _ _ _ _ false Hr) as Hs0. pose proof (table_size _ _ _ _ _ true Hr) as Hs1.
  destruct Hr as [Ety Ht0 Ht1 Hu0 Hu1 Hp0 Hp1 Hm Ho Hk Hnd]. unfold small in Hsm. rewrite length_app in Hsm. apply Forall_app in Hd as [Hd0 Hd1]. cbn [pick] in *. rewrite Hs0.
  destruct (clear_loop_ok b0 w d false 0 (slots (ht0 d)) [] (concat b1) ext) as (w1 & -> & Ho1 & Hf1 & Ec1 & Er1); [done..|cbn; lia|]. cbn [mbind result_bind mret result_ret].
  set (d1 := set_ht _ false _). change (ht_at d1 true) with (ht_at d true). rewrite Hs1.
  destruct (clear_loop_ok b1 w1 d1 true 0 (slots (ht1 d)) [] [] ext) as (w2 & -> & Ho2 & Hf2 & Ec2 & Er2); try done.
  { eapply tbl_frames; [|exact Hf1|done]. exists []. by rewrite app_nil_r. }
  { by rewrite app_nil_r. }
  { lia. }
  cbn [mbind result_bind mret result_ret]. exists w2. split; [done|]. split; [|split; [|split; [by rewrite Ec2, Ec1, all_freed_app, app_assoc|congruence]]].
  - split; cbn; try done; try (by constructor). left. split_and!; try done. by left.
  - destruct Ho2 as [_ E _]. rewrite E. cbn. set_solver.
Qed.
End Delete.
