(* ===== verification/DictMap.v ===== *)
(** * A dictionary is a finite map

    The contents of a dictionary as a map from keys to the stored key and value, what each operation
    should do to that map, and the theorem that it does, for every sequence of operations from the
    empty dictionary on, with rehashing and resizing underneath. *)

From S2P Require Import Prelude Dict DictChain DictRep DictRehash DictEdit DictDelete.

Section Map.
Context `{Zm : !Zmalloc} {K : Type} `{EqK : EqDecision K} `{CntK : !Countable K} (ty : dictType) (kname : Z -> K).
Notation rep := (rep ty kname).
Notation kept := (kept ty kname).
Notation has_key := (has_key kname).
Notation dup_key := (dup_key ty).

(** ** The map of a list of nodes *)

Definition keys (xs : list node) : list K := (kname ∘ nkey) <$> xs.
Definition the_map (xs : list node) : gmap K (Z * option Z) := list_to_map ((fun n => (kname (nkey n), kv n)) <$> xs).

Lemma keys_fst xs : ((fun n => (kname (nkey n), kv n)) <$> xs).*1 = keys xs.
Proof. unfold keys. by rewrite <- list_fmap_compose. Qed.

Lemma the_map_cons n xs : the_map (n :: xs) = <[kname (nkey n) := kv n]> (the_map xs).
Proof. done. Qed.
Lemma the_map_content xs ys : same_content ty xs ys -> NoDup (keys xs) -> the_map xs = the_map ys.
Proof.
  intros [E _] Hn. unfold the_map. apply list_to_map_proper; [by rewrite keys_fst|].
  assert (forall zs, (fun n => (kname (nkey n), kv n)) <$> zs = (fun p => (kname p.1, p)) <$> (kv <$> zs)) as Ek by (intros zs; by rewrite <- list_fmap_compose).
  by rewrite !Ek, E.
Qed.
Lemma the_map_perm xs ys : xs ≡ₚ ys -> NoDup (keys xs) -> the_map xs = the_map ys.
Proof. intros E. by apply the_map_content, same_content_perm. Qed.

Lemma the_map_lookup key xs : NoDup (keys xs) -> the_map xs !! kname key = kv <$> find (has_key key) xs.
Proof.
  induction xs as [|x xs IH]; [done|]. intros Hn. unfold keys in Hn. cbn [fmap list_fmap] in Hn. apply NoDup_cons in Hn as [_ Hn]. rewrite the_map_cons. cbn [find].
  unfold DictRep.has_key at 1. case_bool_decide as E; [by rewrite E, lookup_insert_eq|]. rewrite lookup_insert_ne by done. by apply IH.
Qed.
Lemma the_map_absent key xs : NoDup (keys xs) -> the_map xs !! kname key = None <-> kname key ∉ keys xs.
Proof. intros Hn. rewrite the_map_lookup by done. rewrite fmap_None. apply find_none_iff. Qed.

Lemma the_map_remove n xs ys : xs ≡ₚ n :: ys -> NoDup (keys xs) -> the_map xs !! kname (nkey n) = Some (kv n) /\ the_map ys = delete (kname (nkey n)) (the_map xs).
Proof.
  intros E Hn. rewrite (the_map_perm _ _ E Hn), the_map_cons. split; [by rewrite lookup_insert_eq|]. rewrite delete_insert_eq. symmetry. apply delete_id.
  unfold keys in Hn. rewrite E in Hn. cbn in Hn. apply NoDup_cons in Hn as [Ha Hn]. by apply the_map_absent.
Qed.
Lemma the_map_size xs : NoDup (keys xs) -> size (the_map xs) = length xs.
Proof.
  induction xs as [|x xs IH]; [intros _; apply map_size_empty|]. intros Hn. cbn in Hn. apply NoDup_cons in Hn as [Ha Hn]. rewrite the_map_cons, map_size_insert_None; [cbn; by rewrite IH|].
  by apply the_map_absent.
Qed.

(** ** What a dictionary stands for *)

Definition valued (n : node) : Prop := no_value ty = false -> is_Some (nval n).

Definition models (w : world) (d : dict) (m : gmap K (Z * option Z)) : Prop :=
  exists b0 b1, rep w d b0 b1 ∅ /\ the_map (concat b0 ++ concat b1) = m /\ Forall valued (concat b0 ++ concat b1) /\ pauserehash d = 0.

Lemma valued_content xs ys : same_content ty xs ys -> Forall valued ys -> Forall valued xs.
Proof.
  intros [E _] Hy. apply Forall_forall. intros x Hx. assert (kv x ∈ kv <$> ys) as Hin by (rewrite <- E; by apply list_elem_of_fmap_2).
  apply list_elem_of_fmap in Hin as (y & Ey & Hyin). rewrite Forall_forall in Hy. specialize (Hy y Hyin). injection Ey as _ Ev. unfold valued in *. by rewrite Ev.
Qed.

Lemma models_kept w d b0 b1 w' d' c0 c1 :
  kept w d b0 b1 ∅ w' d' c0 c1 -> Forall valued (concat b0 ++ concat b1) -> pauserehash d = 0 -> models w' d' (the_map (concat b0 ++ concat b1)).
Proof.
  intros (Hr & Hsc & _ & Hp) Hv Hz. exists c0, c1. split; [done|]. split; [apply the_map_content; [done|]; apply (r_keys _ _ _ _ _ _ _ Hr)|].
  split; [by eapply valued_content|congruence].
Qed.

Context (Hlaw : lawful ty kname).

Lemma valued_destructible xs : Forall valued xs -> Forall (destructible ty) xs.
Proof.
  intros H. eapply Forall_impl; [exact H|]. intros n Hv Hd. apply Hv. destruct (no_value ty) eqn:E; [|done]. destruct (l_no_value _ _ Hlaw E) as [Hvd _]. congruence.
Qed.

Lemma models_small w d m : models w d m -> Z.of_nat (size m) < 2 ^ 59 -> exists b0 b1, rep w d b0 b1 ∅ /\ the_map (concat b0 ++ concat b1) = m /\ Forall valued (concat b0 ++ concat b1) /\ pauserehash d = 0 /\ roomy b0 b1.
Proof.
  intros (b0 & b1 & Hr & Em & Hv & Hp) Hs. exists b0, b1. split_and!; try done. unfold roomy. rewrite <- Em, the_map_size in Hs; [done|]. apply (r_keys _ _ _ _ _ _ _ Hr).
Qed.

(** ** Setting a value *)

Lemma setv_others n v ys : NoDup (addrs (n :: ys)) -> entryIsNormal (nptr n) = true -> setv (nptr n) v <$> ys = ys.
Proof.
  intros Hn Hk. destruct (normal_addr _ Hk) as (Ea & Ek & _). rewrite addrs_cons, naddr_some, Ea in Hn by done. apply NoDup_cons in Hn as [Hno _].
  induction ys as [|y ys IH]; [done|]. cbn [fmap list_fmap]. rewrite addrs_cons in Hno. unfold setv at 1. destruct (Z.eqb_spec (nptr y) (nptr n)) as [E|_].
  - exfalso. apply Hno. rewrite naddr_some by (by rewrite E). rewrite E, Ea. by left.
  - f_equal. apply IH. destruct (naddr y); [|done]. intros Hin. apply Hno. by right.
Qed.

Lemma set_v_map w d b0 b1 ext n v ys :
  rep w d b0 b1 ext -> concat b0 ++ concat b1 ≡ₚ n :: ys -> no_value ty = false -> Forall valued ys ->
  exists w' c0 c1, set_v w (nptr n) v = inr w' /\ same_rest w w' /\ rep w' d c0 c1 ext /\ Forall valued (concat c0 ++ concat c1) /\
    the_map (concat c0 ++ concat c1) = <[kname (nkey n) := (nkey n, Some v)]> (the_map ys).
Proof.
  intros Hr E Env Hv. assert (n ∈ concat b0 ++ concat b1) as Hin by (rewrite E; by left).
  destruct (set_v_ok ty kname w d b0 b1 ext n v Hr Hin Env) as (w' & Eset & Hs & Hr'). exists w', (setvs (nptr n) v b0), (setvs (nptr n) v b1).
  split; [done|]. split; [done|]. split; [done|]. pose proof (r_nodes _ _ _ _ _ _ _ Hr) as Hnd. rewrite Forall_forall in Hnd. pose proof (Hnd n Hin) as [_ Hk]. rewrite Env in Hk.
  destruct (r_owns _ _ _ _ _ _ _ Hr) as [Hnda _ _]. rewrite E in Hnda. pose proof (r_keys _ _ _ _ _ _ _ Hr') as Hkeys.
  assert (concat (setvs (nptr n) v b0) ++ concat (setvs (nptr n) v b1) ≡ₚ with_val n v :: ys) as E'.
  { rewrite !concat_fmap_setv, <- fmap_app, E. cbn [fmap list_fmap]. rewrite (setv_others n v ys Hnda Hk). unfold setv. by rewrite Z.eqb_refl. }
  split; [rewrite E'; constructor; [intros _; by eexists|done]|]. rewrite (the_map_perm _ _ E' Hkeys). done.
Qed.

(** ** The operations *)

Inductive op :=
| Add (k v : Z) | Replace (k v : Z) | Find (k : Z) | FetchValue (k : Z) | Delete (k : Z) | Unlink (k : Z) | TwoPhaseUnlink (k : Z)
| Expand (n : Z) | Resize | Rehash (n : nat) | SetResizeEnabled (e : dictResizeEnable) | Empty.

Definition unit_reply (x : world * dict) : result (world * dict * Z) := mret (x.1, x.2, 0).

(** The code, with the pointer to an entry told as 1. *)
Definition exec (w : world) (d : dict) (o : op) : result (world * dict * Z) :=
  match o with
  | Add k v => dictAdd w d k v
  | Replace k v => dictReplace w d k v
  | Find k => '(w, d, he) ← dictFind w d k; mret (w, d, if he =? 0 then 0 else 1)
  | FetchValue k => dictFetchValue w d k
  | Delete k => dictDelete w d k
  | Unlink k => '(w, d, he) ← dictUnlink w d k; w ← dictFreeUnlinkedEntry w d he; mret (w, d, if he =? 0 then 0 else 1)
  | TwoPhaseUnlink k => x ← two_phase_unlink w d k; unit_reply x
  | Expand n => unit_reply (w, (dictExpand w d n).1)
  | Resize => unit_reply (w, (dictResize w d).1)
  | Rehash n => '(w, d, _) ← dictRehash w d n; mret (w, d, 0)
  | SetResizeEnabled e => unit_reply (dictSetResizeEnabled w e, d)
  | Empty => x ← dictEmpty w d; unit_reply x
  end.

Definition dup_val (v : Z) : Z := match valDup ty with Some f => f v | None => v end.
(** The destructors for a stored key and value. *)
Definition destroyed (x : Z * option Z) : list call := freed_calls ty (mk_node 0 x.1 x.2).

(** What the operation means for the map: the reply, the map, and the destructors called. *)
Definition spec (m : gmap K (Z * option Z)) (o : op) : Z * gmap K (Z * option Z) * list call :=
  match o with
  | Add k v =>
      match m !! kname k with
      | Some _ => (DICT_ERR, m, [])
      | None => (DICT_OK, <[kname k := (dup_key k, if no_value ty then None else Some (dup_val v))]> m, [])
      end
  | Replace k v =>
      match m !! kname k with
      | Some (k', old) => (0, <[kname k := (k', Some (dup_val v))]> m, if valDestructor ty then match old with Some v => [FreeVal v] | None => [] end else [])
      | None => (1, <[kname k := (dup_key k, Some (dup_val v))]> m, [])
      end
  | Find k => (match m !! kname k with Some _ => 1 | None => 0 end, m, [])
  | FetchValue k => (match m !! kname k with Some (_, Some v) => v | _ => 0 end, m, [])
  | Delete k => match m !! kname k with Some x => (DICT_OK, delete (kname k) m, destroyed x) | None => (DICT_ERR, m, []) end
  | Unlink k => match m !! kname k with Some x => (1, delete (kname k) m, destroyed x) | None => (0, m, []) end
  | TwoPhaseUnlink k => match m !! kname k with Some x => (0, delete (kname k) m, destroyed x) | None => (0, m, []) end
  | Expand _ | Resize | Rehash _ | SetResizeEnabled _ => (0, m, [])
  | Empty => (0, ∅, concat ((destroyed ∘ snd) <$> map_to_list m))
  end.

(** What the caller has to respect. *)
Definition allowed (o : op) : Prop :=
  match o with
  | Add k _ => odd_ok ty k
  | Replace k _ => odd_ok ty k /\ no_value ty = false
  | FetchValue _ => no_value ty = false
  | Expand n => 0 <= n
  | Rehash n => 1 <= Z.of_nat n /\ 10 * Z.of_nat n < 2 ^ 31
  | _ => True
  end.

(** The result of an operation as the specification has it. *)
Definition simulates (w : world) (d : dict) (m : gmap K (Z * option Z)) (o : op) (r : result (world * dict * Z)) : Prop :=
  exists w' d' cs, r = inr (w', d', (spec m o).1.1) /\ models w' d' (spec m o).1.2 /\ calls w' = calls w ++ cs /\ cs ≡ₚ (spec m o).2.

Lemma simulates_keep w d m o w' d' rep' :
  models w' d' m -> calls w' = calls w -> (spec m o) = (rep', m, []) -> simulates w d m o (inr (w', d', rep')).
Proof. intros Hm Hc E. exists w', d', []. rewrite E, app_nil_r. done. Qed.

(** ** Each operation *)

Section Step.
Context (w : world) (d : dict) (b0 b1 : list (list node)).
Context (Hr : rep w d b0 b1 ∅) (Hv : Forall valued (concat b0 ++ concat b1)) (Hp : pauserehash d = 0) (Hroom : roomy b0 b1).
Notation m := (the_map (concat b0 ++ concat b1)).

Lemma step_keys : NoDup (keys (concat b0 ++ concat b1)).
Proof. apply (r_keys _ _ _ _ _ _ _ Hr). Qed.

Lemma step_find k : simulates w d m (Find k) (exec w d (Find k)).
Proof.
  cbn [exec]. destruct (dictFind_ok ty kname Hlaw w d b0 b1 ∅ k Hr (roomy_small _ _ Hroom)) as (w' & d' & c0 & c1 & -> & Hk). cbn [mbind result_bind mret result_ret].
  pose proof Hk as (Hr' & Hsc & [Hc _] & _). pose proof (r_keys _ _ _ _ _ _ _ Hr') as Hkeys.
  apply simulates_keep; [by eapply models_kept|done|]. cbn [spec]. rewrite <- (the_map_content _ _ Hsc Hkeys), the_map_lookup by done. unfold found.
  destruct (find (has_key k) (concat c0 ++ concat c1)) as [n|] eqn:E; cbn; [|done].
  apply find_some in E as [Hn%list_elem_of_In _]. by rewrite (proj2 (Z.eqb_neq _ _) (nptr_pos _ _ _ _ _ _ _ _ Hr' Hn)).
Qed.

Lemma step_fetch k : no_value ty = false -> simulates w d m (FetchValue k) (exec w d (FetchValue k)).
Proof.
  intros Env. cbn [exec]. unfold dictFetchValue. destruct (dictFind_ok ty kname Hlaw w d b0 b1 ∅ k Hr (roomy_small _ _ Hroom)) as (w' & d' & c0 & c1 & -> & Hk).
  cbn [mbind result_bind]. pose proof Hk as (Hr' & Hsc & [Hc _] & _). pose proof (r_keys _ _ _ _ _ _ _ Hr') as Hkeys. unfold found.
  destruct (find (has_key k) (concat c0 ++ concat c1)) as [n|] eqn:E.
  - pose proof E as [Hn%list_elem_of_In _]%find_some. rewrite (proj2 (Z.eqb_neq _ _) (nptr_pos _ _ _ _ _ _ _ _ Hr' Hn)).
    pose proof (valued_content _ _ Hsc Hv) as Hv'. rewrite Forall_forall in Hv'. destruct (Hv' n Hn Env) as [v Ev].
    destruct (rep_node _ _ _ _ _ _ _ _ Hr' Hn) as [next Hat]. rewrite (get_val_ok _ _ _ _ Hat Ev). cbn [mbind result_bind mret result_ret].
    apply simulates_keep; [by eapply models_kept|done|]. cbn [spec]. rewrite <- (the_map_content _ _ Hsc Hkeys), the_map_lookup, E by done. cbn. by rewrite Ev.
  - apply simulates_keep; [by eapply models_kept|done|]. cbn [spec]. by rewrite <- (the_map_content _ _ Hsc Hkeys), the_map_lookup, E by done.
Qed.

(** A new entry, not yet with its value. *)
Lemma raw_absent k xs : same_content ty xs (concat b0 ++ concat b1) -> find (has_key k) xs = None -> m !! kname k = None.
Proof. intros Hsc Hf. apply the_map_absent; [apply step_keys|]. unfold keys. rewrite <- (same_content_keys ty kname _ _ Hsc). by apply find_none_iff. Qed.

Lemma step_add k v : odd_ok ty k -> simulates w d m (Add k v) (exec w d (Add k v)).
Proof.
  intros Hodd. cbn [exec]. unfold dictAdd. destruct (dictAddRaw_ok ty kname Hlaw w d b0 b1 ∅ k Hr Hroom Hodd) as (w1 & d1 & c0 & c1 & Hr1 & [Hc Hcr] & Hp1 & H).
  pose proof (r_keys _ _ _ _ _ _ _ Hr1) as Hkeys. destruct H as [(n & -> & Hsc & Hf)|(n & xs & -> & E & Hsc & Ekv & Hf)]; cbn [mbind result_bind].
  - apply simulates_keep; [|done|].
    + eapply models_kept; [|done|done]. split; [done|]. by split_and!.
    + cbn [spec]. by rewrite <- (the_map_content _ _ Hsc Hkeys), the_map_lookup, Hf by done.
  - assert (n ∈ concat c0 ++ concat c1) as Hn by (rewrite E; by left). rewrite (proj2 (Z.eqb_neq _ _) (nptr_pos _ _ _ _ _ _ _ _ Hr1 Hn)).
    pose proof (raw_absent k xs Hsc Hf) as Habs. pose proof Ekv as [= Enk Env']. destruct (dup_key_ok ty kname Hlaw k) as [Edup _].
    assert (NoDup (keys xs)) as Hkx by (unfold keys in *; rewrite E in Hkeys; by apply NoDup_cons in Hkeys as [_ ?]).
    assert (the_map xs = m) as Emap by by apply the_map_content. rewrite (r_type _ _ _ _ _ _ _ Hr1).
    assert (Forall valued xs) as Hvx by by eapply valued_content. destruct (no_value ty) eqn:Env.
    + exists w1, d1, []. cbn [spec]. rewrite Habs, Env. cbn. split; [done|]. split; [|by rewrite app_nil_r]. exists c0, c1. split; [done|].
      rewrite (the_map_perm _ _ E Hkeys), the_map_cons, Ekv, Emap, Enk, Edup. split; [done|]. rewrite E. split; [constructor; [|done]|congruence]. intros Ef. congruence.
    + unfold dictSetVal. rewrite (r_type _ _ _ _ _ _ _ Hr1). fold (dup_val v).
      destruct (set_v_map w1 d1 c0 c1 ∅ n (dup_val v) xs Hr1 E Env Hvx) as (w2 & e0 & e1 & -> & [Hc2 _] & Hr2 & Hv2 & Em2). cbn [mbind result_bind mret result_ret].
      exists w2, d1, []. cbn [spec]. rewrite Habs, Env. cbn. split; [done|]. split; [|rewrite app_nil_r; split; [congruence|done]]. exists e0, e1. split; [done|].
      rewrite Em2, Emap, Enk, Edup. split; [done|]. split; [done|congruence].
Qed.

Lemma rep_objs (w1 w2 : world) d1 c0 c1 ext : objs w2 = objs w1 -> rep w1 d1 c0 c1 ext -> rep w2 d1 c0 c1 ext.
Proof. intros E []. by split; rewrite ?E. Qed.

Lemma step_replace k v : odd_ok ty k -> no_value ty = false -> simulates w d m (Replace k v) (exec w d (Replace k v)).
Proof.
  intros Hodd Env. cbn [exec]. unfold dictReplace. destruct (dictAddRaw_ok ty kname Hlaw w d b0 b1 ∅ k Hr Hroom Hodd) as (w1 & d1 & c0 & c1 & Hr1 & [Hc Hcr] & Hp1 & H).
  pose proof (r_keys _ _ _ _ _ _ _ Hr1) as Hkeys. destruct H as [(n & -> & Hsc & Hf)|(n & xs & -> & E & Hsc & Ekv & Hf)]; cbn [mbind result_bind].
  - cbn [Z.eqb negb]. pose proof Hf as Hin. apply (find_some_iff kname) in Hin as [Hin Ek]; [|done]. pose proof (valued_content _ _ Hsc Hv) as Hv1.
    pose proof Hv1 as Hv1'. rewrite Forall_forall in Hv1'. destruct (Hv1' n Hin Env) as [old Eold]. destruct (rep_node _ _ _ _ _ _ _ _ Hr1 Hin) as [next Hat].
    rewrite (get_val_ok _ _ _ _ Hat Eold). cbn [mbind result_bind]. unfold dictSetVal. rewrite (r_type _ _ _ _ _ _ _ Hr1). fold (dup_val v).
    apply list_elem_of_split in Hin as (ys & zs & Esplit). assert (concat c0 ++ concat c1 ≡ₚ n :: ys ++ zs) as E by (rewrite Esplit; by rewrite <- Permutation_middle).
    rewrite E in Hv1. apply Forall_cons in Hv1 as [_ Hv1].
    destruct (set_v_map w1 d1 c0 c1 ∅ n (dup_val v) _ Hr1 E Env Hv1) as (w2 & e0 & e1 & -> & [Hc2 _] & Hr2 & Hv2 & Em2). cbn [mbind result_bind mret result_ret].
    assert (the_map (concat c0 ++ concat c1) = m) as Emap by by apply the_map_content.
    destruct (the_map_remove n _ _ E Hkeys) as [Hlk Hdel]. rewrite Ek, Emap in *.
    exists (if valDestructor ty then call_back w2 (FreeVal old) else w2), d1, (if valDestructor ty then [FreeVal old] else []). cbn [spec]. rewrite Hlk. cbn. rewrite Eold.
    split; [done|]. split; [|split; [destruct (valDestructor ty); cbn; rewrite ?app_nil_r; congruence|by destruct (valDestructor ty)]].
    exists e0, e1. split; [by eapply rep_objs; [|exact Hr2]; destruct (valDestructor ty)|]. split; [|split; [done|congruence]].
    rewrite Em2, Hdel. by rewrite insert_delete_eq.
  - assert (n ∈ concat c0 ++ concat c1) as Hn by (rewrite E; by left). rewrite (proj2 (Z.eqb_neq _ _) (nptr_pos _ _ _ _ _ _ _ _ Hr1 Hn)). cbn [negb].
    pose proof (raw_absent k xs Hsc Hf) as Habs. pose proof Ekv as [= Enk Env']. destruct (dup_key_ok ty kname Hlaw k) as [Edup _].
    assert (NoDup (keys xs)) as Hkx by (unfold keys in *; rewrite E in Hkeys; by apply NoDup_cons in Hkeys as [_ ?]).
    assert (the_map xs = m) as Emap by by apply the_map_content.
    assert (Forall valued xs) as Hvx by by eapply valued_content. unfold dictSetVal. rewrite (r_type _ _ _ _ _ _ _ Hr1). fold (dup_val v).
    destruct (set_v_map w1 d1 c0 c1 ∅ n (dup_val v) xs Hr1 E Env Hvx) as (w2 & e0 & e1 & -> & [Hc2 _] & Hr2 & Hv2 & Em2). cbn [mbind result_bind mret result_ret].
    exists w2, d1, []. cbn [spec]. rewrite Habs. cbn. split; [done|]. split; [|rewrite app_nil_r; split; [congruence|done]]. exists e0, e1. split; [done|].
    rewrite Em2, Emap, Enk, Edup. split; [done|]. split; [done|congruence].
Qed.

(** The contents without a node that was deleted. *)
Lemma models_removed w' d' c0 c1 n xs k :
  rep w' d' c0 c1 ∅ -> same_content ty xs (concat b0 ++ concat b1) -> xs ≡ₚ n :: concat c0 ++ concat c1 -> kname (nkey n) = kname k -> pauserehash d' = 0 ->
  m !! kname k = Some (kv n) /\ models w' d' (delete (kname k) m).
Proof.
  intros Hr' Hsc E Ek Hp'. assert (NoDup (keys xs)) as Hk by (unfold keys; rewrite (same_content_keys ty kname _ _ Hsc); apply step_keys).
  assert (the_map xs = m) as Emap by by apply the_map_content. destruct (the_map_remove _ _ _ E Hk) as [Hlk Hdel]. rewrite Ek, Emap in *.
  split; [done|]. exists c0, c1. split; [done|]. split; [done|]. split; [|done]. pose proof (valued_content _ _ Hsc Hv) as Hvx. rewrite E in Hvx. by apply Forall_cons in Hvx as [_ ?].
Qed.

Lemma absent_map k : kname k ∉ (kname ∘ nkey) <$> (concat b0 ++ concat b1) -> m !! kname k = None.
Proof. intros. apply the_map_absent; [apply step_keys|done]. Qed.

Lemma step_delete k : simulates w d m (Delete k) (exec w d (Delete k)).
Proof.
  cbn [exec]. unfold dictDelete. destruct (dictGenericDelete_ok ty kname Hlaw w d b0 b1 ∅ k false Hr (roomy_small _ _ Hroom))
    as [(w' & d' & c0 & c1 & -> & Hk & Habs)|(w' & d' & c0 & c1 & n & xs & -> & Hz & Hr' & Hsc & E & Ek & Ec & _ & Hp' & _)]; [by intros _; apply valued_destructible| |];
    cbn [mbind result_bind mret result_ret].
  - pose proof Hk as (_ & _ & [Hc _] & _). apply simulates_keep; [by eapply models_kept|done|]. cbn [spec]. by rewrite (absent_map k Habs).
  - destruct (models_removed w' d' c0 c1 n xs k Hr' Hsc E Ek ltac:(congruence)) as [Hlk Hm]. rewrite (proj2 (Z.eqb_neq _ _) Hz).
    exists w', d', (freed_calls ty n). cbn [spec]. rewrite Hlk. done.
Qed.

Lemma step_unlink k : simulates w d m (Unlink k) (exec w d (Unlink k)).
Proof.
  cbn [exec]. unfold dictUnlink. destruct (dictGenericDelete_ok ty kname Hlaw w d b0 b1 ∅ k true Hr (roomy_small _ _ Hroom))
    as [(w' & d' & c0 & c1 & -> & Hk & Habs)|(w' & d' & c0 & c1 & n & xs & -> & Hz & Hr' & Hsc & E & Ek & Ec & _ & Hp' & Hown)]; [done| |];
    cbn [mbind result_bind mret result_ret].
  - pose proof Hk as (_ & _ & [Hc _] & _). unfold dictFreeUnlinkedEntry. cbn [Z.eqb mbind result_bind mret result_ret].
    apply simulates_keep; [by eapply models_kept|done|]. cbn [spec]. by rewrite (absent_map k Habs).
  - destruct (Hown eq_refl) as (next & Hat & Ho). unfold dictFreeUnlinkedEntry. rewrite (proj2 (Z.eqb_neq _ _) Hz).
    assert (destructible ty n) as Hd. { pose proof (valued_destructible _ (valued_content _ _ Hsc Hv)) as Hd. rewrite E in Hd. by apply Forall_cons in Hd as [? _]. }
    destruct (free_entry_ok ty w' d' n next _ ∅ (r_type _ _ _ _ _ _ _ Hr') Hat Hd Ho) as (w2 & -> & Ho2 & Hf2 & Ec2 & _). cbn [mbind result_bind mret result_ret].
    assert (rep w2 d' c0 c1 ∅) as Hr2 by by eapply rep_frames. destruct (models_removed w2 d' c0 c1 n xs k Hr2 Hsc E Ek ltac:(congruence)) as [Hlk Hm].
    exists w2, d', (freed_calls ty n). cbn [spec]. rewrite Hlk. cbn. split; [done|]. split; [done|]. rewrite Ec2, Ec, app_nil_r. done.
Qed.

Lemma step_two_phase k : simulates w d m (TwoPhaseUnlink k) (exec w d (TwoPhaseUnlink k)).
Proof.
  cbn [exec]. destruct (two_phase_ok ty kname Hlaw w d b0 b1 ∅ k Hr (roomy_small _ _ Hroom))
    as [(w' & d' & c0 & c1 & -> & Hk & Habs)|(w' & d' & c0 & c1 & n & xs & -> & Hr' & Hsc & E & Ek & Ec & _ & Hp')]; [by apply valued_destructible|by rewrite Hp| |];
    cbn [mbind result_bind mret result_ret unit_reply fst snd].
  - pose proof Hk as (_ & _ & [Hc _] & _). apply simulates_keep; [by eapply models_kept|done|]. cbn [spec]. by rewrite (absent_map k Habs).
  - destruct (models_removed w' d' c0 c1 n xs k Hr' Hsc E Ek ltac:(congruence)) as [Hlk Hm]. exists w', d', (freed_calls ty n). cbn [spec]. rewrite Hlk. done.
Qed.

Lemma step_resized d' : resized ty kname w d b0 b1 ∅ d' -> models w d' m.
Proof. intros (c0 & c1 & Hk & E)%resized_kept. by eapply models_kept. Qed.

Lemma step_expand n : 0 <= n -> simulates w d m (Expand n) (exec w d (Expand n)).
Proof.
  intros Hn. cbn [exec]. destruct (dictExpand_ok ty kname w d b0 b1 ∅ n Hr Hn) as (d' & r & -> & Hres & _). apply simulates_keep; [by apply step_resized|done|done].
Qed.

Lemma step_resize : simulates w d m Resize (exec w d Resize).
Proof.
  cbn [exec]. assert (models w d m) as Hm by by exists b0, b1. unfold dictResize. destruct (negb _ || dictIsRehashing d); [by apply simulates_keep|].
  destruct (dictExpand_ok ty kname w d b0 b1 ∅ (if ht_used (ht0 d) <? DICT_HT_INITIAL_SIZE then DICT_HT_INITIAL_SIZE else ht_used (ht0 d)) Hr) as (d' & r & -> & Hres & _).
  - unfold DICT_HT_INITIAL_SIZE, DICT_HT_INITIAL_EXP. destruct (_ <? _); [done|]. rewrite (r_used0 _ _ _ _ _ _ _ Hr). lia.
  - apply simulates_keep; [by apply step_resized|done|done].
Qed.

Lemma step_rehash n : 1 <= Z.of_nat n -> 10 * Z.of_nat n < 2 ^ 31 -> simulates w d m (Rehash n) (exec w d (Rehash n)).
Proof.
  intros H1 H2. cbn [exec]. destruct (dictRehash_ok ty kname w d b0 b1 ∅ n Hr (roomy_small _ _ Hroom) H1 H2) as (w' & d' & r & c0 & c1 & -> & Hk & _).
  cbn [mbind result_bind mret result_ret]. pose proof Hk as (_ & _ & [Hc _] & _). apply simulates_keep; [by eapply models_kept|done|done].
Qed.

Lemma all_freed_map xs : NoDup (keys xs) -> all_freed ty xs ≡ₚ concat ((destroyed ∘ snd) <$> map_to_list (the_map xs)).
Proof.
  intros Hn. unfold the_map. rewrite (map_to_list_to_map) by (by rewrite keys_fst). unfold all_freed. rewrite <- list_fmap_compose. f_equiv. done.
Qed.

Lemma step_empty : simulates w d m Empty (exec w d Empty).
Proof.
  cbn [exec]. destruct (dictEmpty_ok ty kname Hlaw w d b0 b1 ∅ Hr (roomy_small _ _ Hroom) (valued_destructible _ Hv)) as (w' & -> & Hr' & _ & Ec & _).
  cbn [mbind result_bind unit_reply mret result_ret fst snd]. exists w', (empty_dict d), (all_freed ty (concat b0 ++ concat b1)). cbn [spec fst snd]. split; [done|]. split.
  - exists [], []. done.
  - split; [done|]. apply all_freed_map, step_keys.
Qed.
End Step.

Lemma exec_ok w d m o : models w d m -> Z.of_nat (size m) < 2 ^ 59 -> allowed o -> simulates w d m o (exec w d o).
Proof.
  intros Hm Hs Ha. destruct (models_small w d m Hm Hs) as (b0 & b1 & Hr & <- & Hv & Hp & Hroom). destruct o; cbn [allowed] in Ha.
  - by apply step_add.
  - destruct Ha. by apply step_replace.
  - by apply step_find.
  - by apply step_fetch.
  - by apply step_delete.
  - by apply step_unlink.
  - by apply step_two_phase.
  - by apply step_expand.
  - by apply step_resize.
  - destruct Ha. by apply step_rehash.
  - apply simulates_keep; [|done|done]. exists b0, b1. split; [by eapply rep_objs; [|exact Hr]|done].
  - by apply step_empty.
Qed.

(** ** Sequences *)

Fixpoint run (os : list op) (w : world) (d : dict) : result (world * dict * list Z) :=
  match os with
  | [] => mret (w, d, [])
  | o :: os => '(w, d, r) ← exec w d o; '(w, d, rs) ← run os w d; mret (w, d, r :: rs)
  end.
Fixpoint spec_run (os : list op) (m : gmap K (Z * option Z)) : list Z * gmap K (Z * option Z) * list call :=
  match os with
  | [] => ([], m, [])
  | o :: os => let '(r, m, cs) := spec m o in let '(rs, m, ds) := spec_run os m in (r :: rs, m, cs ++ ds)
  end.

Lemma spec_size m o : (size (spec m o).1.2 <= S (size m))%nat.
Proof.
  assert (forall k x, size (<[k := x]> m) <= S (size m))%nat as Hins by (intros k x; rewrite map_size_insert; destruct (m !! k); cbn; lia).
  assert (forall k, size (delete k m) <= S (size m))%nat as Hdel by (intros k; rewrite map_size_delete; destruct (m !! k); cbn; lia).
  destruct o; cbn [spec]; repeat case_match; cbn [fst snd]; auto; rewrite map_size_empty; lia.
Qed.

Lemma run_ok os w d m :
  models w d m -> Z.of_nat (size m + length os) < 2 ^ 59 -> Forall allowed os ->
  exists w' d' cs, run os w d = inr (w', d', (spec_run os m).1.1) /\ models w' d' (spec_run os m).1.2 /\ calls w' = calls w ++ cs /\ cs ≡ₚ (spec_run os m).2.
Proof.
  revert w d m. induction os as [|o os IH]; intros w d m Hm Hs Ha.
  - exists w, d, []. by rewrite app_nil_r.
  - apply Forall_cons in Ha as [Ha Has]. cbn [length] in Hs. destruct (exec_ok w d m o Hm ltac:(lia) Ha) as (w1 & d1 & cs & E & Hm1 & Hc1 & Hp1).
    cbn [run spec_run]. rewrite E. cbn [mbind result_bind]. pose proof (spec_size m o) as Hsz. destruct (spec m o) as [[r m1] cs1]. cbn [fst snd] in *.
    destruct (IH w1 d1 m1 Hm1 ltac:(lia) Has) as (w2 & d2 & ds & -> & Hm2 & Hc2 & Hp2). destruct (spec_run os m1) as [[rs m2] ds1]. cbn [fst snd mbind result_bind mret result_ret] in *.
    exists w2, d2, (cs ++ ds). split; [done|]. split; [done|]. split; [by rewrite Hc2, Hc1, app_assoc|by rewrite Hp1, Hp2].
Qed.

Definition world0 : world := mk_world ∅ [] DICT_RESIZE_ENABLE.

Lemma models_create : models world0 (dictCreate ty) ∅.
Proof.
  exists [], []. split; [|done]. split; cbn; try done; try (by constructor).
  - left. split_and!; try done. by left.
  - split; [by constructor|done|]. intros a ?%elem_of_nil. done.
Qed.

(** Entries in the heap and keys in the map. *)
Lemma models_heap w d m : models w d m -> dictSize d = u64 (Z.of_nat (size m)) /\ (size (objs w) <= size m)%nat /\ (no_value ty = false -> size (objs w) = size m).
Proof.
  intros (b0 & b1 & Hr & <- & _ & _). set (xs := concat b0 ++ concat b1). rewrite (the_map_size xs) by apply (r_keys _ _ _ _ _ _ _ Hr).
  split; [unfold dictSize; rewrite (r_used0 _ _ _ _ _ _ _ Hr), (r_used1 _ _ _ _ _ _ _ Hr); unfold xs; rewrite length_app; f_equal; lia|].
  destruct (r_owns _ _ _ _ _ _ _ Hr) as [Hn Hd _]. assert (size (objs w) = length (addrs xs)) as ->.
  { rewrite <- size_dom, Hd, union_empty_r_L, size_list_to_set by done. done. }
  assert (forall ys, length (addrs ys) <= length ys)%nat as Hle by (induction ys as [|y ys IHy]; [done|]; rewrite addrs_cons; destruct (naddr y); cbn; lia).
  split; [apply Hle|]. intros Env. pose proof (r_nodes _ _ _ _ _ _ _ Hr) as Hnd. fold xs in Hnd. clear -Hnd Env. induction Hnd as [|x ys [_ Hx] _ IHy]; [done|]. rewrite Env in Hx.
  rewrite addrs_cons, naddr_some by by destruct (normal_addr _ Hx) as (_ & ? & _). cbn. by rewrite IHy.
Qed.
End Map.
