(* ===== verification/DictScan.v ===== *)
(** * The reversed cursor

    [rev] of [dict.c] reverses 64 bits, so that a cursor is a number whose high bits are the low bits
    of the bucket index.  Read that way a scan step advances the cursor to the next multiple of a
    power of two, whatever the size of the table. *)

From S2P Require Import Prelude Dict DictChain DictRep DictRehash DictEdit DictDelete DictMap.

(** ** Bit reversal *)

(** One turn of the loop of [rev]. *)
Definition rev_turn (s mask v : Z) : Z := Z.lor (Z.land (Z.shiftr v s) mask) (Z.land (u64 (Z.shiftl v s)) (u64 (Z.lnot mask))).

Definition turns_ok (s mask : Z) : bool :=
  (0 <=? s) &&
  forallb (fun i => if Z.testbit mask i then Z.lxor i s =? i + s else negb (Z.testbit mask i) && (Z.lxor i s =? i - s) && (s <=? i) && Z.testbit (u64 (Z.lnot mask)) i)
    (seqZ 0 64).

Lemma testbit_u64 x i : 0 <= i < 64 -> Z.testbit (u64 x) i = Z.testbit x i.
Proof. intros Hi. unfold wrap_u. by rewrite Z.mod_pow2_bits_low by lia. Qed.

Lemma rev_turn_bit s mask v i : turns_ok s mask = true -> 0 <= i < 64 -> Z.testbit (rev_turn s mask v) i = Z.testbit v (Z.lxor i s).
Proof.
  intros Hok Hi. unfold turns_ok in Hok. apply andb_true_iff in Hok as [Hs%Z.leb_le Hok]. rewrite forallb_forall in Hok. specialize (Hok i).
  rewrite <- list_elem_of_In, elem_of_seqZ in Hok. specialize (Hok ltac:(lia)). unfold rev_turn. rewrite Z.lor_spec, !Z.land_spec.
  rewrite Z.shiftr_spec, (testbit_u64 (Z.shiftl v s)), Z.shiftl_spec by lia. destruct (Z.testbit mask i) eqn:Em.
  - apply Z.eqb_eq in Hok. rewrite Hok. assert (Z.testbit (u64 (Z.lnot mask)) i = false) as -> by (rewrite testbit_u64, Z.lnot_spec, Em by lia; done).
    by rewrite andb_true_r, andb_false_r, orb_false_r.
  - repeat (apply andb_true_iff in Hok as [Hok ?]). rewrite H. apply Z.eqb_eq in H1. by rewrite H1, andb_false_r, andb_true_r.
Qed.

Lemma rev_turn_range s mask v : in_u 64 mask -> 0 <= v -> in_u 64 (rev_turn s mask v).
Proof.
  intros [Hm0 Hm] Hv. pose proof (wrap_u_range 64 (Z.lnot mask) ltac:(lia)) as [Hl0 Hl]. pose proof (wrap_u_range 64 (Z.shiftl v s) ltac:(lia)) as [Hs0 Hs].
  unfold rev_turn. set (a := Z.land (Z.shiftr v s) mask). set (b := Z.land _ (u64 (Z.lnot mask))).
  assert (0 <= Z.shiftr v s) as Hsh by by apply Z.shiftr_nonneg.
  assert (0 <= a) as Ha by (apply Z.land_nonneg; by left). assert (0 <= b) as Hb by (apply Z.land_nonneg; by left). split; [by apply Z.lor_nonneg|].
  destruct (Z.eq_dec (Z.lor a b) 0) as [->|Hne]; [lia|]. assert (0 <= Z.lor a b) by (by apply Z.lor_nonneg). apply Z.log2_lt_pow2; [lia|].
  rewrite Z.log2_lor by done. assert (forall x y, 0 <= x -> 0 <= y < 2 ^ 64 -> Z.log2 (Z.land x y) < 64) as Hlog.
  { intros x y Hx Hy. eapply Z.le_lt_trans; [apply Z.log2_land; lia|]. eapply Z.le_lt_trans; [apply Z.le_min_r|]. destruct (Z.eq_dec y 0) as [->|]; [cbn; lia|]. apply Z.log2_lt_pow2; lia. }
  apply Z.max_lub_lt; apply Hlog; lia.
Qed.

Definition M32 : Z := 0xffffffff.
Definition M16 : Z := 0xffff0000ffff.
Definition M8 : Z := 0xff00ff00ff00ff.
Definition M4 : Z := 0xf0f0f0f0f0f0f0f.
Definition M2 : Z := 0x3333333333333333.
Definition M1 : Z := 0x5555555555555555.

Lemma rev_turns v : rev v = rev_turn 1 M1 (rev_turn 2 M2 (rev_turn 4 M4 (rev_turn 8 M8 (rev_turn 16 M16 (rev_turn 32 M32 v))))).
Proof. reflexivity. Qed.

Lemma rev_range v : 0 <= v -> in_u 64 (rev v).
Proof.
  intros Hv. rewrite rev_turns. apply rev_turn_range; [done|]. repeat (apply rev_turn_range; [done|]). done.
Qed.

Lemma lxor_63 i : 0 <= i < 64 -> Z.lxor (Z.lxor (Z.lxor (Z.lxor (Z.lxor (Z.lxor i 1) 2) 4) 8) 16) 32 = 63 - i.
Proof.
  intros Hi. assert (forallb (fun i => Z.lxor (Z.lxor (Z.lxor (Z.lxor (Z.lxor (Z.lxor i 1) 2) 4) 8) 16) 32 =? 63 - i) (seqZ 0 64) = true) as H by (vm_compute; done).
  rewrite forallb_forall in H. apply Z.eqb_eq, H. rewrite <- list_elem_of_In, elem_of_seqZ. lia.
Qed.

Lemma lxor_range i s : 0 <= i < 64 -> 0 <= s < 64 -> 0 <= Z.lxor i s < 64.
Proof.
  intros Hi Hs. assert (0 <= Z.lxor i s) by (apply Z.lxor_nonneg; lia). split; [done|]. destruct (Z.eq_dec (Z.lxor i s) 0) as [->|]; [lia|].
  change 64 with (2 ^ 6). apply Z.log2_lt_pow2; [lia|]. eapply Z.le_lt_trans; [apply Z.log2_lxor; lia|].
  assert (forall x, 0 <= x < 64 -> Z.log2 x < 6) as Hl by (intros x Hx; destruct (Z.eq_dec x 0) as [->|]; [cbn; lia|apply Z.log2_lt_pow2; lia]).
  apply Z.max_lub_lt; by apply Hl.
Qed.

Lemma rev_bit v i : 0 <= i < 64 -> Z.testbit (rev v) i = Z.testbit v (63 - i).
Proof.
  intros Hi. rewrite rev_turns, <- (lxor_63 i Hi). repeat (rewrite rev_turn_bit; [|by vm_compute|repeat apply lxor_range; lia]). done.
Qed.

#[global] Opaque rev.

(** Numbers of 64 bits are the same when their bits are. *)
Lemma bits64_inj a b : in_u 64 a -> in_u 64 b -> (forall i, 0 <= i < 64 -> Z.testbit a i = Z.testbit b i) -> a = b.
Proof.
  intros Ha Hb Hbit. apply Z.bits_inj'. intros i Hi. destruct (decide (i < 64)); [by apply Hbit|].
  assert (forall x, in_u 64 x -> Z.testbit x i = false) as Hz; [|by rewrite !Hz].
  intros x [H0 Hx]. destruct (Z.eq_dec x 0) as [->|]; [apply Z.bits_0|]. apply Z.bits_above_log2; [done|]. assert (Z.log2 x < 64) by (apply Z.log2_lt_pow2; lia). lia.
Qed.

Lemma rev_rev v : in_u 64 v -> rev (rev v) = v.
Proof.
  intros Hv. apply bits64_inj; [apply rev_range, rev_range, Hv|done|]. intros i Hi. rewrite !rev_bit by lia. f_equal. lia.
Qed.

(** ** Buckets and cursors *)

Lemma testbit_shift x k i : 0 <= k -> 0 <= i -> Z.testbit (x / 2 ^ k) i = Z.testbit x (i + k).
Proof. intros. rewrite <- Z.shiftr_div_pow2 by done. by apply Z.shiftr_spec. Qed.

(** The same prefix of the reversed number, the same bucket. *)
Lemma same_bucket h v k : 0 <= k <= 64 -> rev h / 2 ^ (64 - k) = rev v / 2 ^ (64 - k) -> h mod 2 ^ k = v mod 2 ^ k.
Proof.
  intros Hk E. apply Z.bits_inj'. intros i Hi. destruct (decide (i < k)); [|by rewrite !Z.mod_pow2_bits_high by lia]. rewrite !Z.mod_pow2_bits_low by done.
  assert (forall x, Z.testbit x i = Z.testbit (rev x / 2 ^ (64 - k)) (k - 1 - i)) as Hx.
  { intros x. rewrite testbit_shift, rev_bit by lia. f_equal. lia. }
  by rewrite (Hx h), (Hx v), E.
Qed.

Lemma lor_ones r n : 0 <= r -> 0 <= n -> Z.lor r (Z.ones n) = (r / 2 ^ n) * 2 ^ n + Z.ones n.
Proof.
  intros Hr Hn. assert (Z.land ((r / 2 ^ n) * 2 ^ n) (Z.ones n) = 0) as E0 by (rewrite Z.land_ones, Z.mod_mul by (try apply Z.pow_nonzero; lia); done).
  rewrite Z.add_nocarry_lxor, Z.lxor_lor by done. apply Z.bits_inj'. intros i Hi. rewrite !Z.lor_spec. destruct (decide (i < n)).
  - by rewrite Z.ones_spec_low, !orb_true_r by lia.
  - rewrite Z.ones_spec_high, !orb_false_r by lia. rewrite <- Z.shiftl_mul_pow2, Z.shiftl_spec, testbit_shift by lia. f_equal. lia.
Qed.

(** The cursor after a step with the mask of [2 ^ k] buckets, read backwards. *)
Lemma next_cursor_rev v k : in_u 64 v -> 0 <= k <= 63 ->
  rev (next_cursor v (2 ^ k - 1)) = ((rev v / 2 ^ (64 - k) + 1) * 2 ^ (64 - k)) mod 2 ^ 64 /\ in_u 64 (next_cursor v (2 ^ k - 1)).
Proof.
  intros Hv Hk. unfold next_cursor. pose proof (rev_range v ltac:(destruct Hv; lia)) as Hr.
  assert (rev (Z.lor v (u64 (Z.lnot (2 ^ k - 1)))) = Z.lor (rev v) (Z.ones (64 - k))) as ->.
  { pose proof (wrap_u_range 64 (Z.lnot (2 ^ k - 1)) ltac:(lia)) as Hw. assert (in_u 64 (Z.lor (rev v) (Z.ones (64 - k)))) as Hlor.
    { destruct Hr as [Hr0 Hr]. assert (0 <= Z.ones (64 - k)) by (rewrite Z.ones_equiv; pose proof (Z.pow_pos_nonneg 2 (64 - k)); lia).
      split; [by apply Z.lor_nonneg|]. rewrite lor_ones by lia. rewrite Z.ones_equiv. pose proof (Z.pow_pos_nonneg 2 (64 - k) ltac:(lia) ltac:(lia)) as Hp.
      assert (rev v / 2 ^ (64 - k) < 2 ^ k) as Hq by (apply Z.div_lt_upper_bound; [done|]; rewrite <- Z.pow_add_r by lia; by replace (64 - k + k) with 64 by lia).
      assert (2 ^ 64 = 2 ^ k * 2 ^ (64 - k)) as E by (rewrite <- Z.pow_add_r by lia; f_equal; lia). nia. }
    apply bits64_inj; [|done|].
    { apply rev_range, Z.lor_nonneg. destruct Hv, Hw. done. }
    intros i Hi. rewrite rev_bit, !Z.lor_spec, rev_bit, testbit_u64, Z.lnot_spec by lia. f_equal. rewrite Z.sub_1_r, <- Z.ones_equiv.
    destruct (decide (i < 64 - k)); [rewrite Z.ones_spec_high, Z.ones_spec_low by lia|rewrite Z.ones_spec_low, Z.ones_spec_high by lia]; done. }
  rewrite lor_ones by (destruct Hr; lia). rewrite Z.ones_equiv. replace (_ + Z.pred _ + 1) with ((rev v / 2 ^ (64 - k) + 1) * 2 ^ (64 - k)) by lia.
  split; [apply rev_rev, wrap_u_range; lia|]. apply rev_range. pose proof (wrap_u_range 64 ((rev v / 2 ^ (64 - k) + 1) * 2 ^ (64 - k)) ltac:(lia)) as [? ?]. done.
Qed.

(** ** The scan of a dictionary misses nothing

    One call of [dictScan] gives every entry whose reversed hash value lies between the reversed
    cursors before and after it, in a table of any size and in the middle of a rehash.  So a scan
    that runs to its end has given every key that was there at each call, whatever was added,
    deleted, resized or rehashed in between. *)

(** ** Prefixes of reversed numbers *)

(** Between a cursor and the next one there is one prefix. *)
Lemma same_prefix r x B q : 0 < B -> 2 ^ 64 = q * B -> 0 <= r < 2 ^ 64 -> r <= x < 2 ^ 64 ->
  (x < ((r / B + 1) * B) mod 2 ^ 64 \/ ((r / B + 1) * B) mod 2 ^ 64 = 0) -> x / B = r / B.
Proof.
  intros HB Eq Hr Hx H. assert (r / B <= x / B) as Hle by (apply Z.div_le_mono; lia). enough (x < (r / B + 1) * B) as Hlt.
  { assert (x / B < r / B + 1) by (apply Z.div_lt_upper_bound; lia). lia. }
  assert (r / B < q) as Hq by (apply Z.div_lt_upper_bound; lia). pose proof (Z.div_pos r B ltac:(lia) HB).
  destruct (decide (r / B + 1 = q)) as [E|]; [rewrite E, <- Eq; lia|]. rewrite Z.mod_small in H by nia. destruct H; nia.
Qed.

Lemma next_zero r B q : 0 < B -> 2 ^ 64 = q * B -> 0 <= r < 2 ^ 64 ->
  ((r / B + 1) * B) mod 2 ^ 64 = 0 \/ ((r / B + 1) * B) mod 2 ^ 64 = (r / B + 1) * B.
Proof.
  intros HB Eq Hr. assert (r / B < q) as Hq by (apply Z.div_lt_upper_bound; lia). pose proof (Z.div_pos r B ltac:(lia) HB).
  destruct (decide (r / B + 1 = q)) as [E|]; [left; by rewrite E, <- Eq, Z.mod_same|right]. apply Z.mod_small. nia.
Qed.

Lemma testbit_below_mod x n : 0 <= n -> x mod 2 ^ n = 0 <-> forall i, 0 <= i < n -> Z.testbit x i = false.
Proof.
  intros Hn. split.
  - intros E i Hi. rewrite <- (Z.mod_pow2_bits_low x n i) by lia. by rewrite E, Z.bits_0.
  - intros H. apply Z.bits_inj'. intros i Hi. rewrite Z.bits_0. destruct (decide (i < n)); [by rewrite Z.mod_pow2_bits_low, H by lia|by rewrite Z.mod_pow2_bits_high by lia].
Qed.

(** [v & (m0 ^ m1)] is zero when the reversed cursor is back at the prefix of a small bucket. *)
Lemma expansion_done v k0 k1 : 0 <= k0 <= k1 -> k1 <= 63 ->
  Z.land v (Z.lxor (2 ^ k0 - 1) (2 ^ k1 - 1)) = 0 <-> (rev v / 2 ^ (64 - k1)) mod 2 ^ (k1 - k0) = 0.
Proof.
  intros H01 H1. rewrite testbit_below_mod by lia. rewrite !Z.sub_1_r, <- !Z.ones_equiv.
  assert (forall j, 0 <= j -> Z.testbit (Z.lxor (Z.ones k0) (Z.ones k1)) j = bool_decide (k0 <= j < k1)) as Hm.
  { intros j Hj. rewrite Z.lxor_spec, !Z.testbit_ones by lia. destruct (Z.leb_spec 0 j), (Z.ltb_spec j k0), (Z.ltb_spec j k1); cbn; symmetry; (apply bool_decide_eq_true || apply bool_decide_eq_false); lia. }
  split.
  - intros E i Hi. rewrite testbit_shift, rev_bit by lia. replace (63 - (i + (64 - k1))) with (k1 - 1 - i) by lia.
    assert (Z.testbit (Z.land v (Z.lxor (Z.ones k0) (Z.ones k1))) (k1 - 1 - i) = false) as Hb by by rewrite E, Z.bits_0.
    rewrite Z.land_spec, Hm, bool_decide_true, andb_true_r in Hb by lia. done.
  - intros H. apply Z.bits_inj'. intros j Hj. rewrite Z.bits_0, Z.land_spec, Hm by lia. case_bool_decide as Hc; [|apply andb_false_r].
    rewrite andb_true_r. specialize (H (k1 - 1 - j) ltac:(lia)). rewrite testbit_shift, rev_bit in H by lia. by replace (63 - (k1 - 1 - j + (64 - k1))) with j in H by lia.
Qed.

Lemma rev_0 : rev 0 = 0.
Proof. apply bits64_inj; [by apply rev_range|done|]. intros i Hi. by rewrite rev_bit, !Z.bits_0 by lia. Qed.
Lemma rev_zero v : in_u 64 v -> rev v = 0 <-> v = 0.
Proof. intros Hv. split; [intros E; by rewrite <- (rev_rev v Hv), E, rev_0|intros ->; apply rev_0]. Qed.

Lemma mask_pow e : 0 <= e < 64 -> DICTHT_SIZE_MASK e = 2 ^ e - 1.
Proof. intros He. unfold DICTHT_SIZE_MASK. rewrite (proj2 (Z.eqb_neq _ _)) by lia. by rewrite size_pow. Qed.

Section Scan.
Context `{Zm : !Zmalloc} {K : Type} `{EqK : EqDecision K} `{CntK : !Countable K} (ty : dictType) (kname : Z -> K) (Hlaw : lawful ty kname).
Notation rep := (rep ty kname).
Definition rhash (n : node) : Z := rev (hashFunction ty (nkey n)).

Lemma rhash_range n : 0 <= rhash n < 2 ^ 64.
Proof. apply rev_range. pose proof (l_range _ _ Hlaw (nkey n)) as [? ?]. done. Qed.

(** ** One bucket *)

Lemma emit_bucket_ok w d b0 b1 ext t v :
  rep w d b0 b1 ext -> has_table (ht_at d t) ->
  exists xs, emit_bucket w d t (Z.land v (mask_of d t)) = inr (nptr <$> xs) /\ (forall n, n ∈ xs -> n ∈ concat (pick t b0 b1)) /\
    forall n, n ∈ concat (pick t b0 b1) -> rhash n / 2 ^ (64 - ht_size_exp (ht_at d t)) = rev v / 2 ^ (64 - ht_size_exp (ht_at d t)) -> n ∈ xs.
Proof.
  intros Hr Ht. destruct (rep_pick ty kname w d b0 b1 ext t Hr) as (Hb & _ & Hpl). unfold emit_bucket.
  destruct (bucket_of_hash (objs w) d t _ v Ht Hb) as (p & xs & Em & H0 & -> & _ & Hx & Hc). cbn [mbind result_bind]. exists xs.
  assert (forall n, n ∈ xs -> n ∈ concat (pick t b0 b1)) as Hsub by (intros n Hn; apply elem_of_concat_lookup; eauto).
  split; [|split; [done|]].
  - apply emit_ok; [done|]. apply (chain_length _ p); [done|]. destruct (r_owns _ _ _ _ _ _ _ Hr) as [Hnd _ _]. rewrite addrs_app in Hnd.
    apply NoDup_app in Hnd as (Hn0 & _ & Hn1). assert (NoDup (addrs (concat (pick t b0 b1)))) as Hnd by by destruct t.
    rewrite (concat_get _ _ _ Hx), addrs_app in Hnd. by apply NoDup_app in Hnd as (? & _).
  - intros n Hn E. apply elem_of_concat_lookup in Hn as (i & ys & Hi & Hn). pose proof (Hpl i ys n Hi Hn) as Eh. destruct Ht as (_ & He & _).
    apply same_bucket in E; [|lia]. rewrite Em in Hx. rewrite <- E, Eh, Nat2Z.id in Hx. rewrite Hx in Hi. by injection Hi as ->.
Qed.

(** ** The expansions of a bucket *)

Lemma scan_expansions_ok fuel w d b0 b1 ext t k0 v :
  rep w d b0 b1 ext -> has_table (ht_at d t) -> let k1 := ht_size_exp (ht_at d t) in let B := 2 ^ (64 - k1) in let D := 2 ^ (k1 - k0) in let q := rev v / B in
  0 <= k0 <= k1 -> in_u 64 v -> D - q mod D <= Z.of_nat fuel ->
  exists xs v', scan_expansions fuel w d t (2 ^ k0 - 1) (mask_of d t) v = inr (nptr <$> xs, v') /\ in_u 64 v' /\
    rev v' = ((q / D + 1) * D * B) mod 2 ^ 64 /\ (forall n, n ∈ xs -> n ∈ concat (pick t b0 b1)) /\
    forall n, n ∈ concat (pick t b0 b1) -> q <= rhash n / B < (q / D + 1) * D -> n ∈ xs.
Proof.
  intros Hr Ht k1 B D. pose proof Ht as (_ & He & _). fold k1 in He. assert (mask_of d t = 2 ^ k1 - 1) as Emask by (unfold mask_of; rewrite mask_pow by lia; done).
  revert v. induction fuel as [|fuel IH]; intros v q Hk Hv Hf.
  { pose proof (Z.mod_pos_bound q D ltac:(apply Z.pow_pos_nonneg; lia)). lia. }
  assert (0 < D) as HD by (apply Z.pow_pos_nonneg; lia). assert (0 < B) as HB by (apply Z.pow_pos_nonneg; lia). cbn [scan_expansions].
  destruct (emit_bucket_ok w d b0 b1 ext t v Hr Ht) as (xs & -> & Hsub & Hxs). fold k1 B q in Hxs. cbn [mbind result_bind].
  rewrite Emask. destruct (next_cursor_rev v k1 Hv ltac:(lia)) as [Er1 Hv1]. fold B q in Er1. set (v1 := next_cursor v (2 ^ k1 - 1)) in *.
  pose proof (rev_range v ltac:(destruct Hv; lia)) as Hrv. pose proof (Z.div_pos (rev v) B ltac:(destruct Hrv; lia) HB) as Hq0. fold q in Hq0.
  assert (2 ^ 64 = 2 ^ k0 * D * B) as E64 by (unfold D, B; rewrite <- !Z.pow_add_r by lia; f_equal; lia).
  assert (q < 2 ^ k0 * D) as Hq by (unfold q; apply Z.div_lt_upper_bound; [lia|]; destruct Hrv; lia).
  pose proof (expansion_done v1 k0 k1 Hk ltac:(lia)) as Hdone. fold B D in Hdone.
  assert ((rev v1 / B) mod D = 0 <-> (q + 1) mod D = 0) as Hiff.
  { rewrite Er1. destruct (decide (q + 1 = 2 ^ k0 * D)) as [E|].
    - rewrite E, <- E64, Z.mod_same, Z.div_0_l, Z.mod_0_l, Z.mod_mul by lia. done.
    - rewrite (Z.mod_small ((q + 1) * B)), Z.div_mul by nia. done. }
  rewrite Hiff in Hdone. clear Hiff. destruct (Z.eqb_spec (Z.land v1 (Z.lxor (2 ^ k0 - 1) (2 ^ k1 - 1))) 0) as [Ez|Hnz]; cbn [negb].
  - apply Hdone in Ez. assert ((q / D + 1) * D = q + 1) as Eq.
    { pose proof (Z.div_mod (q + 1) D ltac:(lia)) as Edm. rewrite Ez in Edm. assert (q / D = (q + 1) / D - 1) as ->; [|lia].
      symmetry. apply (Z.div_unique _ _ _ (D - 1)); lia. }
    exists xs, v1. split; [done|]. split; [done|]. rewrite Eq. split; [done|]. split; [done|]. intros n Hn Hrange. apply Hxs; [done|]. lia.
  - assert ((q + 1) mod D <> 0) as Hmod by tauto. assert (q + 1 <> 2 ^ k0 * D) as Hlast by (intros E; apply Hmod; rewrite E; apply Z.mod_mul; lia).
    assert (rev v1 / B = q + 1) as Eq1 by (rewrite Er1, (Z.mod_small ((q + 1) * B)), Z.div_mul by nia; done).
    assert ((q + 1) / D = q / D /\ (q + 1) mod D = q mod D + 1) as [Ediv Emod].
    { pose proof (Z.div_mod q D ltac:(lia)) as Edm. pose proof (Z.mod_pos_bound q D HD) as Hb. assert (q mod D + 1 <> D) as Hne.
      { intros E. apply Hmod. replace (q + 1) with ((q / D + 1) * D) by lia. apply Z.mod_mul. lia. }
      split; symmetry; [apply (Z.div_unique _ _ _ (q mod D + 1)); lia|apply (Z.mod_unique _ _ (q / D)); lia]. }
    destruct (IH v1 Hk Hv1) as (ys & v' & Escan & Hv' & Er' & Hsub' & Hys); [rewrite Eq1, Emod; lia|]. rewrite Emask in Escan. rewrite Escan. cbn [mbind result_bind mret result_ret].
    rewrite Eq1, Ediv in *. exists (xs ++ ys), v'. rewrite fmap_app. split; [done|]. split; [done|]. split; [done|]. split.
    + intros n [Hn|Hn]%elem_of_app; [by apply Hsub|by apply Hsub'].
    + intros n Hn Hrange. apply elem_of_app. destruct (decide (rhash n / B = q)) as [E|]; [left; by apply Hxs|]. right. apply Hys; [done|]. lia.
Qed.

(** ** One call *)

Lemma rep_pause w d b0 b1 ext p : rep w d b0 b1 ext -> rep w (set_pauserehash d p) b0 b1 ext.
Proof. intros []. by split. Qed.
Lemma pause_resume d : in_s 16 (pauserehash d) -> dictResumeRehashing (dictPauseRehashing d) = d.
Proof.
  intros Hpr. unfold dictResumeRehashing, dictPauseRehashing. cbn [pauserehash set_pauserehash]. assert (i16 (i16 (pauserehash d + 1) - 1) = pauserehash d) as E.
  { unfold wrap_s. replace ((pauserehash d + 1 + 2 ^ (16 - 1)) mod 2 ^ 16 - 2 ^ (16 - 1) - 1 + 2 ^ (16 - 1)) with ((pauserehash d + 1 + 2 ^ (16 - 1)) mod 2 ^ 16 - 1) by lia.
    rewrite Zminus_mod_idemp_l. unfold in_s in Hpr. rewrite Z.mod_small by lia. lia. }
  unfold set_pauserehash. cbn. rewrite E. by destruct d.
Qed.

(** What a call gives: the entries up to the new cursor, and a cursor that has moved on by 16 at least. *)
Definition covers (xs all : list node) (v v' : Z) : Prop :=
  in_u 64 v' /\ (forall n, n ∈ xs -> n ∈ all) /\ (forall n, n ∈ all -> rev v <= rhash n -> rhash n < rev v' \/ v' = 0 -> n ∈ xs) /\
  (v' <> 0 -> 16 * (rev v / 16) + 16 <= rev v').

Lemma progress16 r k : 0 <= k <= 60 -> 0 <= r -> 16 * (r / 16) + 16 <= (r / 2 ^ (64 - k) + 1) * 2 ^ (64 - k).
Proof.
  intros Hk Hr. assert (2 ^ (64 - k) = 2 ^ (60 - k) * 16) as -> by (change 16 with (2 ^ 4); rewrite <- Z.pow_add_r by lia; f_equal; lia).
  pose proof (Z.pow_pos_nonneg 2 (60 - k) ltac:(lia) ltac:(lia)) as Hp. rewrite (Z.mul_comm (2 ^ (60 - k))), <- Z.div_div by lia.
  pose proof (Z.mul_succ_div_gt (r / 16) (2 ^ (60 - k)) ltac:(lia)). nia.
Qed.

Lemma scan_one_ok w d b0 b1 ext v :
  rep w d b0 b1 ext -> idle d -> has_table (ht0 d) -> in_u 64 v ->
  exists xs, emit_bucket w d false (Z.land v (mask_of d false)) = inr (nptr <$> xs) /\ covers xs (concat b0 ++ concat b1) v (next_cursor v (mask_of d false)).
Proof.
  intros Hr (_ & E1 & _) Ht Hv. destruct (emit_bucket_ok w d b0 b1 ext false v Hr Ht) as (xs & -> & Hsub & Hxs). exists xs. split; [done|]. cbn [pick ht_at] in *.
  pose proof (r_tbl1 _ _ _ _ _ _ _ Hr) as T. rewrite E1 in T. apply Forall2_nil_inv_l in T as ->. rewrite app_nil_r. pose proof Ht as (_ & He & _).
  set (k := ht_size_exp (ht0 d)) in *. assert (mask_of d false = 2 ^ k - 1) as -> by (unfold mask_of; rewrite mask_pow by (cbn; fold k; lia); done).
  destruct (next_cursor_rev v k Hv ltac:(lia)) as [Er Hv']. set (v' := next_cursor v (2 ^ k - 1)) in *. set (B := 2 ^ (64 - k)) in *.
  assert (0 < B) as HB by (apply Z.pow_pos_nonneg; lia). assert (2 ^ 64 = 2 ^ k * B) as E64 by (unfold B; rewrite <- Z.pow_add_r by lia; f_equal; lia).
  pose proof (rev_range v ltac:(destruct Hv; lia)) as [Hr0 Hr1]. split; [done|]. split; [done|]. split.
  - intros n Hn Hle Hlt. apply Hxs; [done|]. apply (same_prefix (rev v) (rhash n) B (2 ^ k)); try done; [pose proof (rhash_range n); lia|].
    rewrite <- Er. destruct Hlt as [|E]; [by left|right]. exact (proj2 (rev_zero v' Hv') E).
  - intros Hne. assert (rev v' <> 0) as Hne' by (intros E; apply Hne; exact (proj1 (rev_zero v' Hv') E)). rewrite Er in *.
    destruct (next_zero (rev v) B (2 ^ k) HB E64 ltac:(lia)) as [E|E]; [done|]. rewrite E. apply progress16; lia.
Qed.

(** The smaller table first, then the buckets of the larger one that expand the cursor. *)
Lemma scan_both_ok w d b0 b1 ext v (t0 : bool) :
  rep w d b0 b1 ext -> has_table (ht_at d t0) -> has_table (ht_at d (negb t0)) -> ht_size_exp (ht_at d t0) <= ht_size_exp (ht_at d (negb t0)) -> in_u 64 v ->
  exists xs ys v', emit_bucket w d t0 (Z.land v (mask_of d t0)) = inr (nptr <$> xs) /\
    scan_expansions (length (slots (ht_at d (negb t0)))) w d (negb t0) (mask_of d t0) (mask_of d (negb t0)) v = inr (nptr <$> ys, v') /\
    covers (xs ++ ys) (concat b0 ++ concat b1) v v'.
Proof.
  intros Hr Ht0 Ht1 Hle Hv. destruct (emit_bucket_ok w d b0 b1 ext t0 v Hr Ht0) as (xs & -> & Hsub & Hxs). pose proof Ht0 as (_ & He0 & _). pose proof Ht1 as (_ & He1 & Hlen).
  set (k0 := ht_size_exp (ht_at d t0)) in *. set (k1 := ht_size_exp (ht_at d (negb t0))) in *.
  assert (mask_of d t0 = 2 ^ k0 - 1) as -> by (unfold mask_of; fold k0; by rewrite mask_pow by lia).
  destruct (scan_expansions_ok (length (slots (ht_at d (negb t0)))) w d b0 b1 ext (negb t0) k0 v Hr Ht1) as (ys & v' & -> & Hv' & Er & Hsub' & Hys); fold k1; [lia|done| |].
  { pose proof (Z.mod_pos_bound (rev v / 2 ^ (64 - k1)) (2 ^ (k1 - k0)) ltac:(apply Z.pow_pos_nonneg; lia)). rewrite Hlen. fold k1.
    assert (2 ^ (k1 - k0) <= 2 ^ k1) by (apply Z.pow_le_mono_r; lia). lia. }
  fold k1 in Er, Hys. set (B0 := 2 ^ (64 - k0)) in *. set (B1 := 2 ^ (64 - k1)) in *. set (D := 2 ^ (k1 - k0)) in *.
  assert (0 < B1) as HB1 by (apply Z.pow_pos_nonneg; lia). assert (0 < D) as HD by (apply Z.pow_pos_nonneg; lia).
  assert (B0 = B1 * D) as EB by (unfold B0, B1, D; rewrite <- Z.pow_add_r by lia; f_equal; lia).
  assert (forall x, x / B1 / D = x / B0) as Ediv by (intros x; rewrite EB; apply Z.div_div; lia). rewrite Ediv in *.
  replace ((rev v / B0 + 1) * D * B1) with ((rev v / B0 + 1) * B0) in Er by (rewrite EB; lia).
  assert (2 ^ 64 = 2 ^ k0 * B0) as E64 by (unfold B0; rewrite <- Z.pow_add_r by lia; f_equal; lia). assert (0 < B0) as HB0 by lia.
  pose proof (rev_range v ltac:(destruct Hv; lia)) as [Hr0 Hr1]. exists xs, ys, v'. split; [done|]. split; [done|]. split; [done|]. split; [|split].
  - intros n [Hn|Hn]%elem_of_app; apply elem_of_app; [specialize (Hsub n Hn)|specialize (Hsub' n Hn)]; destruct t0; cbn in *; tauto.
  - intros n Hn Hlo Hhi. assert (rhash n / B0 = rev v / B0) as Epre.
    { apply (same_prefix (rev v) (rhash n) B0 (2 ^ k0)); try done; [pose proof (rhash_range n); lia|]. rewrite <- Er. destruct Hhi as [|E]; [by left|right]. exact (proj2 (rev_zero v' Hv') E). }
    assert (n ∈ concat (pick t0 b0 b1) \/ n ∈ concat (pick (negb t0) b0 b1)) as [Hin|Hin] by (apply elem_of_app in Hn; destruct t0; cbn; tauto).
    + apply elem_of_app. left. by apply Hxs.
    + apply elem_of_app. right. apply Hys; [done|]. split; [by apply Z.div_le_mono|]. rewrite <- Epre, <- Ediv. pose proof (Z.mul_succ_div_gt (rhash n / B1) D HD). lia.
  - intros Hne. assert (rev v' <> 0) as Hne' by (intros E; apply Hne; exact (proj1 (rev_zero v' Hv') E)). rewrite Er in *.
    destruct (next_zero (rev v) B0 (2 ^ k0) HB0 E64 ltac:(lia)) as [E|E]; [done|]. rewrite E. apply progress16; lia.
Qed.

Lemma dictScan_ok w d b0 b1 ext v :
  rep w d b0 b1 ext -> small b0 b1 -> in_s 16 (pauserehash d) -> in_u 64 v ->
  exists xs v', dictScan w d v = inr (d, nptr <$> xs, v') /\ covers xs (concat b0 ++ concat b1) v v'.
Proof.
  intros Hr Hsm Hp Hv. unfold dictScan. rewrite (dictSize_ok ty kname w d b0 b1 ext Hr Hsm). destruct (Z.eqb_spec (len_ (concat b0 ++ concat b1)) 0) as [E|Hne].
  { exists [], 0. assert (concat b0 ++ concat b1 = []) as -> by (apply nil_length_inv; lia). split; [done|]. split; [done|]. split; [done|]. split; [|done]. by intros n ?%elem_of_nil. }
  pose proof (rep_pause w d b0 b1 ext (i16 (pauserehash d + 1)) Hr) as Hr'. fold (dictPauseRehashing d) in Hr'. set (d1 := dictPauseRehashing d) in *.
  assert (has_table (ht0 d1)) as Ht by (eapply table_if_nodes; [exact Hr'|intros E; by rewrite E in Hne]).
  pose proof (is_rehashing _ _ _ _ _ _ _ Hr') as Hm. pose proof (pause_resume d Hp) as Eres. fold d1 in Eres. destruct (dictIsRehashing d1); cbn [negb].
  - destruct Hm as (_ & Hh0 & Hh1 & _). set (t0 := DICTHT_SIZE (ht_size_exp (ht1 d1)) <? DICTHT_SIZE (ht_size_exp (ht0 d1))).
    destruct (scan_both_ok w d1 b0 b1 ext v t0 Hr') as (xs & ys & v' & -> & Escan & Hcov); [by destruct t0|by destruct t0| |done|].
    { unfold t0. rewrite !size_pow by (destruct Hh0 as (_ & ? & _), Hh1 as (_ & ? & _); lia).
      destruct (Z.ltb_spec (2 ^ ht_size_exp (ht1 d1)) (2 ^ ht_size_exp (ht0 d1))) as [Hlt|Hge]; cbn [ht_at negb].
      - apply Z.pow_lt_mono_r_iff in Hlt; [lia|lia|]. destruct Hh0; lia.
      - apply Z.pow_le_mono_r_iff in Hge; [lia|lia|]. destruct Hh1; lia. }
    cbn [mbind result_bind]. rewrite Escan. cbn [mbind result_bind mret result_ret]. rewrite Eres, <- fmap_app. by exists (xs ++ ys), v'.
  - destruct (scan_one_ok w d1 b0 b1 ext v Hr' Hm Ht Hv) as (xs & -> & Hcov). cbn [mbind result_bind mret result_ret]. rewrite Eres. by eexists xs, _.
Qed.
End Scan.
