(* ===== verification/DictIter.v ===== *)
(** * Iterating over a dictionary

    [dictNext] walks the buckets of the first table and, while rehashing, of the second one.  The
    loops that visit every entry, and with a safe iterator may delete the entry just returned, see
    every key once. *)

From S2P Require Import Prelude Dict DictChain DictRep DictRehash DictEdit DictDelete DictMap DictScan.

Section Iter.
Context `{Zm : !Zmalloc} {K : Type} `{EqK : EqDecision K} `{CntK : !Countable K} (ty : dictType) (kname : Z -> K).
Notation rep := (rep ty kname).

(** The first pointer of a chain. *)
Definition head_ptr (xs : list node) : Z := match xs with [] => 0 | n :: _ => nptr n end.
Lemma chain_head m p xs : chain m p xs -> p = head_ptr xs.
Proof. destruct xs; [done|]. by intros [-> _]. Qed.

(** The entries after the bucket of the iterator, and how many buckets that are. *)
Definition later (it : dictIterator) (b0 b1 : list (list node)) : list node :=
  concat (drop (Z.to_nat (index it + 1)) (pick (table it) b0 b1)) ++ (if table it then [] else concat b1).
Definition buckets_left (it : dictIterator) (b0 b1 : list (list node)) : nat :=
  (length (drop (Z.to_nat (index it + 1)) (pick (table it) b0 b1)) + (if table it then 0 else length b1))%nat.

(** What the calls do not change. *)
Definition same_iter (it it' : dictIterator) : Prop := safe it' = safe it /\ fingerprint it' = fingerprint it.

Lemma table_length w d b0 b1 ext t : rep w d b0 b1 ext -> DICTHT_SIZE (ht_size_exp (ht_at d t)) = len_ (pick t b0 b1).
Proof.
  intros Hr. destruct (rep_pick ty kname w d b0 b1 ext t Hr) as (Hb & _). pose proof (Forall2_length _ _ _ Hb) as Hl.
  assert (no_table (ht_at d t) \/ has_table (ht_at d t)) as [(_ & E & ->)|(_ & He & Hs)].
  { destruct (r_mode _ _ _ _ _ _ _ Hr) as [(_ & E1 & H)|(_ & H0 & H1 & _)]; destruct t; cbn; auto. left. by rewrite E1. }
  - rewrite E in Hl. rewrite <- Hl. done.
  - rewrite size_pow by lia. lia.
Qed.

Lemma drop_nth {A} (b : list (list A)) i xs : b !! i = Some xs -> concat (drop i b) = xs ++ concat (drop (S i) b) /\ length (drop i b) = S (length (drop (S i) b)).
Proof. intros Hi. by rewrite (drop_S _ _ _ Hi). Qed.

Lemma bucket_at w d b0 b1 ext t i xs : rep w d b0 b1 ext -> 0 <= i -> pick t b0 b1 !! Z.to_nat i = Some xs -> bucket d t i = inr (head_ptr xs).
Proof.
  intros Hr Hi Hx. destruct (rep_pick ty kname w d b0 b1 ext t Hr) as (Hb & _). destruct (Forall2_lookup_r _ _ _ _ _ Hb Hx) as (p & Hp & Hc).
  rewrite (bucket_ok d t i p Hi Hp). by rewrite (chain_head _ _ _ Hc).
Qed.

(** One turn: the iteration is over, or the next bucket. *)
Lemma next_bucket_ok w d b0 b1 ext it :
  rep w d b0 b1 ext -> -1 <= index it -> (table it = true -> dictIsRehashing d = true) ->
  exists it', same_iter it it' /\ 0 <= index it' /\ (table it' = true -> dictIsRehashing d = true) /\
    ((next_bucket d it = inr (it', true) /\ later it b0 b1 = []) \/
     (exists xs, next_bucket d it = inr (it', false) /\ it_entry it' = head_ptr xs /\ pick (table it') b0 b1 !! Z.to_nat (index it') = Some xs /\
        later it b0 b1 = xs ++ later it' b0 b1 /\ (buckets_left it' b0 b1 < buckets_left it b0 b1)%nat)).
Proof.
  intros Hr Hi Ht. unfold next_bucket. rewrite (table_length w d b0 b1 ext _ Hr). pose proof (is_rehashing _ _ _ _ _ _ _ Hr) as Hm. destruct (Z.leb_spec (len_ (pick (table it) b0 b1)) (index it + 1)) as [Hge|Hlt].
  - assert (drop (Z.to_nat (index it + 1)) (pick (table it) b0 b1) = []) as Ed by (apply drop_ge; lia). unfold later, buckets_left. rewrite Ed. destruct (table it) eqn:Et; cbn [negb]; rewrite ?andb_false_r, ?andb_true_r.
    { exists (set_place it true (index it + 1) 0). split; [by split|]. split; [cbn; lia|]. split; [by cbn|]. by left. }
    destruct (dictIsRehashing d) eqn:Er.
    + destruct Hm as (_ & _ & (_ & He & Hs) & _). pose proof (Forall2_length _ _ _ (r_tbl1 _ _ _ _ _ _ _ Hr)) as Hl. destruct b1 as [|xs b1]; [cbn in Hl; pose proof (Z.pow_pos_nonneg 2 (ht_size_exp (ht1 d))); lia|].
      rewrite (bucket_at w d b0 (xs :: b1) ext true 0 xs Hr) by done. exists (set_place it true 0 (head_ptr xs)). split; [by split|]. split; [done|]. split; [done|]. right. exists xs. split; [done|]. split; [done|]. split; [done|]. cbn [set_place index table pick]. change (Z.to_nat (0 + 1)) with 1%nat. cbn. rewrite drop_0, app_nil_r. split; [done|lia].
    + destruct Hm as (_ & E1 & _). pose proof (r_tbl1 _ _ _ _ _ _ _ Hr) as T. rewrite E1 in T. apply Forall2_nil_inv_l in T as ->. exists (set_place it false (index it + 1) 0). split; [by split|]. split; [cbn; lia|]. split; [by cbn|]. by left.
  - destruct (lookup_lt_is_Some_2 (pick (table it) b0 b1) (Z.to_nat (index it + 1))) as [xs Hx]; [lia|]. rewrite (bucket_at w d b0 b1 ext (table it) (index it + 1) xs Hr ltac:(lia) Hx).
    exists (set_place it (table it) (index it + 1) (head_ptr xs)). split; [by split|]. split; [cbn; lia|]. split; [done|]. right. exists xs. split; [done|]. split; [done|]. split; [done|]. unfold later, buckets_left. cbn.
    destruct (drop_nth _ _ _ Hx) as [-> ->]. replace (Z.to_nat (index it + 1 + 1)) with (S (Z.to_nat (index it + 1))) by lia. rewrite app_assoc. split; [done|lia].
Qed.

(** The iterator has just returned an entry; [rest] are the ones to come. *)
Definition placed_at (d : dict) (b0 b1 : list (list node)) (it : dictIterator) (rest : list node) : Prop :=
  it_entry it <> 0 /\ 0 <= index it /\ (table it = true -> dictIsRehashing d = true) /\
  exists ys zs, pick (table it) b0 b1 !! Z.to_nat (index it) = Some (ys ++ zs) /\ nextEntry it = head_ptr zs /\ rest = zs ++ later it b0 b1.

(** The result of [dictNext] when [rest] is to come. *)
Definition next_is (d : dict) (b0 b1 : list (list node)) (it : dictIterator) (rest : list node) (r : result (dict * dictIterator * Z)) : Prop :=
  exists it', same_iter it it' /\ 0 <= index it' /\
    match rest with [] => r = inr (d, it', 0) | n :: rest => r = inr (d, it', nptr n) /\ placed_at d b0 b1 it' rest end.

(** The entry at hand, taken from its chain. *)
Lemma take_entry w d b0 b1 ext it ys n zs :
  rep w d b0 b1 ext -> pick (table it) b0 b1 !! Z.to_nat (index it) = Some (ys ++ n :: zs) -> 0 <= index it -> (table it = true -> dictIsRehashing d = true) -> it_entry it = nptr n ->
  nptr n <> 0 /\ exists it', (x ← dictGetNext w (it_entry it); mret (d, mk_iter (index it) (table it) (safe it) (it_entry it) x (fingerprint it), it_entry it)) = inr (d, it', nptr n) /\
    same_iter it it' /\ placed_at d b0 b1 it' (zs ++ later it b0 b1).
Proof.
  intros Hr Hx Hi Ht E. destruct (rep_pick ty kname w d b0 b1 ext (table it) Hr) as (Hb & _). destruct (Forall2_lookup_r _ _ _ _ _ Hb Hx) as (p & _ & Hc).
  apply chain_split in Hc as (q & -> & next & Hn & Hc). assert (nptr n <> 0) as Hz by apply Hn. split; [done|]. rewrite E, (get_next_ok _ _ _ Hn). cbn [mbind result_bind mret result_ret]. eexists. split; [done|]. split; [by split|].
  split; [done|]. split; [done|]. split; [done|]. exists (ys ++ [n]), zs. cbn [table index nextEntry]. rewrite <- app_assoc. split; [done|]. split; [by apply chain_head in Hc|done].
Qed.

(** From the next bucket on, in the body of the loop. *)
Definition from_bucket (fuel : nat) (w : world) (d : dict) (it : dictIterator) : result (dict * dictIterator * Z) :=
  '(d, it, over) ← ('(it, over) ← next_bucket d it; mret (d, it, over));
  if (over : bool) then mret (d, it, 0) else
  if negb (it_entry it =? 0) then
    n ← dictGetNext w (it_entry it);
    mret (d, mk_iter (index it) (table it) (safe it) (it_entry it) n (fingerprint it), it_entry it)
  else next_loop fuel w d it.

Lemma next_loop_bucket fuel w d it : 0 <= index it -> it_entry it = 0 -> next_loop (S fuel) w d it = from_bucket fuel w d it.
Proof. intros Hi He. cbn [next_loop]. rewrite He. cbn [Z.eqb]. unfold begin_iteration. by rewrite (proj2 (Z.eqb_neq (index it) (-1))) by lia. Qed.

(** The next entry of the chain at hand, or from its end on. *)
Lemma next_loop_entry fuel w d it : it_entry it <> 0 ->
  next_loop (S fuel) w d it =
    let it := set_place it (table it) (index it) (nextEntry it) in
    if negb (it_entry it =? 0) then x ← dictGetNext w (it_entry it); mret (d, mk_iter (index it) (table it) (safe it) (it_entry it) x (fingerprint it), it_entry it)
    else next_loop fuel w d it.
Proof. intros He. cbn [next_loop]. by rewrite (proj2 (Z.eqb_neq _ _) He). Qed.

Lemma from_bucket_ok fuel w d b0 b1 ext it :
  rep w d b0 b1 ext -> -1 <= index it -> (table it = true -> dictIsRehashing d = true) -> (buckets_left it b0 b1 <= fuel)%nat ->
  next_is d b0 b1 it (later it b0 b1) (from_bucket fuel w d it).
Proof.
  intros Hr. revert it. induction fuel as [|fuel IH]; intros it Hi Ht Hf; unfold from_bucket;
    destruct (next_bucket_ok w d b0 b1 ext it Hr Hi Ht) as (it' & Hs & Hi' & Ht' & [(-> & ->)|(xs & -> & Ee & Hx & -> & Hlt)]); try lia; cbn [mbind result_bind mret result_ret]; [by exists it'..|].
  destruct xs as [|n zs].
  - rewrite Ee. cbn [head_ptr Z.eqb negb app]. rewrite (next_loop_bucket fuel w d it' Hi' Ee). destruct (IH it' ltac:(lia) Ht' ltac:(lia)) as (it2 & Hs2 & H). exists it2. split; [|done]. destruct Hs, Hs2. split; congruence.
  - destruct (take_entry w d b0 b1 ext it' [] n zs Hr Hx Hi' Ht' Ee) as (Hz & it2 & E2 & Hs2 & Hp). rewrite Ee at 1. cbn [head_ptr]. rewrite (proj2 (Z.eqb_neq _ _) Hz). cbn [negb].
    exists it2. split; [destruct Hs, Hs2; split; congruence|]. split; [apply Hp|]. cbn [app]. by split.
Qed.

Lemma buckets_slots w d b0 b1 ext it : rep w d b0 b1 ext -> (buckets_left it b0 b1 <= length (slots (ht0 d)) + length (slots (ht1 d)))%nat.
Proof.
  intros Hr. rewrite (Forall2_length _ _ _ (r_tbl0 _ _ _ _ _ _ _ Hr)), (Forall2_length _ _ _ (r_tbl1 _ _ _ _ _ _ _ Hr)). unfold buckets_left. rewrite length_drop. destruct (table it); cbn; lia.
Qed.

Lemma next_middle w d b0 b1 ext it rest : rep w d b0 b1 ext -> placed_at d b0 b1 it rest -> next_is d b0 b1 it rest (dictNext w d it).
Proof.
  intros Hr (He & Hi & Ht & ys & zs & Hx & En & ->). unfold dictNext. rewrite (next_loop_entry _ w d it He). cbn zeta. set (it1 := set_place it (table it) (index it) (nextEntry it)).
  destruct zs as [|n zs]; cbn [it_entry it1 set_place].
  - rewrite En. cbn [head_ptr Z.eqb negb]. pose proof (buckets_slots w d b0 b1 ext it1 Hr) as Hb.
    rewrite (next_loop_bucket _ w d it1 Hi En). destruct (from_bucket_ok _ w d b0 b1 ext it1 Hr ltac:(cbn; lia) Ht Hb) as (it2 & Hs & H). by exists it2.
  - destruct (take_entry w d b0 b1 ext it1 ys n zs Hr Hx Hi Ht En) as (Hz & it2 & E2 & Hs & Hp). rewrite En at 1. cbn [head_ptr]. rewrite (proj2 (Z.eqb_neq _ _) Hz). cbn [negb].
    exists it2. split; [done|]. split; [apply Hp|]. by split.
Qed.

Definition new_iterator (s : bool) : dictIterator := if s then dictInitSafeIterator else dictInitIterator.
(** After the first call. *)
Definition begun (d : dict) (s : bool) : dict * dictIterator := begin_iteration d (new_iterator s).

Lemma next_first w d b0 b1 ext s : rep w d b0 b1 ext -> next_is (begun d s).1 b0 b1 (begun d s).2 (concat b0 ++ concat b1) (dictNext w d (new_iterator s)).
Proof.
  intros Hr. assert (rep w (begun d s).1 b0 b1 ext) as Hr1 by (destruct s; [by apply rep_pause|done]).
  pose proof (from_bucket_ok (S (length (slots (ht0 d)) + length (slots (ht1 d)))) w _ b0 b1 ext (begun d s).2 Hr1) as H.
  pose proof (buckets_slots w d b0 b1 ext (begun d s).2 Hr) as Hb. destruct s; apply H; try done; lia.
Qed.

(** ** The loops over an iterator *)

(** [while((de = dictNext(di)) != NULL)], deleting the entries that [dr] selects, and the end of the
    iteration.  The keys in the order of the visit. *)
Fixpoint sweep (fuel : nat) (dr : Z -> bool) (w : world) (d : dict) (it : dictIterator) : result (world * dict * list Z) :=
  '(d, it, he) ← dictNext w d it;
  if he =? 0 then d ← dictResetIterator d it; mret (w, d, []) else
  match fuel with
  | O => inl OutOfFuel
  | S fuel =>
      k ← dictGetKey w he;
      '(w, d) ← (if dr k then '(w, d, _) ← dictDelete w d k; mret (w, d) else mret (w, d));
      '(w, d, ks) ← sweep fuel dr w d it;
      mret (w, d, k :: ks)
  end.

Notation names := (fmap (kname ∘ nkey)).

Lemma filter_notin k (xs : list node) : k ∉ names xs -> filter (fun x => kname (nkey x) <> k) xs = xs.
Proof. intros Hn. apply list_filter_all, Forall_forall. intros x Hx E. apply Hn. rewrite <- E. by apply (list_elem_of_fmap_2 (kname ∘ nkey)). Qed.
Lemma concat_without k b : concat (without kname k b) = filter (fun x => kname (nkey x) <> k) (concat b).
Proof. unfold without. induction b as [|xs b IH]; [done|]. cbn [fmap list_fmap concat]. by rewrite IH, filter_app. Qed.

Lemma placed_without d d' b0 b1 it rest k :
  placed_at d b0 b1 it rest -> k ∉ names rest -> rehashidx d' = rehashidx d -> placed_at d' (without kname k b0) (without kname k b1) it rest.
Proof.
  intros (He & Hi & Ht & ys & zs & Hx & En & ->) Hk Er. rewrite fmap_app, elem_of_app in Hk. split; [done|]. split; [done|]. split; [unfold dictIsRehashing in *; by rewrite Er|].
  assert (pick (table it) (without kname k b0) (without kname k b1) = without kname k (pick (table it) b0 b1)) as Ep by by destruct (table it).
  exists (filter (fun x => kname (nkey x) <> k) ys), zs. rewrite Ep. split; [|split; [done|f_equal]].
  - unfold without. rewrite list_lookup_fmap, Hx. cbn. f_equal. rewrite filter_app. f_equal. apply filter_notin. tauto.
  - unfold later in *. rewrite Ep. rewrite fmap_app, elem_of_app in Hk. f_equal.
    + unfold without. rewrite <- fmap_drop. fold (without kname k (drop (Z.to_nat (index it + 1)) (pick (table it) b0 b1))). rewrite without_notin; [done|]. tauto.
    + destruct (table it); [done|]. rewrite concat_without, filter_notin; [done|]. tauto.
Qed.

Context (Hlaw : lawful ty kname).

(** The state between two calls: [s] tells whether the iterator is safe. *)
Definition iterating (dr : Z -> bool) (s : bool) (d : dict) (it : dictIterator) : Prop :=
  safe it = s /\ if s then pauserehash d = 1 else pauserehash d = 0 /\ fingerprint it = dictFingerprint d /\ forall k, dr k = false.

Lemma iterating_reset dr s d it : iterating dr s d it -> 0 <= index it -> exists d', dictResetIterator d it = inr d' /\ pauserehash d' = 0 /\ forall w b0 b1 ext, rep w d b0 b1 ext -> rep w d' b0 b1 ext.
Proof.
  intros [Es H] Hi. unfold dictResetIterator. rewrite (proj2 (Z.eqb_neq (index it) (-1))), Es by lia. cbn [andb negb]. destruct s.
  - eexists. split; [done|]. split; [unfold dictResumeRehashing; rewrite H; done|]. intros. by apply rep_pause.
  - destruct H as (Hp & -> & _). rewrite Z.eqb_refl. cbn. by exists d.
Qed.

Definition dropped (dr : Z -> bool) (rest : list node) : list node := filter (fun n => dr (nkey n) = true) rest.

Lemma sweep_ok dr s rest fuel w d d1 b0 b1 it it0 :
  rep w d1 b0 b1 ∅ -> small b0 b1 -> Forall (destructible ty) (concat b0 ++ concat b1) -> next_is d1 b0 b1 it0 rest (dictNext w d it) -> iterating dr s d1 it0 ->
  (forall n, n ∈ rest -> n ∈ concat b0 ++ concat b1) -> NoDup (names rest) -> (length rest <= fuel)%nat ->
  exists w' d' c0 c1, sweep fuel dr w d it = inr (w', d', nkey <$> rest) /\ rep w' d' c0 c1 ∅ /\ pauserehash d' = 0 /\ calls w' = calls w ++ all_freed ty (dropped dr rest) /\
    concat c0 ++ concat c1 = filter (fun n => kname (nkey n) ∉ names (dropped dr rest)) (concat b0 ++ concat b1).
Proof.
  revert fuel w d d1 b0 b1 it it0. induction rest as [|n rest IH]; intros fuel w d d1 b0 b1 it it0 Hr Hsm Hd (it' & Hs & Hi & H) Hit Hsub Hnd Hf.
  - destruct fuel; cbn [sweep]; rewrite H; cbn [mbind result_bind Z.eqb].
    1, 2: destruct (iterating_reset dr s d1 it') as (d' & -> & Hp & Hr'); [destruct Hs as [Hs1 Hs2]; destruct Hit as [E1 E2]; split; [congruence|by rewrite Hs2]|done|].
    1, 2: exists w, d', b0, b1; split; [done|]; split; [by apply Hr'|]; split; [done|]; split; [by rewrite app_nil_r|]; rewrite list_filter_all; [done|]; apply Forall_forall; intros x _; apply not_elem_of_nil.
  - destruct H as [En Hp]. cbn [length] in Hf. destruct fuel as [|fuel]; [lia|]. cbn [sweep]. rewrite En. cbn [mbind result_bind]. assert (n ∈ concat b0 ++ concat b1) as Hin by (apply Hsub; by left).
    rewrite (proj2 (Z.eqb_neq _ _) (nptr_pos _ _ _ _ _ _ _ _ Hr Hin)). destruct (rep_node _ _ _ _ _ _ _ _ Hr Hin) as [next Hat]. rewrite (get_key_ok _ _ _ Hat). cbn [mbind result_bind].
    cbn [fmap list_fmap] in Hnd. apply NoDup_cons in Hnd as [Hno Hnd]. assert (iterating dr s d1 it') as Hit' by (destruct Hs as [Hs1 Hs2]; destruct Hit as [E1 E2]; split; [congruence|by rewrite Hs2]).
    unfold dropped. destruct (dr (nkey n)) eqn:Edr; [rewrite (filter_cons_True _ n rest) by done|rewrite (filter_cons_False _ n rest) by congruence]; fold (dropped dr rest).
    + assert (s = true /\ pauserehash d1 = 1) as [-> Hpr] by (destruct Hit' as [_ H]; destruct s; [done|]; destruct H as (_ & _ & H); by rewrite H in Edr).
      destruct (delete_paused_ok ty kname Hlaw w d1 b0 b1 ∅ n Hr Hsm Hd ltac:(lia) Hin) as (w2 & d2 & -> & Hr2 & Hp2 & Ei2 & Ec2). cbn [mbind result_bind mret result_ret]. set (k := kname (nkey n)) in *.
      assert (concat (without kname k b0) ++ concat (without kname k b1) = filter (fun x => kname (nkey x) <> k) (concat b0 ++ concat b1)) as Eall by by rewrite !concat_without, filter_app.
      destruct (IH fuel w2 d2 d2 _ _ it' it' Hr2) as (w3 & d3 & c0 & c1 & -> & Hr3 & Hp3 & Ec3 & E3).
      * unfold small in *. rewrite Eall. pose proof (length_filter (fun x => kname (nkey x) <> k) (concat b0 ++ concat b1)). lia.
      * rewrite Eall. rewrite Forall_forall in *. intros x [_ Hx]%list_elem_of_filter. by apply Hd.
      * by eapply next_middle, placed_without.
      * destruct Hit' as [E1 _]. split; [done|]. congruence.
      * intros x Hx. rewrite Eall. apply list_elem_of_filter. split; [|apply Hsub; by right]. intros E. apply Hno. unfold k in E. cbn. rewrite <- E. by apply (list_elem_of_fmap_2 (kname ∘ nkey)).
      * done.
      * lia.
      * exists w3, d3, c0, c1. split; [done|]. split; [done|]. split; [done|]. split; [rewrite Ec3, Ec2; unfold all_freed; cbn; by rewrite app_assoc|]. rewrite E3, Eall, list_filter_filter. apply list_filter_iff. intros x. cbn. rewrite not_elem_of_cons. tauto.
    + cbn [mbind result_bind mret result_ret]. destruct (IH fuel w d1 d1 b0 b1 it' it' Hr Hsm Hd) as (w3 & d3 & c0 & c1 & -> & H3); [by eapply next_middle|done|intros x Hx; apply Hsub; by right|done|lia|]. by exists w3, d3, c0, c1.
Qed.

(** ** The map after a sweep *)

Lemma the_map_filter (P : K * (Z * option Z) -> Prop) `{!forall p, Decision (P p)} xs :
  NoDup (names xs) -> the_map kname (filter (fun n => P (kname (nkey n), kv n)) xs) = filter P (the_map kname xs).
Proof.
  induction xs as [|n xs IH]; intros Hnd; [symmetry; apply map_filter_empty|]. cbn [fmap list_fmap] in Hnd. apply NoDup_cons in Hnd as [Hno Hnd]. rewrite (the_map_cons kname n xs). rewrite filter_cons. case_decide as HP.
  - rewrite (the_map_cons kname n). rewrite IH by done. by rewrite map_filter_insert_True.
  - rewrite IH by done. rewrite map_filter_insert_False by done. rewrite delete_id; [done|]. by apply the_map_absent.
Qed.
Lemma the_map_elem xs i x : the_map kname xs !! i = Some x -> exists n, n ∈ xs /\ i = kname (nkey n) /\ x = kv n.
Proof. intros H%elem_of_list_to_map_2. apply list_elem_of_fmap in H as (n & [= -> ->] & Hn). by exists n. Qed.

Lemma sweep_map dr xs : NoDup (names xs) ->
  the_map kname (filter (fun n => kname (nkey n) ∉ names (dropped dr xs)) xs) = filter (fun p => dr p.2.1 = false) (the_map kname xs).
Proof.
  intros Hnd. etrans; [exact (the_map_filter (fun p => p.1 ∉ names (dropped dr xs)) xs Hnd)|]. apply map_filter_ext. intros i x (n & Hn & -> & ->)%the_map_elem. cbn. rewrite list_elem_of_fmap. split.
  - intros Hno. destruct (dr (nkey n)) eqn:E; [|done]. destruct Hno. exists n. split; [done|]. by apply list_elem_of_filter.
  - intros E (n' & En & [Hd Hn']%list_elem_of_filter). rewrite (NoDup_fmap_inj_in (kname ∘ nkey) xs n n') in E; [congruence|done..].
Qed.

(** A whole iteration. *)
Lemma sweep_models dr s w d m :
  models ty kname w d m -> Z.of_nat (size m) < 2 ^ 59 -> s = true \/ (forall k, dr k = false) ->
  exists w' d' ks, sweep (size m) dr w d (new_iterator s) = inr (w', d', ks) /\ kname <$> ks ≡ₚ (map_to_list m).*1 /\ models ty kname w' d' (filter (fun p => dr p.2.1 = false) m) /\
    exists cs, calls w' = calls w ++ cs /\ cs ≡ₚ concat ((destroyed ty ∘ snd) <$> map_to_list (filter (fun p => dr p.2.1 = true) m)).
Proof.
  intros Hm Hs Hdr. destruct (models_small ty kname w d m Hm Hs) as (b0 & b1 & Hr & <- & Hv & Hp & Hroom). set (xs := concat b0 ++ concat b1) in *. pose proof (r_keys _ _ _ _ _ _ _ Hr) as Hk. fold xs in Hk.
  assert (rep w (begun d s).1 b0 b1 ∅) as Hr1 by (destruct s; [by apply rep_pause|done]).
  destruct (sweep_ok dr s xs (length xs) w d (begun d s).1 b0 b1 (new_iterator s) (begun d s).2 Hr1) as (w' & d' & c0 & c1 & E & Hr' & Hp' & Ec & Eall); try done.
  - by apply roomy_small.
  - by apply (valued_destructible ty kname Hlaw).
  - by apply (next_first w d b0 b1 ∅).
  - split; [by destruct s|]. destruct s; cbn; rewrite Hp; [done|]. by destruct Hdr.
  - rewrite (the_map_size kname xs Hk). exists w', d', (nkey <$> xs). split; [done|]. split; [|split].
    + unfold the_map. rewrite map_to_list_to_map, keys_fst by (by rewrite keys_fst). by rewrite <- list_fmap_compose.
    + exists c0, c1. split; [done|]. split; [rewrite Eall; by apply sweep_map|]. split; [|done]. rewrite Eall. rewrite Forall_forall in *. intros x [_ Hx]%list_elem_of_filter. by apply Hv.
    + exists (all_freed ty (dropped dr xs)). split; [done|]. rewrite (all_freed_map ty kname).
      * f_equiv. f_equiv. f_equiv. exact (the_map_filter (fun p => dr p.2.1 = true) xs Hk).
      * unfold dropped. clear -Hk. induction xs as [|n xs IH]; [done|]. cbn [fmap list_fmap] in Hk. apply NoDup_cons in Hk as [Hno Hk]. rewrite filter_cons. case_decide; [|by apply IH]. cbn. apply NoDup_cons. split; [|by apply IH].
        intros (x & E & [_ Hx]%list_elem_of_filter)%list_elem_of_fmap. apply Hno. cbn. rewrite E. by apply (list_elem_of_fmap_2 (kname ∘ nkey)).
Qed.
End Iter.
