(* ===== verification/DictRun.v ===== *)
(** * What a dictionary promises

    Sequences of operations refine a finite map, keep the tables well formed, and a scan interleaved
    with them gives every key that stays.  The witnesses run the code on a small dictionary whose
    keys collide. *)

From S2P Require Import Prelude Dict DictChain DictRep DictRehash DictEdit DictDelete DictMap DictScan DictIter.

(** ** Scanning while the dictionary changes *)

Section Session.
Context `{Zm : !Zmalloc} {K : Type} `{EqK : EqDecision K} `{CntK : !Countable K} (ty : dictType) (kname : Z -> K).

(** The keys of the entries that [fn] was given. *)
Fixpoint keys_of (w : world) (des : list Z) : result (list Z) :=
  match des with [] => mret [] | de :: des => k ← dictGetKey w de; ks ← keys_of w des; mret (k :: ks) end.

(** Before each call of [dictScan] some operations; the scan is over when the cursor is 0 again.
    The keys given, and the last cursor. *)
Fixpoint session (script : list (list op)) (w : world) (d : dict) (v : Z) : result (list Z * Z) :=
  match script with
  | [] => mret ([], v)
  | os :: script =>
      '(w, d, _) ← run os w d;
      '(d, des, v) ← dictScan w d v;
      ks ← keys_of w des;
      if v =? 0 then mret (ks, 0) else '(ks', v) ← session script w d v; mret (ks ++ ks', v)
  end.

(** The key is in the map at each call of [dictScan]. *)
Fixpoint stays (script : list (list op)) (m : gmap K (Z * option Z)) (k : K) : Prop :=
  match script with
  | [] => True
  | os :: script => let m := (spec_run ty kname os m).1.2 in is_Some (m !! k) /\ stays script m k
  end.

Context (Hlaw : lawful ty kname).

Lemma keys_of_ok w d b0 b1 ext xs : rep ty kname w d b0 b1 ext -> (forall n, n ∈ xs -> n ∈ concat b0 ++ concat b1) -> keys_of w (nptr <$> xs) = inr (nkey <$> xs).
Proof.
  intros Hr. induction xs as [|x xs IH]; intros Hin; [done|]. cbn [fmap list_fmap keys_of]. destruct (rep_node _ _ _ _ _ _ _ x Hr) as [next Hn]; [apply Hin; by left|].
  rewrite (get_key_ok _ _ _ Hn). cbn [mbind result_bind]. rewrite IH; [done|]. intros n Hn'. apply Hin. by right.
Qed.

Lemma run_size os m : (size (spec_run ty kname os m).1.2 <= size m + length os)%nat.
Proof.
  revert m. induction os as [|o os IH]; intros m; cbn [spec_run length]; [cbn; lia|]. pose proof (spec_size ty kname m o) as H1. destruct (spec ty kname m o) as [[r m1] cs].
  pose proof (IH m1) as H2. destruct (spec_run ty kname os m1) as [[rs m2] ds]. cbn [fst snd] in *. lia.
Qed.

(** [P] are the keys that stay throughout, [seen] the ones given so far. *)
Lemma session_ok (P : K -> Prop) script w d m v (seen : K -> Prop) :
  models ty kname w d m -> Z.of_nat (size m + length (concat script)) < 2 ^ 59 -> Forall (Forall (allowed ty)) script -> in_u 64 v ->
  (forall k, P k -> stays script m k) -> (forall key, P (kname key) -> rev (hashFunction ty key) < rev v -> seen (kname key)) ->
  exists ks v', session script w d v = inr (ks, v') /\
    (v' = 0 -> script <> [] \/ v <> 0 -> forall key, P (kname key) -> seen (kname key) \/ kname key ∈ kname <$> ks) /\
    (2 ^ 64 - rev v <= 16 * len_ script -> v' = 0).
Proof.
  revert w d m v seen. induction script as [|os script IH]; intros w d m v seen Hm Hs Ha Hv Hst Hseen.
  { exists [], v. split; [done|]. split; [by intros -> [?|?]|]. pose proof (rev_range v ltac:(destruct Hv; lia)) as [? ?]. cbn. lia. }
  apply Forall_cons in Ha as [Ha Has]. cbn [concat length] in Hs. rewrite length_app in Hs. cbn [session].
  destruct (run_ok ty kname Hlaw os w d m Hm ltac:(lia) Ha) as (w1 & d1 & cs & -> & Hm1 & _). cbn [mbind result_bind]. pose proof (run_size os m) as Hsz.
  set (m1 := (spec_run ty kname os m).1.2) in *. pose proof Hm1 as (b0 & b1 & Hr & Em & Hval & Hp). pose proof (r_keys _ _ _ _ _ _ _ Hr) as Hkeys.
  assert (small b0 b1) as Hsm by (unfold small; rewrite <- (the_map_size kname _ Hkeys), Em; lia).
  destruct (dictScan_ok ty kname Hlaw w1 d1 b0 b1 ∅ v Hr Hsm) as (xs & v1 & -> & Hv1 & Hsub & Hcov & Hprog); [by rewrite Hp|done|]. cbn [mbind result_bind].
  rewrite (keys_of_ok _ _ _ _ _ _ Hr Hsub). cbn [mbind result_bind]. cbn [stays] in Hst. fold m1 in Hst.
  assert (forall key, P (kname key) -> ~ rev (hashFunction ty key) < rev v -> rev (hashFunction ty key) < rev v1 \/ v1 = 0 -> kname key ∈ kname <$> (nkey <$> xs)) as Hgot.
  { intros key [[x Hx] _]%Hst Hlo Hhi. rewrite <- Em, (the_map_lookup kname key _ Hkeys) in Hx. destruct (find _ _) as [n|] eqn:E; [|done].
    apply (find_some_iff kname) in E as [Hn Ek]; [|done]. rewrite <- Ek. apply list_elem_of_fmap_2, list_elem_of_fmap_2. apply Hcov; [done|..]; unfold rhash; rewrite (l_hash _ _ Hlaw _ _ Ek); [lia|done]. }
  destruct (Z.eqb_spec v1 0) as [E1|Hne].
  - eexists _, 0. split; [done|]. split; [|done]. intros _ _ key Hk. destruct (decide (rev (hashFunction ty key) < rev v)); [left; by apply Hseen|]. right. by apply Hgot; [..|right].
  - destruct (IH w1 d1 m1 v1 (fun k => seen k \/ k ∈ kname <$> (nkey <$> xs)) Hm1 ltac:(lia) Has Hv1) as (ks & v' & -> & Hall & Hend); [by intros k [_ ?]%Hst| |].
    { intros key Hk Hlt. destruct (decide (rev (hashFunction ty key) < rev v)); [left; by apply Hseen|right; by apply Hgot; [..|left]]. }
    eexists _, v'. split; [done|]. split.
    + intros E0 _ key Hk. rewrite fmap_app, elem_of_app. destruct (Hall E0 (or_intror Hne) key Hk) as [[?|?]|?]; tauto.
    + intros Hl. apply Hend. specialize (Hprog Hne). cbn [length] in Hl. pose proof (Z.div_mod (rev v) 16). pose proof (Z.mod_pos_bound (rev v) 16). lia.
Qed.

End Session.

(** ** The claims *)

Section Claims.
Context `{Zm : !Zmalloc} {K : Type} `{EqK : EqDecision K} `{CntK : !Countable K} (ty : dictType) (kname : Z -> K).

(** C11: a dictionary is a finite map: whatever the sequence of adds, replaces, finds, deletes, unlinks, resizes and rehash steps from
    an empty dictionary on, no operation faults, the replies are those of the map, the destructors are called for exactly the keys and
    values that the map loses, the size is the size of the map, and no entry is left in the heap that is not in the dictionary. *)
Theorem dict_refines_map os :
  lawful ty kname -> Forall (allowed ty) os -> len_ os < 2 ^ 59 ->
  exists w d, run os world0 (dictCreate ty) = inr (w, d, (spec_run ty kname os ∅).1.1) /\ calls w ≡ₚ (spec_run ty kname os ∅).2 /\
    dictSize d = Z.of_nat (size (spec_run ty kname os ∅).1.2) /\ (size (objs w) <= size (spec_run ty kname os ∅).1.2)%nat /\
    (no_value ty = false -> size (objs w) = size (spec_run ty kname os ∅).1.2).
Proof.
  intros Hl Ha Hs. pose proof (run_size ty kname os ∅) as Hsz. rewrite map_size_empty in Hsz. destruct (run_ok ty kname Hl os _ _ _ (models_create ty kname)) as (w & d & cs & E & Hm & Ec & Hp); [by rewrite map_size_empty|done|].
  exists w, d. destruct (models_heap ty kname w d _ Hm) as (Ed & Hh1 & Hh2). split; [done|]. split; [by rewrite Ec|]. split; [|done]. rewrite Ed. apply wrap_u_id. unfold in_u. lia.
Qed.

(** Every operation keeps a dictionary well formed: each bucket is a finite chain of entries of the kind the type prescribes, no
    two chains share an entry, each entry is in the bucket of its hash value, the counters are the numbers of entries, no key occurs
    twice, the buckets below [rehashidx] are empty, and the second table exists only while rehashing. *)
Theorem dict_well_formed os :
  lawful ty kname -> Forall (allowed ty) os -> len_ os < 2 ^ 59 ->
  exists w d rs b0 b1, run os world0 (dictCreate ty) = inr (w, d, rs) /\ rep ty kname w d b0 b1 ∅.
Proof.
  intros Hl Ha Hs. destruct (run_ok ty kname Hl os _ _ _ (models_create ty kname)) as (w & d & cs & E & (b0 & b1 & Hr & _) & _); [by rewrite map_size_empty|done|].
  by exists w, d, (spec_run ty kname os ∅).1.1, b0, b1.
Qed.

(** C12: a scan misses nothing: when calls of [dictScan] from the cursor 0 are interleaved with any operations, including those that grow,
    shrink and rehash the tables, until the cursor is 0 again, every key that is in the dictionary at each of the calls is given to
    the callback; and the cursor is 0 again after at most 2^60 calls. *)
Theorem dict_scan_complete script :
  lawful ty kname -> Forall (Forall (allowed ty)) script -> len_ (concat script) < 2 ^ 59 -> script <> [] ->
  exists ks v, session script world0 (dictCreate ty) 0 = inr (ks, v) /\
    (v = 0 -> forall key, stays ty kname script ∅ (kname key) -> kname key ∈ kname <$> ks) /\ (2 ^ 60 <= len_ script -> v = 0).
Proof.
  intros Hl Ha Hs Hn. destruct (session_ok ty kname Hl (stays ty kname script ∅) script world0 (dictCreate ty) ∅ 0 (fun _ => False)) as (ks & v & E & Hall & Hend).
  - apply models_create.
  - by rewrite map_size_empty.
  - done.
  - done.
  - done.
  - intros key _ Hlt. rewrite rev_0 in Hlt. pose proof (l_range _ _ Hl key) as [? ?]. pose proof (rev_range (hashFunction ty key) ltac:(lia)) as [? ?]. lia.
  - exists ks, v. split; [done|]. split; [|intros; apply Hend; rewrite rev_0; lia]. intros E0 key Hk. by destruct (Hall E0 (or_introl Hn) key Hk).
Qed.


(** C19: a loop over an iterator visits every key exactly once and ends; with a safe iterator it may delete the entries it is given,
    which removes exactly those and calls their destructors, and the rehashing that was paused goes on afterwards; with an unsafe
    iterator over an unchanged dictionary the fingerprint check at the end does not fail. *)
Theorem dict_iteration_complete dr s w d m :
  lawful ty kname -> models ty kname w d m -> Z.of_nat (size m) < 2 ^ 59 -> s = true \/ (forall k, dr k = false) ->
  exists w' d' ks, sweep (size m) dr w d (new_iterator s) = inr (w', d', ks) /\ kname <$> ks ≡ₚ (map_to_list m).*1 /\ models ty kname w' d' (filter (fun p => dr p.2.1 = false) m) /\
    exists cs, calls w' = calls w ++ cs /\ cs ≡ₚ concat ((destroyed ty ∘ snd) <$> map_to_list (filter (fun p => dr p.2.1 = true) m)).
Proof. intros Hl. by apply sweep_models. Qed.
End Claims.

(** ** A concrete dictionary *)

Lemma max_le (x : Z) (l : list Z) : x ∈ l -> x <= foldr Z.max 0 l.
Proof. induction 1; cbn; lia. Qed.
Lemma max_pos (l : list Z) : 0 <= foldr Z.max 0 l.
Proof. induction l; cbn; lia. Qed.

(** Above all the others, a multiple of 8. *)
Definition bump (h : gmap Z entry) : Z := 8 * (1 + foldr Z.max 0 (map_to_list h).*1).

#[local] Program Instance bump_zmalloc : Zmalloc := {| new_entry := bump; new_table _ := 16 |}.
Next Obligation.
  intros h. apply eq_None_not_Some. intros [e He]. apply elem_of_map_to_list in He. apply (list_elem_of_fmap_2 fst), max_le in He. cbn in He. unfold bump in He.
  pose proof (max_pos (map_to_list h).*1). lia.
Qed.
Next Obligation. intros h. unfold bump. pose proof (max_pos (map_to_list h).*1). lia. Qed.
Next Obligation. intros h. unfold bump. change 7 with (Z.ones 3). rewrite Z.land_ones by done. rewrite Z.mul_comm. apply Z.mod_mul. done. Qed.
Next Obligation. done. Qed.

(** Two key pointers stand for each content, which is hashed to eight values. *)
Definition demo_name (k : Z) : Z := k / 2.
Definition demo : dictType :=
  mk_type (fun k => Z.modulo (demo_name k) 8) (Some (fun k => 2 * demo_name k)) None (Some (fun a b => demo_name a =? demo_name b)) true true None false false 0.

Lemma demo_lawful : lawful demo demo_name.
Proof.
  assert (forall k, demo_name (2 * demo_name k) = demo_name k) as E by (intros k; unfold demo_name at 1; rewrite Z.mul_comm; by apply Z.div_mul).
  split; cbn; try done.
  - intros k1 k2. unfold dictCompareKeys. cbn. apply Z.eqb_eq.
  - by intros k1 k2 ->.
  - intros k. pose proof (Z.mod_pos_bound (demo_name k) 8). unfold in_u. lia.
  - intros f k [= <-]. apply E.
Qed.

(** Twenty keys, one of them a second time, some removed, and a shrink. *)
Definition demo_ops : list op :=
  ((fun i => Add (2 * Z.of_nat i + 1) (100 + Z.of_nat i)) <$> seq 0 20) ++
  [Add 6 7; Replace 7 8; FetchValue 6; Find 99; Delete 8; Delete 9; Unlink 10; TwoPhaseUnlink 12; Rehash 1] ++
  ((fun i => Delete (2 * Z.of_nat i)) <$> seq 7 13) ++ [Resize; Rehash 10; Find 2].

Lemma demo_allowed : Forall (allowed demo) demo_ops.
Proof. repeat (constructor; [done || (split; done)|]). by constructor. Qed.

Lemma dict_refines_map_witness : exists w d, run demo_ops world0 (dictCreate demo) = inr (w, d, replicate 20 0 ++ [1; 0; 8; 0; 0; 1; 1; 0; 0] ++ replicate 13 0 ++ [0; 0; 1]) /\ dictSize d = 4 /\ size (objs w) = 4%nat.
Proof.
  destruct (dict_refines_map demo demo_name demo_ops demo_lawful demo_allowed) as (w & d & E & _ & Ed & _ & Eh); [vm_compute; done|]. exists w, d. split; [rewrite E; vm_compute; done|]. split; [rewrite Ed; vm_compute; done|].
  rewrite Eh by done. vm_compute. done.
Defined.

Lemma dict_well_formed_witness : exists w d rs b0 b1, run demo_ops world0 (dictCreate demo) = inr (w, d, rs) /\ rep demo demo_name w d b0 b1 ∅.
Proof. apply (dict_well_formed demo demo_name demo_ops demo_lawful demo_allowed). vm_compute. done. Defined.

(** The table grows and shrinks between the calls; the keys 1 to 3 stay. *)
Definition demo_script : list (list op) :=
  [(fun i => Add (2 * Z.of_nat i) 0) <$> seq 1 3; []; []; (fun i => Add (2 * Z.of_nat i) 0) <$> seq 4 20; []; [Rehash 10]; []; (fun i => Delete (2 * Z.of_nat i)) <$> seq 4 20; [Resize]; [Rehash 10]] ++ replicate 20 [].

Lemma dict_scan_complete_witness : exists ks, session demo_script world0 (dictCreate demo) 0 = inr (ks, 0) /\ Forall (fun k => k ∈ demo_name <$> ks) [1; 2; 3].
Proof.
  destruct (dict_scan_complete demo demo_name demo_script demo_lawful) as (ks & v & E & Hall & _); [| vm_compute; done | done |].
  - repeat (constructor; [repeat (constructor; [done|]); by constructor|]). by constructor.
  - assert (v = 0) as ->. { assert (match session demo_script world0 (dictCreate demo) 0 with inr (_, v) => v | inl _ => 1 end = 0) as E0 by (vm_compute; reflexivity). by rewrite E in E0. }
    exists ks. split; [done|]. assert (forall k, stays demo demo_name demo_script ∅ k -> demo_name (2 * k) = k -> k ∈ demo_name <$> ks) as H by (intros k Hk Ek; rewrite <- Ek; apply Hall; by rewrite ?Ek).
    repeat (constructor; [apply H; [vm_compute; repeat (split; [by eexists|]); done|done]|]). by constructor.
Defined.

Definition demo_grown : result (world * dict * list Z) := run ((fun i => Add (2 * Z.of_nat i) 0) <$> seq 1 5) world0 (dictCreate demo).


(** In the middle of a rehash, deleting the keys 4, 8 and so on of the entries. *)
Lemma dict_iteration_complete_witness : exists w d w' d',
  demo_grown = inr (w, d, [0; 0; 0; 0; 0]) /\ sweep 5 (fun k => k mod 4 =? 0) w d (new_iterator true) = inr (w', d', [8; 2; 4; 6; 10]) /\ dictSize d' = 3.
Proof.
  destruct (run_ok demo demo_name demo_lawful ((fun i => Add (2 * Z.of_nat i) 0) <$> seq 1 5) _ _ _ (models_create demo demo_name)) as (w & d & cs & E & Hm & _); [vm_compute; done|by repeat (constructor; [done|])|].
  destruct (dict_iteration_complete demo demo_name (fun k => k mod 4 =? 0) true w d _ demo_lawful Hm) as (w' & d' & ks & E' & _ & Hm' & _); [vm_compute; reflexivity|by left|].
  assert (match demo_grown with inr (w, d, _) => match sweep 5 (fun k => k mod 4 =? 0) w d (new_iterator true) with inr (_, _, ks) => ks = [8; 2; 4; 6; 10] | _ => False end | _ => False end) as H by (vm_compute; reflexivity).
  unfold demo_grown in *. rewrite E in H. change (size (spec_run demo demo_name ((fun i => Add (2 * Z.of_nat i) 0) <$> seq 1 5) ∅).1.2) with 5%nat in E'. rewrite E' in H. subst ks.
  exists w, d, w', d'. rewrite E. split; [vm_compute; reflexivity|]. split; [exact E'|]. destruct (models_heap demo demo_name w' d' _ Hm') as (-> & _). vm_compute. reflexivity.
Defined.
