(* ===== verification/Skiplist.v ===== *)
(** * Comparisons of doubles

    The values of a C [double] are the Standard Library's IEEE 754 values; comparisons with a NaN
    are false and the two zeros are equal.  The other values are ordered, which the triples of
    integers of [key_of] make plain. *)

From Stdlib Require Import Floats.SpecFloat.
From S2P Require Import Prelude Bytes.

Abbreviation double := spec_float.

Definition isnan (x : double) : bool := match x with S754_nan => true | _ => false end.
Definition dlt (x y : double) : bool := SFltb x y.
Definition dle (x y : double) : bool := SFleb x y.
Definition deq (x y : double) : bool := SFeqb x y.

(** The class of the value with its sign, the exponent and the significand. *)
Definition key_of (x : double) : Z * Z * Z :=
  match x with
  | S754_infinity true => (-2, 0, 0)
  | S754_finite true m e => (-1, - e, Z.neg m)
  | S754_zero _ => (0, 0, 0)
  | S754_finite false m e => (1, e, Z.pos m)
  | S754_infinity false => (2, 0, 0)
  | S754_nan => (3, 0, 0)
  end.

Definition key_lt (a b : Z * Z * Z) : Prop :=
  a.1.1 < b.1.1 \/ a.1.1 = b.1.1 /\ (a.1.2 < b.1.2 \/ a.1.2 = b.1.2 /\ a.2 < b.2).
Definition key_lex (a b : Z * Z * Z) : comparison :=
  match Z.compare a.1.1 b.1.1 with Eq => match Z.compare a.1.2 b.1.2 with Eq => Z.compare a.2 b.2 | c => c end | c => c end.

Lemma key_lex_spec a b : match key_lex a b with Lt => key_lt a b | Eq => a = b | Gt => key_lt b a end.
Proof.
  destruct a as [[a1 a2] a3], b as [[b1 b2] b3]. unfold key_lex, key_lt. cbn. destruct (Z.compare_spec a1 b1); [|lia..]. destruct (Z.compare_spec a2 b2); [|lia..].
  destruct (Z.compare_spec a3 b3); [congruence|lia..].
Qed.

Lemma compare_key x y : isnan x = false -> isnan y = false -> SFcompare x y = Some (key_lex (key_of x) (key_of y)).
Proof.
  intros Hx Hy. destruct x as [[]|[]| |[] m e], y as [[]|[]| |[] m' e']; try done; cbn; f_equal; unfold key_lex; cbn.
  rewrite Z.compare_opp, (Z.compare_antisym e e'). by destruct (e ?= e').
Qed.

Section Order.
Context (x y : double) (Hx : isnan x = false) (Hy : isnan y = false).

Lemma dlt_key : dlt x y = true <-> key_lt (key_of x) (key_of y).
Proof.
  unfold dlt, SFltb. rewrite compare_key by done. pose proof (key_lex_spec (key_of x) (key_of y)) as H. destruct (key_lex _ _); split; try done; intros Hl; unfold key_lt in *.
  - rewrite H in Hl. lia.
  - lia.
Qed.
Lemma deq_key : deq x y = true <-> key_of x = key_of y.
Proof.
  unfold deq, SFeqb. rewrite compare_key by done. pose proof (key_lex_spec (key_of x) (key_of y)) as H. destruct (key_lex _ _); split; try done; intros Hl; rewrite Hl in H; unfold key_lt in H; lia.
Qed.
Lemma dle_key : dle x y = true <-> ~ key_lt (key_of y) (key_of x).
Proof.
  unfold dle, SFleb. rewrite compare_key by done. pose proof (key_lex_spec (key_of x) (key_of y)) as H. destruct (key_lex _ _); split; try done; intros Hl.
  - rewrite H. unfold key_lt. lia.
  - unfold key_lt in *. lia.
Qed.
End Order.

(** With a NaN every comparison is false. *)
Lemma nan_compare x y : isnan x = true \/ isnan y = true -> dlt x y = false /\ deq x y = false /\ dle x y = false.
Proof. intros [H|H]; [destruct x|destruct y]; try done. by destruct x as [[]|[]| |[] ? ?]. Qed.

(** ** Sorted sets: the skip list

    The skip list of [t_zset.c] of Redis.  Nodes live in a heap and are reached through pointers;
    what [zslCreateNode] leaves uninitialised is so here, and reading it is undefined behaviour.
    [zmalloc] aborts the process instead of returning NULL.  An element is its string.  The
    function [random] is a list of its answers. *)

Definition loc := positive.

(** The address [zmalloc] gives is not in use. *)
Class Alloc := { new_loc : gset loc -> loc; new_loc_fresh X : new_loc X ∉ X }.

Definition ZSKIPLIST_MAXLEVEL : nat := 32.

(** A field is [None] before it is set; a pointer is [None] for NULL. *)
Record zskiplistLevel := mk_level { forward : option (option loc); span : option Z }.
Record zskiplistNode := mk_node { ele : option bytes; score : double; backward : option (option loc); level : list zskiplistLevel }.
Record zskiplist := mk_zsl { header : loc; tail : option loc; zlength : Z; zlevel : nat }.

Abbreviation heap := (gmap loc zskiplistNode).

(** ** Fields *)

Definition level_at (h : heap) (x : loc) (i : nat) : result zskiplistLevel := n ← the (h !! x); the (level n !! i).
Definition forward_at (h : heap) (x : loc) (i : nat) : result (option loc) := l ← level_at h x i; the (forward l).
Definition span_at (h : heap) (x : loc) (i : nat) : result Z := l ← level_at h x i; the (span l).
Definition set_level (h : heap) (x : loc) (i : nat) (f : zskiplistLevel -> zskiplistLevel) : result heap :=
  n ← the (h !! x); l ← the (level n !! i);
  mret (<[x := mk_node (ele n) (score n) (backward n) (<[i := f l]> (level n))]> h).
Definition set_forward (h : heap) (x : loc) (i : nat) (p : option loc) : result heap := set_level h x i (fun l => mk_level (Some p) (span l)).
Definition set_span (h : heap) (x : loc) (i : nat) (s : Z) : result heap := set_level h x i (fun l => mk_level (forward l) (Some s)).
Definition set_backward (h : heap) (x : loc) (p : option loc) : result heap :=
  n ← the (h !! x); mret (<[x := mk_node (ele n) (score n) (Some p) (level n)]> h).

(** ** Creation *)

Definition zslCreateNode `{!Alloc} (h : heap) (lv : nat) (sc : double) (e : option bytes) : heap * loc :=
  let x := new_loc (dom h) in (<[x := mk_node e sc None (replicate lv (mk_level None None))]> h, x).

Definition zslCreate `{!Alloc} (h : heap) : result (heap * zskiplist) :=
  let '(h, hd) := zslCreateNode h ZSKIPLIST_MAXLEVEL (S754_zero false) None in
  h ← for_each (fun h j => h ← set_forward h hd j None; set_span h hd j 0) h (seq 0 ZSKIPLIST_MAXLEVEL);
  h ← set_backward h hd None;
  mret (h, mk_zsl hd None 0 1).

Definition zslFreeNode (h : heap) (x : loc) : result heap := _ ← the (h !! x); mret (delete x h).

Fixpoint free_loop (fuel : nat) (h : heap) (node : option loc) : result heap :=
  match node with
  | None => mret h
  | Some x =>
      match fuel with
      | O => inl OutOfFuel
      | S fuel => next ← forward_at h x 0; h ← zslFreeNode h x; free_loop fuel h next
      end
  end.
Definition zslFree (h : heap) (zsl : zskiplist) : result heap :=
  node ← forward_at h (header zsl) 0;
  h ← zslFreeNode h (header zsl);
  free_loop (size h) h node.

(** [ZSKIPLIST_P*RAND_MAX] as an [int]. *)
Definition threshold : Z := (2 ^ 31 - 1) / 4.
Fixpoint random_level (lv : nat) (rnd : list Z) : result (nat * list Z) :=
  match rnd with
  | [] => inl OutOfFuel
  | r :: rnd => if r <? threshold then random_level (S lv) rnd else mret (if (lv <? ZSKIPLIST_MAXLEVEL)%nat then lv else ZSKIPLIST_MAXLEVEL, rnd)
  end.
Definition zslRandomLevel (rnd : list Z) : result (nat * list Z) := random_level 1 rnd.

(** ** Order *)

(** [memcmp] on the common length; only its sign is defined. *)
Fixpoint memcmp (a b : bytes) : Z :=
  match a, b with x :: a, y :: b => if x =? y then memcmp a b else x - y | _, _ => 0 end.
Definition sdscmp (a b : bytes) : Z :=
  let cmp := memcmp a b in
  if cmp =? 0 then
    if Z.of_nat (length b) <? Z.of_nat (length a) then 1 else if Z.of_nat (length a) <? Z.of_nat (length b) then -1 else 0
  else cmp.

(** [n->score < sc || (n->score == sc && sdscmp(n->ele,e) < 0)]; the header has no element. *)
Definition comes_before (sc : double) (e : bytes) (n : zskiplistNode) : result bool :=
  if dlt (score n) sc then mret true else
  if deq (score n) sc then x ← the (ele n); mret (sdscmp x e <? 0) else mret false.
(** The same with [<= 0]. *)
Definition not_after (sc : double) (e : bytes) (n : zskiplistNode) : result bool :=
  if dlt (score n) sc then mret true else
  if deq (score n) sc then x ← the (ele n); mret (sdscmp x e <=? 0) else mret false.

(** ** Walking along a level *)

(** [while (x->level[i].forward && go(x->level[i].forward)) x = x->level[i].forward;] *)
Fixpoint advance (fuel : nat) (go : zskiplistNode -> result bool) (h : heap) (i : nat) (x : loc) : result loc :=
  f ← forward_at h x i;
  match f with
  | None => mret x
  | Some y =>
      n ← the (h !! y); b ← go n;
      if (b : bool) then match fuel with O => inl OutOfFuel | S fuel => advance fuel go h i y end else mret x
  end.
(** The same, adding up the spans. *)
Fixpoint advance_rank (fuel : nat) (go : zskiplistNode -> result bool) (h : heap) (i : nat) (x : loc) (rank : Z) : result (loc * Z) :=
  f ← forward_at h x i;
  match f with
  | None => mret (x, rank)
  | Some y =>
      n ← the (h !! y); b ← go n;
      if (b : bool) then
        match fuel with
        | O => inl OutOfFuel
        | S fuel => s ← span_at h x i; advance_rank fuel go h i y (u64 (rank + s))
        end
      else mret (x, rank)
  end.
(** [while (x->level[i].forward && go(traversed + x->level[i].span))] *)
Fixpoint advance_span (fuel : nat) (go : Z -> bool) (h : heap) (i : nat) (x : loc) (traversed : Z) : result (loc * Z) :=
  f ← forward_at h x i;
  match f with
  | None => mret (x, traversed)
  | Some y =>
      s ← span_at h x i;
      if go (u64 (traversed + s)) then
        match fuel with O => inl OutOfFuel | S fuel => advance_span fuel go h i y (u64 (traversed + s)) end
      else mret (x, traversed)
  end.

(** [for (i = zsl->level-1; i >= 0; i--)] *)
Definition levels_down (zsl : zskiplist) : list nat := rev (seq 0 (zlevel zsl)).

(** The way down, with [update[i] = x] after each level. *)
Definition search_level (go : zskiplistNode -> result bool) (h : heap) (s : loc * gmap nat loc) (i : nat) : result (loc * gmap nat loc) :=
  x ← advance (size h) go h i s.1; mret (x, <[i := x]> s.2).
Definition search (go : zskiplistNode -> result bool) (h : heap) (zsl : zskiplist) : result (loc * gmap nat loc) :=
  for_each (search_level go h) (header zsl, ∅) (levels_down zsl).

(** ** Insertion *)

Definition insert_level (h : heap) (zsl : zskiplist) (sc : double) (e : bytes) (s : loc * gmap nat loc * gmap nat Z) (i : nat) : result (loc * gmap nat loc * gmap nat Z) :=
  let '(x, update, rank) := s in
  r ← (if (i =? zlevel zsl - 1)%nat then mret 0 else the (rank !! S i));
  '(x, r) ← advance_rank (size h) (comes_before sc e) h i x r;
  mret (x, <[i := x]> update, <[i := r]> rank).

(** The levels that are new. *)
Definition raise_level (zsl : zskiplist) (s : heap * gmap nat loc * gmap nat Z) (i : nat) : result (heap * gmap nat loc * gmap nat Z) :=
  let '(h, update, rank) := s in
  h ← set_span h (header zsl) i (zlength zsl);
  mret (h, <[i := header zsl]> update, <[i := 0]> rank).

Definition link_level (x : loc) (update : gmap nat loc) (rank : gmap nat Z) (h : heap) (i : nat) : result heap :=
  u ← the (update !! i);
  f ← forward_at h u i; h ← set_forward h x i f;
  h ← set_forward h u i (Some x);
  s ← span_at h u i; r0 ← the (rank !! O); r ← the (rank !! i);
  h ← set_span h x i (u64 (s - (r0 - r)));
  set_span h u i (u64 (r0 - r + 1)).

Definition grow_span (update : gmap nat loc) (h : heap) (i : nat) : result heap :=
  u ← the (update !! i); s ← span_at h u i; set_span h u i (u64 (s + 1)).

Definition zslInsert `{!Alloc} (h : heap) (zsl : zskiplist) (sc : double) (e : bytes) (rnd : list Z) : result (heap * zskiplist * loc * list Z) :=
  _ ← assert (negb (isnan sc));
  '(_, update, rank) ← for_each (insert_level h zsl sc e) (header zsl, ∅, ∅) (levels_down zsl);
  '(lv, rnd) ← zslRandomLevel rnd;
  '(h, update, rank) ← (if (zlevel zsl <? lv)%nat then for_each (raise_level zsl) (h, update, rank) (seq (zlevel zsl) (lv - zlevel zsl)) else mret (h, update, rank));
  let top := if (zlevel zsl <? lv)%nat then lv else zlevel zsl in
  let '(h, x) := zslCreateNode h lv sc (Some e) in
  h ← for_each (link_level x update rank) h (seq 0 lv);
  h ← for_each (grow_span update) h (seq lv (top - lv));
  u ← the (update !! O);
  h ← set_backward h x (if decide (u = header zsl) then None else Some u);
  f ← forward_at h x 0;
  '(h, tl) ← match f with Some y => h ← set_backward h y (Some x); mret (h, tail zsl) | None => mret (h, Some x) end;
  mret (h, mk_zsl (header zsl) tl (u64 (zlength zsl + 1)) top, x, rnd).

(** ** Deletion *)

Definition unlink_level (x : loc) (update : gmap nat loc) (h : heap) (i : nat) : result heap :=
  u ← the (update !! i);
  f ← forward_at h u i;
  if decide (f = Some x) then
    us ← span_at h u i; xs ← span_at h x i; h ← set_span h u i (u64 (us + (xs - 1)));
    f ← forward_at h x i; set_forward h u i f
  else us ← span_at h u i; set_span h u i (u64 (us - 1)).

(** [while(zsl->level > 1 && zsl->header->level[zsl->level-1].forward == NULL)] *)
Fixpoint lower_level (h : heap) (hd : loc) (lv : nat) : result nat :=
  match lv with
  | S (S _ as below) => f ← forward_at h hd below; match f with Some _ => mret (S below) | None => lower_level h hd below end
  | _ => mret lv
  end.

Definition zslDeleteNode (h : heap) (zsl : zskiplist) (x : loc) (update : gmap nat loc) : result (heap * zskiplist) :=
  h ← for_each (unlink_level x update) h (seq 0 (zlevel zsl));
  n ← the (h !! x); back ← the (backward n);
  f ← forward_at h x 0;
  '(h, tl) ← match f with Some y => h ← set_backward h y back; mret (h, tail zsl) | None => mret (h, back) end;
  lv ← lower_level h (header zsl) (zlevel zsl);
  mret (h, mk_zsl (header zsl) tl (u64 (zlength zsl - 1)) lv).

(** [x && sc == x->score && sdscmp(x->ele,e) == 0] *)
Definition is_node (h : heap) (f : option loc) (sc : double) (e : bytes) : result (option loc) :=
  match f with
  | None => mret None
  | Some x =>
      n ← the (h !! x);
      if deq sc (score n) then y ← the (ele n); mret (if sdscmp y e =? 0 then Some x else None) else mret None
  end.

(** With [keep] the caller gets the unlinked node. *)
Definition zslDelete (h : heap) (zsl : zskiplist) (sc : double) (e : bytes) (keep : bool) : result (heap * zskiplist * option loc) :=
  '(x, update) ← search (comes_before sc e) h zsl;
  f ← forward_at h x 0;
  r ← is_node h f sc e;
  match r with
  | None => mret (h, zsl, None)
  | Some x =>
      '(h, zsl) ← zslDeleteNode h zsl x update;
      h ← (if keep then mret h else zslFreeNode h x);
      mret (h, zsl, Some x)
  end.

Definition set_score (h : heap) (x : loc) (sc : double) : result heap :=
  n ← the (h !! x); mret (<[x := mk_node (ele n) sc (backward n) (level n)]> h).
(** [p == NULL || test(p->score)] *)
Definition null_or (h : heap) (p : option loc) (test : double -> bool) : result bool :=
  match p with None => mret true | Some y => n ← the (h !! y); mret (test (score n)) end.

Definition zslUpdateScore `{!Alloc} (h : heap) (zsl : zskiplist) (curscore : double) (e : bytes) (newscore : double) (rnd : list Z) :
  result (heap * zskiplist * loc * list Z) :=
  '(x, update) ← search (comes_before curscore e) h zsl;
  f ← forward_at h x 0;
  r ← is_node h f curscore e;
  match r with
  | None => inl AssertFails
  | Some x =>
      n ← the (h !! x); back ← the (backward n);
      b ← null_or h back (fun s => dlt s newscore);
      next ← forward_at h x 0;
      b' ← null_or h next (fun s => dlt newscore s);
      if b && b' then h ← set_score h x newscore; mret (h, zsl, x, rnd) else
      '(h, zsl) ← zslDeleteNode h zsl x update;
      n ← the (h !! x); e ← the (ele n);
      '(h, zsl, y, rnd) ← zslInsert h zsl newscore e rnd;
      h ← zslFreeNode h x;
      mret (h, zsl, y, rnd)
  end.

(** ** Ranges of scores *)

Record zrangespec := mk_range { rmin : double; rmax : double; minex : bool; maxex : bool }.
Definition zslValueGteMin (value : double) (spec : zrangespec) : bool := if minex spec then dlt (rmin spec) value else dle (rmin spec) value.
Definition zslValueLteMax (value : double) (spec : zrangespec) : bool := if maxex spec then dlt value (rmax spec) else dle value (rmax spec).

Definition zslIsInRange (h : heap) (zsl : zskiplist) (range : zrangespec) : result bool :=
  if dlt (rmax range) (rmin range) || deq (rmin range) (rmax range) && (minex range || maxex range) then mret false else
  match tail zsl with
  | None => mret false
  | Some x =>
      n ← the (h !! x);
      if negb (zslValueGteMin (score n) range) then mret false else
      f ← forward_at h (header zsl) 0;
      match f with None => mret false | Some x => n ← the (h !! x); mret (zslValueLteMax (score n) range) end
  end.

Definition below_min (range : zrangespec) (n : zskiplistNode) : result bool := mret (negb (zslValueGteMin (score n) range)).
Definition upto_max (range : zrangespec) (n : zskiplistNode) : result bool := mret (zslValueLteMax (score n) range).

(** The way down without [update]. *)
Definition descend (go : zskiplistNode -> result bool) (h : heap) (zsl : zskiplist) : result loc :=
  for_each (fun x i => advance (size h) go h i x) (header zsl) (levels_down zsl).

Definition zslFirstInRange (h : heap) (zsl : zskiplist) (range : zrangespec) : result (option loc) :=
  b ← zslIsInRange h zsl range;
  if negb b then mret None else
  x ← descend (below_min range) h zsl;
  f ← forward_at h x 0;
  match f with
  | None => inl AssertFails
  | Some x => n ← the (h !! x); mret (if zslValueLteMax (score n) range then Some x else None)
  end.
Definition zslLastInRange (h : heap) (zsl : zskiplist) (range : zrangespec) : result (option loc) :=
  b ← zslIsInRange h zsl range;
  if negb b then mret None else
  x ← descend (upto_max range) h zsl;
  n ← the (h !! x);
  mret (if zslValueGteMin (score n) range then Some x else None).

(** [while (x && more(x))]: the elements handed to [dictDelete], in order; [removed] is their number. *)
Fixpoint delete_while (fuel : nat) (more : zskiplistNode -> result bool) (update : gmap nat loc) (h : heap) (zsl : zskiplist) (x : option loc) : result (heap * zskiplist * list bytes) :=
  match x with
  | None => mret (h, zsl, [])
  | Some x =>
      n ← the (h !! x); b ← more n;
      if (b : bool) then
        match fuel with
        | O => inl OutOfFuel
        | S fuel =>
            next ← forward_at h x 0;
            '(h, zsl) ← zslDeleteNode h zsl x update;
            n ← the (h !! x); e ← the (ele n);
            h ← zslFreeNode h x;
            '(h, zsl, es) ← delete_while fuel more update h zsl next;
            mret (h, zsl, e :: es)
        end
      else mret (h, zsl, [])
  end.
Definition zslDeleteRangeByScore (h : heap) (zsl : zskiplist) (range : zrangespec) : result (heap * zskiplist * list bytes) :=
  '(x, update) ← search (below_min range) h zsl;
  x ← forward_at h x 0;
  delete_while (size h) (upto_max range) update h zsl x.

(** ** Ranges of strings *)

(** [shared.minstring] and [shared.maxstring] are told apart from the strings. *)
Inductive lexbound := MinString | MaxString | Str (s : bytes).
Record zlexrangespec := mk_lexrange { lmin : lexbound; lmax : lexbound; lminex : bool; lmaxex : bool }.
Definition sdscmplex (a b : lexbound) : Z :=
  match a, b with
  | MinString, MinString | MaxString, MaxString => 0
  | MinString, _ | _, MaxString => -1
  | MaxString, _ | _, MinString => 1
  | Str a, Str b => sdscmp a b
  end.
Definition zslLexValueGteMin (value : bytes) (spec : zlexrangespec) : bool :=
  if lminex spec then 0 <? sdscmplex (Str value) (lmin spec) else 0 <=? sdscmplex (Str value) (lmin spec).
Definition zslLexValueLteMax (value : bytes) (spec : zlexrangespec) : bool :=
  if lmaxex spec then sdscmplex (Str value) (lmax spec) <? 0 else sdscmplex (Str value) (lmax spec) <=? 0.

Definition lex_below (range : zlexrangespec) (n : zskiplistNode) : result bool := e ← the (ele n); mret (negb (zslLexValueGteMin e range)).
Definition lex_upto (range : zlexrangespec) (n : zskiplistNode) : result bool := e ← the (ele n); mret (zslLexValueLteMax e range).

Definition zslIsInLexRange (h : heap) (zsl : zskiplist) (range : zlexrangespec) : result bool :=
  let cmp := sdscmplex (lmin range) (lmax range) in
  if (0 <? cmp) || (cmp =? 0) && (lminex range || lmaxex range) then mret false else
  match tail zsl with
  | None => mret false
  | Some x =>
      n ← the (h !! x); e ← the (ele n);
      if negb (zslLexValueGteMin e range) then mret false else
      f ← forward_at h (header zsl) 0;
      match f with None => mret false | Some x => n ← the (h !! x); e ← the (ele n); mret (zslLexValueLteMax e range) end
  end.
Definition zslFirstInLexRange (h : heap) (zsl : zskiplist) (range : zlexrangespec) : result (option loc) :=
  b ← zslIsInLexRange h zsl range;
  if negb b then mret None else
  x ← descend (lex_below range) h zsl;
  f ← forward_at h x 0;
  match f with
  | None => inl AssertFails
  | Some x => n ← the (h !! x); e ← the (ele n); mret (if zslLexValueLteMax e range then Some x else None)
  end.
Definition zslLastInLexRange (h : heap) (zsl : zskiplist) (range : zlexrangespec) : result (option loc) :=
  b ← zslIsInLexRange h zsl range;
  if negb b then mret None else
  x ← descend (lex_upto range) h zsl;
  n ← the (h !! x); e ← the (ele n);
  mret (if zslLexValueGteMin e range then Some x else None).
Definition zslDeleteRangeByLex (h : heap) (zsl : zskiplist) (range : zlexrangespec) : result (heap * zskiplist * list bytes) :=
  '(x, update) ← search (lex_below range) h zsl;
  x ← forward_at h x 0;
  delete_while (size h) (lex_upto range) update h zsl x.

(** ** Ranks *)

(** [while (x && traversed <= end)], with [start] and [end] of type [unsigned int] *)
Fixpoint delete_upto (fuel : nat) (last : Z) (update : gmap nat loc) (h : heap) (zsl : zskiplist) (x : option loc) (traversed : Z) : result (heap * zskiplist * list bytes) :=
  match x with
  | None => mret (h, zsl, [])
  | Some x =>
      if traversed <=? last then
        match fuel with
        | O => inl OutOfFuel
        | S fuel =>
            next ← forward_at h x 0;
            '(h, zsl) ← zslDeleteNode h zsl x update;
            n ← the (h !! x); e ← the (ele n);
            h ← zslFreeNode h x;
            '(h, zsl, es) ← delete_upto fuel last update h zsl next (u64 (traversed + 1));
            mret (h, zsl, e :: es)
        end
      else mret (h, zsl, [])
  end.
Definition rank_level (start : Z) (h : heap) (s : loc * gmap nat loc * Z) (i : nat) : result (loc * gmap nat loc * Z) :=
  let '(x, update, traversed) := s in
  '(x, traversed) ← advance_span (size h) (fun t => t <? start) h i x traversed;
  mret (x, <[i := x]> update, traversed).
Definition zslDeleteRangeByRank (h : heap) (zsl : zskiplist) (start last : Z) : result (heap * zskiplist * list bytes) :=
  '(x, update, traversed) ← for_each (rank_level start h) (header zsl, ∅, 0) (levels_down zsl);
  x ← forward_at h x 0;
  delete_upto (size h) last update h zsl x (u64 (traversed + 1)).

(** The turns of the loops over the levels; they return from inside. *)
Fixpoint get_rank (sc : double) (e : bytes) (h : heap) (levels : list nat) (x : loc) (rank : Z) : result Z :=
  match levels with
  | [] => mret 0
  | i :: levels =>
      '(x, rank) ← advance_rank (size h) (not_after sc e) h i x rank;
      n ← the (h !! x);
      if bool_decide (is_Some (ele n)) && deq (score n) sc && (sdscmp (default [] (ele n)) e =? 0) then mret rank
      else get_rank sc e h levels x rank
  end.
Definition zslGetRank (h : heap) (zsl : zskiplist) (sc : double) (e : bytes) : result Z := get_rank sc e h (levels_down zsl) (header zsl) 0.

Fixpoint get_by_rank (rank : Z) (h : heap) (levels : list nat) (x : loc) (traversed : Z) : result (option loc) :=
  match levels with
  | [] => mret None
  | i :: levels =>
      '(x, traversed) ← advance_span (size h) (fun t => t <=? rank) h i x traversed;
      if traversed =? rank then mret (Some x) else get_by_rank rank h levels x traversed
  end.
Definition zslGetElementByRank (h : heap) (zsl : zskiplist) (rank : Z) : result (option loc) := get_by_rank rank h (levels_down zsl) (header zsl) 0.
