(* ===== verification/SkiplistRep.v ===== *)
(** * What the heap of a skip list holds

    The places of a skip list are the header and its nodes in order.  At each of its levels a place
    points to the next place that is at least as high, and the span is the distance to it. *)

From Stdlib Require Import Floats.SpecFloat Sorting.Sorted.
From stdpp Require Import sorting.
From Stdlib Require Import Floats.SpecFloat.
From S2P Require Import Prelude Bytes Skiplist.

(** ** The heap as levels and other fields *)

Definition cell (h : heap) (x : loc) (i : nat) : option zskiplistLevel := match h !! x with Some n => level n !! i | None => None end.
Definition info (h : heap) (x : loc) : option (option bytes * double * option (option loc) * nat) :=
  (fun n => (ele n, score n, backward n, length (level n))) <$> h !! x.

Lemma level_at_cell h x i : level_at h x i = the (cell h x i).
Proof. unfold level_at, cell. by destruct (h !! x). Qed.
Lemma forward_at_cell h x i f s : cell h x i = Some (mk_level (Some f) s) -> forward_at h x i = inr f.
Proof. intros E. unfold forward_at. by rewrite level_at_cell, E. Qed.
Lemma span_at_cell h x i f s : cell h x i = Some (mk_level f (Some s)) -> span_at h x i = inr s.
Proof. intros E. unfold span_at. by rewrite level_at_cell, E. Qed.

(** The level [i] of [x] changed, nothing else. *)
Definition cell_set (h : heap) (x : loc) (i : nat) (l : zskiplistLevel) (h' : heap) : Prop :=
  (forall y j, cell h' y j = if decide (y = x /\ j = i) then Some l else cell h y j) /\ (forall y, info h' y = info h y) /\ dom h' = dom h.

Lemma set_level_ok h x i f l : cell h x i = Some l -> exists h', set_level h x i f = inr h' /\ cell_set h x i (f l) h'.
Proof.
  unfold cell, set_level. destruct (h !! x) as [n|] eqn:Ex; [|done]. intros E. cbn [the mbind result_bind]. rewrite E. cbn [the mbind result_bind mret result_ret]. eexists. split; [done|]. split_and!.
  - intros y j. unfold cell. destruct (decide (y = x)) as [->|Hne].
    + rewrite lookup_insert_eq. cbn. destruct (decide (j = i)) as [->|Hj]; [rewrite decide_True by done; apply list_lookup_insert_eq; by eapply lookup_lt_Some|].
      rewrite decide_False by tauto. rewrite list_lookup_insert_ne by done. by rewrite Ex.
    + rewrite lookup_insert_ne by done. by rewrite decide_False by tauto.
  - intros y. unfold info. destruct (decide (y = x)) as [->|Hne]; [|by rewrite lookup_insert_ne]. rewrite lookup_insert_eq, Ex. cbn. by rewrite length_insert.
  - rewrite dom_insert_L. assert (x ∈ dom h) by (by apply elem_of_dom_2 in Ex). set_solver.
Qed.
Lemma set_forward_ok h x i f s p : cell h x i = Some (mk_level f s) -> exists h', set_forward h x i p = inr h' /\ cell_set h x i (mk_level (Some p) s) h'.
Proof. exact (set_level_ok h x i (fun l => mk_level (Some p) (span l)) (mk_level f s)). Qed.
Lemma set_span_ok h x i f s n : cell h x i = Some (mk_level f s) -> exists h', set_span h x i n = inr h' /\ cell_set h x i (mk_level f (Some n)) h'.
Proof. exact (set_level_ok h x i (fun l => mk_level (forward l) (Some n)) (mk_level f s)). Qed.

(** The [backward] pointer of [x] changed, nothing else. *)
Definition back_set (h : heap) (x : loc) (p : option loc) (h' : heap) : Prop :=
  (forall y j, cell h' y j = cell h y j) /\ dom h' = dom h /\
  (forall y, info h' y = if decide (y = x) then (fun t => (t.1.1.1, t.1.1.2, Some p, t.2)) <$> info h x else info h y).

Lemma set_backward_ok h x p : is_Some (info h x) -> exists h', set_backward h x p = inr h' /\ back_set h x p h'.
Proof.
  unfold info, set_backward. destruct (h !! x) as [n|] eqn:Ex; [|intros []%is_Some_None]. intros _. cbn [the mbind result_bind mret result_ret]. eexists. split; [done|]. split_and!.
  - intros y j. unfold cell. destruct (decide (y = x)) as [->|Hne]; [by rewrite lookup_insert_eq, Ex|by rewrite lookup_insert_ne].
  - rewrite dom_insert_L. assert (x ∈ dom h) by (by apply elem_of_dom_2 in Ex). set_solver.
  - intros y. unfold info. case_decide as E; [subst y; by rewrite lookup_insert_eq, Ex|by rewrite lookup_insert_ne].
Qed.

Lemma info_node h x e sc b k : info h x = Some (e, sc, b, k) -> exists n, h !! x = Some n /\ ele n = e /\ score n = sc /\ backward n = b.
Proof. unfold info. destruct (h !! x) as [n|]; [|done]. intros [= <- <- <- <-]. by exists n. Qed.

(** ** Places *)

Record item := mk_item { iloc : loc; iscore : double; iele : option bytes; iheight : nat }.
Definition hitem (hd : loc) : item := mk_item hd (S754_zero false) None ZSKIPLIST_MAXLEVEL.

(** The next place of level [i], and how far it is: to the end when there is none. *)
Fixpoint fwd (i : nat) (ys : list item) : option loc :=
  match ys with [] => None | y :: ys => if (i <? iheight y)%nat then Some (iloc y) else fwd i ys end.
Fixpoint spn (i : nat) (ys : list item) : nat :=
  match ys with [] => O | y :: ys => if (i <? iheight y)%nat then 1%nat else S (spn i ys) end.
Definition lev (i : nat) (ys : list item) : zskiplistLevel := mk_level (Some (fwd i ys)) (Some (Z.of_nat (spn i ys))).

Lemma spn_le i ys : (spn i ys <= length ys)%nat.
Proof. induction ys as [|y ys IH]; cbn; [done|]. case_match; lia. Qed.

(** The next place of level [i] after the place [p]. *)
Lemma next_spec i ys :
  (fwd i ys = None /\ spn i ys = length ys /\ forall k y, ys !! k = Some y -> (iheight y <= i)%nat) \/
  (exists k z, ys !! k = Some z /\ (i < iheight z)%nat /\ fwd i ys = Some (iloc z) /\ spn i ys = S k /\ forall j y, (j < k)%nat -> ys !! j = Some y -> (iheight y <= i)%nat).
Proof.
  induction ys as [|y ys IH]; [left; split_and!; [done|done|intros; by rewrite lookup_nil in *]|]. cbn [fwd spn]. destruct (Nat.ltb_spec i (iheight y)).
  - right. exists 0%nat, y. split_and!; try done. lia.
  - destruct IH as [(-> & -> & Hall)|(k & z & Hk & Hz & -> & -> & Hall)].
    + left. split_and!; try done. intros [|k] x Hx; [by injection Hx as <-|by eapply Hall].
    + right. exists (S k), z. split_and!; try done. intros [|j] x Hj Hx; [by injection Hx as <-|]. eapply Hall; [|done]. lia.
Qed.

(** The last place up to [cut] that is higher than [i]; the header is. *)
Fixpoint lastpos (i : nat) (pl : list item) (cut : nat) : nat :=
  match cut with
  | O => O
  | S c => match pl !! cut with Some y => if (i <? iheight y)%nat then cut else lastpos i pl c | None => lastpos i pl c end
  end.

Lemma lastpos_le i pl cut : (lastpos i pl cut <= cut)%nat.
Proof. induction cut as [|c IH]; cbn; [done|]. repeat case_match; lia. Qed.
Lemma lastpos_high i pl cut : lastpos i pl cut <> O -> exists y, pl !! lastpos i pl cut = Some y /\ (i < iheight y)%nat.
Proof.
  induction cut as [|c IH]; cbn [lastpos]; [done|]. destruct (pl !! S c) as [y|] eqn:E; [|done]. destruct (Nat.ltb_spec i (iheight y)); [|done]. intros _. by exists y.
Qed.
Lemma lastpos_between i pl cut k y : (lastpos i pl cut < k <= cut)%nat -> pl !! k = Some y -> (iheight y <= i)%nat.
Proof.
  induction cut as [|c IH]; cbn [lastpos]; [lia|]. intros Hk Hy. destruct (decide (k = S c)) as [->|Hne].
  - rewrite Hy in Hk. destruct (Nat.ltb_spec i (iheight y)); lia.
  - repeat case_match; apply IH; try done; lia.
Qed.
(** It is determined by that. *)
Lemma lastpos_unique i pl cut q y :
  (q <= cut)%nat -> pl !! q = Some y -> (i < iheight y)%nat -> (forall k z, (q < k <= cut)%nat -> pl !! k = Some z -> (iheight z <= i)%nat) -> lastpos i pl cut = q.
Proof.
  intros Hq Hy Hi Hb. destruct (lt_eq_lt_dec (lastpos i pl cut) q) as [[Hlt|]|Hgt]; [|done|].
  - pose proof (lastpos_between i pl cut q y ltac:(lia) Hy). lia.
  - destruct (lastpos_high i pl cut ltac:(lia)) as (z & Hz & Hiz). pose proof (lastpos_le i pl cut). pose proof (Hb (lastpos i pl cut) z ltac:(lia) Hz). lia.
Qed.

(** ** The order *)

(** Strings by their bytes, a prefix first. *)
Fixpoint bytes_lt (a b : bytes) : Prop :=
  match a, b with [], _ :: _ => True | x :: a, y :: b => x < y \/ x = y /\ bytes_lt a b | _, [] => False end.

Lemma sdscmp_spec a b : (sdscmp a b < 0 <-> bytes_lt a b) /\ (sdscmp a b = 0 <-> a = b) /\ (0 < sdscmp a b <-> bytes_lt b a).
Proof.
  unfold sdscmp. revert b. induction a as [|x a IH]; intros [|y b]; cbn [memcmp bytes_lt]; try (cbn; split_and!; split; intros; (done || lia)).
  destruct (Z.eqb_spec x y) as [->|Hne].
  - specialize (IH b). cbn [length]. rewrite !Nat2Z.inj_succ. replace (Z.succ (Z.of_nat (length b)) <? Z.succ (Z.of_nat (length a))) with (Z.of_nat (length b) <? Z.of_nat (length a)) by (destruct (Z.ltb_spec (Z.of_nat (length b)) (Z.of_nat (length a))), (Z.ltb_spec (Z.succ (Z.of_nat (length b))) (Z.succ (Z.of_nat (length a)))); lia).
    replace (Z.succ (Z.of_nat (length a)) <? Z.succ (Z.of_nat (length b))) with (Z.of_nat (length a) <? Z.of_nat (length b)) by (destruct (Z.ltb_spec (Z.of_nat (length a)) (Z.of_nat (length b))), (Z.ltb_spec (Z.succ (Z.of_nat (length a))) (Z.succ (Z.of_nat (length b)))); lia).
    destruct IH as (IH1 & IH2 & IH3). rewrite IH1, IH2, IH3. split_and!; split; try (intros; right; by split); try (by intros [?|[_ ?]]; [lia|]); [by intros ->|by intros [= ->]].
  - destruct (Z.eqb_spec (x - y) 0); [lia|]. split_and!; split; try lia. congruence.
Qed.

Lemma bytes_lt_irrefl a : ~ bytes_lt a a.
Proof. induction a as [|x a IH]; [by intros []|cbn]. intros [?|[_ ?]]; [lia|done]. Qed.
Lemma bytes_lt_trans a b c : bytes_lt a b -> bytes_lt b c -> bytes_lt a c.
Proof.
  revert b c. induction a as [|x a IH]; intros [|y b] [|z c]; cbn; try done. intros [?|[-> ?]] [?|[-> ?]]; try (left; lia). right. split; [done|]. by eapply IH.
Qed.

Definition str (y : item) : bytes := default [] (iele y).
(** By score, then by element. *)
Definition pair_lt (a b : double * bytes) : Prop := key_lt (key_of a.1) (key_of b.1) \/ key_of a.1 = key_of b.1 /\ bytes_lt a.2 b.2.
Definition pair_of (y : item) : double * bytes := (iscore y, str y).

Lemma key_lt_trans a b c : key_lt a b -> key_lt b c -> key_lt a c.
Proof. unfold key_lt. lia. Qed.
Lemma key_lt_irrefl a : ~ key_lt a a.
Proof. unfold key_lt. lia. Qed.
Lemma pair_lt_irrefl a : ~ pair_lt a a.
Proof. intros [H|[_ H]]; [by apply key_lt_irrefl in H|by apply bytes_lt_irrefl in H]. Qed.
Lemma pair_lt_trans a b c : pair_lt a b -> pair_lt b c -> pair_lt a c.
Proof.
  intros [H1|[E1 H1]] [H2|[E2 H2]]; unfold pair_lt; rewrite ?E1, <- ?E2; [left; by eapply key_lt_trans|by left|by left|right; split; [done|by eapply bytes_lt_trans]].
Qed.

(** The comparison the code makes. *)
Definition plt (a b : double * bytes) : bool := dlt a.1 b.1 || deq a.1 b.1 && (sdscmp a.2 b.2 <? 0).
Definition peq (a b : double * bytes) : Prop := key_of a.1 = key_of b.1 /\ a.2 = b.2.

Lemma plt_spec a b : isnan a.1 = false -> isnan b.1 = false -> plt a b = true <-> pair_lt a b.
Proof.
  intros Ha Hb. unfold plt, pair_lt. rewrite orb_true_iff, andb_true_iff, (dlt_key _ _ Ha Hb), (deq_key _ _ Ha Hb), Z.ltb_lt. by destruct (sdscmp_spec a.2 b.2) as (-> & _).
Qed.
Lemma pair_total a b : pair_lt a b \/ peq a b \/ pair_lt b a.
Proof.
  unfold pair_lt, peq. pose proof (key_lex_spec (key_of a.1) (key_of b.1)) as H. destruct (key_lex _ _); [|tauto..]. destruct (sdscmp_spec a.2 b.2) as (H1 & H2 & H3).
  destruct (Z.lt_trichotomy (sdscmp a.2 b.2) 0) as [?|[?|?]]; [left; right; tauto|right; left; tauto|right; right; right; split; [done|tauto]].
Qed.
Lemma pair_lt_peq a b c : pair_lt a b -> peq b c -> pair_lt a c.
Proof. unfold pair_lt, peq. intros H [E1 E2]. by rewrite <- E1, <- E2. Qed.
Lemma peq_pair_lt a b c : peq a b -> pair_lt b c -> pair_lt a c.
Proof. unfold pair_lt, peq. intros [E1 E2] H. by rewrite E1, E2. Qed.

(** How many elements at the front pass the test. *)
Fixpoint count_while {A} (test : A -> bool) (xs : list A) : nat := match xs with [] => O | x :: xs => if test x then S (count_while test xs) else O end.

Lemma count_while_le {A} (test : A -> bool) xs : (count_while test xs <= length xs)%nat.
Proof. induction xs as [|x xs IH]; cbn; [done|]. destruct (test x); lia. Qed.
Lemma count_while_spec {A} (test : A -> bool) xs : (forall p q a b, (p < q)%nat -> xs !! p = Some a -> xs !! q = Some b -> test b = true -> test a = true) ->
  forall p y, xs !! p = Some y -> test y = (p <? count_while test xs)%nat.
Proof.
  induction xs as [|x xs IH]; intros Hm p y Hy; [done|]. cbn [count_while]. destruct (test x) eqn:Ex.
  - destruct p as [|p]; [injection Hy as <-; done|]. rewrite (IH (fun p q a b Hlt => Hm (S p) (S q) a b ltac:(lia)) p y Hy). destruct (Nat.ltb_spec p (count_while test xs)), (Nat.ltb_spec (S p) (S (count_while test xs))); lia || done.
  - destruct (test y) eqn:Ey; [|done]. destruct p as [|p]; [injection Hy as <-; congruence|]. by rewrite (Hm 0%nat (S p) x y ltac:(lia) eq_refl Hy Ey) in Ex.
Qed.

(** ** The invariant *)

Definition places (zsl : zskiplist) (xs : list item) : list item := hitem (header zsl) :: xs.
Definition back (pl : list item) (p : nat) : option loc := match p with O | 1%nat => None | S q => iloc <$> pl !! q end.
Definition real (y : item) : Prop := isnan (iscore y) = false /\ is_Some (iele y).
Definition item_lt (a b : item) : Prop := pair_lt (pair_of a) (pair_of b).
Definition sorted (xs : list item) : Prop := StronglySorted item_lt xs.

Lemma items_lookup xs p q a b : sorted xs -> (p < q)%nat -> xs !! p = Some a -> xs !! q = Some b -> item_lt a b.
Proof.
  intros Hs Hlt Ha Hb. rewrite <- (take_drop q xs) in Hs. apply (StronglySorted_app_1_elem_of _ _ _ _ _ Hs); [|rewrite (drop_S _ _ _ Hb); by left].
  apply list_elem_of_lookup. exists p. by rewrite lookup_take_lt.
Qed.

(** The heap holds the places in this order; [ext] are the other nodes in it. *)
Record rep (h : heap) (zsl : zskiplist) (xs : list item) (ext : gset loc) : Prop := {
  r_info p y : places zsl xs !! p = Some y -> info h (iloc y) = Some (iele y, iscore y, Some (back (places zsl xs) p), iheight y);
  r_cell p y i : places zsl xs !! p = Some y -> (i < iheight y)%nat -> (i < zlevel zsl)%nat -> cell h (iloc y) i = Some (lev i (drop p xs));
  r_top i : (zlevel zsl <= i < ZSKIPLIST_MAXLEVEL)%nat -> exists s, cell h (header zsl) i = Some (mk_level (Some None) (Some s));
  r_tail : tail zsl = iloc <$> last xs;
  r_len : zlength zsl = Z.of_nat (length xs);
  r_level : (1 <= zlevel zsl <= ZSKIPLIST_MAXLEVEL)%nat;
  r_heights y : y ∈ xs -> (1 <= iheight y <= zlevel zsl)%nat;
  r_real y : y ∈ xs -> real y;
  r_sorted : sorted xs;
  r_locs : NoDup (iloc <$> places zsl xs);
  r_dom : dom h = list_to_set (iloc <$> places zsl xs) ∪ ext;
  r_ext x : x ∈ iloc <$> places zsl xs -> x ∉ ext;
}.

(** No level is empty but the lowest one. *)
Definition tight (zsl : zskiplist) (xs : list item) : Prop := zlevel zsl = 1%nat \/ exists y, y ∈ xs /\ iheight y = zlevel zsl.

Section Facts.
Context (h : heap) (zsl : zskiplist) (xs : list item) (ext : gset loc) (Hr : rep h zsl xs ext).
Notation pl := (places zsl xs).

Lemma place_height p y i : pl !! p = Some y -> (i < zlevel zsl)%nat -> p = O -> (i < iheight y)%nat.
Proof. intros Hy Hi ->. injection Hy as <-. cbn. pose proof (r_level _ _ _ _ Hr). lia. Qed.

Lemma place_fuel : (length pl <= size h)%nat.
Proof.
  rewrite <- size_dom, (r_dom _ _ _ _ Hr). rewrite <- (length_fmap iloc). transitivity (size (list_to_set (iloc <$> pl) : gset loc)); [|apply subseteq_size; set_solver].
  rewrite size_list_to_set; [done|]. apply (r_locs _ _ _ _ Hr).
Qed.

Lemma place_inj p q y z : pl !! p = Some y -> pl !! q = Some z -> iloc y = iloc z -> p = q.
Proof.
  intros Hy Hz E. eapply NoDup_lookup; [apply (r_locs _ _ _ _ Hr)|by rewrite list_lookup_fmap, Hy|]. rewrite list_lookup_fmap, Hz. cbn. by rewrite E.
Qed.

Lemma place_node p y : pl !! p = Some y -> exists n, h !! iloc y = Some n /\ ele n = iele y /\ score n = iscore y /\ backward n = Some (back pl p).
Proof. intros Hy. eapply info_node, (r_info _ _ _ _ Hr _ _ Hy). Qed.

(** The place after [p] at level [i], with the span to it. *)
Lemma place_next p y i : pl !! p = Some y -> (i < iheight y)%nat -> (i < zlevel zsl)%nat ->
  (cell h (iloc y) i = Some (mk_level (Some None) (Some (Z.of_nat (length xs - p)))) /\ forall k z, (p < k)%nat -> pl !! k = Some z -> (iheight z <= i)%nat) \/
  (exists q z, (p < q)%nat /\ pl !! q = Some z /\ (i < iheight z)%nat /\ cell h (iloc y) i = Some (mk_level (Some (Some (iloc z))) (Some (Z.of_nat q - Z.of_nat p))) /\
     forall k x, (p < k < q)%nat -> pl !! k = Some x -> (iheight x <= i)%nat).
Proof.
  intros Hy Hi Hl. rewrite (r_cell _ _ _ _ Hr _ _ _ Hy Hi Hl). unfold lev.
  assert (forall k, (p < k)%nat -> pl !! k = drop p xs !! (k - S p)%nat) as Hd. { intros k Hk. destruct k as [|k]; [lia|]. cbn [places lookup list_lookup]. rewrite lookup_drop. f_equal. lia. }
  destruct (next_spec i (drop p xs)) as [(-> & -> & Hall)|(k & z & Hk & Hz & -> & -> & Hall)].
  - left. rewrite length_drop. split; [done|]. intros k z Hk Hz. rewrite Hd in Hz by done. by eapply Hall.
  - right. exists (p + S k)%nat, z. rewrite Hd by lia. replace (p + S k - S p)%nat with k by lia. split_and!; try done; [lia|repeat f_equal; lia|]. intros j x Hj Hx. rewrite Hd in Hx by lia. eapply Hall; [|done]. lia.
Qed.
End Facts.

(** ** Searching a skip list

    At each level the search stops at the last place before the one that is looked for, so that
    the way down ends there, and [update] and [rank] hold these places for all levels. *)

(** [for (i = k - 1; i >= 0; i--)]: [I j] holds when the levels from [j] on are done. *)
Lemma for_each_down {S} (body : S -> nat -> result S) (I : nat -> S -> Prop) k s :
  I k s -> (forall i s, (i < k)%nat -> I (Datatypes.S i) s -> exists s', body s i = inr s' /\ I i s') -> exists s', for_each body s (rev (seq 0 k)) = inr s' /\ I O s'.
Proof.
  revert s. induction k as [|k IH]; intros s H0 Hstep; [by exists s|]. rewrite seq_S, rev_app_distr. cbn [rev app for_each Nat.add]. destruct (Hstep k s ltac:(lia) H0) as (s1 & -> & H1). cbn [mbind result_bind].
  apply IH; [done|]. intros i s2 Hi. apply Hstep. lia.
Qed.

(** [for (i = a; i < a + n; i++)] *)
Lemma for_each_up {S} (body : S -> nat -> result S) (I : nat -> S -> Prop) a n s :
  I a s -> (forall i s, (a <= i < a + n)%nat -> I i s -> exists s', body s i = inr s' /\ I (Datatypes.S i) s') -> exists s', for_each body s (seq a n) = inr s' /\ I (a + n)%nat s'.
Proof.
  revert a s. induction n as [|n IH]; intros a s H0 Hstep; [exists s; by rewrite Nat.add_0_r|]. cbn [seq for_each]. destruct (Hstep a s ltac:(lia) H0) as (s1 & -> & H1). cbn [mbind result_bind].
  destruct (IH (Datatypes.S a) s1 H1) as (s2 & -> & H2); [intros i s2 Hi; apply Hstep; lia|]. exists s2. split; [done|]. by replace (a + Datatypes.S n)%nat with (Datatypes.S a + n)%nat by lia.
Qed.

Section Search.
Context (h : heap) (zsl : zskiplist) (xs : list item) (ext : gset loc) (Hr : rep h zsl xs ext).
Context (cut : nat) (Hcut : (cut <= length xs)%nat) (Hlen : Z.of_nat (length xs) < 2 ^ 63).
Notation pl := (places zsl xs).
Notation last i := (lastpos i pl cut).

(** A turn of the walk along level [i], from the place [p]. *)
Lemma walk_step i p y : pl !! p = Some y -> (i < iheight y)%nat -> (i < zlevel zsl)%nat -> (p <= cut)%nat ->
  (last i = p /\ ((exists s, cell h (iloc y) i = Some (mk_level (Some None) s)) \/
                  (exists q z, (cut < q)%nat /\ pl !! q = Some z /\ cell h (iloc y) i = Some (mk_level (Some (Some (iloc z))) (Some (Z.of_nat q - Z.of_nat p)))))) \/
  (exists q z, (p < q <= cut)%nat /\ pl !! q = Some z /\ (i < iheight z)%nat /\ cell h (iloc y) i = Some (mk_level (Some (Some (iloc z))) (Some (Z.of_nat q - Z.of_nat p)))).
Proof.
  intros Hy Hi Hl Hp. destruct (place_next h zsl xs ext Hr p y i Hy Hi Hl) as [(Hc & Hall)|(q & z & Hq & Hz & Hiz & Hc & Hall)].
  - left. split; [|left; by eexists]. apply (lastpos_unique _ _ _ _ y); try done. intros k x Hk. apply Hall. lia.
  - destruct (decide (q <= cut)%nat) as [Hle|Hgt]; [right; exists q, z; split_and!; done|left]. split; [|right; exists q, z; split_and!; [lia|done..]].
    apply (lastpos_unique _ _ _ _ y); try done. intros k x Hk. apply Hall. lia.
Qed.

Lemma last_place i : (i < zlevel zsl)%nat -> exists z, pl !! last i = Some z /\ (i < iheight z)%nat.
Proof.
  intros Hi. destruct (decide (last i = O)) as [->|Hne]; [|by apply lastpos_high]. eexists. split; [done|]. cbn. pose proof (r_level _ _ _ _ Hr). unfold ZSKIPLIST_MAXLEVEL in *. lia.
Qed.
Lemma cut_place : exists z, pl !! cut = Some z.
Proof. apply lookup_lt_is_Some_2. cbn. lia. Qed.
Lemma last_zero : last 0 = cut.
Proof.
  destruct cut_place as [z Hz]. apply (lastpos_unique _ _ _ _ z); [done|done| |lia]. destruct cut as [|c] eqn:E; [injection Hz as <-; cbn; unfold ZSKIPLIST_MAXLEVEL; lia|].
  cbn in Hz. apply list_elem_of_lookup_2 in Hz. pose proof (r_heights _ _ _ _ Hr z Hz). lia.
Qed.
(** The last place of the level above is not after the one of this level. *)
Lemma last_mono i : (S i < zlevel zsl)%nat -> (last (S i) <= last i)%nat.
Proof.
  intros Hi. destruct (last_place (S i) Hi) as (z & Hz & Hiz). destruct (le_lt_dec (last (S i)) (last i)); [done|]. pose proof (lastpos_le (S i) pl cut). pose proof (lastpos_between i pl cut (last (S i)) z ltac:(lia) Hz). lia.
Qed.

(** The test tells the places up to [cut] from those after it. *)
Definition splits (go : zskiplistNode -> result bool) : Prop := forall q z n, (1 <= q)%nat -> pl !! q = Some z -> h !! iloc z = Some n -> go n = inr (q <=? cut)%nat.

Lemma splits_next go q z : splits go -> (1 <= q)%nat -> pl !! q = Some z -> exists n, h !! iloc z = Some n /\ go n = inr (q <=? cut)%nat.
Proof. intros Hs Hq Hz. destruct (place_node _ _ _ _ Hr q z Hz) as (n & Hn & _). exists n. split; [done|]. by eapply Hs. Qed.

Lemma advance_ok fuel go i p y : splits go -> pl !! p = Some y -> (i < iheight y)%nat -> (i < zlevel zsl)%nat -> (p <= cut)%nat -> (cut - p <= fuel)%nat ->
  exists z, pl !! last i = Some z /\ advance fuel go h i (iloc y) = inr (iloc z).
Proof.
  intros Hs. revert p y. induction fuel as [|fuel IH]; intros p y Hy Hi Hl Hp Hf; cbn [advance];
    destruct (walk_step i p y Hy Hi Hl Hp) as [(El & [(s & Hc)|(q & z & Hq & Hz & Hc)])|(q & z & Hq & Hz & Hiz & Hc)]; rewrite (forward_at_cell _ _ _ _ _ Hc); cbn [mbind result_bind].
  all: try (rewrite El; by exists y).
  all: destruct (splits_next go q z Hs ltac:(lia) Hz) as (n & -> & Hg); cbn [the mbind result_bind]; rewrite Hg; cbn [mbind result_bind].
  - rewrite (proj2 (Nat.leb_gt _ _)) by lia. rewrite El. by exists y.
  - lia.
  - rewrite (proj2 (Nat.leb_gt _ _)) by lia. rewrite El. by exists y.
  - rewrite (proj2 (Nat.leb_le _ _)) by lia. apply (IH q z); try done; lia.
Qed.

Lemma advance_rank_ok fuel go i p y : splits go -> pl !! p = Some y -> (i < iheight y)%nat -> (i < zlevel zsl)%nat -> (p <= cut)%nat -> (cut - p <= fuel)%nat ->
  exists z, pl !! last i = Some z /\ advance_rank fuel go h i (iloc y) (Z.of_nat p) = inr (iloc z, Z.of_nat (last i)).
Proof.
  intros Hs. revert p y. induction fuel as [|fuel IH]; intros p y Hy Hi Hl Hp Hf; cbn [advance_rank];
    destruct (walk_step i p y Hy Hi Hl Hp) as [(El & [(s & Hc)|(q & z & Hq & Hz & Hc)])|(q & z & Hq & Hz & Hiz & Hc)]; rewrite (forward_at_cell _ _ _ _ _ Hc); cbn [mbind result_bind].
  all: try (rewrite El; by exists y).
  all: destruct (splits_next go q z Hs ltac:(lia) Hz) as (n & -> & Hg); cbn [the mbind result_bind]; rewrite Hg; cbn [mbind result_bind].
  - rewrite (proj2 (Nat.leb_gt _ _)) by lia. rewrite El. by exists y.
  - lia.
  - rewrite (proj2 (Nat.leb_gt _ _)) by lia. rewrite El. by exists y.
  - rewrite (proj2 (Nat.leb_le _ _)) by lia. rewrite (span_at_cell _ _ _ _ _ Hc). cbn [mbind result_bind].
    replace (u64 (Z.of_nat p + (Z.of_nat q - Z.of_nat p))) with (Z.of_nat q); [apply (IH q z); try done; lia|]. rewrite wrap_u_id by (unfold in_u; lia). lia.
Qed.

Lemma advance_span_ok fuel go i p y : (forall q, (1 <= q <= length xs)%nat -> go (Z.of_nat q) = (q <=? cut)%nat) ->
  pl !! p = Some y -> (i < iheight y)%nat -> (i < zlevel zsl)%nat -> (p <= cut)%nat -> (cut - p <= fuel)%nat ->
  exists z, pl !! last i = Some z /\ advance_span fuel go h i (iloc y) (Z.of_nat p) = inr (iloc z, Z.of_nat (last i)).
Proof.
  intros Hs. revert p y. induction fuel as [|fuel IH]; intros p y Hy Hi Hl Hp Hf; cbn [advance_span];
    destruct (walk_step i p y Hy Hi Hl Hp) as [(El & [(s & Hc)|(q & z & Hq & Hz & Hc)])|(q & z & Hq & Hz & Hiz & Hc)]; rewrite (forward_at_cell _ _ _ _ _ Hc); cbn [mbind result_bind].
  all: try (rewrite El; by exists y).
  all: pose proof (lookup_lt_Some _ _ _ Hz) as Hlt; cbn [places length] in Hlt; rewrite (span_at_cell _ _ _ _ _ Hc); cbn [mbind result_bind].
  all: replace (u64 (Z.of_nat p + (Z.of_nat q - Z.of_nat p))) with (Z.of_nat q) by (rewrite wrap_u_id by (unfold in_u; lia); lia); rewrite Hs by lia.
  - rewrite (proj2 (Nat.leb_gt _ _)) by lia. rewrite El. by exists y.
  - lia.
  - rewrite (proj2 (Nat.leb_gt _ _)) by lia. rewrite El. by exists y.
  - rewrite (proj2 (Nat.leb_le _ _)) by lia. apply (IH q z); try done; lia.
Qed.

(** ** The way down *)

(** The place where the walk along level [i] starts, with [i + 1] as [j]. *)
Definition start (j : nat) : nat := if (j =? zlevel zsl)%nat then O else last j.

Lemma start_ok i : (i < zlevel zsl)%nat -> exists y, pl !! start (S i) = Some y /\ (i < iheight y)%nat /\ (start (S i) <= cut)%nat.
Proof.
  intros Hi. unfold start. destruct (Nat.eqb_spec (S i) (zlevel zsl)) as [E|Hne].
  - eexists. split; [done|]. cbn. pose proof (r_level _ _ _ _ Hr). unfold ZSKIPLIST_MAXLEVEL in *. lia.
  - destruct (last_place (S i) ltac:(lia)) as (z & Hz & Hiz). exists z. split_and!; [done|lia|apply lastpos_le].
Qed.
Lemma start_below i : (i < zlevel zsl)%nat -> start i = last i.
Proof. intros Hi. unfold start. by rewrite (proj2 (Nat.eqb_neq _ _)) by lia. Qed.

(** [update] holds the last places of the levels from [j] on, [rank] their positions. *)
Definition updated (j : nat) (update : gmap nat loc) : Prop := forall i, (j <= i < zlevel zsl)%nat -> exists z, pl !! last i = Some z /\ update !! i = Some (iloc z).
Definition ranked (j : nat) (rank : gmap nat Z) : Prop := forall i, (j <= i < zlevel zsl)%nat -> rank !! i = Some (Z.of_nat (last i)).

Lemma updated_insert i z update : updated (S i) update -> pl !! last i = Some z -> updated i (<[i := iloc z]> update).
Proof.
  intros Hu Hz j Hj. destruct (decide (j = i)) as [->|Hne]; [exists z; by rewrite lookup_insert_eq|]. rewrite lookup_insert_ne by done. apply Hu. lia.
Qed.
Lemma ranked_insert i rank : ranked (S i) rank -> ranked i (<[i := Z.of_nat (last i)]> rank).
Proof. intros Hu j Hj. destruct (decide (j = i)) as [->|Hne]; [by rewrite lookup_insert_eq|]. rewrite lookup_insert_ne by done. apply Hu. lia. Qed.

(** The fuel of a walk. *)
Lemma walk_fuel p : (cut - p <= size h)%nat.
Proof. pose proof (place_fuel _ _ _ _ Hr) as H. cbn in H. lia. Qed.

Lemma search_ok go : splits go -> exists y update, search go h zsl = inr (iloc y, update) /\ pl !! cut = Some y /\ updated 0 update.
Proof.
  intros Hs. unfold search, levels_down.
  destruct (for_each_down (search_level go h) (fun j s => (exists y, pl !! start j = Some y /\ s.1 = iloc y) /\ updated j s.2) (zlevel zsl) (header zsl, ∅)) as ([x update] & -> & (y & Hy & Ex) & Hu).
  - split; [|intros i; lia]. unfold start. rewrite Nat.eqb_refl. by eexists.
  - intros i [x update] Hi [(y & Hy & Ex) Hu]. cbn [fst snd] in *. subst x. destruct (start_ok i Hi) as (y' & Hy' & Hh & Hc). rewrite Hy in Hy'. injection Hy' as <-. unfold search_level. cbn [fst snd].
    destruct (advance_ok (size h) go i (start (S i)) y Hs Hy Hh Hi Hc (walk_fuel _)) as (z & Hz & ->). cbn [mbind result_bind mret result_ret]. eexists. split; [done|].
    cbn [fst snd]. split; [exists z; by rewrite start_below|by apply updated_insert].
  - cbn [fst snd] in *. subst x. exists y, update. split; [done|]. split; [|done]. rewrite start_below, last_zero in Hy by (pose proof (r_level _ _ _ _ Hr); lia). done.
Qed.

Lemma descend_ok go : splits go -> exists y, descend go h zsl = inr (iloc y) /\ pl !! cut = Some y.
Proof.
  intros Hs. unfold descend, levels_down.
  destruct (for_each_down (fun x i => advance (size h) go h i x) (fun j x => exists y, pl !! start j = Some y /\ x = iloc y) (zlevel zsl) (header zsl)) as (x & -> & y & Hy & ->).
  - unfold start. rewrite Nat.eqb_refl. by eexists.
  - intros i x Hi (y & Hy & ->). destruct (start_ok i Hi) as (y' & Hy' & Hh & Hc). rewrite Hy in Hy'. injection Hy' as <-.
    destruct (advance_ok (size h) go i (start (S i)) y Hs Hy Hh Hi Hc (walk_fuel _)) as (z & Hz & ->). eexists. split; [done|]. exists z. by rewrite start_below.
  - exists y. split; [done|]. rewrite start_below, last_zero in Hy by (pose proof (r_level _ _ _ _ Hr); lia). done.
Qed.

Lemma insert_search_ok sc e : splits (comes_before sc e) ->
  exists x update rank, for_each (insert_level h zsl sc e) (header zsl, ∅, ∅) (levels_down zsl) = inr (x, update, rank) /\ updated 0 update /\ ranked 0 rank.
Proof.
  intros Hs. unfold levels_down.
  destruct (for_each_down (insert_level h zsl sc e) (fun j s => (exists y, pl !! start j = Some y /\ s.1.1 = iloc y) /\ updated j s.1.2 /\ ranked j s.2) (zlevel zsl) (header zsl, ∅, ∅)) as ([[x update] rank] & -> & _ & Hu & Hk).
  - split; [|split; intros i; lia]. unfold start. rewrite Nat.eqb_refl. by eexists.
  - intros i [[x update] rank] Hi [(y & Hy & Ex) [Hu Hk]]. cbn [fst snd] in *. subst x. destruct (start_ok i Hi) as (y' & Hy' & Hh & Hc). rewrite Hy in Hy'. injection Hy' as <-. unfold insert_level.
    assert ((if (i =? zlevel zsl - 1)%nat then mret 0 else the (rank !! S i)) = inr (Z.of_nat (start (S i)))) as ->.
    { unfold start. destruct (Nat.eqb_spec i (zlevel zsl - 1)), (Nat.eqb_spec (S i) (zlevel zsl)); try lia; [done|]. by rewrite Hk by lia. }
    cbn [mbind result_bind]. destruct (advance_rank_ok (size h) _ i (start (S i)) y Hs Hy Hh Hi Hc (walk_fuel _)) as (z & Hz & ->). cbn [mbind result_bind mret result_ret]. eexists. split; [done|].
    cbn [fst snd]. split; [exists z; by rewrite start_below|]. split; [by apply updated_insert|by apply ranked_insert].
  - by exists x, update, rank.
Qed.

Lemma rank_search_ok start0 : (forall q, (1 <= q <= length xs)%nat -> (Z.of_nat q <? start0) = (q <=? cut)%nat) ->
  exists y update, for_each (rank_level start0 h) (header zsl, ∅, 0) (levels_down zsl) = inr (iloc y, update, Z.of_nat cut) /\ pl !! cut = Some y /\ updated 0 update.
Proof.
  intros Hs. unfold levels_down.
  destruct (for_each_down (rank_level start0 h) (fun j s => (exists y, pl !! start j = Some y /\ s.1.1 = iloc y) /\ updated j s.1.2 /\ s.2 = Z.of_nat (start j)) (zlevel zsl) (header zsl, ∅, 0)) as ([[x update] t] & -> & (y & Hy & Ex) & Hu & Et).
  - split; [|split; [intros i; lia|]]; unfold start; rewrite Nat.eqb_refl; [by eexists|done].
  - intros i [[x update] t] Hi [(y & Hy & Ex) [Hu Et]]. cbn [fst snd] in *. subst x t. destruct (start_ok i Hi) as (y' & Hy' & Hh & Hc). rewrite Hy in Hy'. injection Hy' as <-. unfold rank_level.
    destruct (advance_span_ok (size h) (fun t => t <? start0) i (start (S i)) y Hs Hy Hh Hi Hc (walk_fuel _)) as (z & Hz & ->). cbn [mbind result_bind mret result_ret]. eexists. split; [done|].
    cbn [fst snd]. rewrite start_below by done. split; [by exists z|]. split; [by apply updated_insert|done].
  - cbn [fst snd] in *. subst x t. rewrite start_below, last_zero in * by (pose proof (r_level _ _ _ _ Hr); lia). by exists y, update.
Qed.
End Search.
