(* ===== verification/SkiplistInsert.v ===== *)
(** * Insertion in a skip list *)

From Stdlib Require Import Floats.SpecFloat.
From stdpp Require Import sorting.
From S2P Require Import Prelude Bytes Skiplist SkiplistRep.

(** ** The levels with a node more *)

Lemma next_app_high i (ys zs : list item) : (exists k y, ys !! k = Some y /\ (i < iheight y)%nat) -> lev i (ys ++ zs) = lev i ys.
Proof.
  intros (k & y & Hk & Hi). unfold lev. revert k Hk. induction ys as [|x ys IH]; intros [|k] Hk; try done; cbn [app fwd spn].
  - injection Hk as ->. by rewrite (proj2 (Nat.ltb_lt _ _) Hi).
  - destruct (i <? iheight x)%nat; [done|]. specialize (IH k Hk). injection IH as E1 E2. rewrite E1. by replace (spn i (ys ++ zs)) with (spn i ys) by lia.
Qed.
Lemma next_app_low i (ys zs : list item) : (forall k y, ys !! k = Some y -> (iheight y <= i)%nat) -> fwd i (ys ++ zs) = fwd i zs /\ spn i (ys ++ zs) = (length ys + spn i zs)%nat.
Proof.
  induction ys as [|x ys IH]; intros Hall; [done|]. cbn [app fwd spn length]. pose proof (Hall 0%nat x eq_refl). rewrite (proj2 (Nat.ltb_ge _ _)) by done. destruct IH as [-> ->]; [intros k; apply (Hall (S k))|]. done.
Qed.

Section Levels.
Context (hd : loc) (xs : list item) (x : item) (cut : nat) (Hcut : (cut <= length xs)%nat).
Notation pl := (hitem hd :: xs).
Definition with_item : list item := take cut xs ++ x :: drop cut xs.
Notation xs' := with_item.
Notation lastp i := (lastpos i pl cut).

Lemma drop_with p : (p <= cut)%nat -> drop p xs' = drop p (take cut xs) ++ x :: drop cut xs.
Proof. intros Hp. unfold with_item. rewrite drop_app_le; [done|]. rewrite length_take. lia. Qed.
Lemma drop_without p : (p <= cut)%nat -> drop p xs = drop p (take cut xs) ++ drop cut xs.
Proof. intros Hp. rewrite <- (take_drop cut xs) at 1. rewrite drop_app_le; [done|]. rewrite length_take. lia. Qed.
Lemma drop_beyond p : (cut <= p)%nat -> drop (S p) xs' = drop p xs.
Proof.
  intros Hp. unfold with_item. rewrite drop_app_ge by (rewrite length_take; lia). rewrite length_take. replace (S p - min cut (length xs))%nat with (S (p - cut)) by lia. cbn [drop]. rewrite drop_drop. f_equal. lia.
Qed.
Lemma with_lookup p : (hitem hd :: xs') !! p = if (p <=? cut)%nat then pl !! p else if (p =? S cut)%nat then Some x else pl !! (p - 1)%nat.
Proof.
  destruct p as [|p]; [done|]. change ((hitem hd :: xs') !! S p) with (xs' !! p). change (pl !! S p) with (xs !! p). unfold with_item. destruct (Nat.leb_spec (S p) cut).
  - rewrite lookup_app_l by (rewrite length_take; lia). by rewrite lookup_take_lt by lia.
  - rewrite lookup_app_r by (rewrite length_take; lia). rewrite length_take. replace (p - min cut (length xs))%nat with (p - cut)%nat by lia. destruct (Nat.eqb_spec (S p) (S cut)) as [E|Hne].
    + by replace (p - cut)%nat with 0%nat by lia.
    + destruct (p - cut)%nat as [|k] eqn:E; [lia|]. change ((x :: drop cut xs) !! S k) with (drop cut xs !! k). rewrite lookup_drop. replace (S p - 1)%nat with (S (cut + k)) by lia. done.
Qed.
Lemma between_lookup p k : (p <= cut)%nat -> drop p (take cut xs) !! k = if (p + k <? cut)%nat then pl !! (p + S k)%nat else None.
Proof.
  intros Hp. rewrite lookup_drop. replace (p + S k)%nat with (S (p + k)) by lia. change (pl !! S (p + k)) with (xs !! (p + k)%nat). destruct (Nat.ltb_spec (p + k) cut); [by rewrite lookup_take_lt|by rewrite lookup_take_ge].
Qed.

(** At the last place before the cut the level goes across it. *)
Lemma lev_last i p : lastp i = p ->
  fwd i (drop p xs) = fwd i (drop cut xs) /\ spn i (drop p xs) = (cut - p + spn i (drop cut xs))%nat /\
  fwd i (drop p xs') = (if (i <? iheight x)%nat then Some (iloc x) else fwd i (drop cut xs)) /\
  spn i (drop p xs') = (cut - p + (if (i <? iheight x)%nat then 1 else S (spn i (drop cut xs))))%nat.
Proof.
  intros Hl. pose proof (lastpos_le i pl cut) as Hle. rewrite Hl in Hle. rewrite (drop_with p), (drop_without p) by done.
  assert (forall k y, drop p (take cut xs) !! k = Some y -> (iheight y <= i)%nat) as Hlow. { intros k y Hy. rewrite between_lookup in Hy by done. destruct (Nat.ltb_spec (p + k) cut); [|done]. eapply (lastpos_between i pl cut); [|exact Hy]. lia. }
  destruct (next_app_low i _ (drop cut xs) Hlow) as [-> ->]. destruct (next_app_low i _ (x :: drop cut xs) Hlow) as [-> ->]. rewrite length_drop, length_take. cbn [fwd spn]. split_and!; try done; lia.
Qed.
(** Before it the level is not affected. *)
Lemma lev_before i p : (p < lastp i)%nat -> lev i (drop p xs') = lev i (drop p xs).
Proof.
  intros Hp. pose proof (lastpos_le i pl cut) as Hle. rewrite (drop_with p), (drop_without p) by lia. destruct (lastpos_high i pl cut ltac:(lia)) as (y & Hy & Hi).
  assert (exists k z, drop p (take cut xs) !! k = Some z /\ (i < iheight z)%nat) as Hh. { exists (lastp i - S p)%nat, y. rewrite between_lookup by lia. rewrite (proj2 (Nat.ltb_lt _ _)) by lia. by replace (p + S (lastp i - S p))%nat with (lastp i) by lia. }
  by rewrite (next_app_high i _ (x :: drop cut xs) Hh), (next_app_high i _ (drop cut xs) Hh).
Qed.
End Levels.

(** ** New levels *)

Definition with_level (zsl : zskiplist) (l : nat) : zskiplist := mk_zsl (header zsl) (tail zsl) (zlength zsl) l.

Lemma low_lev i xs : (forall y, y ∈ xs -> (iheight y <= i)%nat) -> lev i xs = mk_level (Some None) (Some (Z.of_nat (length xs))).
Proof.
  intros Hall. destruct (next_app_low i xs []) as [E1 E2]; [intros k y Hy; apply Hall; by eapply list_elem_of_lookup_2|]. rewrite app_nil_r in *. unfold lev. rewrite E1, E2. cbn. by rewrite Nat.add_0_r.
Qed.
Lemma last_low hd xs i cut : (forall y, y ∈ xs -> (iheight y <= i)%nat) -> lastpos i (hitem hd :: xs) cut = O.
Proof.
  intros Hall. destruct (decide (lastpos i (hitem hd :: xs) cut = O)) as [|Hne]; [done|]. destruct (lastpos_high _ _ _ Hne) as (y & Hy & Hi). destruct (lastpos _ _ _) as [|p]; [done|].
  apply (list_elem_of_lookup_2 xs p y), Hall in Hy. lia.
Qed.

Lemma rep_raise h zsl xs ext h' : rep h zsl xs ext -> (zlevel zsl < ZSKIPLIST_MAXLEVEL)%nat ->
  cell_set h (header zsl) (zlevel zsl) (mk_level (Some None) (Some (zlength zsl))) h' -> rep h' (with_level zsl (S (zlevel zsl))) xs ext.
Proof.
  intros Hr Hl (Hc & Hi & Hd). pose proof (r_level _ _ _ _ Hr) as Hlv. assert (forall y, y ∈ xs -> (iheight y <= zlevel zsl)%nat) as Hlow by (intros y Hy; apply (r_heights _ _ _ _ Hr y Hy)). split; try (by destruct Hr); cbn.
  - intros p y Hy. rewrite Hi. by apply (r_info _ _ _ _ Hr).
  - intros p y i Hy Hh Hlt. rewrite Hc. destruct (decide (iloc y = header zsl /\ i = zlevel zsl)) as [[E ->]|Hne].
    + assert (p = O) as -> by by eapply (place_inj _ _ _ _ Hr p 0). rewrite drop_0. by rewrite (low_lev _ _ Hlow), (r_len _ _ _ _ Hr).
    + apply (r_cell _ _ _ _ Hr); [done..|]. destruct (decide (i = zlevel zsl)) as [->|]; [|lia]. destruct p as [|p]; [injection Hy as <-; tauto|]. apply (list_elem_of_lookup_2 xs p y), Hlow in Hy. lia.
  - intros i Hlt. rewrite Hc, decide_False by lia. apply (r_top _ _ _ _ Hr). lia.
  - lia.
  - intros y Hy. pose proof (r_heights _ _ _ _ Hr y Hy). lia.
  - rewrite Hd. apply (r_dom _ _ _ _ Hr).
Qed.

Lemma raise_ok h zsl xs ext cut update rank lv :
  rep h zsl xs ext -> (zlevel zsl <= lv <= ZSKIPLIST_MAXLEVEL)%nat -> updated zsl xs cut 0 update -> ranked zsl xs cut 0 rank ->
  exists h' update' rank', for_each (raise_level zsl) (h, update, rank) (seq (zlevel zsl) (lv - zlevel zsl)) = inr (h', update', rank') /\
    rep h' (with_level zsl lv) xs ext /\ updated (with_level zsl lv) xs cut 0 update' /\ ranked (with_level zsl lv) xs cut 0 rank'.
Proof.
  intros Hr Hlv Hu Hk. pose proof (r_level _ _ _ _ Hr).
  destruct (for_each_up (raise_level zsl) (fun j s => rep s.1.1 (with_level zsl j) xs ext /\ updated (with_level zsl j) xs cut 0 s.1.2 /\ ranked (with_level zsl j) xs cut 0 s.2) (zlevel zsl) (lv - zlevel zsl) (h, update, rank)) as ([[h' u'] r'] & -> & H').
  - by destruct zsl.
  - intros i [[h1 u1] r1] Hi (Hr1 & Hu1 & Hk1). cbn [fst snd] in *. unfold raise_level. destruct (r_top _ _ _ _ Hr1 i) as [s Hs]; [cbn; lia|].
    destruct (set_span_ok _ _ _ _ _ (zlength zsl) Hs) as (h2 & E2 & Hc2). cbn [header with_level] in E2. rewrite E2. cbn [mbind result_bind mret result_ret]. eexists. split; [done|]. cbn [fst snd].
    assert (forall y, y ∈ xs -> (iheight y <= i)%nat) as Hlow by (intros y Hy; pose proof (r_heights _ _ _ _ Hr y Hy); lia).
    split; [by apply (rep_raise _ _ _ _ _ Hr1); [cbn; lia|]|]. split.
    + intros j Hj. cbn [zlevel with_level] in Hj. destruct (decide (j = i)) as [->|Hne].
      * exists (hitem (header zsl)). unfold places. rewrite last_low by done. by rewrite lookup_insert_eq.
      * rewrite lookup_insert_ne by done. apply Hu1. cbn. lia.
    + intros j Hj. cbn [zlevel with_level] in Hj. destruct (decide (j = i)) as [->|Hne].
      * unfold places. rewrite last_low by done. by rewrite lookup_insert_eq.
      * rewrite lookup_insert_ne by done. apply Hk1. cbn. lia.
  - replace (zlevel zsl + (lv - zlevel zsl))%nat with lv in H' by lia. exists h', u', r'. by split.
Qed.

(** ** Linking the new node *)

Section Link.
Context (h : heap) (zsl : zskiplist) (xs : list item) (ext : gset loc) (Hr : rep h zsl xs ext).
Context (cut : nat) (Hcut : (cut <= length xs)%nat) (Hlen : Z.of_nat (length xs) < 2 ^ 63).
Context (update : gmap nat loc) (Hu : updated zsl xs cut 0 update) (rank : gmap nat Z) (Hk : ranked zsl xs cut 0 rank).
Context (x : item) (Hx : h !! iloc x = None) (Hxl : (1 <= iheight x <= zlevel zsl)%nat).
Notation pl := (places zsl xs).
Notation lastp i := (lastpos i pl cut).
Notation xs' := (with_item xs x cut).

(** The levels when those below [j] are done. *)
Definition linked (j : nat) (y : loc) (i : nat) : option zskiplistLevel :=
  if decide (y = iloc x) then if (i <? iheight x)%nat then Some (if (i <? j)%nat then lev i (drop cut xs) else mk_level None None) else None
  else if decide (update !! i = Some y /\ (i < j)%nat) then Some (lev i (drop (lastp i) xs')) else cell h y i.

Lemma update_place i : (i < zlevel zsl)%nat -> exists z, pl !! lastp i = Some z /\ (i < iheight z)%nat /\ update !! i = Some (iloc z) /\ iloc z <> iloc x /\
  cell h (iloc z) i = Some (mk_level (Some (fwd i (drop cut xs))) (Some (Z.of_nat (cut - lastp i + spn i (drop cut xs))))).
Proof.
  intros Hi. destruct (last_place h zsl xs ext Hr cut Hcut i Hi) as (z & Hz & Hiz). destruct (Hu i ltac:(lia)) as (z' & Hz' & Hup). rewrite Hz in Hz'. injection Hz' as <-. exists z.
  destruct (place_node _ _ _ _ Hr _ _ Hz) as (n & Hn & _). split_and!; try done; [congruence|]. rewrite (r_cell _ _ _ _ Hr _ _ _ Hz Hiz Hi). unfold lev. destruct (lev_last (header zsl) xs x cut Hcut i (lastp i) eq_refl) as (-> & -> & _). done.
Qed.

Lemma linked_step j y i : linked (S j) y i =
  if decide (y = iloc x /\ i = j) then if (i <? iheight x)%nat then Some (lev i (drop cut xs)) else None
  else if decide (y <> iloc x /\ update !! i = Some y /\ i = j) then Some (lev i (drop (lastp i) xs')) else linked j y i.
Proof.
  unfold linked. destruct (decide (y = iloc x)) as [->|Hne].
  - destruct (decide (i = j)) as [->|Hj]; [rewrite decide_True by done; by rewrite (proj2 (Nat.ltb_lt j (S j))) by lia|]. rewrite !decide_False by tauto. assert ((i <? S j)%nat = (i <? j)%nat) as -> by (destruct (Nat.ltb_spec i (S j)), (Nat.ltb_spec i j); lia). done.
  - rewrite (decide_False (P := y = iloc x /\ i = j)) by tauto. repeat case_decide; try done; exfalso; intuition lia.
Qed.

(** The cells of the heap, one level after the other. *)
Definition linking (j : nat) (g : heap) : Prop := (forall y i, cell g y i = linked j y i) /\ (forall y, info g y = info (<[iloc x := mk_node (iele x) (iscore x) None (replicate (iheight x) (mk_level None None))]> h) y) /\ dom g = {[iloc x]} ∪ dom h.

Lemma linked_old j y : y <> iloc x -> linked j y j = cell h y j.
Proof. intros Hne. unfold linked. rewrite decide_False by done. rewrite decide_False by lia. done. Qed.

Lemma spans_small i : (cut - lastp i + spn i (drop cut xs) <= length xs)%nat.
Proof. pose proof (spn_le i (drop cut xs)) as H. rewrite length_drop in H. lia. Qed.

Lemma grow_ok i g : (iheight x <= i < zlevel zsl)%nat -> linking i g -> exists g', grow_span update g i = inr g' /\ linking (S i) g'.
Proof.
  intros Hi (Hc & Hin & Hd). destruct (update_place i ltac:(lia)) as (z & Hz & Hiz & Hup & Hne & Hcell). unfold grow_span. rewrite Hup. cbn [the mbind result_bind].
  assert (cell g (iloc z) i = Some (mk_level (Some (fwd i (drop cut xs))) (Some (Z.of_nat (cut - lastp i + spn i (drop cut xs)))))) as Hz0 by (rewrite Hc, linked_old; done).
  rewrite (span_at_cell _ _ _ _ _ Hz0). cbn [mbind result_bind]. pose proof (spans_small i). rewrite wrap_u_id by (unfold in_u; lia). destruct (set_span_ok _ _ _ _ _ (Z.of_nat (cut - lastp i + spn i (drop cut xs)) + 1) Hz0) as (g' & -> & Hc' & Hi' & Hd').
  exists g'. split; [done|]. split_and!; [|intros y; by rewrite Hi'|congruence]. intros y k. rewrite Hc', linked_step, Hc. destruct (decide (y = iloc x /\ k = i)) as [[-> ->]|H1].
  - rewrite decide_False by (intros [? _]; congruence). unfold linked. rewrite decide_True by done. by rewrite (proj2 (Nat.ltb_ge _ _)) by lia.
  - destruct (decide (y = iloc z /\ k = i)) as [[-> ->]|H2]; [rewrite decide_True by done|rewrite decide_False; [done|intros (_ & E & ->); rewrite Hup in E; injection E as E; by apply H2]].
    unfold lev. destruct (lev_last (header zsl) xs x cut Hcut i (lastp i) eq_refl) as (_ & _ & -> & ->). rewrite (proj2 (Nat.ltb_ge _ _)) by lia. repeat f_equal. lia.
Qed.

Lemma link_ok i g : (i < iheight x)%nat -> linking i g -> exists g', link_level (iloc x) update rank g i = inr g' /\ linking (S i) g'.
Proof.
  intros Hi (Hc & Hin & Hd). destruct (update_place i ltac:(lia)) as (z & Hz & Hiz & Hup & Hne & Hcell). unfold link_level. rewrite Hup. cbn [the mbind result_bind]. set (f := fwd i (drop cut xs)) in *. set (s := Z.of_nat (cut - lastp i + spn i (drop cut xs))) in *.
  assert (cell g (iloc z) i = Some (mk_level (Some f) (Some s))) as Hz0 by (rewrite Hc, linked_old; done). rewrite (forward_at_cell _ _ _ _ _ Hz0). cbn [mbind result_bind].
  assert (cell g (iloc x) i = Some (mk_level None None)) as Hx0 by (rewrite Hc; unfold linked; rewrite decide_True by done; rewrite (proj2 (Nat.ltb_lt _ _)) by done; by rewrite (proj2 (Nat.ltb_ge i i)) by lia).
  destruct (set_forward_ok _ _ _ _ _ f Hx0) as (g1 & -> & Hc1 & Hi1 & Hd1). cbn [mbind result_bind].
  assert (cell g1 (iloc z) i = Some (mk_level (Some f) (Some s))) as Hz1 by (rewrite Hc1, decide_False by tauto; done). destruct (set_forward_ok _ _ _ _ _ (Some (iloc x)) Hz1) as (g2 & -> & Hc2 & Hi2 & Hd2). cbn [mbind result_bind].
  assert (cell g2 (iloc z) i = Some (mk_level (Some (Some (iloc x))) (Some s))) as Hz2 by (rewrite Hc2, decide_True by tauto; done). rewrite (span_at_cell _ _ _ _ _ Hz2). cbn [mbind result_bind].
  rewrite !Hk by lia. rewrite (last_zero _ _ _ _ Hr _ Hcut). cbn [the mbind result_bind]. pose proof (spans_small i). pose proof (lastpos_le i pl cut). unfold s. rewrite !wrap_u_id by (unfold in_u; lia).
  assert (cell g2 (iloc x) i = Some (mk_level (Some f) None)) as Hx2 by (rewrite Hc2, decide_False by (intros [? _]; congruence); rewrite Hc1, decide_True by tauto; done).
  destruct (set_span_ok _ _ _ _ _ (Z.of_nat (cut - lastp i + spn i (drop cut xs)) - (Z.of_nat cut - Z.of_nat (lastp i))) Hx2) as (g3 & -> & Hc3 & Hi3 & Hd3). cbn [mbind result_bind].
  assert (cell g3 (iloc z) i = Some (mk_level (Some (Some (iloc x))) (Some s))) as Hz3 by (rewrite Hc3, decide_False by tauto; done).
  destruct (set_span_ok _ _ _ _ _ (Z.of_nat cut - Z.of_nat (lastp i) + 1) Hz3) as (g4 & -> & Hc4 & Hi4 & Hd4). exists g4. split; [done|]. split_and!; [|intros y; by rewrite Hi4, Hi3, Hi2, Hi1|congruence].
  intros y k. rewrite Hc4, Hc3, Hc2, Hc1, linked_step, Hc. destruct (decide (y = iloc x /\ k = i)) as [[-> ->]|H1].
  - rewrite (decide_False (P := iloc x = iloc z /\ i = i)) by (intros [? _]; congruence). rewrite (proj2 (Nat.ltb_lt _ _)) by done. unfold lev, f. repeat f_equal. lia.
  - destruct (decide (y = iloc z /\ k = i)) as [[-> ->]|H2]; [rewrite decide_True by done|rewrite decide_False; [done|intros (_ & E & ->); rewrite Hup in E; injection E as E; by apply H2]].
    unfold lev. destruct (lev_last (header zsl) xs x cut Hcut i (lastp i) eq_refl) as (_ & _ & -> & ->). rewrite (proj2 (Nat.ltb_lt _ _)) by done. repeat f_equal. lia.
Qed.

Lemma created_ok : linking 0 (<[iloc x := mk_node (iele x) (iscore x) None (replicate (iheight x) (mk_level None None))]> h).
Proof.
  split_and!; [|done|by rewrite dom_insert_L]. intros y i. unfold cell at 1, linked. destruct (decide (y = iloc x)) as [->|Hne].
  - rewrite lookup_insert_eq. cbn [level]. destruct (Nat.ltb_spec i (iheight x)); [by rewrite lookup_replicate_2|]. apply lookup_ge_None_2. rewrite length_replicate. lia.
  - rewrite lookup_insert_ne by done. by rewrite decide_False by lia.
Qed.

Lemma links_ok : exists g, (h1 ← for_each (link_level (iloc x) update rank) (<[iloc x := mk_node (iele x) (iscore x) None (replicate (iheight x) (mk_level None None))]> h) (seq 0 (iheight x));
    for_each (grow_span update) h1 (seq (iheight x) (zlevel zsl - iheight x))) = inr g /\ linking (zlevel zsl) g.
Proof.
  destruct (for_each_up (link_level (iloc x) update rank) linking 0 (iheight x) _ created_ok) as (g1 & -> & H1); [intros i g Hi; apply link_ok; lia|]. cbn [mbind result_bind].
  destruct (for_each_up (grow_span update) linking (iheight x) (zlevel zsl - iheight x) g1 H1) as (g2 & -> & H2); [intros i g Hi; apply grow_ok; lia|]. exists g2. split; [done|]. by replace (zlevel zsl) with (iheight x + (zlevel zsl - iheight x))%nat by lia.
Qed.

(** The heap with the [backward] pointers set. *)
Definition finished (g : heap) : Prop :=
  (forall y i, cell g y i = linked (zlevel zsl) y i) /\ dom g = {[iloc x]} ∪ dom h /\
  info g (iloc x) = Some (iele x, iscore x, Some (back (hitem (header zsl) :: xs') (S cut)), iheight x) /\
  forall p y, pl !! p = Some y -> info g (iloc y) = Some (iele y, iscore y, Some (if (p =? S cut)%nat then Some (iloc x) else back pl p), iheight y).

Lemma with_perm : xs' ≡ₚ x :: xs.
Proof. unfold with_item. rewrite <- Permutation_middle. by rewrite take_drop. Qed.
Lemma with_length : length xs' = S (length xs).
Proof. by rewrite with_perm. Qed.

Lemma linked_place p y i : pl !! p = Some y -> (i < iheight y)%nat -> (i < zlevel zsl)%nat -> iloc y <> iloc x ->
  linked (zlevel zsl) (iloc y) i = Some (lev i (drop (if (p <=? cut)%nat then p else S p) xs')).
Proof.
  intros Hy Hh Hi Hne. unfold linked. rewrite decide_False by done. destruct (update_place i Hi) as (z & Hz & Hiz & Hup & _). pose proof (lastpos_le i pl cut) as Hle.
  destruct (decide (lastp i = p)) as [E|Hp].
  - subst p. rewrite Hy in Hz. injection Hz as <-. rewrite decide_True by done. by rewrite (proj2 (Nat.leb_le _ _) Hle).
  - rewrite decide_False by (intros [E _]; rewrite Hup in E; injection E as E; apply Hp; by eapply (place_inj _ _ _ _ Hr)). rewrite (r_cell _ _ _ _ Hr _ _ _ Hy Hh Hi). f_equal. destruct (Nat.leb_spec p cut).
    + symmetry. apply (lev_before (header zsl)); [done|]. fold pl. destruct (le_lt_dec p (lastp i)); [lia|]. pose proof (lastpos_between i pl cut p y ltac:(lia) Hy). lia.
    + by rewrite drop_beyond by lia.
Qed.

Lemma with_place p y : (hitem (header zsl) :: xs') !! p = Some y -> (p = S cut /\ y = x) \/ (exists q, pl !! q = Some y /\ p = if (q <=? cut)%nat then q else S q).
Proof.
  intros Hy. rewrite (with_lookup (header zsl) xs x cut Hcut) in Hy. destruct (Nat.leb_spec p cut); [right; exists p; by rewrite (proj2 (Nat.leb_le _ _))|]. destruct (Nat.eqb_spec p (S cut)); [left; by injection Hy as <-|].
  right. exists (p - 1)%nat. rewrite (proj2 (Nat.leb_gt _ _)) by lia. split; [done|lia].
Qed.

Lemma place_new p y : pl !! p = Some y -> iloc y <> iloc x.
Proof. intros Hy E. destruct (place_node _ _ _ _ Hr _ _ Hy) as (n & Hn & _). congruence. Qed.

Lemma back_with q y : pl !! q = Some y -> back (hitem (header zsl) :: xs') (if (q <=? cut)%nat then q else S q) = if (q =? S cut)%nat then Some (iloc x) else back pl q.
Proof.
  intros Hy. unfold back. destruct (Nat.eqb_spec q (S cut)) as [->|Hne].
  - rewrite (proj2 (Nat.leb_gt _ _)) by lia. rewrite (with_lookup (header zsl) xs x cut Hcut). rewrite (proj2 (Nat.leb_gt _ _)), Nat.eqb_refl by lia. done.
  - destruct (Nat.leb_spec q cut).
    + destruct q as [|[|q]]; [done..|]. rewrite (with_lookup (header zsl) xs x cut Hcut). by rewrite (proj2 (Nat.leb_le _ _)) by lia.
    + destruct q as [|[|q]]; [lia..|]. rewrite (with_lookup (header zsl) xs x cut Hcut). rewrite (proj2 (Nat.leb_gt _ _)), (proj2 (Nat.eqb_neq _ _)) by lia. done.
Qed.

Lemma finished_rep g tl : finished g -> real x -> sorted xs' -> tl = iloc <$> list.last xs' -> rep g (mk_zsl (header zsl) tl (zlength zsl + 1) (zlevel zsl)) xs' ext.
Proof.
  intros (Hc & Hd & Hix & Hin) Hre Hso ->. assert (iloc x ∉ dom h) as Hxd by (by apply not_elem_of_dom). rewrite (r_dom _ _ _ _ Hr) in Hxd. assert (iloc <$> (hitem (header zsl) :: xs') ≡ₚ iloc x :: (iloc <$> pl)) as Hpm by (cbn [fmap list_fmap]; rewrite with_perm; apply perm_swap).
  split; cbn [header tail zlength zlevel].
  - intros p y Hy. destruct (with_place p y Hy) as [[-> ->]|(q & Hq & ->)]; [exact Hix|]. rewrite (Hin q y Hq), <- (back_with q y Hq). done.
  - intros p y i Hy Hh Hi. rewrite Hc. destruct (with_place p y Hy) as [[-> ->]|(q & Hq & ->)]; [|by apply linked_place, place_new with q].
    unfold linked. rewrite decide_True by done. rewrite !(proj2 (Nat.ltb_lt _ _)) by done. by rewrite drop_beyond by done.
  - intros i Hi. rewrite Hc. unfold linked. rewrite decide_False by (by apply (place_new 0 (hitem (header zsl)))). rewrite decide_False by lia. by apply (r_top _ _ _ _ Hr).
  - done.
  - rewrite with_length, (r_len _ _ _ _ Hr). lia.
  - apply (r_level _ _ _ _ Hr).
  - intros y Hy. rewrite with_perm in Hy. apply elem_of_cons in Hy as [->|Hy]; [lia|]. by apply (r_heights _ _ _ _ Hr).
  - intros y Hy. rewrite with_perm in Hy. apply elem_of_cons in Hy as [->|Hy]; [done|]. by apply (r_real _ _ _ _ Hr).
  - done.
  - rewrite Hpm. apply NoDup_cons. split; [set_solver|apply (r_locs _ _ _ _ Hr)].
  - change (places _ xs') with (hitem (header zsl) :: xs'). rewrite Hd, (r_dom _ _ _ _ Hr), (list_to_set_perm_L _ _ Hpm). cbn [list_to_set foldr]. by rewrite (assoc_L (∪)).
  - intros y Hy. rewrite Hpm in Hy. apply elem_of_cons in Hy as [->|Hy]; [set_solver|by apply (r_ext _ _ _ _ Hr)].
Qed.

Lemma fwd_zero ys : (forall y, y ∈ ys -> (1 <= iheight y)%nat) -> fwd 0 ys = iloc <$> (ys !! O).
Proof. destruct ys as [|y ys]; [done|]. intros H. cbn [fwd]. rewrite (proj2 (Nat.ltb_lt _ _)); [done|]. apply H. by left. Qed.

Lemma fwd_cut : fwd 0 (drop cut xs) = iloc <$> pl !! S cut.
Proof.
  rewrite fwd_zero; [|intros y Hy; apply (r_heights _ _ _ _ Hr); apply list_elem_of_lookup in Hy as [k Hy]; rewrite lookup_drop in Hy; by eapply list_elem_of_lookup_2]. rewrite lookup_drop. by rewrite Nat.add_0_r.
Qed.

Lemma last_with : list.last xs' = match pl !! S cut with Some _ => list.last xs | None => Some x end.
Proof.
  unfold with_item. rewrite last_app_cons. change (pl !! S cut) with (xs !! cut). destruct (xs !! cut) as [y|] eqn:E.
  - rewrite <- (take_drop cut xs) at 2. rewrite (drop_S _ _ _ E). rewrite last_app_cons. by rewrite last_cons_cons.
  - apply lookup_ge_None_1 in E. by rewrite drop_ge.
Qed.

(** The rest of [zslInsert] after the spans. *)
Lemma finish_ok g : linking (zlevel zsl) g ->
  exists g' tl, (u ← the (update !! O);
      h ← set_backward g (iloc x) (if decide (u = header zsl) then None else Some u);
      f ← forward_at h (iloc x) 0;
      match f with Some y => h ← set_backward h y (Some (iloc x)); mret (h, tail zsl) | None => mret (h, Some (iloc x)) end) = inr (g', tl) /\
    finished g' /\ tl = iloc <$> list.last xs'.
Proof.
  intros (Hc & Hin & Hd). destruct (update_place 0 ltac:(lia)) as (z & Hz & _ & Hup & Hne & _). rewrite (last_zero _ _ _ _ Hr _ Hcut) in Hz. rewrite Hup. cbn [the mbind result_bind]. set (b := if decide _ then _ else _).
  assert (b = back (hitem (header zsl) :: xs') (S cut)) as Eb.
  { unfold b, back. destruct cut as [|c] eqn:Ec; [injection Hz as <-; by rewrite decide_True|]. rewrite decide_False by (intros E; by pose proof (place_inj _ _ _ _ Hr (S c) 0 z (hitem (header zsl)) Hz eq_refl E)).
    rewrite (with_lookup (header zsl) xs x (S c) Hcut). rewrite (proj2 (Nat.leb_le _ _)) by lia. change (hitem (header zsl) :: xs) with pl. by rewrite Hz. }
  assert (info g (iloc x) = Some (iele x, iscore x, None, iheight x)) as Hix by (rewrite Hin; unfold info; rewrite lookup_insert_eq; cbn; by rewrite length_replicate).
  assert (forall p y, pl !! p = Some y -> info g (iloc y) = Some (iele y, iscore y, Some (back pl p), iheight y)) as Hiy.
  { intros p y Hy. rewrite Hin. unfold info. rewrite lookup_insert_ne by (intros E; by apply (place_new p y Hy)). apply (r_info _ _ _ _ Hr _ _ Hy). }
  destruct (set_backward_ok g (iloc x) b) as (g1 & -> & Hc1 & Hd1 & Hi1); [by rewrite Hix|]. cbn [mbind result_bind].
  assert (cell g1 (iloc x) 0 = Some (lev 0 (drop cut xs))) as Hf. { rewrite Hc1, Hc. unfold linked. rewrite decide_True by done. by rewrite !(proj2 (Nat.ltb_lt _ _)) by lia. }
  rewrite (forward_at_cell _ _ _ _ _ Hf). cbn [mbind result_bind]. rewrite fwd_cut. rewrite last_with. destruct (pl !! S cut) as [y|] eqn:Ey; cbn [fmap option_fmap option_map].
  - destruct (set_backward_ok g1 (iloc y) (Some (iloc x))) as (g2 & -> & Hc2 & Hd2 & Hi2); [rewrite Hi1, decide_False by (by apply (place_new _ _ Ey)); by rewrite (Hiy _ _ Ey)|]. cbn [mbind result_bind mret result_ret].
    eexists g2, _. split; [done|]. split; [|apply (r_tail _ _ _ _ Hr)]. split_and!; [intros; by rewrite Hc2, Hc1|congruence|..].
    + rewrite Hi2, decide_False by (intros E; symmetry in E; by apply (place_new _ _ Ey)). rewrite Hi1, decide_True, Hix by done. cbn. by rewrite Eb.
    + intros p w Hw. rewrite Hi2. destruct (decide (iloc w = iloc y)) as [E|Hwy].
      * assert (p = S cut) as -> by by eapply (place_inj _ _ _ _ Hr). rewrite Nat.eqb_refl. rewrite Hw in Ey. injection Ey as <-. rewrite Hi1, decide_False by (by apply (place_new _ _ Hw)). by rewrite (Hiy _ _ Hw).
      * rewrite Hi1, decide_False by (by apply (place_new _ _ Hw)). rewrite (Hiy _ _ Hw). destruct (Nat.eqb_spec p (S cut)) as [->|]; [congruence|done].
  - eexists g1, _. split; [done|]. split; [|done]. split_and!; [intros; by rewrite Hc1|congruence|..].
    + rewrite Hi1, decide_True, Hix by done. cbn. by rewrite Eb.
    + intros p w Hw. rewrite Hi1, decide_False by (by apply (place_new _ _ Hw)). rewrite (Hiy _ _ Hw). destruct (Nat.eqb_spec p (S cut)) as [->|]; [congruence|done].
Qed.
End Link.

(** ** [zslInsert] *)

Lemma random_level_range lv rnd r rnd' : (1 <= lv)%nat -> random_level lv rnd = inr (r, rnd') -> (1 <= r <= ZSKIPLIST_MAXLEVEL)%nat.
Proof.
  revert lv. induction rnd as [|d rnd IH]; intros lv Hlv E; [done|]. cbn [random_level] in E. destruct (d <? threshold); [eapply (IH (S lv)); [lia|done]|]. injection E as <- <-. unfold ZSKIPLIST_MAXLEVEL. destruct (Nat.ltb_spec lv 32); lia.
Qed.

(** An element at its place in the order. *)
Lemma sorted_with xs x c : sorted xs -> (forall p y, xs !! p = Some y -> if (p <? c)%nat then item_lt y x else item_lt x y) -> sorted (with_item xs x c).
Proof.
  intros Hs Hside. unfold sorted in *. rewrite <- (take_drop c xs) in Hs. apply StronglySorted_app in Hs as (H12 & H1 & H2). unfold with_item. apply StronglySorted_app. split_and!; [|done|].
  - intros a b Ha Hb. apply elem_of_cons in Hb as [->|Hb]; [|by apply H12]. apply list_elem_of_lookup in Ha as [p Hp]. apply lookup_take_Some in Hp as [Hp Hlt]. pose proof (Hside p a Hp) as H. by rewrite (proj2 (Nat.ltb_lt _ _)) in H.
  - apply StronglySorted_cons. split; [|done]. apply Forall_forall. intros b Hb. apply list_elem_of_lookup in Hb as [p Hp]. rewrite lookup_drop in Hp. pose proof (Hside _ b Hp) as H. by rewrite (proj2 (Nat.ltb_ge _ _)) in H by lia.
Qed.

Lemma cut_spec xs k : sorted xs -> (forall y, y ∈ xs -> isnan (pair_of y).1 = false) -> isnan k.1 = false -> forall p y, xs !! p = Some y -> plt (pair_of y) k = (p <? count_while (fun y => plt (pair_of y) k) xs)%nat.
Proof.
  intros Hs Hreal Hk. apply (count_while_spec (fun y => plt (pair_of y) k) xs). intros p' q a b Hlt Ha Hb Ht. apply plt_spec in Ht; [|apply Hreal; by eapply list_elem_of_lookup_2|done]. apply plt_spec; [apply Hreal; by eapply list_elem_of_lookup_2|done|].
  eapply pair_lt_trans; [|done]. by apply (items_lookup xs p' q a b).
Qed.

Section Before.
Context (h : heap) (zsl : zskiplist) (xs : list item) (ext : gset loc) (Hr : rep h zsl xs ext) (k : double * bytes) (Hnan : isnan k.1 = false).

Lemma real_pair y : y ∈ xs -> isnan (pair_of y).1 = false /\ iele y = Some (str y).
Proof. intros Hy. destruct (r_real _ _ _ _ Hr y Hy) as [Hn [e He]]. split; [done|]. unfold str. by rewrite He. Qed.

Lemma xs_pairs p q a b : (p < q)%nat -> xs !! p = Some a -> xs !! q = Some b -> pair_lt (pair_of a) (pair_of b).
Proof. apply (items_lookup xs), (r_sorted _ _ _ _ Hr). Qed.

(** The elements before [k] come first. *)
Definition cut_before : nat := count_while (fun y => plt (pair_of y) k) xs.
Lemma cut_before_le : (cut_before <= length xs)%nat.
Proof. apply count_while_le. Qed.
Lemma cut_before_spec p y : xs !! p = Some y -> plt (pair_of y) k = (p <? cut_before)%nat.
Proof. apply cut_spec; [apply (r_sorted _ _ _ _ Hr)|by apply real_pair|done]. Qed.
Lemma before_splits : splits h zsl xs cut_before (comes_before k.1 k.2).
Proof.
  intros [|q] z n Hq Hz Hn; [lia|]. change (xs !! q = Some z) in Hz. destruct (place_node _ _ _ _ Hr (S q) z Hz) as (n' & Hn' & He & Hs & _). rewrite Hn in Hn'. injection Hn' as <-. destruct (real_pair z) as [_ Hez]; [by eapply list_elem_of_lookup_2|].
  unfold comes_before. rewrite He, Hs, Hez. pose proof (cut_before_spec q z Hz) as E. unfold plt, pair_of in E. cbn [fst snd] in E. change (S q <=? cut_before)%nat with (q <? cut_before)%nat. rewrite <- E.
  destruct (dlt (iscore z) k.1); [done|]. by destruct (deq (iscore z) k.1).
Qed.

(** A new pair goes to the cut. *)
Lemma insert_sorted x : (forall y, y ∈ xs -> ~ peq (pair_of y) k) -> pair_of x = k -> sorted (with_item xs x cut_before).
Proof.
  intros Hnew Ex. assert (forall p y, xs !! p = Some y -> if (p <? cut_before)%nat then pair_lt (pair_of y) k else pair_lt k (pair_of y)) as Hside.
  { intros p y Hy. assert (y ∈ xs) as Hin by by eapply list_elem_of_lookup_2. destruct (real_pair y Hin) as [Hy1 _]. pose proof (cut_before_spec p y Hy) as E. pose proof (plt_spec (pair_of y) k Hy1 Hnan) as Hl. destruct (p <? cut_before)%nat; [tauto|].
    destruct (pair_total (pair_of y) k) as [H|[H|H]]; [rewrite E in Hl; by apply Hl in H|by apply Hnew in H|done]. }
  apply sorted_with; [apply (r_sorted _ _ _ _ Hr)|]. intros p y Hy. unfold item_lt. rewrite Ex. by apply Hside.
Qed.
End Before.

Section Insert.
Context `{!Alloc}.

Lemma zslInsert_ok h zsl xs ext sc e rnd lv rnd' :
  rep h zsl xs ext -> tight zsl xs -> isnan sc = false -> Z.of_nat (length xs) < 2 ^ 63 -> (forall y, y ∈ xs -> ~ peq (pair_of y) (sc, e)) -> zslRandomLevel rnd = inr (lv, rnd') ->
  exists h' zsl' x, zslInsert h zsl sc e rnd = inr (h', zsl', iloc x, rnd') /\ rep h' zsl' (with_item xs x (cut_before xs (sc, e))) ext /\ tight zsl' (with_item xs x (cut_before xs (sc, e))) /\
    header zsl' = header zsl /\ iscore x = sc /\ iele x = Some e /\ iloc x ∉ dom h.
Proof.
  intros Hr Ht Hn Hlen Hnew Hlv. set (cut := cut_before xs (sc, e)). pose proof (cut_before_le xs (sc, e)) as Hcut. fold cut in Hcut. pose proof (random_level_range 1 _ _ _ ltac:(lia) Hlv) as Hlr. pose proof (r_level _ _ _ _ Hr) as Hl. unfold zslInsert. rewrite Hn. cbn [negb assert mbind result_bind].
  destruct (insert_search_ok h zsl xs ext Hr cut Hcut Hlen sc e) as (x0 & update & rank & -> & Hu & Hk); [by apply (before_splits h zsl xs ext Hr (sc, e) Hn)|]. cbn [mbind result_bind]. rewrite Hlv. cbn [mbind result_bind].
  set (top := if (zlevel zsl <? lv)%nat then lv else zlevel zsl). assert (top = max (zlevel zsl) lv) as Etop by (unfold top; destruct (Nat.ltb_spec (zlevel zsl) lv); lia).
  assert (exists h1 u1 r1, (if (zlevel zsl <? lv)%nat then for_each (raise_level zsl) (h, update, rank) (seq (zlevel zsl) (lv - zlevel zsl)) else mret (h, update, rank)) = inr (h1, u1, r1) /\
    rep h1 (with_level zsl top) xs ext /\ updated (with_level zsl top) xs cut 0 u1 /\ ranked (with_level zsl top) xs cut 0 r1) as (h1 & u1 & r1 & -> & Hr1 & Hu1 & Hk1).
  { unfold top. destruct (Nat.ltb_spec (zlevel zsl) lv); [apply raise_ok; try done; lia|]. exists h, update, rank. by destruct zsl. }
  assert (dom h1 = dom h) as Ed by (rewrite (r_dom _ _ _ _ Hr1), (r_dom _ _ _ _ Hr); done). cbn [mbind result_bind zslCreateNode]. set (x := mk_item (new_loc (dom h1)) sc (Some e) lv).
  assert (h1 !! iloc x = None) as Hx by (apply not_elem_of_dom; apply new_loc_fresh). assert ((1 <= iheight x <= zlevel (with_level zsl top))%nat) as Hxl by (cbn; lia).
  destruct (links_ok h1 (with_level zsl top) xs ext Hr1 cut Hcut Hlen u1 Hu1 r1 Hk1 x Hx Hxl) as (g & Hg & Hli).
  destruct (finish_ok h1 (with_level zsl top) xs ext Hr1 cut Hcut u1 Hu1 r1 Hk1 x Hx Hxl g Hli) as (g' & tl & Hg' & Hfin & Etl).
  pose proof (finished_rep h1 (with_level zsl top) xs ext Hr1 cut Hcut Hlen u1 Hu1 r1 Hk1 x Hx Hxl g' tl Hfin) as Hrep. exists g', (mk_zsl (header zsl) tl (zlength zsl + 1) top), x. split.
  { cbn [iloc iele iscore iheight x zlevel with_level header tail] in Hg, Hg'. fold x.
    destruct (for_each (link_level _ _ _) _ _) as [|h2]; [done|]. cbn [mbind result_bind] in Hg |- *. rewrite Hg. cbn [mbind result_bind]. destruct (the (u1 !! O)) as [|u]; [done|]. cbn [mbind result_bind] in Hg' |- *.
    destruct (set_backward g _ _) as [|h3]; [done|]. cbn [mbind result_bind] in Hg' |- *. destruct (forward_at h3 _ 0) as [|f]; [done|]. cbn [mbind result_bind] in Hg' |- *. rewrite Hg'. cbn [mbind result_bind mret result_ret].
    pose proof (r_len _ _ _ _ Hr) as El. rewrite wrap_u_id by (unfold in_u; lia). done. }
  split; [apply Hrep; [by split; [|eexists]| |done]; by apply (insert_sorted h zsl xs ext Hr (sc, e) Hn)|]. split; [|split; [done|split; [done|split; [done|]]]].
  - unfold tight. cbn [zlevel]. setoid_rewrite with_perm. unfold top. destruct (Nat.ltb_spec (zlevel zsl) lv); [right; exists x; split; [by left|done]|]. destruct Ht as [?|(y & Hy & E)]; [by left|right]. exists y. split; [by right|done].
  - rewrite <- Ed. apply new_loc_fresh.
Qed.
End Insert.
