(* ===== verification/SkiplistDelete.v ===== *)
(** * Deletion from a skip list *)

From Stdlib Require Import Floats.SpecFloat.
From stdpp Require Import sorting.
From S2P Require Import Prelude Bytes Skiplist SkiplistRep SkiplistInsert.

Lemma lastpos_ext i pl pl' cut : (forall k, (k <= cut)%nat -> pl !! k = pl' !! k) -> lastpos i pl cut = lastpos i pl' cut.
Proof.
  induction cut as [|c IH]; intros H; [done|]. cbn [lastpos]. rewrite (H (S c)) by done. rewrite IH by (intros k Hk; apply H; lia). done.
Qed.
Lemma fwd_elem i ys l : fwd i ys = Some l -> l ∈ iloc <$> ys.
Proof. induction ys as [|y ys IH]; [done|]. cbn [fwd fmap list_fmap]. destruct (i <? iheight y)%nat; [intros [= <-]; by left|intros H; right; by apply IH]. Qed.

Lemma back_ext pl pl' p : (forall k, (k < p)%nat -> pl !! k = pl' !! k) -> back pl p = back pl' p.
Proof. intros H. destruct p as [|[|p]]; [done..|]. cbn [back]. by rewrite H by lia. Qed.

(** ** Unlinking a node *)

Section Unlink.
Context (xs : list item) (x : item) (cut : nat) (Hcut : (cut <= length xs)%nat).
Notation xs' := (with_item xs x cut).
Context (h : heap) (zsl : zskiplist) (ext : gset loc) (Hr : rep h zsl xs' ext) (Hlen : Z.of_nat (length xs) < 2 ^ 63).
Context (update : gmap nat loc) (Hu : updated zsl xs' cut 0 update).
Notation pl' := (places zsl xs').
Notation pl := (places zsl xs).
Notation lastp i := (lastpos i pl cut).

Lemma same_place k : (k <= cut)%nat -> pl' !! k = pl !! k.
Proof. intros Hk. unfold places. rewrite (with_lookup (header zsl) xs x cut Hcut). by rewrite (proj2 (Nat.leb_le _ _) Hk). Qed.
Lemma same_last i : lastpos i pl' cut = lastp i.
Proof. apply lastpos_ext, same_place. Qed.

Lemma x_place : pl' !! S cut = Some x.
Proof. unfold places. rewrite (with_lookup (header zsl) xs x cut Hcut). rewrite (proj2 (Nat.leb_gt _ _)), Nat.eqb_refl by lia. done. Qed.
Lemma x_height : (1 <= iheight x <= zlevel zsl)%nat.
Proof. apply (r_heights _ _ _ _ Hr). rewrite with_perm. by left. Qed.
Lemma old_place p y : pl !! p = Some y -> pl' !! (if (p <=? cut)%nat then p else S p) = Some y.
Proof.
  intros Hy. unfold places. rewrite (with_lookup (header zsl) xs x cut Hcut). destruct (Nat.leb_spec p cut); [by rewrite (proj2 (Nat.leb_le _ _))|]. rewrite (proj2 (Nat.leb_gt _ _)), (proj2 (Nat.eqb_neq _ _)) by lia. cbn. by rewrite Nat.sub_0_r.
Qed.
Lemma old_ne p y : pl !! p = Some y -> iloc y <> iloc x.
Proof.
  intros Hy E. pose proof (place_inj _ _ _ _ Hr _ _ _ _ (old_place p y Hy) x_place E) as H. destruct (Nat.leb_spec p cut); lia.
Qed.
Lemma x_fresh : iloc x ∉ iloc <$> pl.
Proof. intros (y & E & Hy)%list_elem_of_fmap. apply list_elem_of_lookup in Hy as [p Hp]. by apply (old_ne p y Hp). Qed.

(** The cells when the levels below [j] are done. *)
Definition unlinked (j : nat) (y : loc) (i : nat) : option zskiplistLevel :=
  if decide (update !! i = Some y /\ (i < j)%nat) then Some (lev i (drop (lastp i) xs)) else cell h y i.
Definition unlinking (j : nat) (g : heap) : Prop := (forall y i, cell g y i = unlinked j y i) /\ (forall y, info g y = info h y) /\ dom g = dom h.

Lemma up_place i : (i < zlevel zsl)%nat -> exists z, pl !! lastp i = Some z /\ (i < iheight z)%nat /\ update !! i = Some (iloc z) /\ cell h (iloc z) i = Some (lev i (drop (lastp i) xs')).
Proof.
  intros Hi. assert (cut <= length xs')%nat as Hc' by (rewrite with_length; lia). destruct (last_place h zsl xs' ext Hr cut Hc' i Hi) as (z & Hz & Hiz). destruct (Hu i ltac:(lia)) as (z' & Hz' & Hup). rewrite Hz in Hz'. injection Hz' as <-.
  pose proof (r_cell _ _ _ _ Hr _ _ _ Hz Hiz Hi) as Hc. rewrite same_last in *. exists z. split_and!; try done. by rewrite <- same_place by apply lastpos_le.
Qed.

Lemma unlink_levels_ok i g : (i < zlevel zsl)%nat -> unlinking i g -> exists g', unlink_level (iloc x) update g i = inr g' /\ unlinking (S i) g'.
Proof.
  intros Hi (Hc & Hin & Hd). destruct (up_place i Hi) as (z & Hz & Hiz & Hup & Hcell). unfold unlink_level. rewrite Hup. cbn [the mbind result_bind].
  assert (cell g (iloc z) i = Some (lev i (drop (lastp i) xs'))) as Hz0 by (rewrite Hc; unfold unlinked; rewrite decide_False by lia; done). destruct (lev_last (header zsl) xs x cut Hcut i (lastp i) eq_refl) as (E1 & E2 & E3 & E4).
  unfold lev in Hz0. rewrite E3, E4 in Hz0. rewrite (forward_at_cell _ _ _ _ _ Hz0). cbn [mbind result_bind]. rewrite (span_at_cell _ _ _ _ _ Hz0). pose proof (spn_le i (drop cut xs)) as Hsp. rewrite length_drop in Hsp.
  assert (forall g', cell_set g (iloc z) i (lev i (drop (lastp i) xs)) g' -> unlinking (S i) g') as Hdone.
  { intros g' (Hc' & Hi' & Hd'). split_and!; [|intros y; by rewrite Hi'|congruence]. intros y k. rewrite Hc'. unfold unlinked. destruct (decide (y = iloc z /\ k = i)) as [[-> ->]|Hne]; [by rewrite decide_True by (split; [done|lia])|].
    rewrite Hc. unfold unlinked. destruct (decide (update !! k = Some y /\ (k < S i)%nat)) as [[Ek Hk]|N1], (decide (update !! k = Some y /\ (k < i)%nat)) as [[Ek' Hk']|N2]; try done; exfalso.
    - apply Hne. assert (k = i) as -> by (destruct (decide (k < i)%nat); [exfalso; by apply N2|lia]). rewrite Hup in Ek. by injection Ek as <-.
    - apply N1. split; [done|lia]. }
  destruct (Nat.ltb_spec i (iheight x)) as [Hx|Hx].
  - rewrite decide_True by done. cbn [mbind result_bind]. assert (cell g (iloc x) i = Some (lev i (drop cut xs))) as Hx0.
    { rewrite Hc. unfold unlinked. rewrite decide_False by lia. rewrite (r_cell _ _ _ _ Hr _ _ _ x_place Hx Hi). by rewrite drop_beyond by done. }
    rewrite (span_at_cell _ _ _ _ _ Hx0). cbn [mbind result_bind]. destruct (set_span_ok _ _ _ _ _ (Z.of_nat (cut - lastp i + spn i (drop cut xs))) Hz0) as (g1 & Es & Hc1 & Hi1 & Hd1).
    replace (u64 (Z.of_nat (cut - lastp i + 1) + (Z.of_nat (spn i (drop cut xs)) - 1))) with (Z.of_nat (cut - lastp i + spn i (drop cut xs))) by (rewrite wrap_u_id by (unfold in_u; lia); lia). rewrite Es. cbn [mbind result_bind].
    assert (cell g1 (iloc x) i = Some (lev i (drop cut xs))) as Hx1 by (rewrite Hc1, decide_False by (intros [E _]; symmetry in E; by apply (old_ne _ _ Hz)); done). rewrite (forward_at_cell _ _ _ _ _ Hx1). cbn [mbind result_bind].
    assert (cell g1 (iloc z) i = Some (mk_level (Some (Some (iloc x))) (Some (Z.of_nat (cut - lastp i + spn i (drop cut xs)))))) as Hz1 by (rewrite Hc1, decide_True by done; done).
    destruct (set_forward_ok _ _ _ _ _ (fwd i (drop cut xs)) Hz1) as (g2 & Ef & Hc2 & Hi2 & Hd2). rewrite Ef. exists g2. split; [done|]. apply Hdone. split_and!; [|intros; by rewrite Hi2|congruence].
    intros y k. rewrite Hc2, Hc1. unfold lev. rewrite E1, E2. by case_decide.
  - rewrite decide_False. 2:{ intros E%fwd_elem. apply x_fresh. cbn. right. apply list_elem_of_fmap in E as (y & -> & Hy). apply list_elem_of_fmap_2. rewrite <- (take_drop cut xs). apply elem_of_app. by right. }
    cbn [mbind result_bind]. destruct (set_span_ok _ _ _ _ _ (Z.of_nat (cut - lastp i + spn i (drop cut xs))) Hz0) as (g1 & Es & Hs1).
    replace (u64 (Z.of_nat (cut - lastp i + S (spn i (drop cut xs))) - 1)) with (Z.of_nat (cut - lastp i + spn i (drop cut xs))) by (rewrite wrap_u_id by (unfold in_u; lia); lia). exists g1. split; [done|]. apply Hdone. unfold lev. by rewrite E1, E2.
Qed.

Lemma unlinks_ok : exists g, for_each (unlink_level (iloc x) update) h (seq 0 (zlevel zsl)) = inr g /\ unlinking (zlevel zsl) g.
Proof.
  destruct (for_each_up (unlink_level (iloc x) update) unlinking 0 (zlevel zsl) h) as (g & -> & Hg).
  - split_and!; [|done|done]. intros y i. unfold unlinked. by rewrite decide_False by lia.
  - intros i g Hi. apply unlink_levels_ok. lia.
  - by exists g.
Qed.

Lemma unlinked_place p y i : pl !! p = Some y -> (i < iheight y)%nat -> (i < zlevel zsl)%nat -> unlinked (zlevel zsl) (iloc y) i = Some (lev i (drop p xs)).
Proof.
  intros Hy Hh Hi. unfold unlinked. destruct (up_place i Hi) as (z & Hz & Hiz & Hup & _). pose proof (lastpos_le i pl cut) as Hle. pose proof (old_place p y Hy) as Hy'.
  destruct (decide (lastp i = p)) as [<-|Hp].
  - rewrite Hy in Hz. injection Hz as <-. by rewrite decide_True.
  - rewrite decide_False. 2:{ intros [E _]. rewrite Hup in E. injection E as E. pose proof (place_inj _ _ _ _ Hr _ _ _ _ (old_place _ _ Hz) Hy' E) as H. destruct (Nat.leb_spec (lastp i) cut), (Nat.leb_spec p cut); lia. }
    rewrite (r_cell _ _ _ _ Hr _ _ _ Hy' Hh Hi). f_equal. destruct (Nat.leb_spec p cut).
    + apply (lev_before (header zsl)); [done|]. fold pl. destruct (le_lt_dec p (lastp i)); [lia|]. pose proof (lastpos_between i pl cut p y ltac:(lia) Hy). lia.
    + by rewrite drop_beyond by lia.
Qed.

Lemma fwd_cut' : fwd 0 (drop cut xs) = iloc <$> pl !! S cut.
Proof.
  rewrite fwd_zero; [rewrite lookup_drop; by rewrite Nat.add_0_r|]. intros y Hy. apply (r_heights _ _ _ _ Hr). rewrite with_perm. right. rewrite <- (take_drop cut xs). apply elem_of_app. by right.
Qed.

Lemma lower_step g hd lv : lower_level g hd (S (S lv)) = (f ← forward_at g hd (S lv); match f with Some _ => mret (S (S lv)) | None => lower_level g hd (S lv) end).
Proof. done. Qed.

(** [lower_level] stops at the highest level in use. *)
Lemma lower_ok g lv : (forall i, (i < lv)%nat -> cell g (header zsl) i = Some (lev i xs)) -> (1 <= lv)%nat -> (forall y, y ∈ xs -> (iheight y <= lv)%nat) ->
  exists lv', lower_level g (header zsl) lv = inr lv' /\ (1 <= lv' <= lv)%nat /\ (forall y, y ∈ xs -> (iheight y <= lv')%nat) /\ (lv' = 1%nat \/ exists y, y ∈ xs /\ iheight y = lv').
Proof.
  induction lv as [|[|lv] IH]; intros Hc Hl Hh; [lia|exists 1%nat; cbn; split_and!; auto|]. rewrite lower_step. rewrite (forward_at_cell _ _ _ _ _ (Hc (S lv) ltac:(lia))). cbn [mbind result_bind].
  destruct (next_spec (S lv) xs) as [(-> & _ & Hall)|(k & z & Hk & Hz & -> & _)].
  - destruct IH as (lv' & -> & Hlv & H); [intros i Hi; apply Hc; lia|lia|intros y [p Hy]%list_elem_of_lookup; by eapply Hall|]. exists lv'. split; [done|]. split; [lia|done].
  - exists (S (S lv)). split; [done|]. split; [lia|]. split; [done|]. right. exists z. assert (z ∈ xs) as Hin by by eapply list_elem_of_lookup_2. split; [done|]. specialize (Hh z Hin). lia.
Qed.

(** The [backward] pointer of the next node, or the tail. *)
Definition mended (g : heap) : Prop :=
  (forall y i, cell g y i = unlinked (zlevel zsl) y i) /\ dom g = dom h /\ (exists n, g !! iloc x = Some n /\ ele n = iele x) /\
  forall p y, pl !! p = Some y -> info g (iloc y) = Some (iele y, iscore y, Some (back pl p), iheight y).

Lemma back_without p y : pl !! p = Some y -> p <> S cut -> back pl' (if (p <=? cut)%nat then p else S p) = back pl p.
Proof.
  intros Hy Hp. pose proof (back_with zsl xs cut Hcut x x_height p y Hy) as E. unfold places at 1. rewrite E. by rewrite (proj2 (Nat.eqb_neq _ _)).
Qed.
Lemma back_x : back pl' (S cut) = back pl (S cut).
Proof. apply back_ext. intros k Hk. apply same_place. lia. Qed.

Lemma last_without : pl !! S cut = None -> back pl (S cut) = iloc <$> list.last xs.
Proof.
  intros E. change (xs !! cut = None) in E. apply lookup_ge_None_1 in E. assert (cut = length xs) as Ec by lia. rewrite last_lookup, <- Ec. unfold back. destruct cut as [|c]; [by rewrite (nil_length_inv xs)|]. done.
Qed.

Lemma mend_ok g : unlinking (zlevel zsl) g ->
  exists g' tl, (n ← the (g !! iloc x); back ← the (backward n);
      f ← forward_at g (iloc x) 0;
      match f with Some y => h ← set_backward g y back; mret (h, tail zsl) | None => mret (g, back) end) = inr (g', tl) /\ mended g' /\ tl = iloc <$> list.last xs.
Proof.
  intros (Hc & Hin & Hd). pose proof x_place as Hxp. pose proof x_height as Hxh. pose proof (r_info _ _ _ _ Hr _ _ Hxp) as Hix. rewrite back_x in Hix. pose proof Hix as Hix'. rewrite <- Hin in Hix'. destruct (info_node _ _ _ _ _ _ Hix') as (n & Hn & He & _ & Hb).
  rewrite Hn. cbn [the mbind result_bind]. rewrite Hb. cbn [the mbind result_bind].
  assert (cell g (iloc x) 0 = Some (lev 0 (drop cut xs))) as Hf.
  { rewrite Hc. unfold unlinked. rewrite decide_False. 2:{ intros [E _]. destruct (up_place 0 ltac:(lia)) as (z & Hz & _ & Hup & _). rewrite Hup in E. injection E as E. by apply (old_ne _ _ Hz). } rewrite (r_cell _ _ _ _ Hr _ _ _ Hxp) by lia. by rewrite drop_beyond by done. }
  rewrite (forward_at_cell _ _ _ _ _ Hf), fwd_cut'. cbn [mbind result_bind].
  assert (forall p y, pl !! p = Some y -> p <> S cut -> info g (iloc y) = Some (iele y, iscore y, Some (back pl p), iheight y)) as Hold.
  { intros p y Hy Hp. rewrite Hin, (r_info _ _ _ _ Hr _ _ (old_place p y Hy)). by rewrite (back_without p y). }
  destruct (pl !! S cut) as [y|] eqn:Ey; cbn [fmap option_fmap option_map].
  - pose proof (r_info _ _ _ _ Hr _ _ (old_place _ _ Ey)) as Hiy. destruct (set_backward_ok g (iloc y) (back pl (S cut))) as (g' & -> & Hc' & Hd' & Hi'); [rewrite Hin, Hiy; done|]. cbn [mbind result_bind mret result_ret].
    eexists g', _. split; [done|]. split.
    + split_and!; [intros; by rewrite Hc'|congruence|..].
      * assert (info g' (iloc x) = info g (iloc x)) as E by (rewrite Hi', decide_False; [done|]; intros E; symmetry in E; by apply (old_ne _ _ Ey)). rewrite Hin, Hix in E. destruct (info_node _ _ _ _ _ _ E) as (n' & ? & ? & _). by exists n'.
      * intros p w Hw. rewrite Hi'. destruct (decide (iloc w = iloc y)) as [E|Hne].
        -- assert (w = y /\ p = S cut) as [-> ->]. { pose proof (place_inj _ _ _ _ Hr _ _ _ _ (old_place _ _ Hw) (old_place _ _ Ey) E) as H. assert (p = S cut) as -> by (destruct (Nat.leb_spec p cut), (Nat.leb_spec (S cut) cut); lia). rewrite Hw in Ey. by injection Ey as <-. }
           by rewrite Hin, Hiy.
        -- apply Hold; [done|]. intros ->. rewrite Hw in Ey. congruence.
    + rewrite (r_tail _ _ _ _ Hr). f_equal. pose proof (last_with zsl xs cut x) as E. by rewrite Ey in E.
  - eexists g, _. split; [done|]. split; [|by apply last_without]. split_and!; [done|done|by exists n|]. intros p w Hw. apply Hold; [done|]. intros ->. congruence.
Qed.

(** [zslDeleteNode]; the node is still in the heap. *)
Lemma zslDeleteNode_ok : exists g zsl', zslDeleteNode h zsl (iloc x) update = inr (g, zsl') /\ rep g zsl' xs ({[iloc x]} ∪ ext) /\ tight zsl' xs /\ header zsl' = header zsl /\
  (exists n, g !! iloc x = Some n /\ ele n = iele x) /\ (zlevel zsl' <= zlevel zsl)%nat.
Proof.
  unfold zslDeleteNode. destruct unlinks_ok as (g & -> & Hg). cbn [mbind result_bind]. destruct (mend_ok g Hg) as (g' & tl & Hm & (Hc & Hd & Hx & Hi) & Etl). pose proof (r_level _ _ _ _ Hr) as Hl.
  destruct (the (g !! iloc x)) as [|n]; [done|]. cbn [mbind result_bind] in Hm |- *. destruct (the (backward n)) as [|b]; [done|]. cbn [mbind result_bind] in Hm |- *. destruct (forward_at g (iloc x) 0) as [|f]; [done|]. cbn [mbind result_bind] in Hm |- *. rewrite Hm. cbn [mbind result_bind].
  assert (forall y, y ∈ xs -> y ∈ xs') as Hsub by (intros y Hy; rewrite with_perm; by right).
  destruct (lower_ok g' (zlevel zsl)) as (lv & -> & Hlv & Hh & Ht); [|lia|intros y Hy; apply (r_heights _ _ _ _ Hr); by apply Hsub|].
  { intros i Hi'. rewrite Hc. by rewrite (unlinked_place 0 (hitem (header zsl))) by (done || (cbn; lia)). }
  cbn [mbind result_bind mret result_ret]. eexists g', _. split; [done|]. pose proof (r_len _ _ _ _ Hr) as El. rewrite with_length in El. rewrite wrap_u_id by (unfold in_u; lia).
  assert (iloc <$> (hitem (header zsl) :: xs') ≡ₚ iloc x :: (iloc <$> pl)) as Hpm by (cbn [fmap list_fmap]; rewrite with_perm; apply perm_swap). pose proof (r_locs _ _ _ _ Hr) as Hnd. unfold places at 1 in Hnd. rewrite Hpm in Hnd. apply NoDup_cons in Hnd as [Hno Hnd].
  split; [|split; [exact Ht|split; [done|split; [done|cbn; lia]]]]. split; cbn [header tail zlength zlevel].
  - exact Hi.
  - intros p y i Hy Hhy Hlt. rewrite Hc. apply unlinked_place; [done..|lia].
  - intros i Hlt. rewrite Hc. destruct (decide (i < zlevel zsl)%nat).
    + rewrite (unlinked_place 0 (hitem (header zsl))) by (done || (cbn; lia)). rewrite drop_0, low_lev; [by eexists|]. intros y Hy. specialize (Hh y Hy). lia.
    + unfold unlinked. rewrite decide_False by lia. apply (r_top _ _ _ _ Hr). lia.
  - exact Etl.
  - lia.
  - lia.
  - intros y Hy. split; [apply (r_heights _ _ _ _ Hr); by apply Hsub|by apply Hh].
  - intros y Hy. apply (r_real _ _ _ _ Hr). by apply Hsub.
  - pose proof (r_sorted _ _ _ _ Hr) as Hs. unfold sorted, with_item in *. rewrite <- (take_drop cut xs). apply StronglySorted_app in Hs as (H12 & H1 & H2). apply StronglySorted_cons in H2 as [_ H2]. apply StronglySorted_app. split_and!; [|done|done]. intros a c Ha Hb. apply H12; [done|by right].
  - exact Hnd.
  - change (places _ xs) with pl. rewrite Hd, (r_dom _ _ _ _ Hr). unfold places at 1. rewrite (list_to_set_perm_L _ _ Hpm). cbn [list_to_set foldr]. rewrite !(assoc_L (∪)). f_equal. apply (comm_L (∪)).
  - intros y Hy [->%elem_of_singleton|He]%elem_of_union; [done|]. apply (r_ext _ _ _ _ Hr y); [|done]. unfold places. rewrite Hpm. by right.
Qed.
End Unlink.

(** The unlinked node freed. *)
Lemma free_ok h zsl xs x ext : rep h zsl xs ({[x]} ∪ ext) -> x ∉ ext -> rep (delete x h) zsl xs ext.
Proof.
  intros Hr Hx. assert (forall p y, places zsl xs !! p = Some y -> iloc y <> x) as Hne.
  { intros p y Hy E. apply (r_ext _ _ _ _ Hr (iloc y)); [|set_solver]. apply list_elem_of_fmap_2. by eapply list_elem_of_lookup_2. }
  split; try (by destruct Hr).
  - intros p y Hy. unfold info. rewrite lookup_delete_ne by (intros E; by apply (Hne p y)). by apply (r_info _ _ _ _ Hr).
  - intros p y i Hy. unfold cell. rewrite lookup_delete_ne by (intros E; by apply (Hne p y)). by apply (r_cell _ _ _ _ Hr).
  - intros i Hi. unfold cell. rewrite lookup_delete_ne by (intros E; by apply (Hne 0%nat (hitem (header zsl)))). by apply (r_top _ _ _ _ Hr).
  - rewrite dom_delete_L, (r_dom _ _ _ _ Hr). assert (x ∉ iloc <$> places zsl xs) by (intros (y & -> & [p Hp]%list_elem_of_lookup)%list_elem_of_fmap; by apply (Hne p y)). set_solver.
  - intros y Hy He. apply (r_ext _ _ _ _ Hr y Hy). set_solver.
Qed.

(** ** The operations of a skip list *)

Definition remove_at (c : nat) (xs : list item) : list item := take c xs ++ drop (S c) xs.

Lemma with_remove xs c x : xs !! c = Some x -> with_item (remove_at c xs) x c = xs /\ (c <= length (remove_at c xs))%nat.
Proof.
  intros Hc. pose proof (lookup_lt_Some _ _ _ Hc) as Hl. unfold remove_at, with_item. assert (length (take c xs) = c) as El by (rewrite length_take; lia).
  rewrite take_app_le, take_take, Nat.min_id by lia. rewrite drop_app_ge, El, Nat.sub_diag, drop_0 by lia. split; [|rewrite length_app; lia]. by rewrite <- (drop_S _ _ _ Hc), take_drop.
Qed.

(** Positions up to the cut are the same without the element at it. *)
Lemma updated_remove zsl zsl' xs c x update : xs !! c = Some x -> header zsl' = header zsl -> (zlevel zsl' <= zlevel zsl)%nat -> updated zsl xs c 0 update -> updated zsl' (remove_at c xs) c 0 update.
Proof.
  intros Hx Eh Hl Hu i Hi. destruct (Hu i ltac:(lia)) as (z & Hz & Hup). exists z. split; [|done]. destruct (with_remove xs c x Hx) as [Ew Hc].
  pose proof (same_last (remove_at c xs) x c Hc zsl i) as El. pose proof (same_place (remove_at c xs) x c Hc zsl) as Ep. rewrite Ew in El, Ep.
  unfold places in *. rewrite Eh. rewrite <- El. rewrite <- Ep; [done|]. apply lastpos_le.
Qed.

Section Ops.
Context (h : heap) (zsl : zskiplist) (xs : list item) (ext : gset loc) (Hr : rep h zsl xs ext).
Notation pl := (places zsl xs).

Lemma after_ok p y : pl !! p = Some y -> forward_at h (iloc y) 0 = inr (iloc <$> xs !! p).
Proof.
  intros Hy. pose proof (r_level _ _ _ _ Hr) as Hl. assert ((0 < iheight y)%nat) as Hh.
  { destruct p as [|p]; [injection Hy as <-; cbn; unfold ZSKIPLIST_MAXLEVEL; lia|]. apply (list_elem_of_lookup_2 xs p y) in Hy. pose proof (r_heights _ _ _ _ Hr y Hy). lia. }
  rewrite (forward_at_cell _ _ _ _ _ (r_cell _ _ _ _ Hr _ _ _ Hy Hh ltac:(lia))). f_equal. rewrite fwd_zero; [rewrite lookup_drop; by rewrite Nat.add_0_r|].
  intros z Hz. apply (r_heights _ _ _ _ Hr). rewrite <- (take_drop p xs). apply elem_of_app. by right.
Qed.

Lemma node_ok p y : xs !! p = Some y -> exists n, h !! iloc y = Some n /\ ele n = Some (str y) /\ score n = iscore y /\ backward n = Some (back pl (S p)) /\ isnan (iscore y) = false.
Proof.
  intros Hy. destruct (place_node _ _ _ _ Hr (S p) y Hy) as (n & Hn & He & Hs & Hb). destruct (real_pair _ _ _ _ Hr y) as [Hnan E]; [by eapply list_elem_of_lookup_2|]. exists n. rewrite He, E. done.
Qed.

Lemma item_ext p y : xs !! p = Some y -> iloc y ∉ ext.
Proof. intros Hy. apply (r_ext _ _ _ _ Hr). apply list_elem_of_fmap_2. right. by eapply list_elem_of_lookup_2. Qed.

(** One element taken out. *)
Lemma delete_at c x update : Z.of_nat (length xs) < 2 ^ 63 -> xs !! c = Some x -> updated zsl xs c 0 update ->
  exists g zsl', zslDeleteNode h zsl (iloc x) update = inr (g, zsl') /\ rep g zsl' (remove_at c xs) ({[iloc x]} ∪ ext) /\ tight zsl' (remove_at c xs) /\ header zsl' = header zsl /\
    (exists n, g !! iloc x = Some n /\ ele n = Some (str x)) /\ (zlevel zsl' <= zlevel zsl)%nat.
Proof.
  intros Hlen Hx Hu. destruct (with_remove xs c x Hx) as [Ew Hc]. destruct (node_ok c x Hx) as (n & _ & _). destruct (real_pair _ _ _ _ Hr x) as [_ He]; [by eapply list_elem_of_lookup_2|]. rewrite <- He.
  apply (zslDeleteNode_ok (remove_at c xs) x c Hc h zsl ext); rewrite ?Ew; try done. unfold remove_at. rewrite length_app, length_take, length_drop. lia.
Qed.

(** ** Deletion *)

Definition same (k p : double * bytes) : bool := deq k.1 p.1 && (sdscmp p.2 k.2 =? 0).
Lemma same_spec k p : isnan k.1 = false -> isnan p.1 = false -> same k p = true <-> peq p k.
Proof.
  intros Hk Hp. unfold same, peq. rewrite andb_true_iff, (deq_key _ _ Hk Hp), Z.eqb_eq. destruct (sdscmp_spec p.2 k.2) as (_ & -> & _). by split; intros [-> ->].
Qed.

(** The element at the place where [k] belongs, if it is [k]. *)
Definition found_at (k : double * bytes) : option item := match xs !! cut_before xs k with Some x => if same k (pair_of x) then Some x else None | None => None end.

Lemma is_node_ok k : is_node h (iloc <$> xs !! cut_before xs k) k.1 k.2 = inr (iloc <$> found_at k).
Proof.
  unfold is_node, found_at. destruct (xs !! cut_before xs k) as [x|] eqn:Ex; [|done]. cbn [fmap option_fmap option_map]. destruct (node_ok _ _ Ex) as (n & -> & He & Hs & _). cbn [the mbind result_bind]. rewrite He, Hs. unfold same, pair_of. cbn [fst snd].
  destruct (deq k.1 (iscore x)); [|done]. cbn [the mbind result_bind mret result_ret andb]. by destruct (sdscmp (str x) k.2 =? 0).
Qed.

(** The search for [k], and what is there. *)
Lemma find_ok k : isnan k.1 = false -> exists y update, search (comes_before k.1 k.2) h zsl = inr (iloc y, update) /\ pl !! cut_before xs k = Some y /\ updated zsl xs (cut_before xs k) 0 update.
Proof. intros Hk. apply (search_ok h zsl xs ext Hr _ (cut_before_le xs k)). by apply (before_splits h zsl xs ext Hr k). Qed.

Lemma zslDelete_ok k keep : isnan k.1 = false -> Z.of_nat (length xs) < 2 ^ 63 -> tight zsl xs ->
  exists h' zsl', zslDelete h zsl k.1 k.2 keep = inr (h', zsl', iloc <$> found_at k) /\ header zsl' = header zsl /\
    match found_at k with
    | Some x => rep h' zsl' (remove_at (cut_before xs k) xs) (if keep then {[iloc x]} ∪ ext else ext) /\ tight zsl' (remove_at (cut_before xs k) xs)
    | None => h' = h /\ zsl' = zsl
    end.
Proof.
  intros Hk Hlen Ht. unfold zslDelete. destruct (find_ok k Hk) as (y & update & -> & Hy & Hu). cbn [mbind result_bind]. rewrite (after_ok _ _ Hy). cbn [mbind result_bind]. rewrite is_node_ok. cbn [mbind result_bind].
  destruct (found_at k) as [x|] eqn:Ef; cbn [fmap option_fmap option_map]; [|by exists h, zsl].
  assert (xs !! cut_before xs k = Some x) as Hx by (unfold found_at in Ef; destruct (xs !! _); [|done]; by destruct (same _ _); [injection Ef as ->|]).
  destruct (delete_at _ x update Hlen Hx Hu) as (g & zsl' & -> & Hg & Ht' & Eh & (n & Hn & _) & _). cbn [mbind result_bind]. destruct keep; [by exists g, zsl'|]. unfold zslFreeNode. rewrite Hn. cbn [the mbind result_bind mret result_ret].
  exists (delete (iloc x) g), zsl'. split; [done|]. split; [done|]. split; [|done]. apply free_ok; [done|]. by eapply item_ext.
Qed.
End Ops.

(** ** Deleting a stretch *)

(** What a test on nodes says of the element. *)
Definition tests (more : zskiplistNode -> result bool) (test : item -> bool) : Prop := forall n y, ele n = Some (str y) -> score n = iscore y -> more n = inr (test y).

Lemma remove_lookup c xs x : xs !! c = Some x -> remove_at c xs !! c = xs !! S c /\ drop c (remove_at c xs) = drop (S c) xs /\ take c (remove_at c xs) = take c xs.
Proof.
  intros Hx. pose proof (lookup_lt_Some _ _ _ Hx) as Hl. unfold remove_at. assert (length (take c xs) = c) as El by (rewrite length_take; lia). split_and!.
  - rewrite lookup_app_r by lia. rewrite El, Nat.sub_diag, lookup_drop. f_equal. lia.
  - by rewrite drop_app_ge, El, Nat.sub_diag, drop_0 by lia.
  - by rewrite take_app_le, take_take, Nat.min_id by lia.
Qed.
Lemma remove_length c xs x : xs !! c = Some x -> length (remove_at c xs) = (length xs - 1)%nat.
Proof. intros Hx. pose proof (lookup_lt_Some _ _ _ Hx). unfold remove_at. rewrite length_app, length_take, length_drop. lia. Qed.

(** The turn of both loops that delete. *)
Lemma delete_turn h zsl xs ext c x update : rep h zsl xs ext -> Z.of_nat (length xs) < 2 ^ 63 -> xs !! c = Some x -> updated zsl xs c 0 update ->
  exists g zsl' n, forward_at h (iloc x) 0 = inr (iloc <$> remove_at c xs !! c) /\ zslDeleteNode h zsl (iloc x) update = inr (g, zsl') /\ g !! iloc x = Some n /\ ele n = Some (str x) /\
    rep (delete (iloc x) g) zsl' (remove_at c xs) ext /\ tight zsl' (remove_at c xs) /\ header zsl' = header zsl /\ updated zsl' (remove_at c xs) c 0 update.
Proof.
  intros Hr Hlen Hx Hu. destruct (delete_at h zsl xs ext Hr c x update Hlen Hx Hu) as (g & zsl' & E & Hg & Ht & Eh & (n & Hn & He) & Hl). exists g, zsl', n. destruct (remove_lookup c xs x Hx) as (-> & _).
  split; [by apply (after_ok h zsl xs ext Hr (S c))|]. split_and!; try done; [|by eapply updated_remove]. apply free_ok; [done|]. by eapply item_ext.
Qed.

Definition cut_out (c m : nat) (xs : list item) : list item := take c xs ++ drop (c + m) xs.

Lemma cut_out_zero c xs : cut_out c 0 xs = xs.
Proof. unfold cut_out. by rewrite Nat.add_0_r, take_drop. Qed.
Lemma cut_out_step c m xs x : xs !! c = Some x -> cut_out c m (remove_at c xs) = cut_out c (S m) xs.
Proof.
  intros Hx. unfold cut_out. destruct (remove_lookup c xs x Hx) as (_ & Ed & ->). f_equal. rewrite <- drop_drop, Ed, drop_drop. f_equal. lia.
Qed.

Lemma delete_while_ok fuel more test c update h zsl xs ext :
  tests more test -> rep h zsl xs ext -> tight zsl xs -> Z.of_nat (length xs) < 2 ^ 63 -> updated zsl xs c 0 update -> let m := count_while test (drop c xs) in (m <= fuel)%nat ->
  exists h' zsl', delete_while fuel more update h zsl (iloc <$> xs !! c) = inr (h', zsl', str <$> take m (drop c xs)) /\ rep h' zsl' (cut_out c m xs) ext /\ tight zsl' (cut_out c m xs) /\ header zsl' = header zsl.
Proof.
  intros Hm. revert h zsl xs. induction fuel as [|fuel IH]; intros h zsl xs Hr Ht Hlen Hu m Hf; (destruct (xs !! c) as [x|] eqn:Ex; cbn [fmap option_fmap option_map delete_while]; [|apply lookup_ge_None_1 in Ex; assert (m = O) as -> by (unfold m; by rewrite drop_ge); rewrite cut_out_zero; by exists h, zsl]).
  all: unfold m in *; rewrite (drop_S _ _ _ Ex) in *; cbn [count_while] in *; destruct (node_ok h zsl xs ext Hr c x Ex) as (n & -> & He & Hs & _); cbn [the mbind result_bind]; rewrite (Hm n x He Hs); cbn [mbind result_bind].
  all: destruct (test x) eqn:Et; [|rewrite cut_out_zero; by exists h, zsl].
  - lia.
  - destruct (delete_turn h zsl xs ext c x update Hr Hlen Ex Hu) as (g & zsl' & n' & -> & -> & Hn' & He' & Hr' & Ht' & Eh & Hu'). cbn [mbind result_bind]. unfold zslFreeNode. rewrite Hn'. cbn [the mbind result_bind]. rewrite He'. cbn [the mbind result_bind mret result_ret].
    destruct (remove_lookup c xs x Ex) as (_ & Ed & _). destruct (IH _ _ _ Hr' Ht') as (h2 & zsl2 & -> & Hr2 & Ht2 & Eh2); [rewrite (remove_length _ _ _ Ex); lia|done|rewrite Ed; lia|]. cbn [mbind result_bind mret result_ret].
    rewrite Ed in *. exists h2, zsl2. split; [done|]. rewrite (cut_out_step _ _ _ _ Ex) in *. split_and!; [done|done|congruence].
Qed.

Lemma delete_upto_ok fuel upto c update h zsl xs ext t :
  rep h zsl xs ext -> tight zsl xs -> Z.of_nat (length xs) < 2 ^ 63 -> updated zsl xs c 0 update -> 0 <= t -> let m := min (length xs - c) (Z.to_nat (upto - t + 1)) in (m <= fuel)%nat -> t + Z.of_nat m < 2 ^ 64 ->
  exists h' zsl', delete_upto fuel upto update h zsl (iloc <$> xs !! c) t = inr (h', zsl', str <$> take m (drop c xs)) /\ rep h' zsl' (cut_out c m xs) ext /\ tight zsl' (cut_out c m xs) /\ header zsl' = header zsl.
Proof.
  revert h zsl xs t. induction fuel as [|fuel IH]; intros h zsl xs t Hr Ht Hlen Hu Ht0 m Hf Htm; (destruct (xs !! c) as [x|] eqn:Ex; cbn [fmap option_fmap option_map delete_upto]; [|apply lookup_ge_None_1 in Ex; assert (m = O) as -> by (unfold m; lia); rewrite cut_out_zero; by exists h, zsl]).
  all: pose proof (lookup_lt_Some _ _ _ Ex) as Hl; destruct (Z.leb_spec t upto); [|assert (m = O) as -> by (unfold m; lia); rewrite cut_out_zero; by exists h, zsl].
  - unfold m in Hf. lia.
  - destruct (delete_turn h zsl xs ext c x update Hr Hlen Ex Hu) as (g & zsl' & n' & -> & -> & Hn' & He' & Hr' & Ht' & Eh & Hu'). cbn [mbind result_bind]. unfold zslFreeNode. rewrite Hn'. cbn [the mbind result_bind]. rewrite He'. cbn [the mbind result_bind mret result_ret].
    destruct (remove_lookup c xs x Ex) as (_ & Ed & _). rewrite wrap_u_id by (unfold in_u, m in *; lia). pose proof (remove_length _ _ _ Ex) as El.
    assert (min (length (remove_at c xs) - c) (Z.to_nat (upto - (t + 1) + 1)) = (m - 1)%nat) as Em by (unfold m; lia). assert (m = S (m - 1)) as Em' by (unfold m; lia).
    destruct (IH _ _ _ (t + 1) Hr' Ht') as (h2 & zsl2 & -> & Hr2 & Ht2 & Eh2); try lia; [done|..]. cbn [mbind result_bind mret result_ret]. rewrite Em, Ed. rewrite Em, (cut_out_step _ _ _ _ Ex), <- Em' in Hr2, Ht2. exists h2, zsl2. split; [|split_and!; [done|done|congruence]].
    rewrite (drop_S _ _ _ Ex). rewrite Em' at 2. done.
Qed.
