(* ===== verification/SkiplistRange.v ===== *)
(** * Ranks and ranges of a skip list *)

From Stdlib Require Import Floats.SpecFloat.
From stdpp Require Import sorting.
From S2P Require Import Prelude Bytes Skiplist SkiplistRep SkiplistInsert SkiplistDelete.

(** ** Stretches of a list *)

Definition bfilter {A} (f : A -> bool) (xs : list A) : list A := filter (fun x => f x = true) xs.

Lemma bfilter_cons {A} (f : A -> bool) x xs : bfilter f (x :: xs) = if f x then x :: bfilter f xs else bfilter f xs.
Proof. unfold bfilter. rewrite filter_cons. destruct (f x); [by rewrite decide_True|by rewrite decide_False]. Qed.

(** Counting from a later place on. *)
Lemma count_while_drop {A} (test : A -> bool) xs c : (forall p y, xs !! p = Some y -> test y = (p <? count_while test xs)%nat) -> count_while test (drop c xs) = (count_while test xs - c)%nat.
Proof.
  revert c. induction xs as [|x xs IH]; intros c H; [by rewrite drop_nil|]. destruct c as [|c]; [by rewrite drop_0, Nat.sub_0_r|]. cbn [drop].
  assert (forall p y, xs !! p = Some y -> test y = (S p <? count_while test (x :: xs))%nat) as H1 by (intros p y Hy; by apply (H (S p))). cbn [count_while] in *. destruct (test x); [apply IH; intros p y Hy; rewrite (H1 p y Hy); done|].
  destruct (drop c xs) as [|y ys] eqn:E; [done|]. cbn [count_while]. rewrite (H1 c y); [done|]. rewrite <- (Nat.add_0_r c), <- lookup_drop, E. done.
Qed.

(** The elements at the positions from [c1] to [c2]. *)
Lemma filter_window {A} (f : A -> bool) xs c1 c2 : (forall p y, xs !! p = Some y -> f y = (c1 <=? p)%nat && (p <? c2)%nat) ->
  bfilter f xs = take (c2 - c1) (drop c1 xs) /\ bfilter (fun y => negb (f y)) xs = take c1 xs ++ drop (c1 + (c2 - c1)) xs.
Proof.
  revert c1 c2. induction xs as [|x xs IH]; intros c1 c2 H; [by rewrite !take_nil, !drop_nil, take_nil|]. pose proof (H 0%nat x eq_refl) as H0. rewrite !bfilter_cons.
  assert (forall p y, xs !! p = Some y -> f y = (c1 - 1 <=? p)%nat && (p <? c2 - 1)%nat) as H1.
  { intros p y Hy. rewrite (H (S p) y Hy). destruct (Nat.leb_spec c1 (S p)), (Nat.leb_spec (c1 - 1) p), (Nat.ltb_spec (S p) c2), (Nat.ltb_spec p (c2 - 1)); try done; lia. }
  destruct (IH _ _ H1) as [E1 E2]. rewrite H0, E1, E2. clear IH E1 E2 H1 H. destruct c1 as [|c1]; destruct c2 as [|c2]; cbn [Nat.leb Nat.ltb andb negb Nat.sub take drop app Nat.add]; rewrite ?Nat.sub_0_r, ?drop_0; try done; by rewrite ?take_drop.
Qed.

(** ** Order of the elements by a test *)

Section Tests.
Context (h : heap) (zsl : zskiplist) (xs : list item) (ext : gset loc) (Hr : rep h zsl xs ext).
Notation pl := (places zsl xs).

(** A test that holds up to some place. *)
Definition falling (test : item -> bool) : Prop := forall a b, a ∈ xs -> b ∈ xs -> item_lt a b -> test b = true -> test a = true.
Lemma falling_spec test p y : falling test -> xs !! p = Some y -> test y = (p <? count_while test xs)%nat.
Proof.
  intros Hf. apply count_while_spec. intros p' q a b Hlt Ha Hb. apply Hf; [by eapply list_elem_of_lookup_2..|]. by apply (xs_pairs _ _ _ _ Hr p' q).
Qed.
Lemma tests_splits go test : tests go test -> falling test -> splits h zsl xs (count_while test xs) go.
Proof.
  intros Ht Hf [|q] z n Hq Hz Hn; [lia|]. change (xs !! q = Some z) in Hz. destruct (node_ok _ _ _ _ Hr q z Hz) as (n' & Hn' & He & Hs & _). rewrite Hn in Hn'. injection Hn' as <-. rewrite (Ht n z He Hs). by rewrite (falling_spec test q z Hf Hz).
Qed.

(** ** Ranks *)

Context (Hlen : Z.of_nat (length xs) < 2 ^ 63).

Definition ple (a b : double * bytes) : bool := dlt a.1 b.1 || deq a.1 b.1 && (sdscmp a.2 b.2 <=? 0).
Lemma ple_spec a b : isnan a.1 = false -> isnan b.1 = false -> ple a b = true <-> pair_lt a b \/ peq a b.
Proof.
  intros Ha Hb. unfold ple, pair_lt, peq. rewrite orb_true_iff, andb_true_iff, (dlt_key _ _ Ha Hb), (deq_key _ _ Ha Hb), Z.leb_le. destruct (sdscmp_spec a.2 b.2) as (H1 & H2 & _). split.
  - intros [?|[E ?]]; [auto|]. destruct (Z.eq_dec (sdscmp a.2 b.2) 0); [right; split; [done|tauto]|left; right; split; [done|]; apply H1; lia].
  - intros [[?|[? ?]]|[? ?]]; [auto|right; split; [done|]; apply H1 in H0; lia|right; split; [done|]; apply H2 in H0; lia].
Qed.

Context (k : double * bytes) (Hk : isnan k.1 = false).
Notation cut2 := (count_while (fun y => ple (pair_of y) k) xs).

Lemma ple_falling : falling (fun y => ple (pair_of y) k).
Proof.
  intros a b Ha Hb Hlt H. destruct (real_pair _ _ _ _ Hr a Ha) as [Na _], (real_pair _ _ _ _ Hr b Hb) as [Nb _]. apply ple_spec in H; [|done..]. apply ple_spec; [done..|]. left. destruct H as [H|H]; [by eapply pair_lt_trans|by eapply pair_lt_peq].
Qed.
Lemma not_after_tests : tests (not_after k.1 k.2) (fun y => ple (pair_of y) k).
Proof.
  intros n y He Hs. unfold not_after. rewrite He, Hs. unfold ple, pair_of. cbn [fst snd]. destruct (dlt (iscore y) k.1); [done|]. by destruct (deq (iscore y) k.1).
Qed.

(** The element that is [k] is the last one up to [k]. *)
Lemma rank_place p y : pl !! p = Some y -> (p <= cut2)%nat -> iele y <> None -> same k (pair_of y) = true -> p = cut2.
Proof.
  intros Hy Hp He Hs. destruct p as [|p]; [by injection Hy as <-|]. change (xs !! p = Some y) in Hy. destruct (real_pair _ _ _ _ Hr y) as [Ny _]; [by eapply list_elem_of_lookup_2|]. apply (same_spec k _ Hk Ny) in Hs.
  destruct (decide (S p = cut2)) as [|Hne]; [done|]. assert (S p < length xs)%nat as Hl by (pose proof (count_while_le (fun y => ple (pair_of y) k) xs); lia). destruct (lookup_lt_is_Some_2 xs (S p) Hl) as [z Hz].
  pose proof (falling_spec _ (S p) z ple_falling Hz) as E. rewrite (proj2 (Nat.ltb_lt _ _)) in E by lia. destruct (real_pair _ _ _ _ Hr z) as [Nz _]; [by eapply list_elem_of_lookup_2|]. apply ple_spec in E; [|done..].
  pose proof (xs_pairs _ _ _ _ Hr p (S p) y z ltac:(lia) Hy Hz) as Hlt. exfalso. apply (pair_lt_irrefl k). destruct E as [E|E].
  - eapply (pair_lt_trans _ (pair_of z)); [|done]. by eapply peq_pair_lt; [|exact Hlt]; destruct Hs.
  - eapply pair_lt_peq; [|exact E]. by eapply peq_pair_lt; [|exact Hlt]; destruct Hs.
Qed.

(** The rank of [k], counted from 1; 0 when it is not there. *)
Definition rank_of : Z := if existsb (fun y => same k (pair_of y)) xs then Z.of_nat cut2 else 0.

Lemma same_ple p : isnan p.1 = false -> same k p = true -> ple p k = true.
Proof. intros Hp Hs. apply ple_spec; [done..|]. right. by apply same_spec. Qed.
Lemma same_at p y : xs !! p = Some y -> same k (pair_of y) = true -> S p = cut2.
Proof.
  intros Hy Hs. destruct (real_pair _ _ _ _ Hr y) as [Ny He]; [by eapply list_elem_of_lookup_2|]. apply (rank_place (S p) y Hy); [|by rewrite He|done].
  pose proof (falling_spec _ p y ple_falling Hy) as E. cbv beta in E; rewrite (same_ple _ Ny Hs) in E. symmetry in E. by apply Nat.ltb_lt in E.
Qed.
Lemma rank_absent : (forall y, pl !! cut2 = Some y -> iele y <> None -> same k (pair_of y) = false) -> rank_of = 0.
Proof.
  intros H. unfold rank_of. destruct (existsb _ xs) eqn:E; [|done]. apply existsb_exists in E as (y & Hy & Hs). apply list_elem_of_In, list_elem_of_lookup in Hy as [p Hp]. pose proof (same_at p y Hp Hs) as Ep.
  destruct (real_pair _ _ _ _ Hr y) as [_ He]; [by eapply list_elem_of_lookup_2|]. rewrite H in Hs; [done| |by rewrite He]. by rewrite <- Ep.
Qed.
Lemma rank_present p y : pl !! p = Some y -> (p <= cut2)%nat -> iele y <> None -> same k (pair_of y) = true -> rank_of = Z.of_nat p.
Proof.
  intros Hy Hp He Hs. rewrite (rank_place p y Hy Hp He Hs). unfold rank_of. destruct p as [|p]; [by injection Hy as <-|]. change (xs !! p = Some y) in Hy. destruct (existsb _ xs) eqn:E; [done|].
  assert (existsb (fun y => same k (pair_of y)) xs = true) as E'; [|congruence]. apply existsb_exists. exists y. split; [|done]. by eapply list_elem_of_In, list_elem_of_lookup_2.
Qed.

Lemma deq_sym a b : deq a b = deq b a.
Proof.
  destruct (isnan a || isnan b) eqn:E; [apply orb_true_iff in E; destruct (nan_compare a b E) as (_ & -> & _); destruct (nan_compare b a) as (_ & -> & _); tauto|]. apply orb_false_iff in E as [].
  apply eq_true_iff_eq. rewrite !deq_key by done. by split; intros ->.
Qed.
(** The test after the walk along a level. *)
Lemma rank_test p y : pl !! p = Some y -> exists n, h !! iloc y = Some n /\
  bool_decide (is_Some (ele n)) && deq (score n) k.1 && (sdscmp (default [] (ele n)) k.2 =? 0) = match iele y with Some _ => same k (pair_of y) | None => false end.
Proof.
  intros Hy. destruct (place_node _ _ _ _ Hr p y Hy) as (n & -> & He & Hs & _). exists n. split; [done|]. rewrite He, Hs. unfold same, pair_of, str. cbn [fst snd]. destruct (iele y); [|done]. by rewrite bool_decide_true, (deq_sym (iscore y)) by by eexists.
Qed.

Lemma get_rank_ok j x : (j <= zlevel zsl)%nat -> pl !! start zsl xs cut2 j = Some x -> (j = O -> rank_of = 0) -> get_rank k.1 k.2 h (rev (seq 0 j)) (iloc x) (Z.of_nat (start zsl xs cut2 j)) = inr rank_of.
Proof.
  pose proof (count_while_le (fun y => ple (pair_of y) k) xs) as Hcut. revert x. induction j as [|i IH]; intros x Hj Hx H0; [by rewrite H0|]. rewrite seq_S, rev_app_distr. cbn [rev app get_rank Nat.add].
  destruct (start_ok h zsl xs ext Hr cut2 Hcut i ltac:(lia)) as (x' & Hx' & Hh & Hc). rewrite Hx in Hx'. injection Hx' as <-.
  destruct (advance_rank_ok h zsl xs ext Hr cut2 Hcut Hlen (size h) (not_after k.1 k.2) i (start zsl xs cut2 (S i)) x) as (z & Hz & ->); try done; [by apply tests_splits; [apply not_after_tests|apply ple_falling]|by eapply walk_fuel|]. cbn [mbind result_bind].
  destruct (rank_test _ z Hz) as (n & -> & Et). cbn [the mbind result_bind]. rewrite Et. destruct (iele z) as [e|] eqn:Ee; [destruct (same k (pair_of z)) eqn:Es|].
  - rewrite (rank_present _ z Hz); [done|apply lastpos_le|by rewrite Ee|done].
  - rewrite <- (start_below zsl xs cut2 Hcut i) in * by lia. apply IH; [lia|done|]. intros ->. apply rank_absent. rewrite (start_below zsl xs cut2 Hcut 0), (last_zero h zsl xs ext Hr _ Hcut) in Hz by lia. intros y Hy _. congruence.
  - rewrite <- (start_below zsl xs cut2 Hcut i) in * by lia. apply IH; [lia|done|]. intros ->. apply rank_absent. rewrite (start_below zsl xs cut2 Hcut 0), (last_zero h zsl xs ext Hr _ Hcut) in Hz by lia. intros y Hy ?. congruence.
Qed.
Lemma zslGetRank_ok : zslGetRank h zsl k.1 k.2 = inr rank_of.
Proof.
  unfold zslGetRank, levels_down. pose proof (get_rank_ok (zlevel zsl) (hitem (header zsl))) as H. unfold start in H. rewrite Nat.eqb_refl in H. apply H; [done|done|]. pose proof (r_level _ _ _ _ Hr). lia.
Qed.
End Tests.

Section ByRank.
Context (h : heap) (zsl : zskiplist) (xs : list item) (ext : gset loc) (Hr : rep h zsl xs ext) (Hlen : Z.of_nat (length xs) < 2 ^ 63).
Notation pl := (places zsl xs).

Lemma get_by_rank_ok rank (Hrank : 0 <= rank) j x : let cut := min (length xs) (Z.to_nat rank) in (j <= zlevel zsl)%nat -> pl !! start zsl xs cut j = Some x -> (j = O -> Z.of_nat (length xs) < rank) ->
  get_by_rank rank h (rev (seq 0 j)) (iloc x) (Z.of_nat (start zsl xs cut j)) = inr (iloc <$> pl !! Z.to_nat rank).
Proof.
  intros cut. assert (cut <= length xs)%nat as Hcut by lia. revert x. induction j as [|i IH]; intros x Hj Hx H0; [rewrite (lookup_ge_None_2 pl); [done|]; cbn; specialize (H0 eq_refl); lia|]. rewrite seq_S, rev_app_distr. cbn [rev app get_by_rank Nat.add].
  destruct (start_ok h zsl xs ext Hr cut Hcut i ltac:(lia)) as (x' & Hx' & Hh & Hc). rewrite Hx in Hx'. injection Hx' as <-.
  destruct (advance_span_ok h zsl xs ext Hr cut Hcut Hlen (size h) (fun t => t <=? rank) i (start zsl xs cut (S i)) x) as (z & Hz & ->); try done; [|by eapply walk_fuel|].
  { intros q Hq. destruct (Z.leb_spec (Z.of_nat q) rank), (Nat.leb_spec q cut); try done; lia. }
  cbn [mbind result_bind]. destruct (Z.eqb_spec (Z.of_nat (lastpos i pl cut)) rank) as [E|Hne]; [rewrite <- E, Nat2Z.id, Hz; done|].
  rewrite <- (start_below zsl xs cut Hcut i) in * by lia. apply IH; [lia|done|]. intros ->. rewrite (start_below zsl xs cut Hcut 0), (last_zero h zsl xs ext Hr _ Hcut) in Hne by lia. lia.
Qed.
(** The header counts as the element of rank 0. *)
Lemma zslGetElementByRank_ok rank : 0 <= rank -> zslGetElementByRank h zsl rank = inr (iloc <$> pl !! Z.to_nat rank).
Proof.
  intros H. unfold zslGetElementByRank, levels_down. pose proof (get_by_rank_ok rank H (zlevel zsl) (hitem (header zsl))) as G. cbv zeta in G. unfold start in G. rewrite Nat.eqb_refl in G. apply G; [done|done|]. pose proof (r_level _ _ _ _ Hr). lia.
Qed.

Lemma zslDeleteRangeByRank_ok first upto : tight zsl xs -> 1 <= first -> let c := Z.to_nat (first - 1) in let m := Z.to_nat (upto - first + 1) in
  exists h' zsl', zslDeleteRangeByRank h zsl first upto = inr (h', zsl', str <$> take m (drop c xs)) /\ rep h' zsl' (cut_out c m xs) ext /\ tight zsl' (cut_out c m xs) /\ header zsl' = header zsl.
Proof.
  intros Ht Hf c m. unfold zslDeleteRangeByRank. set (cut := min (length xs) c). assert (cut <= length xs)%nat as Hcut by lia.
  destruct (rank_search_ok h zsl xs ext Hr cut Hcut Hlen first) as (y & update & -> & Hy & Hu). { intros q Hq. destruct (Z.ltb_spec (Z.of_nat q) first), (Nat.leb_spec q cut); try done; lia. }
  cbn [mbind result_bind]. rewrite (after_ok h zsl xs ext Hr _ _ Hy). cbn [mbind result_bind]. rewrite wrap_u_id by (unfold in_u; lia). set (m' := min (length xs - cut) (Z.to_nat (upto - (Z.of_nat cut + 1) + 1))).
  assert (take m' (drop cut xs) = take m (drop c xs) /\ cut_out cut m' xs = cut_out c m xs) as [E1 E2].
  { unfold cut_out. destruct (le_lt_dec c (length xs)) as [Hle|Hgt].
    - assert (cut = c) as -> by (unfold cut; lia). assert (m' = min (length xs - c) m) as -> by (unfold m', m, c; lia). destruct (le_lt_dec m (length xs - c)); [by replace (min (length xs - c) m) with m by lia|]. rewrite Nat.min_l by lia. split; [rewrite !take_ge; [done|rewrite length_drop; lia..]|]. by rewrite !(drop_ge xs) by lia.
    - rewrite !(drop_ge xs), !(take_ge xs), !take_nil by lia. done. }
  pose proof (place_fuel _ _ _ _ Hr) as Hsz. cbn [places length] in Hsz. destruct (delete_upto_ok (size h) upto cut update h zsl xs ext (Z.of_nat cut + 1) Hr Ht Hlen Hu) as (h' & zsl' & -> & H); [lia|lia|lia|]. fold m' in H |- *. rewrite E1. rewrite E2 in H. by exists h', zsl'.
Qed.
End ByRank.

(** ** Ranges *)

Section Window.
Context (h : heap) (zsl : zskiplist) (xs : list item) (ext : gset loc) (Hr : rep h zsl xs ext).
Context (gteN belowN lteN : zskiplistNode -> result bool) (gte lte : item -> bool).
Context (Hgte : tests gteN gte) (Hbel : tests belowN (fun y => negb (gte y))) (Hlte : tests lteN lte) (Hbelow : falling xs (fun y => negb (gte y))) (Hupto : falling xs lte).
Notation pl := (places zsl xs).
Notation c1 := (count_while (fun y => negb (gte y)) xs).
Notation c2 := (count_while lte xs).
Definition within (y : item) : bool := gte y && lte y.

Lemma within_at p y : xs !! p = Some y -> within y = (c1 <=? p)%nat && (p <? c2)%nat.
Proof.
  intros Hy. unfold within. rewrite <- (falling_spec h zsl xs ext Hr lte p y Hupto Hy). f_equal. pose proof (falling_spec h zsl xs ext Hr _ p y Hbelow Hy) as E. cbv beta in E. destruct (gte y), (Nat.ltb_spec p c1), (Nat.leb_spec c1 p); try done; lia.
Qed.
Lemma within_window : bfilter within xs = take (c2 - c1) (drop c1 xs) /\ bfilter (fun y => negb (within y)) xs = cut_out c1 (c2 - c1) xs.
Proof. apply filter_window, within_at. Qed.

Lemma window_first : head (bfilter within xs) = if (c1 <? c2)%nat then xs !! c1 else None.
Proof.
  rewrite (proj1 within_window). destruct (Nat.ltb_spec c1 c2); [|by replace (c2 - c1)%nat with O by lia]. rewrite head_lookup, lookup_take_lt, lookup_drop by lia. by rewrite Nat.add_0_r.
Qed.
Lemma window_last : last (bfilter within xs) = if (c1 <? c2)%nat then xs !! (c2 - 1)%nat else None.
Proof.
  rewrite (proj1 within_window). pose proof (count_while_le lte xs). destruct (Nat.ltb_spec c1 c2); [|by replace (c2 - c1)%nat with O by lia].
  rewrite last_lookup, length_take, length_drop, lookup_take_lt, lookup_drop by lia. f_equal. lia.
Qed.

(** The common form of [zslIsInRange] and [zslIsInLexRange], and of what uses them. *)
Context (none : bool) (Hnone : none = true -> forall y, y ∈ xs -> within y = false).
Definition any_within : result bool :=
  if none then mret false else
  match tail zsl with
  | None => mret false
  | Some x =>
      n ← the (h !! x); b ← gteN n;
      if negb b then mret false else
      f ← forward_at h (header zsl) 0;
      match f with None => mret false | Some x => n ← the (h !! x); lteN n end
  end.
Definition first_within : result (option loc) :=
  b ← any_within;
  if negb b then mret None else
  x ← descend belowN h zsl;
  f ← forward_at h x 0;
  match f with None => inl AssertFails | Some x => n ← the (h !! x); b ← lteN n; mret (if (b : bool) then Some x else None) end.
Definition last_within : result (option loc) :=
  b ← any_within;
  if negb b then mret None else
  x ← descend lteN h zsl;
  n ← the (h !! x); b ← gteN n; mret (if (b : bool) then Some x else None).

Lemma test_at more test p y : tests more test -> xs !! p = Some y -> (n ← the (h !! iloc y); more n) = inr (test y).
Proof. intros Ht Hy. destruct (node_ok h zsl xs ext Hr p y Hy) as (n & -> & He & Hs & _). cbn. by apply Ht. Qed.
Lemma nothing_within : (c2 <= c1)%nat -> bfilter within xs = [].
Proof. intros H. rewrite (proj1 within_window). by replace (c2 - c1)%nat with O by lia. Qed.
Lemma below_splits : splits h zsl xs c1 belowN.
Proof. by apply (tests_splits h zsl xs ext Hr). Qed.

Lemma any_within_ok : exists b, any_within = inr b /\ if b then (c1 < length xs)%nat /\ (0 < c2)%nat else bfilter within xs = [].
Proof.
  unfold any_within. destruct none; [exists false; split; [done|]; destruct (bfilter within xs) as [|y ys] eqn:E; [done|]; assert (y ∈ bfilter within xs) as Hy by (rewrite E; by left); apply list_elem_of_filter in Hy as [Hw Hy]; by rewrite Hnone in Hw|].
  rewrite (r_tail _ _ _ _ Hr), last_lookup. destruct (xs !! Nat.pred (length xs)) as [y|] eqn:Ey; cbn [fmap option_fmap option_map].
  2:{ exists false. split; [done|]. apply lookup_ge_None_1 in Ey. destruct xs; [done|cbn in Ey; lia]. }
  destruct (node_ok h zsl xs ext Hr _ y Ey) as (n & -> & He & Hs & _). cbn [the mbind result_bind]. rewrite (Hgte n y He Hs). cbn [mbind result_bind]. pose proof (falling_spec h zsl xs ext Hr _ _ y Hbelow Ey) as E1. cbv beta in E1. rewrite E1. pose proof (lookup_lt_Some _ _ _ Ey) as Hl.
  destruct (Nat.ltb_spec (Nat.pred (length xs)) c1); [exists false; split; [done|]; apply nothing_within; pose proof (count_while_le lte xs); lia|].
  cbn [negb]. change (header zsl) with (iloc (hitem (header zsl))). rewrite (after_ok h zsl xs ext Hr 0 _ eq_refl). cbn [mbind result_bind]. destruct (xs !! 0%nat) as [z|] eqn:Ez; [|apply lookup_ge_None_1 in Ez; lia]. cbn [fmap option_fmap option_map]. rewrite (test_at _ _ _ _ Hlte Ez). eexists. split; [done|].
  rewrite (falling_spec h zsl xs ext Hr _ _ z Hupto Ez). destruct (Nat.ltb_spec 0 c2); [lia|]. apply nothing_within. lia.
Qed.
Lemma first_within_ok : first_within = inr (iloc <$> head (bfilter within xs)).
Proof.
  unfold first_within. destruct any_within_ok as (b & -> & Hb). cbn [mbind result_bind]. destruct b; cbn [negb]; [|by rewrite Hb]. destruct Hb as [Hb1 Hb2].
  destruct (descend_ok h zsl xs ext Hr c1 (count_while_le _ _) _ below_splits) as (y & -> & Hy). cbn [mbind result_bind]. rewrite (after_ok h zsl xs ext Hr _ _ Hy). cbn [mbind result_bind].
  destruct (lookup_lt_is_Some_2 xs c1 Hb1) as [z Hz]. rewrite window_first, Hz. cbn [fmap option_fmap option_map]. destruct (node_ok h zsl xs ext Hr _ z Hz) as (n & -> & He & Hs & _). cbn [the mbind result_bind]. rewrite (Hlte n z He Hs). cbn [mbind result_bind].
  rewrite (falling_spec h zsl xs ext Hr _ _ z Hupto Hz). by destruct (c1 <? c2)%nat.
Qed.
Lemma last_within_ok : last_within = inr (iloc <$> last (bfilter within xs)).
Proof.
  unfold last_within. destruct any_within_ok as (b & -> & Hb). cbn [mbind result_bind]. destruct b; cbn [negb]; [|by rewrite Hb]. destruct Hb as [Hb1 Hb2].
  destruct (descend_ok h zsl xs ext Hr c2 (count_while_le _ _) lteN) as (y & -> & Hy); [by apply (tests_splits h zsl xs ext Hr)|]. cbn [mbind result_bind]. rewrite window_last. destruct (count_while lte xs) as [|c]; [lia|]. change (xs !! c = Some y) in Hy. replace (S c - 1)%nat with c by lia. rewrite Hy.
  destruct (node_ok h zsl xs ext Hr _ y Hy) as (n & -> & He & Hs & _). cbn [the mbind result_bind]. rewrite (Hgte n y He Hs). cbn [mbind result_bind].
  pose proof (falling_spec h zsl xs ext Hr _ _ y Hbelow Hy) as E. cbv beta in E. destruct (gte y), (Nat.ltb_spec c c1), (Nat.ltb_spec c1 (S c)); try done; lia.
Qed.

(** Deletion of what is within. *)
Lemma delete_within_ok : tight zsl xs -> Z.of_nat (length xs) < 2 ^ 63 ->
  exists h' zsl', ('(x, update) ← search belowN h zsl; x ← forward_at h x 0; delete_while (size h) lteN update h zsl x) = inr (h', zsl', str <$> bfilter within xs) /\
    rep h' zsl' (bfilter (fun y => negb (within y)) xs) ext /\ tight zsl' (bfilter (fun y => negb (within y)) xs) /\ header zsl' = header zsl.
Proof.
  intros Ht Hlen. destruct (search_ok h zsl xs ext Hr c1 (count_while_le _ _) _ below_splits) as (y & update & -> & Hy & Hu). cbn [mbind result_bind]. rewrite (after_ok h zsl xs ext Hr _ _ Hy). cbn [mbind result_bind].
  assert (count_while lte (drop c1 xs) = (c2 - c1)%nat) as Em.
  { apply count_while_drop. intros p z Hz. by apply (falling_spec h zsl xs ext Hr). }
  pose proof (place_fuel _ _ _ _ Hr) as Hsz. pose proof (count_while_le lte xs). cbn [places length] in Hsz. destruct (delete_while_ok (size h) lteN lte c1 update h zsl xs ext Hlte Hr Ht Hlen Hu) as (h' & zsl' & -> & H'); [rewrite Em; lia|]. rewrite Em in *. rewrite (proj1 within_window), (proj2 within_window). by exists h', zsl'.
Qed.
End Window.

(** ** Ranges of scores and of strings

    The first, the last and the deletion of the elements in a range, and the life of a list. *)

(** ** Scores *)

Definition in_scores (range : zrangespec) (p : double * bytes) : bool := zslValueGteMin p.1 range && zslValueLteMax p.1 range.

Lemma dlt_trans_le a b c : isnan a = false -> isnan b = false -> ~ key_lt (key_of b) (key_of a) -> (dlt b c = true -> dlt a c = true) /\ (dle b c = true -> dle a c = true) /\ (dlt c a = true -> dlt c b = true) /\ (dle c a = true -> dle c b = true).
Proof.
  intros Ha Hb Hab. destruct (isnan c) eqn:Hc.
  - destruct (nan_compare b c) as (-> & _ & ->); [by right|]. destruct (nan_compare c a) as (-> & _ & ->); [by left|]. done.
  - rewrite !dlt_key, !dle_key by done. unfold key_lt in *. split_and!; lia.
Qed.
Lemma item_lt_key a b : item_lt a b -> ~ key_lt (key_of (iscore b)) (key_of (iscore a)).
Proof. intros [H|[H _]]; cbn in H; unfold key_lt in *; [lia|]. rewrite H. lia. Qed.

Section Scores.
Context (h : heap) (zsl : zskiplist) (xs : list item) (ext : gset loc) (Hr : rep h zsl xs ext) (range : zrangespec).
Notation gte := (fun y => zslValueGteMin (iscore y) range).
Notation lte := (fun y => zslValueLteMax (iscore y) range).

Lemma score_order a b : a ∈ xs -> b ∈ xs -> item_lt a b -> (lte b = true -> lte a = true) /\ (gte a = true -> gte b = true).
Proof.
  intros Ha Hb Hlt. destruct (real_pair _ _ _ _ Hr a Ha) as [Na _], (real_pair _ _ _ _ Hr b Hb) as [Nb _]. apply item_lt_key in Hlt. unfold zslValueLteMax, zslValueGteMin.
  destruct (dlt_trans_le (iscore a) (iscore b) (rmax range) Na Nb Hlt) as (H1 & H2 & _). destruct (dlt_trans_le (iscore a) (iscore b) (rmin range) Na Nb Hlt) as (_ & _ & H3 & H4). destruct (maxex range), (minex range); auto.
Qed.
Lemma scores_upto : falling xs lte.
Proof. intros a b Ha Hb Hlt. by apply score_order. Qed.
Lemma scores_below : falling xs (fun y => negb (gte y)).
Proof. intros a b Ha Hb Hlt. destruct (score_order a b Ha Hb Hlt) as [_ H]. cbv beta in *. destruct (zslValueGteMin (iscore a) range); [by rewrite H|done]. Qed.

(** The test for an empty range is right. *)
Lemma scores_none : dlt (rmax range) (rmin range) || deq (rmin range) (rmax range) && (minex range || maxex range) = true -> forall y, y ∈ xs -> within gte lte y = false.
Proof.
  intros H y Hy. destruct (real_pair _ _ _ _ Hr y Hy) as [Ny _]. change (isnan (iscore y) = false) in Ny. unfold within, zslValueGteMin, zslValueLteMax. destruct (isnan (rmin range) || isnan (rmax range)) eqn:En.
  - apply orb_true_iff in En. destruct (nan_compare (rmin range) (rmax range) En) as (_ & E & _). destruct (nan_compare (rmax range) (rmin range)) as (E' & _); [tauto|]. by rewrite E, E' in H.
  - apply orb_false_iff in En as [Nm NM]. apply not_true_is_false. rewrite andb_true_iff. rewrite orb_true_iff, andb_true_iff, orb_true_iff, dlt_key, deq_key in H by done.
    destruct (minex range), (maxex range); rewrite ?dlt_key, ?dle_key by done; unfold key_lt in *; intros []; destruct H as [H|[H [?|?]]]; try done; try lia; rewrite H in *; lia.
Qed.

Notation gteN := (fun n => mret (zslValueGteMin (score n) range)).
Notation none := (dlt (rmax range) (rmin range) || deq (rmin range) (rmax range) && (minex range || maxex range)).
Lemma zslFirstInRange_ok : zslFirstInRange h zsl range = inr (iloc <$> head (bfilter (within gte lte) xs)).
Proof.
  transitivity (first_within h zsl gteN (below_min range) (upto_max range) none); [reflexivity|].
  apply (first_within_ok h zsl xs ext Hr); [by intros n y _ <-..|apply scores_below|apply scores_upto|apply scores_none].
Qed.
Lemma zslLastInRange_ok : zslLastInRange h zsl range = inr (iloc <$> last (bfilter (within gte lte) xs)).
Proof.
  transitivity (last_within h zsl gteN (upto_max range) none); [reflexivity|].
  apply (last_within_ok h zsl xs ext Hr); [by intros n y _ <-..|apply scores_below|apply scores_upto|apply scores_none].
Qed.
Lemma zslDeleteRangeByScore_ok : tight zsl xs -> Z.of_nat (length xs) < 2 ^ 63 ->
  exists h' zsl', zslDeleteRangeByScore h zsl range = inr (h', zsl', str <$> bfilter (within gte lte) xs) /\
    rep h' zsl' (bfilter (fun y => negb (within gte lte y)) xs) ext /\ tight zsl' (bfilter (fun y => negb (within gte lte y)) xs) /\ header zsl' = header zsl.
Proof. apply (delete_within_ok h zsl xs ext Hr (below_min range) (upto_max range) gte lte); [intros n y _ <-..|apply scores_below|apply scores_upto]; done. Qed.
End Scores.

(** ** Strings *)

Definition in_strings (range : zlexrangespec) (p : double * bytes) : bool := zslLexValueGteMin p.2 range && zslLexValueLteMax p.2 range.

Definition lex_lt (a b : lexbound) : Prop := sdscmplex a b < 0.
Lemma lex_eq a b : sdscmplex a b = 0 <-> a = b.
Proof. destruct a as [| |a], b as [| |b]; cbn; try (split; (done || lia)). destruct (sdscmp_spec a b) as (_ & -> & _). by split; [intros ->|intros [= ->]]. Qed.
Lemma lex_gt a b : 0 < sdscmplex a b <-> lex_lt b a.
Proof. unfold lex_lt. destruct a as [| |a], b as [| |b]; cbn; try lia. destruct (sdscmp_spec a b) as (_ & _ & ->), (sdscmp_spec b a) as (-> & _). done. Qed.
Lemma lex_trans a b c : lex_lt a b -> lex_lt b c -> lex_lt a c.
Proof.
  unfold lex_lt. destruct a as [| |a], b as [| |b], c as [| |c]; cbn; try lia. destruct (sdscmp_spec a b) as (-> & _), (sdscmp_spec b c) as (-> & _), (sdscmp_spec a c) as (-> & _). apply bytes_lt_trans.
Qed.
Lemma lex_le a b : sdscmplex a b <= 0 <-> a = b \/ lex_lt a b.
Proof. rewrite <- lex_eq. unfold lex_lt. lia. Qed.
Lemma lex_ge a b : 0 <= sdscmplex a b <-> a = b \/ lex_lt b a.
Proof. rewrite <- lex_gt, <- lex_eq. lia. Qed.
Lemma lex_irrefl a : ~ lex_lt a a.
Proof. unfold lex_lt. by rewrite (proj2 (lex_eq a a)). Qed.

Lemma lex_min v range : zslLexValueGteMin v range = true <-> (lminex range = false /\ Str v = lmin range) \/ lex_lt (lmin range) (Str v).
Proof. unfold zslLexValueGteMin. destruct (lminex range); rewrite ?Z.ltb_lt, ?Z.leb_le, ?lex_gt, ?lex_ge; naive_solver. Qed.
Lemma lex_max v range : zslLexValueLteMax v range = true <-> (lmaxex range = false /\ Str v = lmax range) \/ lex_lt (Str v) (lmax range).
Proof. unfold zslLexValueLteMax. destruct (lmaxex range); rewrite ?Z.ltb_lt, ?Z.leb_le, ?lex_le; naive_solver. Qed.

Section Strings.
Context (h : heap) (zsl : zskiplist) (xs : list item) (ext : gset loc) (Hr : rep h zsl xs ext) (range : zlexrangespec).
(** These functions are for elements of one score. *)
Context (Hone : forall a b, a ∈ xs -> b ∈ xs -> key_of (iscore a) = key_of (iscore b)).
Notation gte := (fun y => zslLexValueGteMin (str y) range).
Notation lte := (fun y => zslLexValueLteMax (str y) range).
Notation none := ((0 <? sdscmplex (lmin range) (lmax range)) || (sdscmplex (lmin range) (lmax range) =? 0) && (lminex range || lmaxex range)).
Notation gteN := (fun n => e ← the (ele n); mret (zslLexValueGteMin e range)).

Lemma string_order a b : a ∈ xs -> b ∈ xs -> item_lt a b -> lex_lt (Str (str a)) (Str (str b)).
Proof. intros Ha Hb [H|[_ H]]; cbn in H; [rewrite (Hone a b Ha Hb) in H; unfold key_lt in H; lia|]. unfold lex_lt. cbn. by apply sdscmp_spec. Qed.
Lemma strings_upto : falling xs lte.
Proof. intros a b Ha Hb Hlt. pose proof (string_order a b Ha Hb Hlt). rewrite !lex_max. intros [[_ <-]|?]; [by right|]. right. by eapply lex_trans. Qed.
Lemma strings_below : falling xs (fun y => negb (gte y)).
Proof.
  intros a b Ha Hb Hlt. pose proof (string_order a b Ha Hb Hlt). rewrite !negb_true_iff, <- !not_true_iff_false, !lex_min. intros Hn Hg. apply Hn. destruct Hg as [[_ <-]|?]; [by right|]. right. by eapply lex_trans.
Qed.
Lemma strings_none : none = true -> forall y, y ∈ xs -> within gte lte y = false.
Proof.
  intros H y Hy. unfold within. apply not_true_is_false. rewrite andb_true_iff, lex_min, lex_max. rewrite orb_true_iff, andb_true_iff, orb_true_iff, Z.ltb_lt, Z.eqb_eq, lex_gt, lex_eq in H.
  pose proof (fun a b c => lex_trans a b c) as T. pose proof lex_irrefl as I. intros [[[? E1]|L1] [[? E2]|L2]]; destruct H as [H|[H [?|?]]]; try congruence; try rewrite <- E1 in H; try rewrite <- E2 in H.
  all: try rewrite <- H in L2; naive_solver.
Qed.

Lemma lex_any : zslIsInLexRange h zsl range = any_within h zsl gteN (lex_upto range) none.
Proof. unfold zslIsInLexRange, any_within. destruct none; [done|]. destruct (tail zsl) as [x|]; [|done]. destruct (h !! x) as [n|]; [|done]. cbn. by destruct (ele n). Qed.
Lemma lex_tests : tests gteN gte /\ tests (lex_below range) (fun y => negb (gte y)) /\ tests (lex_upto range) lte.
Proof. unfold lex_below, lex_upto. by split_and!; intros n y -> _. Qed.

Lemma zslFirstInLexRange_ok : zslFirstInLexRange h zsl range = inr (iloc <$> head (bfilter (within gte lte) xs)).
Proof.
  transitivity (first_within h zsl gteN (lex_below range) (lex_upto range) none); [|apply (first_within_ok h zsl xs ext Hr); (apply lex_tests || apply strings_below || apply strings_upto || apply strings_none)].
  unfold zslFirstInLexRange, first_within. rewrite lex_any. destruct (any_within _ _ _ _ _) as [|[]]; cbn [mbind result_bind negb]; [done| |done]. destruct (descend _ _ _) as [|x]; [done|]. cbn [mbind result_bind]. destruct (forward_at h x 0) as [|[y|]]; [done| |done]. cbn [mbind result_bind].
  destruct (h !! y) as [n|]; [|done]. cbn. unfold lex_upto. by destruct (ele n).
Qed.
Lemma zslLastInLexRange_ok : zslLastInLexRange h zsl range = inr (iloc <$> last (bfilter (within gte lte) xs)).
Proof.
  transitivity (last_within h zsl gteN (lex_upto range) none); [|apply (last_within_ok h zsl xs ext Hr); (apply lex_tests || apply strings_below || apply strings_upto || apply strings_none)].
  unfold zslLastInLexRange, last_within. rewrite lex_any. destruct (any_within _ _ _ _ _) as [|[]]; cbn [mbind result_bind negb]; [done| |done]. destruct (descend _ _ _) as [|x]; [done|]. cbn [mbind result_bind].
  destruct (h !! x) as [n|]; [|done]. cbn. by destruct (ele n).
Qed.
Lemma zslDeleteRangeByLex_ok : tight zsl xs -> Z.of_nat (length xs) < 2 ^ 63 ->
  exists h' zsl', zslDeleteRangeByLex h zsl range = inr (h', zsl', str <$> bfilter (within gte lte) xs) /\
    rep h' zsl' (bfilter (fun y => negb (within gte lte y)) xs) ext /\ tight zsl' (bfilter (fun y => negb (within gte lte y)) xs) /\ header zsl' = header zsl.
Proof. apply (delete_within_ok h zsl xs ext Hr (lex_below range) (lex_upto range) gte lte); (apply lex_tests || apply strings_below || apply strings_upto). Qed.
End Strings.
