(* ===== verification/SkiplistLife.v ===== *)
(** * Creating a skip list, freeing it, and changing a score *)

From Stdlib Require Import Floats.SpecFloat.
From stdpp Require Import sorting.
From S2P Require Import Prelude Bytes Skiplist SkiplistRep SkiplistInsert SkiplistDelete SkiplistRange.

(** ** [zslCreate] *)

Section Create.
Context `{!Alloc}.

Lemma create_level h x i : cell h x i = Some (mk_level None None) -> exists h', (h ← set_forward h x i None; set_span h x i 0) = inr h' /\ cell_set h x i (mk_level (Some None) (Some 0)) h'.
Proof.
  intros Hc. destruct (set_forward_ok h x i None None None Hc) as (h1 & -> & Hc1 & Hi1 & Hd1). cbn [mbind result_bind]. destruct (set_span_ok h1 x i (Some None) None 0) as (h2 & -> & Hc2 & Hi2 & Hd2); [by rewrite Hc1, decide_True|].
  exists h2. split; [done|]. split_and!; [|intros; by rewrite Hi2|congruence]. intros y j. rewrite Hc2, Hc1. by case_decide.
Qed.

Lemma zslCreate_ok h : exists h' zsl, zslCreate h = inr (h', zsl) /\ rep h' zsl [] (dom h) /\ tight zsl [].
Proof.
  unfold zslCreate. cbn [zslCreateNode]. set (x := new_loc (dom h)). pose proof (new_loc_fresh (dom h)) as Hx. fold x in Hx. set (h0 := <[x := _]> h).
  destruct (for_each_up (fun h j => h ← set_forward h x j None; set_span h x j 0)
    (fun j g => (forall i, (i < ZSKIPLIST_MAXLEVEL)%nat -> cell g x i = Some (if (i <? j)%nat then mk_level (Some None) (Some 0) else mk_level None None)) /\ info g x = info h0 x /\ dom g = dom h0) 0 ZSKIPLIST_MAXLEVEL h0) as (g & -> & Hg & Hi & Hd).
  - split_and!; try done. intros i Hi. unfold cell, h0. rewrite lookup_insert_eq. cbn [level]. by rewrite lookup_replicate_2.
  - intros i g Hi (Hg & Hin & Hd). destruct (create_level g x i) as (g' & -> & Hc' & Hi' & Hd'); [rewrite Hg by lia; by rewrite (proj2 (Nat.ltb_ge _ _)) by lia|]. exists g'. split; [done|]. split_and!; [|by rewrite Hi'|by rewrite Hd'].
    intros k Hk. rewrite Hc'. destruct (decide (k = i)) as [->|Hne]; [rewrite decide_True by done; by rewrite (proj2 (Nat.ltb_lt _ _)) by lia|]. rewrite decide_False by tauto. rewrite Hg by done. by destruct (Nat.ltb_spec k i), (Nat.ltb_spec k (S i)); try lia.
  - assert (info g x = Some (None, S754_zero false, None, ZSKIPLIST_MAXLEVEL)) as Hix by (rewrite Hi; unfold info, h0; by rewrite lookup_insert_eq).
    cbn [mbind result_bind]. destruct (set_backward_ok g x None) as (g' & -> & Hc' & Hd' & Hi'); [by rewrite Hix|]. cbn [mbind result_bind mret result_ret]. exists g', (mk_zsl x None 0 1). split; [done|]. split; [|by left].
    assert (forall i, (i < ZSKIPLIST_MAXLEVEL)%nat -> cell g' x i = Some (mk_level (Some None) (Some 0))) as Hcell by (intros i Hl; rewrite Hc', Hg by done; by rewrite (proj2 (Nat.ltb_lt _ _)) by lia).
    split; cbn [header tail zlength zlevel places]; try done.
    + intros [|p] y Hy; [|done]. injection Hy as <-. cbn [iloc hitem]. rewrite Hi', decide_True by done. by rewrite Hix.
    + intros [|p] y i Hy; [|done]. injection Hy as <-. intros Hh _. cbn [iloc hitem]. by rewrite Hcell.
    + intros i Hl. exists 0. apply Hcell. lia.
    + unfold ZSKIPLIST_MAXLEVEL. lia.
    + by intros y ?%not_elem_of_nil.
    + by intros y ?%not_elem_of_nil.
    + constructor.
    + apply NoDup_singleton.
    + rewrite Hd', Hd. unfold h0. rewrite dom_insert_L. cbn. set_solver.
    + cbn. intros y ->%list_elem_of_singleton. done.
Qed.
End Create.

(** ** [zslFree] *)

(** The nodes [xs], each pointing to the next. *)
Fixpoint chained (h : heap) (ls : list loc) : Prop := match ls with [] => True | l :: ls => forward_at h l 0 = inr (head ls) /\ is_Some (h !! l) /\ chained h ls end.

Lemma chained_delete h l ls : l ∉ ls -> chained h ls -> chained (delete l h) ls.
Proof.
  induction ls as [|l' ls IH]; [done|]. cbn [chained]. intros Hl (Hf & Hs & Hc). apply not_elem_of_cons in Hl as [Hne Hl]. split_and!; [|by rewrite lookup_delete_ne|by apply IH]. unfold forward_at, level_at in *. by rewrite lookup_delete_ne.
Qed.
Lemma free_loop_ok fuel h ls : chained h ls -> NoDup ls -> (length ls <= fuel)%nat -> exists h', free_loop fuel h (head ls) = inr h' /\ dom h' = dom h ∖ list_to_set ls.
Proof.
  revert fuel h. induction ls as [|l ls IH]; intros fuel h Hc Hn Hf; [exists h; split; [by destruct fuel|cbn; set_solver]|]. destruct fuel as [|fuel]; [cbn in Hf; lia|]. cbn [head free_loop]. destruct Hc as (-> & [n Hs] & Hc). cbn [mbind result_bind]. unfold zslFreeNode. rewrite Hs. cbn [the mbind result_bind mret result_ret].
  apply NoDup_cons in Hn as [Hl Hn]. destruct (IH fuel (delete l h)) as (h' & -> & Hd); [by apply chained_delete|done|cbn in Hf; lia|]. exists h'. split; [done|]. rewrite Hd, dom_delete_L. cbn. set_solver.
Qed.

Lemma rep_chained h zsl xs ext : rep h zsl xs ext -> chained h (iloc <$> xs).
Proof.
  intros Hr. assert (forall c, chained h (iloc <$> drop c xs)) as H; [|apply (H O)]. intros c. remember (length xs - c)%nat as n eqn:En. revert c En. induction n as [|n IH]; intros c En; [by rewrite drop_ge by lia|].
  destruct (lookup_lt_is_Some_2 xs c ltac:(lia)) as [y Hy]. rewrite (drop_S _ _ _ Hy). cbn [fmap list_fmap chained]. split_and!; [|destruct (node_ok h zsl xs ext Hr c y Hy) as (m & -> & _); by eexists|apply IH; lia].
  rewrite (after_ok h zsl xs ext Hr (S c) y Hy). f_equal. rewrite head_lookup, list_lookup_fmap, lookup_drop. by rewrite Nat.add_0_r.
Qed.
Lemma zslFree_ok h zsl xs ext : rep h zsl xs ext -> exists h', zslFree h zsl = inr h' /\ dom h' = ext.
Proof.
  intros Hr. unfold zslFree. change (header zsl) with (iloc (hitem (header zsl))). rewrite (after_ok h zsl xs ext Hr 0 _ eq_refl). cbn [mbind result_bind]. destruct (place_node _ _ _ _ Hr 0 _ eq_refl) as (n & Hn & _). unfold zslFreeNode. rewrite Hn. cbn [the mbind result_bind mret result_ret].
  pose proof (r_locs _ _ _ _ Hr) as Hnd. cbn [places fmap list_fmap] in Hnd. apply NoDup_cons in Hnd as [Hhd Hnd].
  destruct (free_loop_ok (size (delete (iloc (hitem (header zsl))) h)) (delete (iloc (hitem (header zsl))) h) (iloc <$> xs)) as (h' & E & Hd); [apply chained_delete; [done|by eapply rep_chained]|done| |].
  - rewrite length_fmap, map_size_delete, Hn. pose proof (place_fuel _ _ _ _ Hr) as Hs. cbn [places length] in Hs. lia.
  - exists h'. rewrite <- list_lookup_fmap, <- head_lookup. split; [done|]. rewrite Hd, dom_delete_L, (r_dom _ _ _ _ Hr). pose proof (r_ext _ _ _ _ Hr) as Hx. cbn [places fmap list_fmap list_to_set] in *. apply set_eq. intros l. specialize (Hx l). rewrite elem_of_cons in Hx. set_solver.
Qed.

(** ** A score changed in place *)

Definition rescored (x : item) (sc : double) : item := mk_item (iloc x) sc (iele x) (iheight x).
Definition shape (y : item) : loc * nat := (iloc y, iheight y).

Lemma lev_shape i ys zs : shape <$> ys = shape <$> zs -> lev i ys = lev i zs.
Proof.
  intros E. assert (fwd i ys = fwd i zs /\ spn i ys = spn i zs) as [E1 E2]; [|unfold lev; by rewrite E1, E2]. revert zs E. induction ys as [|y ys IH]; intros [|z zs] E; try done. injection E as E1 E2 E3. cbn [fwd spn]. rewrite E1, E2. destruct (IH zs E3) as [-> ->]. done.
Qed.

Section Rescore.
Context (h : heap) (zsl : zskiplist) (xs : list item) (ext : gset loc) (Hr : rep h zsl xs ext).
Context (c : nat) (x : item) (Hx : xs !! c = Some x) (sc : double).
Notation pl := (places zsl xs).
Notation xs' := (<[c := rescored x sc]> xs).
Notation pl' := (places zsl xs').

Lemma shape_same : shape <$> xs' = shape <$> xs.
Proof. rewrite list_fmap_insert. apply list_insert_id. rewrite list_lookup_fmap, Hx. done. Qed.
Lemma locs_same : iloc <$> pl' = iloc <$> pl.
Proof. cbn [places fmap list_fmap]. f_equal. change (iloc <$> xs' = iloc <$> xs). rewrite list_fmap_insert. apply list_insert_id. by rewrite list_lookup_fmap, Hx. Qed.
Lemma back_same p : back pl' p = back pl p.
Proof. destruct p as [|[|p]]; [done..|]. cbn [back]. by rewrite <- !list_lookup_fmap, locs_same. Qed.
Lemma rescored_lookup p y : pl' !! p = Some y -> exists z, pl !! p = Some z /\ iloc y = iloc z /\ iheight y = iheight z /\ iele y = iele z /\ iscore y = if (p =? S c)%nat then sc else iscore z.
Proof.
  destruct p as [|p]; [intros [= <-]; by exists (hitem (header zsl))|]. change (xs' !! p = Some y -> exists z, xs !! p = Some z /\ iloc y = iloc z /\ iheight y = iheight z /\ iele y = iele z /\ iscore y = if (p =? c)%nat then sc else iscore z).
  destruct (Nat.eqb_spec p c) as [->|Hne]; [|rewrite list_lookup_insert_ne by done; by exists y]. rewrite list_lookup_insert_eq by (by eapply lookup_lt_Some). intros [= <-]. by exists x.
Qed.

Lemma rescore_ok : isnan sc = false -> sorted xs' -> exists h', set_score h (iloc x) sc = inr h' /\ rep h' zsl xs' ext.
Proof.
  intros Hnan Hs. destruct (place_node _ _ _ _ Hr (S c) x Hx) as (n & Hn & _). unfold set_score. rewrite Hn. cbn [the mbind result_bind mret result_ret]. eexists. split; [done|]. set (h' := <[iloc x := _]> h).
  assert (forall l i, cell h' l i = cell h l i) as Hc by (intros l i; unfold cell, h'; destruct (decide (l = iloc x)) as [->|]; [by rewrite lookup_insert_eq, Hn|by rewrite lookup_insert_ne]).
  assert (forall y, y ∈ xs' -> exists z, z ∈ xs /\ iheight y = iheight z /\ iele y = iele z /\ (iscore y = sc \/ iscore y = iscore z)) as Hin.
  { intros y [p Hp]%list_elem_of_lookup. destruct (rescored_lookup (S p) y Hp) as (z & Hz & _ & Eh & Ee & Es). exists z. split_and!; [by eapply (list_elem_of_lookup_2 xs p)|done|done|]. rewrite Es. destruct (S p =? S c)%nat; auto. }
  split; try (by destruct Hr); rewrite ?locs_same; try (by destruct Hr).
  - intros p y Hp. destruct (rescored_lookup p y Hp) as (z & Hz & El & Eh & Ee & Es). rewrite back_same, Ee, Eh, El. pose proof (r_info _ _ _ _ Hr p z Hz) as Hi. unfold info, h' in *. destruct (Nat.eqb_spec p (S c)) as [->|Hne].
    + change (xs !! c = Some z) in Hz. rewrite Hx in Hz. injection Hz as <-. rewrite lookup_insert_eq. rewrite Hn in Hi. cbn in *. injection Hi as -> _ -> ->. by rewrite Es.
    + rewrite lookup_insert_ne; [by rewrite Es|]. intros E. apply Hne. symmetry. by apply (place_inj _ _ _ _ Hr (S c) p x z Hx Hz).
  - intros p y i Hp. destruct (rescored_lookup p y Hp) as (z & Hz & El & Eh & _). rewrite Hc, El, Eh. intros Hh Hl. rewrite (r_cell _ _ _ _ Hr p z i Hz Hh Hl). f_equal. apply lev_shape. by rewrite !fmap_drop, shape_same.
  - intros i Hi. rewrite Hc. by apply (r_top _ _ _ _ Hr).
  - rewrite (r_tail _ _ _ _ Hr), <- !fmap_last. f_equal. pose proof locs_same as E. cbn [places fmap list_fmap] in E. by injection E as ->.
  - rewrite length_insert. apply (r_len _ _ _ _ Hr).
  - intros y (z & Hz & -> & _)%Hin. by apply (r_heights _ _ _ _ Hr).
  - intros y (z & Hz & _ & Ee & Es)%Hin. destruct (r_real _ _ _ _ Hr z Hz) as [H1 H2]. split; [by destruct Es as [->| ->]|by rewrite Ee].
  - unfold h'. rewrite dom_insert_L, (r_dom _ _ _ _ Hr). assert (iloc x ∈ iloc <$> pl) by (apply list_elem_of_fmap_2; right; by eapply list_elem_of_lookup_2). set_solver.
Qed.

Lemma rescored_with : xs' = with_item (remove_at c xs) (rescored x sc) c.
Proof.
  pose proof (lookup_lt_Some _ _ _ Hx) as Hl. destruct (remove_lookup c xs x Hx) as (_ & Ed & Et). unfold with_item. rewrite Ed, Et. by apply insert_take_drop.
Qed.
Lemma rescored_tight : tight zsl xs -> tight zsl xs'.
Proof.
  intros [?|(y & [p Hp]%list_elem_of_lookup & E)]; [by left|right]. pose proof (list_lookup_fmap shape xs' p) as H. rewrite shape_same, list_lookup_fmap, Hp in H. cbn in H. destruct (xs' !! p) as [z|] eqn:Ez; [|done]. injection H as _ H. exists z. split; [by eapply list_elem_of_lookup_2|congruence].
Qed.
End Rescore.

(** ** [zslUpdateScore] *)

Lemma count_while_at {A} (test : A -> bool) xs c : (c <= length xs)%nat -> (forall p y, xs !! p = Some y -> test y = (p <? c)%nat) -> count_while test xs = c.
Proof.
  revert c. induction xs as [|x xs IH]; intros c Hc H; [cbn in *; lia|]. pose proof (H 0%nat x eq_refl) as H0. cbn [count_while]. rewrite H0. destruct c as [|c]; [done|]. cbn [Nat.ltb Nat.leb]. f_equal. apply IH; [cbn in Hc; lia|]. intros p y Hy. by rewrite (H (S p) y Hy).
Qed.

Lemma found_lookup xs k x : found_at xs k = Some x -> xs !! cut_before xs k = Some x /\ same k (pair_of x) = true.
Proof. unfold found_at. destruct (xs !! _) as [y|] eqn:E; [|done]. destruct (same k (pair_of y)) eqn:Es; [|done]. by intros [= ->]. Qed.

Section InPlace.
Context (h : heap) (zsl : zskiplist) (xs : list item) (ext : gset loc) (Hr : rep h zsl xs ext).
Context (c : nat) (x : item) (Hx : xs !! c = Some x) (sc : double) (Hnan : isnan sc = false).

Definition fits : bool :=
  match (if (0 <? c)%nat then xs !! (c - 1)%nat else None) with Some y => dlt (iscore y) sc | None => true end && match xs !! S c with Some y => dlt sc (iscore y) | None => true end.

(** Scores do not decrease along the list. *)
Lemma scores_rise p q a b : (p <= q)%nat -> xs !! p = Some a -> xs !! q = Some b -> ~ key_lt (key_of (iscore b)) (key_of (iscore a)).
Proof.
  intros Hle Ha Hb. destruct (decide (p = q)) as [->|Hne]; [rewrite Ha in Hb; injection Hb as ->; unfold key_lt; lia|]. pose proof (xs_pairs _ _ _ _ Hr p q a b ltac:(lia) Ha Hb) as [H|[H _]]; cbn in H; [unfold key_lt in *; lia|rewrite H; unfold key_lt; lia].
Qed.

Lemma fits_sides p y : fits = true -> remove_at c xs !! p = Some y -> if (p <? c)%nat then key_lt (key_of (iscore y)) (key_of sc) else key_lt (key_of sc) (key_of (iscore y)).
Proof.
  intros [Hf1 Hf2]%andb_true_iff Hy. pose proof (lookup_lt_Some _ _ _ Hx) as Hl. assert (length (take c xs) = c) as El by (rewrite length_take; lia). assert (forall q z, xs !! q = Some z -> isnan (iscore z) = false) as Hreal by (intros q z Hz; apply (real_pair _ _ _ _ Hr); by eapply list_elem_of_lookup_2).
  unfold remove_at in Hy. destruct (Nat.ltb_spec p c).
  - rewrite lookup_app_l, lookup_take_lt in Hy by lia. rewrite (proj2 (Nat.ltb_lt 0 c)) in Hf1 by lia. destruct (lookup_lt_is_Some_2 xs (c - 1)%nat ltac:(lia)) as [z Hz]. rewrite Hz in Hf1. apply dlt_key in Hf1; [|by eapply Hreal|done].
    pose proof (scores_rise p (c - 1) y z ltac:(lia) Hy Hz). unfold key_lt in *. lia.
  - rewrite lookup_app_r, lookup_drop, El in Hy by lia. pose proof (lookup_lt_Some _ _ _ Hy). destruct (lookup_lt_is_Some_2 xs (S c) ltac:(lia)) as [z Hz]. rewrite Hz in Hf2. apply dlt_key in Hf2; [|done|by eapply Hreal].
    pose proof (scores_rise (S c) (S c + (p - c)) z y ltac:(lia) Hz Hy). unfold key_lt in *. lia.
Qed.

Lemma remove_sub y : y ∈ remove_at c xs -> y ∈ xs.
Proof. unfold remove_at. rewrite <- (take_drop c xs) at 3. rewrite (drop_S _ _ _ Hx), !elem_of_app, elem_of_cons. tauto. Qed.
Lemma remove_sorted : sorted (remove_at c xs).
Proof.
  pose proof (r_sorted _ _ _ _ Hr) as Hs. unfold sorted, remove_at in *. rewrite <- (take_drop c xs), (drop_S _ _ _ Hx) in Hs. apply StronglySorted_app in Hs as (H12 & H1 & H2). apply StronglySorted_cons in H2 as [_ H2]. apply StronglySorted_app. split_and!; [|done..]. intros a b Ha Hb. apply H12; [done|by right].
Qed.

(** The element stays where it is. *)
Lemma fits_ok : fits = true -> sorted (<[c := rescored x sc]> xs) /\ cut_before (remove_at c xs) (sc, str x) = c.
Proof.
  intros Hf. split.
  - rewrite rescored_with by done. apply sorted_with; [apply remove_sorted|]. intros p y Hy. pose proof (fits_sides p y Hf Hy) as H. destruct (p <? c)%nat; by left.
  - apply count_while_at; [by apply (with_remove xs c x Hx)|]. intros p y Hy. pose proof (fits_sides p y Hf Hy) as H. assert (isnan (iscore y) = false) as Hy1 by (apply (real_pair _ _ _ _ Hr); apply remove_sub; by eapply list_elem_of_lookup_2).
    destruct (p <? c)%nat; [apply plt_spec; [done..|]; by left|]. apply not_true_is_false. rewrite plt_spec by done. unfold pair_lt. cbn. intros [?|[E ?]]; unfold key_lt in *; [lia|rewrite E in H; lia].
Qed.

Lemma fits_test (n : zskiplistNode) : backward n = Some (back (places zsl xs) (S c)) -> (back ← the (backward n); b ← null_or h back (fun s => dlt s sc); next ← forward_at h (iloc x) 0; b' ← null_or h next (fun s => dlt sc s); mret (b && b')) = inr fits.
Proof.
  intros ->. cbn [the mbind result_bind]. assert (null_or h (back (places zsl xs) (S c)) (fun s => dlt s sc) = inr match (if (0 <? c)%nat then xs !! (c - 1)%nat else None) with Some y => dlt (iscore y) sc | None => true end) as ->.
  { pose proof (lookup_lt_Some _ _ _ Hx) as Hl. destruct c as [|c']; [done|]. cbn [back Nat.ltb Nat.leb]. change (places zsl xs !! S c') with (xs !! c'). replace (S c' - 1)%nat with c' by lia. destruct (lookup_lt_is_Some_2 xs c' ltac:(lia)) as [z Hz]. rewrite Hz. cbn [fmap option_fmap option_map null_or]. by destruct (node_ok h zsl xs ext Hr c' z Hz) as (m & -> & _ & <- & _). }
  cbn [mbind result_bind]. rewrite (after_ok h zsl xs ext Hr (S c) x Hx). cbn [mbind result_bind]. unfold fits. destruct (xs !! S c) as [z|] eqn:Hz; [|done]. cbn [fmap option_fmap option_map null_or]. by destruct (node_ok h zsl xs ext Hr (S c) z Hz) as (m & -> & _ & <- & _).
Qed.
End InPlace.

Lemma zslRandomLevel_ok rnd : existsb (fun r => negb (r <? threshold)) rnd = true -> exists lv rnd', zslRandomLevel rnd = inr (lv, rnd').
Proof.
  unfold zslRandomLevel. generalize 1%nat. induction rnd as [|r rnd IH]; intros lv H; [done|]. cbn [existsb random_level] in *. destruct (r <? threshold); [by apply IH|]. by eexists _, _.
Qed.

Section Update.
Context `{!Alloc} (h : heap) (zsl : zskiplist) (xs : list item) (ext : gset loc) (Hr : rep h zsl xs ext) (Ht : tight zsl xs) (Hlen : Z.of_nat (length xs) < 2 ^ 63).
Context (k : double * bytes) (Hk : isnan k.1 = false) (sc : double) (Hsc : isnan sc = false).
Notation c := (cut_before xs k).
Notation rest := (remove_at c xs).

(** Both ways of doing it: in place, or out and in again. *)
Lemma zslUpdateScore_ok x rnd lv rnd1 : found_at xs k = Some x -> (forall y, y ∈ rest -> ~ peq (pair_of y) (sc, str x)) -> zslRandomLevel rnd = inr (lv, rnd1) ->
  exists h' zsl' z rnd', zslUpdateScore h zsl k.1 k.2 sc rnd = inr (h', zsl', iloc z, rnd') /\ rep h' zsl' (with_item rest z (cut_before rest (sc, str x))) ext /\ tight zsl' (with_item rest z (cut_before rest (sc, str x))) /\
    header zsl' = header zsl /\ pair_of z = (sc, str x) /\ rnd' = (if fits xs c sc then rnd else rnd1).
Proof.
  intros Hf Hnew Hlv. destruct (found_lookup _ _ _ Hf) as [Hx _]. unfold zslUpdateScore. destruct (find_ok h zsl xs ext Hr k Hk) as (y & update & -> & Hy & Hu). cbn [mbind result_bind]. rewrite (after_ok h zsl xs ext Hr _ _ Hy). cbn [mbind result_bind]. rewrite (is_node_ok h zsl xs ext Hr), Hf. cbn [mbind result_bind fmap option_fmap option_map].
  destruct (node_ok h zsl xs ext Hr _ x Hx) as (n & Hn & He & Hs & Hb & _). pose proof (fits_test h zsl xs ext Hr _ x Hx sc n Hb) as Hfit. rewrite Hn. cbn [the mbind result_bind]. destruct (the (backward n)) as [|bk]; [done|]. cbn [mbind result_bind] in Hfit |- *.
  destruct (null_or h bk _) as [|b]; [done|]. cbn [mbind result_bind] in Hfit |- *. destruct (forward_at h (iloc x) 0) as [|nx]; [done|]. cbn [mbind result_bind] in Hfit |- *. destruct (null_or h nx _) as [|b']; [done|]. cbn [mbind result_bind] in Hfit |- *. injection Hfit as ->. destruct (fits xs c sc) eqn:Efit.
  - destruct (fits_ok h zsl xs ext Hr _ x Hx sc Hsc Efit) as [Hso Ec]. destruct (rescore_ok h zsl xs ext Hr _ x Hx sc Hsc Hso) as (h' & -> & Hr'). cbn [mbind result_bind mret result_ret]. rewrite Ec. exists h', zsl, (rescored x sc), rnd. rewrite <- (rescored_with xs _ x Hx sc). split_and!; try done. by apply rescored_tight.
  - destruct (delete_at h zsl xs ext Hr _ x update Hlen Hx Hu) as (g & zsl1 & -> & Hg & Ht1 & Eh & (m & Hm & Hme) & _). cbn [mbind result_bind]. rewrite Hm. cbn [the mbind result_bind]. rewrite Hme. cbn [the mbind result_bind].
    destruct (zslInsert_ok g zsl1 rest ({[iloc x]} ∪ ext) sc (str x) rnd lv rnd1 Hg Ht1 Hsc) as (h2 & zsl2 & z & -> & Hr2 & Ht2 & Eh2 & Ez1 & Ez2 & _); [rewrite (remove_length _ _ _ Hx); lia|done..|]. cbn [mbind result_bind]. unfold zslFreeNode.
    assert (iloc x ∈ dom h2) as [m2 Hm2]%elem_of_dom by (rewrite (r_dom _ _ _ _ Hr2); set_solver). rewrite Hm2. cbn [the mbind result_bind mret result_ret]. exists (delete (iloc x) h2), zsl2, z, rnd1. split; [done|]. split; [apply free_ok; [done|by eapply (item_ext h zsl xs ext Hr)]|]. split_and!; [done|congruence| |done].
    unfold pair_of, str. by rewrite Ez1, Ez2.
Qed.
Lemma zslUpdateScore_missing rnd : found_at xs k = None -> zslUpdateScore h zsl k.1 k.2 sc rnd = inl AssertFails.
Proof.
  intros Hf. unfold zslUpdateScore. destruct (find_ok h zsl xs ext Hr k Hk) as (y & update & -> & Hy & Hu). cbn [mbind result_bind]. rewrite (after_ok h zsl xs ext Hr _ _ Hy). cbn [mbind result_bind]. by rewrite (is_node_ok h zsl xs ext Hr), Hf.
Qed.
End Update.
