(* ===== verification/SkiplistRun.v ===== *)
(** * A skip list is a sorted list

    Whatever levels the generator picks, a skip list answers every sequence of calls as a sorted
    list of pairs of a score and an element would. *)

From Stdlib Require Import Floats.SpecFloat.
From stdpp Require Import sorting.
From S2P Require Import Prelude Bytes Skiplist SkiplistRep SkiplistInsert SkiplistDelete SkiplistRange SkiplistLife.

(** ** Calls *)

Definition pair : Type := double * bytes.

(** An insertion comes with the answers of [random]. *)
Inductive op :=
| Insert (k : pair) (rnd : list Z)
| Delete (k : pair)
| UpdateScore (k : pair) (sc : double) (rnd : list Z)
| DeleteRangeByScore (range : zrangespec)
| DeleteRangeByLex (range : zlexrangespec)
| DeleteRangeByRank (first upto : Z)
| FirstInRange (range : zrangespec)
| LastInRange (range : zrangespec)
| FirstInLexRange (range : zlexrangespec)
| LastInLexRange (range : zlexrangespec)
| GetRank (k : pair)
| GetElementByRank (rank : Z).

Inductive reply := Node (p : option pair) | Found (b : bool) | Deleted (es : list bytes) | Rank (r : Z).

(** What the caller reads through a returned pointer. *)
Definition pair_at (h : heap) (x : loc) : result pair := n ← the (h !! x); e ← the (ele n); mret (score n, e).
Definition read (h : heap) (x : option loc) : result (option pair) := match x with None => mret None | Some x => p ← pair_at h x; mret (Some p) end.

Section Calls.
Context `{!Alloc}.

Definition call (h : heap) (zsl : zskiplist) (o : op) : result (heap * zskiplist * reply) :=
  match o with
  | Insert k rnd => '(h, zsl, x, _) ← zslInsert h zsl k.1 k.2 rnd; p ← pair_at h x; mret (h, zsl, Node (Some p))
  | Delete k => '(h, zsl, x) ← zslDelete h zsl k.1 k.2 false; mret (h, zsl, Found (bool_decide (is_Some x)))
  | UpdateScore k sc rnd => '(h, zsl, x, _) ← zslUpdateScore h zsl k.1 k.2 sc rnd; p ← pair_at h x; mret (h, zsl, Node (Some p))
  | DeleteRangeByScore range => '(h, zsl, es) ← zslDeleteRangeByScore h zsl range; mret (h, zsl, Deleted es)
  | DeleteRangeByLex range => '(h, zsl, es) ← zslDeleteRangeByLex h zsl range; mret (h, zsl, Deleted es)
  | DeleteRangeByRank first upto => '(h, zsl, es) ← zslDeleteRangeByRank h zsl first upto; mret (h, zsl, Deleted es)
  | FirstInRange range => x ← zslFirstInRange h zsl range; p ← read h x; mret (h, zsl, Node p)
  | LastInRange range => x ← zslLastInRange h zsl range; p ← read h x; mret (h, zsl, Node p)
  | FirstInLexRange range => x ← zslFirstInLexRange h zsl range; p ← read h x; mret (h, zsl, Node p)
  | LastInLexRange range => x ← zslLastInLexRange h zsl range; p ← read h x; mret (h, zsl, Node p)
  | GetRank k => r ← zslGetRank h zsl k.1 k.2; mret (h, zsl, Rank r)
  | GetElementByRank rank => x ← zslGetElementByRank h zsl rank; p ← read h x; mret (h, zsl, Node p)
  end.

Fixpoint calls (h : heap) (zsl : zskiplist) (ops : list op) : result (heap * zskiplist * list reply) :=
  match ops with
  | [] => mret (h, zsl, [])
  | o :: ops => '(h, zsl, r) ← call h zsl o; '(h, zsl, rs) ← calls h zsl ops; mret (h, zsl, r :: rs)
  end.
Definition session (ops : list op) : result (heap * zskiplist * list reply) := '(h, zsl) ← zslCreate ∅; calls h zsl ops.
End Calls.

(** The elements in order, along the lowest level, and back from the tail. *)
Fixpoint walk (fuel : nat) (next : loc -> result (option loc)) (h : heap) (x : option loc) : result (list pair) :=
  match x with
  | None => mret []
  | Some x => match fuel with O => inl OutOfFuel | S fuel => p ← pair_at h x; y ← next x; ps ← walk fuel next h y; mret (p :: ps) end
  end.
Definition walk_forward (h : heap) (zsl : zskiplist) : result (list pair) := x ← forward_at h (header zsl) 0; walk (size h) (fun x => forward_at h x 0) h x.
Definition walk_backward (h : heap) (zsl : zskiplist) : result (list pair) := walk (size h) (fun x => n ← the (h !! x); the (backward n)) h (tail zsl).

(** ** The sorted list *)

Definition spec_insert (ps : list pair) (k : pair) : list pair := bfilter (fun p => plt p k) ps ++ k :: bfilter (fun p => negb (plt p k)) ps.
Definition spec_delete (ps : list pair) (k : pair) : list pair := bfilter (fun p => negb (same k p)) ps.
Definition present (ps : list pair) (k : pair) : bool := existsb (same k) ps.

Definition spec (ps : list pair) (o : op) : list pair * reply :=
  match o with
  | Insert k _ => (spec_insert ps k, Node (Some k))
  | Delete k => (spec_delete ps k, Found (present ps k))
  | UpdateScore k sc _ => (spec_insert (spec_delete ps k) (sc, k.2), Node (Some (sc, k.2)))
  | DeleteRangeByScore range => (bfilter (fun p => negb (in_scores range p)) ps, Deleted (snd <$> bfilter (in_scores range) ps))
  | DeleteRangeByLex range => (bfilter (fun p => negb (in_strings range p)) ps, Deleted (snd <$> bfilter (in_strings range) ps))
  | DeleteRangeByRank first upto =>
      let c := Z.to_nat (first - 1) in let m := Z.to_nat (upto - first + 1) in (take c ps ++ drop (c + m) ps, Deleted (snd <$> take m (drop c ps)))
  | FirstInRange range => (ps, Node (head (bfilter (in_scores range) ps)))
  | LastInRange range => (ps, Node (last (bfilter (in_scores range) ps)))
  | FirstInLexRange range => (ps, Node (head (bfilter (in_strings range) ps)))
  | LastInLexRange range => (ps, Node (last (bfilter (in_strings range) ps)))
  | GetRank k => (ps, Rank (if present ps k then Z.of_nat (length (bfilter (fun p => ple p k) ps)) else 0))
  | GetElementByRank rank => (ps, Node (ps !! Z.to_nat (rank - 1)))
  end.
Fixpoint spec_calls (ps : list pair) (ops : list op) : list pair * list reply :=
  match ops with [] => (ps, []) | o :: ops => let '(ps, r) := spec ps o in let '(ps, rs) := spec_calls ps ops in (ps, r :: rs) end.

(** What the callers see to: scores are numbers, a pair is inserted once, a score is changed where
    there is one, strings are ranged over in one score, ranks count from 1 and fit their types, and
    [random] answers above the threshold at some time. *)
Definition draws (rnd : list Z) : bool := existsb (fun r => negb (r <? threshold)) rnd.
Definition one_score (ps : list pair) : bool := match ps with [] => true | p :: ps => forallb (fun q => deq p.1 q.1) ps end.
Definition allowed (ps : list pair) (o : op) : bool :=
  match o with
  | Insert k rnd => negb (isnan k.1) && negb (present ps k) && draws rnd
  | Delete k | GetRank k => negb (isnan k.1)
  | UpdateScore k sc rnd => negb (isnan k.1) && negb (isnan sc) && present ps k && negb (present (spec_delete ps k) (sc, k.2)) && draws rnd
  | DeleteRangeByLex _ | FirstInLexRange _ | LastInLexRange _ => one_score ps
  | DeleteRangeByRank first upto => (1 <=? first) && (first <? 2 ^ 32) && (0 <=? upto) && (upto <? 2 ^ 32)
  | GetElementByRank rank => (1 <=? rank) && (rank <? 2 ^ 64)
  | DeleteRangeByScore _ | FirstInRange _ | LastInRange _ => true
  end.
Fixpoint all_allowed (ps : list pair) (ops : list op) : bool := match ops with [] => true | o :: ops => allowed ps o && all_allowed (spec ps o).1 ops end.

(** ** Elements and pairs *)

Lemma bfilter_fmap {A B} (f : B -> bool) (g : A -> B) xs : bfilter f (g <$> xs) = g <$> bfilter (fun x => f (g x)) xs.
Proof. induction xs as [|x xs IH]; [done|]. rewrite fmap_cons, !bfilter_cons, IH. by destruct (f (g x)). Qed.
Lemma existsb_fmap {A B} (f : B -> bool) (g : A -> B) xs : existsb f (g <$> xs) = existsb (fun x => f (g x)) xs.
Proof. induction xs as [|x xs IH]; [done|]. cbn. by rewrite <- IH. Qed.
Lemma bfilter_ext {A} (f g : A -> bool) xs : (forall x, x ∈ xs -> f x = g x) -> bfilter f xs = bfilter g xs.
Proof. induction xs as [|x xs IH]; intros H; [done|]. rewrite !bfilter_cons, (H x), IH; [done|intros y Hy; apply H; by right|by left]. Qed.
Lemma bfilter_all {A} (f : A -> bool) xs : (forall x, x ∈ xs -> f x = true) -> bfilter f xs = xs.
Proof. induction xs as [|x xs IH]; intros H; [done|]. rewrite bfilter_cons, (H x), IH; [done|intros y Hy; apply H; by right|by left]. Qed.
Lemma fmap_with (f : item -> pair) xs z c : f <$> with_item xs z c = take c (f <$> xs) ++ f z :: drop c (f <$> xs).
Proof. unfold with_item. by rewrite fmap_app, fmap_cons, fmap_take, fmap_drop. Qed.

Lemma insert_pairs xs k z c : (forall p y, xs !! p = Some y -> plt (pair_of y) k = (p <? c)%nat) -> pair_of z = k -> pair_of <$> with_item xs z c = spec_insert (pair_of <$> xs) k.
Proof.
  intros H Ez. unfold spec_insert. rewrite !bfilter_fmap. destruct (filter_window (fun y => plt (pair_of y) k) xs 0 c) as [-> ->]; [intros p y Hy; by rewrite (H p y Hy)|]. rewrite fmap_with, Ez, fmap_app, !fmap_take, !fmap_drop, drop_0, !Nat.sub_0_r. done.
Qed.

Section Pairs.
Context (h : heap) (zsl : zskiplist) (xs : list item) (ext : gset loc) (Hr : rep h zsl xs ext).

Lemma pair_at_ok p y : xs !! p = Some y -> pair_at h (iloc y) = inr (pair_of y).
Proof. intros Hy. unfold pair_at. destruct (node_ok h zsl xs ext Hr p y Hy) as (n & -> & He & Hs & _). cbn. rewrite He. cbn. by rewrite Hs. Qed.
Lemma read_pair_ok o : (forall y, o = Some y -> y ∈ xs) -> read h (iloc <$> o) = inr (pair_of <$> o).
Proof. intros Ho. destruct o as [y|]; [|done]. destruct (proj1 (list_elem_of_lookup xs y) (Ho y eq_refl)) as [p Hp]. cbn. by rewrite (pair_at_ok p y Hp). Qed.

Context (k : pair) (Hk : isnan k.1 = false).

(** Only the element at its place is the pair. *)
Lemma same_place_only p y : xs !! p = Some y -> same k (pair_of y) = true -> p = cut_before xs k.
Proof.
  intros Hy Hs. assert (forall q z, xs !! q = Some z -> isnan (pair_of z).1 = false) as Hn by (intros q z Hz; apply (real_pair _ _ _ _ Hr); by eapply list_elem_of_lookup_2). apply same_spec in Hs; [|done|by eapply Hn].
  pose proof (cut_before_spec h zsl xs ext Hr k Hk p y Hy) as Ep. assert (plt (pair_of y) k = false) as E. { apply not_true_is_false. rewrite plt_spec by (done || by eapply Hn). intros Hlt. apply (pair_lt_irrefl k). eapply peq_pair_lt; [|exact Hlt]. by destruct Hs. }
  rewrite E in Ep. symmetry in Ep. apply Nat.ltb_ge in Ep. destruct (decide (p = cut_before xs k)) as [|Hne]; [done|]. pose proof (lookup_lt_Some _ _ _ Hy). destruct (lookup_lt_is_Some_2 xs (cut_before xs k) ltac:(lia)) as [z Hz].
  pose proof (cut_before_spec h zsl xs ext Hr k Hk _ z Hz) as Ez. rewrite Nat.ltb_irrefl in Ez. rewrite (proj2 (plt_spec _ _ (Hn _ _ Hz) Hk)) in Ez; [done|]. eapply pair_lt_peq; [|exact Hs]. eapply (xs_pairs _ _ _ _ Hr _ p); [|done..]. lia.
Qed.
Lemma found_present : present (pair_of <$> xs) k = bool_decide (is_Some (found_at xs k)).
Proof.
  unfold present. rewrite existsb_fmap. apply eq_true_iff_eq. rewrite bool_decide_eq_true, existsb_exists. split.
  - intros (y & [p Hy]%list_elem_of_In%list_elem_of_lookup & Hs). rewrite (same_place_only p y Hy Hs) in Hy. unfold found_at. rewrite Hy, Hs. by eexists.
  - intros [x Hx]. destruct (found_lookup _ _ _ Hx) as [Hp Hs]. exists x. split; [|done]. by eapply list_elem_of_In, list_elem_of_lookup_2.
Qed.
Lemma delete_pairs : spec_delete (pair_of <$> xs) k = pair_of <$> (if found_at xs k then remove_at (cut_before xs k) xs else xs).
Proof.
  unfold spec_delete. rewrite bfilter_fmap. f_equal. destruct (found_at xs k) as [x|] eqn:Ef.
  - destruct (found_lookup _ _ _ Ef) as [Hx Hs]. destruct (filter_window (fun y => same k (pair_of y)) xs (cut_before xs k) (S (cut_before xs k))) as [_ ->]; [|unfold remove_at; f_equal; f_equal; lia]. intros p y Hy. destruct (same k (pair_of y)) eqn:E.
    + rewrite (same_place_only p y Hy E). destruct (Nat.leb_spec (cut_before xs k) (cut_before xs k)), (Nat.ltb_spec (cut_before xs k) (S (cut_before xs k))); try done; lia.
    + destruct (Nat.leb_spec (cut_before xs k) p), (Nat.ltb_spec p (S (cut_before xs k))); try done. assert (p = cut_before xs k) as -> by lia. congruence.
  - apply bfilter_all. intros y Hy. apply negb_true_iff, not_true_is_false. intros Hs. pose proof found_present as E. rewrite Ef in E. unfold present in E. rewrite existsb_fmap in E. rewrite (proj2 (existsb_exists _ xs)) in E; [done|]. exists y. split; [by apply list_elem_of_In|done].
Qed.
End Pairs.

(** ** One call *)

Definition models (h : heap) (zsl : zskiplist) (ps : list pair) : Prop := exists xs, rep h zsl xs ∅ /\ tight zsl xs /\ pair_of <$> xs = ps.

Lemma one_score_spec h zsl xs ext : rep h zsl xs ext -> one_score (pair_of <$> xs) = true -> forall a b, a ∈ xs -> b ∈ xs -> key_of (iscore a) = key_of (iscore b).
Proof.
  intros Hr H. destruct xs as [|x xs]; [by intros a b ?%not_elem_of_nil|]. assert (forall a, a ∈ x :: xs -> key_of (iscore a) = key_of (iscore x)) as Hx; [|intros a b Ha Hb; by rewrite (Hx a Ha), (Hx b Hb)].
  intros a [->|Ha]%elem_of_cons; [done|]. cbn in H. rewrite forallb_forall in H. specialize (H (pair_of a)). symmetry. apply deq_key; [by apply (real_pair _ _ _ _ Hr); left|by apply (real_pair _ _ _ _ Hr); right|]. apply H. apply in_map. by apply list_elem_of_In.
Qed.
Lemma absent_new h zsl xs ext k : rep h zsl xs ext -> isnan k.1 = false -> forall ys, (forall y, y ∈ ys -> y ∈ xs) -> present (pair_of <$> ys) k = false -> forall y, y ∈ ys -> ~ peq (pair_of y) k.
Proof.
  intros Hr Hk ys Hys H y Hy E. unfold present in H. rewrite existsb_fmap in H. rewrite (proj2 (existsb_exists _ ys)) in H; [done|]. exists y. split; [by apply list_elem_of_In|]. apply same_spec; [done| |done]. apply (real_pair _ _ _ _ Hr). by apply Hys.
Qed.
Lemma head_in {A} (l : list A) y : head l = Some y -> y ∈ l.
Proof. rewrite head_lookup. apply list_elem_of_lookup_2. Qed.
Lemma last_in {A} (l : list A) y : last l = Some y -> y ∈ l.
Proof. rewrite last_lookup. apply list_elem_of_lookup_2. Qed.
Lemma bfilter_in {A} (f : A -> bool) xs y : y ∈ bfilter f xs -> y ∈ xs.
Proof. intros H. by apply list_elem_of_filter in H as [_ H]. Qed.
Lemma with_in xs z c : z ∈ with_item xs z c.
Proof. unfold with_item. rewrite elem_of_app, elem_of_cons. auto. Qed.

Section Step.
Context `{!Alloc} (h : heap) (zsl : zskiplist) (ps : list pair) (Hm : models h zsl ps) (Hlen : Z.of_nat (length ps) < 2 ^ 63).

Definition stepped (o : op) : Prop := exists h' zsl', call h zsl o = inr (h', zsl', (spec ps o).2) /\ models h' zsl' (spec ps o).1.

Lemma insert_step k rnd : allowed ps (Insert k rnd) = true -> stepped (Insert k rnd).
Proof.
  unfold stepped. destruct Hm as (xs & Hr & Ht & <-). rewrite length_fmap in Hlen. cbn [allowed]. rewrite !andb_true_iff, !negb_true_iff. intros [[Hk Hp] (lv & rnd' & Hd)%zslRandomLevel_ok]. destruct k as [sc e].
  destruct (zslInsert_ok h zsl xs ∅ sc e rnd lv rnd' Hr Ht Hk Hlen) as (h' & zsl' & x & E & Hr' & Ht' & _ & Es & Ee & _); [by eapply absent_new|done|]. cbn [call fst snd spec]. rewrite E. cbn [mbind result_bind].
  assert (pair_of x = (sc, e)) as Ex by (unfold pair_of, str; by rewrite Es, Ee). destruct (proj1 (list_elem_of_lookup _ _) (with_in xs x (cut_before xs (sc, e)))) as [p Hp']. rewrite (pair_at_ok _ _ _ _ Hr' p x Hp'), Ex. cbn [mbind result_bind mret result_ret].
  exists h', zsl'. split; [done|]. exists (with_item xs x (cut_before xs (sc, e))). split_and!; [done|done|]. apply insert_pairs; [|done]. by apply (cut_before_spec h zsl xs ∅ Hr).
Qed.
Lemma delete_step k : allowed ps (Delete k) = true -> stepped (Delete k).
Proof.
  unfold stepped. destruct Hm as (xs & Hr & Ht & <-). rewrite length_fmap in Hlen. cbn [allowed]. rewrite negb_true_iff. intros Hk. destruct (zslDelete_ok h zsl xs ∅ Hr k false Hk Hlen Ht) as (h' & zsl' & E & _ & Hd). cbn [call fst snd spec]. rewrite E. cbn [mbind result_bind mret result_ret]. exists h', zsl'.
  rewrite (found_present h zsl xs ∅ Hr k Hk), (delete_pairs h zsl xs ∅ Hr k Hk). destruct (found_at xs k) as [x|]; [split; [done|]; destruct Hd as [Hd1 Hd2]; by eexists|]. destruct Hd as [-> ->]. split; [done|]. by exists xs.
Qed.
Lemma update_step k sc rnd : allowed ps (UpdateScore k sc rnd) = true -> stepped (UpdateScore k sc rnd).
Proof.
  unfold stepped. destruct Hm as (xs & Hr & Ht & <-). rewrite length_fmap in Hlen. cbn [allowed]. rewrite !andb_true_iff, !negb_true_iff. intros [[[[Hk Hsc] Hp] Hq] (lv & rnd1 & Hd)%zslRandomLevel_ok]. rewrite (found_present h zsl xs ∅ Hr k Hk) in Hp. apply bool_decide_eq_true in Hp as [x Hf].
  pose proof (delete_pairs h zsl xs ∅ Hr k Hk) as Ed. rewrite Hf in Ed. destruct (found_lookup _ _ _ Hf) as [Hx Hs]. assert (str x = k.2) as Estr. { destruct (proj1 (same_spec k (pair_of x) Hk ltac:(apply (real_pair _ _ _ _ Hr); by eapply list_elem_of_lookup_2)) Hs) as [_ E]. done. }
  assert (forall y, y ∈ remove_at (cut_before xs k) xs -> y ∈ xs) as Hsub by (intros y; by apply (remove_sub xs _ x Hx)).
  destruct (zslUpdateScore_ok h zsl xs ∅ Hr Ht Hlen k Hk sc Hsc x rnd lv rnd1 Hf) as (h' & zsl' & z & rnd' & E & Hr' & Ht' & _ & Ez & _); [rewrite Estr; rewrite Ed in Hq; by apply (absent_new h zsl xs ∅ (sc, k.2) Hr Hsc _ Hsub)|done|].
  rewrite Estr in *. cbn [call fst snd spec]. rewrite E. cbn [mbind result_bind]. destruct (proj1 (list_elem_of_lookup _ _) (with_in (remove_at (cut_before xs k) xs) z (cut_before (remove_at (cut_before xs k) xs) (sc, k.2)))) as [p Hp']. rewrite (pair_at_ok _ _ _ _ Hr' p z Hp'), Ez. cbn [mbind result_bind mret result_ret].
  exists h', zsl'. split; [done|]. eexists. split; [exact Hr'|]. split; [done|]. rewrite Ed. apply insert_pairs; [|done]. apply cut_spec; [by apply (remove_sorted h zsl xs ∅ Hr _ x Hx)| |done]. intros y Hy. apply (real_pair _ _ _ _ Hr). by apply Hsub.
Qed.

(** A call that returns a pointer and changes nothing. *)
Lemma lookup_step o (x : result (option loc)) xs y : rep h zsl xs ∅ -> tight zsl xs -> pair_of <$> xs = ps -> call h zsl o = (x ← x; p ← read h x; mret (h, zsl, Node p)) -> x = inr (iloc <$> y) -> (forall z, y = Some z -> z ∈ xs) -> spec ps o = (ps, Node (pair_of <$> y)) -> stepped o.
Proof.
  intros Hr Ht Ep E -> Hy Es. unfold stepped. rewrite E, Es. cbn [mbind result_bind]. rewrite (read_pair_ok h zsl xs ∅ Hr y Hy). cbn [mbind result_bind mret result_ret fst snd]. exists h, zsl. split; [done|]. by exists xs.
Qed.
Lemma range_step o range : o = FirstInRange range \/ o = LastInRange range -> stepped o.
Proof.
  intros Ho. destruct Hm as (xs & Hr & Ht & Ep). destruct Ho as [-> | ->]; (eapply (lookup_step _ _ xs _ Hr Ht Ep); [done|by apply (zslFirstInRange_ok h zsl xs ∅ Hr) || by apply (zslLastInRange_ok h zsl xs ∅ Hr)| |]).
  - intros z Hz%head_in. by apply bfilter_in in Hz.
  - cbn [spec]. rewrite <- Ep, bfilter_fmap. by rewrite !head_lookup, list_lookup_fmap.
  - intros z Hz%last_in. by apply bfilter_in in Hz.
  - cbn [spec]. rewrite <- Ep, bfilter_fmap. by rewrite fmap_last.
Qed.
Lemma lex_range_step o range : one_score ps = true -> o = FirstInLexRange range \/ o = LastInLexRange range -> stepped o.
Proof.
  intros H1 Ho. destruct Hm as (xs & Hr & Ht & Ep). rewrite <- Ep in H1. pose proof (one_score_spec h zsl xs ∅ Hr H1) as Hone. destruct Ho as [-> | ->]; (eapply (lookup_step _ _ xs _ Hr Ht Ep); [done|by apply (zslFirstInLexRange_ok h zsl xs ∅ Hr) || by apply (zslLastInLexRange_ok h zsl xs ∅ Hr)| |]).
  - intros z Hz%head_in. by apply bfilter_in in Hz.
  - cbn [spec]. rewrite <- Ep, bfilter_fmap. by rewrite !head_lookup, list_lookup_fmap.
  - intros z Hz%last_in. by apply bfilter_in in Hz.
  - cbn [spec]. rewrite <- Ep, bfilter_fmap. by rewrite fmap_last.
Qed.
Lemma by_rank_step rank : 1 <= rank -> stepped (GetElementByRank rank).
Proof.
  intros Hrank. destruct Hm as (xs & Hr & Ht & Ep). rewrite <- Ep, length_fmap in Hlen. apply (lookup_step _ (zslGetElementByRank h zsl rank) xs (xs !! Z.to_nat (rank - 1)) Hr Ht Ep); [done| | |].
  - rewrite (zslGetElementByRank_ok h zsl xs ∅ Hr Hlen rank ltac:(lia)). by replace (Z.to_nat rank) with (S (Z.to_nat (rank - 1))) by lia.
  - intros z. apply list_elem_of_lookup_2.
  - cbn [spec]. by rewrite <- Ep, list_lookup_fmap.
Qed.
Lemma rank_step k : isnan k.1 = false -> stepped (GetRank k).
Proof.
  intros Hk. unfold stepped. destruct Hm as (xs & Hr & Ht & <-). rewrite length_fmap in Hlen. cbn [call spec fst snd]. rewrite (zslGetRank_ok h zsl xs ∅ Hr Hlen k Hk). cbn [mbind result_bind mret result_ret]. exists h, zsl. split; [|by exists xs]. do 2 f_equal. unfold rank_of, present. rewrite existsb_fmap, bfilter_fmap, length_fmap. f_equal.
  destruct (existsb _ xs); [|done]. f_equal. set (c := count_while _ xs). destruct (filter_window (fun y => ple (pair_of y) k) xs 0 c) as [-> _]; [intros p y Hy; by rewrite (falling_spec h zsl xs ∅ Hr _ p y (ple_falling h zsl xs ∅ Hr k Hk) Hy)|]. rewrite drop_0, Nat.sub_0_r, length_take. pose proof (count_while_le (fun y => ple (pair_of y) k) xs). unfold c. lia.
Qed.
Lemma delete_range_step o : allowed ps o = true -> match o with DeleteRangeByScore _ | DeleteRangeByLex _ | DeleteRangeByRank _ _ => True | _ => False end -> stepped o.
Proof.
  intros Ha Ho. unfold stepped. destruct Hm as (xs & Hr & Ht & <-). rewrite length_fmap in Hlen. destruct o as [| | |range|range|first upto| | | | | |]; try done; cbn [call spec fst snd allowed] in *.
  - destruct (zslDeleteRangeByScore_ok h zsl xs ∅ Hr range Ht Hlen) as (h' & zsl' & -> & Hr' & Ht' & _). cbn [mbind result_bind mret result_ret]. exists h', zsl'. rewrite !bfilter_fmap, <- list_fmap_compose. split; [done|]. by eexists.
  - destruct (zslDeleteRangeByLex_ok h zsl xs ∅ Hr range (one_score_spec h zsl xs ∅ Hr Ha) Ht Hlen) as (h' & zsl' & -> & Hr' & Ht' & _). cbn [mbind result_bind mret result_ret]. exists h', zsl'. rewrite !bfilter_fmap, <- list_fmap_compose. split; [done|]. by eexists.
  - rewrite !andb_true_iff, Z.leb_le in Ha. destruct Ha as [[[Ha _] _] _]. destruct (zslDeleteRangeByRank_ok h zsl xs ∅ Hr Hlen first upto Ht Ha) as (h' & zsl' & -> & Hr' & Ht' & _). cbn [mbind result_bind mret result_ret]. exists h', zsl'. rewrite <- !fmap_drop, <- !fmap_take, <- fmap_app, <- list_fmap_compose. split; [done|]. by eexists.
Qed.

Lemma call_ok o : allowed ps o = true -> stepped o.
Proof.
  intros Ha. destruct o; try (by apply delete_range_step); cbn [allowed] in Ha;
    [by apply insert_step|by apply delete_step|by apply update_step|eapply range_step; by left|eapply range_step; by right|eapply lex_range_step; [done|by left]|eapply lex_range_step; [done|by right]|apply rank_step; by apply negb_true_iff|apply by_rank_step; apply andb_true_iff in Ha as [Ha _]; by apply Z.leb_le].
Qed.
End Step.

Lemma bfilter_length {A} (f : A -> bool) xs : (length (bfilter f xs) <= length xs)%nat.
Proof. apply length_filter. Qed.
Lemma spec_insert_length ps k : length (spec_insert ps k) = S (length ps).
Proof. unfold spec_insert. induction ps as [|p ps IH]; [done|]. rewrite !bfilter_cons. rewrite !length_app in *. destruct (plt p k); cbn in *; lia. Qed.
(** A call adds one element at most. *)
Lemma spec_length ps o : (length (spec ps o).1 <= S (length ps))%nat.
Proof.
  destruct o; cbn [spec fst]; try lia; rewrite ?spec_insert_length; try (by etransitivity; [apply bfilter_length|lia]); [lia|apply le_n_S; apply bfilter_length|]. rewrite length_app, length_take, length_drop. lia.
Qed.

Lemma calls_ok `{!Alloc} ops h zsl ps : models h zsl ps -> Z.of_nat (length ps) + Z.of_nat (length ops) < 2 ^ 63 -> all_allowed ps ops = true ->
  exists h' zsl', calls h zsl ops = inr (h', zsl', (spec_calls ps ops).2) /\ models h' zsl' (spec_calls ps ops).1.
Proof.
  revert h zsl ps. induction ops as [|o ops IH]; intros h zsl ps Hm Hl Ha; [by exists h, zsl|]. cbn [all_allowed calls spec_calls length] in *. apply andb_true_iff in Ha as [Ha Hrest]. destruct (call_ok h zsl ps Hm ltac:(lia) o Ha) as (h1 & zsl1 & -> & Hm1). cbn [mbind result_bind].
  pose proof (spec_length ps o). destruct (IH h1 zsl1 (spec ps o).1 Hm1 ltac:(lia) Hrest) as (h2 & zsl2 & -> & Hm2). cbn [mbind result_bind mret result_ret]. exists h2, zsl2. destruct (spec ps o) as [ps1 r]. cbn [fst snd] in *. by destruct (spec_calls ps1 ops).
Qed.
Lemma skiplist_session_ok `{!Alloc} ops : Z.of_nat (length ops) < 2 ^ 63 -> all_allowed [] ops = true -> exists h zsl, session ops = inr (h, zsl, (spec_calls [] ops).2) /\ models h zsl (spec_calls [] ops).1.
Proof.
  intros Hl Ha. unfold session. destruct (zslCreate_ok ∅) as (h0 & zsl0 & -> & Hr & Ht). cbn [mbind result_bind]. apply calls_ok; [|done|done]. exists []. split_and!; [|done|done]. by rewrite dom_empty_L in Hr.
Qed.

(** ** Walks *)

Section Walks.
Context (h : heap) (zsl : zskiplist) (xs : list item) (ext : gset loc) (Hr : rep h zsl xs ext).

Lemma walk_forward_ok : walk_forward h zsl = inr (pair_of <$> xs).
Proof.
  assert (forall n c fuel, n = (length xs - c)%nat -> (n <= fuel)%nat -> walk fuel (fun x => forward_at h x 0) h (iloc <$> xs !! c) = inr (pair_of <$> drop c xs)) as H.
  { induction n as [|n IH]; intros c fuel En Hf; [rewrite lookup_ge_None_2, drop_ge by lia; by destruct fuel|]. destruct (lookup_lt_is_Some_2 xs c ltac:(lia)) as [y Hy]. rewrite Hy, (drop_S _ _ _ Hy). destruct fuel as [|fuel]; [lia|]. cbn [fmap option_fmap option_map walk].
    rewrite (pair_at_ok h zsl xs ext Hr c y Hy). cbn [mbind result_bind]. rewrite (after_ok h zsl xs ext Hr (S c) y Hy). cbn [mbind result_bind]. rewrite IH by lia. done. }
  unfold walk_forward. change (header zsl) with (iloc (hitem (header zsl))). rewrite (after_ok h zsl xs ext Hr 0 _ eq_refl). cbn [mbind result_bind]. rewrite (H (length xs)); [by rewrite drop_0|lia|]. pose proof (place_fuel _ _ _ _ Hr) as Hs. cbn [places length] in Hs. lia.
Qed.
Lemma walk_backward_ok : walk_backward h zsl = inr (rev (pair_of <$> xs)).
Proof.
  assert (forall c fuel, (c <= length xs)%nat -> (c <= fuel)%nat -> walk fuel (fun x => n ← the (h !! x); the (backward n)) h (back (places zsl xs) (S c)) = inr (rev (pair_of <$> take c xs))) as H.
  { induction c as [|c IH]; intros fuel Hc Hf; [by destruct fuel|]. cbn [back]. change (places zsl xs !! S c) with (xs !! c). destruct (lookup_lt_is_Some_2 xs c ltac:(lia)) as [y Hy]. rewrite Hy. destruct fuel as [|fuel]; [lia|]. cbn [fmap option_fmap option_map walk].
    rewrite (pair_at_ok h zsl xs ext Hr c y Hy). cbn [mbind result_bind]. destruct (node_ok h zsl xs ext Hr c y Hy) as (n & -> & _ & _ & Hb & _). cbn [the mbind result_bind]. rewrite Hb. cbn [the mbind result_bind]. rewrite IH by lia. cbn [mbind result_bind mret result_ret]. by rewrite (take_S_r _ _ _ Hy), fmap_app, rev_app_distr. }
  unfold walk_backward. rewrite (r_tail _ _ _ _ Hr), last_lookup. pose proof (place_fuel _ _ _ _ Hr) as Hs. cbn [places length] in Hs. specialize (H (length xs) (size h) ltac:(lia) ltac:(lia)). rewrite take_ge in H by lia. rewrite <- H. f_equal. by destruct xs as [|y ys].
Qed.
Lemma pairs_sorted : StronglySorted pair_lt (pair_of <$> xs).
Proof. pose proof (r_sorted _ _ _ _ Hr) as H. unfold sorted in H. clear Hr. induction H as [|x ys Hs IH Hall]; [constructor|]. cbn. constructor; [done|]. by apply Forall_fmap. Qed.
End Walks.

(** ** The theorems *)

(** C13: A skip list made with [zslCreate] answers every sequence of calls that its callers may make
    as the sorted list of pairs does, whatever [random] answers and wherever nodes are allocated:
    [zslInsert] puts the pair in its place, [zslDelete] and the deletions by score, by string and by
    rank remove the right pairs and name them in order, [zslUpdateScore] moves the pair, and the
    ranges and the ranks found are those of the list.  No assertion fails, nothing undefined is done,
    no loop runs on, and the lowest level holds the pairs of the list in order. *)
Theorem skiplist_refines_sorted_list `{!Alloc} ops : Z.of_nat (length ops) < 2 ^ 63 -> all_allowed [] ops = true ->
  exists h zsl, session ops = inr (h, zsl, (spec_calls [] ops).2) /\ walk_forward h zsl = inr (spec_calls [] ops).1.
Proof.
  intros Hl Ha. destruct (skiplist_session_ok ops Hl Ha) as (h & zsl & E & xs & Hr & _ & <-). exists h, zsl. split; [done|]. by eapply walk_forward_ok.
Qed.

(** C20: After any such sequence of calls the list is sorted by score and then by element without
    repetition, the backward pointers from the tail give it in reverse, [length] counts it, nothing
    but the header and the nodes of the list is allocated, and [zslFree] frees all of it. *)
Theorem skiplist_structure `{!Alloc} ops : Z.of_nat (length ops) < 2 ^ 63 -> all_allowed [] ops = true ->
  exists h zsl rs ps, session ops = inr (h, zsl, rs) /\ walk_forward h zsl = inr ps /\ walk_backward h zsl = inr (rev ps) /\ StronglySorted pair_lt ps /\
    zlength zsl = Z.of_nat (length ps) /\ size h = S (length ps) /\ zslFree h zsl = inr ∅.
Proof.
  intros Hl Ha. destruct (skiplist_session_ok ops Hl Ha) as (h & zsl & E & xs & Hr & _ & _). exists h, zsl, (spec_calls [] ops).2, (pair_of <$> xs). split; [done|]. split; [by eapply walk_forward_ok|]. split; [by eapply walk_backward_ok|]. split; [by eapply pairs_sorted|]. rewrite length_fmap. split; [apply (r_len _ _ _ _ Hr)|]. split.
  - rewrite <- size_dom, (r_dom _ _ _ _ Hr), (right_id_L ∅ (∪)), size_list_to_set by apply (r_locs _ _ _ _ Hr). by rewrite length_fmap.
  - destruct (zslFree_ok h zsl xs ∅ Hr) as (h' & -> & Hd). f_equal. by apply dom_empty_inv_L.
Qed.

#[local] Instance first_free : Alloc := {| new_loc X := fresh X; new_loc_fresh := is_fresh |}.
Definition num (n : positive) : double := S754_finite false n 0.
(** Levels 1, 3, 2 and 1. *)
Definition demo_calls : list op :=
  [Insert (num 2, [98]) [threshold]; Insert (num 1, [97]) [0; 0; threshold]; Insert (num 2, [97]) [5; threshold]; Insert (S754_infinity false, []) [threshold; 0];
   GetRank (num 2, [98]); GetElementByRank 2; UpdateScore (num 2, [98]) (num 9) [threshold]; UpdateScore (num 1, [97]) (num 4) [0; threshold];
   FirstInRange (mk_range (num 2) (num 9) true false); LastInRange (mk_range (num 2) (num 9) true true);
   DeleteRangeByScore (mk_range (num 9) (num 9) false false); Delete (num 7, []); DeleteRangeByRank 3 5; Delete (num 4, [97]);
   FirstInLexRange (mk_lexrange MinString MaxString false false); LastInLexRange (mk_lexrange (Str [97]) (Str [98]) true false); DeleteRangeByLex (mk_lexrange (Str [97]) MaxString false false)].

Lemma skiplist_refines_sorted_list_witness :
  (spec_calls [] demo_calls).2 = [Node (Some (num 2, [98])); Node (Some (num 1, [97])); Node (Some (num 2, [97])); Node (Some (S754_infinity false, [])); Rank 3; Node (Some (num 2, [97])); Node (Some (num 9, [98])); Node (Some (num 4, [97]));
    Node (Some (num 4, [97])); Node (Some (num 4, [97])); Deleted [[98]]; Found false; Deleted [[]]; Found true; Node (Some (num 2, [97])); Node None; Deleted [[97]]] /\
  exists h zsl, session demo_calls = inr (h, zsl, (spec_calls [] demo_calls).2) /\ walk_forward h zsl = inr (spec_calls [] demo_calls).1.
Proof. split; [vm_compute; reflexivity|]. apply (skiplist_refines_sorted_list demo_calls); vm_compute; reflexivity. Defined.

Lemma skiplist_structure_witness :
  exists h zsl rs ps, session (take 8 demo_calls) = inr (h, zsl, rs) /\ walk_forward h zsl = inr ps /\ walk_backward h zsl = inr (rev ps) /\ StronglySorted pair_lt ps /\
    zlength zsl = Z.of_nat (length ps) /\ size h = S (length ps) /\ zslFree h zsl = inr ∅.
Proof. apply (skiplist_structure (take 8 demo_calls)); vm_compute; reflexivity. Defined.
