(* ===== verification/Crc.v ===== *)
(** * Checksums

    The CRC-64 of crc64.c with the eightfold table of crcspeed.c, for both byte orders, and the
    CRC-16 of crc16.c with the hash slots of cluster.c. *)

From S2P Require Import Prelude Bytes.

(** ** crc64.c *)

Definition POLY : Z := 0xad93d23594c935a9.

Fixpoint reflect_loop (n : nat) (data ret : Z) : Z :=
  match n with
  | O => ret
  | S n => let data := Z.shiftr data 1 in reflect_loop n data (Z.lor (u64 (Z.shiftl ret 1)) (Z.land data 0x01))
  end.
Definition crc_reflect (data : Z) (data_len : nat) : Z := reflect_loop (data_len - 1) data (Z.land data 0x01).

(** The turns of [for (i = 0x01; i & 0xff; i <<= 1)]; [i] has 8 bits. *)
Definition masks : list Z := [0x01; 0x02; 0x04; 0x08; 0x10; 0x20; 0x40; 0x80].
Definition bit_turn (c : Z) (crc i : Z) : Z :=
  let bit := Z.land crc 0x8000000000000000 in
  let bit := if Z.land c i =? 0 then bit else if bit =? 0 then 1 else 0 in
  let crc := u64 (Z.shiftl crc 1) in
  if bit =? 0 then crc else Z.lxor crc POLY.
Definition byte_turn (crc c : Z) : Z := Z.land (fold_left (bit_turn c) masks crc) 0xffffffffffffffff.
Definition _crc64 (crc : Z) (data : bytes) : Z :=
  let crc := fold_left byte_turn data crc in
  let crc := Z.land crc 0xffffffffffffffff in
  Z.lxor (crc_reflect crc 64) 0.

(** ** crcspeed.c *)

(** The table by its columns: [table[k][n]] is entry [k] of column [n]. *)
Abbreviation crctable := (list (list Z)).
Definition slot (table : crctable) (k : nat) (n : Z) : result Z := column ← the (table !! Z.to_nat n); the (column !! k).

(** [for (k = 1; k < 8; k++)] *)
Fixpoint nested (row0 : list Z) (k : nat) (crc : Z) : result (list Z) :=
  match k with
  | O => mret []
  | S k =>
      t ← the (row0 !! Z.to_nat (Z.land crc 0xff));
      let crc := Z.lxor t (Z.shiftr crc 8) in
      rest ← nested row0 k crc; mret (crc :: rest)
  end.
Definition column_of (row0 : list Z) (table : crctable) (n : Z) : result crctable :=
  crc ← the (row0 !! Z.to_nat n); rest ← nested row0 7 crc; mret (table ++ [crc :: rest]).
Definition crcspeed64little_init (crcfn : Z -> bytes -> Z) : result crctable :=
  let row0 := (fun n => crcfn 0 [u8 n]) <$> seqZ 0 256 in
  for_each (column_of row0) [] (seqZ 0 256).

(** [__builtin_bswap64] *)
Definition rev8 (a : Z) : Z := le_val (rev (le_bytes 8 a)).
Definition crcspeed64big_init (fn : Z -> bytes -> Z) : result crctable :=
  table ← crcspeed64little_init fn; mret (map (map rev8) table).

Section Little.
Context (table : crctable).
Definition little_byte (crc b : Z) : result Z := t ← slot table 0 (Z.land (Z.lxor crc b) 0xff); mret (Z.lxor t (Z.shiftr crc 8)).
(** [while (len && ((uintptr_t)next & 7) != 0)] *)
Fixpoint little_align (crc next : Z) (buf : bytes) : result (Z * bytes) :=
  match buf with
  | [] => mret (crc, [])
  | b :: rest => if Z.land next 7 =? 0 then mret (crc, buf) else crc ← little_byte crc b; little_align crc (u64 (next + 1)) rest
  end.
Definition little_word (crc w : Z) : result Z :=
  let crc := Z.lxor crc w in
  t7 ← slot table 7 (Z.land crc 0xff);
  t6 ← slot table 6 (Z.land (Z.shiftr crc 8) 0xff);
  t5 ← slot table 5 (Z.land (Z.shiftr crc 16) 0xff);
  t4 ← slot table 4 (Z.land (Z.shiftr crc 24) 0xff);
  t3 ← slot table 3 (Z.land (Z.shiftr crc 32) 0xff);
  t2 ← slot table 2 (Z.land (Z.shiftr crc 40) 0xff);
  t1 ← slot table 1 (Z.land (Z.shiftr crc 48) 0xff);
  t0 ← slot table 0 (Z.shiftr crc 56);
  mret (Z.lxor (Z.lxor (Z.lxor (Z.lxor (Z.lxor (Z.lxor (Z.lxor t7 t6) t5) t4) t3) t2) t1) t0).
(** [while (len >= 8)] *)
Fixpoint little_words (crc : Z) (buf : bytes) : result (Z * bytes) :=
  match buf with
  | b0 :: b1 :: b2 :: b3 :: b4 :: b5 :: b6 :: b7 :: rest => crc ← little_word crc (le_val [b0; b1; b2; b3; b4; b5; b6; b7]); little_words crc rest
  | _ => mret (crc, buf)
  end.
Definition crcspeed64little (crc next : Z) (buf : bytes) : result Z :=
  '(crc, buf) ← little_align crc next buf;
  '(crc, buf) ← little_words crc buf;
  for_each little_byte crc buf.
End Little.

Section Big.
Context (table : crctable).
Definition big_byte (crc b : Z) : result Z := t ← slot table 0 (Z.lxor (Z.shiftr crc 56) b); mret (Z.lxor t (u64 (Z.shiftl crc 8))).
Fixpoint big_align (crc next : Z) (buf : bytes) : result (Z * bytes) :=
  match buf with
  | [] => mret (crc, [])
  | b :: rest => if Z.land next 7 =? 0 then mret (crc, buf) else crc ← big_byte crc b; big_align crc (u64 (next + 1)) rest
  end.
Definition big_word (crc w : Z) : result Z :=
  let crc := Z.lxor crc w in
  t0 ← slot table 0 (Z.land crc 0xff);
  t1 ← slot table 1 (Z.land (Z.shiftr crc 8) 0xff);
  t2 ← slot table 2 (Z.land (Z.shiftr crc 16) 0xff);
  t3 ← slot table 3 (Z.land (Z.shiftr crc 24) 0xff);
  t4 ← slot table 4 (Z.land (Z.shiftr crc 32) 0xff);
  t5 ← slot table 5 (Z.land (Z.shiftr crc 40) 0xff);
  t6 ← slot table 6 (Z.land (Z.shiftr crc 48) 0xff);
  t7 ← slot table 7 (Z.shiftr crc 56);
  mret (Z.lxor (Z.lxor (Z.lxor (Z.lxor (Z.lxor (Z.lxor (Z.lxor t0 t1) t2) t3) t4) t5) t6) t7).
(** The words are loaded in the byte order of the machine. *)
Fixpoint big_words (crc : Z) (buf : bytes) : result (Z * bytes) :=
  match buf with
  | b0 :: b1 :: b2 :: b3 :: b4 :: b5 :: b6 :: b7 :: rest => crc ← big_word crc (le_val [b7; b6; b5; b4; b3; b2; b1; b0]); big_words crc rest
  | _ => mret (crc, buf)
  end.
Definition crcspeed64big (crc next : Z) (buf : bytes) : result Z :=
  let crc := rev8 crc in
  '(crc, buf) ← big_align crc next buf;
  '(crc, buf) ← big_words crc buf;
  crc ← for_each big_byte crc buf;
  mret (rev8 crc).
End Big.

(** [little]: the first byte of the integer 1 is not 0. *)
Definition crcspeed64native (little : bool) (table : crctable) (crc next : Z) (buf : bytes) : result Z :=
  if little then crcspeed64little table crc next buf else crcspeed64big table crc next buf.
Definition crcspeed64native_init (little : bool) (fn : Z -> bytes -> Z) : result crctable :=
  if little then crcspeed64little_init fn else crcspeed64big_init fn.

Definition crc64_init (little : bool) : result crctable := crcspeed64native_init little _crc64.
(** The table is the one [crc64_init] left; the string [s] is at the address [next]. *)
Definition crc64 (little : bool) (crc64_table : crctable) (crc next : Z) (s : bytes) : result Z := crcspeed64native little crc64_table crc next s.

(** ** crc16.c *)

Definition crc16tab : list Z :=
  [0x0000; 0x1021; 0x2042; 0x3063; 0x4084; 0x50a5; 0x60c6; 0x70e7; 0x8108; 0x9129; 0xa14a; 0xb16b; 0xc18c; 0xd1ad; 0xe1ce; 0xf1ef;
   0x1231; 0x0210; 0x3273; 0x2252; 0x52b5; 0x4294; 0x72f7; 0x62d6; 0x9339; 0x8318; 0xb37b; 0xa35a; 0xd3bd; 0xc39c; 0xf3ff; 0xe3de;
   0x2462; 0x3443; 0x0420; 0x1401; 0x64e6; 0x74c7; 0x44a4; 0x5485; 0xa56a; 0xb54b; 0x8528; 0x9509; 0xe5ee; 0xf5cf; 0xc5ac; 0xd58d;
   0x3653; 0x2672; 0x1611; 0x0630; 0x76d7; 0x66f6; 0x5695; 0x46b4; 0xb75b; 0xa77a; 0x9719; 0x8738; 0xf7df; 0xe7fe; 0xd79d; 0xc7bc;
   0x48c4; 0x58e5; 0x6886; 0x78a7; 0x0840; 0x1861; 0x2802; 0x3823; 0xc9cc; 0xd9ed; 0xe98e; 0xf9af; 0x8948; 0x9969; 0xa90a; 0xb92b;
   0x5af5; 0x4ad4; 0x7ab7; 0x6a96; 0x1a71; 0x0a50; 0x3a33; 0x2a12; 0xdbfd; 0xcbdc; 0xfbbf; 0xeb9e; 0x9b79; 0x8b58; 0xbb3b; 0xab1a;
   0x6ca6; 0x7c87; 0x4ce4; 0x5cc5; 0x2c22; 0x3c03; 0x0c60; 0x1c41; 0xedae; 0xfd8f; 0xcdec; 0xddcd; 0xad2a; 0xbd0b; 0x8d68; 0x9d49;
   0x7e97; 0x6eb6; 0x5ed5; 0x4ef4; 0x3e13; 0x2e32; 0x1e51; 0x0e70; 0xff9f; 0xefbe; 0xdfdd; 0xcffc; 0xbf1b; 0xaf3a; 0x9f59; 0x8f78;
   0x9188; 0x81a9; 0xb1ca; 0xa1eb; 0xd10c; 0xc12d; 0xf14e; 0xe16f; 0x1080; 0x00a1; 0x30c2; 0x20e3; 0x5004; 0x4025; 0x7046; 0x6067;
   0x83b9; 0x9398; 0xa3fb; 0xb3da; 0xc33d; 0xd31c; 0xe37f; 0xf35e; 0x02b1; 0x1290; 0x22f3; 0x32d2; 0x4235; 0x5214; 0x6277; 0x7256;
   0xb5ea; 0xa5cb; 0x95a8; 0x8589; 0xf56e; 0xe54f; 0xd52c; 0xc50d; 0x34e2; 0x24c3; 0x14a0; 0x0481; 0x7466; 0x6447; 0x5424; 0x4405;
   0xa7db; 0xb7fa; 0x8799; 0x97b8; 0xe75f; 0xf77e; 0xc71d; 0xd73c; 0x26d3; 0x36f2; 0x0691; 0x16b0; 0x6657; 0x7676; 0x4615; 0x5634;
   0xd94c; 0xc96d; 0xf90e; 0xe92f; 0x99c8; 0x89e9; 0xb98a; 0xa9ab; 0x5844; 0x4865; 0x7806; 0x6827; 0x18c0; 0x08e1; 0x3882; 0x28a3;
   0xcb7d; 0xdb5c; 0xeb3f; 0xfb1e; 0x8bf9; 0x9bd8; 0xabbb; 0xbb9a; 0x4a75; 0x5a54; 0x6a37; 0x7a16; 0x0af1; 0x1ad0; 0x2ab3; 0x3a92;
   0xfd2e; 0xed0f; 0xdd6c; 0xcd4d; 0xbdaa; 0xad8b; 0x9de8; 0x8dc9; 0x7c26; 0x6c07; 0x5c64; 0x4c45; 0x3ca2; 0x2c83; 0x1ce0; 0x0cc1;
   0xef1f; 0xff3e; 0xcf5d; 0xdf7c; 0xaf9b; 0xbfba; 0x8fd9; 0x9ff8; 0x6e17; 0x7e36; 0x4e55; 0x5e74; 0x2e93; 0x3eb2; 0x0ed1; 0x1ef0].
(** [*buf] is a [char], which is signed. *)
Definition crc16_byte (crc b : Z) : result Z :=
  t ← the (crc16tab !! Z.to_nat (Z.land (Z.lxor (Z.shiftr crc 8) (wrap_s 8 b)) 0x00ff)); mret (u16 (Z.lxor (Z.shiftl crc 8) t)).
Definition crc16 (buf : bytes) : result Z := for_each crc16_byte 0 buf.

(** ** cluster.c *)

(** [for (i = from; i < keylen; i++) if (key[i] == ch) break;] *)
Fixpoint find_char (ch : Z) (i : nat) (rest : bytes) : nat :=
  match rest with [] => i | b :: rest => if b =? ch then i else find_char ch (S i) rest end.
Definition keyHashSlot (key : bytes) : result Z :=
  let keylen := length key in
  let s := find_char 123 0 key in
  if (s =? keylen)%nat then c ← crc16 key; mret (Z.land c 0x3fff) else
  let e := find_char 125 (s + 1) (drop (s + 1) key) in
  if (e =? keylen)%nat || (e =? s + 1)%nat then c ← crc16 key; mret (Z.land c 0x3fff) else
  c ← crc16 (take (e - s - 1) (drop (s + 1) key)); mret (Z.land c 0x3fff).
