(* ===== verification/CrcFacts.v ===== *)
(** * The checksums are what they should be

    Division by the polynomial, one bit at a time from the low end, is a linear map [P] on words.
    A byte is eight of its steps and a table look-up, eight bytes are one look-up in each of the
    eight rows. *)

From S2P Require Import Prelude Bytes Crc.

(** ** One step of the division *)

Definition RPOLY : Z := crc_reflect POLY 64.
Definition P (x : Z) : Z := Z.lxor (Z.shiftr x 1) (if Z.odd x then RPOLY else 0).
Fixpoint steps (n : nat) (x : Z) : Z := match n with O => x | S n => steps n (P x) end.

Lemma P_lxor x y : P (Z.lxor x y) = Z.lxor (P x) (P y).
Proof.
  unfold P. rewrite Z.shiftr_lxor. replace (Z.odd (Z.lxor x y)) with (xorb (Z.odd x) (Z.odd y)) by (rewrite <- !Z.bit0_odd; by rewrite Z.lxor_spec).
  apply Z.bits_inj'. intros i _. rewrite !Z.lxor_spec. destruct (Z.odd x), (Z.odd y); cbn [xorb]; rewrite ?Z.bits_0; destruct (Z.testbit (Z.shiftr x 1) i), (Z.testbit (Z.shiftr y 1) i), (Z.testbit RPOLY i); done.
Qed.
Lemma P_double y : P (2 * y) = y.
Proof. unfold P. rewrite Z.odd_mul. cbn [Z.odd andb]. rewrite Z.lxor_0_r, Z.shiftr_div_pow2 by lia. change (2 ^ 1) with 2. rewrite Z.mul_comm. by apply Z.div_mul. Qed.
Lemma turns_lxor n x y : steps n (Z.lxor x y) = Z.lxor (steps n x) (steps n y).
Proof. revert x y. induction n as [|n IH]; intros x y; [done|]. cbn [steps]. by rewrite P_lxor, IH. Qed.
Lemma turns_add m n x : steps (m + n) x = steps n (steps m x).
Proof. revert x. induction m as [|m IH]; intros x; [done|]. cbn [steps Nat.add]. apply IH. Qed.
Lemma turns_pow n y : steps n (2 ^ Z.of_nat n * y) = y.
Proof.
  revert y. induction n as [|n IH]; intros y; [cbn; lia|]. rewrite Nat2Z.inj_succ, Z.pow_succ_r by lia. cbn [steps]. rewrite <- Z.mul_assoc, P_double. apply IH.
Qed.

Definition L (x : Z) : Z := steps 8 x.
Lemma L_lxor x y : L (Z.lxor x y) = Z.lxor (L x) (L y).
Proof. apply turns_lxor. Qed.
Lemma L_byte y : L (256 * y) = y.
Proof. exact (turns_pow 8 y). Qed.
Lemma L_zero : L 0 = 0.
Proof. reflexivity. Qed.

(** Words with nothing in common. *)
Lemma add_lxor a y : in_u 8 a -> a + 256 * y = Z.lxor a (256 * y).
Proof.
  intros Ha. rewrite Z.add_nocarry_lxor; [done|]. apply Z.bits_inj'. intros i Hi. rewrite Z.land_spec, Z.bits_0. replace (256 * y) with (y * 2 ^ 8) by lia. destruct (Z.lt_ge_cases i 8).
  - rewrite Z.mul_pow2_bits_low by lia. apply andb_false_r.
  - destruct (decide (a = 0)) as [->|]; [by rewrite Z.bits_0|]. rewrite Z.bits_above_log2; [done|unfold in_u in *; lia|]. apply Z.log2_lt_pow2; [unfold in_u in *; lia|]. apply Z.lt_le_trans with (2 ^ 8); [unfold in_u in *; lia|]. apply Z.pow_le_mono_r; lia.
Qed.
Lemma byte_split x : x = Z.lxor (Z.land x 255) (256 * Z.shiftr x 8) /\ in_u 8 (Z.land x 255).
Proof.
  change 255 with (Z.ones 8). rewrite Z.land_ones by lia. assert (in_u 8 (x mod 2 ^ 8)) as H by (unfold in_u; apply Z.mod_pos_bound; lia). split; [|done]. rewrite <- add_lxor by done. rewrite Z.shiftr_div_pow2 by lia. pose proof (Z.div_mod x (2 ^ 8) ltac:(lia)). lia.
Qed.
Lemma L_split x : L x = Z.lxor (L (Z.land x 255)) (Z.shiftr x 8).
Proof. destruct (byte_split x) as [E _]. rewrite E at 1. by rewrite L_lxor, L_byte. Qed.

(** ** Several steps at once *)

(** Bits, or bytes, that are fed in one after the other may all be put in before. *)
Definition feed (r : Z) (s : bytes) : Z := fold_left (fun r b => L (Z.lxor r b)) s r.

Lemma feed_steps r s : is_bytes s -> feed r s = steps (8 * length s) (Z.lxor r (le_val s)).
Proof.
  intros Hs. revert r. induction Hs as [|b s Hb Hs IH]; intros r; [cbn; by rewrite Z.lxor_0_r|]. unfold feed in *. cbn [fold_left length le_val]. rewrite IH. replace (8 * S (length s))%nat with (8 + 8 * length s)%nat by lia. rewrite turns_add. f_equal. fold (L (Z.lxor r (b + 256 * le_val s))).
  rewrite add_lxor by done. by rewrite <- Z.lxor_assoc, (L_lxor _ (256 * _)), L_byte.
Qed.

Fixpoint feed_bits (n : nat) (r c : Z) : Z := match n with O => r | S n => feed_bits n (P (Z.lxor r (c mod 2))) (c / 2) end.
Lemma feed_bits_steps n r c : feed_bits n r c = steps n (Z.lxor r (c mod 2 ^ Z.of_nat n)).
Proof.
  revert r c. induction n as [|n IH]; intros r c; [cbn; by rewrite Z.mod_1_r, Z.lxor_0_r|]. cbn [feed_bits steps]. rewrite IH. f_equal. rewrite Nat2Z.inj_succ, Z.pow_succ_r by lia. rewrite Z.rem_mul_r by lia.
  assert (c mod 2 + 2 * ((c / 2) mod 2 ^ Z.of_nat n) = Z.lxor (c mod 2) (2 * ((c / 2) mod 2 ^ Z.of_nat n))) as ->. { rewrite Z.add_nocarry_lxor; [done|]. apply Z.bits_inj'. intros [|i|i] Hi; [|rewrite Z.land_spec, Z.bits_0|lia]. { by rewrite Z.land_spec, Z.testbit_even_0, andb_false_r. }
    rewrite (Z.bits_above_log2 (c mod 2)); [done|apply Z.mod_pos_bound; lia|]. pose proof (Z.mod_pos_bound c 2 ltac:(lia)). assert (c mod 2 = 0 \/ c mod 2 = 1) as [-> | ->] by lia; cbn; lia. }
  by rewrite <- Z.lxor_assoc, (P_lxor _ (2 * _)), P_double.
Qed.

(** ** Reflection *)

Definition mirrors (d : Z) (k : Z) (r : Z) : Prop := forall j, 0 <= j -> Z.testbit r j = (j <=? k) && Z.testbit d (k - j).

Lemma u64_testbit x j : 0 <= j -> Z.testbit (u64 x) j = (j <? 64) && Z.testbit x j.
Proof. intros Hj. unfold wrap_u. destruct (Z.ltb_spec j 64); [by rewrite Z.mod_pow2_bits_low by lia|by rewrite Z.mod_pow2_bits_high by lia]. Qed.

Lemma reflect_turn d k r : 0 <= k < 63 -> mirrors d k r -> mirrors d (k + 1) (Z.lor (u64 (Z.shiftl r 1)) (Z.land (Z.shiftr d (k + 1)) 1)).
Proof.
  intros Hk Hm j Hj. rewrite Z.lor_spec, u64_testbit, Z.land_spec, Z.shiftr_spec by lia. destruct (Z.eq_dec j 0) as [->|Hne].
  - rewrite Z.shiftl_spec_low by lia. cbn. destruct (Z.leb_spec 0 (k + 1)); [|lia]. rewrite Z.sub_0_r, andb_true_r. done.
  - rewrite Z.shiftl_spec, Hm by lia. assert (Z.testbit 1 j = false) as -> by (destruct j; [done| |lia]; rewrite Z.bits_above_log2; cbn; lia || done). rewrite andb_false_r, orb_false_r. replace (k - (j - 1)) with (k + 1 - j) by lia.
    destruct (Z.leb_spec (j - 1) k), (Z.leb_spec j (k + 1)), (Z.ltb_spec j 64); try lia; done.
Qed.
Lemma reflect_loop_ok n d k r : 0 <= k -> k + Z.of_nat n <= 63 -> mirrors d k r -> mirrors d (k + Z.of_nat n) (reflect_loop n (Z.shiftr d k) r).
Proof.
  revert k r. induction n as [|n IH]; intros k r Hk Hn Hm; [by rewrite Z.add_0_r|]. cbn [reflect_loop]. rewrite Z.shiftr_shiftr by lia. replace (k + Z.of_nat (S n)) with (k + 1 + Z.of_nat n) by lia. apply IH; [lia|lia|]. apply reflect_turn; [lia|done].
Qed.
Lemma reflect_bits d j : 0 <= j -> Z.testbit (crc_reflect d 64) j = (j <? 64) && Z.testbit d (63 - j).
Proof.
  intros Hj. unfold crc_reflect. cbn [Nat.sub]. pose proof (reflect_loop_ok 63 d 0 (Z.land d 1)) as H. rewrite Z.shiftr_0_r in H. rewrite H; [|lia|lia| |done].
  - change (0 + Z.of_nat 63) with 63. destruct (Z.leb_spec j 63), (Z.ltb_spec j 64); try lia; done.
  - intros i Hi. rewrite Z.land_spec. destruct (Z.leb_spec i 0) as [Hle|Hgt]; [assert (i = 0) as -> by lia; cbn; by rewrite andb_true_r|]. cbn [andb]. assert (Z.testbit 1 i = false) as ->; [|apply andb_false_r]. destruct i; [lia| |lia]. rewrite Z.bits_above_log2; cbn; lia || done.
Qed.

(** Words that agree on their 64 bits. *)
Lemma u64_bits x y : in_u 64 x -> in_u 64 y -> (forall j, 0 <= j < 64 -> Z.testbit x j = Z.testbit y j) -> x = y.
Proof.
  intros Hx Hy H. apply Z.bits_inj'. intros j Hj. destruct (Z.lt_ge_cases j 64); [by apply H|]. rewrite <- (wrap_u_id 64 x Hx), <- (wrap_u_id 64 y Hy). rewrite !u64_testbit by done. by destruct (Z.ltb_spec j 64); [lia|].
Qed.
Lemma bits_u64 x : 0 <= x -> (forall j, 64 <= j -> Z.testbit x j = false) -> in_u 64 x.
Proof.
  intros Hx H. assert (u64 x = x) as <-; [|by apply wrap_u_range]. apply Z.bits_inj'. intros j Hj. rewrite u64_testbit by done. destruct (Z.ltb_spec j 64); [done|]. by rewrite H.
Qed.
Lemma lxor_u64 x y : in_u 64 x -> in_u 64 y -> in_u 64 (Z.lxor x y).
Proof.
  intros Hx Hy. apply bits_u64; [apply Z.lxor_nonneg; unfold in_u in *; lia|]. intros j Hj. rewrite Z.lxor_spec, <- (wrap_u_id 64 x Hx), <- (wrap_u_id 64 y Hy), !u64_testbit by lia. by destruct (Z.ltb_spec j 64); [lia|].
Qed.
Lemma reflect_loop_nonneg n d r : 0 <= d -> 0 <= r -> 0 <= reflect_loop n d r.
Proof.
  revert d r. induction n as [|n IH]; intros d r Hd Hr; [done|]. cbn [reflect_loop]. assert (0 <= Z.shiftr d 1) by by apply Z.shiftr_nonneg. apply IH; [done|]. apply Z.lor_nonneg. split; [apply wrap_u_range; lia|]. apply Z.land_nonneg. by right.
Qed.
Lemma reflect_u64 d : 0 <= d -> in_u 64 (crc_reflect d 64).
Proof.
  intros Hd. apply bits_u64; [apply reflect_loop_nonneg; [done|apply Z.land_nonneg; by left]|]. intros j Hj. rewrite reflect_bits by lia. by destruct (Z.ltb_spec j 64); [lia|].
Qed.
Lemma reflect_reflect d : in_u 64 d -> crc_reflect (crc_reflect d 64) 64 = d.
Proof.
  intros Hd. assert (0 <= d) by (unfold in_u in Hd; lia). apply u64_bits; [apply reflect_u64; by apply reflect_u64|done|]. intros j Hj. rewrite !reflect_bits by lia. replace (63 - (63 - j)) with j by lia. by destruct (Z.ltb_spec j 64), (Z.ltb_spec (63 - j) 64); try lia.
Qed.

(** ** [_crc64] *)

Definition turn (s : Z) (b : bool) : Z := Z.lxor (u64 (Z.shiftl s 1)) (if xorb (Z.testbit s 63) b then POLY else 0).

Lemma POLY_u64 : in_u 64 POLY /\ in_u 64 RPOLY /\ in_u 64 0.
Proof. unfold in_u. vm_compute. repeat split; discriminate. Qed.
#[local] Opaque crc_reflect.
Lemma P_u64 x : in_u 64 x -> in_u 64 (P x).
Proof.
  intros Hx. unfold P. apply lxor_u64; [|destruct (Z.odd x); apply POLY_u64]. unfold in_u in *. rewrite Z.shiftr_div_pow2 by lia. change (2 ^ 1) with 2. split; [apply Z.div_pos; lia|apply Z.div_lt_upper_bound; lia].
Qed.
Lemma turn_u64 s b : in_u 64 (turn s b).
Proof. apply lxor_u64; [by apply wrap_u_range|destruct (xorb _ _); apply POLY_u64]. Qed.

Lemma turn_reflect s b : in_u 64 s -> crc_reflect (turn s b) 64 = P (Z.lxor (crc_reflect s 64) (Z.b2z b)).
Proof.
  intros Hs. pose proof (turn_u64 s b) as Ht. assert (in_u 64 (Z.b2z b)) as Hb by (unfold in_u; destruct b; cbn; lia). assert (in_u 64 (crc_reflect s 64)) as Hr by (apply reflect_u64; unfold in_u in Hs; lia).
  apply u64_bits; [apply reflect_u64; unfold in_u in Ht; lia|by apply P_u64, lxor_u64|]. intros j Hj. rewrite reflect_bits by lia. rewrite (proj2 (Z.ltb_lt j 64)) by lia. unfold turn, P. rewrite !Z.lxor_spec, Z.shiftr_spec by lia.
  assert (Z.odd (Z.lxor (crc_reflect s 64) (Z.b2z b)) = xorb (Z.testbit s 63) b) as ->. { rewrite <- Z.bit0_odd, Z.lxor_spec, reflect_bits by lia. cbn [Z.ltb Z.compare andb]. by destruct b. }
  rewrite Z.lxor_spec. assert (Z.testbit (Z.b2z b) (j + 1) = false) as ->. { destruct b; [|apply Z.bits_0]. rewrite Z.bits_above_log2; cbn; lia || done. } rewrite xorb_false_r, andb_true_l. f_equal.
  - rewrite u64_testbit, reflect_bits by lia. rewrite (proj2 (Z.ltb_lt (63 - j) 64)) by lia. cbn [andb]. destruct (Z.ltb_spec (j + 1) 64); cbn [andb]; [rewrite Z.shiftl_spec by lia; by replace (63 - j - 1) with (63 - (j + 1)) by lia|]. rewrite Z.shiftl_spec_low by lia. done.
  - destruct (xorb _ _); [|by rewrite !Z.bits_0]. unfold RPOLY. rewrite reflect_bits by lia. by rewrite (proj2 (Z.ltb_lt j 64)) by lia.
Qed.

(** The turn of the code, with the mask for bit [i]. *)
Lemma land_bit c i : 0 <= i -> (Z.land c (2 ^ i) =? 0) = negb (Z.testbit c i).
Proof.
  intros Hi. destruct (Z.eqb_spec (Z.land c (2 ^ i)) 0) as [E|Hne].
  - assert (Z.testbit (Z.land c (2 ^ i)) i = false) as H by (rewrite E; apply Z.bits_0). rewrite Z.land_spec, Z.pow2_bits_true, andb_true_r in H by done. by rewrite H.
  - destruct (Z.testbit c i) eqn:E; [done|]. exfalso. apply Hne. apply Z.bits_inj'. intros j Hj. rewrite Z.land_spec, Z.bits_0. destruct (Z.eq_dec i j) as [->|]; [by rewrite E|]. by rewrite Z.pow2_bits_false, andb_false_r.
Qed.
Lemma bit_turn_ok c crc i : 0 <= i -> bit_turn c crc (2 ^ i) = turn crc (Z.testbit c i).
Proof.
  intros Hi. unfold bit_turn, turn. change 0x8000000000000000 with (2 ^ 63). rewrite (land_bit c i Hi). pose proof (land_bit crc 63 ltac:(lia)) as E. destruct (Z.testbit c i), (Z.testbit crc 63); cbn [negb xorb] in *; rewrite E; try done; by rewrite Z.lxor_0_r.
Qed.
Lemma land_u64 x : Z.land x 0xffffffffffffffff = u64 x.
Proof. change 0xffffffffffffffff with (Z.ones 64). by rewrite Z.land_ones. Qed.

Lemma div_bits c n : 0 <= n -> (c / 2 ^ n) mod 2 = Z.b2z (Z.testbit c n).
Proof. intros Hn. by rewrite Z.testbit_spec' by done. Qed.

(** A byte of the bitwise division is [L], after reflection. *)
Lemma byte_turn_ok s c : in_u 64 s -> in_u 8 c -> in_u 64 (byte_turn s c) /\ crc_reflect (byte_turn s c) 64 = L (Z.lxor (crc_reflect s 64) c).
Proof.
  intros Hs Hc. unfold byte_turn, masks. rewrite land_u64. change [_; _; _; _; _; _; _; _] with [2 ^ 0; 2 ^ 1; 2 ^ 2; 2 ^ 3; 2 ^ 4; 2 ^ 5; 2 ^ 6; 2 ^ 7]. cbn [fold_left]. rewrite !bit_turn_ok by lia.
  rewrite wrap_u_id by apply turn_u64. split; [apply turn_u64|]. rewrite !turn_reflect by (done || apply turn_u64).
  assert (L (Z.lxor (crc_reflect s 64) c) = feed_bits 8 (crc_reflect s 64) c) as -> by (rewrite feed_bits_steps; rewrite (Z.mod_small c) by (unfold in_u in Hc; exact Hc); done). cbn [feed_bits].
  rewrite !Z.div_div by lia. rewrite <- !div_bits by lia. rewrite Z.div_1_r. reflexivity.
Qed.

Lemma feed_nil r : feed r [] = r.
Proof. reflexivity. Qed.
Lemma feed_cons r b s : feed r (b :: s) = feed (L (Z.lxor r b)) s.
Proof. reflexivity. Qed.
Lemma feed_app r s t : feed r (s ++ t) = feed (feed r s) t.
Proof. apply fold_left_app. Qed.
Lemma byte_turns s s0 : is_bytes s -> in_u 64 s0 -> in_u 64 (fold_left byte_turn s s0) /\ crc_reflect (fold_left byte_turn s s0) 64 = feed (crc_reflect s0 64) s.
Proof.
  intros Hs. revert s0. induction Hs as [|b s Hb Hs IH]; intros s0 H0; cbn [fold_left]; [rewrite feed_nil; by split|]. destruct (byte_turn_ok s0 b H0 Hb) as [H1 E]. destruct (IH _ H1) as [H2 E2]. split; [exact H2|]. by rewrite E2, E, feed_cons.
Qed.
Lemma crc64_feed r s : in_u 64 r -> is_bytes s -> _crc64 (crc_reflect r 64) s = feed r s.
Proof.
  intros Hr Hs. unfold _crc64. rewrite Z.lxor_0_r. assert (in_u 64 (crc_reflect r 64)) as H0 by (apply reflect_u64; unfold in_u in Hr; lia).
  destruct (byte_turns s _ Hs H0) as [H1 E]. rewrite land_u64, wrap_u_id by exact H1. rewrite E. by rewrite reflect_reflect.
Qed.

(** ** The table *)

Definition rows_ok (table : crctable) : Prop := forall k n, (k < 8)%nat -> in_u 8 n -> slot table k n = inr (steps (8 * S k) n).

Lemma steps_L k x : steps (8 * S k) x = L (steps (8 * k) x).
Proof. replace (8 * S k)%nat with (8 * k + 8)%nat by lia. apply turns_add. Qed.
Lemma steps_one x : steps (8 * 1) x = L x.
Proof. reflexivity. Qed.
Lemma steps_more k x : steps (8 * S (S k)) x = steps (8 * S k) (L x).
Proof. replace (8 * S (S k))%nat with (8 + 8 * S k)%nat by lia. apply turns_add. Qed.
Lemma steps_eight x : steps 8 x = L x.
Proof. reflexivity. Qed.
#[local] Opaque P steps L.
Lemma zero_u64 : in_u 64 0.
Proof. apply POLY_u64. Qed.

Definition row0 : list Z := (fun n => _crc64 0 [u8 n]) <$> seqZ 0 256.
Lemma reflect_zero : crc_reflect 0 64 = 0.
Proof. vm_compute. reflexivity. Qed.
Lemma row0_ok n : in_u 8 n -> row0 !! Z.to_nat n = Some (L n).
Proof.
  intros Hn. unfold row0. rewrite list_lookup_fmap, (lookup_seqZ_lt 0 256) by (unfold in_u in Hn; lia). cbn [fmap option_fmap option_map]. f_equal. rewrite Z2Nat.id by (unfold in_u in Hn; lia). rewrite Z.add_0_l, wrap_u_id by done.
  rewrite <- reflect_zero at 1. rewrite (crc64_feed 0 [n]); [|apply zero_u64|by constructor]. unfold feed. cbn [fold_left]. by rewrite Z.lxor_0_l.
Qed.
Section Rows.
Context (row : list Z) (Hrow : forall n, in_u 8 n -> row !! Z.to_nat n = Some (L n)).
Lemma nested_ok m crc : exists rest, nested row m crc = inr rest /\ length rest = m /\ forall k, (k < m)%nat -> rest !! k = Some (steps (8 * S k) crc).
Proof.
  revert crc. induction m as [|m IH]; intros crc; [exists []; split_and!; [done|done|lia]|]. cbn [nested]. destruct (byte_split crc) as [_ Hb]. rewrite Hrow by exact Hb. cbn [the mbind result_bind]. rewrite <- L_split. destruct (IH (L crc)) as (rest & -> & Hl & Hk). cbn [mbind result_bind mret result_ret]. eexists. split; [done|]. split; [cbn; lia|].
  intros [|k] Hlt; cbn [lookup list_lookup]; [f_equal; symmetry; apply steps_one|]. rewrite Hk by lia. f_equal. symmetry. apply steps_more.
Qed.
Lemma column_ok table n : in_u 8 n -> exists column, column_of row table n = inr (table ++ [column]) /\ forall k, (k < 8)%nat -> column !! k = Some (steps (8 * S k) n).
Proof.
  intros Hn. unfold column_of. rewrite Hrow by done. cbn [the mbind result_bind]. destruct (nested_ok 7 (L n)) as (rest & -> & _ & Hk). cbn [mbind result_bind mret result_ret]. eexists. split; [done|]. intros [|k] Hlt; cbn [lookup list_lookup]; [f_equal; symmetry; apply steps_one|]. rewrite Hk by lia. f_equal. symmetry. apply steps_more.
Qed.
Lemma columns_ok m table : (m <= 256)%nat -> length table = (256 - m)%nat -> (forall k n, (k < 8)%nat -> 0 <= n < 256 - Z.of_nat m -> slot table k n = inr (steps (8 * S k) n)) ->
  exists table', for_each (column_of row) table (seqZ (256 - Z.of_nat m) (Z.of_nat m)) = inr table' /\ rows_ok table' /\ length table' = 256%nat.
Proof.
  revert table. induction m as [|m IH]; intros table Hm Hl Ht; [exists table; split; [done|]; split; [|lia]; intros k n Hk Hn; apply Ht; [done|unfold in_u in Hn; lia]|]. rewrite seqZ_cons by lia. cbn [for_each]. destruct (column_ok table (256 - Z.of_nat (S m))) as (column & -> & Hc); [unfold in_u; lia|]. cbn [mbind result_bind].
  replace (Z.succ (256 - Z.of_nat (S m))) with (256 - Z.of_nat m) by lia. replace (Z.pred (Z.of_nat (S m))) with (Z.of_nat m) by lia. apply IH; [lia|rewrite length_app; cbn; lia|]. intros k n Hk Hn. unfold slot. destruct (Z.eq_dec n (256 - Z.of_nat (S m))) as [->|Hne].
  - rewrite lookup_app_r by lia. replace (Z.to_nat (256 - Z.of_nat (S m)) - length table)%nat with O by lia. cbn [lookup list_lookup the mbind result_bind]. by rewrite Hc.
  - rewrite lookup_app_l by lia. apply (Ht k n Hk). lia.
Qed.
End Rows.
Lemma little_init_ok : exists table, crcspeed64little_init _crc64 = inr table /\ rows_ok table /\ length table = 256%nat.
Proof. apply (columns_ok row0 row0_ok 256 []); [lia|done|]. intros k n _ Hn. lia. Qed.

(** ** A little-endian machine *)

Lemma shiftr_byte crc b : in_u 8 b -> Z.shiftr (Z.lxor crc b) 8 = Z.shiftr crc 8.
Proof. intros Hb. rewrite Z.shiftr_lxor, (Z.shiftr_div_pow2 b), Z.div_small by (unfold in_u in Hb; lia). apply Z.lxor_0_r. Qed.
Lemma byte_u64 b : in_u 8 b -> in_u 64 b.
Proof. unfold in_u. lia. Qed.
Lemma steps_u64 n x : in_u 64 x -> in_u 64 (steps n x).
Proof. revert x. induction n as [|n IH]; intros x Hx; [exact Hx|]. apply (IH (P x)). by apply P_u64. Qed.
Lemma feed_u64 r s : in_u 64 r -> is_bytes s -> in_u 64 (feed r s).
Proof. intros Hr Hs. revert r Hr. induction Hs as [|b s Hb Hs IH]; intros r Hr; [exact Hr|]. rewrite feed_cons. apply IH. rewrite <- steps_eight. apply steps_u64, lxor_u64; [done|by apply byte_u64]. Qed.

(** The low byte of a word, and the rest. *)
Lemma steps_split k y : steps (8 * S k) y = Z.lxor (steps (8 * S k) (Z.land y 255)) (steps (8 * k) (Z.shiftr y 8)).
Proof.
  destruct (byte_split y) as [E _]. rewrite E at 1. rewrite turns_lxor. f_equal. replace (8 * S k)%nat with (8 + 8 * k)%nat by lia. by rewrite turns_add, steps_eight, L_byte.
Qed.
Lemma steps_word y : steps 64 y =
  Z.lxor (steps (8 * 8) (Z.land y 255)) (Z.lxor (steps (8 * 7) (Z.land (Z.shiftr y 8) 255)) (Z.lxor (steps (8 * 6) (Z.land (Z.shiftr y 16) 255)) (Z.lxor (steps (8 * 5) (Z.land (Z.shiftr y 24) 255))
  (Z.lxor (steps (8 * 4) (Z.land (Z.shiftr y 32) 255)) (Z.lxor (steps (8 * 3) (Z.land (Z.shiftr y 40) 255)) (Z.lxor (steps (8 * 2) (Z.land (Z.shiftr y 48) 255)) (steps (8 * 1) (Z.shiftr y 56)))))))).
Proof.
  change 64%nat with (8 * 8)%nat at 1. rewrite (steps_split 7 y), (steps_split 6), (steps_split 5), (steps_split 4), (steps_split 3), (steps_split 2), (steps_split 1). rewrite !Z.shiftr_shiftr by lia. reflexivity.
Qed.
Lemma top_byte y : in_u 64 y -> in_u 8 (Z.shiftr y 56).
Proof. unfold in_u. intros Hy. rewrite Z.shiftr_div_pow2 by lia. split; [apply Z.div_pos; lia|apply Z.div_lt_upper_bound; lia]. Qed.
Lemma low_byte y : in_u 8 (Z.land y 255).
Proof. apply byte_split. Qed.

Section LittleOk.
Context (table : crctable) (Ht : rows_ok table).

Lemma little_byte_ok crc b : in_u 8 b -> little_byte table crc b = inr (L (Z.lxor crc b)).
Proof.
  intros Hb. unfold little_byte. rewrite Ht by (lia || apply low_byte). cbn [mbind result_bind mret result_ret]. rewrite (L_split (Z.lxor crc b)), shiftr_byte by done. exact (f_equal (fun t => inr (Z.lxor t (Z.shiftr crc 8))) (steps_one _)).
Qed.
Lemma little_bytes_ok s crc : is_bytes s -> for_each (little_byte table) crc s = inr (feed crc s).
Proof. intros Hs. revert crc. induction Hs as [|b s Hb Hs IH]; intros crc; [done|]. cbn [for_each]. rewrite little_byte_ok by done. cbn [mbind result_bind]. by rewrite IH, feed_cons. Qed.
Lemma little_align_ok s crc next : is_bytes s -> exists crc' s', little_align table crc next s = inr (crc', s') /\ feed crc s = feed crc' s' /\ is_bytes s' /\ (in_u 64 crc -> in_u 64 crc').
Proof.
  intros Hs. revert crc next. induction Hs as [|b s Hb Hs IH]; intros crc next; [exists crc, []; split_and!; (done || constructor)|]. cbn [little_align]. destruct (Z.land next 7 =? 0); [exists crc, (b :: s); split_and!; try done; by constructor|]. rewrite little_byte_ok by done. cbn [mbind result_bind].
  destruct (IH (L (Z.lxor crc b)) (u64 (next + 1))) as (crc' & s' & -> & E & Hs' & Hu). exists crc', s'. rewrite feed_cons. split_and!; try done. intros Hc. apply Hu. rewrite <- steps_eight. apply steps_u64, lxor_u64; [done|by apply byte_u64].
Qed.
Lemma little_word_ok crc w : in_u 64 (Z.lxor crc w) -> little_word table crc w = inr (steps 64 (Z.lxor crc w)).
Proof.
  intros Hy. unfold little_word. set (y := Z.lxor crc w) in *. rewrite steps_word. rewrite !Ht by (lia || apply low_byte || by apply top_byte). cbn [mbind result_bind mret result_ret]. f_equal. by rewrite !Z.lxor_assoc.
Qed.
Lemma little_words_ok n s crc : (length s <= n)%nat -> is_bytes s -> in_u 64 crc -> exists crc' s', little_words table crc s = inr (crc', s') /\ feed crc s = feed crc' s' /\ is_bytes s'.
Proof.
  revert s crc. induction n as [|n IH]; intros s crc Hn Hs Hc; [destruct s; [|cbn in Hn; lia]; exists crc, []; by split_and!|]. do 8 (destruct s as [|? s]; [eexists _, _; split_and!; [reflexivity|done|done]|]).
  match goal with |- context [little_words table crc (?a :: ?b :: ?c :: ?d :: ?e :: ?f :: ?g :: ?h :: s)] => set (w := [a; b; c; d; e; f; g; h]); change (a :: b :: c :: d :: e :: f :: g :: h :: s) with (w ++ s) in *; change (little_words table crc (w ++ s)) with (crc ← little_word table crc (le_val w); little_words table crc s) end.
  apply Forall_app in Hs as [Hw Hs]. pose proof (le_val_range w Hw) as Hr. assert (in_u 64 (Z.lxor crc (le_val w))) as Hy by (apply lxor_u64; [done|exact Hr]). rewrite little_word_ok by done. cbn [mbind result_bind].
  rewrite (feed_app crc w s), (feed_steps crc w Hw). apply IH; [rewrite length_app in Hn; cbn in Hn; lia|done|by apply steps_u64].
Qed.
Lemma crcspeed64little_ok crc next s : in_u 64 crc -> is_bytes s -> crcspeed64little table crc next s = inr (feed crc s).
Proof.
  intros Hc Hs. unfold crcspeed64little. destruct (little_align_ok s crc next Hs) as (c1 & s1 & -> & -> & Hs1 & Hu). cbn [mbind result_bind]. destruct (little_words_ok (length s1) s1 c1 ltac:(lia) Hs1 (Hu Hc)) as (c2 & s2 & -> & -> & Hs2). cbn [mbind result_bind]. by apply little_bytes_ok.
Qed.
End LittleOk.
