(* ===== verification/CrcRun.v ===== *)
(** * CRC-64 on machines of both byte orders, CRC-16 and hash slots *)

From S2P Require Import Prelude Bytes Crc CrcFacts.

Ltac Zify.zify_post_hook ::= Z.to_euclidean_division_equations.

(** ** Reversed words *)

Lemma le_val_bits (bs : list Z) i : is_bytes bs -> 0 <= i -> Z.testbit (le_val bs) i = match bs !! Z.to_nat (i / 8) with Some b => Z.testbit b (i mod 8) | None => false end.
Proof.
  intros Hb. revert i. induction Hb as [|b bs Hb Hbs IH]; intros i Hi; [by rewrite Z.bits_0|]. cbn [le_val]. rewrite add_lxor, Z.lxor_spec by done. replace (256 * le_val bs) with (le_val bs * 2 ^ 8) by lia. destruct (Z.lt_ge_cases i 8).
  - rewrite Z.mul_pow2_bits_low, xorb_false_r by lia. rewrite (Z.div_small i 8), (Z.mod_small i 8) by lia. done.
  - rewrite Z.mul_pow2_bits, IH by lia. rewrite <- (wrap_u_id 8 b Hb) at 1. unfold wrap_u. rewrite Z.mod_pow2_bits_high by lia. rewrite xorb_false_l. replace ((i - 8) mod 8) with (i mod 8) by lia. replace (Z.to_nat (i / 8)) with (S (Z.to_nat ((i - 8) / 8))) by lia. done.
Qed.
Lemma le_bytes_lookup n a k : (k < n)%nat -> (le_bytes n a : list Z) !! k = Some ((a / 256 ^ Z.of_nat k) mod 256).
Proof.
  revert a k. induction n as [|n IH]; intros a k Hk; [lia|]. destruct k as [|k]; [cbn; by rewrite Z.div_1_r|]. cbn [le_bytes lookup list_lookup]. rewrite IH by lia. rewrite Z.div_div by lia. rewrite Nat2Z.inj_succ, Z.pow_succ_r by lia. done.
Qed.
Lemma rev8_bits a i : 0 <= i < 64 -> Z.testbit (rev8 a) i = Z.testbit a (8 * (7 - i / 8) + i mod 8).
Proof.
  intros Hi. unfold rev8. rewrite le_val_bits by (lia || apply Forall_rev, is_bytes_le). assert (rev (le_bytes 8 a) !! Z.to_nat (i / 8) = Some ((a / 256 ^ (7 - i / 8)) mod 256)) as ->.
  { rewrite List.rev_alt. fold (reverse (le_bytes 8 a)). rewrite reverse_lookup by (rewrite length_le_bytes; lia). rewrite length_le_bytes, le_bytes_lookup by lia. do 4 f_equal. lia. }
  change 256 with (2 ^ 8) at 2. rewrite Z.mod_pow2_bits_low by lia. change 256 with (2 ^ 8). rewrite <- Z.pow_mul_r, Z.div_pow2_bits by lia. f_equal. lia.
Qed.
Lemma rev8_u64 a : in_u 64 (rev8 a).
Proof.
  unfold rev8. assert (is_bytes (rev (le_bytes 8 a))) as H by (apply Forall_rev, is_bytes_le). pose proof (le_val_range _ H) as R. rewrite length_rev, length_le_bytes in R. exact R.
Qed.
(** Equations between reversed words, bit by bit. *)
Ltac by_bits := apply u64_bits; [..|let j := fresh "j" in let Hj := fresh "Hj" in intros j Hj; rewrite ?Z.lxor_spec, ?rev8_bits, ?Z.lxor_spec by lia].
Lemma rev8_lxor a b : rev8 (Z.lxor a b) = Z.lxor (rev8 a) (rev8 b).
Proof. by_bits; [apply rev8_u64|apply lxor_u64; apply rev8_u64|]. done. Qed.
Lemma rev8_rev8 a : in_u 64 a -> rev8 (rev8 a) = a.
Proof. intros Ha. by_bits; [apply rev8_u64|done|]. f_equal. lia. Qed.
Lemma shiftr_u64 a n : 0 <= n -> in_u 64 a -> in_u 64 (Z.shiftr a n).
Proof. intros Hn Ha. apply bits_u64; [apply Z.shiftr_nonneg; unfold in_u in Ha; lia|]. intros j Hj. rewrite Z.shiftr_spec, <- (wrap_u_id 64 a Ha), u64_testbit by lia. destruct (Z.ltb_spec (j + n) 64); [lia|done]. Qed.
Lemma rev8_shift c : in_u 64 c -> u64 (Z.shiftl (rev8 c) 8) = rev8 (Z.shiftr c 8).
Proof.
  intros Hc. by_bits; [by apply wrap_u_range|apply rev8_u64|]. rewrite u64_testbit, Z.shiftr_spec by lia. destruct (Z.ltb_spec j 64); [|lia]. cbn [andb]. destruct (Z.lt_ge_cases j 8).
  - rewrite Z.shiftl_spec_low by lia. rewrite <- (wrap_u_id 64 c Hc), u64_testbit by lia. destruct (Z.ltb_spec (8 * (7 - j / 8) + j mod 8 + 8) 64); [lia|done].
  - rewrite Z.shiftl_spec, rev8_bits by lia. f_equal. lia.
Qed.
Lemma rev8_byte y a b : 0 <= a -> 0 <= b -> a mod 8 = 0 -> a + b = 56 -> Z.land (Z.shiftr (rev8 y) a) 255 = Z.land (Z.shiftr y b) 255.
Proof.
  intros Ha Hb Hm Hab. change 255 with (Z.ones 8). apply Z.bits_inj'. intros j Hj. rewrite !Z.land_spec, !Z.shiftr_spec by lia. destruct (Z.lt_ge_cases j 8); [|by rewrite Z.ones_spec_high, !andb_false_r by lia]. f_equal. rewrite rev8_bits by lia. f_equal. lia.
Qed.
Lemma top_land y : in_u 64 y -> Z.shiftr y 56 = Z.land (Z.shiftr y 56) 255.
Proof. intros Hy. change 255 with (Z.ones 8). rewrite Z.land_ones, Z.mod_small by (lia || by apply top_byte). done. Qed.

(** ** A big-endian machine *)

(** The same state with its bytes reversed. *)
Section BigOk.
Context (table : crctable) (Ht : forall k n, (k < 8)%nat -> in_u 8 n -> slot table k n = inr (rev8 (steps (8 * S k) n))).

Lemma big_index c b : in_u 64 c -> in_u 8 b -> Z.lxor (Z.shiftr (rev8 c) 56) b = Z.land (Z.lxor c b) 255.
Proof.
  intros Hc Hb. rewrite top_land by apply rev8_u64. rewrite (rev8_byte c 56 0), Z.shiftr_0_r by done. rewrite <- (wrap_u_id 8 b Hb) at 1. unfold wrap_u. rewrite <- Z.land_ones by lia. change (Z.ones 8) with 255. apply Z.bits_inj'. intros j Hj. rewrite Z.land_spec, !Z.lxor_spec, !Z.land_spec.
  by destruct (Z.testbit c j), (Z.testbit b j), (Z.testbit 255 j).
Qed.
Lemma big_byte_ok c b : in_u 64 c -> in_u 8 b -> big_byte table (rev8 c) b = inr (rev8 (L (Z.lxor c b))).
Proof.
  intros Hc Hb. unfold big_byte. rewrite big_index by done. rewrite Ht by (lia || apply low_byte). cbn [mbind result_bind mret result_ret]. rewrite rev8_shift by done. rewrite <- rev8_lxor, <- (shiftr_byte c b Hb), (L_split (Z.lxor c b)). exact (f_equal (fun t => inr (rev8 (Z.lxor t (Z.shiftr (Z.lxor c b) 8)))) (steps_one _)).
Qed.
Lemma step_u64 c b : in_u 64 c -> in_u 8 b -> in_u 64 (L (Z.lxor c b)).
Proof. intros Hc Hb. rewrite <- steps_eight. apply steps_u64, lxor_u64; [done|by apply byte_u64]. Qed.
Lemma big_bytes_ok s c : in_u 64 c -> is_bytes s -> for_each (big_byte table) (rev8 c) s = inr (rev8 (feed c s)).
Proof. intros Hc Hs. revert c Hc. induction Hs as [|b s Hb Hs IH]; intros c Hc; [done|]. cbn [for_each]. rewrite big_byte_ok by done. cbn [mbind result_bind]. rewrite IH by by apply step_u64. by rewrite feed_cons. Qed.
Lemma big_align_ok s c next : in_u 64 c -> is_bytes s -> exists c' s', big_align table (rev8 c) next s = inr (rev8 c', s') /\ feed c s = feed c' s' /\ is_bytes s' /\ in_u 64 c'.
Proof.
  intros Hc Hs. revert c Hc next. induction Hs as [|b s Hb Hs IH]; intros c Hc next; [exists c, []; split_and!; (done || constructor)|]. cbn [big_align]. destruct (Z.land next 7 =? 0); [exists c, (b :: s); split_and!; try done; by constructor|]. rewrite big_byte_ok by done. cbn [mbind result_bind].
  destruct (IH (L (Z.lxor c b)) (step_u64 c b Hc Hb) (u64 (next + 1))) as (c' & s' & -> & E & Hs' & Hu). exists c', s'. by rewrite feed_cons.
Qed.

Lemma lxor_eight a b c d e f g h : Z.lxor (Z.lxor (Z.lxor (Z.lxor (Z.lxor (Z.lxor (Z.lxor h g) f) e) d) c) b) a = Z.lxor a (Z.lxor b (Z.lxor c (Z.lxor d (Z.lxor e (Z.lxor f (Z.lxor g h)))))).
Proof. rewrite (Z.lxor_comm a), (Z.lxor_comm b), (Z.lxor_comm c), (Z.lxor_comm d), (Z.lxor_comm e), (Z.lxor_comm f), (Z.lxor_comm g). done. Qed.
Lemma big_word_ok c w : in_u 64 (Z.lxor c w) -> big_word table (rev8 c) (rev8 w) = inr (rev8 (steps 64 (Z.lxor c w))).
Proof.
  intros Hy. unfold big_word. rewrite <- rev8_lxor. set (y := Z.lxor c w) in *. rewrite (steps_word y). rewrite (top_land (rev8 y) (rev8_u64 y)).
  pose proof (rev8_byte y 0 56 ltac:(lia) ltac:(lia) eq_refl eq_refl) as E0. rewrite Z.shiftr_0_r in E0. rewrite E0.
  rewrite (rev8_byte y 8 48), (rev8_byte y 16 40), (rev8_byte y 24 32), (rev8_byte y 32 24), (rev8_byte y 40 16), (rev8_byte y 48 8), (rev8_byte y 56 0), Z.shiftr_0_r by done. rewrite !Ht by (lia || apply low_byte). cbn [mbind result_bind mret result_ret]. rewrite lxor_eight, <- (top_land y Hy), !rev8_lxor. done.
Qed.
Lemma big_words_ok n s c : (length s <= n)%nat -> is_bytes s -> in_u 64 c -> exists c' s', big_words table (rev8 c) s = inr (rev8 c', s') /\ feed c s = feed c' s' /\ is_bytes s' /\ in_u 64 c'.
Proof.
  revert s c. induction n as [|n IH]; intros s c Hn Hs Hc; [destruct s; [|cbn in Hn; lia]; exists c, []; by split_and!|]. do 8 (destruct s as [|? s]; [eexists _, _; split_and!; [reflexivity|done|done|done]|]).
  match goal with |- context [big_words table (rev8 c) (?a :: ?b :: ?c' :: ?d :: ?e :: ?f :: ?g :: ?h :: s)] => set (w := [a; b; c'; d; e; f; g; h]); change (a :: b :: c' :: d :: e :: f :: g :: h :: s) with (w ++ s) in *; change (big_words table (rev8 c) (w ++ s)) with (crc ← big_word table (rev8 c) (le_val (rev w)); big_words table crc s) end.
  apply Forall_app in Hs as [Hw Hs]. pose proof (le_val_range w Hw) as Hr. assert (in_u 64 (Z.lxor c (le_val w))) as Hy by (apply lxor_u64; [done|exact Hr]). replace (le_val (rev w)) with (rev8 (le_val w)) by (unfold rev8; change 8%nat with (length w); by rewrite (le_bytes_val w Hw)). rewrite big_word_ok by done. cbn [mbind result_bind].
  rewrite (feed_app c w s), (feed_steps c w Hw). apply IH; [rewrite length_app in Hn; cbn in Hn; lia|done|by apply steps_u64].
Qed.
Lemma crcspeed64big_ok c next s : in_u 64 c -> is_bytes s -> crcspeed64big table c next s = inr (feed c s).
Proof.
  intros Hc Hs. unfold crcspeed64big. destruct (big_align_ok s c next Hc Hs) as (c1 & s1 & -> & -> & Hs1 & Hu). cbn [mbind result_bind]. destruct (big_words_ok (length s1) s1 c1 ltac:(lia) Hs1 Hu) as (c2 & s2 & -> & -> & Hs2 & Hu2). cbn [mbind result_bind]. rewrite big_bytes_ok by done. cbn [mbind result_bind mret result_ret]. rewrite rev8_rev8; [done|]. by apply feed_u64.
Qed.
End BigOk.

Lemma big_init_ok : exists table, crcspeed64big_init _crc64 = inr table /\ forall k n, (k < 8)%nat -> in_u 8 n -> slot table k n = inr (rev8 (steps (8 * S k) n)).
Proof.
  unfold crcspeed64big_init. destruct little_init_ok as (t & -> & Ht & _). cbn [mbind result_bind mret result_ret]. eexists. split; [done|]. intros k n Hk Hn. specialize (Ht k n Hk Hn). unfold slot in *. change (map (map rev8) t) with (map rev8 <$> t). rewrite list_lookup_fmap. destruct (t !! Z.to_nat n) as [column|]; [|done]. cbn [the mbind result_bind fmap option_fmap option_map] in *.
  change (map rev8 column) with (rev8 <$> column). rewrite list_lookup_fmap. destruct (column !! k); [|done]. cbn in *. by injection Ht as ->.
Qed.

Lemma crc64_ok little : exists table, crc64_init little = inr table /\ forall crc next s, in_u 64 crc -> is_bytes s -> crc64 little table crc next s = inr (feed crc s).
Proof.
  unfold crc64_init, crcspeed64native_init, crc64, crcspeed64native. destruct little.
  - destruct little_init_ok as (t & E & Ht & _). exists t. split; [done|]. intros crc next s. by apply crcspeed64little_ok.
  - destruct big_init_ok as (t & E & Ht). exists t. split; [done|]. intros crc next s. by apply crcspeed64big_ok.
Qed.

(** ** Errors are noticed *)

Lemma RPOLY_top : Z.testbit RPOLY 63 = true.
Proof. vm_compute. reflexivity. Qed.
Lemma P_zero x : in_u 64 x -> P x = 0 -> x = 0.
Proof.
  intros Hx E. unfold P in E. destruct (Z.odd x) eqn:Eo.
  - exfalso. assert (Z.testbit (Z.lxor (Z.shiftr x 1) RPOLY) 63 = false) as H by (rewrite E; apply Z.bits_0). rewrite Z.lxor_spec, Z.shiftr_spec, RPOLY_top in H by lia. rewrite <- (wrap_u_id 64 x Hx), u64_testbit in H by lia. done.
  - rewrite Z.lxor_0_r, Z.shiftr_div_pow2 in E by lia. change (2 ^ 1) with 2 in E. rewrite <- Z.negb_even in Eo. apply negb_false_iff, Z.even_spec in Eo as [z ->]. unfold in_u in Hx. lia.
Qed.
Lemma steps_inj n x y : in_u 64 x -> in_u 64 y -> steps n x = steps n y -> x = y.
Proof.
  intros Hx Hy E. assert (forall z, in_u 64 z -> steps n z = 0 -> z = 0) as H. { clear. induction n as [|n IH]; intros z Hz Hs; [done|]. apply P_zero; [done|]. apply IH; [by apply P_u64|done]. }
  apply Z.lxor_eq. apply H; [by apply lxor_u64|]. rewrite turns_lxor, E. apply Z.lxor_nilpotent.
Qed.
Lemma L_inj x y : in_u 64 x -> in_u 64 y -> L x = L y -> x = y.
Proof. exact (steps_inj 8 x y). Qed.
#[local] Opaque P steps L.
Lemma feed_inj s x y : is_bytes s -> in_u 64 x -> in_u 64 y -> feed x s = feed y s -> x = y.
Proof.
  intros Hs. revert x y. induction Hs as [|b s Hb Hs IH]; intros x y Hx Hy E; [done|]. rewrite !feed_cons in E. apply IH in E; [|by apply step_u64..]. pose proof (byte_u64 b Hb). apply L_inj in E; [|by apply lxor_u64..]. apply (f_equal (fun z => Z.lxor z b)) in E. by rewrite !Z.lxor_assoc, Z.lxor_nilpotent, !Z.lxor_0_r in E.
Qed.
Lemma feed_window r m m' : in_u 64 r -> is_bytes m -> is_bytes m' -> length m = length m' -> (length m <= 8)%nat -> feed r m = feed r m' -> m = m'.
Proof.
  intros Hr Hm Hm' El Hl E. rewrite !feed_steps, <- El in E by done. assert (forall k, is_bytes k -> (length k <= 8)%nat -> in_u 64 (le_val k)) as Hin. { intros k Hk Hk8. pose proof (le_val_range k Hk) as [R1 R2]. split; [done|]. eapply Z.lt_le_trans; [exact R2|]. change (2 ^ 64) with (256 ^ 8). apply Z.pow_le_mono_r; lia. }
  apply steps_inj in E; [|apply lxor_u64; [done|apply Hin; (done || lia)]..]. assert (le_val m = le_val m') as Ev. { apply (f_equal (Z.lxor r)) in E. by rewrite <- !Z.lxor_assoc, Z.lxor_nilpotent, !Z.lxor_0_l in E. }
  rewrite <- (le_bytes_val m Hm), <- (le_bytes_val m' Hm'). by rewrite El, Ev.
Qed.

(** C7: The table-driven CRC-64 of [crc64], eight bytes at a time on aligned words, computes on
    machines of both byte orders, for every alignment of the string and every initial value, what the
    bitwise division of [_crc64] computes from the reflected initial value; in particular the two
    agree from 0.  A string may be fed in pieces. *)
Theorem crc64_correct little crc next s : in_u 64 crc -> is_bytes s ->
  exists table, crc64_init little = inr table /\ crc64 little table crc next s = inr (_crc64 (crc_reflect crc 64) s) /\
    forall next' next'' t, is_bytes t -> crc64 little table crc next' (s ++ t) = (c ← crc64 little table crc next s; crc64 little table c next'' t).
Proof.
  intros Hc Hs. destruct (crc64_ok little) as (table & E & Hok). exists table. split; [done|]. rewrite crc64_feed by done. rewrite Hok by done. split; [done|]. intros next' next'' t Ht. rewrite Hok; [|done|by apply Forall_app]. cbn [mbind result_bind]. rewrite Hok; [|by apply feed_u64|done]. by rewrite feed_app.
Qed.

(** C26: A change that is confined to eight consecutive bytes of a string of any length changes its
    checksum, from every initial value and on machines of both byte orders. *)
Theorem crc64_detects_burst little crc next next' p m m' q : in_u 64 crc -> is_bytes (p ++ m ++ q) -> is_bytes m' -> length m = length m' -> (length m <= 8)%nat -> m <> m' ->
  exists table c c', crc64_init little = inr table /\ crc64 little table crc next (p ++ m ++ q) = inr c /\ crc64 little table crc next' (p ++ m' ++ q) = inr c' /\ c <> c'.
Proof.
  intros Hc Hs Hm' El Hl Hne. apply Forall_app in Hs as [Hp Hs]. apply Forall_app in Hs as [Hm Hq]. destruct (crc64_ok little) as (table & E & Hok). exists table. do 2 eexists. split; [done|]. split; [apply Hok; [done|by repeat apply Forall_app_2]|]. split; [apply Hok; [done|by repeat apply Forall_app_2]|].
  rewrite !feed_app. intros Ef. pose proof (feed_u64 crc p Hc Hp) as Hr. apply feed_inj in Ef; [|done|by apply feed_u64..]. apply feed_window in Ef; done.
Qed.

Definition check_string : bytes := [49; 50; 51; 52; 53; 54; 55; 56; 57].
Lemma check_bytes : is_bytes check_string.
Proof. repeat (constructor; [unfold in_u; lia|]). constructor. Qed.
(** The value is the one the test of crc64.c prints. *)
Lemma crc64_correct_witness : _crc64 (crc_reflect 0 64) check_string = 0xe9c6d914c4b8d9ca /\
  exists table, crc64_init false = inr table /\ crc64 false table 0 5 check_string = inr (_crc64 (crc_reflect 0 64) check_string) /\
    forall next' next'' t, is_bytes t -> crc64 false table 0 next' (check_string ++ t) = (c ← crc64 false table 0 5 check_string; crc64 false table c next'' t).
Proof. split; [vm_compute; reflexivity|]. apply (crc64_correct false 0 5 check_string); [unfold in_u; lia|apply check_bytes]. Defined.

Lemma crc64_detects_burst_witness : exists table c c', crc64_init true = inr table /\ crc64 true table 0 3 ([7] ++ [1; 2] ++ check_string) = inr c /\ crc64 true table 0 3 ([7] ++ [2; 1] ++ check_string) = inr c' /\ c <> c'.
Proof.
  apply (crc64_detects_burst true 0 3 3 [7] [1; 2] [2; 1] check_string); [unfold in_u; lia| |repeat (constructor; [unfold in_u; lia|]); constructor|reflexivity|cbn; lia|discriminate].
  cbn [app]. do 3 (constructor; [unfold in_u; lia|]). apply check_bytes.
Defined.

(** ** CRC-16 *)

(** The parameters the comment of crc16.c gives: width 16, polynomial 0x1021, no reflection. *)
Definition xmodem_bit (crc : Z) (b : bool) : Z := Z.lxor (u16 (Z.shiftl crc 1)) (if xorb (Z.testbit crc 15) b then 0x1021 else 0).
Definition xmodem_byte (crc byte : Z) : Z := fold_left (fun c i => xmodem_bit c (Z.testbit byte i)) [7; 6; 5; 4; 3; 2; 1; 0] crc.
Definition xmodem (s : bytes) : Z := fold_left xmodem_byte s 0.

Lemma u16_lxor x y : u16 (Z.lxor x y) = Z.lxor (u16 x) (u16 y).
Proof. unfold wrap_u. rewrite <- !Z.land_ones by lia. apply Z.bits_inj'. intros j Hj. rewrite !Z.land_spec, !Z.lxor_spec, !Z.land_spec. by destruct (Z.testbit x j), (Z.testbit y j), (Z.testbit (Z.ones 16) j). Qed.
Lemma xmodem_bit_lxor x y b : xmodem_bit (Z.lxor x y) b = Z.lxor (xmodem_bit x false) (xmodem_bit y b).
Proof.
  unfold xmodem_bit. rewrite Z.shiftl_lxor, u16_lxor, Z.lxor_spec. apply Z.bits_inj'. intros j _. rewrite !Z.lxor_spec. destruct (Z.testbit x 15), (Z.testbit y 15), b; cbn [xorb]; rewrite ?Z.bits_0;
    destruct (Z.testbit (u16 (Z.shiftl x 1)) j), (Z.testbit (u16 (Z.shiftl y 1)) j), (Z.testbit 0x1021 j); done.
Qed.
Lemma xmodem_bits_lxor js x y byte : fold_left (fun c i => xmodem_bit c (Z.testbit byte i)) js (Z.lxor x y) = Z.lxor (fold_left (fun c i => xmodem_bit c (Z.testbit 0 i)) js x) (fold_left (fun c i => xmodem_bit c (Z.testbit byte i)) js y).
Proof. revert x y. induction js as [|i js IH]; intros x y; [done|]. cbn [fold_left]. by rewrite xmodem_bit_lxor, IH, Z.bits_0. Qed.
Lemma xmodem_byte_lxor x y byte : xmodem_byte (Z.lxor x y) byte = Z.lxor (xmodem_byte x 0) (xmodem_byte y byte).
Proof. apply xmodem_bits_lxor. Qed.

(** The three columns of the table, by evaluation. *)
Definition crc16_table_ok (n : Z) : bool :=
  match crc16tab !! Z.to_nat n with Some t => (t =? xmodem_byte 0 n) && (t =? xmodem_byte (Z.shiftl n 8) 0) && (t =? u16 t) | None => false end && (Z.shiftl n 8 =? xmodem_byte n 0).
Lemma crc16_table n : in_u 8 n -> crc16tab !! Z.to_nat n = Some (xmodem_byte 0 n) /\ xmodem_byte (Z.shiftl n 8) 0 = xmodem_byte 0 n /\ xmodem_byte n 0 = Z.shiftl n 8 /\ u16 (xmodem_byte 0 n) = xmodem_byte 0 n.
Proof.
  intros Hn. assert (forallb crc16_table_ok (seqZ 0 256) = true) as H by (vm_compute; reflexivity). rewrite forallb_forall in H. specialize (H n). unfold crc16_table_ok in H. destruct (crc16tab !! Z.to_nat n) as [t|].
  - rewrite !andb_true_iff, !Z.eqb_eq in H. destruct H as [[[E1 E2] E4] E3]; [apply list_elem_of_In, elem_of_seqZ; unfold in_u in Hn; lia|]. by rewrite <- E1, <- E2, <- E3, <- E4.
  - discriminate H. apply list_elem_of_In, elem_of_seqZ. unfold in_u in Hn. lia.
Qed.

Lemma xmodem_split crc : in_u 16 crc -> crc = Z.lxor (Z.shiftl (Z.shiftr crc 8) 8) (Z.land crc 255) /\ in_u 8 (Z.shiftr crc 8) /\ u16 (Z.shiftl crc 8) = Z.shiftl (Z.land crc 255) 8.
Proof.
  intros Hc. destruct (byte_split crc) as [E Hb]. split_and!.
  - rewrite E at 1. rewrite Z.lxor_comm. f_equal. rewrite Z.shiftl_mul_pow2 by lia. lia.
  - unfold in_u in *. rewrite Z.shiftr_div_pow2 by lia. lia.
  - unfold wrap_u. rewrite <- Z.land_ones by lia. change 255 with (Z.ones 8). apply Z.bits_inj'. intros j Hj. rewrite Z.land_spec. destruct (Z.lt_ge_cases j 8); [by rewrite !Z.shiftl_spec_low by lia|]. rewrite !Z.shiftl_spec, Z.land_spec by lia. f_equal. destruct (Z.lt_ge_cases j 16); [by rewrite !Z.ones_spec_low by lia|by rewrite !Z.ones_spec_high by lia].
Qed.
Lemma lxor_byte a b : in_u 8 a -> in_u 8 b -> in_u 8 (Z.lxor a b) /\ Z.land (Z.lxor a (wrap_s 8 b)) 255 = Z.lxor a b.
Proof.
  intros Ha Hb. assert (Z.land (Z.lxor a b) 255 = Z.lxor a b) as E. { change 255 with (Z.ones 8). rewrite <- (wrap_u_id 8 a Ha), <- (wrap_u_id 8 b Hb). unfold wrap_u. rewrite <- !Z.land_ones by lia. apply Z.bits_inj'. intros j _. rewrite !Z.land_spec, !Z.lxor_spec, !Z.land_spec. by destruct (Z.testbit a j), (Z.testbit b j), (Z.testbit (Z.ones 8) j). }
  split; [rewrite <- E; apply low_byte|]. rewrite <- E. assert (Z.land (wrap_s 8 b) 255 = Z.land b 255) as Es. { change 255 with (Z.ones 8). rewrite !Z.land_ones by lia. unfold wrap_s, in_u in *. lia. }
  apply Z.bits_inj'. intros j _. apply (f_equal (fun z => Z.testbit z j)) in Es. rewrite !Z.land_spec in Es. rewrite !Z.land_spec, !Z.lxor_spec. by destruct (Z.testbit a j), (Z.testbit b j), (Z.testbit (wrap_s 8 b) j), (Z.testbit 255 j).
Qed.
Lemma crc16_byte_ok crc b : in_u 16 crc -> in_u 8 b -> crc16_byte crc b = inr (xmodem_byte crc b) /\ in_u 16 (xmodem_byte crc b).
Proof.
  intros Hc Hb. destruct (xmodem_split crc Hc) as (E & Hh & Es). set (hi := Z.shiftr crc 8) in *. set (lo := Z.land crc 255) in *. assert (in_u 8 lo) as Hlo by apply low_byte. destruct (lxor_byte hi b Hh Hb) as [Hx Ex].
  destruct (crc16_table _ Hx) as (T & T1 & _ & T3). destruct (crc16_table hi Hh) as (_ & Hh1 & _). destruct (crc16_table b Hb) as (_ & Hb1 & _). destruct (crc16_table lo Hlo) as (_ & _ & Hl2 & _).
  assert (u16 (Z.lxor (Z.shiftl crc 8) (xmodem_byte 0 (Z.lxor hi b))) = xmodem_byte crc b) as Ev.
  { rewrite u16_lxor, T3, Es. rewrite <- T1, Z.shiftl_lxor, xmodem_byte_lxor, Hh1, Hb1. rewrite <- (Z.lxor_0_r crc), xmodem_byte_lxor. rewrite E at 1. rewrite xmodem_byte_lxor, Hh1, Hl2. rewrite <- Z.lxor_assoc. f_equal. apply Z.lxor_comm. }
  split; [|rewrite <- Ev; by apply wrap_u_range]. unfold crc16_byte. fold hi. rewrite Ex, T. cbn [the mbind result_bind mret result_ret]. by rewrite Ev.
Qed.
Lemma for_each_turn {S A} (body : S -> A -> result S) s s' a l : body s a = inr s' -> for_each body s (a :: l) = for_each body s' l.
Proof. intros E. cbn [for_each]. by rewrite E. Qed.
Lemma fold_left_turn {S A} (f : S -> A -> S) s a l : fold_left f (a :: l) s = fold_left f l (f s a).
Proof. reflexivity. Qed.
Lemma crc16_loop s crc : is_bytes s -> in_u 16 crc -> for_each crc16_byte crc s = inr (fold_left xmodem_byte s crc) /\ in_u 16 (fold_left xmodem_byte s crc).
Proof.
  intros Hs. revert crc. induction Hs as [|b s Hb Hs IH]; intros crc Hc; [by split|]. destruct (crc16_byte_ok crc b Hc Hb) as [E Hn]. rewrite (for_each_turn _ _ _ _ _ E), fold_left_turn. exact (IH _ Hn).
Qed.
Lemma crc16_ok s : is_bytes s -> crc16 s = inr (xmodem s) /\ in_u 16 (xmodem s).
Proof. intros Hs. apply (crc16_loop s 0 Hs). unfold in_u. lia. Qed.

(** ** Hash slots *)

(** The tag of a key: what stands between its first brace and the next closing one. *)
Definition has_tag (key tag : bytes) : Prop := tag <> [] /\ exists p q, key = p ++ 123 :: tag ++ 125 :: q /\ 123 ∉ p /\ 125 ∉ tag.

Lemma find_char_spec ch i l : (find_char ch i l = i + length l /\ ch ∉ l)%nat \/ exists p q, l = p ++ ch :: q /\ ch ∉ p /\ find_char ch i l = (i + length p)%nat.
Proof.
  revert i. induction l as [|b l IH]; intros i; [left; split; [cbn; lia|apply not_elem_of_nil]|]. cbn [find_char]. destruct (Z.eqb_spec b ch) as [->|Hne].
  - right. exists [], l. split_and!; [done|apply not_elem_of_nil|cbn; lia].
  - destruct (IH (S i)) as [[-> Hn]|(p & q & -> & Hn & ->)]; [left; split; [cbn; lia|by apply not_elem_of_cons]|right]. exists (b :: p), q. split_and!; [done|by apply not_elem_of_cons|cbn; lia].
Qed.
(** The first occurrence is unique. *)
Lemma first_unique {A} (x : A) p q p' q' : p ++ x :: q = p' ++ x :: q' -> x ∉ p -> x ∉ p' -> p = p' /\ q = q'.
Proof.
  revert p'. induction p as [|a p IH]; intros [|a' p'] E H H'; cbn in E.
  - by injection E as ->.
  - injection E as -> _. exfalso. apply H'. by left.
  - injection E as -> _. exfalso. apply H. by left.
  - injection E as -> E. apply not_elem_of_cons in H as [_ H], H' as [_ H']. destruct (IH p' E H H') as [-> ->]. done.
Qed.
Lemma slot_ok s : is_bytes s -> (c ← crc16 s; mret (Z.land c 0x3fff)) = inr (xmodem s mod 16384).
Proof. intros Hs. destruct (crc16_ok s Hs) as [-> _]. cbn [mbind result_bind mret result_ret]. change 0x3fff with (Z.ones 14). by rewrite Z.land_ones. Qed.

(** What the two searches find. *)
Lemma keyHashSlot_cases key : is_bytes key ->
  (exists tag, has_tag key tag /\ keyHashSlot key = inr (xmodem tag mod 16384)) \/ ((forall tag, ~ has_tag key tag) /\ keyHashSlot key = inr (xmodem key mod 16384)).
Proof.
  intros Hk. unfold keyHashSlot. destruct (find_char_spec 123 0 key) as [[-> Hn]|(p & r & Ek & Hp & ->)].
  - right. rewrite Nat.eqb_refl, slot_ok by done. split; [|done]. intros tag (_ & p & q & -> & _). apply Hn. set_solver.
  - assert (length key = length p + 1 + length r)%nat as El by (rewrite Ek, length_app; cbn; lia). rewrite (proj2 (Nat.eqb_neq _ _)) by lia. cbn [Nat.add]. assert (drop (length p + 1) key = r) as Ed by (rewrite Ek, cons_middle, app_assoc; apply drop_app_length'; rewrite length_app; done). rewrite Ed.
    destruct (find_char_spec 125 (length p + 1) r) as [[-> Hn]|(tag & q & Er & Ht & ->)].
    + right. rewrite El, Nat.eqb_refl. cbn [orb]. rewrite slot_ok by done. split; [|done]. intros tag (_ & p' & q' & E & Hp' & _). rewrite Ek in E. destruct (first_unique _ _ _ _ _ E Hp Hp') as [_ ->]. apply Hn. set_solver.
    + rewrite Er, length_app in El. cbn in El. rewrite (proj2 (Nat.eqb_neq _ _)) by lia. cbn [orb]. destruct (Nat.eqb_spec (length p + 1 + length tag) (length p + 1)) as [E0|Hne].
      * right. rewrite slot_ok by done. split; [|done]. intros tag' (Hne & p' & q' & E & Hp' & Ht'). rewrite Ek in E. destruct (first_unique _ _ _ _ _ E Hp Hp') as [_ Er']. rewrite Er in Er'. destruct (first_unique _ _ _ _ _ Er' Ht Ht') as [<- _]. apply Hne. apply nil_length_inv. lia.
      * left. exists tag. split; [split; [intros ->; cbn in Hne; lia|]; exists p, q; by rewrite Ek, Er|]. replace (length p + 1 + length tag - length p - 1)%nat with (length tag) by lia. rewrite Er, take_app_length. apply slot_ok. rewrite Ek, Er in Hk. apply Forall_app in Hk as [_ Hk]. apply Forall_cons in Hk as [_ Hk]. by apply Forall_app in Hk as [Hk _].
Qed.

(** C22: The slot of a key is the CRC-16 of the comment, by division with 0x1021, modulo 16384: of its
    hash tag when it has one, so that keys with the same tag share a slot, and of the whole key
    otherwise. *)
Theorem keyHashSlot_correct key : is_bytes key ->
  (forall tag, has_tag key tag -> keyHashSlot key = inr (xmodem tag mod 16384)) /\ ((forall tag, ~ has_tag key tag) -> keyHashSlot key = inr (xmodem key mod 16384)).
Proof.
  intros Hk. destruct (keyHashSlot_cases key Hk) as [(tag & Htag & E)|[Hno E]]; (split; [intros tag' Htag'|intros Hnone]); [|by destruct (Hnone tag)|by destruct (Hno tag')|done].
  rewrite E. do 3 f_equal. destruct Htag as (_ & p & q & -> & Hp & Ht), Htag' as (_ & p' & q' & E' & Hp' & Ht'). destruct (first_unique _ _ _ _ _ E' Hp Hp') as [_ E2]. by destruct (first_unique _ _ _ _ _ E2 Ht Ht').
Qed.

(** [a{123456789}] *)
Lemma keyHashSlot_correct_witness : xmodem check_string = 0x31c3 /\ keyHashSlot ([97; 123] ++ check_string ++ [125]) = inr (0x31c3 mod 16384).
Proof.
  assert (xmodem check_string = 0x31c3) as E by (vm_compute; reflexivity). split; [exact E|]. rewrite <- E. apply (keyHashSlot_correct ([97; 123] ++ check_string ++ [125])).
  - cbn [app]. repeat (constructor; [unfold in_u; lia|]). constructor.
  - split; [discriminate|]. exists [97], []. split; [reflexivity|]. split; by_decide.
Defined.
