(* ===== verification/Sds.v ===== *)
(** * Simple dynamic strings

    sds.c and sds.h of Redis.  A string is one block: a packed header of one of five types, the
    bytes, a null byte and free space.  The pointer the callers hold is the offset of the bytes in
    the block; the header is reached backwards from it, and an access outside of the block is
    undefined behaviour.  The allocator may return more than it was asked for. *)

From S2P Require Import Prelude Bytes NumString StringMatch.

Record sds := mk_sds { block : bytes; base : nat }.

Definition SDS_TYPE_5 : Z := 0.
Definition SDS_TYPE_8 : Z := 1.
Definition SDS_TYPE_16 : Z := 2.
Definition SDS_TYPE_32 : Z := 3.
Definition SDS_TYPE_64 : Z := 4.
Definition SDS_TYPE_MASK : Z := 7.
Definition SDS_TYPE_BITS : Z := 3.
Definition SDS_MAX_PREALLOC : Z := 1024 * 1024.

(** [switch(flags&SDS_TYPE_MASK)]; the other types differ in the width of their fields. *)
Definition switch {A} (type : Z) (case5 : A) (case_width : nat -> A) (none : A) : A :=
  let t := Z.land type SDS_TYPE_MASK in
  if t =? SDS_TYPE_5 then case5 else if t =? SDS_TYPE_8 then case_width 1%nat else if t =? SDS_TYPE_16 then case_width 2%nat
  else if t =? SDS_TYPE_32 then case_width 4%nat else if t =? SDS_TYPE_64 then case_width 8%nat else none.

(** ** Memory *)

(** The [w] bytes that end [back] bytes before the string. *)
Definition load_back (s : sds) (w back : nat) : result Z := _ ← defined_if (w + back <=? base s)%nat; load w (base s - (w + back)) (block s).
Definition store_back (s : sds) (w back : nat) (v : Z) : result sds :=
  _ ← defined_if (w + back <=? base s)%nat; m ← store w (base s - (w + back)) v (block s); mret (mk_sds m (base s)).
(** [memcpy(s+k,bs,n)] and [s[k]]. *)
Definition put_at (s : sds) (k : Z) (bs : bytes) : result sds := m ← put_bytes (block s) (Z.of_nat (base s) + k) bs; mret (mk_sds m (base s)).
Definition get_at (s : sds) (k : Z) : result Z := byte_at (block s) (Z.of_nat (base s) + k).
Definition read_at (s : sds) (k n : Z) : result bytes := _ ← defined_if (0 <=? k); read (Z.to_nat n) (base s + Z.to_nat k) (block s).

(** ** sds.h *)

Definition flags_of (s : sds) : result Z := load_back s 1 0.
Definition sdslen (s : sds) : result Z :=
  flags ← flags_of s;
  switch flags (mret (Z.shiftr flags SDS_TYPE_BITS)) (fun w => load_back s w (w + 1)) (mret 0).
(** [sh->alloc - sh->len] is computed in 32 bits for the type 32, and in [int] for the smaller
    ones. *)
Definition sdsavail (s : sds) : result Z :=
  flags ← flags_of s;
  switch flags (mret 0)
    (fun w => alloc ← load_back s w 1; len ← load_back s w (w + 1); mret (u64 (if (w =? 4)%nat then u32 (alloc - len) else alloc - len))) (mret 0).
Definition sdssetlen (s : sds) (newlen : Z) : result sds :=
  flags ← flags_of s;
  switch flags (store_back s 1 0 (Z.lor SDS_TYPE_5 (Z.shiftl newlen SDS_TYPE_BITS))) (fun w => store_back s w (w + 1) newlen) (mret s).
Definition sdsinclen (s : sds) (inc : Z) : result sds :=
  flags ← flags_of s;
  switch flags
    (let newlen := u8 (Z.shiftr flags SDS_TYPE_BITS + inc) in store_back s 1 0 (Z.lor SDS_TYPE_5 (Z.shiftl newlen SDS_TYPE_BITS)))
    (fun w => len ← load_back s w (w + 1); store_back s w (w + 1) (len + inc)) (mret s).
Definition sdsalloc (s : sds) : result Z :=
  flags ← flags_of s;
  switch flags (mret (Z.shiftr flags SDS_TYPE_BITS)) (fun w => load_back s w 1) (mret 0).
Definition sdssetalloc (s : sds) (newlen : Z) : result sds :=
  flags ← flags_of s;
  switch flags (mret s) (fun w => store_back s w 1 newlen) (mret s).

(** ** Creation *)

Definition sdsHdrSize (type : Z) : nat := switch type 1%nat (fun w => w + w + 1)%nat 0%nat.
Definition sdsReqType (string_size : Z) : Z :=
  if string_size <? Z.shiftl 1 5 then SDS_TYPE_5 else if string_size <? Z.shiftl 1 8 then SDS_TYPE_8
  else if string_size <? Z.shiftl 1 16 then SDS_TYPE_16 else if string_size <? Z.shiftl 1 32 then SDS_TYPE_32 else SDS_TYPE_64.
Definition sdsTypeMaxSize (type : Z) : Z :=
  if type =? SDS_TYPE_5 then Z.shiftl 1 5 - 1 else if type =? SDS_TYPE_8 then Z.shiftl 1 8 - 1
  else if type =? SDS_TYPE_16 then Z.shiftl 1 16 - 1 else if type =? SDS_TYPE_32 then Z.shiftl 1 32 - 1 else u64 (-1).

(** [SDS_NOINIT], NULL, or the bytes at the pointer. *)
Inductive sdsinit := NoInit | Null | Init (bs : bytes).

Section Sds.
Context `{Allocator}.

Definition s_malloc (n : Z) : bytes := replicate (usable (Z.to_nat n)) junk.
Definition s_realloc (sh : bytes) (n : Z) : bytes := realloc junk (usable (Z.to_nat n)) (take (Z.to_nat n) sh).

(** [usable = usable-hdrlen-1], and at most what the type can hold. *)
Definition usable_of (m : bytes) (hdrlen : nat) (type : Z) : Z :=
  let u := u64 (Z.of_nat (length m) - Z.of_nat hdrlen - 1) in
  if sdsTypeMaxSize type <? u then sdsTypeMaxSize type else u.

Definition write_header (s : sds) (type initlen usable : Z) : result sds :=
  switch type (store_back s 1 0 (Z.lor type (Z.shiftl initlen SDS_TYPE_BITS)))
    (fun w => s ← store_back s w (w + 1) initlen; s ← store_back s w 1 usable; store_back s 1 0 type) (mret s).

Definition sdsnewlen (init : sdsinit) (initlen : Z) : result sds :=
  let type := sdsReqType initlen in
  let type := if (type =? SDS_TYPE_5) && (initlen =? 0) then SDS_TYPE_8 else type in
  let hdrlen := sdsHdrSize type in
  _ ← assert (initlen <? u64 (initlen + Z.of_nat hdrlen + 1));
  let size := u64 (Z.of_nat hdrlen + initlen + 1) in
  let sh := s_malloc size in
  sh ← match init with Null => put_bytes sh 0 (replicate (Z.to_nat size) 0) | _ => mret sh end;
  let s := mk_sds sh hdrlen in
  s ← write_header s type initlen (usable_of sh hdrlen type);
  s ← match init with Init bs => if initlen =? 0 then mret s else bs ← read (Z.to_nat initlen) 0 bs; put_at s 0 bs | _ => mret s end;
  put_at s initlen [0].

Definition sdsempty : result sds := sdsnewlen (Init []) 0.
Definition sdsdup (s : sds) : result sds := len ← sdslen s; bs ← read_at s 0 len; sdsnewlen (Init bs) len.

(** [strlen(s)] *)
Fixpoint strlen_of (m : bytes) : result Z := match m with [] => inl UndefinedBehaviour | b :: m => if b =? 0 then mret 0 else n ← strlen_of m; mret (n + 1) end.
Definition sdsupdatelen (s : sds) : result sds := reallen ← strlen_of (drop (base s) (block s)); sdssetlen s reallen.
Definition sdsclear (s : sds) : result sds := s ← sdssetlen s 0; put_at s 0 [0].

(** ** Room *)

Definition _sdsMakeRoomFor (s : sds) (addlen : Z) (greedy : bool) : result sds :=
  avail ← sdsavail s;
  flags ← flags_of s;
  let oldtype := Z.land flags SDS_TYPE_MASK in
  if addlen <=? avail then mret s else
  len ← sdslen s;
  let newlen := u64 (len + addlen) in
  let reqlen := newlen in
  _ ← assert (len <? newlen);
  let newlen := if greedy then if newlen <? SDS_MAX_PREALLOC then u64 (newlen * 2) else u64 (newlen + SDS_MAX_PREALLOC) else newlen in
  let type := sdsReqType newlen in
  let type := if type =? SDS_TYPE_5 then SDS_TYPE_8 else type in
  let hdrlen := sdsHdrSize type in
  let size := u64 (Z.of_nat hdrlen + newlen + 1) in
  _ ← assert (reqlen <? size);
  s ← (if oldtype =? type then mret (mk_sds (s_realloc (block s) size) hdrlen)
       else
         bs ← read_at s 0 (len + 1);
         let newsh := s_malloc size in
         s ← put_at (mk_sds newsh hdrlen) 0 bs;
         s ← store_back s 1 0 type;
         sdssetlen s len);
  sdssetalloc s (usable_of (block s) hdrlen type).
Definition sdsMakeRoomFor (s : sds) (addlen : Z) : result sds := _sdsMakeRoomFor s addlen true.
Definition sdsMakeRoomForNonGreedy (s : sds) (addlen : Z) : result sds := _sdsMakeRoomFor s addlen false.

(** With [jemalloc], a block that already has the size it would get is not reallocated. *)
Definition sdsResize (jemalloc : bool) (s : sds) (size : Z) (would_regrow : bool) : result sds :=
  flags ← flags_of s;
  let oldtype := Z.land flags SDS_TYPE_MASK in
  let oldhdrlen := sdsHdrSize oldtype in
  len ← sdslen s;
  alloc ← sdsalloc s;
  if alloc =? size then mret s else
  let len := if size <? len then size else len in
  let type := sdsReqType size in
  let type := if would_regrow && (type =? SDS_TYPE_5) then SDS_TYPE_8 else type in
  let hdrlen := sdsHdrSize type in
  let use_realloc := (oldtype =? type) || (type <? oldtype) && (SDS_TYPE_8 <? type) in
  let newlen := u64 (if use_realloc then Z.of_nat oldhdrlen + size + 1 else Z.of_nat hdrlen + size + 1) in
  let alloc_already_optimal := jemalloc && (usable (Z.to_nat newlen) =? length (block s))%nat in
  s ← (if use_realloc then mret (if alloc_already_optimal then s else mk_sds (s_realloc (block s) newlen) oldhdrlen)
       else
         bs ← read_at s 0 len;
         s ← put_at (mk_sds (s_malloc newlen) hdrlen) 0 bs;
         store_back s 1 0 type);
  s ← put_at s len [0];
  s ← sdssetlen s len;
  sdssetalloc s size.
Definition sdsRemoveFreeSpace (jemalloc : bool) (s : sds) (would_regrow : bool) : result sds := len ← sdslen s; sdsResize jemalloc s len would_regrow.
Definition sdsAllocSize (s : sds) : result Z := alloc ← sdsalloc s; flags ← flags_of s; mret (u64 (Z.of_nat (sdsHdrSize flags) + alloc + 1)).

(** ** Appending *)

Definition sdsIncrLen (s : sds) (incr : Z) : result sds :=
  flags ← flags_of s;
  '(s, len) ← switch flags
    (let oldlen := Z.shiftr flags SDS_TYPE_BITS in
     _ ← assert ((0 <? incr) && (oldlen + incr <? 32) || (incr <? 0) && (u32 (- incr) <=? oldlen));
     s ← store_back s 1 0 (Z.lor SDS_TYPE_5 (Z.shiftl (oldlen + incr) SDS_TYPE_BITS)); mret (s, u64 (oldlen + incr)))
    (fun w =>
     len ← load_back s w (w + 1); alloc ← load_back s w 1;
     let up := match w with 1%nat | 2%nat => incr <=? alloc - len | 4%nat => u32 incr <=? u32 (alloc - len) | _ => incr <=? u64 (alloc - len) end in
     let down := if (w =? 8)%nat then u64 (- incr) <=? len else u32 (- incr) <=? len in
     _ ← assert ((0 <=? incr) && up || (incr <? 0) && down);
     s ← store_back s w (w + 1) (len + incr); mret (s, wrap_u (8 * Z.of_nat w) (len + incr)))
    (mret (s, 0));
  put_at s len [0].

Definition sdsgrowzero (s : sds) (len : Z) : result sds :=
  curlen ← sdslen s;
  if len <=? curlen then mret s else
  s ← sdsMakeRoomFor s (len - curlen);
  s ← put_at s curlen (replicate (Z.to_nat (len - curlen + 1)) 0);
  sdssetlen s len.

(** The [len] bytes at [t]. *)
Definition sdscatlen (s : sds) (t : bytes) (len : Z) : result sds :=
  curlen ← sdslen s;
  s ← sdsMakeRoomFor s len;
  bs ← read (Z.to_nat len) 0 t;
  s ← put_at s curlen bs;
  s ← sdssetlen s (u64 (curlen + len));
  put_at s (u64 (curlen + len)) [0].
(** [t] without its null byte. *)
Definition sdscat (s : sds) (t : bytes) : result sds := len ← strlen_of (t ++ [0]); sdscatlen s (t ++ [0]) len.
Definition sdscatsds (s t : sds) : result sds := len ← sdslen t; sdscatlen s (drop (base t) (block t)) len.

Definition sdscpylen (s : sds) (t : bytes) (len : Z) : result sds :=
  alloc ← sdsalloc s;
  s ← (if alloc <? len then curlen ← sdslen s; sdsMakeRoomFor s (u64 (len - curlen)) else mret s);
  bs ← read (Z.to_nat len) 0 t;
  s ← put_at s 0 bs;
  s ← put_at s len [0];
  sdssetlen s len.

Definition sdsfromlonglong (value : Z) : result sds :=
  '(len, buf) ← ll2string (replicate (Z.to_nat LONG_STR_SIZE) junk) value;
  sdsnewlen (Init buf) len.

(** ** [sdscatfmt] *)

Inductive fmtarg := Str (s : bytes) | SdsArg (s : sds) | Int (n : Z).

(** [if (sdsavail(s) < l) s = sdsMakeRoomFor(s,l); memcpy(s+i,str,l); sdsinclen(s,l);] *)
Definition append (s : sds) (i : Z) (str : bytes) (l : Z) : result (sds * Z) :=
  avail ← sdsavail s;
  s ← (if avail <? l then sdsMakeRoomFor s l else mret s);
  bs ← read (Z.to_nat l) 0 str;
  s ← put_at s i bs;
  s ← sdsinclen s l;
  mret (s, i + l).
Definition append_char (s : sds) (i c : Z) : result (sds * Z) := s ← put_at s i [c]; s ← sdsinclen s 1; mret (s, i + 1).

(** [next], with the arguments that are left. *)
Definition directive (s : sds) (i next : Z) (ap : list fmtarg) : result (sds * Z * list fmtarg) :=
  let buf := replicate (Z.to_nat LONG_STR_SIZE) junk in
  if (next =? 115) || (next =? 83) then
    match ap with
    | Str str :: ap => if next =? 115 then l ← strlen_of (str ++ [0]); '(s, i) ← append s i (str ++ [0]) l; mret (s, i, ap) else inl UndefinedBehaviour
    | SdsArg t :: ap => if next =? 83 then l ← sdslen t; '(s, i) ← append s i (drop (base t) (block t)) l; mret (s, i, ap) else inl UndefinedBehaviour
    | _ => inl UndefinedBehaviour
    end
  else if (next =? 105) || (next =? 73) || (next =? 117) || (next =? 85) then
    match ap with
    | Int num :: ap =>
        '(l, buf) ← (if (next =? 105) then ll2string buf (wrap_s 32 num) else if (next =? 73) then ll2string buf (wrap_s 64 num)
                     else if (next =? 117) then ull2string buf (u32 num) else ull2string buf (u64 num));
        '(s, i) ← append s i buf l; mret (s, i, ap)
    | _ => inl UndefinedBehaviour
    end
  else '(s, i) ← append_char s i next; mret (s, i, ap).
(** [while( *f )] *)
Fixpoint fmt_loop (s : sds) (i : Z) (f : bytes) (ap : list fmtarg) : result (sds * Z) :=
  match f with
  | [] => mret (s, i)
  | c :: f' =>
      avail ← sdsavail s;
      s ← (if avail =? 0 then sdsMakeRoomFor s 1 else mret s);
      if c =? 37 then
        match f' with
        | [] => mret (s, i)
        | next :: f'' => '(s, i, ap) ← directive s i next ap; fmt_loop s i f'' ap
        end
      else '(s, i) ← append_char s i c; fmt_loop s i f' ap
  end.
(** [fmt] without its null byte. *)
Definition sdscatfmt (s : sds) (fmt : bytes) (ap : list fmtarg) : result sds :=
  initlen ← sdslen s;
  s ← sdsMakeRoomFor s (Z.of_nat (length fmt) * 2);
  '(s, i) ← fmt_loop s initlen fmt ap;
  put_at s i [0].

(** ** Editing *)

(** [strchr(cset, c)] finds the null byte at the end of [cset], too. *)
Definition strchr (cset : bytes) (c : Z) : bool := existsb (Z.eqb c) (cset ++ [0]).
Fixpoint trim_left (fuel : nat) (s : sds) (cset : bytes) (sp last : Z) : result Z :=
  if sp <=? last then
    c ← get_at s sp;
    if strchr cset c then match fuel with O => inl OutOfFuel | S fuel => trim_left fuel s cset (sp + 1) last end else mret sp
  else mret sp.
Fixpoint trim_right (fuel : nat) (s : sds) (cset : bytes) (sp ep : Z) : result Z :=
  if sp <? ep then
    c ← get_at s ep;
    if strchr cset c then match fuel with O => inl OutOfFuel | S fuel => trim_right fuel s cset sp (ep - 1) end else mret ep
  else mret ep.
Definition sdstrim (s : sds) (cset : bytes) : result sds :=
  l ← sdslen s;
  let last := l - 1 in
  sp ← trim_left (length (block s)) s cset 0 last;
  ep ← trim_right (length (block s)) s cset sp last;
  let len := ep - sp + 1 in
  s ← (if negb (sp =? 0) then bs ← read_at s sp len; put_at s 0 bs else mret s);
  s ← put_at s len [0];
  sdssetlen s len.

Definition sdssubstr (s : sds) (start len : Z) : result sds :=
  oldlen ← sdslen s;
  let '(start, len) := if oldlen <=? start then (0, 0) else (start, len) in
  let len := if u64 (oldlen - start) <? len then u64 (oldlen - start) else len in
  s ← (if negb (len =? 0) then bs ← read_at s start len; put_at s 0 bs else mret s);
  s ← put_at s len [0];
  sdssetlen s len.
Definition sdsrange (s : sds) (start last : Z) : result sds :=
  len ← sdslen s;
  if len =? 0 then mret s else
  let start := if start <? 0 then i64 (len + start) else start in
  let last := if last <? 0 then i64 (len + last) else last in
  newlen ← (if last <? start then mret 0 else _ ← defined_if (last - start + 1 <? 2 ^ 63); mret (last - start + 1));
  sdssubstr s (u64 start) newlen.

(** [for (j = 0; j < len; j++) s[j] = f(s[j]);] *)
Definition map_turn (f : Z -> Z) (s : sds) (j : Z) : result sds := c ← get_at s j; put_at s j [f c].
Definition toupper (c : Z) : Z := if (97 <=? c) && (c <=? 122) then c - 32 else c.
Definition sdstolower (s : sds) : result sds := len ← sdslen s; for_each (map_turn tolower) s (seqZ 0 len).
Definition sdstoupper (s : sds) : result sds := len ← sdslen s; for_each (map_turn toupper) s (seqZ 0 len).
(** The first character of [from] that is equal. *)
Fixpoint map_char (from to : bytes) (c : Z) : Z :=
  match from, to with f :: from, t :: to => if c =? f then t else map_char from to c | _, _ => c end.
Definition sdsmapchars (s : sds) (from to : bytes) : result sds := l ← sdslen s; for_each (map_turn (map_char from to)) s (seqZ 0 l).
End Sds.
