(* ===== verification/SdsFacts.v ===== *)
(** * Simple dynamic strings: representation

    What a block holds, as [mk type length allocation body], with the header in front of the
    body.  Each access of sds.h and sds.c is an equation on [mk]; [rep s str] says that [s]
    stands for the bytes [str], followed by a null byte, within its allocation. *)

From S2P Require Import Prelude Bytes NumString Sds.

(** The width of the fields of the types other than [SDS_TYPE_5]. *)
Definition width (ty : Z) : nat := if ty =? 1 then 1 else if ty =? 2 then 2 else if ty =? 3 then 4 else 8.
Definition hdr (ty l a : Z) : bytes := if ty =? 0 then [8 * l] else le_bytes (width ty) l ++ le_bytes (width ty) a ++ [ty].
Definition mk (ty l a : Z) (body : bytes) : sds := mk_sds (hdr ty l a ++ body) (sdsHdrSize ty).
Definition is_type (ty : Z) : Prop := 0 <= ty <= 4.
Definition fits (ty v : Z) : Prop := 0 <= v <= sdsTypeMaxSize ty.

Lemma type_cases ty : is_type ty -> ty = 0 \/ ty = 1 \/ ty = 2 \/ ty = 3 \/ ty = 4.
Proof. unfold is_type. lia. Qed.
Ltac by_type H := apply type_cases in H as [->|[->|[->|[->| ->]]]].

Lemma length_hdr ty l a : is_type ty -> length (hdr ty l a) = sdsHdrSize ty.
Proof. intros H. by_type H; reflexivity. Qed.

Lemma hdr_width ty l a : is_type ty -> ty <> 0 -> hdr ty l a = le_bytes (width ty) l ++ le_bytes (width ty) a ++ [ty].
Proof. intros _ H. unfold hdr. by rewrite (proj2 (Z.eqb_neq _ _)). Qed.

Lemma size_width ty : is_type ty -> ty <> 0 -> sdsHdrSize ty = (width ty + width ty + 1)%nat.
Proof. intros H H0. by_type H; done. Qed.

Lemma switch_5 {A} l (c5 : A) cw none : 0 <= l -> switch (8 * l) c5 cw none = c5.
Proof.
  intros H. unfold switch, SDS_TYPE_MASK. change 7 with (Z.ones 3). rewrite Z.land_ones by lia.
  rewrite Z.mul_comm, Z.mod_mul by lia. done.
Qed.

Lemma switch_0 {A} (c5 : A) cw none : switch 0 c5 cw none = c5.
Proof. done. Qed.

Lemma switch_width {A} ty (c5 : A) cw none : is_type ty -> ty <> 0 -> switch ty c5 cw none = cw (width ty).
Proof. intros H H0. by_type H; done. Qed.

Lemma le_val_fits ty v : is_type ty -> fits ty v -> le_val (le_bytes (width ty) v) = v.
Proof.
  intros H [H1 H2]. rewrite le_val_wrap. apply wrap_u_id. split; [lia|].
  by_type H; cbv -[Z.le Z.lt] in H2 |- *; lia.
Qed.

Lemma load_parts (n : nat) pre bs post : length bs = n -> load n (length pre) (pre ++ bs ++ post) = inr (le_val bs).
Proof.
  intros <-. rewrite load_ok by (rewrite !length_app; lia). by rewrite drop_app_length, take_app_length.
Qed.

Lemma store_parts (n : nat) pre bs post v :
  length bs = n -> store n (length pre) v (pre ++ bs ++ post) = inr (pre ++ le_bytes n v ++ post).
Proof. intros H. unfold store. apply write_app. by rewrite length_le_bytes. Qed.

(** ** The fields of the header *)

(** A block with the fields of width [w], whatever their bytes are. *)
Definition raw (w : nat) (len alloc : bytes) (flags : Z) (body : bytes) : sds := mk_sds (len ++ alloc ++ [flags] ++ body) (w + w + 1).

Section Fields.
Context (w : nat) (L A : bytes) (f : Z) (body : bytes) (HL : length L = w) (HA : length A = w).

Lemma back_ok (n back : nat) : (n + back <= w + w + 1)%nat -> (n + back <=? base (raw w L A f body))%nat = true.
Proof. intros. by apply Nat.leb_le. Qed.

Lemma load_len : load_back (raw w L A f body) w (w + 1) = inr (le_val L).
Proof.
unfold load_back. rewrite back_ok by lia. cbn [defined_if mbind result_bind raw base block].
replace (w + w + 1 - (w + (w + 1)))%nat with (length (@nil Z)) by (cbn [length]; lia). by apply (load_parts w [] L).
Qed.

Lemma load_alloc : load_back (raw w L A f body) w 1 = inr (le_val A).
Proof.
unfold load_back. rewrite back_ok by lia. cbn [defined_if mbind result_bind raw base block].
replace (w + w + 1 - (w + 1))%nat with (length L) by lia. by apply load_parts.
Qed.

Lemma load_flags : load_back (raw w L A f body) 1 0 = inr f.
Proof.
unfold load_back. rewrite back_ok by lia. cbn [defined_if mbind result_bind raw base block].
replace (w + w + 1 - (1 + 0))%nat with (length (L ++ A)) by (rewrite length_app; lia).
rewrite app_assoc, load_parts by done. cbn [le_val]. f_equal. lia.
Qed.

Lemma store_len v : store_back (raw w L A f body) w (w + 1) v = inr (raw w (le_bytes w v) A f body).
Proof.
unfold store_back. rewrite back_ok by lia. cbn [defined_if mbind result_bind raw base block].
replace (w + w + 1 - (w + (w + 1)))%nat with (length (@nil Z)) by (cbn [length]; lia).
pose proof (store_parts w [] L (A ++ [f] ++ body) v HL) as E. rewrite !app_nil_l in E. by rewrite E.
Qed.

Lemma store_alloc v : store_back (raw w L A f body) w 1 v = inr (raw w L (le_bytes w v) f body).
Proof.
unfold store_back. rewrite back_ok by lia. cbn [defined_if mbind result_bind raw base block].
replace (w + w + 1 - (w + 1))%nat with (length L) by lia. by rewrite store_parts.
Qed.

Lemma store_flags v : in_u 8 v -> store_back (raw w L A f body) 1 0 v = inr (raw w L A v body).
Proof.
intros Hv. unfold store_back. rewrite back_ok by lia. cbn [defined_if mbind result_bind raw base block].
replace (w + w + 1 - (1 + 0))%nat with (length (L ++ A)) by (rewrite length_app; lia).
rewrite app_assoc, store_parts by done. cbn [mbind result_bind le_bytes]. rewrite Z.mod_small by exact Hv. by rewrite <- app_assoc.
Qed.
End Fields.

(** Any block is one with fields. *)
Lemma raw_of (w : nat) m :
  (w + w + 1 <= length m)%nat -> exists L A f, mk_sds m (w + w + 1) = raw w L A f (drop (w + w + 1) m) /\ length L = w /\ length A = w.
Proof.
  intros H. destruct (drop (w + w) m) as [|f r] eqn:E; [apply (f_equal length) in E; rewrite length_drop in E; simpl in E; lia|].
  exists (take w m), (take w (drop w m)), f. rewrite !length_take, length_drop. repeat split; [|lia..]. unfold raw. f_equal.
  rewrite <- (take_drop w m) at 1. f_equal. rewrite <- (take_drop w (drop w m)) at 1. f_equal. rewrite drop_drop, E.
  cbn [app]. f_equal. by rewrite <- drop_drop, E.
Qed.

Lemma mk_raw ty l a body :
  is_type ty -> ty <> 0 -> mk ty l a body = raw (width ty) (le_bytes (width ty) l) (le_bytes (width ty) a) ty body.
Proof. intros H H0. unfold mk, raw. rewrite hdr_width, size_width by done. by rewrite <- !app_assoc. Qed.

(** [SDS_TYPE_5] *)
Lemma load_flags_5 f body : load_back (mk_sds (f :: body) 1) 1 0 = inr f.
Proof. cbv -[Z.mul Z.add]. f_equal. lia. Qed.

Lemma store_flags_5 f body v : in_u 8 v -> store_back (mk_sds (f :: body) 1) 1 0 v = inr (mk_sds (v :: body) 1).
Proof.
  intros Hv. unfold store_back. cbn -[store]. pose proof (store_parts 1 [] [f] body v eq_refl) as E. cbn [length app] in E. rewrite E.
  cbn [mbind result_bind le_bytes app]. by rewrite Z.mod_small by exact Hv.
Qed.

Lemma type_5 v : Z.lor SDS_TYPE_5 (Z.shiftl v SDS_TYPE_BITS) = 8 * v.
Proof. unfold SDS_TYPE_5, SDS_TYPE_BITS. rewrite Z.lor_0_l, Z.shiftl_mul_pow2 by lia. lia. Qed.

Lemma len_5 l : Z.shiftr (8 * l) SDS_TYPE_BITS = l.
Proof. unfold SDS_TYPE_BITS. rewrite Z.shiftr_div_pow2, Z.mul_comm by lia. by apply Z.div_mul. Qed.

(** ** sds.h *)

Section Header.
Context (ty l a : Z) (body : bytes) (Hty : is_type ty) (Hl : fits ty l).

Ltac five := unfold mk, hdr; cbn [Z.eqb app]; change (sdsHdrSize 0) with 1%nat.
Ltac by_kind := destruct (Z.eq_dec ty 0) as [->|H0]; [five|rewrite ?mk_raw by done].
Ltac steps := cbn [mbind result_bind mret result_ret].

Definition flag_byte : Z := if ty =? 0 then 8 * l else ty.

Lemma flags_mk : flags_of (mk ty l a body) = inr flag_byte.
Proof.
unfold flags_of, flag_byte. by_kind; [apply load_flags_5|]. rewrite load_flags by apply length_le_bytes.
by rewrite (proj2 (Z.eqb_neq _ _)).
Qed.

Lemma flag_type : Z.land flag_byte SDS_TYPE_MASK = ty.
Proof.
unfold flag_byte, SDS_TYPE_MASK. destruct (Z.eqb_spec ty 0) as [->|].
- change 7 with (Z.ones 3). rewrite Z.land_ones, Z.mul_comm by lia. by apply Z.mod_mul.
- by_type Hty; done.
Qed.

Lemma switch_mk {A} (c5 : A) cw none : switch flag_byte c5 cw none = if ty =? 0 then c5 else cw (width ty).
Proof.
unfold switch. rewrite flag_type. by_type Hty; done.
Qed.

Lemma sdslen_mk : sdslen (mk ty l a body) = inr l.
Proof.
unfold sdslen. rewrite flags_mk. steps. rewrite switch_mk. unfold flag_byte. by_kind; [cbn [Z.eqb]; by rewrite len_5|].
rewrite (proj2 (Z.eqb_neq _ _)), load_len by (done || apply length_le_bytes). by rewrite le_val_fits.
Qed.

Lemma flag_5_range v : fits 0 v -> in_u 8 (8 * v).
Proof. intros [H1 H2]. change (sdsTypeMaxSize 0) with 31 in H2. unfold in_u. lia. Qed.

Lemma sdssetlen_mk v : fits ty v -> sdssetlen (mk ty l a body) v = inr (mk ty v a body).
Proof.
intros Hv. unfold sdssetlen. rewrite flags_mk. steps. rewrite switch_mk. by_kind.
- cbn [Z.eqb]. rewrite type_5. by apply store_flags_5, flag_5_range.
- by rewrite (proj2 (Z.eqb_neq _ _)), store_len by (done || apply length_le_bytes).
Qed.

Lemma sdsinclen_mk i : fits ty (l + i) -> sdsinclen (mk ty l a body) i = inr (mk ty (l + i) a body).
Proof.
intros Hv. unfold sdsinclen. rewrite flags_mk. steps. rewrite switch_mk. unfold flag_byte. by_kind.
- cbn [Z.eqb]. rewrite len_5, type_5. pose proof (flag_5_range _ Hv) as [? ?]. rewrite (wrap_u_id 8 (l + i)) by (unfold in_u; lia).
  by apply store_flags_5, flag_5_range.
- rewrite (proj2 (Z.eqb_neq _ _)), load_len by (done || apply length_le_bytes). steps. rewrite le_val_fits by done.
  by rewrite store_len by apply length_le_bytes.
Qed.

Lemma sdssetalloc_mk v : sdssetalloc (mk ty l a body) v = inr (mk ty l v body).
Proof.
unfold sdssetalloc. rewrite flags_mk. steps. rewrite switch_mk. by_kind; [done|].
by rewrite (proj2 (Z.eqb_neq _ _)), store_alloc by (done || apply length_le_bytes).
Qed.
Context (Ha : fits ty a).

Lemma sdsalloc_mk : sdsalloc (mk ty l a body) = inr (if ty =? 0 then l else a).
Proof.
unfold sdsalloc. rewrite flags_mk. steps. rewrite switch_mk. unfold flag_byte. by_kind; [cbn [Z.eqb]; by rewrite len_5|].
rewrite (proj2 (Z.eqb_neq _ _)), load_alloc by (done || apply length_le_bytes). by rewrite le_val_fits.
Qed.

Lemma sdsavail_mk : l <= a -> sdsavail (mk ty l a body) = inr (if ty =? 0 then 0 else u64 (a - l)).
Proof.
intros Hla. unfold sdsavail. rewrite flags_mk. steps. rewrite switch_mk. by_kind; [done|].
rewrite (proj2 (Z.eqb_neq _ _)), load_alloc by (done || apply length_le_bytes). steps.
rewrite load_len by apply length_le_bytes. steps. rewrite !le_val_fits by done. do 2 f_equal. unfold fits in *.
destruct (Nat.eqb_spec (width ty) 4) as [E4|]; [|done]. apply wrap_u_id. unfold in_u.
destruct (type_cases _ Hty) as [->|[->|[->|[->| ->]]]]; try done; vm_compute (sdsTypeMaxSize 3) in Hl, Ha; lia.
Qed.
End Header.
