(* ===== verification/SdsRep.v ===== *)
(** * Simple dynamic strings: creation and room

    [holds x s str n]: the block has the bytes [str], then [x], and room for [n] more bytes; with
    a null byte in the place of [x] it is [room s str n].  The functions that allocate, for every
    allocator. *)

From S2P Require Import Prelude Bytes NumString Sds SdsFacts.

(** ** The bytes after the header *)

Lemma put_at_parts (h pre old new post : bytes) (k : Z) :
  k = len_ pre -> length old = length new ->
  put_at (mk_sds (h ++ pre ++ old ++ post) (length h)) k new = inr (mk_sds (h ++ pre ++ new ++ post) (length h)).
Proof.
  intros -> E. unfold put_at. cbn [block base]. rewrite !(app_assoc h), (put_app (h ++ pre) old new) by (rewrite ?length_app; lia). done.
Qed.

Lemma put_mk ty l a pre old new post k :
  is_type ty -> k = len_ pre -> length old = length new -> put_at (mk ty l a (pre ++ old ++ post)) k new = inr (mk ty l a (pre ++ new ++ post)).
Proof. intros H Hk E. unfold mk. rewrite <- (length_hdr ty l a H). by apply put_at_parts. Qed.

Lemma get_mk ty l a pre c post k : is_type ty -> k = len_ pre -> get_at (mk ty l a (pre ++ c :: post)) k = inr c.
Proof.
  intros H ->. unfold get_at, mk. cbn [block base]. rewrite <- (length_hdr ty l a H), app_assoc.
  replace (_ + _) with (len_ (hdr ty l a ++ pre)) by (rewrite length_app; lia). apply byte_at_app.
Qed.

Lemma read_parts n k pre x post : n = length x -> k = length pre -> read n k (pre ++ x ++ post) = inr x.
Proof. intros -> ->. rewrite read_ok by (rewrite !length_app; lia). by rewrite drop_app_length, take_app_length. Qed.

Lemma read_mk ty l a pre x post k n : is_type ty -> k = len_ pre -> n = len_ x -> read_at (mk ty l a (pre ++ x ++ post)) k n = inr x.
Proof.
  intros H -> ->. unfold read_at, mk. cbn [block base]. rewrite (proj2 (Z.leb_le _ _)) by lia. cbn [defined_if mbind result_bind].
  rewrite !Nat2Z.id, <- (length_hdr ty l a H), app_assoc. apply read_parts; [done|by rewrite length_app].
Qed.

(** ** A new header *)

(** The type is written, the fields may not be yet. *)
Definition flagged (ty : Z) (s : sds) (body : bytes) : Prop :=
  if ty =? 0 then exists f, s = mk_sds (f :: body) 1 /\ exists l, fits 0 l /\ f = 8 * l
  else exists L A, s = raw (width ty) L A ty body /\ length L = width ty /\ length A = width ty.

Section Flagged.
Context (ty : Z) (Hty : is_type ty).

Lemma flagged_mk l a body : fits ty l -> flagged ty (mk ty l a body) body.
Proof.
intros Hl. unfold flagged. destruct (Z.eqb_spec ty 0) as [->|H0]; [by exists (8 * l); eauto|].
eexists _, _. split; [by apply mk_raw|]. by rewrite !length_le_bytes.
Qed.

Lemma flagged_length s body : flagged ty s body -> length (block s) = (sdsHdrSize ty + length body)%nat.
Proof.
unfold flagged. destruct (Z.eqb_spec ty 0) as [->|H0]; [by intros (f & -> & _)|].
intros (L & A & -> & HL & HA). cbn [raw block]. rewrite !length_app, HL, HA, size_width by done. cbn [length]. lia.
Qed.

Lemma store_type m : (sdsHdrSize ty <= length m)%nat ->
  exists s, store_back (mk_sds m (sdsHdrSize ty)) 1 0 ty = inr s /\ flagged ty s (drop (sdsHdrSize ty) m).
Proof.
intros Hm. unfold flagged. destruct (Z.eqb_spec ty 0) as [->|H0].
- destruct m as [|f m]; [cbv in Hm; lia|]. change (sdsHdrSize 0) with 1%nat. rewrite store_flags_5 by (unfold in_u; lia).
  eexists. split; [done|]. exists 0. split; [done|]. by exists 0.
- rewrite size_width in * by done. destruct (raw_of (width ty) m Hm) as (L & A & f & -> & HL & HA).
  rewrite store_flags by (done || unfold in_u, is_type in *; lia). eauto 8.
Qed.

Lemma put_flagged s pre old new post k :
  flagged ty s (pre ++ old ++ post) -> k = len_ pre -> length old = length new ->
  exists s', put_at s k new = inr s' /\ flagged ty s' (pre ++ new ++ post).
Proof.
unfold flagged. intros H Hk E. destruct (Z.eqb_spec ty 0) as [->|H0].
- destruct H as (f & -> & Hf). pose proof (put_at_parts [f] pre old new post k Hk E) as Ep. cbn [app length] in Ep. rewrite Ep. eauto.
- destruct H as (L & A & -> & HL & HA). pose proof (put_at_parts (L ++ A ++ [ty]) pre old new post k Hk E) as Ep.
  rewrite <- !app_assoc, !length_app, HL, HA in Ep. cbn [length] in Ep. rewrite Nat.add_assoc in Ep. unfold raw. rewrite Ep. eauto 8.
Qed.

Lemma set_flagged s body l a :
  flagged ty s body -> fits ty l ->
  exists s', sdssetlen s l = inr s' /\ length (block s') = length (block s) /\ sdssetalloc s' a = inr (mk ty l a body).
Proof.
intros H Hl. pose proof (flagged_length _ _ H) as Elen. unfold flagged in H. destruct (Z.eqb_spec ty 0) as [->|H0].
- destruct H as (f & -> & l0 & Hl0 & ->). change (mk_sds (8 * l0 :: body) 1) with (mk 0 l0 0 body). rewrite sdssetlen_mk by done.
  eexists. split; [done|]. split; [done|]. apply (sdssetalloc_mk 0 l 0 body Hty Hl).
- destruct H as (L & A & -> & HL & HA). unfold sdssetlen, sdssetalloc, flags_of. rewrite load_flags by done.
  cbn [mbind result_bind]. rewrite switch_width, store_len by done. eexists. split; [done|].
  split; [cbn [raw block]; rewrite !length_app, length_le_bytes; lia|].
  rewrite load_flags by (done || apply length_le_bytes). cbn [mbind result_bind].
  by rewrite switch_width, store_alloc, mk_raw by (done || apply length_le_bytes).
Qed.

Lemma write_header_ok m l a : (sdsHdrSize ty <= length m)%nat -> fits ty l ->
  write_header (mk_sds m (sdsHdrSize ty)) ty l a = inr (mk ty l a (drop (sdsHdrSize ty) m)).
Proof.
intros Hm Hl. unfold write_header. destruct (Z.eq_dec ty 0) as [->|H0].
- destruct m as [|f m]; [cbv in Hm; lia|]. rewrite switch_0. change (Z.lor 0) with (Z.lor SDS_TYPE_5). rewrite type_5.
  change (sdsHdrSize 0) with 1%nat. rewrite store_flags_5 by (by apply flag_5_range). done.
- rewrite size_width in * by done. rewrite switch_width by done. destruct (raw_of (width ty) m Hm) as (L & A & f & -> & HL & HA).
  rewrite store_len by done. cbn [mbind result_bind]. rewrite store_alloc by (done || apply length_le_bytes). cbn [mbind result_bind].
  rewrite store_flags by (apply length_le_bytes || unfold in_u, is_type in *; lia). by rewrite mk_raw.
Qed.
End Flagged.

(** ** What a block stands for *)

Definition holds (x : Z) (s : sds) (str : bytes) (n : Z) : Prop :=
  exists ty a slack, s = mk ty (len_ str) a (str ++ x :: slack) /\ is_type ty /\ fits ty (len_ str) /\ fits ty a /\
    len_ str + n <= a <= len_ str + len_ slack /\ (ty = 0 -> a = len_ str).
Definition room := holds 0.
Definition rep (s : sds) (str : bytes) : Prop := room s str 0.

Lemma fits_req v : 0 <= v < 2 ^ 64 -> is_type (sdsReqType v) /\ fits (sdsReqType v) v.
Proof.
  intros [H1 H2]. unfold sdsReqType, fits, is_type.
  change (Z.shiftl 1 5) with 32. change (Z.shiftl 1 8) with 256. change (Z.shiftl 1 16) with 65536. change (Z.shiftl 1 32) with 4294967296.
  destruct (Z.ltb_spec v 32); [change (sdsTypeMaxSize SDS_TYPE_5) with 31; unfold SDS_TYPE_5; lia|].
  destruct (Z.ltb_spec v 256); [change (sdsTypeMaxSize SDS_TYPE_8) with 255; unfold SDS_TYPE_8; lia|].
  destruct (Z.ltb_spec v 65536); [change (sdsTypeMaxSize SDS_TYPE_16) with 65535; unfold SDS_TYPE_16; lia|].
  destruct (Z.ltb_spec v 4294967296); [change (sdsTypeMaxSize SDS_TYPE_32) with 4294967295; unfold SDS_TYPE_32; lia|].
  change (sdsTypeMaxSize SDS_TYPE_64) with (2 ^ 64 - 1). unfold SDS_TYPE_64. lia.
Qed.

Lemma fits_8 v : fits 0 v -> fits 1 v.
Proof. unfold fits. change (sdsTypeMaxSize 0) with 31. change (sdsTypeMaxSize 1) with 255. lia. Qed.

(** [type], with [SDS_TYPE_8] in the place of [SDS_TYPE_5] where the code says so. *)
Lemma fits_promoted (b : bool) v :
  0 <= v < 2 ^ 64 -> let ty := if b && (sdsReqType v =? SDS_TYPE_5) then SDS_TYPE_8 else sdsReqType v in is_type ty /\ fits ty v.
Proof.
  intros H ty. subst ty. apply fits_req in H as [H1 H2]. destruct b; [|done]. cbn [andb]. unfold SDS_TYPE_5, SDS_TYPE_8.
  destruct (Z.eqb_spec (sdsReqType v) 0) as [E|]; [|done]. rewrite E in H2. split; [by unfold is_type|by apply fits_8].
Qed.

Lemma hdr_small ty : is_type ty -> (1 <= sdsHdrSize ty <= 17)%nat.
Proof. intros H. by_type H; cbv; lia. Qed.

Lemma max_small ty : is_type ty -> 31 <= sdsTypeMaxSize ty < 2 ^ 64.
Proof. intros H. by_type H; (split; [by vm_compute|by vm_compute]). Qed.

Section Allocation.
Context `{Allocator}.

Lemma length_s_malloc n : length (s_malloc n) = usable (Z.to_nat n).
Proof. apply length_replicate. Qed.

Lemma usable_of_ok m (hdrlen : nat) ty :
  is_type ty -> Z.of_nat hdrlen + 1 <= len_ m < 2 ^ 64 -> usable_of m hdrlen ty = Z.min (sdsTypeMaxSize ty) (len_ m - Z.of_nat hdrlen - 1).
Proof.
intros Hty Hm. unfold usable_of. rewrite (wrap_u_id 64) by (unfold in_u; lia).
destruct (Z.ltb_spec (sdsTypeMaxSize ty) (len_ m - Z.of_nat hdrlen - 1)); lia.
Qed.

(** The allocation is what the block has, or what the type can hold. *)
Lemma holds_mk x ty a str slack n :
  is_type ty -> fits ty (len_ str) -> 0 <= n -> (ty = 0 -> n = 0) -> (ty <> 0 -> fits ty (len_ str + n)) -> n <= len_ slack ->
  a = Z.min (sdsTypeMaxSize ty) (len_ str + len_ slack) -> holds x (mk ty (len_ str) a (str ++ x :: slack)) str n.
Proof.
intros Hty Hl Hn H0 H1 Hs ->. destruct (Z.eq_dec ty 0) as [E|Hne].
- subst ty. specialize (H0 eq_refl). exists 0, (len_ str), slack. unfold fits in *. repeat split; try done; lia.
- eexists ty, _, slack. specialize (H1 Hne). pose proof (max_small ty Hty). unfold fits, is_type in *. repeat split; try done; lia.
Qed.

Lemma split_body (m : bytes) (h n : nat) :
  (h + n + 1 <= length m)%nat -> exists old x slack, drop h m = old ++ x :: slack /\ length old = n /\ length m = (h + n + 1 + length slack)%nat.
Proof.
intros Hm. exists (take n (drop h m)). destruct (drop n (drop h m)) as [|x slack] eqn:E.
- apply (f_equal length) in E. rewrite !length_drop in E. cbn [length] in E. lia.
- exists x, slack. rewrite <- E, take_drop, length_take, length_drop. split; [done|]. split; [lia|].
  apply (f_equal length) in E. rewrite !length_drop in E. cbn [length] in E. lia.
Qed.

Lemma malloc_size n : 0 <= n < 2 ^ 63 -> n <= Z.of_nat (usable (Z.to_nat n)) < 2 ^ 64.
Proof. intros Hn. pose proof (usable_enough (Z.to_nat n)). pose proof (usable_size_t (Z.to_nat n)). lia. Qed.

Lemma zeroed size h n :
  0 <= size -> (Z.to_nat size <= usable (Z.to_nat size))%nat -> Z.of_nat (h + n) <= size ->
  exists m, put_bytes (s_malloc size) 0 (replicate (Z.to_nat size) 0) = inr m /\ length m = usable (Z.to_nat size) /\
    take n (drop h m) = replicate n 0.
Proof.
intros H0 Hu Hn. unfold put_bytes. cbn [Z.leb Z.compare defined_if mbind result_bind]. change (Z.to_nat 0) with 0%nat.
rewrite write_ok by (rewrite length_replicate, length_s_malloc; lia). eexists. split; [done|].
rewrite take_0, length_replicate, app_nil_l. split; [rewrite length_app, length_drop, length_s_malloc, length_replicate; lia|].
rewrite drop_app_le by (rewrite length_replicate; lia). rewrite drop_replicate, take_app_le by (rewrite length_replicate; lia).
rewrite take_replicate. f_equal. lia.
Qed.

(** What the new string holds. *)
Definition initial (init : sdsinit) (str : bytes) : Prop :=
  match init with Init bs => exists rest, bs = str ++ rest | Null => str = replicate (length str) 0 | NoInit => str = replicate (length str) junk end.

Lemma fresh_block init str size h :
  initial init str -> Z.of_nat (h + length str + 1) = size -> size < 2 ^ 63 ->
  exists m, (match init with Null => put_bytes (s_malloc size) 0 (replicate (Z.to_nat size) 0) | _ => mret (s_malloc size) end) = inr m
    /\ length m = usable (Z.to_nat size) /\ (match init with Init _ => True | _ => take (length str) (drop h m) = str end).
Proof.
intros Hinit Hs Hlt. pose proof (malloc_size size ltac:(lia)) as Hsize. destruct init as [| |bs].
- eexists. split; [done|]. split; [apply length_s_malloc|]. unfold s_malloc.
  rewrite drop_replicate, take_replicate, Nat.min_l by lia. by symmetry.
- destruct (zeroed size h (length str)) as (m & E & Hm & Hz); [lia..|]. exists m. rewrite E, Hz. split; [done|]. split; [done|by symmetry].
- eexists. split; [done|]. split; [apply length_s_malloc|done].
Qed.

Lemma fill_new ty a init str old x slack :
  is_type ty -> initial init str -> length old = length str ->
  match init with Init _ => True | _ => old = str end ->
  (s ← match init with
       | Init bs => if len_ str =? 0 then mret (mk ty (len_ str) a (old ++ x :: slack))
                    else bs ← read (Z.to_nat (len_ str)) 0 bs; put_at (mk ty (len_ str) a (old ++ x :: slack)) 0 bs
       | _ => mret (mk ty (len_ str) a (old ++ x :: slack)) end;
   put_at s (len_ str) [0]) = inr (mk ty (len_ str) a (str ++ 0 :: slack)).
Proof.
intros Hty Hi Ho Hc.
assert (put_at (mk ty (len_ str) a (str ++ x :: slack)) (len_ str) [0] = inr (mk ty (len_ str) a (str ++ 0 :: slack))) as E0
  by (apply (put_mk ty (len_ str) a str [x] [0] slack); done).
destruct init as [| |bs]; [by subst old..|]. destruct Hi as [rest ->]. destruct (Z.eqb_spec (len_ str) 0) as [Ez|].
- assert (str = []) as -> by (destruct str; [done|cbn [length] in Ez; lia]). destruct old; [|done]. exact E0.
- pose proof (read_parts (length str) 0 [] str rest eq_refl eq_refl) as Er. rewrite !app_nil_l in Er. rewrite Nat2Z.id, Er. cbn [mbind result_bind].
  pose proof (put_mk ty (len_ str) a [] old str (x :: slack) 0 Hty eq_refl Ho) as E. rewrite !app_nil_l in E. by rewrite E.
Qed.

Lemma sdsnewlen_ok init str n : n = len_ str -> n < 2 ^ 62 -> initial init str -> exists s, sdsnewlen init n = inr s /\ rep s str.
Proof.
intros -> Hn Hinit. unfold sdsnewlen. assert (0 <= len_ str < 2 ^ 64) as Hr by lia.
pose proof (fits_promoted (len_ str =? 0) _ Hr) as [Hty Hfit]. rewrite andb_comm in Hty, Hfit. cbv zeta in Hty, Hfit.
set (ty := if (_ && _) then SDS_TYPE_8 else _) in *. clearbody ty. pose proof (hdr_small ty Hty) as Hh.
rewrite !wrap_u_id by (unfold in_u; lia). rewrite (proj2 (Z.ltb_lt _ _)) by lia. cbn [assert mbind result_bind].
set (size := Z.of_nat (sdsHdrSize ty) + len_ str + 1). pose proof (malloc_size size ltac:(lia)) as Hsize.
destruct (fresh_block init str size (sdsHdrSize ty) Hinit ltac:(lia) ltac:(lia)) as (m & -> & Hm & Hc). cbn [mbind result_bind].
rewrite write_header_ok by (done || lia). rewrite usable_of_ok by (done || lia). cbn [mbind result_bind].
destruct (split_body m (sdsHdrSize ty) (length str) ltac:(lia)) as (old & x & slack & Ed & Ho & Hlen). rewrite Ed in *.
eexists. split.
- apply fill_new; [done..|]. rewrite <- Ho, take_app_length in Hc. by destruct init.
- apply holds_mk; try done; try (intros; rewrite ?Z.add_0_r; done); [lia|]. f_equal. lia.
Qed.
End Allocation.
