(* ===== verification/SdsRoom.v ===== *)
(** * Simple dynamic strings: growing and shrinking

    [_sdsMakeRoomFor] and [sdsResize] keep the string, or its beginning, for every type the
    block has and gets, and leave the room they are asked for. *)

From S2P Require Import Prelude Bytes NumString Sds SdsFacts SdsRep.

Ltac steps := cbn [assert defined_if mbind result_bind mret result_ret].

Section Room.
Context `{Allocator}.

Lemma s_realloc_ok (h body : bytes) n (k : nat) :
  (length h + k <= Z.to_nat n)%nat -> (k <= length body)%nat ->
  exists body', s_realloc (h ++ body) n = h ++ body' /\ take k body' = take k body /\ (length h + length body')%nat = usable (Z.to_nat n).
Proof.
intros Hn Hk. pose proof (usable_enough (Z.to_nat n)) as Hu. exists (drop (length h) (s_realloc (h ++ body) n)).
assert (length (s_realloc (h ++ body) n) = usable (Z.to_nat n)) as El by apply length_realloc.
assert (take (length h + k) (s_realloc (h ++ body) n) = h ++ take k body) as Et.
{ unfold s_realloc, realloc. rewrite take_app_le by (rewrite !length_take, length_app; lia).
  rewrite !take_take, !Nat.min_l by lia. by rewrite take_app_add. }
rewrite <- take_take_drop in Et. apply app_inj_1 in Et as [E1 E2]; [|rewrite length_take; lia].
split; [rewrite <- E1 at 2; by rewrite take_drop|]. split; [done|]. rewrite length_drop. lia.
Qed.

Lemma take_terminated x (body str slack : bytes) : take (length str + 1) body = take (length str + 1) (str ++ x :: slack) -> exists slack', body = str ++ x :: slack'.
Proof.
intros E. rewrite take_app_add in E. cbn [take] in E. exists (drop (length str + 1) body).
rewrite <- (take_drop (length str + 1) body) at 1. rewrite E. by rewrite <- app_assoc.
Qed.

(** ** [_sdsMakeRoomFor] *)

(** The new size of the string. *)
Lemma newlen_range l n (greedy : bool) :
  0 <= l -> 0 <= n -> l + n < 2 ^ 62 ->
  let newlen := if greedy then if u64 (l + n) <? SDS_MAX_PREALLOC then u64 (u64 (l + n) * 2) else u64 (u64 (l + n) + SDS_MAX_PREALLOC) else u64 (l + n) in
  l + n <= newlen < 2 ^ 63 - 100.
Proof.
intros H0 H1 H2 newlen. subst newlen. rewrite (wrap_u_id 64 (l + n)) by (unfold in_u; lia). unfold SDS_MAX_PREALLOC.
destruct greedy; [|lia]. destruct (Z.ltb_spec (l + n) (1024 * 1024)); rewrite wrap_u_id by (unfold in_u; lia); lia.
Qed.

(** [s_realloc] of the block. *)
Lemma realloc_mk x ty l a str slack size :
  is_type ty -> Z.of_nat (sdsHdrSize ty + length str + 1) <= size ->
  exists slack', mk_sds (s_realloc (block (mk ty l a (str ++ x :: slack))) size) (sdsHdrSize ty) = mk ty l a (str ++ x :: slack') /\
    (sdsHdrSize ty + length str + 1 + length slack')%nat = usable (Z.to_nat size).
Proof.
intros Hty Hs. cbn [mk block].
destruct (s_realloc_ok (hdr ty l a) (str ++ x :: slack) size (length str + 1)) as (body & -> & Et & El);
  [rewrite length_hdr by done; lia|rewrite length_app; cbn [length]; lia|].
apply take_terminated in Et as [slack' ->]. exists slack'. split; [done|].
rewrite length_hdr, length_app in El by done. cbn [length] in El. lia.
Qed.

(** [memcpy] to the beginning of a new block. *)
Lemma put_fresh (m : bytes) h bs :
  (h + length bs <= length m)%nat -> exists m' post, put_at (mk_sds m h) 0 bs = inr (mk_sds m' h) /\ length m' = length m /\ drop h m' = bs ++ post.
Proof.
intros Hm. assert (length (take h m) = h) as Eh by (rewrite length_take; lia).
pose proof (put_at_parts (take h m) [] (take (length bs) (drop h m)) bs (drop (length bs) (drop h m)) 0 eq_refl) as E.
rewrite !app_nil_l, take_drop, take_drop, Eh in E. specialize (E ltac:(rewrite length_take, length_drop; lia)).
eexists _, _. split; [exact E|]. split; [rewrite !length_app, length_take, !length_drop; lia|]. by rewrite drop_app_length'.
Qed.

(** The copy to a block with another header. *)
Lemma malloc_mk bs ty size :
  is_type ty -> Z.of_nat (sdsHdrSize ty + length bs) <= size -> size < 2 ^ 63 ->
  exists s s' rest, put_at (mk_sds (s_malloc size) (sdsHdrSize ty)) 0 bs = inr s /\ store_back s 1 0 ty = inr s' /\ flagged ty s' (bs ++ rest) /\
    (sdsHdrSize ty + length bs + length rest)%nat = usable (Z.to_nat size).
Proof.
intros Hty Hs Hlt. pose proof (malloc_size size ltac:(lia)) as Hu. pose proof (length_s_malloc size) as Hm.
destruct (put_fresh (s_malloc size) (sdsHdrSize ty) bs ltac:(lia)) as (m' & post & E & El & Ed).
destruct (store_type ty Hty m' ltac:(lia)) as (s' & Es & Hf). rewrite Ed in Hf. eexists _, s', post. repeat split; try done.
apply (f_equal length) in Ed. rewrite length_drop, length_app in Ed. lia.
Qed.

Lemma move_ok x ty a str slack ty' size :
  let l := len_ str in let s := mk ty l a (str ++ x :: slack) in
  is_type ty -> is_type ty' -> fits ty' l -> fits ty l -> Z.of_nat (sdsHdrSize ty' + length str + 1) <= size < 2 ^ 63 ->
  exists s' slack', (if ty =? ty' then mret (mk_sds (s_realloc (block s) size) (sdsHdrSize ty'))
    else bs ← read_at s 0 (l + 1); s ← put_at (mk_sds (s_malloc size) (sdsHdrSize ty')) 0 bs; s ← store_back s 1 0 ty'; sdssetlen s l) = inr s' /\
    length (block s') = usable (Z.to_nat size) /\ (sdsHdrSize ty' + length str + 1 + length slack')%nat = usable (Z.to_nat size) /\
    (forall v, sdssetalloc s' v = inr (mk ty' l v (str ++ x :: slack'))).
Proof.
intros l s Hty Hty' Hfit' Hfit Hsize. subst s. destruct (Z.eqb_spec ty ty') as [<-|Hne].
- destruct (realloc_mk x ty l a str slack size Hty ltac:(lia)) as (slack' & -> & El). eexists _, slack'. split; [done|].
  split; [|split; [done|intros v; by apply sdssetalloc_mk]].
  cbn [mk block]. rewrite !length_app, length_hdr by done. cbn [length]. lia.
- replace (str ++ x :: slack) with ([] ++ (str ++ [x]) ++ slack) by (by rewrite <- app_assoc).
  rewrite read_mk by (try done; rewrite length_app; cbn [length]; lia). steps.
  destruct (malloc_mk (str ++ [x]) ty' size Hty') as (s1 & s2 & rest & -> & E2 & Hf & El); [rewrite length_app; cbn [length]; lia|lia|].
  steps. rewrite E2. steps. rewrite length_app in El. cbn [length] in El.
  destruct (set_flagged ty' Hty' s2 _ l 0 Hf Hfit') as (s3 & E3 & Hl3 & _). rewrite <- app_assoc in Hf. exists s3, rest. split; [done|].
  split; [rewrite Hl3, (flagged_length ty' Hty' _ _ Hf), length_app; cbn [app length]; lia|]. split; [lia|].
  intros v. destruct (set_flagged ty' Hty' s2 _ l v Hf Hfit') as (s3' & E3' & _ & E4). rewrite E3 in E3'. by injection E3' as <-.
Qed.

Lemma _sdsMakeRoomFor_ok x s str n greedy :
  holds x s str 0 -> 0 <= n -> len_ str + n < 2 ^ 62 -> exists s', _sdsMakeRoomFor s n greedy = inr s' /\ holds x s' str n.
Proof.
intros (ty & a & slack & -> & Hty & Hl & Ha & Hroom & H5) Hn Hlt. unfold _sdsMakeRoomFor.
rewrite sdsavail_mk, flags_mk by (done || lia). steps. rewrite flag_type by done.
pose proof (max_small ty Hty) as Hmax. unfold fits in Hl, Ha. rewrite (wrap_u_id 64) by (unfold in_u; lia).
destruct (Z.leb_spec n (if ty =? 0 then 0 else a - len_ str)) as [Hle|Hgt].
- eexists. split; [done|]. exists ty, a, slack. unfold fits. destruct (Z.eqb_spec ty 0); repeat split; try done; try apply Hty; lia.
- rewrite sdslen_mk by done. steps. pose proof (newlen_range (len_ str) n greedy ltac:(lia) Hn Hlt) as Hnew. cbv zeta in Hnew.
  set (newlen := if greedy then _ else _) in *. clearbody newlen. rewrite (wrap_u_id 64 (len_ str + n)) by (unfold in_u; lia).
  assert (0 < n) by (destruct (ty =? 0); lia). rewrite (proj2 (Z.ltb_lt (len_ str) _)) by lia. steps.
  destruct (fits_promoted true newlen ltac:(lia)) as [Hty' Hfit]. cbn [andb] in Hty', Hfit.
  assert ((if sdsReqType newlen =? SDS_TYPE_5 then SDS_TYPE_8 else sdsReqType newlen) <> 0) as Hne
    by (unfold SDS_TYPE_5, SDS_TYPE_8; destruct (Z.eqb_spec (sdsReqType newlen) 0); lia).
  set (ty' := if sdsReqType newlen =? SDS_TYPE_5 then _ else _) in *. clearbody ty'. pose proof (hdr_small ty' Hty'). unfold fits in Hfit.
  rewrite (wrap_u_id 64) by (unfold in_u; lia). rewrite (proj2 (Z.ltb_lt _ _)) by lia. steps.
  destruct (move_ok x ty a str slack ty' (Z.of_nat (sdsHdrSize ty') + newlen + 1)) as (s' & slack' & E & Eb & Es & Hset);
    [done|done|unfold fits; lia|done|lia|]. rewrite E. steps. rewrite Hset. eexists. split; [done|].
  pose proof (malloc_size (Z.of_nat (sdsHdrSize ty') + newlen + 1) ltac:(lia)). rewrite usable_of_ok by (done || lia).
  apply holds_mk; try done; unfold fits; try lia.
Qed.

(** ** [sdsResize] *)

Lemma max_mono ty ty' : is_type ty -> is_type ty' -> ty <= ty' -> sdsTypeMaxSize ty <= sdsTypeMaxSize ty'.
Proof. intros H1 H2. by_type H1; by_type H2; intros ?; try lia; by vm_compute. Qed.

Lemma finish_resize ty s str slack x size :
  is_type ty -> fits ty size -> flagged ty s (str ++ x :: slack) -> len_ str <= size <= len_ str + len_ slack ->
  exists s', (s ← put_at s (len_ str) [0]; s ← sdssetlen s (len_ str); sdssetalloc s size) = inr s' /\ rep s' str.
Proof.
intros Hty Hfit Hf Hs. destruct (put_flagged ty Hty s str [x] [0] slack (len_ str) Hf eq_refl eq_refl) as (s1 & -> & Hf1). steps.
destruct (set_flagged ty Hty s1 _ (len_ str) size Hf1 ltac:(unfold fits in *; lia)) as (s2 & -> & _ & E). steps. rewrite E.
eexists. split; [done|]. unfold fits in *. destruct (Z.eq_dec ty 0) as [->|].
- exists 0, (len_ str), slack. repeat split; try done; lia.
- exists ty, size, slack. repeat split; try done; try apply Hty; try lia.
Qed.

Lemma split_at (body : bytes) (n : nat) : (n < length body)%nat -> exists x slack, body = take n body ++ x :: slack /\ length body = (n + 1 + length slack)%nat.
Proof.
intros Hn. destruct (drop n body) as [|x slack] eqn:E; [apply (f_equal length) in E; rewrite length_drop in E; cbn [length] in E; lia|].
exists x, slack. rewrite <- E, take_drop. split; [done|]. apply (f_equal length) in E. rewrite length_drop in E. cbn [length] in E. lia.
Qed.

(** The block that [sdsResize] goes on with. *)
Lemma resize_block jemalloc ty a str slack ty' size (n : nat) :
  let s := mk ty (len_ str) a (str ++ 0 :: slack) in
  let use_realloc := (ty =? ty') || (ty' <? ty) && (SDS_TYPE_8 <? ty') in
  let newlen := if use_realloc then Z.of_nat (sdsHdrSize ty) + size + 1 else Z.of_nat (sdsHdrSize ty') + size + 1 in
  is_type ty -> is_type ty' -> fits ty (len_ str) -> fits ty' size -> size < 2 ^ 62 -> Z.of_nat n <= size -> (n <= length str)%nat ->
  exists s' ty1 x slack', (if use_realloc
    then mret (if jemalloc && (usable (Z.to_nat newlen) =? length (block s))%nat then s else mk_sds (s_realloc (block s) newlen) (sdsHdrSize ty))
    else bs ← read_at s 0 (Z.of_nat n); s ← put_at (mk_sds (s_malloc newlen) (sdsHdrSize ty')) 0 bs; store_back s 1 0 ty') = inr s' /\
    is_type ty1 /\ fits ty1 size /\ flagged ty1 s' (take n str ++ x :: slack') /\ size <= Z.of_nat n + len_ slack'.
Proof.
intros s use_realloc newlen Hty Hty' Hl Hfit Hlt Hn Hns. pose proof (hdr_small ty Hty). pose proof (hdr_small ty' Hty').
assert (length (block s) = (sdsHdrSize ty + length (str ++ 0%Z :: slack))%nat) as Eb by (unfold s, mk; cbn [block]; by rewrite length_app, length_hdr).
destruct use_realloc eqn:Eu; subst newlen.
- assert (fits ty size) as Hfs.
  { unfold use_realloc in Eu. apply orb_true_iff in Eu as [->%Z.eqb_eq|[Ht%Z.ltb_lt _]%andb_true_iff]; [done|].
    pose proof (max_mono ty' ty Hty' Hty ltac:(lia)). unfold fits in *. lia. }
  set (size' := Z.of_nat (sdsHdrSize ty) + size + 1). pose proof (malloc_size size' ltac:(lia)) as Hu.
  assert (take n (str ++ 0 :: slack) = take n str) as Et by (by rewrite take_app_le).
  destruct (jemalloc && _)%bool eqn:Eo.
  + apply andb_true_iff in Eo as [_ Eo%Nat.eqb_eq]. rewrite Eb in Eo.
    destruct (split_at (str ++ 0 :: slack) n ltac:(rewrite length_app; cbn [length]; lia)) as (x & slack' & E & El). rewrite Et in E.
    exists s, ty, x, slack'. rewrite <- E. repeat split; try done; try apply Hty; try apply Hfs; [by apply flagged_mk|lia].
  + destruct (s_realloc_ok (hdr ty (len_ str) a) (str ++ 0 :: slack) size' n) as (body & E & Et' & El);
      [rewrite length_hdr by done; lia|rewrite length_app; lia|]. rewrite length_hdr in El by done. unfold s, mk. cbn [block]. rewrite E.
    destruct (split_at body n ltac:(lia)) as (x & slack' & Eb' & El'). rewrite Et', Et in Eb'.
    eexists _, ty, x, slack'. rewrite <- Eb'. repeat split; try done; try apply Hty; try apply Hfs; [by apply flagged_mk|lia].
- unfold s. replace (str ++ 0 :: slack) with ([] ++ take n str ++ (drop n str ++ 0 :: slack)) by (cbn [app]; by rewrite app_assoc, take_drop).
  assert (length (take n str) = n) as En by (rewrite length_take; lia).
  rewrite read_mk by (done || lia). steps.
  set (size' := Z.of_nat (sdsHdrSize ty') + size + 1). pose proof (malloc_size size' ltac:(lia)) as Hu.
  destruct (malloc_mk (take n str) ty' size' Hty' ltac:(lia) ltac:(lia)) as (s1 & s2 & rest & -> & E2 & Hf & El). steps. rewrite E2.
  destruct rest as [|x rest]; [cbn [length] in El; lia|]. exists s2, ty', x, rest. cbn [length] in El. repeat split; try done; try apply Hty'; try apply Hfit. lia.
Qed.

Lemma sdsResize_ok jemalloc s str size would_regrow :
  rep s str -> 0 <= size < 2 ^ 62 -> exists s', sdsResize jemalloc s size would_regrow = inr s' /\ rep s' (take (Z.to_nat size) str).
Proof.
intros (ty & a & slack & -> & Hty & Hl & Ha & Hroom & H5) Hs. unfold sdsResize.
rewrite flags_mk by done. steps. rewrite flag_type, sdslen_mk, sdsalloc_mk by done. steps.
destruct (Z.eqb_spec (if ty =? 0 then len_ str else a) size) as [E|_].
- eexists. split; [done|]. rewrite take_ge by (destruct (ty =? 0); lia). by exists ty, a, slack.
- destruct (fits_promoted would_regrow size ltac:(lia)) as [Hty' Hfit]. cbv zeta in Hty', Hfit.
  set (ty' := if would_regrow && _ then SDS_TYPE_8 else _) in *. clearbody ty'.
  pose proof (hdr_small ty Hty). pose proof (hdr_small ty' Hty').
  rewrite (wrap_u_id 64) by (unfold in_u; destruct (_ || _); lia).
  set (n := length (take (Z.to_nat size) str)). assert (n = Nat.min (Z.to_nat size) (length str)) as Hn by apply length_take.
  replace (if size <? len_ str then size else len_ str) with (Z.of_nat n) by (destruct (Z.ltb_spec size (len_ str)); lia).
  destruct (resize_block jemalloc ty a str slack ty' size n Hty Hty' Hl Hfit ltac:(lia) ltac:(lia) ltac:(lia)) as (s' & ty1 & x & slack' & E & Ht1 & Hf1 & Hfl & Hsl).
  rewrite E. steps. replace (take n str) with (take (Z.to_nat size) str) in Hfl
    by (rewrite Hn; destruct (Nat.min_spec (Z.to_nat size) (length str)) as [[? ->]|[? ->]]; [done|by rewrite !take_ge by lia]).
  apply (finish_resize ty1 _ _ slack' x size Ht1 Hf1 Hfl). fold n. lia.
Qed.
End Room.
