(* ===== verification/SdsOps.v ===== *)
(** * Simple dynamic strings: operations

    The operations of sds.c on a block that stands for a string, for appending and for editing
    in place. *)

From S2P Require Import Prelude Bytes NumString NumStringFacts StringMatch Sds SdsFacts SdsRep SdsRoom.

Section Ops.
Context `{Allocator}.

Lemma holds_weaken x s str n m : holds x s str n -> 0 <= m <= n -> holds x s str m.
Proof. intros (ty & a & slack & -> & ? & ? & ? & ? & ?) Hm. exists ty, a, slack. repeat split; try done; try lia; try apply H0; try apply H1; apply H2. Qed.

Lemma sdslen_holds x s str n : holds x s str n -> sdslen s = inr (len_ str).
Proof. intros (ty & a & slack & -> & Hty & Hl & _). by apply sdslen_mk. Qed.

Lemma sdsavail_holds x s str n : holds x s str n -> 0 <= n -> exists v, sdsavail s = inr v /\ n <= v /\ holds x s str v.
Proof.
intros (ty & a & slack & -> & Hty & Hl & Ha & Hr & H5) Hn. rewrite sdsavail_mk by (done || lia). pose proof (max_small ty Hty). unfold fits in Hl, Ha.
rewrite (wrap_u_id 64) by (unfold in_u; lia). eexists. split; [done|]. split; [destruct (Z.eqb_spec ty 0); lia|].
exists ty, a, slack. unfold fits. repeat split; try done; try lia; try apply Hty. destruct (Z.eqb_spec ty 0); lia.
Qed.

Lemma sdsalloc_holds x s str n : holds x s str n -> 0 <= n -> exists v, sdsalloc s = inr v /\ len_ str + n <= v /\ holds x s str (v - len_ str).
Proof.
intros (ty & a & slack & -> & Hty & Hl & Ha & Hr & H5) Hn. rewrite sdsalloc_mk by done. eexists. split; [done|].
split; [destruct (Z.eqb_spec ty 0); lia|]. exists ty, a, slack. destruct (Z.eqb_spec ty 0); repeat split; try done; try lia; try apply Hty; try apply Hl; apply Ha.
Qed.

(** The bytes of the string, for a reader. *)
Lemma read_holds x s str n k len :
  holds x s str n -> 0 <= k -> 0 <= len -> k + len <= len_ str -> read_at s k len = inr (take (Z.to_nat len) (drop (Z.to_nat k) str)).
Proof.
intros (ty & a & slack & -> & Hty & _) Hk Hl Hle.
rewrite <- (take_drop (Z.to_nat k) str) at 2. rewrite <- (take_drop (Z.to_nat len) (drop (Z.to_nat k) str)) at 1.
rewrite <- !app_assoc. apply read_mk; [done|rewrite length_take; lia|rewrite length_take, length_drop; lia].
Qed.

Lemma drop_base x s str n : holds x s str n -> exists rest, drop (base s) (block s) = str ++ x :: rest.
Proof.
intros (ty & a & slack & -> & Hty & _). exists slack. cbn [mk base block]. rewrite <- (length_hdr ty (len_ str) a Hty). by rewrite drop_app_length.
Qed.

(** ** Appending *)

Lemma put_end x s str n t :
  holds x s str n -> len_ t <= n -> exists s' y, put_at s (len_ str) t = inr s' /\
    (forall u, u = len_ t -> sdsinclen s' u = sdssetlen s' (len_ str + u)) /\
    exists s'', sdssetlen s' (len_ str + len_ t) = inr s'' /\ holds y s'' (str ++ t) (n - len_ t).
Proof.
intros (ty & a & slack & -> & Hty & Hl & Ha & Hr & H5) Ht.
destruct (split_at (x :: slack) (length t)) as (y & slack' & E & El); [cbn [length]; lia|]. cbn [length] in El. rewrite E.
assert (length (take (length t) (x :: slack)) = length t) as Et by (rewrite length_take; cbn [length]; lia).
assert (fits ty (len_ str + len_ t)) by (unfold fits in *; lia).
eexists _, y. rewrite put_mk by done. split; [done|]. split; [intros u ->; by rewrite sdsinclen_mk, sdssetlen_mk|].
rewrite sdssetlen_mk by done. eexists. split; [done|]. exists ty, a, slack'. rewrite length_app, Nat2Z.inj_add, <- app_assoc.
split; [done|]. split; [done|]. split; [done|]. split; [done|]. split; [lia|]. intros Hz. specialize (H5 Hz). lia.
Qed.

Lemma terminate x s str n : holds x s str n -> exists s', put_at s (len_ str) [0] = inr s' /\ room s' str n.
Proof.
intros (ty & a & slack & -> & Hty & Hrest). eexists. split; [apply (put_mk ty (len_ str) a str [x] [0] slack); done|]. by exists ty, a, slack.
Qed.

Lemma sdscatlen_ok s str t rest : rep s str -> len_ str + len_ t < 2 ^ 62 -> exists s', sdscatlen s (t ++ rest) (len_ t) = inr s' /\ rep s' (str ++ t).
Proof.
intros Hs Hlt. unfold sdscatlen. rewrite (sdslen_holds _ _ _ _ Hs). steps.
destruct (_sdsMakeRoomFor_ok 0 s str (len_ t) true Hs ltac:(lia) Hlt) as (s1 & E1 & H1). unfold sdsMakeRoomFor. rewrite E1. steps.
pose proof (read_parts (Z.to_nat (len_ t)) 0 [] t rest (Nat2Z.id _) eq_refl) as Er. rewrite !app_nil_l in Er. rewrite Er. steps.
destruct (put_end 0 s1 str _ t H1 ltac:(lia)) as (s2 & y & -> & _ & s3 & E3 & H3). steps. rewrite (wrap_u_id 64) by (unfold in_u; lia).
rewrite E3. steps. destruct (terminate _ _ _ _ H3) as (s4 & E4 & H4). rewrite length_app, Nat2Z.inj_add in E4. rewrite E4. eexists. split; [done|].
apply (holds_weaken _ _ _ _ _ H4). lia.
Qed.

Lemma strlen_ok t rest : ~ In 0 t -> strlen_of (t ++ 0 :: rest) = inr (len_ t).
Proof.
induction t as [|c t IH]; intros Hn; [done|]. cbn [app strlen_of]. rewrite (proj2 (Z.eqb_neq _ _)) by (intros ->; apply Hn; by left).
rewrite IH by (intros ?; apply Hn; by right). steps. f_equal. cbn [length]. lia.
Qed.

Lemma sdscat_ok s str t : rep s str -> ~ In 0 t -> len_ str + len_ t < 2 ^ 62 -> exists s', sdscat s t = inr s' /\ rep s' (str ++ t).
Proof. intros Hs Hz Hlt. unfold sdscat. rewrite strlen_ok by done. steps. by apply sdscatlen_ok. Qed.

Lemma sdscatsds_ok s str t strt :
  rep s str -> rep t strt -> len_ str + len_ strt < 2 ^ 62 -> exists s', sdscatsds s t = inr s' /\ rep s' (str ++ strt).
Proof.
intros Hs Ht Hlt. unfold sdscatsds. rewrite (sdslen_holds _ _ _ _ Ht). steps. destruct (drop_base _ _ _ _ Ht) as (rest & ->). by apply sdscatlen_ok.
Qed.

Lemma sdsgrowzero_ok s str len :
  rep s str -> 0 <= len < 2 ^ 62 -> exists s', sdsgrowzero s len = inr s' /\ rep s' (str ++ replicate (Z.to_nat len - length str) 0).
Proof.
intros Hs Hlen. unfold sdsgrowzero. rewrite (sdslen_holds _ _ _ _ Hs). steps. destruct (Z.leb_spec len (len_ str)) as [Hle|Hgt].
{ exists s. replace (Z.to_nat len - length str)%nat with 0%nat by lia. by rewrite app_nil_r. }
destruct (_sdsMakeRoomFor_ok 0 s str (len - len_ str) true Hs ltac:(lia) ltac:(lia)) as (s1 & E1 & H1). unfold sdsMakeRoomFor. rewrite E1. steps.
destruct H1 as (ty & a & slack & -> & Hty & Hl & Ha & Hr & H5). set (k := (Z.to_nat len - length str)%nat).
destruct (split_at (0 :: slack) k) as (y & slack' & E & El); [cbn [length]; lia|]. cbn [length] in El. rewrite E.
replace (take k (0 :: slack) ++ y :: slack') with ((take k (0 :: slack) ++ [y]) ++ slack') by (by rewrite <- app_assoc).
rewrite put_mk by (try done; rewrite length_app, length_take, length_replicate; cbn [length]; lia). steps.
replace (Z.to_nat (len - len_ str + 1)) with (k + 1)%nat by lia. rewrite replicate_add. cbn [replicate].
unfold fits in Hl, Ha. rewrite sdssetlen_mk by (try done; unfold fits; lia). eexists. split; [done|].
exists ty, a, slack'. rewrite length_app, length_replicate, <- !app_assoc. cbn [app]. unfold fits.
replace (Z.of_nat (length str + k)) with len by lia. repeat split; try done; try apply Hty; try lia.
Qed.

(** The beginning of the string is overwritten. *)
Lemma overwrite_front x s str n t :
  holds x s str n -> 0 <= n -> len_ t <= len_ str + n -> exists s' y, put_at s 0 t = inr s' /\
    (exists s'', put_at s' (len_ t) [0] = inr s'' /\ exists s3, sdssetlen s'' (len_ t) = inr s3 /\ rep s3 t) /\
    exists s4, sdssetlen s' (len_ t) = inr s4 /\ holds y s4 t 0.
Proof.
intros (ty & a & slack & -> & Hty & Hl & Ha & Hr & H5) Hn Ht.
destruct (split_at (str ++ x :: slack) (length t)) as (y & slack' & E & El); [rewrite length_app; cbn [length]; lia|].
rewrite length_app in El. cbn [length] in El. rewrite E.
assert (length (take (length t) (str ++ x :: slack)) = length t) as Et by (rewrite length_take, length_app; cbn [length]; lia).
assert (fits ty (len_ t)) by (unfold fits in *; lia).
pose proof (put_mk ty (len_ str) a [] (take (length t) (str ++ x :: slack)) t (y :: slack') 0 Hty eq_refl Et) as Ep. rewrite !app_nil_l in Ep.
eexists _, y. split; [exact Ep|]. unfold rep, room, holds.
split.
- eexists. split; [apply (put_mk ty (len_ str) a t [y] [0] slack'); done|]. rewrite sdssetlen_mk by done. eexists. split; [done|].
  destruct (Z.eq_dec ty 0) as [->|]; [exists 0, (len_ t), slack'|exists ty, a, slack']; repeat split; try done; try apply Hty; try apply H0; try apply Ha; lia.
- rewrite sdssetlen_mk by done. eexists. split; [done|].
  destruct (Z.eq_dec ty 0) as [->|]; [exists 0, (len_ t), slack'|exists ty, a, slack']; repeat split; try done; try apply Hty; try apply H0; try apply Ha; lia.
Qed.

Lemma sdscpylen_ok s str t rest : rep s str -> len_ str + len_ t < 2 ^ 62 -> exists s', sdscpylen s (t ++ rest) (len_ t) = inr s' /\ rep s' t.
Proof.
intros Hs Hlt. unfold sdscpylen. destruct (sdsalloc_holds _ _ _ _ Hs ltac:(lia)) as (v & -> & Hv & Hh). steps.
assert (exists s1 n, (if v <? len_ t then curlen ← sdslen s; sdsMakeRoomFor s (u64 (len_ t - curlen)) else mret s) = inr s1 /\ holds 0 s1 str n /\ 0 <= n /\ len_ t <= len_ str + n)
  as (s1 & n & -> & H1 & Hn & Hle).
{ destruct (Z.ltb_spec v (len_ t)).
  - rewrite (sdslen_holds _ _ _ _ Hs). steps. rewrite (wrap_u_id 64) by (unfold in_u; lia).
    destruct (_sdsMakeRoomFor_ok 0 s str (len_ t - len_ str) true Hs ltac:(lia) ltac:(lia)) as (s1 & E1 & H1). exists s1, (len_ t - len_ str). repeat split; try done; lia.
  - exists s, (v - len_ str). repeat split; try done; lia. }
steps. pose proof (read_parts (Z.to_nat (len_ t)) 0 [] t rest (Nat2Z.id _) eq_refl) as Er. rewrite !app_nil_l in Er. rewrite Er. steps.
destruct (overwrite_front _ _ _ _ t H1 Hn Hle) as (s2 & y & -> & (s3 & E3 & s4 & E4 & H4) & _). steps. rewrite E3. steps. eauto.
Qed.

Lemma sdsclear_ok s str : rep s str -> exists s', sdsclear s = inr s' /\ rep s' [].
Proof.
intros (ty & a & slack & -> & Hty & Hl & Ha & Hr & H5). unfold sdsclear. unfold fits in Hl, Ha.
rewrite sdssetlen_mk by (try done; unfold fits; lia). steps. destruct (str ++ 0 :: slack) as [|c r] eqn:E; [by destruct str|].
eexists. split; [apply (put_mk ty 0 a [] [c] [0] r); done|]. apply (f_equal length) in E. rewrite length_app in E. cbn [length] in E. unfold rep, room, holds, fits.
destruct (Z.eq_dec ty 0) as [->|]; [exists 0, 0, r|exists ty, a, r]; cbn [length app]; repeat split; try done; try apply Hty; lia.
Qed.

Lemma sdsdup_ok s str : rep s str -> len_ str < 2 ^ 62 -> exists s', sdsdup s = inr s' /\ rep s' str.
Proof.
intros Hs Hlt. unfold sdsdup. rewrite (sdslen_holds _ _ _ _ Hs). steps. rewrite (read_holds _ _ _ _ 0 (len_ str) Hs) by lia. steps.
rewrite Nat2Z.id. change (Z.to_nat 0) with 0%nat. rewrite drop_0, take_ge by lia. apply sdsnewlen_ok; [done..|]. exists []. by rewrite app_nil_r.
Qed.

Lemma sdsfromlonglong_ok v : in_s 64 v -> exists s, sdsfromlonglong v = inr s /\ rep s (decimal v).
Proof.
intros Hv. unfold sdsfromlonglong. pose proof (length_decimal v Hv). rewrite ll2string_ok by (try done; rewrite length_replicate; change (Z.to_nat LONG_STR_SIZE) with 21%nat; lia). steps.
apply sdsnewlen_ok; [done|lia|by eexists].
Qed.

(** ** [sdsIncrLen] *)

Lemma incr_up ty l a incr :
  is_type ty -> ty <> 0 -> fits ty a -> 0 <= l -> 0 <= incr <= a - l ->
  match width ty with 1%nat | 2%nat => incr <=? a - l | 4%nat => u32 incr <=? u32 (a - l) | _ => incr <=? u64 (a - l) end = true.
Proof.
intros Hty Hz [_ Ha] Hl Hi. by_type Hty; [done|apply Z.leb_le; lia|apply Z.leb_le; lia|..];
  [change (sdsTypeMaxSize 3) with (2 ^ 32 - 1) in Ha|change (sdsTypeMaxSize 4) with (2 ^ 64 - 1) in Ha];
  cbn [width Z.eqb Pos.eqb]; rewrite !wrap_u_id by (unfold in_u; lia); apply Z.leb_le; lia.
Qed.

Lemma incr_down ty l incr :
  is_type ty -> ty <> 0 -> fits ty l -> 0 <= incr <= l -> (if (width ty =? 8)%nat then u64 incr <=? l else u32 incr <=? l) = true.
Proof.
intros Hty Hz [_ Hl] Hi. by_type Hty; [done|..];
  [change (sdsTypeMaxSize 1) with 255 in Hl|change (sdsTypeMaxSize 2) with 65535 in Hl|change (sdsTypeMaxSize 3) with (2 ^ 32 - 1) in Hl
  |change (sdsTypeMaxSize 4) with (2 ^ 64 - 1) in Hl];
  cbn [width Z.eqb Pos.eqb Nat.eqb]; rewrite wrap_u_id by (unfold in_u; lia); apply Z.leb_le; lia.
Qed.

Lemma sdsIncrLen_mk ty l a body x slack incr :
  is_type ty -> fits ty l -> fits ty a -> incr <> 0 -> (0 < incr -> ty <> 0 /\ l + incr <= a) -> (incr < 0 -> 0 <= l + incr) ->
  len_ body = l + incr -> sdsIncrLen (mk ty l a (body ++ x :: slack)) incr = inr (mk ty (l + incr) a (body ++ 0 :: slack)).
Proof.
intros Hty Hl Ha Hz Hup Hdown Hb.
assert (put_at (mk ty (l + incr) a (body ++ x :: slack)) (l + incr) [0] = inr (mk ty (l + incr) a (body ++ 0 :: slack))) as Ep
  by (apply (put_mk ty (l + incr) a body [x] [0] slack); done).
unfold sdsIncrLen. rewrite flags_mk by done. steps. rewrite switch_mk by done. unfold flag_byte. pose proof (max_small ty Hty) as Hmax.
assert (fits ty (l + incr)) as Hfit by (unfold fits in *; destruct (Z.lt_ge_cases 0 incr); lia).
destruct (Z.eqb_spec ty 0) as [->|Hne].
- unfold fits in Hl, Hfit. change (sdsTypeMaxSize 0) with 31 in *. rewrite len_5, type_5, (wrap_u_id 32) by (unfold in_u; lia).
  destruct (Z.ltb_spec incr 0), (Z.ltb_spec 0 incr), (Z.leb_spec (- incr) l); try lia. cbn [andb orb]. steps.
  change (mk 0 l a (body ++ x :: slack)) with (mk_sds (8 * l :: body ++ x :: slack) 1). rewrite store_flags_5 by (unfold in_u; lia). steps.
  rewrite (wrap_u_id 64) by (unfold in_u; lia). exact Ep.
- rewrite mk_raw by done. rewrite load_len by apply length_le_bytes. steps. rewrite load_alloc by apply length_le_bytes. steps.
  rewrite !le_val_fits by done. assert (0 <= l) by apply Hl.
  destruct (Z.leb_spec 0 incr) as [Hi|Hi]; [rewrite incr_up by (done || lia)|rewrite incr_down by (done || lia)].
  + rewrite (proj2 (Z.ltb_ge incr 0)) by lia. cbn [andb orb]. steps. rewrite store_len by apply length_le_bytes. steps.
    rewrite <- le_val_wrap, le_val_fits, <- mk_raw by done. exact Ep.
  + rewrite (proj2 (Z.ltb_lt incr 0)) by lia. cbn [andb orb]. steps. rewrite store_len by apply length_le_bytes. steps.
    rewrite <- le_val_wrap, le_val_fits, <- mk_raw by done. exact Ep.
Qed.

(** After writing [t] in the room at the end. *)
Lemma sdsIncrLen_up s str n t :
  room s str n -> 0 < len_ t <= n -> exists s' s'', put_at s (len_ str) t = inr s' /\ sdsIncrLen s' (len_ t) = inr s'' /\ rep s'' (str ++ t).
Proof.
intros (ty & a & slack & -> & Hty & Hl & Ha & Hr & H5) Ht.
destruct (split_at (0 :: slack) (length t)) as (y & slack' & E & El); [cbn [length]; lia|]. cbn [length] in El. rewrite E.
assert (ty <> 0) by (intros ->; specialize (H5 eq_refl); lia).
eexists. rewrite put_mk by (try done; rewrite length_take; cbn [length]; lia). eexists. split; [done|].
rewrite app_assoc. split; [apply sdsIncrLen_mk; try done; try lia; rewrite length_app; lia|].
exists ty, a, slack'. rewrite length_app, Nat2Z.inj_add. unfold fits in *. repeat split; try done; try apply Hty; lia.
Qed.

(** To trim the string on the right. *)
Lemma sdsIncrLen_down s str k :
  rep s str -> (0 < k <= length str)%nat -> exists s', sdsIncrLen s (- Z.of_nat k) = inr s' /\ rep s' (take (length str - k) str).
Proof.
intros (ty & a & slack & -> & Hty & Hl & Ha & Hr & H5) Hk.
destruct (split_at (str ++ 0 :: slack) (length str - k)) as (y & slack' & E & El); [rewrite length_app; cbn [length]; lia|].
rewrite take_app_le in E by lia. rewrite length_app in El. cbn [length] in El. rewrite E.
set (m := (length str - k)%nat). assert (length (take m str) = m) as Em by (rewrite length_take; lia).
eexists. split; [apply sdsIncrLen_mk; try done; lia|]. replace (len_ str + - Z.of_nat k) with (len_ (take m str)) by lia. unfold fits in *.
destruct (Z.eq_dec ty 0) as [->|]; [exists 0, (len_ (take m str)), slack'|exists ty, a, slack']; unfold fits; repeat split; try done; try apply Hty; lia.
Qed.
End Ops.
