(* ===== verification/SdsEdit.v ===== *)
(** * Simple dynamic strings: editing

    Substrings, trimming and mapping in place, and [sdscatfmt], against functions on the bytes. *)

From S2P Require Import Prelude Bytes StringMatch NumString NumStringFacts Sds SdsFacts SdsRep SdsRoom SdsOps.

(** ** What the functions mean *)

Definition substr (str : bytes) (start len : Z) : bytes := take (Z.to_nat len) (drop (Z.to_nat start) str).
Definition range (str : bytes) (start last : Z) : bytes :=
  let start := if start <? 0 then len_ str + start else start in
  let last := if last <? 0 then len_ str + last else last in
  if (last <? start) || (start <? 0) then [] else substr str start (last - start + 1).
Fixpoint strip (cset l : bytes) : bytes := match l with [] => [] | c :: l' => if strchr cset c then strip cset l' else l end.
Definition strip_right (cset l : bytes) : bytes := rev (strip cset (rev l)).
Fixpoint until_null (l : bytes) : bytes := match l with [] => [] | c :: l' => if c =? 0 then [] else c :: until_null l' end.

Lemma strip_length cset l : (length (strip cset l) <= length l)%nat.
Proof. induction l as [|c l IH]; [done|]. cbn [strip length]. destruct (strchr cset c); cbn [length]; lia. Qed.

Section Edit.
Context `{Allocator}.

(** ** Substrings *)

Lemma put_same s str t rest : rep s str -> str = t ++ rest -> put_at s 0 t = inr s.
Proof.
intros (ty & a & slack & -> & Hty & _) ->. rewrite <- app_assoc.
apply (put_mk ty (len_ (t ++ rest)) a [] t t (rest ++ 0 :: slack) 0); done.
Qed.

(** The end of [sdstrim] and of [sdssubstr]; [c]: whether the bytes have to be moved. *)
Lemma shrink_ok s str (c : bool) sp t n :
  rep s str -> 0 <= sp -> n = len_ t -> sp + n <= len_ str -> t = substr str sp n -> (c = false -> sp = 0 \/ n = 0) ->
  exists s', (s ← (if c then bs ← read_at s sp n; put_at s 0 bs else mret s); s ← put_at s n [0]; sdssetlen s n) = inr s' /\ rep s' t.
Proof.
intros Hs Hsp -> Hle Et Hc. destruct (overwrite_front _ _ _ _ t Hs ltac:(lia) ltac:(lia)) as (s1 & _ & E1 & (s2 & E2 & s3 & E3 & H3) & _).
assert ((if c then bs ← read_at s sp (len_ t); put_at s 0 bs else mret s) = inr s1) as ->.
{ destruct c; [rewrite (read_holds _ _ _ _ _ _ Hs) by lia; steps; unfold substr in Et; by rewrite <- Et|].
  rewrite <- E1. symmetry. apply (put_same _ _ _ (drop (length t) str) Hs). destruct (Hc eq_refl) as [->|En].
  - unfold substr in Et. change (Z.to_nat 0) with 0%nat in Et. rewrite Nat2Z.id, drop_0 in Et. rewrite Et at 1. by rewrite take_drop.
  - destruct t; [done|cbn [length] in En; lia]. }
steps. rewrite E2. steps. rewrite E3. eauto.
Qed.

Lemma sdssubstr_ok s str start len :
  rep s str -> len_ str < 2 ^ 62 -> 0 <= start -> 0 <= len -> exists s', sdssubstr s start len = inr s' /\ rep s' (substr str start len).
Proof.
intros Hs Hlt Hst Hlen. unfold sdssubstr. rewrite (sdslen_holds _ _ _ _ Hs). steps.
assert (length (substr str start len) = Nat.min (Z.to_nat len) (length str - Z.to_nat start)) as El by (unfold substr; by rewrite length_take, length_drop).
destruct (Z.leb_spec (len_ str) start) as [Hge|Hin].
- cbn [Z.ltb]. rewrite wrap_u_id by (unfold in_u; lia). destruct (Z.ltb_spec (len_ str - 0) 0); [lia|]. cbn [Z.eqb negb].
  apply (shrink_ok s str false 0); try done; try lia. unfold substr. change (Z.to_nat 0) with 0%nat. rewrite drop_0, take_0.
  rewrite drop_ge by lia. by rewrite take_nil.
- rewrite wrap_u_id by (unfold in_u; lia). apply (shrink_ok s str); try done; try lia.
  + rewrite El. destruct (Z.ltb_spec (len_ str - start) len); lia.
  + destruct (Z.ltb_spec (len_ str - start) len); lia.
  + destruct (Z.ltb_spec (len_ str - start) len); [|done]. unfold substr. rewrite !take_ge by (rewrite length_drop; lia). done.
Qed.

Lemma sdsrange_ok s str start last :
  rep s str -> len_ str < 2 ^ 62 -> in_s 63 start -> in_s 63 last -> exists s', sdsrange s start last = inr s' /\ rep s' (range str start last).
Proof.
intros Hs Hlt H1 H2. unfold in_s in H1, H2. cbn in H1, H2. unfold sdsrange. rewrite (sdslen_holds _ _ _ _ Hs). steps.
destruct (Z.eqb_spec (len_ str) 0) as [E0|Hne].
{ exists s. split; [done|]. destruct str; [|cbn [length] in E0; lia]. unfold range, substr. rewrite drop_nil, take_nil. by destruct (_ || _). }
unfold range. rewrite !(wrap_s_id 64) by (unfold in_s; cbn; lia).
set (st := if start <? 0 then _ else start). set (la := if last <? 0 then _ else last).
assert (- 2 ^ 62 < st < 2 ^ 62) by (subst st; destruct (Z.ltb_spec start 0); lia).
assert (- 2 ^ 62 <= la < 2 ^ 62) by (subst la; destruct (Z.ltb_spec last 0); lia).
assert (exists n, (if la <? st then mret 0 else _ ← defined_if (la - st + 1 <? 2 ^ 63); mret (la - st + 1)) = inr n /\ n = if la <? st then 0 else la - st + 1) as (n & -> & En).
{ eexists. split; [|done]. destruct (Z.ltb_spec la st); [done|]. rewrite (proj2 (Z.ltb_lt _ _)) by lia. done. }
steps. assert (0 <= n) by (subst n; destruct (Z.ltb_spec la st); lia).
destruct (Z.ltb_spec st 0) as [Hneg|Hpos]; [rewrite orb_true_r|rewrite orb_false_r, (wrap_u_id 64) by (unfold in_u; lia)].
- destruct (sdssubstr_ok s str (u64 st) n Hs Hlt) as (s' & E & Hr); [apply (wrap_u_range 64); lia|done|]. exists s'. split; [done|].
  unfold substr in Hr. rewrite drop_ge, take_nil in Hr; [done|]. unfold wrap_u. replace st with (st + 2 ^ 64 + (-1) * 2 ^ 64) by lia.
  rewrite Z.mod_add, Z.mod_small by lia. lia.
- destruct (sdssubstr_ok s str st n Hs Hlt Hpos) as (s' & E & Hr); [done|]. exists s'. split; [done|]. subst n. destruct (la <? st); [|done]. exact Hr.
Qed.

(** ** Trimming *)

Lemma get_holds x s pre c post n : holds x s (pre ++ c :: post) n -> get_at s (len_ pre) = inr c.
Proof. intros (ty & a & slack & -> & Hty & _). rewrite <- app_assoc. by apply get_mk. Qed.

Lemma trim_left_ok x s n cset rest : forall pre fuel,
  holds x s (pre ++ rest) n -> (length rest <= fuel)%nat ->
  trim_left fuel s cset (len_ pre) (len_ (pre ++ rest) - 1) = inr (len_ (pre ++ rest) - len_ (strip cset rest)).
Proof.
induction rest as [|c rest IH]; intros pre fuel Hs Hf.
- rewrite app_nil_r. destruct fuel; cbn [trim_left strip length]; rewrite (proj2 (Z.leb_gt _ _)) by lia; by rewrite Z.sub_0_r.
- destruct fuel as [|fuel]; [cbn [length] in Hf; lia|]. cbn [trim_left strip]. pose proof (length_app pre (c :: rest)) as El. cbn [length] in El, Hf.
  rewrite (proj2 (Z.leb_le _ _)), (get_holds _ _ _ _ _ _ Hs) by lia. steps. destruct (strchr cset c); [|cbn [length]; f_equal; lia].
  specialize (IH (pre ++ [c]) fuel). rewrite <- app_assoc, (length_app pre [c]) in IH. cbn [length app] in IH.
  rewrite Nat2Z.inj_add in IH. apply IH; [done|lia].
Qed.

Lemma trim_right_ok x s n cset pre mid : forall post fuel,
  holds x s (pre ++ mid ++ post) n -> (length mid <= fuel)%nat -> strip cset mid = mid ->
  trim_right fuel s cset (len_ pre) (len_ pre + len_ mid - 1) = inr (len_ pre + len_ (strip_right cset mid) - 1).
Proof.
induction mid as [|c mid IH] using rev_ind; intros post fuel Hs Hf Hst.
- destruct fuel; cbn [trim_right length strip_right rev strip]; rewrite (proj2 (Z.ltb_ge _ _)) by lia; done.
- unfold strip_right. rewrite rev_app_distr. cbn [rev app strip]. rewrite length_app in *. cbn [length] in *.
  destruct fuel as [|fuel]; [lia|]. cbn [trim_right]. destruct (Z.ltb_spec (len_ pre) (len_ pre + Z.of_nat (length mid + 1) - 1)) as [Hlt|Hge].
  + replace (len_ pre + Z.of_nat (length mid + 1) - 1) with (len_ (pre ++ mid)) by (rewrite length_app; lia).
    rewrite <- app_assoc, app_assoc in Hs. cbn [app] in Hs. rewrite (get_holds _ _ _ _ _ _ Hs). steps. destruct (strchr cset c) eqn:Ec.
    * rewrite <- app_assoc in Hs. replace (len_ (pre ++ mid) - 1) with (len_ pre + len_ mid - 1) by (rewrite length_app; lia).
      apply (IH (c :: post)); [done|lia|]. destruct mid as [|d mid]; [done|]. cbn [app strip] in Hst |- *. destruct (strchr cset d) eqn:Ed; [|done].
      exfalso. apply (f_equal length) in Hst. pose proof (strip_length cset (mid ++ [c])). cbn [length] in Hst. lia.
    * rewrite length_rev. cbn [length]. rewrite length_rev, length_app. f_equal. lia.
  + destruct mid as [|d mid]; [|cbn [length] in Hge; lia]. cbn [app strip] in Hst. destruct (strchr cset c); [done|]. cbn [length rev app]. done.
Qed.

Lemma strip_suffix cset l : exists pre, l = pre ++ strip cset l.
Proof. induction l as [|c l [pre IH]]; [by exists []|]. cbn [strip]. destruct (strchr cset c); [|by exists []]. exists (c :: pre). cbn [app]. by rewrite <- IH. Qed.

Lemma strip_right_prefix cset l : exists post, l = strip_right cset l ++ post.
Proof.
destruct (strip_suffix cset (rev l)) as [pre E]. exists (rev pre). unfold strip_right. rewrite <- rev_app_distr, <- E. by rewrite rev_involutive.
Qed.

Lemma strip_idem cset l : strip cset (strip cset l) = strip cset l.
Proof. induction l as [|c l IH]; [done|]. cbn [strip]. destruct (strchr cset c) eqn:E; [done|]. cbn [strip]. by rewrite E. Qed.

Lemma holds_length x s str n : holds x s str n -> (length str <= length (block s))%nat.
Proof. intros (ty & a & slack & -> & _). cbn [mk block]. rewrite !length_app. lia. Qed.

Lemma sdstrim_ok s str cset : rep s str -> exists s', sdstrim s cset = inr s' /\ rep s' (strip_right cset (strip cset str)).
Proof.
intros Hs. unfold sdstrim. rewrite (sdslen_holds _ _ _ _ Hs). steps. pose proof (holds_length _ _ _ _ Hs) as Hb.
pose proof (trim_left_ok _ s 0 cset str [] (length (block s)) Hs Hb) as E1. cbn [app] in E1. change (len_ []) with 0 in E1. rewrite E1. steps.
destruct (strip_suffix cset str) as [pre Epre]. set (mid := strip cset str) in *. assert (strip cset mid = mid) as Hid by apply strip_idem.
assert (len_ str = len_ pre + len_ mid) as El by (rewrite Epre, length_app; lia).
pose proof Hs as Hs'. rewrite Epre in Hs'. rewrite <- (app_nil_r mid) in Hs'.
pose proof (trim_right_ok _ s 0 cset pre mid [] (length (block s)) Hs' ltac:(lia) Hid) as E2.
replace (len_ str - len_ mid) with (len_ pre) by lia. replace (len_ str - 1) with (len_ pre + len_ mid - 1) by lia. rewrite E2. steps.
destruct (strip_right_prefix cset mid) as [post Epost]. set (t := strip_right cset mid) in *.
replace (len_ pre + len_ t - 1 - len_ pre + 1) with (len_ t) by lia. apply (shrink_ok s str); try done; [lia|rewrite El, Epost, length_app; lia|..].
- unfold substr. rewrite Epre, Epost. rewrite !Nat2Z.id. by rewrite drop_app_length, take_app_length.
- intros Hc. left. destruct (Z.eqb_spec (len_ pre) 0); [lia|done].
Qed.

(** ** Mapping *)

Lemma put_holds x s pre c d post n : holds x s (pre ++ c :: post) n -> exists s', put_at s (len_ pre) [d] = inr s' /\ holds x s' (pre ++ d :: post) n.
Proof.
intros (ty & a & slack & -> & Hty & Hrest). rewrite <- app_assoc. rewrite length_app in *. cbn [length app] in *.
eexists. split; [apply (put_mk ty _ a pre [c] [d]); done|]. exists ty, a, slack. rewrite <- app_assoc, length_app. by cbn [length app].
Qed.

Lemma map_loop f x n todo : forall pre s,
  holds x s (pre ++ todo) n -> exists s', for_each (map_turn f) s (seqZ (len_ pre) (len_ todo)) = inr s' /\ holds x s' (pre ++ map f todo) n.
Proof.
induction todo as [|c todo IH]; intros pre s Hs; [by exists s|]. rewrite seqZ_cons by (cbn [length]; lia). cbn [for_each map].
destruct (put_holds _ _ _ _ (f c) _ _ Hs) as (s1 & E1 & H1).
assert (map_turn f s (len_ pre) = inr s1) as -> by (unfold map_turn; by rewrite (get_holds _ _ _ _ _ _ Hs)). steps.
specialize (IH (pre ++ [f c]) s1). rewrite <- !app_assoc, length_app in IH. cbn [app length] in IH.
replace (Z.succ (len_ pre)) with (Z.of_nat (length pre + 1)) by lia. replace (Z.pred (len_ (c :: todo))) with (len_ todo) by (cbn [length]; lia). by apply IH.
Qed.

Lemma map_ok f s str : rep s str -> exists s', (len ← sdslen s; for_each (map_turn f) s (seqZ 0 len)) = inr s' /\ rep s' (map f str).
Proof. intros Hs. rewrite (sdslen_holds _ _ _ _ Hs). steps. exact (map_loop f 0 0 str [] s Hs). Qed.

Lemma until_null_split l : exists rest, l ++ [0] = until_null l ++ 0 :: rest.
Proof. induction l as [|c l [rest IH]]; [by exists []|]. cbn [app until_null]. destruct (Z.eqb_spec c 0) as [->|]; [by eexists|]. exists rest. cbn [app]. by rewrite <- IH. Qed.

Lemma until_null_nonzero l : ~ In 0 (until_null l).
Proof. induction l as [|c l IH]; [by intros []|]. cbn [until_null]. destruct (Z.eqb_spec c 0); [by intros []|]. intros [|]; [lia|done]. Qed.

Lemma sdsupdatelen_ok s str : rep s str -> exists s', sdsupdatelen s = inr s' /\ rep s' (until_null str).
Proof.
intros Hs. unfold sdsupdatelen. destruct (drop_base _ _ _ _ Hs) as (rest & ->). destruct Hs as (ty & a & slack & -> & Hty & Hl & Ha & Hr & H5).
destruct (until_null_split str) as [more Em]. set (t := until_null str) in *.
assert (forall r, str ++ 0 :: r = t ++ 0 :: more ++ r) as Er.
{ intros r. change (0 :: r) with ([0] ++ r). rewrite app_assoc, Em, <- app_assoc. done. }
rewrite (Er rest), strlen_ok by apply until_null_nonzero. steps. apply (f_equal length) in Em. rewrite !length_app in Em. cbn [length] in Em.
unfold fits in *. rewrite sdssetlen_mk by (try done; unfold fits; lia). eexists. split; [done|]. rewrite Er.
destruct (Z.eq_dec ty 0) as [->|]; [exists 0, (len_ t), (more ++ slack)|exists ty, a, (more ++ slack)]; unfold fits; rewrite length_app;
  repeat split; try done; try apply Hty; lia.
Qed.
End Edit.

(** ** Simple dynamic strings: [sdscatfmt]

    The text that a format and its arguments mean, and that [sdscatfmt] appends it, with the
    string unterminated and growing while it is written. *)

(** ** The text *)

(** The arguments, with what an sds string holds. *)
Inductive textarg := TStr (t : bytes) | TSds (t : bytes) | TInt (n : Z).

Definition number_text (next n : Z) : bytes :=
  if next =? 105 then decimal (wrap_s 32 n) else if next =? 73 then decimal (wrap_s 64 n) else if next =? 117 then dec (u32 n) else dec (u64 n).
Definition directive_text (next : Z) (ap : list textarg) : option (bytes * list textarg) :=
  if (next =? 115) || (next =? 83) then
    match ap with
    | TStr t :: ap => if next =? 115 then Some (t, ap) else None
    | TSds t :: ap => if next =? 83 then Some (t, ap) else None
    | _ => None
    end
  else if (next =? 105) || (next =? 73) || (next =? 117) || (next =? 85) then
    match ap with TInt n :: ap => Some (number_text next n, ap) | _ => None end
  else Some ([next], ap).

Fixpoint fmt_text (f : bytes) (ap : list textarg) : option bytes :=
  match f with
  | [] => Some []
  | c :: f' =>
      if c =? 37 then
        match f' with
        | [] => Some []
        | next :: f'' => '(t, ap) ← directive_text next ap; rest ← fmt_text f'' ap; Some (t ++ rest)
        end
      else rest ← fmt_text f' ap; Some (c :: rest)
  end.

Inductive arg_means : fmtarg -> textarg -> Prop :=
  | means_str t : ~ In 0 t -> arg_means (Str t) (TStr t)
  | means_sds s t : rep s t -> arg_means (SdsArg s) (TSds t)
  | means_int n : arg_means (Int n) (TInt n).

Section Fmt.
Context `{Allocator}.

(** ** Appending to an unterminated string *)

(** [s] has the bytes of [str], and something after them. *)
Definition unterminated (s : sds) (str : bytes) : Prop := exists x, holds x s str 0.

Lemma append_text_ok s str t rest :
  unterminated s str -> len_ str + len_ t < 2 ^ 62 ->
  exists s', append s (len_ str) (t ++ rest) (len_ t) = inr (s', len_ (str ++ t)) /\ unterminated s' (str ++ t).
Proof.
intros [x Hs] Hlt. unfold append. destruct (sdsavail_holds _ _ _ _ Hs ltac:(lia)) as (v & -> & Hv & Hh). steps.
assert (exists s1, (if v <? len_ t then sdsMakeRoomFor s (len_ t) else mret s) = inr s1 /\ holds x s1 str (len_ t)) as (s1 & -> & H1).
{ destruct (Z.ltb_spec v (len_ t)); [apply _sdsMakeRoomFor_ok; (done || lia)|]. exists s. split; [done|]. apply (holds_weaken _ _ _ _ _ Hh). lia. }
steps. pose proof (read_parts (Z.to_nat (len_ t)) 0 [] t rest (Nat2Z.id _) eq_refl) as Er. rewrite !app_nil_l in Er. rewrite Er. steps.
destruct (put_end _ s1 str _ t H1 ltac:(lia)) as (s2 & y & -> & Ei & s3 & E3 & H3). steps. rewrite Ei, E3 by done. steps.
exists s3. split; [rewrite length_app, Nat2Z.inj_add; done|]. exists y. apply (holds_weaken _ _ _ _ _ H3). lia.
Qed.

Lemma append_char_ok x s str n c :
  holds x s str n -> 1 <= n -> exists s', append_char s (len_ str) c = inr (s', len_ (str ++ [c])) /\ unterminated s' (str ++ [c]).
Proof.
intros Hs Hn. unfold append_char. destruct (put_end _ s str _ [c] Hs Hn) as (s2 & y & -> & Ei & s3 & E3 & H3). steps.
change 1 with (len_ [c]). rewrite Ei, E3 by done. steps. exists s3. split; [rewrite length_app, Nat2Z.inj_add; done|].
exists y. apply (holds_weaken _ _ _ _ _ H3). cbn [length]. lia.
Qed.

Lemma buffer_ok v : in_s 64 v -> exists rest, ll2string (replicate (Z.to_nat LONG_STR_SIZE) junk) v = inr (len_ (decimal v), decimal v ++ rest).
Proof.
intros Hv. pose proof (length_decimal v Hv). rewrite ll2string_ok by (try done; rewrite length_replicate; change (Z.to_nat LONG_STR_SIZE) with 21%nat; lia). eauto.
Qed.

Lemma ubuffer_ok v : in_u 64 v -> exists rest, ull2string (replicate (Z.to_nat LONG_STR_SIZE) junk) v = inr (len_ (dec v), dec v ++ rest).
Proof.
intros Hv. destruct (digits10_length v Hv) as [_ Hl]. rewrite ull2string_ok by (try done; rewrite length_replicate; change (Z.to_nat LONG_STR_SIZE) with 21%nat; lia). eauto.
Qed.

Lemma number_ok next n :
  let buf := replicate (Z.to_nat LONG_STR_SIZE) junk in
  exists rest, (if next =? 105 then ll2string buf (wrap_s 32 n) else if next =? 73 then ll2string buf (wrap_s 64 n)
                else if next =? 117 then ull2string buf (u32 n) else ull2string buf (u64 n)) = inr (len_ (number_text next n), number_text next n ++ rest).
Proof.
intros buf. unfold number_text. pose proof (wrap_s_range 32 n ltac:(lia)) as H32. pose proof (wrap_u_range 32 n ltac:(lia)) as U32. unfold in_s, in_u in *.
destruct (next =? 105); [apply buffer_ok; unfold in_s; cbn in *; lia|]. destruct (next =? 73); [by apply buffer_ok, wrap_s_range|].
destruct (next =? 117); [apply ubuffer_ok; unfold in_u; cbn in *; lia|by apply ubuffer_ok, wrap_u_range].
Qed.

Lemma directive_ok x s str next ap tap t tap' :
  holds x s str 1 -> Forall2 arg_means ap tap -> directive_text next tap = Some (t, tap') -> len_ str + len_ t < 2 ^ 62 ->
  exists s' ap', directive s (len_ str) next ap = inr (s', len_ (str ++ t), ap') /\ unterminated s' (str ++ t) /\ Forall2 arg_means ap' tap'.
Proof.
intros Hs Hap Et Hlt. assert (unterminated s str) as Hu by (exists x; apply (holds_weaken _ _ _ _ _ Hs); lia).
unfold directive, directive_text in *. destruct ((next =? 115) || (next =? 83)).
- destruct Hap as [|a ta ap tap Ha Hap]; [done|]. destruct Ha as [t0 Hz|s0 t0 H0|n]; [| |done].
  + destruct (next =? 115); [|done]. injection Et as <- <-. rewrite strlen_ok by done. steps.
    destruct (append_text_ok s str t0 [0] Hu Hlt) as (s' & -> & H'). steps. eauto.
  + destruct (next =? 83); [|done]. injection Et as <- <-. rewrite (sdslen_holds _ _ _ _ H0). steps.
    destruct (drop_base _ _ _ _ H0) as (rest & ->). destruct (append_text_ok s str t0 (0 :: rest) Hu Hlt) as (s' & -> & H'). steps. eauto.
- destruct ((next =? 105) || (next =? 73) || (next =? 117) || (next =? 85)).
  + destruct Hap as [|a ta ap tap Ha Hap]; [done|]. destruct Ha as [| |n]; [done..|]. injection Et as <- <-.
    destruct (number_ok next n) as (rest & ->). steps. destruct (append_text_ok s str (number_text next n) rest Hu Hlt) as (s' & -> & H'). steps. eauto.
  + injection Et as <- <-. destruct (append_char_ok x s str 1 next Hs ltac:(lia)) as (s' & -> & H'). steps. eauto.
Qed.

(** [if (sdsavail(s)==0) s = sdsMakeRoomFor(s,1);] *)
Lemma room_for_one s str :
  unterminated s str -> len_ str + 1 < 2 ^ 62 ->
  exists x s', (avail ← sdsavail s; if avail =? 0 then sdsMakeRoomFor s 1 else mret s) = inr s' /\ holds x s' str 1.
Proof.
intros [x Hs] Hlt. exists x. destruct (sdsavail_holds _ _ _ _ Hs ltac:(lia)) as (v & -> & Hv & Hh). steps.
destruct (Z.eqb_spec v 0); [apply _sdsMakeRoomFor_ok; (done || lia)|]. exists s. split; [done|]. apply (holds_weaken _ _ _ _ _ Hh). lia.
Qed.

Lemma fmt_loop_ok (n : nat) : forall f s str ap tap t,
  (length f <= n)%nat -> unterminated s str -> Forall2 arg_means ap tap -> fmt_text f tap = Some t -> len_ str + len_ t + 1 < 2 ^ 62 ->
  exists s', fmt_loop s (len_ str) f ap = inr (s', len_ (str ++ t)) /\ unterminated s' (str ++ t).
Proof.
induction n as [|n IH]; intros [|c f] s str ap tap t Hn Hs Hap Et Hlt; cbn [fmt_loop fmt_text] in *;
  [by injection Et as <-; rewrite app_nil_r; eauto|cbn [length] in Hn; lia|by injection Et as <-; rewrite app_nil_r; eauto|].
cbn [length] in Hn. destruct (room_for_one s str Hs ltac:(lia)) as (x & s1 & E1 & H1).
destruct (sdsavail s) as [|v]; [done|]. cbn [mbind result_bind] in E1 |- *. rewrite E1. steps.
destruct (c =? 37).
- destruct f as [|next f]; [injection Et as <-; rewrite app_nil_r; eexists; split; [done|]; exists x; apply (holds_weaken _ _ _ _ _ H1); lia|].
  destruct (directive_text next tap) as [[t1 tap']|] eqn:Ed; [|done]. cbn [mbind option_bind] in Et.
  destruct (fmt_text f tap') as [t2|] eqn:Ef; [|done]. injection Et as <-. rewrite length_app in Hlt.
  destruct (directive_ok x s1 str next ap tap t1 tap' H1 Hap Ed ltac:(lia)) as (s2 & ap' & -> & H2 & Hap'). steps.
  rewrite app_assoc. cbn [length] in Hn. apply (IH f s2 (str ++ t1) ap' tap' t2); try done; [lia|]. rewrite length_app. lia.
- destruct (fmt_text f tap) as [t2|] eqn:Ef; [|done]. injection Et as <-. cbn [length] in Hlt.
  destruct (append_char_ok x s1 str 1 c H1 ltac:(lia)) as (s2 & -> & H2). steps.
  change (c :: t2) with ([c] ++ t2). rewrite app_assoc. apply (IH f s2 (str ++ [c]) ap tap t2); try done; [lia|]. rewrite length_app. cbn [length]. lia.
Qed.

Lemma sdscatfmt_ok s str fmt ap tap t :
  rep s str -> Forall2 arg_means ap tap -> fmt_text fmt tap = Some t -> len_ str + 2 * len_ fmt < 2 ^ 62 -> len_ str + len_ t + 1 < 2 ^ 62 ->
  exists s', sdscatfmt s fmt ap = inr s' /\ rep s' (str ++ t).
Proof.
intros Hs Hap Et H1 H2. unfold sdscatfmt. rewrite (sdslen_holds _ _ _ _ Hs). steps.
destruct (_sdsMakeRoomFor_ok 0 s str (len_ fmt * 2) true Hs ltac:(lia) ltac:(lia)) as (s1 & E1 & Hs1). unfold sdsMakeRoomFor at 1. rewrite E1. steps.
destruct (fmt_loop_ok (length fmt) fmt s1 str ap tap t) as (s2 & -> & [x Hs2]); [lia|exists 0; apply (holds_weaken _ _ _ _ _ Hs1); lia|done..|]. steps.
destruct (terminate _ _ _ _ Hs2) as (s3 & E3 & Hs3). rewrite E3. eauto.
Qed.
End Fmt.
