(* ===== verification/SdsRun.v ===== *)
(** * Simple dynamic strings: sessions

    Any sequence of operations on a string, whatever the allocator returns, does what the
    operations mean on lists of bytes. *)

From S2P Require Import Prelude Bytes NumString NumStringFacts StringMatch Sds SdsFacts SdsRep SdsRoom SdsOps SdsEdit.

Inductive sds_op :=
  | Cat (t : bytes) | CatString (t : bytes) | CatSds (t : bytes) | CatFmt (fmt : bytes) (ap : list textarg)
  | Cpy (t : bytes) | GrowZero (len : Z) | Clear | UpdateLen | Dup
  | MakeRoom (n : Z) (greedy : bool) | Resize (size : Z) (would_regrow : bool) | RemoveFreeSpace (would_regrow : bool)
  | Fill (t : bytes) | TrimRight (k : nat)
  | Trim (cset : bytes) | Substr (start len : Z) | Range (start last : Z) | ToLower | ToUpper | MapChars (from to : bytes).

Lemma rep_facts s str :
  rep s str -> read_at s 0 (len_ str + 1) = inr (str ++ [0]) /\
  exists alloc avail, sdsalloc s = inr alloc /\ sdsavail s = inr avail /\ alloc = len_ str + avail /\ 0 <= avail /\
    Z.of_nat (base s) + alloc + 1 <= len_ (block s).
Proof.
  intros (ty & a & slack & -> & Hty & Hl & Ha & Hr & H5). split.
  - replace (str ++ 0 :: slack) with ([] ++ (str ++ [0]) ++ slack) by (by rewrite <- app_assoc). apply read_mk; [done..|rewrite length_app; cbn [length]; lia].
  - rewrite sdsalloc_mk, sdsavail_mk by (done || lia). pose proof (max_small ty Hty). unfold fits in *. rewrite wrap_u_id by (unfold in_u; lia).
    eexists _, _. split; [done|]. split; [done|]. split; [destruct (ty =? 0); lia|]. split; [destruct (ty =? 0); lia|].
    cbn [mk base block]. rewrite !length_app, length_hdr by done. cbn [length]. destruct (ty =? 0); lia.
Qed.

Section Run.
Context `{Allocator} (jemalloc : bool).

Definition make_arg (a : textarg) : result fmtarg :=
  match a with TStr t => mret (Str t) | TSds t => s ← sdsnewlen (Init t) (len_ t); mret (SdsArg s) | TInt n => mret (Int n) end.
Fixpoint make_args (ap : list textarg) : result (list fmtarg) :=
  match ap with [] => mret [] | a :: ap => a ← make_arg a; ap ← make_args ap; mret (a :: ap) end.

(** [Fill]: the caller writes to the room at the end, and calls [sdsIncrLen]. *)
Definition sds_do (s : sds) (o : sds_op) : result sds :=
  match o with
  | Cat t => sdscatlen s t (len_ t)
  | CatString t => sdscat s t
  | CatSds t => t' ← sdsnewlen (Init t) (len_ t); sdscatsds s t'
  | CatFmt fmt ap => ap ← make_args ap; sdscatfmt s fmt ap
  | Cpy t => sdscpylen s t (len_ t)
  | GrowZero len => sdsgrowzero s len
  | Clear => sdsclear s
  | UpdateLen => sdsupdatelen s
  | Dup => sdsdup s
  | MakeRoom n greedy => _sdsMakeRoomFor s n greedy
  | Resize size would_regrow => sdsResize jemalloc s size would_regrow
  | RemoveFreeSpace would_regrow => sdsRemoveFreeSpace jemalloc s would_regrow
  | Fill t => s ← sdsMakeRoomFor s (len_ t); len ← sdslen s; s ← put_at s len t; sdsIncrLen s (len_ t)
  | TrimRight k => sdsIncrLen s (- Z.of_nat k)
  | Trim cset => sdstrim s cset
  | Substr start len => sdssubstr s start len
  | Range start last => sdsrange s start last
  | ToLower => sdstolower s
  | ToUpper => sdstoupper s
  | MapChars from to => sdsmapchars s from to
  end.

(** ** What they mean *)

Definition sds_means (str : bytes) (o : sds_op) : bytes :=
  match o with
  | Cat t | CatSds t | Fill t => str ++ t
  | CatString t => str ++ t
  | CatFmt fmt ap => str ++ default [] (fmt_text fmt ap)
  | Cpy t => t
  | GrowZero len => str ++ replicate (Z.to_nat len - length str) 0
  | Clear => []
  | UpdateLen => until_null str
  | Dup | MakeRoom _ _ | RemoveFreeSpace _ => str
  | Resize size _ => take (Z.to_nat size) str
  | TrimRight k => take (length str - k) str
  | Trim cset => strip_right cset (strip cset str)
  | Substr start len => substr str start len
  | Range start last => range str start last
  | ToLower => map tolower str
  | ToUpper => map toupper str
  | MapChars from to => map (map_char from to) str
  end.

Definition text_ok (a : textarg) : Prop := match a with TStr t => ~ In 0 t | TSds t => len_ t < 2 ^ 62 | TInt _ => True end.
(** The sizes stay below [2^62], and the arguments are what the functions ask for. *)
Definition sds_allowed (str : bytes) (o : sds_op) : Prop :=
  len_ str < 2 ^ 62 /\
  match o with
  | Cat t | CatSds t | Cpy t => len_ str + len_ t < 2 ^ 62
  | CatString t => ~ In 0 t /\ len_ str + len_ t < 2 ^ 62
  | Fill t => t <> [] /\ len_ str + len_ t < 2 ^ 62
  | CatFmt fmt ap => Forall text_ok ap /\ len_ str + 2 * len_ fmt < 2 ^ 62 /\ exists t, fmt_text fmt ap = Some t /\ len_ str + len_ t + 1 < 2 ^ 62
  | GrowZero len => 0 <= len < 2 ^ 62
  | MakeRoom n _ => 0 <= n /\ len_ str + n < 2 ^ 62
  | Resize size _ => 0 <= size < 2 ^ 62
  | TrimRight k => (0 < k <= length str)%nat
  | Substr start len => 0 <= start /\ 0 <= len
  | Range start last => in_s 63 start /\ in_s 63 last
  | _ => True
  end.

Fixpoint sds_session (str : bytes) (os : list sds_op) : Prop :=
  match os with [] => len_ str < 2 ^ 62 | o :: os => sds_allowed str o /\ sds_session (sds_means str o) os end.

Lemma make_args_ok ap : Forall text_ok ap -> exists ap', make_args ap = inr ap' /\ Forall2 arg_means ap' ap.
Proof.
induction 1 as [|a ap Ha _ (ap' & IH & Hm)]; [by exists []|]. cbn [make_args]. destruct a as [t|t|n]; cbn [make_arg text_ok] in *.
- steps. rewrite IH. steps. eexists. split; [done|]. by repeat constructor.
- destruct (sdsnewlen_ok (Init t) t (len_ t) eq_refl Ha) as (s & -> & Hs); [exists []; by rewrite app_nil_r|]. steps. rewrite IH. steps.
  eexists. split; [done|]. by repeat constructor.
- steps. rewrite IH. steps. eexists. split; [done|]. by repeat constructor.
Qed.

Lemma sds_do_ok s str o : rep s str -> sds_allowed str o -> exists s', sds_do s o = inr s' /\ rep s' (sds_means str o).
Proof.
intros Hs [Hlt Ho].
destruct o as [t|t|t|fmt ap|t|len| | | |n greedy|size wr|wr|t|k|cset|start len|start last| | |from to]; cbn [sds_do sds_means] in *.
- pose proof (sdscatlen_ok s str t [] Hs Ho) as Hx. by rewrite app_nil_r in Hx.
- destruct Ho. by apply sdscat_ok.
- destruct (sdsnewlen_ok (Init t) t (len_ t) eq_refl ltac:(lia)) as (t' & -> & Ht); [exists []; by rewrite app_nil_r|]. steps. by apply sdscatsds_ok.
- destruct Ho as (Hap & Hf & t & Et & Ht). rewrite Et. destruct (make_args_ok ap Hap) as (ap' & -> & Hm). steps. by apply (sdscatfmt_ok s str fmt ap' ap t).
- pose proof (sdscpylen_ok s str t [] Hs Ho) as Hx. by rewrite app_nil_r in Hx.
- by apply sdsgrowzero_ok.
- by apply (sdsclear_ok s str).
- by apply sdsupdatelen_ok.
- by apply sdsdup_ok.
- destruct Ho. destruct (_sdsMakeRoomFor_ok 0 s str n greedy Hs) as (s' & E & H'); [done..|]. exists s'. split; [done|]. apply (holds_weaken _ _ _ _ _ H'). lia.
- by apply sdsResize_ok.
- unfold sdsRemoveFreeSpace. rewrite (sdslen_holds _ _ _ _ Hs). steps. pose proof (sdsResize_ok jemalloc s str (len_ str) wr Hs ltac:(lia)) as Hx.
  by rewrite take_ge in Hx by lia.
- destruct Ho as [Hne Ho]. destruct (_sdsMakeRoomFor_ok 0 s str (len_ t) true Hs ltac:(lia) Ho) as (s1 & E1 & H1). unfold sdsMakeRoomFor. rewrite E1. steps.
  rewrite (sdslen_holds _ _ _ _ H1). steps. assert (0 < len_ t) by (destruct t; [done|cbn [length]; lia]).
  destruct (sdsIncrLen_up s1 str (len_ t) t H1 ltac:(lia)) as (s2 & s3 & -> & E3 & H3). steps. eauto.
- by apply sdsIncrLen_down.
- by apply sdstrim_ok.
- destruct Ho. by apply sdssubstr_ok.
- destruct Ho. by apply sdsrange_ok.
- by apply map_ok.
- by apply map_ok.
- by apply map_ok.
Qed.

Lemma sds_run_ok os : forall s str, rep s str -> sds_session str os ->
  exists s', for_each sds_do s os = inr s' /\ rep s' (fold_left sds_means os str) /\ len_ (fold_left sds_means os str) < 2 ^ 62.
Proof.
induction os as [|o os IH]; intros s str Hs Ho; [by exists s|]. cbn [for_each fold_left sds_session] in *. destruct Ho as [Ho Hos].
destruct (sds_do_ok s str o Hs Ho) as (s1 & -> & H1). steps. by apply IH.
Qed.
End Run.

(** C4: strings of sds.c behave as lists of bytes.  Starting from [sdsnewlen], every sequence of
    operations, with sizes below [2^62] and whatever sizes the allocator rounds to, runs without
    an access outside of the block or a failing assertion, through every change of the header's
    type; in the end the bytes are those the operations mean on lists, the length says how many
    they are, a null byte follows them and the allocation is within the block. *)
Theorem sds_refines_bytes `{Allocator} (jemalloc : bool) (str : bytes) (os : list sds_op) :
  sds_session str os ->
  let str' := fold_left sds_means os str in
  exists s, (s ← sdsnewlen (Init str) (len_ str); for_each (sds_do jemalloc) s os) = inr s /\
    sdslen s = inr (len_ str') /\ read_at s 0 (len_ str' + 1) = inr (str' ++ [0]) /\
    exists alloc avail, sdsalloc s = inr alloc /\ sdsavail s = inr avail /\ alloc = len_ str' + avail /\ 0 <= avail /\
      Z.of_nat (base s) + alloc + 1 <= len_ (block s).
Proof.
  intros Ho str'. assert (len_ str < 2 ^ 62) as Hlt by (destruct os; [done|apply Ho]).
  destruct (sdsnewlen_ok (Init str) str (len_ str) eq_refl Hlt) as (s0 & -> & H0); [exists []; by rewrite app_nil_r|]. steps.
  destruct (sds_run_ok jemalloc os s0 str H0 Ho) as (s & -> & Hs & Hl). fold str' in Hs, Hl. exists s. split; [done|].
  split; [by apply (sdslen_holds _ _ _ _ Hs)|]. by apply rep_facts.
Qed.

Definition sample_session : list sds_op :=
  [Cat (replicate 40 97); CatFmt [37; 83; 61; 37; 105; 37; 37] [TSds [107; 0]; TInt (-7)]; Fill [32; 32]; Trim [32; 104]; Resize 300 true; Range (-6) (-2);
   ToUpper; RemoveFreeSpace false; GrowZero 7].

Lemma sds_refines_bytes_witness :
  let str' := [75; 0; 61; 45; 55; 0; 0] in
  exists s, (s ← @sdsnewlen rounding (Init [104; 105]) 2; for_each (@sds_do rounding true) s sample_session) = inr s /\
    sdslen s = inr 7 /\ read_at s 0 8 = inr (str' ++ [0]) /\
    exists alloc avail, sdsalloc s = inr alloc /\ sdsavail s = inr avail /\ alloc = 7 + avail /\ 0 <= avail /\
      Z.of_nat (base s) + alloc + 1 <= len_ (block s).
Proof.
  intros str'. apply (@sds_refines_bytes rounding true [104; 105] sample_session).
  repeat (split; [split; [by_decide|]|]); try by_decide; try done.
  - split; [repeat constructor; by_decide|]. split; [by_decide|]. eexists. split; [vm_compute; reflexivity|by_decide].
Defined.
