(* ===== verification/SdsText.v ===== *)
(** * Splitting, joining and quoting

    The functions of sds.c of Redis that take a text apart or put one together: splitting at a
    separator, joining, the quoted form that [sdscatrepr] writes and [sdssplitargs] reads, and
    templates.  A C string is its bytes without the null byte, a pointer into it is the rest of it. *)

From S2P Require Import Prelude Bytes NumString Sds SdsFacts SdsRep SdsRoom SdsOps.

(** [isspace], [isprint] of the C locale. *)
Definition isspace (c : Z) : bool := (9 <=? c) && (c <=? 13) || (c =? 32).
Definition isprint (c : Z) : bool := (32 <=? c) && (c <=? 126).

(** [*(p+k)], the null byte at the end of the string. *)
Definition peek (p : bytes) (k : nat) : Z := nth k p 0.

Section Text.
Context `{Allocator}.

(** ** Splitting and joining *)

(** The tokens so far, the [slots] of their array, [start] and [j]. *)
Record splitting := mk_splitting { tokens : list sds; slots : Z; start : Z; cursor : Z }.
Definition memcmp_is (s : bytes) (j : Z) (sep : bytes) : result bool := bs ← read (length sep) (Z.to_nat j) s; mret (bool_decide (bs = sep)).
(** [tokens[elements] = sdsnewlen(s+start,n)] *)
Definition add_token (st : splitting) (s : bytes) (n : Z) : result (list sds) :=
  _ ← defined_if (Z.of_nat (length (tokens st)) <? slots st);
  bs ← read (Z.to_nat n) (Z.to_nat (start st)) s;
  t ← sdsnewlen (Init bs) n; mret (tokens st ++ [t]).
Definition split_turn (s sep : bytes) (st : splitting) : result splitting :=
  let seplen := Z.of_nat (length sep) in
  let j := cursor st in
  st ← (if slots st <? Z.of_nat (length (tokens st)) + 2
        then _ ← defined_if (slots st * 2 <? 2 ^ 31); mret (mk_splitting (tokens st) (slots st * 2) (start st) j) else mret st);
  c ← byte_at s j;
  found ← (if (seplen =? 1) && (c =? peek sep 0) then mret true else memcmp_is s j sep);
  if (found : bool) then
    ts ← add_token st s (j - start st);
    mret (mk_splitting ts (slots st) (j + seplen) (j + seplen - 1 + 1))
  else mret (mk_splitting (tokens st) (slots st) (start st) (j + 1)).
Fixpoint split_loop (fuel : nat) (s sep : bytes) (st : splitting) : result splitting :=
  if cursor st <? Z.of_nat (length s) - (Z.of_nat (length sep) - 1) then
    match fuel with O => inl OutOfFuel | S fuel => st ← split_turn s sep st; split_loop fuel s sep st end
  else mret st.
Definition sdssplitlen (s sep : bytes) : result (option (list sds)) :=
  let len := Z.of_nat (length s) in
  if (Z.of_nat (length sep) <? 1) || (len <=? 0) then mret None else
  st ← split_loop (length s) s sep (mk_splitting [] 5 0 0);
  ts ← add_token st s (len - start st);
  mret (Some ts).

Fixpoint sdsjoin_loop (join : sds) (argv : list bytes) (sep : bytes) : result sds :=
  match argv with
  | [] => mret join
  | [a] => sdscat join a
  | a :: argv => join ← sdscat join a; join ← sdscat join sep; sdsjoin_loop join argv sep
  end.
Definition sdsjoin (argv : list bytes) (sep : bytes) : result sds := join ← sdsempty; sdsjoin_loop join argv sep.
Fixpoint sdsjoinsds_loop (join : sds) (argv : list sds) (sep : bytes) : result sds :=
  match argv with
  | [] => mret join
  | [a] => sdscatsds join a
  | a :: argv => join ← sdscatsds join a; join ← sdscatlen join sep (Z.of_nat (length sep)); sdsjoinsds_loop join argv sep
  end.
Definition sdsjoinsds (argv : list sds) (sep : bytes) : result sds := join ← sdsempty; sdsjoinsds_loop join argv sep.

(** ** Quoting *)

Definition hex_digit (d : Z) : Z := if d <? 10 then 48 + d else 87 + d.
Definition repr_turn (s : sds) (c : Z) : result sds :=
  if (c =? 92) || (c =? 34) then sdscat s [92; c]
  else if c =? 10 then sdscatlen s [92; 110] 2
  else if c =? 13 then sdscatlen s [92; 114] 2
  else if c =? 9 then sdscatlen s [92; 116] 2
  else if c =? 7 then sdscatlen s [92; 97] 2
  else if c =? 8 then sdscatlen s [92; 98] 2
  else if isprint c then sdscatlen s [c] 1
  else sdscat s [92; 120; hex_digit (c / 16); hex_digit (c mod 16)].
Definition sdscatrepr (s : sds) (p : bytes) : result sds :=
  s ← sdsMakeRoomFor s (Z.of_nat (length p) + 2);
  s ← sdscatlen s [34] 1;
  s ← for_each repr_turn s p;
  sdscatlen s [34] 1.

Definition needs_repr (c : Z) : bool :=
  (c =? 92) || (c =? 34) || (c =? 10) || (c =? 13) || (c =? 9) || (c =? 7) || (c =? 8) || negb (isprint c) || isspace c.
Definition sdsneedsrepr (s : sds) : result bool := len ← sdslen s; bs ← read_at s 0 len; mret (existsb needs_repr bs).

Definition is_hex_digit (c : Z) : bool := (48 <=? c) && (c <=? 57) || (97 <=? c) && (c <=? 102) || (65 <=? c) && (c <=? 70).
Definition hex_digit_to_int (c : Z) : Z :=
  if (48 <=? c) && (c <=? 57) then c - 48 else if (97 <=? c) && (c <=? 102) then c - 87 else if (65 <=? c) && (c <=? 70) then c - 55 else 0.

(** [inq], [insq]; what a turn of the token's loop leads to, before [if ( *p ) p++]. *)
Inductive quotes := Bare | Inq | Insq.
Inductive token_step := Goes (q : quotes) (current : sds) (p : bytes) | Done (current : sds) (p : bytes) | Err.

Definition append_byte (q : quotes) (current : sds) (c : Z) (p : bytes) : result token_step := current ← sdscatlen current [c] 1; mret (Goes q current p).
Definition close_quote (current : sds) (p : bytes) : result token_step :=
  mret (if negb (peek p 1 =? 0) && negb (isspace (peek p 1)) then Err else Done current p).
Definition unescape (c : Z) : Z :=
  if c =? 110 then 10 else if c =? 114 then 13 else if c =? 116 then 9 else if c =? 98 then 8 else if c =? 97 then 7 else c.

Definition token_turn (q : quotes) (current : sds) (p : bytes) : result token_step :=
  match q with
  | Inq =>
      if (peek p 0 =? 92) && (peek p 1 =? 120) && is_hex_digit (peek p 2) && is_hex_digit (peek p 3) then
        append_byte Inq current (u8 (hex_digit_to_int (peek p 2) * 16 + hex_digit_to_int (peek p 3))) (drop 3 p)
      else if (peek p 0 =? 92) && negb (peek p 1 =? 0) then append_byte Inq current (unescape (peek p 1)) (drop 1 p)
      else if peek p 0 =? 34 then close_quote current p
      else if peek p 0 =? 0 then mret Err
      else append_byte Inq current (peek p 0) p
  | Insq =>
      if (peek p 0 =? 92) && (peek p 1 =? 39) then append_byte Insq current 39 (drop 1 p)
      else if peek p 0 =? 39 then close_quote current p
      else if peek p 0 =? 0 then mret Err
      else append_byte Insq current (peek p 0) p
  | Bare =>
      let c := peek p 0 in
      if (c =? 32) || (c =? 10) || (c =? 13) || (c =? 9) || (c =? 0) then mret (Done current p)
      else if c =? 34 then mret (Goes Inq current p)
      else if c =? 39 then mret (Goes Insq current p)
      else append_byte Bare current c p
  end.
Fixpoint get_token (fuel : nat) (q : quotes) (current : sds) (p : bytes) : result (option (sds * bytes)) :=
  st ← token_turn q current p;
  match st with
  | Goes q current p => match fuel with O => inl OutOfFuel | S fuel => get_token fuel q current (drop 1 p) end
  | Done current p => mret (Some (current, drop 1 p))
  | Err => mret None
  end.
Fixpoint skip_blanks (p : bytes) : bytes := match p with c :: p' => if isspace c then skip_blanks p' else p | [] => [] end.
Fixpoint splitargs_loop (fuel : nat) (vector : list sds) (p : bytes) : result (option (list sds)) :=
  let p := skip_blanks p in
  if peek p 0 =? 0 then mret (Some vector) else
  current ← sdsempty;
  tok ← get_token (length p) Bare current p;
  match tok with
  | None => mret None
  | Some (current, p) => match fuel with O => inl OutOfFuel | S fuel => splitargs_loop fuel (vector ++ [current]) p end
  end.
Definition sdssplitargs (line : bytes) : result (option (list sds)) := splitargs_loop (length line) [] line.

(** [replicationFeedMonitors]: the arguments of a command, an integer or a string each. *)
Inductive argument := IntObj (n : Z) | StrObj (s : sds).
Definition feed_arg (cmdrepr : sds) (a : argument) : result sds :=
  match a with
  | IntObj n => sdscat cmdrepr ([34] ++ decimal n ++ [34])
  | StrObj s => len ← sdslen s; bs ← read_at s 0 len; sdscatrepr cmdrepr bs
  end.
Fixpoint feed_args (cmdrepr : sds) (argv : list argument) : result sds :=
  match argv with
  | [] => mret cmdrepr
  | [a] => feed_arg cmdrepr a
  | a :: argv => cmdrepr ← feed_arg cmdrepr a; cmdrepr ← sdscatlen cmdrepr [32] 1; feed_args cmdrepr argv
  end.

(** ** Templates *)

(** [strchr(p,c)]: what is before the character, and the rest from it. *)
Fixpoint strchr_from (c : Z) (p : bytes) : option (bytes * bytes) :=
  match p with
  | [] => None
  | x :: p' => if x =? c then Some ([], p) else '(before, rest) ← strchr_from c p'; Some (x :: before, rest)
  end.
(** [cb_func]: the text of a variable. *)
Fixpoint template_loop (fuel : nat) (cb_func : bytes -> option bytes) (res : sds) (p : bytes) : result (option sds) :=
  match p with
  | [] => mret (Some res)
  | _ =>
      match strchr_from 123 p with
      | None => res ← sdscat res p; mret (Some res)
      | Some (before, sv) =>
          res ← (if (0 <? length before)%nat then sdscatlen res before (Z.of_nat (length before)) else mret res);
          let sv := drop 1 sv in
          if peek sv 0 =? 0 then mret None
          else match fuel with
          | O => inl OutOfFuel
          | S fuel =>
              if peek sv 0 =? 123 then res ← sdscat res [123]; template_loop fuel cb_func res (drop 1 sv)
              else match strchr_from 125 sv with
              | None => mret None
              | Some (name, ev) =>
                  match cb_func name with
                  | None => mret None
                  | Some value => res ← sdscat res value; template_loop fuel cb_func res (drop 1 ev)
                  end
              end
          end
      end
  end.
Definition sdstemplate (template : bytes) (cb_func : bytes -> option bytes) : result (option sds) :=
  res ← sdsempty; template_loop (length template) cb_func res template.
End Text.

(** ** Simple dynamic strings: splitting and joining

    [sdssplitlen] cuts at the leftmost separators, the array it fills has a slot for each token,
    and joining the tokens gives the text back. *)

(** ** Joining, on bytes *)

Fixpoint join (sep : bytes) (ts : list bytes) : bytes :=
  match ts with [] => [] | [t] => t | t :: ts => t ++ sep ++ join sep ts end.
(** The separator after each. *)
Definition ended (sep : bytes) (ts : list bytes) : bytes := concat (map (fun t => t ++ sep) ts).

Lemma join_snoc sep ts t : join sep (ts ++ [t]) = ended sep ts ++ t.
Proof.
  induction ts as [|u ts IH]; [done|]. unfold ended in *. cbn [map concat app]. rewrite <- app_assoc, <- IH.
  destruct ts; [cbn [app join]; by rewrite <- app_assoc|]. cbn [app join]. by rewrite <- app_assoc.
Qed.

Lemma ended_snoc sep ts t : ended sep (ts ++ [t]) = ended sep ts ++ t ++ sep.
Proof. unfold ended. rewrite map_app, concat_app. cbn [map concat]. by rewrite app_nil_r. Qed.

(** [sep] is not in [s] at [k]. *)
Definition not_at (sep s : bytes) (k : nat) : Prop := take (length sep) (drop k s) <> sep.
(** A token that the first separator after its beginning ends, and the last token. *)
Definition ends_at_first (sep t : bytes) : Prop := forall k, (k < length t)%nat -> not_at sep (t ++ sep) k.
Definition free_of (sep t : bytes) : Prop := forall k, (k + length sep <= length t)%nat -> not_at sep t k.

Lemma not_at_app sep s rest k : (k + length sep <= length s)%nat -> not_at sep (s ++ rest) k <-> not_at sep s k.
Proof.
  intros Hk. unfold not_at. rewrite drop_app_le by lia. by rewrite take_app_le by (rewrite length_drop; lia).
Qed.

Section Split.
Context `{Allocator} (sep : bytes) (Hsep : (1 <= length sep)%nat).

(** ** [sdssplitlen] *)

(** [cur] has been passed since the last separator, [rest] is left. *)
Record scanning (s : bytes) (st : splitting) (toks : list bytes) (cur rest : bytes) : Prop := {
  sc_text : s = ended sep toks ++ cur ++ rest;
  sc_tokens : Forall2 rep (tokens st) toks;
  sc_start : start st = len_ (ended sep toks);
  sc_cursor : cursor st = len_ (ended sep toks) + len_ cur;
  sc_slots : len_ toks + 1 <= slots st <= 2 * len_ toks + 5;
  sc_first : Forall (ends_at_first sep) toks;
  sc_cur : forall k, (k < length cur)%nat -> not_at sep (cur ++ rest) k;
}.

Lemma memcmp_ok (s : bytes) (pre : bytes) (rest : bytes) :
  s = pre ++ rest -> (length sep <= length rest)%nat -> memcmp_is s (len_ pre) sep = inr (bool_decide (take (length sep) rest = sep)).
Proof.
intros -> Hl. unfold memcmp_is. rewrite read_ok by (rewrite length_app; lia). steps. by rewrite Nat2Z.id, drop_app_length.
Qed.

(** The test of the loop, with its shortcut for one character. *)
Lemma found_ok (s pre rest : bytes) c :
  s = pre ++ c :: rest -> (length sep <= S (length rest))%nat ->
  (if (len_ sep =? 1) && (c =? peek sep 0) then mret true else memcmp_is s (len_ pre) sep) = inr (bool_decide (take (length sep) (c :: rest) = sep)).
Proof.
intros Es Hl. rewrite (memcmp_ok s pre (c :: rest)) by (done || (cbn [length]; lia)).
destruct (Z.eqb_spec (len_ sep) 1) as [E1|]; [|done]. cbn [andb]. unfold peek.
destruct sep as [|d [|e r]]; [cbn [length] in *; lia| |cbn [length] in *; lia]. cbn [nth]. destruct (Z.eqb_spec c d) as [->|]; [|done].
rewrite bool_decide_eq_true_2; [done|]. by destruct rest.
Qed.

Lemma add_token_ok s st toks t rest n :
  s = ended sep toks ++ t ++ rest -> Forall2 rep (tokens st) toks -> start st = len_ (ended sep toks) -> len_ toks < slots st ->
  n = len_ t -> len_ s < 2 ^ 62 -> exists ts, add_token st s n = inr ts /\ Forall2 rep ts (toks ++ [t]).
Proof.
intros Et Hr Hst Hsl -> Hlt. unfold add_token. rewrite (Forall2_length _ _ _ Hr), (proj2 (Z.ltb_lt _ _)), Hst by lia. steps.
assert (len_ t < 2 ^ 62) by (rewrite Et, !length_app in Hlt; lia).
rewrite Et, (read_parts _ _ (ended sep toks) t rest) by (by rewrite Nat2Z.id). steps.
destruct (sdsnewlen_ok (Init t) t (len_ t) eq_refl) as (u & -> & Hu); [done|exists []; by rewrite app_nil_r|]. steps.
eexists. split; [done|]. apply Forall2_app; [done|]. by repeat constructor.
Qed.

Lemma cur_ends cur rest :
  take (length sep) rest = sep -> (forall k, (k < length cur)%nat -> not_at sep (cur ++ rest) k) -> ends_at_first sep cur.
Proof.
intros Er Hc k Hk. specialize (Hc k Hk). rewrite <- (take_drop (length sep) rest), Er, app_assoc in Hc.
apply (proj1 (not_at_app sep (cur ++ sep) (drop (length sep) rest) k ltac:(rewrite length_app; lia)) Hc).
Qed.

Lemma split_turn_ok s st toks cur c rest :
  scanning s st toks cur (c :: rest) -> (length sep <= S (length rest))%nat -> len_ s < 2 ^ 29 ->
  exists st' toks' cur' rest', split_turn s sep st = inr st' /\ scanning s st' toks' cur' rest' /\ cursor st < cursor st'.
Proof.
intros Hsc Hl Hlt. pose proof Hsc as [Et Hr Hst Hcu Hsl Hf Hc].
assert (len_ toks <= len_ s) as Hn.
{ rewrite Et, length_app. enough (length toks <= length (ended sep toks))%nat by lia. clear -Hsep. induction toks as [|t toks IH]; [done|].
  unfold ended in *. cbn [map concat length]. rewrite !length_app. lia. }
unfold split_turn.
assert (exists st1, (if slots st <? Z.of_nat (length (tokens st)) + 2
    then _ ← defined_if (slots st * 2 <? 2 ^ 31); mret (mk_splitting (tokens st) (slots st * 2) (start st) (cursor st)) else mret st) = inr st1 /\
  tokens st1 = tokens st /\ start st1 = start st /\ len_ toks + 2 <= slots st1 <= 2 * len_ toks + 5) as (st1 & -> & E1 & E2 & E3).
{ rewrite (Forall2_length _ _ _ Hr). destruct (Z.ltb_spec (slots st) (len_ toks + 2)); [|eexists; repeat split; lia].
  rewrite (proj2 (Z.ltb_lt (slots st * 2) _)) by lia. eexists. split; [reflexivity|]. cbn [tokens start slots]. repeat split; lia. }
steps. set (pre := ended sep toks ++ cur). assert (s = pre ++ c :: rest) as Es by (unfold pre; by rewrite <- app_assoc).
assert (cursor st = len_ pre) as Ecu by (unfold pre; rewrite length_app; lia).
assert (byte_at s (len_ pre) = inr c) as Eb by (rewrite Es; apply byte_at_app). rewrite Ecu, Eb. steps. rewrite (found_ok s pre rest c Es Hl). steps.
destruct (bool_decide_reflect (take (length sep) (c :: rest) = sep)) as [Hfound|Hnot].
- destruct (add_token_ok s st1 toks cur (c :: rest) (len_ pre - start st1)) as (ts & -> & Hts); try done; try (rewrite ?E1, ?E2; done); [lia|rewrite E2; lia|lia|].
  steps. eexists _, (toks ++ [cur]), [], (drop (length sep) (c :: rest)). split; [done|]. cbn [cursor]. split; [|lia].
  split; cbn [tokens start cursor slots]; try done.
  + pose proof (take_drop (length sep) (c :: rest)) as Hcr. rewrite Hfound in Hcr. rewrite ended_snoc, <- !app_assoc, app_nil_l, Hcr. exact Et.
  + rewrite ended_snoc, !length_app. unfold pre. rewrite length_app. lia.
  + rewrite ended_snoc, !length_app. unfold pre. rewrite length_app. cbn [length]. lia.
  + rewrite length_app. cbn [length]. lia.
  + apply Forall_app. split; [done|]. repeat constructor. by apply (cur_ends cur (c :: rest)).
  + intros k Hk. cbn [length] in Hk. lia.
- eexists _, toks, (cur ++ [c]), rest. split; [done|]. cbn [cursor]. split; [|lia]. split; cbn [tokens start cursor slots]; try done.
  + by rewrite <- app_assoc.
  + by rewrite E1.
  + lia.
  + unfold pre. rewrite !length_app. cbn [length]. lia.
  + lia.
  + intros k Hk. rewrite <- app_assoc. cbn [app]. rewrite length_app in Hk. cbn [length] in Hk.
    destruct (Nat.eq_dec k (length cur)) as [->|]; [unfold not_at; by rewrite drop_app_length|apply Hc; lia].
Qed.

Lemma split_loop_ok s fuel : forall st toks cur rest,
  scanning s st toks cur rest -> len_ s < 2 ^ 29 -> len_ s - cursor st <= Z.of_nat fuel ->
  exists st' toks' cur' rest', split_loop fuel s sep st = inr st' /\ scanning s st' toks' cur' rest' /\ (length rest' < length sep)%nat.
Proof.
induction fuel as [|fuel IH]; intros st toks cur rest Hsc Hlt Hf; pose proof Hsc as [Et _ _ Hcu _ _ _];
  assert (len_ s = len_ (ended sep toks) + len_ cur + len_ rest) as El by (rewrite Et, !length_app; lia); cbn [split_loop];
  destruct (Z.ltb_spec (cursor st) (len_ s - (len_ sep - 1))) as [Hin|Hout];
  [lia|exists st, toks, cur, rest; repeat split; try apply Hsc; lia| |exists st, toks, cur, rest; repeat split; try apply Hsc; lia].
destruct rest as [|c rest]; [cbn [length] in El; lia|]. cbn [length] in El.
destruct (split_turn_ok s st toks cur c rest Hsc ltac:(lia) Hlt) as (st1 & toks1 & cur1 & rest1 & -> & Hsc1 & Hinc). steps.
apply (IH st1 toks1 cur1 rest1 Hsc1 Hlt). lia.
Qed.

Lemma sdssplitlen_ok s :
  s <> [] -> len_ s < 2 ^ 29 -> exists ts toks t, sdssplitlen s sep = inr (Some ts) /\ Forall2 rep ts (toks ++ [t]) /\
    s = join sep (toks ++ [t]) /\ Forall (ends_at_first sep) toks /\ free_of sep t.
Proof.
intros Hs Hlt. unfold sdssplitlen. assert (0 < len_ s) by (destruct s; [done|cbn [length]; lia]).
rewrite (proj2 (Z.ltb_ge _ _)), (proj2 (Z.leb_gt _ _)) by lia. cbn [orb].
assert (scanning s (mk_splitting [] 5 0 0) [] [] s) as Hsc by (split; try done; intros k Hk; cbn [length] in Hk; lia).
destruct (split_loop_ok s (length s) _ _ _ _ Hsc Hlt) as (st & toks & cur & rest & -> & [Et Hr Hst Hcu Hsl Hf Hc] & Hrest); [cbn [cursor]; lia|].
steps. clear Hsc.
destruct (add_token_ok s st toks (cur ++ rest) [] (len_ s - start st)) as (ts & -> & Hts); try done; [by rewrite app_nil_r|lia| |lia|].
{ rewrite Hst, Et, !length_app. lia. }
steps. exists ts, toks, (cur ++ rest). rewrite join_snoc. repeat split; try done.
intros k Hk. rewrite length_app in Hk. apply Hc. lia.
Qed.

(** ** [sdsjoinsds] *)

Lemma sdsjoinsds_loop_ok argv toks : Forall2 rep argv toks -> forall s str,
  rep s str -> len_ str + len_ (join sep toks) < 2 ^ 62 -> exists s', sdsjoinsds_loop s argv sep = inr s' /\ rep s' (str ++ join sep toks).
Proof.
induction 1 as [|a t argv toks Ha Hrest IH]; intros s str Hs Hlt; [exists s; split; [done|]; cbn [join]; by rewrite app_nil_r|].
destruct Hrest as [|b u argv toks Hb Hrest]; [by apply sdscatsds_ok|].
change (join sep (t :: u :: toks)) with (t ++ sep ++ join sep (u :: toks)) in *.
change (sdsjoinsds_loop s (a :: b :: argv) sep) with
  (join ← sdscatsds s a; join ← sdscatlen join sep (len_ sep); sdsjoinsds_loop join (b :: argv) sep).
rewrite !length_app in Hlt. destruct (sdscatsds_ok s str a t Hs Ha ltac:(lia)) as (s1 & -> & H1). steps.
pose proof (sdscatlen_ok s1 (str ++ t) sep [] H1) as (s2 & E2 & H2); [rewrite length_app; lia|]. rewrite app_nil_r in E2. rewrite E2. steps.
rewrite !app_assoc. rewrite <- (app_assoc _ t). rewrite app_assoc. apply IH; [done|]. rewrite !length_app. lia.
Qed.
End Split.

(** C24: [sdssplitlen] and [sdsjoinsds] are inverse.  For every text and separator that are not
    empty, splitting succeeds, within the slots it has allocated for the tokens; every token but
    the last ends at the first separator after its beginning, the last one has none; and joining
    the tokens with the separator gives the text. *)
Theorem sdssplitlen_roundtrip `{Allocator} (s sep : bytes) :
  s <> [] -> sep <> [] -> len_ s < 2 ^ 29 ->
  exists ts toks t, sdssplitlen s sep = inr (Some ts) /\ Forall2 rep ts (toks ++ [t]) /\
    Forall (ends_at_first sep) toks /\ free_of sep t /\ exists s', sdsjoinsds ts sep = inr s' /\ rep s' s.
Proof.
  intros Hs Hsep Hlt. assert (1 <= length sep)%nat as Hl by (destruct sep; [done|cbn [length]; lia]).
  destruct (sdssplitlen_ok sep Hl s Hs Hlt) as (ts & toks & t & E & Hr & Ej & Hf & Hlast). exists ts, toks, t. repeat split; try done.
  unfold sdsjoinsds, sdsempty. destruct (sdsnewlen_ok (Init []) [] 0 eq_refl ltac:(lia)) as (s0 & -> & H0); [by exists []|]. steps.
  pose proof (sdsjoinsds_loop_ok sep Hl ts _ Hr s0 [] H0) as Hx. rewrite app_nil_l, <- Ej in Hx. apply Hx. cbn [length]. lia.
Qed.

Lemma sdssplitlen_roundtrip_witness :
  let s := [97; 45; 45; 45; 98; 45; 45] in let sep := [45; 45] in
  exists ts toks t, @sdssplitlen rounding s sep = inr (Some ts) /\ Forall2 rep ts (toks ++ [t]) /\
    Forall (ends_at_first sep) toks /\ free_of sep t /\ exists s', @sdsjoinsds rounding ts sep = inr s' /\ rep s' s.
Proof. intros s sep. apply (@sdssplitlen_roundtrip rounding s sep); [done|done|by_decide]. Defined.
