(* ===== verification/SdsQuote.v ===== *)
(** * Simple dynamic strings: quoting

    The quoted form of [sdscatrepr] and the arguments that [sdssplitargs] finds in a line, as
    functions on bytes; the code computes them, and quoted arguments are found again. *)

From S2P Require Import Prelude Bytes NumString NumStringFacts Sds SdsFacts SdsRep SdsRoom SdsOps SdsText.

(** ** On bytes *)

Definition repr_char (c : Z) : bytes :=
  if (c =? 92) || (c =? 34) then [92; c] else if c =? 10 then [92; 110] else if c =? 13 then [92; 114] else if c =? 9 then [92; 116]
  else if c =? 7 then [92; 97] else if c =? 8 then [92; 98] else if isprint c then [c]
  else [92; 120; hex_digit (c / 16); hex_digit (c mod 16)].
Definition quote (p : bytes) : bytes := [34] ++ concat (map repr_char p) ++ [34].
Definition needs_quotes (p : bytes) : bool := existsb needs_repr p.

(** One turn of the loop for a token: the bytes it appends and where it goes on. *)
Inductive move := Emit (q : quotes) (bs p : bytes) | Finish (p : bytes) | Bad.
Definition close (p : bytes) : move := if negb (peek p 1 =? 0) && negb (isspace (peek p 1)) then Bad else Finish p.
Definition turn (q : quotes) (p : bytes) : move :=
  match q with
  | Inq =>
      if (peek p 0 =? 92) && (peek p 1 =? 120) && is_hex_digit (peek p 2) && is_hex_digit (peek p 3) then
        Emit Inq [u8 (hex_digit_to_int (peek p 2) * 16 + hex_digit_to_int (peek p 3))] (drop 3 p)
      else if (peek p 0 =? 92) && negb (peek p 1 =? 0) then Emit Inq [unescape (peek p 1)] (drop 1 p)
      else if peek p 0 =? 34 then close p else if peek p 0 =? 0 then Bad else Emit Inq [peek p 0] p
  | Insq =>
      if (peek p 0 =? 92) && (peek p 1 =? 39) then Emit Insq [39] (drop 1 p)
      else if peek p 0 =? 39 then close p else if peek p 0 =? 0 then Bad else Emit Insq [peek p 0] p
  | Bare =>
      if (peek p 0 =? 32) || (peek p 0 =? 10) || (peek p 0 =? 13) || (peek p 0 =? 9) || (peek p 0 =? 0) then Finish p
      else if peek p 0 =? 34 then Emit Inq [] p else if peek p 0 =? 39 then Emit Insq [] p else Emit Bare [peek p 0] p
  end.
(** The token, and the rest of the line. *)
Fixpoint token (fuel : nat) (q : quotes) (p : bytes) : option (bytes * bytes) :=
  match turn q p with
  | Emit q bs p => match fuel with O => None | S fuel => '(t, r) ← token fuel q (drop 1 p); Some (bs ++ t, r) end
  | Finish p => Some ([], drop 1 p)
  | Bad => None
  end.
Fixpoint args (fuel : nat) (p : bytes) : option (list bytes) :=
  let p := skip_blanks p in
  if peek p 0 =? 0 then Some [] else
  '(t, r) ← token (length p) Bare p;
  match fuel with O => None | S fuel => ts ← args fuel r; Some (t :: ts) end.
Definition args_of (line : bytes) : option (list bytes) := args (length line) line.

Lemma peek_cons p : peek p 0 <> 0 -> exists c p', p = c :: p'.
Proof. destruct p as [|c p']; [done|eauto]. Qed.

Lemma peek_past (p : bytes) (k : nat) : peek p k <> 0 -> (k < length p)%nat.
Proof. intros Hp. destruct (Nat.lt_ge_cases k (length p)); [done|]. unfold peek in Hp. by rewrite nth_overflow in Hp by lia. Qed.

Lemma hex_nonzero c : is_hex_digit c = true -> c <> 0.
Proof. by intros E ->. Qed.

Lemma turn_shrinks q p q' bs p' : turn q p = Emit q' bs p' -> (length (drop 1 p') < length p)%nat /\ (length bs <= 1)%nat.
Proof.
  rewrite length_drop.
  assert (forall k, peek p k <> 0 -> (k < length p)%nat) as Hk by (intros k; apply peek_past).
  unfold turn, close. intros E. destruct q;
    repeat (match type of E with context [if ?b then _ else _] => destruct b eqn:? end; try discriminate E); injection E as <- <- <-; to_prop;
    rewrite ?length_drop; cbn [length]; split; try lia; (assert (0 < length p)%nat by (apply (Hk 0%nat); lia); lia).
Qed.

Lemma token_shrinks fuel : forall q p t r, token fuel q p = Some (t, r) -> (length r <= length p)%nat /\ (length t <= length p)%nat.
Proof.
  assert (forall q p p', turn q p = Finish p' -> p' = p) as Hfin.
  { intros q p p' E. unfold turn, close in E. destruct q;
      repeat (match type of E with context [if ?b then _ else _] => destruct b end; try discriminate E); by injection E. }
  induction fuel as [|fuel IH]; intros q p t r E; cbn [token] in E; destruct (turn q p) as [q' bs p'|p'|] eqn:Et; try done.
  - apply Hfin in Et as ->. injection E as <- <-. rewrite length_drop. cbn [length]. lia.
  - apply turn_shrinks in Et as [Hs Hb]. destruct (token fuel q' (drop 1 p')) as [[t' r']|] eqn:Er; [|done]. injection E as <- <-.
    apply IH in Er as [H1 H2]. rewrite length_app. lia.
  - apply Hfin in Et as ->. injection E as <- <-. rewrite length_drop. cbn [length]. lia.
Qed.

(** A token that does not begin with a blank takes at least a byte. *)
Lemma token_progress fuel p t r : token fuel Bare p = Some (t, r) -> peek p 0 <> 0 -> isspace (peek p 0) = false -> (length r < length p)%nat.
Proof.
  intros E Hz Hs. destruct (turn Bare p) as [q' bs p'|p'|] eqn:Et.
  - pose proof (turn_shrinks _ _ _ _ _ Et) as [Hlt _]. destruct fuel as [|fuel]; cbn [token] in E; rewrite Et in E; [done|].
    destruct (token fuel q' (drop 1 p')) as [[t' r']|] eqn:Er; [|done]. injection E as <- <-. apply token_shrinks in Er as [H1 _]. lia.
  - exfalso. unfold isspace in Hs. cbn [turn] in Et. destruct (_ || (peek p 0 =? 0)) eqn:Eb; [|by repeat case_match].
    to_prop. repeat (apply orb_true_iff in Eb as [Eb|Eb]); to_prop; lia.
  - exfalso. cbn [turn] in Et. by repeat case_match.
Qed.

(** ** The code computes them *)

Section Quote.
Context `{Allocator}.

Lemma repr_turn_ok s str c : rep s str -> in_u 8 c -> len_ str + 4 < 2 ^ 62 -> exists s', repr_turn s c = inr s' /\ rep s' (str ++ repr_char c).
Proof.
intros Hs [H0 H1] Hlt. cbn in H1. unfold repr_turn, repr_char.
assert (forall t, len_ t <= 4 -> exists s', sdscatlen s t (len_ t) = inr s' /\ rep s' (str ++ t)) as Hcat.
{ intros t Ht. pose proof (sdscatlen_ok s str t [] Hs ltac:(lia)) as Hx. by rewrite app_nil_r in Hx. }
destruct (Z.eqb_spec c 92) as [->|]; [apply (sdscat_ok s str [92; 92]); [done|intros [|[|[]]]; lia|cbn [length]; lia]|].
destruct (Z.eqb_spec c 34) as [->|]; [apply (sdscat_ok s str [92; 34]); [done|intros [|[|[]]]; lia|cbn [length]; lia]|]. cbn [orb].
destruct (c =? 10); [by apply (Hcat [92; 110])|]. destruct (c =? 13); [by apply (Hcat [92; 114])|]. destruct (c =? 9); [by apply (Hcat [92; 116])|].
destruct (c =? 7); [by apply (Hcat [92; 97])|]. destruct (c =? 8); [by apply (Hcat [92; 98])|]. destruct (isprint c); [by apply (Hcat [c])|].
apply sdscat_ok; [done| |cbn [length]; lia]. unfold hex_digit.
intros [|[|[E|[E|[]]]]]; [lia..| |]; [destruct (Z.ltb_spec (c / 16) 10); pose proof (Z.div_pos c 16); lia|].
destruct (Z.ltb_spec (c mod 16) 10); pose proof (Z.mod_pos_bound c 16); lia.
Qed.

Lemma length_repr_char c : len_ (repr_char c) <= 4.
Proof. unfold repr_char. repeat case_match; cbn [length]; lia. Qed.

Lemma repr_loop_ok p : forall s str, is_bytes p -> rep s str -> len_ str + 4 * len_ p + 4 < 2 ^ 62 ->
  exists s', for_each repr_turn s p = inr s' /\ rep s' (str ++ concat (map repr_char p)).
Proof.
induction p as [|c p IH]; intros s str Hp Hs Hlt; [exists s; cbn [map concat]; by rewrite app_nil_r|].
apply Forall_cons in Hp as [Hc Hp]. cbn [for_each map concat length] in *.
destruct (repr_turn_ok s str c Hs Hc ltac:(lia)) as (s1 & -> & H1). steps. rewrite app_assoc. pose proof (length_repr_char c).
apply IH; [done..|]. rewrite length_app. lia.
Qed.

Lemma length_quoted p : len_ (concat (map repr_char p)) <= 4 * len_ p.
Proof. induction p as [|c p IH]; [done|]. cbn [map concat length]. rewrite length_app. pose proof (length_repr_char c). lia. Qed.

Lemma sdscatrepr_ok s str p :
  rep s str -> is_bytes p -> len_ str + 4 * len_ p + 6 < 2 ^ 62 -> exists s', sdscatrepr s p = inr s' /\ rep s' (str ++ quote p).
Proof.
intros Hs Hp Hlt. unfold sdscatrepr. destruct (_sdsMakeRoomFor_ok 0 s str (len_ p + 2) true Hs ltac:(lia) ltac:(lia)) as (s1 & E1 & H1).
unfold sdsMakeRoomFor at 1. rewrite E1. steps. assert (rep s1 str) as Hs1 by (apply (holds_weaken _ _ _ _ _ H1); lia).
destruct (sdscatlen_ok s1 str [34] [] Hs1 ltac:(cbn [length]; lia)) as (s2 & E2 & H2). cbn [app length] in E2. change (Z.of_nat 1) with 1 in E2. rewrite E2. steps.
destruct (repr_loop_ok p s2 (str ++ [34]) Hp H2) as (s3 & -> & H3); [rewrite length_app; cbn [length]; lia|]. steps.
pose proof (length_quoted p). destruct (sdscatlen_ok s3 _ [34] [] H3) as (s4 & E4 & H4); [rewrite !length_app; cbn [length]; lia|].
cbn [app length] in E4. exists s4. split; [exact E4|]. unfold quote. by rewrite !app_assoc.
Qed.

Lemma sdsneedsrepr_ok s str : rep s str -> sdsneedsrepr s = inr (needs_quotes str).
Proof.
intros Hs. unfold sdsneedsrepr. rewrite (sdslen_holds _ _ _ _ Hs). steps. rewrite (read_holds _ _ _ _ 0 (len_ str) Hs) by lia. steps.
rewrite Nat2Z.id. change (Z.to_nat 0) with 0%nat. by rewrite drop_0, take_ge.
Qed.

(** ** [sdssplitargs] *)

Lemma token_turn_eq q current p :
  token_turn q current p =
  match turn q p with
  | Emit q bs p' => match bs with [] => mret (Goes q current p') | c :: _ => append_byte q current c p' end
  | Finish p' => mret (Done current p')
  | Bad => mret Err
  end.
Proof. unfold token_turn, turn, close_quote, close. destruct q; repeat case_match; simplify_eq; done. Qed.

Lemma turn_emits q p q' bs p' : turn q p = Emit q' bs p' -> bs = [] \/ exists c, bs = [c].
Proof. intros E. apply turn_shrinks in E as [_ Hb]. destruct bs as [|c [|]]; [by left|eauto|cbn [length] in Hb; lia]. Qed.

Lemma get_token_ok fuel : forall q current str p,
  rep current str -> (length p <= fuel)%nat -> len_ str + len_ p + 1 < 2 ^ 62 ->
  match token fuel q p with
  | Some (t, r) => exists current', get_token fuel q current p = inr (Some (current', r)) /\ rep current' (str ++ t)
  | None => get_token fuel q current p = inr None
  end.
Proof.
induction fuel as [|fuel IH]; intros q current str p Hs Hf Hlt; cbn [token get_token]; rewrite token_turn_eq;
  destruct (turn q p) as [q' bs p'|p'|] eqn:Et; steps; try done;
  try (exists current; by rewrite app_nil_r); [apply turn_shrinks in Et; lia|].
pose proof (turn_shrinks _ _ _ _ _ Et) as [Hlen _]. destruct (turn_emits _ _ _ _ _ Et) as [->|[c ->]].
- steps. specialize (IH q' current str (drop 1 p') Hs ltac:(lia) ltac:(lia)).
  destruct (token fuel q' (drop 1 p')) as [[t r]|]; [|exact IH]. exact IH.
- unfold append_byte. destruct (sdscatlen_ok current str [c] [] Hs ltac:(cbn [length]; lia)) as (s1 & E1 & H1). cbn [app length] in E1.
  change (Z.of_nat 1) with 1 in E1. rewrite E1. steps.
  specialize (IH q' s1 (str ++ [c]) (drop 1 p') H1 ltac:(lia) ltac:(rewrite length_app; cbn [length]; lia)).
  destruct (token fuel q' (drop 1 p')) as [[t r]|]; [|exact IH]. rewrite <- app_assoc in IH. exact IH.
Qed.

Lemma skip_blanks_head p : let p' := skip_blanks p in (length p' <= length p)%nat /\ (p' = [] \/ isspace (peek p' 0) = false).
Proof.
induction p as [|c p IH]; [by split; [|left]|]. cbn [skip_blanks]. destruct (isspace c) eqn:E; [cbn [length]; destruct IH; split; [lia|done]|].
split; [done|]. right. exact E.
Qed.

Lemma splitargs_loop_ok fuel : forall vector vs p,
  Forall2 rep vector vs -> (length p <= fuel)%nat -> len_ p + 1 < 2 ^ 62 ->
  match args fuel p with
  | Some ts => exists vector', splitargs_loop fuel vector p = inr (Some vector') /\ Forall2 rep vector' (vs ++ ts)
  | None => splitargs_loop fuel vector p = inr None
  end.
Proof.
induction fuel as [|fuel IH]; intros vector vs p Hv Hf Hlt; cbn [args splitargs_loop];
  pose proof (skip_blanks_head p) as [Hle Hhead]; set (p' := skip_blanks p) in *; clearbody p';
  (destruct (Z.eqb_spec (peek p' 0) 0) as [Hz|Hz]; [exists vector; by rewrite app_nil_r|]);
  pose proof (peek_past p' 0 Hz) as Hpos; [lia|].
destruct Hhead as [->|Hsp]; [done|].
unfold sdsempty. destruct (sdsnewlen_ok (Init []) [] 0 eq_refl ltac:(lia)) as (s0 & -> & H0); [by exists []|]. steps.
pose proof (get_token_ok (length p') Bare s0 [] p' H0 ltac:(lia) ltac:(cbn [length]; lia)) as Hg.
destruct (token (length p') Bare p') as [[t r]|] eqn:Et; [|by rewrite Hg]. destruct Hg as (s1 & -> & H1). steps.
apply token_progress in Et as Hr; [|done..].
specialize (IH (vector ++ [s1]) (vs ++ [t]) r ltac:(apply Forall2_app; [done|]; by repeat constructor) ltac:(lia) ltac:(lia)).
cbn [mbind option_bind]. destruct (args fuel r) as [ts|]; [|exact IH]. rewrite <- app_assoc in IH. exact IH.
Qed.

Lemma sdssplitargs_ok line :
  len_ line + 1 < 2 ^ 62 ->
  match args_of line with
  | Some ts => exists vector, sdssplitargs line = inr (Some vector) /\ Forall2 rep vector ts
  | None => sdssplitargs line = inr None
  end.
Proof. intros Hlt. exact (splitargs_loop_ok (length line) [] [] line ltac:(constructor) ltac:(lia) Hlt). Qed.
End Quote.

(** ** Quoted arguments are found again *)

Lemma hex_digit_ok d : 0 <= d < 16 -> is_hex_digit (hex_digit d) = true /\ hex_digit_to_int (hex_digit d) = d /\ hex_digit d <> 0.
Proof.
  intros Hd. assert (Forall (fun d => is_hex_digit (hex_digit d) = true /\ hex_digit_to_int (hex_digit d) = d /\ hex_digit d <> 0) (seqZ 0 16)) as Ha by by_decide.
  rewrite Forall_forall in Ha. apply Ha, elem_of_seqZ. lia.
Qed.

Lemma turn_repr c rest : in_u 8 c -> exists p', turn Inq (repr_char c ++ rest) = Emit Inq [c] p' /\ drop 1 p' = rest.
Proof.
  intros [H0 H1]. cbn in H1. unfold repr_char.
  destruct (Z.eqb_spec c 92) as [->|H92]; [by eexists|]. destruct (Z.eqb_spec c 34) as [->|H34]; [by eexists|]. cbn [orb].
  destruct (Z.eqb_spec c 10) as [->|]; [by eexists|]. destruct (Z.eqb_spec c 13) as [->|]; [by eexists|]. destruct (Z.eqb_spec c 9) as [->|]; [by eexists|].
  destruct (Z.eqb_spec c 7) as [->|]; [by eexists|]. destruct (Z.eqb_spec c 8) as [->|]; [by eexists|].
  destruct (isprint c) eqn:Ep.
  - unfold isprint in Ep. to_prop. unfold turn, peek. cbn [app nth]. rewrite (proj2 (Z.eqb_neq c 92)), (proj2 (Z.eqb_neq c 34)), (proj2 (Z.eqb_neq c 0)) by lia. by eexists.
  - unfold turn, peek. cbn [app nth]. destruct (hex_digit_ok (c / 16)) as (-> & -> & _); [split; [apply Z.div_pos|apply Z.div_lt_upper_bound]; lia|].
    destruct (hex_digit_ok (c mod 16)) as (-> & -> & _); [apply Z.mod_pos_bound; lia|].
    cbn [Z.eqb Pos.eqb andb]. rewrite (Z.mul_comm (c / 16)), <- Z.div_mod by lia. rewrite wrap_u_id by (unfold in_u; lia). by eexists.
Qed.

(** What follows a token: nothing, or a blank. *)
Definition blank (rest : bytes) : Prop := rest = [] \/ exists rest', rest = 32 :: rest'.

Lemma token_quoted p rest : is_bytes p -> blank rest ->
  forall fuel, (length (concat (map repr_char p)) < fuel)%nat -> token fuel Inq (concat (map repr_char p) ++ 34 :: rest) = Some (p, rest).
Proof.
  intros Hp Hb. induction Hp as [|c p Hc _ IH]; intros fuel Hf; (destruct fuel as [|fuel]; [lia|]).
  - cbn [map concat app token]. destruct Hb as [->|[rest' ->]]; reflexivity.
  - cbn [map concat] in Hf |- *. rewrite <- app_assoc. cbn [token]. destruct (turn_repr c (concat (map repr_char p) ++ 34 :: rest) Hc) as (p' & -> & ->).
    rewrite length_app in Hf. assert (1 <= length (repr_char c))%nat by (unfold repr_char; repeat case_match; cbn [length]; lia).
    rewrite IH by lia. done.
Qed.

Lemma token_quote p rest fuel : is_bytes p -> blank rest -> (length (quote p) <= fuel)%nat -> token fuel Bare (quote p ++ rest) = Some (p, rest).
Proof.
  intros Hp Hb Hf. unfold quote in *. rewrite !length_app in Hf. cbn [length] in Hf. destruct fuel as [|fuel]; [lia|].
  cbn [app token turn peek nth Z.eqb Pos.eqb orb]. rewrite <- app_assoc. cbn [app drop].
  rewrite drop_0, token_quoted by (try done; lia). done.
Qed.

(** A byte that stands for itself outside of quotes. *)
Definition plain (c : Z) : bool := negb (isspace c) && negb (c =? 0) && negb (c =? 34) && negb (c =? 39).

Lemma token_plain w rest : Forall (fun c => plain c = true) w -> blank rest ->
  forall fuel, (length w <= fuel)%nat -> token fuel Bare (w ++ rest) = Some (w, drop 1 rest).
Proof.
  intros Hw Hb. induction Hw as [|c w Hc _ IH]; intros fuel Hf.
  - cbn [app]. destruct fuel; cbn [token]; destruct Hb as [->|[rest' ->]]; reflexivity.
  - cbn [length] in Hf. destruct fuel as [|fuel]; [lia|]. unfold plain, isspace in Hc. to_prop. cbn [app token turn peek nth].
    rewrite (proj2 (Z.eqb_neq c 32)), (proj2 (Z.eqb_neq c 10)), (proj2 (Z.eqb_neq c 13)), (proj2 (Z.eqb_neq c 9)), (proj2 (Z.eqb_neq c 0)),
      (proj2 (Z.eqb_neq c 34)), (proj2 (Z.eqb_neq c 39)) by (try done; intros ->; done).
    cbn [orb drop]. rewrite drop_0, IH by lia. done.
Qed.

(** [w] in a line is the argument [t]. *)
Definition word (w t : bytes) : Prop :=
  (exists c w', w = c :: w' /\ isspace c = false /\ c <> 0) /\
  forall rest fuel, blank rest -> (length w <= fuel)%nat -> exists r, token fuel Bare (w ++ rest) = Some (t, r) /\ (r = rest \/ r = drop 1 rest).

Lemma word_quote p : is_bytes p -> word (quote p) p.
Proof. intros Hp. split; [by eexists 34, _|]. intros rest fuel Hb Hf. exists rest. split; [by apply token_quote|by left]. Qed.

Lemma word_plain w : w <> [] -> Forall (fun c => plain c = true) w -> word w w.
Proof.
  intros Hne Hw. split; [|intros rest fuel Hb Hf; exists (drop 1 rest); split; [by apply token_plain|by right]].
  destruct Hw as [|c w Hc _]; [done|]. exists c, w. unfold plain in Hc. to_prop. done.
Qed.

Lemma args_words ws ts : Forall2 word ws ts -> forall fuel, (length (join [32%Z] ws) <= fuel)%nat -> args fuel (join [32] ws) = Some ts.
Proof.
  induction 1 as [|w t ws ts Hw Hrest IH]; intros fuel Hf; [by destruct fuel|].
  assert (exists rest, join [32] (w :: ws) = w ++ rest /\ blank rest /\ (forall fuel, (length rest <= S fuel)%nat -> args fuel rest = Some ts /\ args fuel (drop 1 rest) = Some ts))
    as (rest & E & Hb & Ha).
  { destruct Hrest as [|w2 t2 ws ts Hw2 Hrest].
    - exists []. cbn [join]. rewrite app_nil_r. split; [done|]. split; [by left|]. intros f _. by destruct f.
    - exists (32 :: join [32] (w2 :: ws)). split; [done|]. split; [right; eauto|]. intros f Hl. cbn [length] in Hl.
      specialize (IH f ltac:(lia)). split; [|exact IH]. destruct f; exact IH. }
  rewrite E in *. destruct Hw as [(c & w' & -> & Hc & Hz) Htok]. rewrite length_app in Hf. cbn [length] in Hf. destruct fuel as [|fuel]; [lia|].
  cbn [args]. change ((c :: w') ++ rest) with (c :: w' ++ rest). cbn [skip_blanks]. rewrite Hc. unfold peek. cbn [nth]. rewrite (proj2 (Z.eqb_neq c 0)) by done.
  destruct (Htok rest (length (c :: w' ++ rest)) Hb) as (r & Er & Hr); [cbn [length]; rewrite length_app; lia|].
  change ((c :: w') ++ rest) with (c :: w' ++ rest) in Er. rewrite Er. cbn [mbind option_bind]. destruct (Ha fuel ltac:(lia)) as [H1 H2].
  destruct Hr as [-> | ->]; [rewrite H1|rewrite H2]; done.
Qed.

Lemma args_of_words ws ts : Forall2 word ws ts -> args_of (join [32] ws) = Some ts.
Proof. intros H. by apply args_words. Qed.

(** ** The commands that monitors see *)

Inductive argument_means : argument -> bytes -> Prop :=
  | means_IntObj n : in_s 64 n -> argument_means (IntObj n) (decimal n)
  | means_StrObj s t : rep s t -> is_bytes t -> argument_means (StrObj s) t.

Lemma dec_fuel_digits fuel : forall v, 0 <= v -> Forall (fun c => 48 <= c <= 57) (dec_fuel fuel v).
Proof.
  induction fuel as [|fuel IH]; intros v Hv; cbn [dec_fuel]; [constructor|]. unfold ch_0. destruct (Z.ltb_spec v 10); [repeat constructor; cbn; lia|].
  apply Forall_app. split; [apply IH, Z.div_pos; lia|]. pose proof (Z.mod_pos_bound v 10). repeat constructor; cbn; lia.
Qed.

Lemma decimal_chars v : Forall (fun c => c = 45 \/ 48 <= c <= 57) (decimal v).
Proof.
  unfold decimal, dec. destruct (Z.ltb_spec v 0); [constructor; [by left|]|]; (eapply Forall_impl; [apply dec_fuel_digits; lia|]; intros; by right).
Qed.

Lemma repr_decimal v : concat (map repr_char (decimal v)) = decimal v.
Proof.
  pose proof (decimal_chars v) as Hd. induction Hd as [|c t Hc _ IH]; [done|]. cbn [map concat]. rewrite IH. unfold repr_char, isprint.
  repeat (rewrite (proj2 (Z.eqb_neq c _)) by lia). rewrite (proj2 (Z.leb_le 32 c)), (proj2 (Z.leb_le c 126)) by lia. done.
Qed.

Section Feed.
Context `{Allocator}.

Lemma feed_arg_ok s str a t :
  rep s str -> argument_means a t -> len_ str + 4 * len_ t + 6 < 2 ^ 62 -> exists s', feed_arg s a = inr s' /\ rep s' (str ++ quote t).
Proof.
intros Hs Ha Hlt. destruct Ha as [n Hn|s2 t Ht Hb]; cbn [feed_arg].
- assert (quote (decimal n) = [34] ++ decimal n ++ [34]) as Eq by (unfold quote; by rewrite repr_decimal). rewrite Eq.
  apply sdscat_ok; [done| |rewrite !length_app; cbn [length]; lia]. intros Hin. apply in_app_or in Hin as [[|[]]|Hin]; [lia|].
  apply in_app_or in Hin as [Hin|[|[]]]; [|lia]. pose proof (decimal_chars n) as Hd. rewrite List.Forall_forall in Hd. apply Hd in Hin. lia.
- rewrite (sdslen_holds _ _ _ _ Ht). steps. rewrite (read_holds _ _ _ _ 0 (len_ t) Ht) by lia. steps.
  rewrite Nat2Z.id. change (Z.to_nat 0) with 0%nat. rewrite drop_0, take_ge by lia. by apply sdscatrepr_ok.
Qed.

Definition line_size (ts : list bytes) : Z := foldr (fun t n => 4 * len_ t + 6 + n) 0 ts.

Lemma line_size_pos ts : 0 <= line_size ts.
Proof. induction ts; cbn [line_size foldr]; [done|]. unfold line_size in *. lia. Qed.

Lemma length_quote p : len_ (quote p) <= 4 * len_ p + 2.
Proof. unfold quote. rewrite !length_app. pose proof (length_quoted p). cbn [length]. lia. Qed.

Lemma feed_args_ok argv ts : Forall2 argument_means argv ts -> forall s str,
  rep s str -> len_ str + line_size ts < 2 ^ 62 -> exists s', feed_args s argv = inr s' /\ rep s' (str ++ join [32] (map quote ts)).
Proof.
induction 1 as [|a t argv ts Ha Hrest IH]; intros s str Hs Hlt; [exists s; cbn [map join]; by rewrite app_nil_r|].
cbn [line_size foldr] in Hlt. pose proof (line_size_pos ts).
fold (line_size ts) in Hlt. destruct Hrest as [|b u argv ts Hb Hrest]; [apply feed_arg_ok; (done || lia)|].
change (feed_args s (a :: b :: argv)) with (s ← feed_arg s a; s ← sdscatlen s [32] 1; feed_args s (b :: argv)).
destruct (feed_arg_ok s str a t Hs Ha ltac:(lia)) as (s1 & -> & Hs1). steps. pose proof (length_quote t).
destruct (sdscatlen_ok s1 _ [32] [] Hs1) as (s2 & E2 & Hs2); [rewrite length_app; cbn [length]; lia|]. cbn [app length] in E2. change (Z.of_nat 1) with 1 in E2.
rewrite E2. steps. change (join [32] (map quote (t :: u :: ts))) with (quote t ++ [32] ++ join [32] (map quote (u :: ts))).
rewrite !app_assoc. apply IH; [done|]. rewrite !length_app. cbn [length]. lia.
Qed.

Lemma length_line ts : len_ (join [32] (map quote ts)) <= Z.max 0 (line_size ts - 1).
Proof.
induction ts as [|t ts IH]; [cbn; lia|]. pose proof (length_quote t). cbn [line_size foldr]. fold (line_size ts).
destruct ts as [|u ts]; [cbn [map join]; unfold line_size; cbn [foldr]; lia|].
change (join [32] (map quote (t :: u :: ts))) with (quote t ++ [32] ++ join [32] (map quote (u :: ts))). 
rewrite !length_app. cbn [length]. pose proof (line_size_pos ts). unfold line_size in *. cbn [foldr] in *. lia.
Qed.
End Feed.

(** C10: what [sdscatrepr] writes, [sdssplitargs] reads.  For every list of arguments, integers or
    strings of any bytes, the line that [replicationFeedMonitors] builds of them is parsed to the
    same arguments. *)
Theorem sdssplitargs_roundtrip `{Allocator} (argv : list argument) (ts : list bytes) (s : sds) (str : bytes) :
  Forall2 argument_means argv ts -> rep s str -> len_ str + line_size ts < 2 ^ 62 ->
  exists s' line vector, feed_args s argv = inr s' /\ rep s' (str ++ line) /\ sdssplitargs line = inr (Some vector) /\ Forall2 rep vector ts.
Proof.
  intros Ha Hs Hlt. destruct (feed_args_ok argv ts Ha s str Hs Hlt) as (s' & E & H').
  assert (args_of (join [32] (map quote ts)) = Some ts) as Eargs.
  { apply args_of_words. clear -Ha. induction Ha as [|a t argv ts Hm _ IH]; constructor; [|done]. apply word_quote.
    destruct Hm as [n _|]; [|done]. eapply Forall_impl; [apply decimal_chars|]. intros c Hc. cbn in Hc. unfold in_u. lia. }
  pose proof (length_line ts). pose proof (sdssplitargs_ok (join [32] (map quote ts)) ltac:(lia)) as Hp. rewrite Eargs in Hp.
  destruct Hp as (vector & Ev & Hv). by exists s', (join [32] (map quote ts)), vector.
Qed.

Lemma sdssplitargs_roundtrip_witness :
  let ts := [[83; 69; 84]; []; [39; 34; 0; 255]; decimal (-7)] in
  exists (s : sds) argv s' line vector, @feed_args rounding s argv = inr s' /\ rep s' ([43] ++ line) /\ @sdssplitargs rounding line = inr (Some vector) /\ Forall2 rep vector ts.
Proof.
  intros ts.
  destruct (@sdsnewlen_ok rounding (Init [43]) [43] 1 eq_refl ltac:(lia)) as (s & _ & Hs); [by exists []|].
  destruct (@sdsnewlen_ok rounding (Init [83; 69; 84]) [83; 69; 84] 3 eq_refl ltac:(lia)) as (s1 & _ & H1); [by exists []|].
  destruct (@sdsnewlen_ok rounding (Init []) [] 0 eq_refl ltac:(lia)) as (s2 & _ & H2); [by exists []|].
  destruct (@sdsnewlen_ok rounding (Init [39; 34; 0; 255]) [39; 34; 0; 255] 4 eq_refl ltac:(lia)) as (s3 & _ & H3); [by exists []|].
  exists s, [StrObj s1; StrObj s2; StrObj s3; IntObj (-7)].
  apply (@sdssplitargs_roundtrip rounding _ ts s [43]); [|exact Hs|by_decide].
  repeat constructor; try done; by_decide.
Defined.
