(* ===== verification/AofManifest.v ===== *)
(** * The manifest of the append only files

    aof.c of Redis keeps the log of the commands in a base file and several incremental files,
    and lists them in a manifest.  This file models the manifest: its operations, the text that
    is written for it and the parser that reads it when the server starts.  Strings are their
    bytes; the functions of sds.c on them are those of [SdsEdit] and [SdsQuote]. *)

From Stdlib Require Import Ascii.
From S2P Require Import Prelude Bytes NumString StringMatch SdsText SdsEdit SdsQuote.

Definition text (s : string) : bytes := map (fun c => Z.of_N (N_of_ascii c)) (String.list_ascii_of_string s).

Definition AOF_FILE_TYPE_BASE : Z := 98.
Definition AOF_FILE_TYPE_HIST : Z := 104.
Definition AOF_FILE_TYPE_INCR : Z := 105.

Record aofInfo := mk_info { file_name : bytes; file_seq : Z; file_type : Z }.
Record aofManifest := mk_manifest {
  base_aof_info : option aofInfo;
  incr_aof_list : list aofInfo;
  history_aof_list : list aofInfo;
  curr_base_file_seq : Z;
  curr_incr_file_seq : Z;
  dirty : bool;
}.

Definition aofManifestCreate : aofManifest := mk_manifest None [] [] 0 0 false.
Definition set_dirty (b : bool) (am : aofManifest) : aofManifest :=
  mk_manifest (base_aof_info am) (incr_aof_list am) (history_aof_list am) (curr_base_file_seq am) (curr_incr_file_seq am) b.

(** ** Writing *)

(** [%s] prints up to the null byte. *)
Definition aofInfoFormat (buf : bytes) (ai : aofInfo) : bytes :=
  let filename := if needs_quotes (file_name ai) then quote (file_name ai) else file_name ai in
  buf ++ text "file" ++ [32] ++ until_null filename ++ [32] ++ text "seq" ++ [32] ++ decimal (file_seq ai) ++ [32] ++ text "type" ++ [32] ++ [file_type ai] ++ [10].

Definition getAofManifestAsString (am : aofManifest) : bytes :=
  let buf := match base_aof_info am with Some ai => aofInfoFormat [] ai | None => [] end in
  let buf := fold_left aofInfoFormat (history_aof_list am) buf in
  fold_left aofInfoFormat (incr_aof_list am) buf.

(** ** Reading *)

Definition MANIFEST_MAX_LINE : nat := 1024.
Inductive load_error := EmptyManifest | TooLongLine | InvalidFormat | NotAFilename | DuplicateBase | NonMonotonic | UnknownType.

(** [fgets]: what it reads, and the rest of the file. *)
Fixpoint fgets (n : nat) (f : bytes) : bytes * bytes :=
  match n, f with
  | O, _ => ([], f)
  | _, [] => ([], [])
  | S n, c :: f => if c =? 10 then ([c], f) else let '(buf, f) := fgets n f in (c :: buf, f)
  end.
Definition strcasecmp_is (a b : bytes) : bool := bool_decide (map tolower (until_null a) = map tolower (until_null b)).
Definition pathIsBaseName (path : bytes) : bool := negb (existsb (fun c => (c =? 47) || (c =? 92)) path).
Fixpoint digits (s : bytes) (v : Z) : Z :=
  match s with c :: s => if (48 <=? c) && (c <=? 57) then digits s (v * 10 + (c - 48)) else v | [] => v end.
(** The number at the beginning of a text. *)
Definition leading_number (s : bytes) : Z :=
  let s := skip_blanks s in
  if peek s 0 =? 45 then - digits (drop 1 s) 0 else if peek s 0 =? 43 then digits (drop 1 s) 0 else digits s 0.
(** A value that a [long long] cannot hold is undefined. *)
Definition atoll (s : bytes) : result Z :=
  let v := leading_number s in
  _ ← defined_if ((- 2 ^ 63 <=? v) && (v <? 2 ^ 63)); mret v.

(** An [aofInfo] that is being filled. *)
Record draft := mk_draft { draft_name : option bytes; draft_seq : Z; draft_type : Z }.
Definition set_field (ai : draft) (key value : bytes) : result (load_error + draft) :=
  if strcasecmp_is key (text "file") then
    let name := until_null value in
    mret (if pathIsBaseName name then inr (mk_draft (Some name) (draft_seq ai) (draft_type ai)) else inl NotAFilename)
  else if strcasecmp_is key (text "seq") then seq ← atoll (until_null value); mret (inr (mk_draft (draft_name ai) seq (draft_type ai)))
  else if strcasecmp_is key (text "type") then mret (inr (mk_draft (draft_name ai) (draft_seq ai) (peek value 0)))
  else mret (inr ai).
(** [for (int i = 0; i < argc; i += 2)] *)
Fixpoint set_fields (ai : draft) (argv : list bytes) : result (load_error + draft) :=
  match argv with
  | key :: value :: argv => r ← set_field ai key value; match r with inl e => mret (inl e) | inr ai => set_fields ai argv end
  | _ => mret (inr ai)
  end.

(** The entry goes to its list. *)
Definition add_entry (am : aofManifest) (maxseq : Z) (ai : aofInfo) : load_error + (aofManifest * Z) :=
  let '(mk_manifest base incrs hists cb ci d) := am in
  if file_type ai =? AOF_FILE_TYPE_BASE then
    match base with Some _ => inl DuplicateBase | None => inr (mk_manifest (Some ai) incrs hists (file_seq ai) ci d, maxseq) end
  else if file_type ai =? AOF_FILE_TYPE_HIST then inr (mk_manifest base incrs (hists ++ [ai]) cb ci d, maxseq)
  else if file_type ai =? AOF_FILE_TYPE_INCR then
    if file_seq ai <=? maxseq then inl NonMonotonic else inr (mk_manifest base (incrs ++ [ai]) hists cb (file_seq ai) d, file_seq ai)
  else inl UnknownType.

(** A line that is no comment; [buf] up to its null byte. *)
Definition load_line (am : aofManifest) (maxseq : Z) (buf : bytes) : result (load_error + (aofManifest * Z)) :=
  if negb (existsb (Z.eqb 10) buf) then mret (inl TooLongLine) else
  let blanks := [32; 9; 13; 10] in
  let line := strip_right blanks (strip blanks buf) in
  match line, args_of line with
  | [], _ | _, None => mret (inl InvalidFormat)
  | _, Some argv =>
      if (length argv <? 6)%nat || Nat.odd (length argv) then mret (inl InvalidFormat) else
      r ← set_fields (mk_draft None 0 0) argv;
      match r with
      | inl e => mret (inl e)
      | inr (mk_draft (Some name) seq type) =>
          if (seq =? 0) || (type =? 0) then mret (inl InvalidFormat) else mret (add_entry am maxseq (mk_info name seq type))
      | inr _ => mret (inl InvalidFormat)
      end
  end.
(** [linenum == 0] is [first]. *)
Fixpoint load_loop (fuel : nat) (am : aofManifest) (maxseq : Z) (first : bool) (f : bytes) : result (load_error + aofManifest) :=
  match f with
  | [] => mret (if first then inl EmptyManifest else inr am)
  | _ =>
      match fuel with
      | O => inl OutOfFuel
      | S fuel =>
          let '(buf, f) := fgets MANIFEST_MAX_LINE f in
          let buf := until_null buf in
          if peek buf 0 =? 35 then load_loop fuel am maxseq false f else
          r ← load_line am maxseq buf;
          match r with inl e => mret (inl e) | inr (am, maxseq) => load_loop fuel am maxseq false f end
      end
  end.
Definition aofLoadManifestFromFile (f : bytes) : result (load_error + aofManifest) := load_loop (length f) aofManifestCreate 0 true f.

(** ** Operations *)

Section Names.
Context (aof_filename : bytes) (aof_use_rdb_preamble : bool).

Definition base_name (seq : Z) : bytes :=
  aof_filename ++ [46] ++ decimal seq ++ text ".base" ++ (if aof_use_rdb_preamble then text ".rdb" else text ".aof").
Definition incr_name (seq : Z) : bytes := aof_filename ++ [46] ++ decimal seq ++ text ".incr" ++ text ".aof".
Definition getTempIncrAofName : bytes := text "temp-" ++ aof_filename ++ text ".incr".

Definition getNewBaseFileNameAndMarkPreAsHistory (am : aofManifest) : result (bytes * aofManifest) :=
  hists ← match base_aof_info am with
          | Some ai => _ ← assert (file_type ai =? AOF_FILE_TYPE_BASE); mret (mk_info (file_name ai) (file_seq ai) AOF_FILE_TYPE_HIST :: history_aof_list am)
          | None => mret (history_aof_list am)
          end;
  let seq := curr_base_file_seq am + 1 in
  let name := base_name seq in
  mret (name, mk_manifest (Some (mk_info name seq AOF_FILE_TYPE_BASE)) (incr_aof_list am) hists seq (curr_incr_file_seq am) true).

Definition getNewIncrAofName (am : aofManifest) : bytes * aofManifest :=
  let seq := curr_incr_file_seq am + 1 in
  let name := incr_name seq in
  (name, mk_manifest (base_aof_info am) (incr_aof_list am ++ [mk_info name seq AOF_FILE_TYPE_INCR]) (history_aof_list am) (curr_base_file_seq am) seq true).

Definition getLastIncrAofName (am : aofManifest) : bytes * aofManifest :=
  match last (incr_aof_list am) with Some ai => (file_name ai, am) | None => getNewIncrAofName am end.
End Names.

(** One entry of the list, from the tail. *)
Definition mark_turn (hists : list aofInfo) (ai : aofInfo) : result (list aofInfo) :=
  _ ← assert (file_type ai =? AOF_FILE_TYPE_INCR); mret (mk_info (file_name ai) (file_seq ai) AOF_FILE_TYPE_HIST :: hists).
(** [writing]: [server.aof_fd != -1]. *)
Definition markRewrittenIncrAofAsHistory (writing : bool) (am : aofManifest) : result aofManifest :=
  match rev (incr_aof_list am) with
  | [] => mret am
  | newest :: older =>
      let '(kept, moved) := if writing then ([newest], older) else ([], newest :: older) in
      hists ← for_each mark_turn (history_aof_list am) moved;
      mret (mk_manifest (base_aof_info am) kept hists (curr_base_file_seq am) (curr_incr_file_seq am) true)
  end.
