(* ===== verification/AofManifestFacts.v ===== *)
(** * The manifest is read as it was written

    The line of each entry is parsed to the entry, and the text of a well-formed manifest to
    the manifest, with the sequence numbers of its newest files. *)

From Stdlib Require Import Ascii.
From S2P Require Import Prelude Bytes NumString NumStringFacts StringMatch SdsText SdsEdit SdsQuote AofManifest.

(** ** Lines *)

(** A file name: no path, and no single quote, which [sdsneedsrepr] lets pass. *)
Definition name_char (c : Z) : Prop := 0 < c < 256 /\ c <> 47 /\ c <> 92 /\ c <> 39.
Definition name_ok (name : bytes) : Prop := name <> [] /\ Forall name_char name.

Definition shown (name : bytes) : bytes := if needs_quotes name then quote name else name.
Definition words (ai : aofInfo) : list bytes := [text "file"; shown (file_name ai); text "seq"; decimal (file_seq ai); text "type"; [file_type ai]].
Definition entry_line (ai : aofInfo) : bytes := join [32] (words ai) ++ [10].

Definition visible (c : Z) : Prop := 32 <= c <= 126.

Lemma hex_digit_visible d : 0 <= d < 16 -> visible (hex_digit d).
Proof. intros Hd. unfold hex_digit, visible. destruct (Z.ltb_spec d 10); lia. Qed.

Lemma repr_visible c : in_u 8 c -> Forall visible (repr_char c).
Proof.
  intros [H0 H1]. cbn in H1. unfold repr_char.
  destruct (Z.eqb_spec c 92) as [->|]; [by repeat constructor|]. destruct (Z.eqb_spec c 34) as [->|]; [by repeat constructor|]. cbn [orb].
  repeat (destruct (c =? _); [by repeat constructor|]). destruct (isprint c) eqn:E.
  - unfold isprint in E. to_prop. repeat constructor; lia.
  - rewrite !Forall_cons. split; [done|]. split; [done|]. split; [apply hex_digit_visible; split; [apply Z.div_pos; lia|apply Z.div_lt_upper_bound; lia]|].
    split; [apply hex_digit_visible, Z.mod_pos_bound; lia|constructor].
Qed.

Lemma quote_visible p : is_bytes p -> Forall visible (quote p).
Proof.
  intros Hp. unfold quote. apply Forall_app. split; [by repeat constructor|]. apply Forall_app. split; [|by repeat constructor].
  apply Forall_concat, Forall_map. eapply Forall_impl; [exact Hp|]. apply repr_visible.
Qed.

Lemma name_bytes name : Forall name_char name -> is_bytes name.
Proof. intros Hn. eapply Forall_impl; [exact Hn|]. intros c [Hc _]. unfold in_u. lia. Qed.

Lemma bare_name name : Forall name_char name -> needs_quotes name = false -> Forall (fun c => visible c /\ plain c = true) name.
Proof.
  intros Hn. induction Hn as [|c name Hc _ IH]; intros Hq; constructor; unfold needs_quotes in *; cbn [existsb] in Hq; to_prop; [|auto].
  destruct Hc as (? & ? & ? & ?). match goal with H : needs_repr c = false |- _ => unfold needs_repr in H; to_prop end.
  unfold isprint, plain in *. to_prop. split; [split; lia|].
  match goal with H : isspace c = false |- _ => rewrite H end. rewrite (proj2 (Z.eqb_neq c 0)), (proj2 (Z.eqb_neq c 34)), (proj2 (Z.eqb_neq c 39)) by lia. done.
Qed.

Lemma shown_visible name : Forall name_char name -> Forall visible (shown name).
Proof.
  intros Hn. unfold shown. destruct (needs_quotes name) eqn:E; [by apply quote_visible, name_bytes|].
  eapply Forall_impl; [by apply bare_name|]. by intros c [].
Qed.

Lemma word_shown name : name_ok name -> word (shown name) name.
Proof.
  intros [Hne Hn]. unfold shown. destruct (needs_quotes name) eqn:E; [by apply word_quote, name_bytes|].
  apply word_plain; [done|]. eapply Forall_impl; [by apply bare_name|]. by intros c [].
Qed.

Lemma decimal_plain v : Forall (fun c => visible c /\ plain c = true) (decimal v).
Proof.
  eapply Forall_impl; [apply decimal_chars|]. cbn. intros c Hc. unfold visible, plain, isspace. split; [lia|].
  rewrite (proj2 (Z.leb_gt c 13)), andb_false_r by lia. repeat (rewrite (proj2 (Z.eqb_neq c _)) by lia). done.
Qed.

(** ** Numbers *)

Lemma digits_app l c v : Forall (fun c => 48 <= c <= 57) l -> 48 <= c <= 57 -> digits (l ++ [c]) v = digits l v * 10 + (c - 48).
Proof.
  intros Hl Hc. revert v. induction Hl as [|d l Hd _ IH]; intros v; cbn [app digits];
    rewrite (proj2 (Z.leb_le 48 _)), (proj2 (Z.leb_le _ 57)) by lia; [done|]. apply IH.
Qed.

Lemma digits_dec fuel : forall v, 0 <= v < 10 ^ Z.of_nat fuel -> digits (dec_fuel fuel v) 0 = v.
Proof.
  induction fuel as [|fuel IH]; intros v Hv; cbn [dec_fuel digits]; [cbn in Hv; lia|]. unfold ch_0. destruct (Z.ltb_spec v 10).
  - cbn [digits]. rewrite (proj2 (Z.leb_le 48 _)), (proj2 (Z.leb_le _ 57)) by lia. cbn [andb]. lia.
  - pose proof (Z.mod_pos_bound v 10 ltac:(lia)). rewrite digits_app by (try apply dec_fuel_digits; try apply Z.div_pos; lia).
    rewrite IH; [pose proof (Z.div_mod v 10); lia|]. rewrite Nat2Z.inj_succ, Z.pow_succ_r in Hv by lia.
    split; [apply Z.div_pos; lia|apply Z.div_lt_upper_bound; lia].
Qed.

Lemma until_null_id l : ~ In 0 l -> until_null l = l.
Proof.
  induction l as [|c l IH]; intros Hn; [done|]. cbn [until_null]. rewrite (proj2 (Z.eqb_neq c 0)) by (intros ->; apply Hn; by left).
  f_equal. apply IH. intros ?. apply Hn. by right.
Qed.

Lemma visible_not_in c l : Forall visible l -> ~ visible c -> ~ In c l.
Proof. intros Hl Hc Hi. rewrite List.Forall_forall in Hl. by apply Hc, Hl. Qed.

Lemma decimal_visible v : Forall visible (decimal v).
Proof. eapply Forall_impl; [apply decimal_plain|]. by intros c []. Qed.

Lemma dec_head v : 0 <= v < 10 ^ 20 -> exists c l, dec v = c :: l /\ 48 <= c <= 57.
Proof.
  intros Hv. pose proof (dec_fuel_digits 20 v ltac:(lia)) as Hd. pose proof (digits_dec 20 v Hv) as Ev. unfold dec.
  destruct (dec_fuel 20 v) as [|c l] eqn:E; [|exists c, l; by apply Forall_cons in Hd as [? _]].
  cbn [dec_fuel] in E. destruct (v <? 10); [done|]. by apply app_eq_nil in E as [_ ?].
Qed.

Lemma atoll_decimal v : in_s 64 v -> atoll (until_null (decimal v)) = inr v.
Proof.
  intros [H1 H2]. cbn in H1, H2. rewrite until_null_id by (apply visible_not_in; [apply decimal_visible|unfold visible; lia]).
  unfold atoll, leading_number, decimal. destruct (Z.ltb_spec v 0).
  - destruct (dec_head (- v) ltac:(lia)) as (c & l & E & Hc).
    assert (digits (dec (- v)) 0 = - v) as Ed by (apply digits_dec; cbn; lia).
    change (skip_blanks (ch_minus :: dec (- v))) with (45 :: dec (- v)). unfold peek. cbn [nth Z.eqb Pos.eqb drop]. rewrite drop_0, Ed.
    rewrite Z.opp_involutive, (proj2 (Z.leb_le _ _)), (proj2 (Z.ltb_lt _ _)) by (cbn; lia). done.
  - destruct (dec_head v ltac:(lia)) as (c & l & E & Hc). assert (digits (dec v) 0 = v) as Ed by (apply digits_dec; cbn; lia). rewrite E in *.
    cbn [skip_blanks]. unfold isspace. rewrite (proj2 (Z.leb_gt c 13)), (proj2 (Z.eqb_neq c 32)), andb_false_r by lia. cbn [orb]. unfold peek. cbn [nth].
    rewrite (proj2 (Z.eqb_neq c 45)), (proj2 (Z.eqb_neq c 43)), Ed by lia.
    rewrite (proj2 (Z.leb_le _ _)), (proj2 (Z.ltb_lt _ _)) by (cbn; lia). done.
Qed.

(** ** One line *)

(** An entry that can be written: its type, its number, and the length of its line. *)
Definition entry_ok (ty : Z) (ai : aofInfo) : Prop :=
  file_type ai = ty /\ 33 <= ty <= 126 /\ ty <> 34 /\ ty <> 39 /\ name_ok (file_name ai) /\ in_s 64 (file_seq ai) /\ file_seq ai <> 0 /\
  (length (entry_line ai) <= MANIFEST_MAX_LINE)%nat.

Lemma format_line buf ai ty : entry_ok ty ai -> aofInfoFormat buf ai = buf ++ entry_line ai.
Proof.
  intros (Et & Hty & _ & _ & [Hne Hn] & _). unfold aofInfoFormat, entry_line, words, join. fold (shown (file_name ai)).
  rewrite until_null_id by (apply (visible_not_in 0); [by apply shown_visible|unfold visible; lia]). by rewrite <- !app_assoc.
Qed.

Lemma line_visible ty ai : entry_ok ty ai -> Forall visible (join [32] (words ai)).
Proof.
  intros (Et & Hty & _ & _ & [Hne Hn] & _). unfold words, join. repeat (apply Forall_app; split); try (by repeat constructor);
    [by apply shown_visible|apply decimal_visible|]. rewrite Et. repeat constructor; lia.
Qed.

Lemma line_args ty ai : entry_ok ty ai ->
  args_of (join [32] (words ai)) = Some [text "file"; file_name ai; text "seq"; decimal (file_seq ai); text "type"; [file_type ai]].
Proof.
  intros (Et & Hty & H34 & H39 & Hn & Hs & _). apply args_of_words. unfold words.
  assert (forall w, w <> [] -> Forall (fun c => plain c = true) w -> word w w) as Hp by apply word_plain.
  apply List.Forall2_cons; [apply Hp; [done|by repeat constructor]|]. apply List.Forall2_cons; [by apply word_shown|].
  apply List.Forall2_cons; [apply Hp; [done|by repeat constructor]|]. apply List.Forall2_cons; [apply Hp|].
  - intros E. pose proof (length_decimal (file_seq ai) Hs). rewrite E in *. cbn [length] in *. lia.
  - eapply Forall_impl; [apply decimal_plain|]. by intros c [].
  - apply List.Forall2_cons; [apply Hp; [done|by repeat constructor]|]. apply List.Forall2_cons; [|constructor]. apply Hp; [done|].
    rewrite Et. repeat constructor. unfold plain, isspace. rewrite (proj2 (Z.leb_gt ty 13)), andb_false_r by lia.
    repeat (rewrite (proj2 (Z.eqb_neq ty _)) by lia). done.
Qed.

Lemma fgets_entry body rest n : ~ In 10 body -> (length body < n)%nat -> fgets n (body ++ [10] ++ rest) = (body ++ [10], rest).
Proof.
  revert n. induction body as [|c body IH]; intros [|n] Hn Hl; cbn [length] in Hl; [lia|done|lia|]. cbn [app fgets].
  rewrite (proj2 (Z.eqb_neq c 10)) by (intros ->; apply Hn; by left). cbn [app] in IH. rewrite IH; [done|intros ?; apply Hn; by right|lia].
Qed.

Lemma strip_line ai ty : entry_ok ty ai -> strip_right [32; 9; 13; 10] (strip [32; 9; 13; 10] (entry_line ai)) = join [32] (words ai).
Proof.
  intros (Et & Hty & _). unfold entry_line.
  change (strip _ (join [32] (words ai) ++ [10])) with (join [32] (words ai) ++ [10]). unfold strip_right. rewrite rev_app_distr. cbn [rev app].
  change (strip [32; 9; 13; 10] (10 :: ?l)) with (strip [32; 9; 13; 10] l).
  assert (exists l, join [32] (words ai) = l ++ [file_type ai]) as [l ->] by (unfold words, join; eexists; by rewrite !app_assoc).
  rewrite rev_app_distr. cbn [rev app strip]. unfold Sds.strchr. cbn [app existsb]. rewrite Et. repeat (rewrite (proj2 (Z.eqb_neq ty _)) by lia). cbn [orb].
  rewrite <- (rev_involutive l) at 2. cbn [rev]. by rewrite rev_involutive.
Qed.

Lemma set_file ai name : name_ok name -> set_field ai (text "file") name = inr (inr (mk_draft (Some name) (draft_seq ai) (draft_type ai))).
Proof.
  intros [Hne Hn]. unfold set_field. change (strcasecmp_is (text "file") (text "file")) with true. cbn iota. rewrite List.Forall_forall in Hn.
  rewrite until_null_id by (intros Hi; apply Hn in Hi as [? _]; lia).
  assert (pathIsBaseName name = true) as ->; [|done]. unfold pathIsBaseName. apply negb_true_iff. rewrite <- not_true_iff_false, existsb_exists.
  intros (c & Hi & Hc). apply Hn in Hi as (_ & ? & ? & _). apply orb_true_iff in Hc as [Hc|Hc]; to_prop; lia.
Qed.

Lemma set_seq ai v : in_s 64 v -> set_field ai (text "seq") (decimal v) = inr (inr (mk_draft (draft_name ai) v (draft_type ai))).
Proof.
  intros Hv. unfold set_field. change (strcasecmp_is (text "seq") (text "file")) with false. change (strcasecmp_is (text "seq") (text "seq")) with true.
  cbn iota. by rewrite atoll_decimal.
Qed.

Lemma set_entry ty ai : entry_ok ty ai ->
  set_fields (mk_draft None 0 0) [text "file"; file_name ai; text "seq"; decimal (file_seq ai); text "type"; [file_type ai]] =
  inr (inr (mk_draft (Some (file_name ai)) (file_seq ai) (file_type ai))).
Proof.
  intros (Et & Hty & _ & _ & Hn & Hs & _). cbn [set_fields]. rewrite set_file by done. cbn [mbind result_bind]. by rewrite set_seq.
Qed.

Lemma load_entry ty ai am maxseq : entry_ok ty ai -> load_line am maxseq (entry_line ai) = inr (add_entry am maxseq ai).
Proof.
  intros Hok. unfold load_line.
  assert (existsb (Z.eqb 10) (entry_line ai) = true) as -> by (unfold entry_line; rewrite existsb_app; cbn [existsb Z.eqb Pos.eqb orb]; by rewrite orb_true_r).
  cbn [negb]. cbv zeta. rewrite (strip_line ai ty Hok). pose proof (line_args ty ai Hok) as Ea.
  assert (exists c l, join [32] (words ai) = c :: l) as (c & l & Ej) by (by eexists _, _). rewrite Ej in *. rewrite Ea.
  cbn [length Nat.ltb Nat.leb orb Nat.odd negb Nat.even]. rewrite (set_entry ty ai Hok). cbn [mbind result_bind mret result_ret].
  destruct Hok as (Et & Hty & _ & _ & _ & _ & Hz & _). rewrite (proj2 (Z.eqb_neq (file_seq ai) 0)), (proj2 (Z.eqb_neq (file_type ai) 0)) by lia. cbn [orb].
  by destruct ai.
Qed.

(** ** The file *)

(** What the entries add up to. *)
Fixpoint add_all (am : aofManifest) (maxseq : Z) (ais : list aofInfo) : load_error + (aofManifest * Z) :=
  match ais with
  | [] => inr (am, maxseq)
  | ai :: ais => match add_entry am maxseq ai with inl e => inl e | inr (am, maxseq) => add_all am maxseq ais end
  end.

Definition writable (ai : aofInfo) : Prop := exists ty, entry_ok ty ai.

Lemma load_entries ais : Forall writable ais -> forall fuel am maxseq first,
  (length (concat (map entry_line ais)) <= fuel)%nat -> (first = true -> ais <> []) ->
  load_loop fuel am maxseq first (concat (map entry_line ais)) = inr (match add_all am maxseq ais with inl e => inl e | inr (am, _) => inr am end).
Proof.
  induction 1 as [|ai ais [ty Hok] _ IH]; intros fuel am maxseq first Hf Hne; [destruct first; [by destruct (Hne eq_refl)|]; by destruct fuel|].
  cbn [map concat add_all] in *. rewrite length_app in Hf. pose proof (line_visible ty ai Hok) as Hv.
  assert (length (entry_line ai) <= MANIFEST_MAX_LINE)%nat as Hlen by apply Hok.
  assert (length (entry_line ai) = length (join [32%Z] (words ai)) + 1)%nat as El by (unfold entry_line; rewrite length_app; done).
  destruct fuel as [|fuel]; [lia|]. cbn [load_loop].
  assert (exists c r, entry_line ai ++ concat (map entry_line ais) = c :: r) as (c & r & Ec) by (by eexists _, _). rewrite Ec, <- Ec. clear c r Ec.
  unfold entry_line at 1. rewrite <- app_assoc, fgets_entry by (first [lia|apply visible_not_in; [done|unfold visible; lia]]). fold (entry_line ai).
  rewrite until_null_id by (unfold entry_line; rewrite in_app_iff; intros [Hi|[|[]]]; [revert Hi; apply visible_not_in; [done|unfold visible; lia]|lia]).
  change (peek (entry_line ai) 0 =? 35) with false. cbn iota. rewrite (load_entry ty ai) by done. cbn [mbind result_bind].
  destruct (add_entry am maxseq ai) as [e|[am' maxseq']]; [done|]. apply IH; [lia|done].
Qed.

Lemma string_lines ais : Forall writable ais -> forall buf, fold_left aofInfoFormat ais buf = buf ++ concat (map entry_line ais).
Proof.
  induction 1 as [|ai ais [ty Hok] _ IH]; intros buf; cbn [fold_left map concat]; [by rewrite app_nil_r|].
  rewrite IH, (format_line buf ai ty Hok). by rewrite <- app_assoc.
Qed.

(** ** Manifests *)

(** The numbers grow, from one above [m]. *)
Fixpoint increasing (m : Z) (ais : list aofInfo) : Prop := match ais with [] => True | ai :: ais => m < file_seq ai /\ increasing (file_seq ai) ais end.
Definition newest (m : Z) (ais : list aofInfo) : Z := fold_left (fun _ ai => file_seq ai) ais m.
Definition entries (am : aofManifest) : list aofInfo := option_list (base_aof_info am) ++ history_aof_list am ++ incr_aof_list am.

Record manifest_ok (am : aofManifest) : Prop := {
  ok_base : Forall (entry_ok AOF_FILE_TYPE_BASE) (option_list (base_aof_info am));
  ok_history : Forall (entry_ok AOF_FILE_TYPE_HIST) (history_aof_list am);
  ok_incr : Forall (entry_ok AOF_FILE_TYPE_INCR) (incr_aof_list am);
  ok_increasing : increasing 0 (incr_aof_list am);
}.

(** What is read again: the numbers are those of the newest files. *)
Definition reloaded (am : aofManifest) : aofManifest :=
  mk_manifest (base_aof_info am) (incr_aof_list am) (history_aof_list am) (newest 0 (option_list (base_aof_info am))) (newest 0 (incr_aof_list am)) false.

Lemma add_history hs : Forall (entry_ok AOF_FILE_TYPE_HIST) hs -> forall base incrs hists cb ci d maxseq rest,
  add_all (mk_manifest base incrs hists cb ci d) maxseq (hs ++ rest) = add_all (mk_manifest base incrs (hists ++ hs) cb ci d) maxseq rest.
Proof.
  induction 1 as [|ai hs (Et & _) _ IH]; intros; cbn [app add_all add_entry]; [by rewrite app_nil_r|]. rewrite Et. cbn [Z.eqb Pos.eqb AOF_FILE_TYPE_HIST AOF_FILE_TYPE_BASE].
  rewrite IH. by rewrite <- app_assoc.
Qed.

Lemma add_incr news : Forall (entry_ok AOF_FILE_TYPE_INCR) news -> forall base incrs hists cb ci d maxseq,
  increasing maxseq news -> add_all (mk_manifest base incrs hists cb ci d) maxseq news = inr (mk_manifest base (incrs ++ news) hists cb (newest ci news) d, newest maxseq news).
Proof.
  induction 1 as [|ai news (Et & _) _ IH]; intros base incrs hists cb ci d maxseq Hi; cbn [add_all add_entry]; [by rewrite app_nil_r|]. destruct Hi as [Hlt Hi].
  rewrite Et. cbn [Z.eqb Pos.eqb AOF_FILE_TYPE_HIST AOF_FILE_TYPE_BASE AOF_FILE_TYPE_INCR]. rewrite (proj2 (Z.leb_gt _ _)) by done.
  rewrite IH by done. by rewrite <- app_assoc.
Qed.

Lemma writable_entries am : manifest_ok am -> Forall writable (entries am).
Proof.
  intros [Hb Hh Hi _]. unfold entries. repeat (apply Forall_app; split); (eapply Forall_impl; [eassumption|]); intros ai H; by eexists.
Qed.

Lemma manifest_text am : manifest_ok am -> getAofManifestAsString am = concat (map entry_line (entries am)).
Proof.
  intros Hok. pose proof (writable_entries am Hok) as Hw. unfold entries in Hw. apply Forall_app in Hw as [Hb Hw]. apply Forall_app in Hw as [Hh Hi].
  unfold getAofManifestAsString, entries. rewrite (string_lines _ Hi), (string_lines _ Hh), !map_app, !concat_app, <- app_assoc. f_equal.
  pose proof (ok_base am Hok) as Hb'. destruct (base_aof_info am) as [ai|]; [|done]. apply Forall_cons in Hb' as [Hb' _].
  cbn [option_list map concat]. rewrite (format_line [] ai _ Hb'). symmetry. apply app_nil_r.
Qed.

Lemma load_written am : manifest_ok am -> entries am <> [] -> aofLoadManifestFromFile (getAofManifestAsString am) = inr (inr (reloaded am)).
Proof.
  intros Hok Hne. unfold aofLoadManifestFromFile. rewrite (manifest_text am Hok). rewrite load_entries by (auto using writable_entries).
  destruct Hok as [Hb Hh Hi Hinc]. unfold entries, reloaded, aofManifestCreate. destruct (base_aof_info am) as [ai|].
  - change (option_list (Some ai)) with [ai] in *. cbn [app add_all]. apply Forall_cons in Hb as [(Et & _) _]. unfold add_entry. rewrite Et. cbn [Z.eqb Pos.eqb AOF_FILE_TYPE_BASE].
    rewrite add_history, add_incr by done. done.
  - change (@option_list aofInfo None) with (@nil aofInfo) in *. cbn [app]. rewrite add_history, add_incr by done. done.
Qed.

(** C9: a manifest is read as it was written, when it has an entry, its file names are not empty
    and have no slash, backslash, single quote or null, its lines fit the buffer of the reader,
    its numbers are not 0 and those of the incremental files increase.  Reading the text written
    for it gives the same base, history and incremental files in the same order, names that need
    quotes included; the next numbers are taken from its newest files. *)
Theorem aof_manifest_roundtrip (am : aofManifest) :
  manifest_ok am -> entries am <> [] -> aofLoadManifestFromFile (getAofManifestAsString am) = inr (inr (reloaded am)).
Proof. apply load_written. Qed.

Lemma aof_manifest_roundtrip_witness :
  let info name seq type := mk_info (text name) seq type in
  let am := mk_manifest (Some (info "my log.2.base.rdb" 2 98)) [info "my log.3.incr.aof" 3 105; info "my log.4.incr.aof" 4 105] [info "my log.1.base.rdb" 1 104] 2 4 true in
  aofLoadManifestFromFile (getAofManifestAsString am) = inr (inr (set_dirty false am)).
Proof.
  intros info am. change (set_dirty false am) with (reloaded am). apply (aof_manifest_roundtrip am); [|done].
  split; [| | |by repeat split]; cbn [am incr_aof_list history_aof_list base_aof_info option_list];
    repeat (apply List.Forall_cons; [repeat split; first [by_decide|done|apply (bool_decide_unpack _); vm_compute; exact I|repeat constructor; by_decide]|]); constructor.
Defined.
