(* ===== verification/AofLog.v ===== *)
(** * The text of the append only files

    Commands are appended to a log as arrays of strings, the ones of an execution unit between
    MULTI and EXEC, with a SELECT where the database changes.  [catAppendOnlyGenericCommand] of
    aof.c writes a command; [loadSingleAppendOnlyFile] reads a log with a client of its own.  A
    dataset is the list of the batches of commands that made it, each command with its database;
    a batch is run as a whole.  Cluster mode is off. *)

From Stdlib Require Import Ascii.
From S2P Require Import Prelude Bytes NumString StringMatch SdsText SdsEdit SdsQuote AofManifest.

Notation op := (Z * list bytes)%type.
Notation batch := (list op).
Notation dataset := (list batch).

(** The configuration, and whether the server has a command of a name other than the ones
    below. *)
Class Config := { dbnum : Z; known : list bytes -> bool; aof_load_truncated : bool; aof_timestamp_enabled : bool }.

(** ** Writing *)

Definition CRLF : bytes := [13; 10].
(** [$<len>], the argument, and their line ends. *)
Definition cat_argument (dst o : bytes) : bytes := dst ++ [36] ++ decimal (len_ o) ++ CRLF ++ o ++ CRLF.
Definition catAppendOnlyGenericCommand (dst : bytes) (argv : list bytes) : bytes :=
  fold_left cat_argument argv (dst ++ [42] ++ decimal (len_ argv) ++ CRLF).

(** ** Running *)

Definition MULTI : list bytes := [text "MULTI"].
Definition EXEC : list bytes := [text "EXEC"].

(** Names are compared without case. *)
Definition is_command (name : string) (argv : list bytes) : bool :=
  match argv with a :: _ => bool_decide (map tolower a = text name) | [] => false end.
Definition lookupCommand `{Config} (argv : list bytes) : bool :=
  is_command "multi" argv || is_command "exec" argv || is_command "select" argv || known argv.

(** The database and, after MULTI, the queued commands. *)
Record fake_client := mk_client { selected : Z; queue : option (list (list bytes)) }.
Definition createAOFClient : fake_client := mk_client 0 None.

(** A number that is none of a database is refused. *)
Definition selectCommand `{Config} (db : Z) (argv : list bytes) : result Z :=
  id ← the (argv !! 1%nat);
  mret (match string2ll id with Some id => if (0 <=? id) && (id <? dbnum) then id else db | None => db end).
(** The queued commands; a MULTI among them is refused. *)
Fixpoint exec_queue `{Config} (db : Z) (ops : batch) (q : list (list bytes)) : result (Z * batch) :=
  match q with
  | [] => mret (db, ops)
  | argv :: q =>
      if is_command "multi" argv then exec_queue db ops q
      else if is_command "select" argv then db ← selectCommand db argv; exec_queue db ops q
      else exec_queue db (ops ++ [(db, argv)]) q
  end.
Definition run_command `{Config} (c : fake_client) (data : dataset) (argv : list bytes) : result (fake_client * dataset) :=
  match queue c with
  | Some q =>
      if is_command "exec" argv then '(db, ops) ← exec_queue (selected c) [] q; mret (mk_client db None, data ++ [ops])
      else mret (mk_client (selected c) (Some (q ++ [argv])), data)
  | None =>
      if is_command "multi" argv then mret (mk_client (selected c) (Some []), data)
      else if is_command "exec" argv then mret (c, data)
      else if is_command "select" argv then db ← selectCommand (selected c) argv; mret (mk_client db None, data)
      else mret (c, data ++ [[(selected c, argv)]])
  end.

(** ** Reading *)

Definition AOF_ANNOTATION_LINE_MAX_LEN : nat := 1024.
(** [fgets] into the buffer, and whether it has met the end of the file. *)
Definition read_line (f : bytes) : bytes * bytes * bool :=
  let '(buf, rest) := fgets (AOF_ANNOTATION_LINE_MAX_LEN - 1) f in
  (buf, rest, negb (existsb (Z.eqb 10) buf) && (length buf <? AOF_ANNOTATION_LINE_MAX_LEN - 1)%nat).
Definition atoi (s : bytes) : result Z := v ← atoll s; _ ← defined_if (bool_decide (in_s 32 v)); mret v.
Definition strtol (s : bytes) : Z := Z.max (- 2 ^ 63) (Z.min (leading_number s) (2 ^ 63 - 1)).

(** What the reader met: the arguments and the rest of the file, its end, or something else. *)
Inductive reading (A : Type) := Got (a : A) (rest : bytes) | ShortRead | BadFormat.
Arguments Got {A}.
Arguments ShortRead {A}.
Arguments BadFormat {A}.

(** The length of an argument that does not fit the memory stops the server. *)
Definition read_argument (f : bytes) : result (reading bytes) :=
  match f with
  | [] => mret ShortRead
  | _ =>
      let '(buf, rest, _) := read_line f in
      if negb (peek buf 0 =? 36) then mret BadFormat else
      let len := strtol (drop 1 buf) in
      _ ← assert (0 <=? len);
      if Z.of_nat (length rest) <? len then mret ShortRead else
      let len := Z.to_nat len in
      if (length (drop len rest) <? 2)%nat then mret ShortRead else mret (Got (take len rest) (drop 2 (drop len rest)))
  end.
Fixpoint read_arguments (argc : nat) (argv : list bytes) (f : bytes) : result (reading (list bytes)) :=
  match argc with
  | O => mret (Got argv f)
  | S argc =>
      r ← read_argument f;
      match r with Got a rest => read_arguments argc (argv ++ [a]) rest | ShortRead => mret ShortRead | BadFormat => mret BadFormat end
  end.

(** How the log was read: the dataset in it, and where to cut it off. *)
Inductive loaded := LoadOk (data : dataset) | LoadShort (data : dataset) (valid_up_to : nat) | LoadFailed.

(** [uxeof] *)
Definition unexpected_end `{Config} (data : dataset) (valid_up_to : nat) : loaded :=
  if aof_load_truncated then LoadShort data valid_up_to else LoadFailed.

Fixpoint load_commands `{Config} (fuel size : nat) (c : fake_client) (data : dataset) (valid_up_to valid_before_multi : nat) (f : bytes) : result loaded :=
  match fuel, f with
  | O, _ => inl OutOfFuel
  | _, [] => mret (if queue c then unexpected_end data valid_before_multi else LoadOk data)
  | S fuel, _ =>
      let '(buf, rest, eof) := read_line f in
      if peek buf 0 =? 35 then load_commands fuel size c data valid_up_to valid_before_multi rest else
      if negb (peek buf 0 =? 42) then mret LoadFailed else
      if peek buf 1 =? 0 then mret (if (eof : bool) then unexpected_end data valid_up_to else LoadFailed) else
      argc ← atoi (drop 1 buf);
      if argc <? 1 then mret LoadFailed else
      r ← read_arguments (Z.to_nat argc) [] rest;
      match r with
      | ShortRead => mret (unexpected_end data valid_up_to)
      | BadFormat => mret LoadFailed
      | Got argv rest =>
          if negb (lookupCommand argv) then mret LoadFailed else
          let valid_before_multi := if is_command "multi" argv then valid_up_to else valid_before_multi in
          '(c, data) ← run_command c data argv;
          load_commands fuel size c data (if aof_load_truncated then size - length rest else valid_up_to)%nat valid_before_multi rest
      end
  end.
(** A text with the signature of a snapshot that is none. *)
Definition load_log `{Config} (f : bytes) : result loaded :=
  if bool_decide (take 5 f = text "REDIS") then mret LoadFailed
  else load_commands (S (length f)) (length f) createAOFClient [] 0 0 f.
