(* ===== verification/AofLogFacts.v ===== *)
(** * The log is read as it was written

    A log is a sequence of entries: a command, a SELECT, or a transaction.  Reading one runs its
    entries in order; reading any part of it from the beginning runs the entries it holds
    entirely, and tells where the rest begins. *)

From S2P Require Import Prelude Bytes NumString NumStringFacts StringMatch SdsText SdsEdit SdsQuote AofManifest AofManifestFacts AofLog.

(** ** Numbers *)

Lemma digits_mono l : forall v, 0 <= v -> Forall (fun c => 48 <= c <= 57) l -> v <= digits l v.
Proof.
  induction l as [|c l IH]; intros v Hv Hl; [done|]. apply Forall_cons in Hl as [Hc Hl]. cbn [digits].
  rewrite (proj2 (Z.leb_le 48 c)), (proj2 (Z.leb_le c 57)) by lia. cbn [andb]. pose proof (IH (v * 10 + (c - 48)) ltac:(lia) Hl). lia.
Qed.

Lemma digits_split l1 l2 : forall v, Forall (fun c => 48 <= c <= 57) l1 -> digits (l1 ++ l2) v = digits l2 (digits l1 v).
Proof.
  induction l1 as [|c l1 IH]; intros v Hl; [done|]. apply Forall_cons in Hl as [Hc Hl]. cbn [app digits].
  rewrite (proj2 (Z.leb_le 48 c)), (proj2 (Z.leb_le c 57)) by lia. cbn [andb]. by apply IH.
Qed.

Lemma leading_digits l : (l = [] \/ exists c l', l = c :: l' /\ 48 <= c <= 57) -> leading_number l = digits l 0.
Proof.
  intros [->|(c & l' & -> & Hc)]; [done|]. unfold leading_number. cbn [skip_blanks]. unfold isspace.
  rewrite (proj2 (Z.leb_gt c 13)), (proj2 (Z.eqb_neq c 32)), andb_false_r by lia. cbn [orb]. unfold peek. cbn [nth].
  by rewrite (proj2 (Z.eqb_neq c 45)), (proj2 (Z.eqb_neq c 43)) by lia.
Qed.

Section Number.
Context (v : Z) (Hv : 0 <= v < 2 ^ 63).

Lemma decimal_digits : Forall (fun c => 48 <= c <= 57) (decimal v) /\ digits (decimal v) 0 = v /\ exists c l, decimal v = c :: l.
Proof.
  unfold decimal. rewrite (proj2 (Z.ltb_ge v 0)) by lia. split; [apply dec_fuel_digits; lia|]. split; [apply digits_dec; cbn; lia|].
  destruct (dec_head v ltac:(lia)) as (c & l & E & _). eauto.
Qed.

(** The number at the beginning of what is there of a line. *)
Lemma leading_part q r : q ++ r = decimal v ++ CRLF -> r <> [] ->
  0 <= leading_number q <= v /\ (1 <= v -> q <> [] -> 1 <= leading_number q) /\ ~ In 10 q /\ (length q <= 21)%nat.
Proof using Hv.
  intros E Hr. destruct decimal_digits as (Hd & Ev & c & l & El). pose proof (length_decimal v ltac:(unfold in_s; cbn; lia)) as Hlen.
  assert (exists k, q = take k (decimal v) \/ q = decimal v ++ [13]) as (k & Hq).
  { apply app_eq_inv in E as [(k & E1 & E2)|(k & E1 & E2)]; [|exists (length q); left; by rewrite E1, take_app_length].
    destruct k as [|x [|y k]]; cbn in E2; [exists (length q); left; rewrite E1, app_nil_r; by rewrite firstn_all|injection E2 as <- _; exists O; by right|].
    injection E2 as _ _ E2. destruct k; [|done]. cbn in E2. by subst r. }
  assert (forall q', q = q' ++ [13] \/ q = q' -> Forall (fun c => 48 <= c <= 57) q' -> ~ In 10 q) as Hnl.
  { intros q' Hq' Hf Hi. rewrite List.Forall_forall in Hf. destruct Hq' as [->| ->]; [apply in_app_iff in Hi as [Hi|[|[]]]; [|done]|]; apply Hf in Hi; lia. }
  destruct Hq as [-> | ->].
  - pose proof (Forall_take _ k _ Hd) as Hd'. assert (digits (decimal v) 0 = digits (drop k (decimal v)) (digits (take k (decimal v)) 0)) as Es.
    { rewrite <- digits_split by done. by rewrite take_drop. }
    pose proof (digits_mono (take k (decimal v)) 0 ltac:(lia) Hd'). pose proof (digits_mono (drop k (decimal v)) _ H (Forall_drop _ k _ Hd)) as Hm.
    rewrite leading_digits. 2:{ rewrite El in *. destruct k; [by left|right]. cbn [take]. apply Forall_cons in Hd as [? _]. eauto. }
    split; [lia|]. split; [|split; [by apply (Hnl (take k (decimal v))); [right|]|rewrite length_take; lia]].
    intros Hpos Hne. destruct (dec_cons64 v) as (c' & p & Ec & Hc' & Hp & _); [unfold ULLONG_MAX; lia|].
    assert (decimal v = c' :: p) as E' by (unfold decimal; by rewrite (proj2 (Z.ltb_ge v 0)) by lia). rewrite E' in *. destruct k; [done|]. cbn [take digits].
    apply Forall_cons in Hd as [Hc'' Hd]. rewrite (proj2 (Z.leb_le 48 c')), (proj2 (Z.leb_le c' 57)) by lia. cbn [andb]. unfold ch_1 in Hc'.
    pose proof (digits_mono (take k p) (0 * 10 + (c' - 48)) ltac:(lia) (Forall_take _ k _ Hd)). lia.
  - rewrite leading_digits by (right; rewrite El in *; apply Forall_cons in Hd as [? _]; eauto). rewrite digits_split, Ev by done. cbn [digits]. cbn [Z.leb andb Z.compare Pos.compare Pos.compare_cont].
    split; [lia|]. split; [done|]. split; [by apply (Hnl (decimal v)); [left|]|rewrite length_app; cbn [length]; lia].
Qed.

Lemma leading_line : leading_number (decimal v ++ CRLF) = v.
Proof using Hv.
  destruct decimal_digits as (Hd & Ev & c & l & El). rewrite leading_digits by (right; rewrite El in *; apply Forall_cons in Hd as [? _]; eauto).
  by rewrite digits_split, Ev by done.
Qed.

Lemma line_chars : ~ In 10 (decimal v ++ [13]).
Proof using Hv.
  destruct decimal_digits as (Hd & _). rewrite in_app_iff. intros [Hi|[|[]]]; [|done]. rewrite List.Forall_forall in Hd. apply Hd in Hi. lia.
Qed.
End Number.

(** ** Lines *)

Lemma fgets_end n l : ~ In 10 l -> (length l <= n)%nat -> fgets n l = (l, []).
Proof.
  revert n. induction l as [|c l IH]; intros [|n] Hn Hl; cbn [length] in Hl; try done; [lia|]. cbn [fgets].
  rewrite (proj2 (Z.eqb_neq c 10)) by (intros ->; apply Hn; by left). rewrite IH; [done| |lia]. intros ?. apply Hn. by right.
Qed.

Lemma no_newline l : ~ In 10 l -> existsb (Z.eqb 10) l = false.
Proof. intros Hn. apply not_true_is_false. intros (c & Hc & E%Z.eqb_eq)%existsb_exists. by subst. Qed.

(** A line with a mark and a number, and a part of it. *)
Lemma read_line_number c v rest : 0 <= v < 2 ^ 63 -> c <> 10 -> read_line (c :: decimal v ++ CRLF ++ rest) = (c :: decimal v ++ CRLF, rest, false).
Proof.
  intros Hv Hc. unfold read_line. change (AOF_ANNOTATION_LINE_MAX_LEN - 1)%nat with 1023%nat. pose proof (length_decimal v ltac:(unfold in_s; cbn; lia)).
  replace (c :: decimal v ++ CRLF ++ rest) with ((c :: decimal v ++ [13]) ++ [10] ++ rest) by (unfold CRLF; cbn; by rewrite <- app_assoc).
  rewrite fgets_entry; [|intros [->|Hi]; [done|by apply (line_chars v)]|cbn [length]; rewrite length_app; cbn [length]; lia].
  replace ((c :: decimal v ++ [13]) ++ [10]) with (c :: decimal v ++ CRLF) by (unfold CRLF; cbn; by rewrite <- app_assoc).
  cbn [existsb]. unfold CRLF. rewrite !existsb_app. cbn [existsb Z.eqb Pos.eqb orb]. by rewrite !orb_true_r.
Qed.

Lemma read_line_part c v q r : 0 <= v < 2 ^ 63 -> c <> 10 -> q ++ r = decimal v ++ CRLF -> r <> [] -> read_line (c :: q) = (c :: q, [], true).
Proof.
  intros Hv Hc E Hr. destruct (leading_part v Hv q r E Hr) as (_ & _ & Hn & Hl). unfold read_line. change (AOF_ANNOTATION_LINE_MAX_LEN - 1)%nat with 1023%nat.
  assert (~ In 10 (c :: q)) as Hn' by (intros [->|?]; done). rewrite fgets_end, no_newline by (done || cbn [length]; lia).
  cbn [negb andb length]. f_equal. apply Nat.ltb_lt. lia.
Qed.

(** ** Arguments *)

Definition argument_wire (o : bytes) : bytes := [36] ++ decimal (len_ o) ++ CRLF ++ o ++ CRLF.
Definition wire (argv : list bytes) : bytes := catAppendOnlyGenericCommand [] argv.

Lemma cat_command dst argv : catAppendOnlyGenericCommand dst argv = dst ++ 42 :: decimal (len_ argv) ++ CRLF ++ concat (map argument_wire argv).
Proof.
  unfold catAppendOnlyGenericCommand. assert (forall dst, fold_left cat_argument argv dst = dst ++ concat (map argument_wire argv)) as ->.
  { induction argv as [|o argv IH]; intros dst'; [by rewrite app_nil_r|]. cbn [fold_left map concat]. rewrite IH. unfold cat_argument, argument_wire. by rewrite <- !app_assoc. }
  by rewrite <- !app_assoc.
Qed.

Lemma wire_eq argv : wire argv = 42 :: decimal (len_ argv) ++ CRLF ++ concat (map argument_wire argv).
Proof. apply cat_command. Qed.

Lemma wire_cat dst argv : catAppendOnlyGenericCommand dst argv = dst ++ wire argv.
Proof. by rewrite wire_eq, cat_command. Qed.

Definition fits_memory (o : bytes) : Prop := len_ o < 2 ^ 63.

Lemma strtol_small s : 0 <= leading_number s < 2 ^ 63 -> strtol s = leading_number s.
Proof. unfold strtol. lia. Qed.

Lemma read_argument_ok o rest : fits_memory o -> read_argument (argument_wire o ++ rest) = inr (Got o rest).
Proof.
  unfold fits_memory. intros Ho. unfold argument_wire. cbn [app]. rewrite <- !app_assoc. unfold read_argument. rewrite read_line_number by lia.
  unfold peek. cbn [nth Z.eqb Pos.eqb negb drop]. rewrite drop_0. pose proof (leading_line (len_ o) ltac:(lia)) as E. rewrite strtol_small; rewrite E; [|lia].
  rewrite (proj2 (Z.leb_le 0 _)) by lia. cbn [assert mbind result_bind]. rewrite Nat2Z.id, drop_app_length, take_app_length.
  rewrite (proj2 (Z.ltb_ge _ _)) by (rewrite length_app; lia). rewrite (proj2 (Nat.ltb_ge _ _)) by (rewrite length_app; cbn; lia). done.
Qed.

Lemma read_argument_part o p q : fits_memory o -> p ++ q = argument_wire o -> q <> [] -> read_argument p = inr ShortRead.
Proof.
  unfold fits_memory. intros Ho E Hq. destruct p as [|c p]; [done|]. unfold argument_wire in E. cbn [app] in E. injection E as -> E.
  unfold read_argument. change (13 :: 10 :: o ++ CRLF) with (CRLF ++ o ++ CRLF) in E. rewrite (app_assoc (decimal _)) in E. apply app_eq_inv in E as [(k & -> & Ek)|(k & E1 & ->)].
  - rewrite <- app_assoc, read_line_number by lia. unfold peek. cbn [nth Z.eqb Pos.eqb negb drop]. rewrite drop_0.
    pose proof (leading_line (len_ o) ltac:(lia)) as E. rewrite strtol_small; rewrite E; [|lia]. rewrite (proj2 (Z.leb_le 0 _)) by lia. cbn [assert mbind result_bind].
    destruct (Z.ltb_spec (len_ k) (len_ o)); [done|]. rewrite Nat2Z.id. rewrite (proj2 (Nat.ltb_lt _ _)); [done|]. rewrite length_drop.
    apply (f_equal length) in Ek. rewrite !length_app in Ek. destruct q; [done|]. cbn [length CRLF] in Ek. lia.
  - destruct (decide (k = [])) as [->|Hk].
    { rewrite app_nil_r in E1. subst p. cbn [app] in *. replace (36 :: decimal (len_ o) ++ CRLF) with (36 :: decimal (len_ o) ++ CRLF ++ []) by (by rewrite app_nil_r).
      rewrite read_line_number by lia. unfold peek. cbn [nth Z.eqb Pos.eqb negb drop]. rewrite drop_0.
      pose proof (leading_line (len_ o) ltac:(lia)) as E. rewrite strtol_small; rewrite E; [|lia]. rewrite (proj2 (Z.leb_le 0 _)) by lia. cbn [assert mbind result_bind].
      rewrite drop_nil. destruct (_ <? _); done. }
    destruct (leading_part (len_ o) ltac:(lia) p k (eq_sym E1) Hk) as (Hr & _). rewrite (read_line_part 36 (len_ o) p k) by (done || lia).
    unfold peek. cbn [nth Z.eqb Pos.eqb negb drop]. rewrite drop_0, strtol_small by lia. rewrite (proj2 (Z.leb_le 0 _)) by lia. cbn [assert mbind result_bind].
    rewrite drop_nil. destruct (_ <? _); done.
Qed.

Lemma read_arguments_ok argv : Forall fits_memory argv -> forall acc rest,
  read_arguments (length argv) acc (concat (map argument_wire argv) ++ rest) = inr (Got (acc ++ argv) rest).
Proof.
  induction 1 as [|o argv Ho _ IH]; intros acc rest; [by rewrite app_nil_r|]. cbn [length map concat read_arguments]. rewrite <- app_assoc, read_argument_ok by done.
  cbn [mbind result_bind]. by rewrite IH, <- app_assoc.
Qed.

(** More arguments are asked for than there are. *)
Lemma read_arguments_part argv : Forall fits_memory argv -> forall acc p q,
  p ++ q = concat (map argument_wire argv) -> q <> [] -> read_arguments (length argv) acc p = inr ShortRead.
Proof.
  induction 1 as [|o argv Ho _ IH]; intros acc p q E Hq; [by apply app_eq_nil in E as [_ ->]|]. cbn [length map concat read_arguments] in *.
  apply app_eq_inv in E as [(k & -> & Ek)|(k & E1 & ->)].
  - rewrite read_argument_ok by done. cbn [mbind result_bind]. by apply (IH _ k q).
  - destruct (decide (k = [])) as [->|Hk]; [|by rewrite (read_argument_part o p k)].
    rewrite app_nil_r in E1. subst p. rewrite <- (app_nil_r (argument_wire o)), read_argument_ok by done. cbn [mbind result_bind]. by apply (IH _ [] (concat (map argument_wire argv))).
Qed.

Lemma read_nothing n acc : (0 < n)%nat -> read_arguments n acc [] = inr ShortRead.
Proof. by destruct n; [lia|]. Qed.

(** ** Commands *)

Section Load.
Context `{Config} (Htrunc : aof_load_truncated = true).

(** A command that the reader accepts. *)
Definition readable (argv : list bytes) : Prop := argv <> [] /\ len_ argv < 2 ^ 31 /\ Forall fits_memory argv /\ lookupCommand argv = true.

Lemma atoi_line v : 0 <= v < 2 ^ 31 -> atoi (decimal v ++ CRLF) = inr v.
Proof.
  intros Hv. unfold atoi, atoll. rewrite leading_line by lia. rewrite (proj2 (Z.leb_le (- 2 ^ 63) v)), (proj2 (Z.ltb_lt v (2 ^ 63))) by lia. cbn [andb defined_if mbind result_bind mret result_ret].
  by rewrite bool_decide_true by (unfold in_s; cbn; lia).
Qed.

Lemma atoi_part v q r : 0 <= v < 2 ^ 31 -> q ++ r = decimal v ++ CRLF -> r <> [] -> atoi q = inr (leading_number q).
Proof.
  intros Hv E Hr. destruct (leading_part v ltac:(lia) q r E Hr) as (Hl & _). unfold atoi, atoll.
  rewrite (proj2 (Z.leb_le (- 2 ^ 63) _)), (proj2 (Z.ltb_lt _ (2 ^ 63))) by lia. cbn [andb defined_if mbind result_bind mret result_ret].
  by rewrite bool_decide_true by (unfold in_s; cbn; lia).
Qed.

Lemma second_char v r : 0 <= v < 2 ^ 63 -> peek (42 :: decimal v ++ r) 1 =? 0 = false.
Proof.
  intros Hv. destruct (decimal_digits v Hv) as (Hd & _ & c & l & El). rewrite El in *. apply Forall_cons in Hd as [Hc _]. cbn. apply Z.eqb_neq. lia.
Qed.

Lemma load_step fuel size c data v m argv rest : readable argv ->
  load_commands (S fuel) size c data v m (wire argv ++ rest) =
    ('(c, data) ← run_command c data argv; load_commands fuel size c data (size - length rest) (if is_command "multi" argv then v else m) rest).
Proof using Htrunc.
  intros (Hne & Hl & Hm & Hk). rewrite wire_eq. cbn [app load_commands]. rewrite <- !app_assoc, read_line_number by lia.
  change (peek (42 :: decimal (len_ argv) ++ CRLF) 0) with 42. cbn [Z.eqb Pos.eqb negb]. rewrite second_char by lia. cbn [drop]. rewrite drop_0, atoi_line by lia.
  cbn [mbind result_bind]. assert (1 <= len_ argv) as H1 by (destruct argv; [done|cbn [length]; lia]). rewrite (proj2 (Z.ltb_ge _ _)) by lia.
  rewrite Nat2Z.id, read_arguments_ok by done. cbn [mbind result_bind app]. rewrite Hk. cbn [negb]. destruct (run_command c data argv) as [f|[c' data']]; [done|]. cbn [mbind result_bind].
  by rewrite Htrunc.
Qed.

Lemma load_part fuel size c data v m argv p q : readable argv -> p ++ q = wire argv -> p <> [] -> q <> [] ->
  load_commands (S fuel) size c data v m p = inr (LoadShort data v).
Proof using Htrunc.
  intros (Hne & Hl & Hm & Hk) E Hp Hq. assert (1 <= len_ argv) as H1 by (destruct argv; [done|cbn [length]; lia]).
  rewrite wire_eq in E. destruct p as [|x p]; [done|]. injection E as -> E. change (13 :: 10 :: ?r) with (CRLF ++ r) in E. rewrite (app_assoc (decimal _)) in E.
  assert (unexpected_end data v = LoadShort data v) as Hu by (unfold unexpected_end; by rewrite Htrunc).
  cbn [load_commands]. apply app_eq_inv in E as [(k & -> & Ek)|(k & E1 & ->)].
  - rewrite <- app_assoc, read_line_number by lia. change (peek (42 :: decimal (len_ argv) ++ CRLF) 0) with 42. cbn [Z.eqb Pos.eqb negb].
    rewrite second_char by lia. cbn [drop]. rewrite drop_0, atoi_line by lia. cbn [mbind result_bind]. rewrite (proj2 (Z.ltb_ge _ _)) by lia.
    rewrite Nat2Z.id, (read_arguments_part argv Hm [] k q) by done. cbn [mbind result_bind]. by rewrite Hu.
  - destruct (decide (k = [])) as [->|Hk'].
    { rewrite app_nil_r in E1. subst p. replace (decimal (len_ argv) ++ CRLF) with (decimal (len_ argv) ++ CRLF ++ []) by (by rewrite app_nil_r).
      rewrite read_line_number by lia. change (peek (42 :: decimal (len_ argv) ++ CRLF) 0) with 42. cbn [Z.eqb Pos.eqb negb].
      rewrite second_char by lia. cbn [drop]. rewrite drop_0, atoi_line by lia. cbn [mbind result_bind]. rewrite (proj2 (Z.ltb_ge _ _)) by lia.
      rewrite read_nothing by lia. cbn [mbind result_bind]. by rewrite Hu. }
    destruct (leading_part (len_ argv) ltac:(lia) p k (eq_sym E1) Hk') as (Hr & Hpos & _). rewrite (read_line_part 42 (len_ argv) p k) by (done || lia).
    change (peek (42 :: p) 0) with 42. cbn [Z.eqb Pos.eqb negb]. destruct p as [|y p]; [change (peek [42] 1) with 0; cbn [Z.eqb]; by rewrite Hu|].
    assert (peek (42 :: y :: p) 1 =? 0 = false) as ->.
    { destruct (decimal_digits (len_ argv) ltac:(lia)) as (Hd & _ & c' & l & El). rewrite El in *. injection E1 as <- _. apply Forall_cons in Hd as [Hc _]. cbn. apply Z.eqb_neq. lia. }
    cbn [drop]. rewrite (atoi_part (len_ argv) (y :: p) k) by (done || lia). cbn [mbind result_bind]. specialize (Hpos H1 ltac:(done)).
    rewrite (proj2 (Z.ltb_ge _ _)) by lia. rewrite read_nothing by lia. cbn [mbind result_bind]. by rewrite Hu.
Qed.

(** Enough turns for the file. *)
Definition loads_as (size : nat) (c : fake_client) (data : dataset) (v m : nat) (f : bytes) (r : loaded) : Prop :=
  forall fuel, (length f < fuel)%nat -> load_commands fuel size c data v m f = inr r.

Lemma loads_step size c data v m argv rest c' data' r : readable argv -> run_command c data argv = inr (c', data') ->
  loads_as size c' data' (size - length rest) (if is_command "multi" argv then v else m) rest r -> loads_as size c data v m (wire argv ++ rest) r.
Proof using Htrunc.
  intros Hr E Hl fuel Hf. rewrite length_app in Hf. destruct fuel as [|fuel]; [lia|]. rewrite load_step, E by done. cbn [mbind result_bind]. apply Hl.
  rewrite wire_eq in Hf. cbn [length] in Hf. lia.
Qed.

Lemma loads_part size c data v m argv p q : readable argv -> p ++ q = wire argv -> p <> [] -> q <> [] -> loads_as size c data v m p (LoadShort data v).
Proof using Htrunc. intros Hr E Hp Hq [|fuel] Hf; [lia|]. by apply (load_part _ _ _ _ _ _ argv p q). Qed.

Lemma loads_nil size c data v m : loads_as size c data v m [] (if queue c then LoadShort data m else LoadOk data).
Proof using Htrunc. intros [|fuel] Hf; [lia|]. cbn [load_commands]. unfold unexpected_end. by rewrite Htrunc. Qed.

(** ** Entries *)

Inductive item := Sel (db : Z) | Cmd (argv : list bytes).
Inductive entry := Plain (i : item) | Trans (items : list item).

Definition item_argv (i : item) : list bytes := match i with Sel db => [text "SELECT"; decimal db] | Cmd argv => argv end.
Definition items_wire (items : list item) : bytes := concat (map (fun i => wire (item_argv i)) items).
Definition entry_wire (e : entry) : bytes :=
  match e with Plain i => wire (item_argv i) | Trans items => wire MULTI ++ items_wire items ++ wire EXEC end.
Definition wires (es : list entry) : bytes := concat (map entry_wire es).

(** A command that is run as it is. *)
Definition ordinary (argv : list bytes) : Prop :=
  readable argv /\ is_command "multi" argv = false /\ is_command "exec" argv = false /\ is_command "select" argv = false.
Definition item_wf (i : item) : Prop := match i with Sel db => 0 <= db < dbnum /\ dbnum <= 2 ^ 31 | Cmd argv => ordinary argv end.
Definition entry_wf (e : entry) : Prop := match e with Plain i => item_wf i | Trans items => Forall item_wf items end.

(** What they do. *)
Fixpoint run_items (db : Z) (items : list item) : Z * batch :=
  match items with
  | [] => (db, [])
  | Sel db' :: items => run_items db' items
  | Cmd argv :: items => let '(db', ops) := run_items db items in (db', (db, argv) :: ops)
  end.
Definition run_entry (db : Z) (e : entry) : Z * dataset :=
  match e with
  | Plain (Sel db') => (db', [])
  | Plain (Cmd argv) => (db, [[(db, argv)]])
  | Trans items => let '(db', ops) := run_items db items in (db', [ops])
  end.
Fixpoint run_entries (db : Z) (es : list entry) : Z * dataset :=
  match es with
  | [] => (db, [])
  | e :: es => let '(db1, d1) := run_entry db e in let '(db2, d2) := run_entries db1 es in (db2, d1 ++ d2)
  end.

Lemma select_ok db db' : 0 <= db' < dbnum /\ dbnum <= 2 ^ 31 -> selectCommand db [text "SELECT"; decimal db'] = inr db'.
Proof.
  intros [Hdb Hn]. unfold selectCommand. cbn [lookup list_lookup the mbind result_bind].
  rewrite (proj2 (string2ll_iff (decimal db') db')) by (split; [unfold in_s; cbn; lia|done]). by rewrite (proj2 (Z.leb_le 0 db')), (proj2 (Z.ltb_lt db' dbnum)) by lia.
Qed.

Lemma item_readable i : item_wf i -> readable (item_argv i) /\ is_command "multi" (item_argv i) = false /\ is_command "exec" (item_argv i) = false.
Proof.
  destruct i as [db|argv]; [|by intros (? & ? & ? & ?)]. intros Hdb. cbn [item_wf item_argv] in *. split; [|split; by vm_compute]. split; [done|]. split; [done|].
  split; [|apply orb_true_iff; left; by vm_compute]. repeat constructor. unfold fits_memory. pose proof (length_decimal db ltac:(unfold in_s; cbn; lia)). lia.
Qed.

Lemma exec_items items : forall db ops, Forall item_wf items ->
  exec_queue db ops (map item_argv items) = inr ((run_items db items).1, ops ++ (run_items db items).2).
Proof.
  induction items as [|i items IH]; intros db ops Hok; [by rewrite app_nil_r|]. apply Forall_cons in Hok as [Hi Hok]. cbn [map exec_queue].
  destruct (item_readable i Hi) as (_ & Hm & _). rewrite Hm. destruct i as [db'|argv]; cbn [item_argv run_items].
  - change (is_command "select" [text "SELECT"; decimal db']) with true. cbn iota. rewrite select_ok by done. cbn [mbind result_bind]. by apply IH.
  - destruct Hi as (_ & _ & _ & Hs). rewrite Hs, IH by done. destruct (run_items db items) as [db' ops']. cbn [fst snd]. by rewrite <- app_assoc.
Qed.

Lemma run_queued c q data i : queue c = Some q -> item_wf i -> run_command c data (item_argv i) = inr (mk_client (selected c) (Some (q ++ [item_argv i])), data).
Proof. intros E Hi. destruct (item_readable i Hi) as (_ & _ & He). unfold run_command. by rewrite E, He. Qed.

Lemma run_plain db data i : item_wf i ->
  run_command (mk_client db None) data (item_argv i) = inr (mk_client (run_entry db (Plain i)).1 None, data ++ (run_entry db (Plain i)).2).
Proof.
  intros Hi. destruct (item_readable i Hi) as (_ & Hm & He). unfold run_command. cbn [queue selected]. rewrite Hm, He. destruct i as [db'|argv]; cbn [item_argv run_entry fst snd].
  - change (is_command "select" [text "SELECT"; decimal db']) with true. cbn iota. rewrite select_ok by done. cbn [mbind result_bind]. by rewrite app_nil_r.
  - destruct Hi as (_ & _ & _ & Hs). by rewrite Hs.
Qed.

Lemma control_readable : readable MULTI /\ readable EXEC.
Proof. split; (split; [done|]; split; [done|]; split; [repeat constructor|by vm_compute]). Qed.

(** ** Reading entries *)

(** The reader is between two entries. *)
Definition at_entry (size : nat) (db : Z) (data : dataset) (f : bytes) (r : loaded) : Prop :=
  forall m, loads_as size (mk_client db None) data (size - length f) m f r.

Lemma queued_items size db data items : Forall item_wf items -> forall q v m f r,
  loads_as size (mk_client db (Some (q ++ map item_argv items))) data (if items then v else size - length f)%nat m f r ->
  loads_as size (mk_client db (Some q)) data v m (items_wire items ++ f) r.
Proof using Htrunc.
  induction 1 as [|i items Hi _ IH]; intros q v m f r Hl; [by rewrite app_nil_r in Hl|]. unfold items_wire. cbn [map concat]. fold (items_wire items). rewrite <- app_assoc.
  destruct (item_readable i Hi) as (Hr & Hm & _). eapply loads_step; [done|by apply (run_queued _ q)|]. rewrite Hm. cbn [selected]. apply IH. rewrite <- app_assoc.
  replace (if items then _ else _) with (size - length f)%nat by (by destruct items). exact Hl.
Qed.

Lemma entry_step size db data e f r : entry_wf e -> at_entry size (run_entry db e).1 (data ++ (run_entry db e).2) f r -> at_entry size db data (entry_wire e ++ f) r.
Proof using Htrunc.
  destruct control_readable as [HM HE]. intros He Hl m. destruct e as [i|items]; cbn [entry_wire entry_wf] in *.
  - destruct (item_readable i He) as (Hr & Hm & _). eapply loads_step; [done|by apply run_plain|]. apply Hl.
  - rewrite <- !app_assoc. eapply loads_step; [exact HM|done|]. cbn [selected]. apply queued_items; [done|]. cbn [app]. eapply loads_step; [exact HE| |apply Hl].
    unfold run_command. cbn [queue selected]. change (is_command "exec" EXEC) with true. cbn iota. rewrite exec_items by done. cbn [mbind result_bind app run_entry].
    by destruct (run_items db items).
Qed.

Lemma entries_end size db data : at_entry size db data [] (LoadOk data).
Proof using Htrunc. intros m. apply loads_nil. Qed.

(** Inside a transaction: at the end of a command the file is cut off before MULTI, within a
    command it is cut off behind the last one. *)
Lemma items_part size db data items : Forall item_wf items -> forall q p r v m, p ++ r = items_wire items ++ wire EXEC -> r <> [] -> v = (size - length p)%nat ->
  exists v', loads_as size (mk_client db (Some q)) data v m p (LoadShort data v') /\
    (v' = m \/ exists items1 items2 x, items = items1 ++ items2 /\ p = items_wire items1 ++ x /\ v' = (size - length x)%nat).
Proof using Htrunc.
  destruct control_readable as [_ HE]. induction 1 as [|i items Hi _ IH]; intros q p r v m E Hr Hv.
  - destruct (decide (p = [])) as [->|Hp]; [exists m; split; [apply loads_nil|by left]|]. exists v. split; [by apply (loads_part _ _ _ _ _ EXEC p r)|].
    right. by exists [], [], p.
  - unfold items_wire in E. cbn [map concat] in E. fold (items_wire items) in E. rewrite <- app_assoc in E. destruct (item_readable i Hi) as (Hri & Hm & _).
    destruct (decide (p = [])) as [->|Hp]; [exists m; split; [apply loads_nil|by left]|].
    assert ((exists k, p ++ k = wire (item_argv i) /\ k <> []) \/ exists p', p = wire (item_argv i) ++ p' /\ p' ++ r = items_wire items ++ wire EXEC) as [(k & Ek & Hk)|(p' & -> & E')].
    { apply app_eq_inv in E as [(k & -> & Ek)|(k & E1 & ->)]; [right; by exists k|]. destruct k as [|x k]; [right; exists []; rewrite app_nil_r in *; by rewrite E1|left; by exists (x :: k)]. }
    + exists v. split; [by apply (loads_part _ _ _ _ _ (item_argv i) p k)|]. right. exists [], (i :: items), p. done.
    + destruct (IH (q ++ [item_argv i]) p' r (size - length p')%nat m E' Hr eq_refl) as (v' & Hl & Hv'). exists v'. split.
      * eapply loads_step; [done|by apply (run_queued _ q)|]. by rewrite Hm.
      * destruct Hv' as [->|(items1 & items2 & x & -> & -> & ->)]; [by left|right]. exists (i :: items1), items2, x. split; [done|]. split; [|done].
        unfold items_wire. cbn [map concat]. by rewrite <- app_assoc.
Qed.

Lemma entry_part size db data e p q : entry_wf e -> p ++ q = entry_wire e -> p <> [] -> q <> [] -> exists v, at_entry size db data p (LoadShort data v) /\
  (v = (size - length p)%nat \/ exists items1 items2 x, e = Trans (items1 ++ items2) /\ p = wire MULTI ++ items_wire items1 ++ x /\ v = (size - length x)%nat).
Proof using Htrunc.
  destruct control_readable as [HM _]. intros He E Hp Hq. destruct e as [i|items]; cbn [entry_wire entry_wf] in *.
  - exists (size - length p)%nat. split; [|by left]. intros m. destruct (item_readable i He) as (Hr & _). by apply (loads_part _ _ _ _ _ (item_argv i) p q).
  - apply app_eq_inv in E as [(k & -> & Ek)|(k & E1 & ->)].
    + destruct (items_part size db data items He [] k q (size - length k)%nat (size - length (wire MULTI ++ k))%nat (eq_sym Ek) Hq eq_refl) as (v & Hl & Hv). exists v. split.
      * intros m. eapply loads_step; [exact HM|done|]. exact Hl.
      * destruct Hv as [->|(items1 & items2 & x & -> & -> & ->)]; [by left|right]. by exists items1, items2, x.
    + destruct k as [|c k].
      * rewrite app_nil_r in E1. subst p. exists (size - length (wire MULTI))%nat. split; [|by left]. intros m. rewrite <- (app_nil_r (wire MULTI)) at 2.
        eapply loads_step; [exact HM|done|]. apply loads_nil.
      * exists (size - length p)%nat. split; [|by left]. intros m. by apply (loads_part _ _ _ _ _ MULTI p (c :: k)).
Qed.

(** A transaction that lacks its end. *)
Lemma open_transaction size db data items : Forall item_wf items ->
  at_entry size db data (wire MULTI ++ items_wire items) (LoadShort data (size - length (wire MULTI ++ items_wire items))).
Proof using Htrunc.
  destruct control_readable as [HM _]. intros Hi m. eapply loads_step; [exact HM|done|]. change (is_command "multi" MULTI) with true. cbn iota. cbn [selected].
  pose proof (queued_items size db data items Hi [] (size - length (items_wire items)) (size - length (wire MULTI ++ items_wire items)) [] _ (loads_nil _ _ _ _ _)) as Hq.
  by rewrite app_nil_r in Hq.
Qed.

Lemma entries_step size es : forall db data f r, Forall entry_wf es -> at_entry size (run_entries db es).1 (data ++ (run_entries db es).2) f r -> at_entry size db data (wires es ++ f) r.
Proof using Htrunc.
  induction es as [|e es IH]; intros db data f r Hok Hl; [by rewrite app_nil_r in Hl|]. apply Forall_cons in Hok as [He Hok]. unfold wires. cbn [map concat]. fold (wires es).
  rewrite <- app_assoc. apply entry_step; [done|]. apply IH; [done|]. cbn [run_entries] in Hl. destruct (run_entry db e) as [db1 d1]. cbn [fst snd] in *.
  destruct (run_entries db1 es) as [db2 d2]. cbn [fst snd] in *. by rewrite app_assoc in Hl.
Qed.

(** ** Logs *)

Definition effect (es : list entry) : dataset := (run_entries 0 es).2.

Lemma run_entries_app es1 es2 db : run_entries db (es1 ++ es2) = ((run_entries (run_entries db es1).1 es2).1, (run_entries db es1).2 ++ (run_entries (run_entries db es1).1 es2).2).
Proof.
  revert db. induction es1 as [|e es1 IH]; intros db; cbn [app run_entries]; [cbn [fst snd]; by destruct (run_entries db es2)|]. destruct (run_entry db e) as [db1 d1].
  rewrite IH. destruct (run_entries db1 es1) as [db2 d2]. cbn [fst snd]. by rewrite app_assoc.
Qed.

Lemma effect_app es1 es2 : effect es1 `prefix_of` effect (es1 ++ es2).
Proof. unfold effect. rewrite run_entries_app. cbn [snd]. by eexists. Qed.

Lemma wires_app es1 es2 : wires (es1 ++ es2) = wires es1 ++ wires es2.
Proof. unfold wires. by rewrite map_app, concat_app. Qed.

Lemma items_wire_app l1 l2 : items_wire (l1 ++ l2) = items_wire l1 ++ items_wire l2.
Proof. unfold items_wire. by rewrite map_app, concat_app. Qed.

Lemma wire_head argv : exists l, wire argv = 42 :: l.
Proof. rewrite wire_eq. eauto. Qed.

Lemma entry_head e : exists l, entry_wire e = 42 :: l.
Proof. destruct e as [i|items]; cbn [entry_wire]; [apply wire_head|]. destruct (wire_head MULTI) as [l ->]. cbn [app]. eauto. Qed.

(** A log is no snapshot. *)
Lemma load_from_start f r : (f = [] \/ exists l, f = 42 :: l) -> at_entry (length f) 0 [] f r -> load_log f = inr r.
Proof.
  intros Hf Hr. unfold load_log. rewrite bool_decide_false; [|by destruct Hf as [->|[l ->]]]. specialize (Hr 0%nat (S (length f)) ltac:(lia)). rewrite Nat.sub_diag in Hr. exact Hr.
Qed.

Lemma wires_head es p : (p = [] \/ exists l, p = 42 :: l) -> wires es ++ p = [] \/ exists l, wires es ++ p = 42 :: l.
Proof. intros Hp. destruct es as [|e es]; [done|]. right. unfold wires. cbn [map concat]. destruct (entry_head e) as [l ->]. cbn [app]. eauto. Qed.

Lemma load_whole es : Forall entry_wf es -> load_log (wires es) = inr (LoadOk (effect es)).
Proof using Htrunc.
  intros Hok. rewrite <- (app_nil_r (wires es)). apply load_from_start; [apply wires_head; by left|]. apply entries_step; [done|]. apply entries_end.
Qed.

Lemma load_open es items : Forall entry_wf es -> Forall item_wf items ->
  load_log (wires es ++ wire MULTI ++ items_wire items) = inr (LoadShort (effect es) (length (wires es))).
Proof using Htrunc.
  intros Hok Hi. apply load_from_start; [apply wires_head; right; destruct (wire_head MULTI) as [l ->]; cbn [app]; eauto|]. apply entries_step; [done|]. cbn [app].
  replace (length (wires es)) with (length (wires es ++ wire MULTI ++ items_wire items) - length (wire MULTI ++ items_wire items))%nat by (rewrite length_app; lia).
  by apply open_transaction.
Qed.

Lemma load_cut es e p q : Forall entry_wf es -> entry_wf e -> p ++ q = entry_wire e -> p <> [] -> q <> [] ->
  exists v, load_log (wires es ++ p) = inr (LoadShort (effect es) v) /\
    (v = length (wires es) \/ exists items1 items2 x, e = Trans (items1 ++ items2) /\ p = wire MULTI ++ items_wire items1 ++ x /\ v = length (wires es ++ wire MULTI ++ items_wire items1)).
Proof using Htrunc.
  intros Hok He E Hp Hq. destruct (entry_part (length (wires es ++ p)) (run_entries 0 es).1 (effect es) e p q He E Hp Hq) as (v & Hl & Hv). exists v. split.
  - apply load_from_start; [|by apply entries_step]. apply wires_head. right. destruct (entry_head e) as [l El]. rewrite El in E. destruct p; [done|]. injection E as -> _. eauto.
  - rewrite !length_app in *. destruct Hv as [->|(items1 & items2 & x & -> & -> & ->)]; [left; lia|right]. exists items1, items2, x. rewrite !length_app. split; [done|]. split; [done|lia].
Qed.

(** A part of a log holds some entries and a part of the next one. *)
Lemma split_log es : forall b rest, b ++ rest = wires es ->
  exists es1 es2 p, es = es1 ++ es2 /\ b = wires es1 ++ p /\
    (p = [] \/ exists e es3 q, es2 = e :: es3 /\ p ++ q = entry_wire e /\ p <> [] /\ q <> []).
Proof.
  induction es as [|e es IH]; intros b rest E; [apply app_eq_nil in E as [-> _]; exists [], [], []; auto|]. unfold wires in E. cbn [map concat] in E. fold (wires es) in E.
  assert ((exists k, b ++ k = entry_wire e /\ k <> []) \/ exists b', b = entry_wire e ++ b' /\ b' ++ rest = wires es) as [(k & Ek & Hk)|(b' & -> & E')].
  { apply app_eq_inv in E as [(k & -> & Ek)|(k & E1 & ->)]; [right; by exists k|]. destruct k as [|x k]; [right; exists []; rewrite app_nil_r in *; by rewrite E1|left; by exists (x :: k)]. }
  - exists [], (e :: es), b. split; [done|]. split; [done|]. destruct (decide (b = [])) as [|Hb]; [by left|right]. by exists e, es, k.
  - destruct (IH b' rest E') as (es1 & es2 & p & -> & -> & Hp). exists (e :: es1), es2, p. split; [done|]. split; [|done]. unfold wires. cbn [map concat]. by rewrite <- app_assoc.
Qed.

(** A null byte where an entry has to begin. *)
Lemma read_line_null f buf rest eof : read_line (0 :: f) = (buf, rest, eof) -> peek buf 0 = 0.
Proof.
  assert (forall k, exists b, (fgets (S k) (0 :: f)).1 = 0 :: b) as Hf by (intros k; cbn [fgets Z.eqb]; destruct (fgets k f); by eexists).
  unfold read_line. destruct (Hf 1022%nat) as [b Eb]. change (AOF_ANNOTATION_LINE_MAX_LEN - 1)%nat with 1023%nat in *. destruct (fgets 1023 (0 :: f)). cbn [fst] in Eb. rewrite Eb. by intros [= <- _ _].
Qed.

Lemma load_hole es f : Forall entry_wf es -> load_log (wires es ++ 0 :: f) = inr LoadFailed.
Proof using Htrunc.
  intros Hok. assert (at_entry (length (wires es ++ 0 :: f)) 0 [] (wires es ++ 0 :: f) LoadFailed) as Hr.
  { apply entries_step; [done|]. intros m fuel Hfuel. destruct fuel as [|fuel]; [lia|]. cbn [load_commands].
    destruct (read_line (0 :: f)) as [[buf rest] eof] eqn:E. by rewrite (read_line_null f buf rest eof E). }
  unfold load_log. rewrite bool_decide_false.
  - specialize (Hr 0%nat (S (length (wires es ++ 0 :: f))) ltac:(lia)). rewrite Nat.sub_diag in Hr. exact Hr.
  - destruct es as [|e es]; [done|]. unfold wires. cbn [map concat]. by destruct (entry_head e) as [l ->].
Qed.
End Load.
