(* ===== verification/AofServer.v ===== *)
(** * Append only files: the server and its disk

    The functions of aof.c that write, rewrite, replace, load and delete the append only files,
    with the directory they work on.  Executed commands go to [aof_buf] as text and from there
    to the file with as many writes as the kernel makes of it.  Each change of the directory is
    recorded in [trace], with the datasets between which the one recovered from it has to be; a
    crash of the process leaves one of these disks. *)

From S2P Require Import Prelude Bytes NumString SdsText SdsEdit SdsQuote AofManifest AofLog.

(** Outcomes of writing the manifest: done; failed before or at the [rename]; failed at the
    [fsync] of the directory that follows it. *)
Inductive persisting := Persisted | NotWritten | NotSynced.
Inductive aof_states := AOF_OFF | AOF_ON | AOF_WAIT_REWRITE.
#[export] Instance aof_states_eq_dec : EqDecision aof_states.
Proof. solve_decision. Defined.
Inductive fsync_policy := AOF_FSYNC_NO | AOF_FSYNC_ALWAYS | AOF_FSYNC_EVERYSEC.

(** ** The directory *)

(** A snapshot is what [rewriteAppendOnlyFile] writes, in one of two formats; it is read as the
    dataset it was made of. *)
Inductive content := Snapshot (data : dataset) | Log (b : bytes).
(** Names of files, their contents, and the text of the manifest. *)
Record disk := mk_disk { names : gmap bytes nat; inodes : gmap nat content; next_inode : nat; manifest_file : option bytes }.
(** An open file, with its offset if it was not opened with [O_APPEND]. *)
Record descriptor := mk_descriptor { inode : nat; offset : option nat }.

Definition new_file (name : bytes) (c : content) (d : disk) : nat * disk :=
  let i := next_inode d in (i, mk_disk (<[name := i]> (names d)) (<[i := c]> (inodes d)) (S i) (manifest_file d)).
Definition put_content (i : nat) (c : content) (d : disk) : disk := mk_disk (names d) (<[i := c]> (inodes d)) (next_inode d) (manifest_file d).
(** [open] with [O_TRUNC|O_CREAT], and with [O_APPEND|O_CREAT]. *)
Definition open_trunc (name : bytes) (d : disk) : nat * disk := match names d !! name with Some i => (i, put_content i (Log []) d) | None => new_file name (Log []) d end.
Definition open_append (name : bytes) (d : disk) : nat * disk := match names d !! name with Some i => (i, d) | None => new_file name (Log []) d end.
Definition rename (a b : bytes) (d : disk) : option disk :=
  i ← names d !! a; Some (mk_disk (<[b := i]> (delete a (names d))) (inodes d) (next_inode d) (manifest_file d)).
Definition unlink (name : bytes) (d : disk) : disk := mk_disk (delete name (names d)) (inodes d) (next_inode d) (manifest_file d).
Definition put_manifest (f : bytes) (d : disk) : disk := mk_disk (names d) (inodes d) (next_inode d) (Some f).

Definition log_at (d : disk) (i : nat) : option bytes := match inodes d !! i with Some (Log b) => Some b | _ => None end.
(** A write behind the end of a file leaves null bytes before it. *)
Definition overwrite (off : nat) (data b : bytes) : bytes := take off b ++ replicate (off - length b) 0 ++ data ++ drop (off + length data) b.
Definition write (fd : descriptor) (data : bytes) (d : disk) : result (descriptor * disk) :=
  b ← the (log_at d (inode fd));
  mret match offset fd with
       | Some off => (mk_descriptor (inode fd) (Some (off + length data)%nat), put_content (inode fd) (Log (overwrite off data b)) d)
       | None => (fd, put_content (inode fd) (Log (b ++ data)) d)
       end.
Definition ftruncate (i : nat) (size : nat) (d : disk) : result disk :=
  b ← the (log_at d i); mret (put_content i (Log (take size b ++ replicate (size - length b) 0)) d).

(** ** The server *)

Record log_state := mk_log {
  aof_fd : option descriptor;
  aof_buf : bytes;
  aof_selected_db : Z;
  aof_cur_timestamp : Z;
  aof_last_incr_size : nat;
  aof_last_incr_fsync_offset : nat;
  aof_last_fsync : Z;
  aof_flush_postponed_start : Z;
  aof_last_write_status : bool;
}.
(** [child]: the dataset that the child of a rewrite has.  [flushed]: the dataset when [aof_buf]
    was empty for the last time. *)
Record server := mk_server {
  aof_state : aof_states;
  log : log_state;
  aof_manifest : aofManifest;
  child : option dataset;
  aof_disable_auto_gc : bool;
  db : dataset;
  flushed : dataset;
  store : disk;
  trace : list (disk * option (dataset * dataset));
}.

Definition with_fd (fd : option descriptor) (l : log_state) := mk_log fd (aof_buf l) (aof_selected_db l) (aof_cur_timestamp l) (aof_last_incr_size l) (aof_last_incr_fsync_offset l) (aof_last_fsync l) (aof_flush_postponed_start l) (aof_last_write_status l).
Definition with_buf (b : bytes) (l : log_state) := mk_log (aof_fd l) b (aof_selected_db l) (aof_cur_timestamp l) (aof_last_incr_size l) (aof_last_incr_fsync_offset l) (aof_last_fsync l) (aof_flush_postponed_start l) (aof_last_write_status l).
Definition with_selected (n : Z) (l : log_state) := mk_log (aof_fd l) (aof_buf l) n (aof_cur_timestamp l) (aof_last_incr_size l) (aof_last_incr_fsync_offset l) (aof_last_fsync l) (aof_flush_postponed_start l) (aof_last_write_status l).
Definition with_timestamp (t : Z) (l : log_state) := mk_log (aof_fd l) (aof_buf l) (aof_selected_db l) t (aof_last_incr_size l) (aof_last_incr_fsync_offset l) (aof_last_fsync l) (aof_flush_postponed_start l) (aof_last_write_status l).
Definition with_size (n : nat) (l : log_state) := mk_log (aof_fd l) (aof_buf l) (aof_selected_db l) (aof_cur_timestamp l) n (aof_last_incr_fsync_offset l) (aof_last_fsync l) (aof_flush_postponed_start l) (aof_last_write_status l).
Definition with_fsync_offset (n : nat) (l : log_state) := mk_log (aof_fd l) (aof_buf l) (aof_selected_db l) (aof_cur_timestamp l) (aof_last_incr_size l) n (aof_last_fsync l) (aof_flush_postponed_start l) (aof_last_write_status l).
Definition with_last_fsync (t : Z) (l : log_state) := mk_log (aof_fd l) (aof_buf l) (aof_selected_db l) (aof_cur_timestamp l) (aof_last_incr_size l) (aof_last_incr_fsync_offset l) t (aof_flush_postponed_start l) (aof_last_write_status l).
Definition with_postponed (t : Z) (l : log_state) := mk_log (aof_fd l) (aof_buf l) (aof_selected_db l) (aof_cur_timestamp l) (aof_last_incr_size l) (aof_last_incr_fsync_offset l) (aof_last_fsync l) t (aof_last_write_status l).
Definition with_status (ok : bool) (l : log_state) := mk_log (aof_fd l) (aof_buf l) (aof_selected_db l) (aof_cur_timestamp l) (aof_last_incr_size l) (aof_last_incr_fsync_offset l) (aof_last_fsync l) (aof_flush_postponed_start l) ok.

Definition set_state (st : aof_states) (s : server) := mk_server st (log s) (aof_manifest s) (child s) (aof_disable_auto_gc s) (db s) (flushed s) (store s) (trace s).
Definition set_log (l : log_state) (s : server) := mk_server (aof_state s) l (aof_manifest s) (child s) (aof_disable_auto_gc s) (db s) (flushed s) (store s) (trace s).
Definition set_manifest (am : aofManifest) (s : server) := mk_server (aof_state s) (log s) am (child s) (aof_disable_auto_gc s) (db s) (flushed s) (store s) (trace s).
Definition set_child (c : option dataset) (s : server) := mk_server (aof_state s) (log s) (aof_manifest s) c (aof_disable_auto_gc s) (db s) (flushed s) (store s) (trace s).
Definition set_gc (b : bool) (s : server) := mk_server (aof_state s) (log s) (aof_manifest s) (child s) b (db s) (flushed s) (store s) (trace s).
Definition set_db (x : dataset) (s : server) := mk_server (aof_state s) (log s) (aof_manifest s) (child s) (aof_disable_auto_gc s) x (flushed s) (store s) (trace s).
Definition set_flushed (x : dataset) (s : server) := mk_server (aof_state s) (log s) (aof_manifest s) (child s) (aof_disable_auto_gc s) (db s) x (store s) (trace s).

(** With the log on, what has been flushed has to be recovered, and nothing that was not
    executed. *)
Definition promise (s : server) : option (dataset * dataset) := match aof_state s with AOF_ON => Some (flushed s, db s) | _ => None end.
Definition set_store (d : disk) (s : server) :=
  mk_server (aof_state s) (log s) (aof_manifest s) (child s) (aof_disable_auto_gc s) (db s) (flushed s) d (trace s ++ [(d, promise s)]).

Definition bg_unlink (name : bytes) (s : server) : server := set_store (unlink name (store s)) s.

Definition persistAofManifest (o : persisting) (am : aofManifest) (s : server) : bool * aofManifest * server :=
  if negb (dirty am) then (true, am, s) else
  let written := set_store (put_manifest (getAofManifestAsString am) (store s)) s in
  match o with
  | Persisted => (true, set_dirty false am, written)
  | NotWritten => (false, am, s)
  | NotSynced => (false, am, written)
  end.

(** ** Writing the log *)

(** One return of [write]: some bytes, at most those asked for; an interrupt; an error. *)
Inductive write_reply := Wrote (k : nat) | Interrupted | WriteError.
(** What a flush meets: the configuration, the time, whether [aofFsyncInProgress], the writes
    before one that writes the rest, whether [ftruncate] and [fsync] succeed, and whether
    children keep the server from calling [fsync]. *)
Record io := mk_io {
  aof_fsync : fsync_policy;
  unixtime : Z;
  fsync_in_progress : bool;
  replies : list write_reply;
  ftruncates : bool;
  fsyncs : bool;
  no_fsync : bool;
}.
Definition always (w : io) : bool := match aof_fsync w with AOF_FSYNC_ALWAYS => true | _ => false end.
Definition everysec (w : io) : bool := match aof_fsync w with AOF_FSYNC_EVERYSEC => true | _ => false end.

Definition write_log (data : bytes) (s : server) : result server :=
  fd ← the (aof_fd (log s));
  '(fd, d) ← write fd data (store s);
  mret (set_store d (set_log (with_fd (Some fd) (log s)) s)).
(** The bytes written, -1 for none at all after an error. *)
Fixpoint aofWrite (rs : list write_reply) (buf : bytes) (totwritten : Z) (s : server) : result (Z * server) :=
  match buf, rs with
  | [], _ => mret (totwritten, s)
  | _, [] => s ← write_log buf s; mret (totwritten + len_ buf, s)
  | _, Interrupted :: rs => aofWrite rs buf totwritten s
  | _, WriteError :: _ => mret (if totwritten =? 0 then -1 else totwritten, s)
  | _, Wrote k :: rs => s ← write_log (take k buf) s; aofWrite rs (drop k buf) (totwritten + len_ (take k buf)) s
  end.

(** The label [try_fsync]; the process exits when the flag returned is false. *)
Definition try_fsync (w : io) (s : server) : bool * server :=
  if no_fsync w then (true, s)
  else if always w then
    if fsyncs w then (true, set_log (with_last_fsync (unixtime w) (with_fsync_offset (aof_last_incr_size (log s)) (log s))) s) else (false, s)
  else if everysec w && (aof_last_fsync (log s) <? unixtime w) then
    let l := if fsync_in_progress w then log s else with_fsync_offset (aof_last_incr_size (log s)) (log s) in
    (true, set_log (with_last_fsync (unixtime w) l) s)
  else (true, s).

(** After a write that was not complete. *)
Definition write_failed (w : io) (nwritten : Z) (s : server) : result (bool * server) :=
  '(nwritten, s) ←
    (if nwritten =? -1 then mret (nwritten, s)
     else if ftruncates w then
       fd ← the (aof_fd (log s)); d ← ftruncate (inode fd) (aof_last_incr_size (log s)) (store s); mret (-1, set_store d s)
     else mret (nwritten, s));
  if always w then mret (false, s) else
  let l := with_status false (log s) in
  mret (true, set_log (if 0 <? nwritten then with_buf (drop (Z.to_nat nwritten) (aof_buf l)) (with_size (aof_last_incr_size l + Z.to_nat nwritten) l) else l) s).

Definition flushAppendOnlyFile (force : bool) (w : io) (s : server) : result (bool * server) :=
  let l := log s in
  let unsynced := negb (aof_last_incr_fsync_offset l =? aof_last_incr_size l)%nat in
  let sync_in_progress := everysec w && fsync_in_progress w in
  if bool_decide (aof_buf l = []) then
    if everysec w && unsynced && (aof_last_fsync l <? unixtime w) && negb sync_in_progress || always w && unsynced then mret (try_fsync w s) else mret (true, s)
  else if negb force && sync_in_progress && (aof_flush_postponed_start l =? 0) then mret (true, set_log (with_postponed (unixtime w) l) s)
  else if negb force && sync_in_progress && (unixtime w - aof_flush_postponed_start l <? 2) then mret (true, s)
  else
    '(nwritten, s) ← aofWrite (replies w) (aof_buf l) 0 s;
    let s := set_log (with_postponed 0 (log s)) s in
    if negb (nwritten =? len_ (aof_buf l)) then write_failed w nwritten s else
    let l := log s in
    mret (try_fsync w (set_flushed (db s) (set_log (with_buf [] (with_size (aof_last_incr_size l + Z.to_nat nwritten) (with_status true l))) s))).

(** ** Feeding the log *)

Section Server.
Context `{Config} (aof_filename : bytes) (aof_use_rdb_preamble : bool).

(** [force] is 0. *)
Definition genAofTimestampAnnotationIfNeeded (now : Z) (l : log_state) : result (bytes * log_state) :=
  if aof_cur_timestamp l <? now then
    let ts := text "#TS:" ++ decimal now ++ CRLF in
    _ ← assert (length ts <=? AOF_ANNOTATION_LINE_MAX_LEN)%nat; mret (ts, with_timestamp now l)
  else mret ([], l).
(** [sdscatprintf(buf,"*2\r\n$6\r\nSELECT\r\n$%lu\r\n%s\r\n",strlen(seldb),seldb)] *)
Definition cat_select (buf : bytes) (dictid : Z) : bytes :=
  let seldb := decimal dictid in
  buf ++ text "*2" ++ CRLF ++ text "$6" ++ CRLF ++ text "SELECT" ++ CRLF ++ text "$" ++ decimal (len_ seldb) ++ CRLF ++ seldb ++ CRLF.
Definition feedAppendOnlyFile (now dictid : Z) (argv : list bytes) (s : server) : result server :=
  _ ← assert ((dictid =? -1) || (0 <=? dictid) && (dictid <? dbnum));
  '(buf, l) ← (if aof_timestamp_enabled then genAofTimestampAnnotationIfNeeded now (log s) else mret ([], log s));
  let '(buf, l) := if negb (dictid =? -1) && negb (dictid =? aof_selected_db l) then (cat_select buf dictid, with_selected dictid l) else (buf, l) in
  let buf := catAppendOnlyGenericCommand buf argv in
  let appending := match aof_state s, child s with AOF_ON, _ | AOF_WAIT_REWRITE, Some _ => true | _, _ => false end in
  mret (set_log (if (appending : bool) then with_buf (aof_buf l ++ buf) l else l) s).

(** [propagateNow], to the log. *)
Definition propagateNow (now : Z) (s : server) (o : op) : result server :=
  match aof_state s with AOF_OFF => mret s | _ => feedAppendOnlyFile now o.1 o.2 s end.
(** [arbitrary]: the command has the flag [CMD_TOUCHES_ARBITRARY_KEYS]. *)
Definition transaction (arbitrary : bool) (ops : batch) : bool := (1 <? length ops)%nat && negb arbitrary.
Definition propagatePendingCommands (now : Z) (arbitrary : bool) (ops : batch) (s : server) : result server :=
  if bool_decide (ops = []) then mret s else
  s ← (if transaction arbitrary ops then propagateNow now s (-1, MULTI) else mret s);
  s ← for_each (propagateNow now) s ops;
  if transaction arbitrary ops then propagateNow now s (-1, EXEC) else mret s.
(** Commands were executed: as one batch, or one after the other. *)
Definition execute (now : Z) (arbitrary : bool) (ops : batch) (s : server) : result server :=
  propagatePendingCommands now arbitrary ops (set_db (db s ++ if transaction arbitrary ops then [ops] else (fun o => [o]) <$> ops) s).

(** ** Rewriting *)

Definition fresh_fd (now : Z) (fd : nat) (l : log_state) : log_state :=
  let l := if aof_fd l then with_last_fsync now l else l in
  with_fsync_offset 0 (with_size 0 (with_fd (Some (mk_descriptor fd (Some 0%nat))) l)).
Definition openNewIncrAofForAppend (now : Z) (opened : bool) (o : persisting) (s : server) : bool * server :=
  match aof_state s with
  | AOF_OFF => (true, s)
  | AOF_WAIT_REWRITE =>
      if opened then let '(fd, d) := open_trunc (getTempIncrAofName aof_filename) (store s) in (true, set_log (fresh_fd now fd (log s)) (set_store d s)) else (false, s)
  | AOF_ON =>
      let '(name, temp_am) := getNewIncrAofName aof_filename (aof_manifest s) in
      if opened then
        let '(fd, d) := open_trunc name (store s) in
        let '(ret, temp_am, s) := persistAofManifest o temp_am (set_store d s) in
        if (ret : bool) then (true, set_manifest temp_am (set_log (fresh_fd now fd (log s)) s)) else (false, s)
      else (false, s)
  end.

(** [busy]: another kind of child is active, or the directory cannot be made.  The first flag
    is false when the process exits, the second one is [C_OK].  While the log waits for the
    rewrite, all that was executed so far is in the child. *)
Definition rewriteAppendOnlyFileBackground (busy : bool) (w : io) (opened : bool) (o : persisting) (forked : bool) (s : server) : result (bool * bool * server) :=
  if busy || bool_decide (is_Some (child s)) then mret (true, false, s) else
  '(running, s) ← flushAppendOnlyFile true w (set_log (with_selected (-1) (log s)) s);
  if negb running then mret (false, false, s) else
  let '(ret, s) := openNewIncrAofForAppend (unixtime w) opened o s in
  if negb ret then mret (true, false, s) else if negb forked then mret (true, false, s) else
  let s := match aof_state s with AOF_WAIT_REWRITE => set_flushed (db s) s | _ => s end in
  mret (true, true, set_child (Some (db s)) s).

Definition delete_turn (s : server) (ai : aofInfo) : result server := _ ← assert (file_type ai =? AOF_FILE_TYPE_HIST); mret (bg_unlink (file_name ai) s).
Definition aofDelHistoryFiles (o : persisting) (s : server) : result server :=
  let am := aof_manifest s in
  if aof_disable_auto_gc s || bool_decide (history_aof_list am = []) then mret s else
  s ← for_each delete_turn s (history_aof_list am);
  let am := mk_manifest (base_aof_info am) (incr_aof_list am) [] (curr_base_file_seq am) (curr_incr_file_seq am) true in
  let '(_, am, s) := persistAofManifest o am s in
  mret (set_manifest am s).

(** What can go wrong when a rewrite ends. *)
Record outcomes := mk_outcomes { exited : bool; base_renamed : bool; incr_renamed : bool; first_persist : persisting; second_persist : persisting }.

(** The new base file is in place. *)
Definition finish_rewrite (o : outcomes) (base : bytes) (temp_am : aofManifest) (new_incr : option bytes) (s : server) : result server :=
  temp_am ← markRewrittenIncrAofAsHistory (bool_decide (is_Some (aof_fd (log s)))) temp_am;
  let '(ret, temp_am, s) := persistAofManifest (first_persist o) temp_am s in
  if (ret : bool) then
    s ← aofDelHistoryFiles (second_persist o) (set_manifest temp_am s);
    mret (match aof_state s with AOF_WAIT_REWRITE => set_state AOF_ON s | _ => s end)
  else
    let s := bg_unlink base s in
    mret (match new_incr with Some name => bg_unlink name s | None => s end).

Definition backgroundRewriteDoneHandler (o : outcomes) (s : server) : result server :=
  snapshot ← the (child s);
  s ← (if exited o then
         '(base, temp_am) ← getNewBaseFileNameAndMarkPreAsHistory aof_filename aof_use_rdb_preamble (aof_manifest s);
         if base_renamed o then
           let s := set_store (new_file base (Snapshot snapshot) (store s)).2 s in
           match aof_state s with
           | AOF_WAIT_REWRITE =>
               let '(name, temp_am) := getNewIncrAofName aof_filename temp_am in
               match (if incr_renamed o then rename (getTempIncrAofName aof_filename) name (store s) else None) with
               | Some d => finish_rewrite o base temp_am (Some name) (set_store d s)
               | None => mret (bg_unlink base s)
               end
           | _ => finish_rewrite o base temp_am None s
           end
         else mret s
       else mret s);
  let s := match aof_state s with
           | AOF_WAIT_REWRITE => bg_unlink (getTempIncrAofName aof_filename) (set_log (with_buf [] (log s)) s)
           | _ => s
           end in
  mret (set_child None s).

Definition stopAppendOnly (w : io) (s : server) : result (bool * server) :=
  _ ← assert (match aof_state s with AOF_OFF => false | _ => true end);
  '(running, s) ← flushAppendOnlyFile true w s;
  if negb running then mret (false, s) else
  let l := if fsyncs w then with_last_fsync (unixtime w) (log s) else log s in
  let l := with_buf [] (with_fsync_offset 0 (with_size 0 (with_selected (-1) (with_fd None l)))) in
  mret (true, set_child None (set_state AOF_OFF (set_log l s))).
(** [busy]: another kind of child is active, or a transaction is executed. *)
Definition startAppendOnly (busy : bool) (w : io) (opened : bool) (o : persisting) (forked : bool) (s : server) : result (bool * server) :=
  _ ← assert (match aof_state s with AOF_OFF => true | _ => false end);
  let s := set_state AOF_WAIT_REWRITE s in
  '(running, ret, s) ← (if busy then mret (true, true, s) else rewriteAppendOnlyFileBackground false w opened o forked (set_child None s));
  if negb running then mret (false, s) else
  if negb ret then mret (true, set_state AOF_OFF s) else
  mret (true, set_log (with_status true (with_last_fsync (unixtime w) (log s))) s).

(** [updateAofAutoGCEnabled] *)
Definition updateAofAutoGCEnabled (disabled : bool) (o : persisting) (s : server) : result server :=
  let s := set_gc disabled s in if disabled then mret s else aofDelHistoryFiles o s.

(** ** Starting *)

Inductive aof_ret := AOF_OK | AOF_NOT_EXIST | AOF_TRUNCATED | AOF_FAILED.
(** [truncates]: the file can be cut off.  The dataset grows by what is in the file; an empty file,
    [AOF_EMPTY] in the code, is read as one without commands. *)
Definition loadSingleAppendOnlyFile (truncates : bool) (filename : bytes) (data : dataset) (d : disk) : result (aof_ret * dataset * disk) :=
  match names d !! filename with
  | None => mret (AOF_NOT_EXIST, data, d)
  | Some i =>
      c ← the (inodes d !! i);
      match c with
      | Snapshot x => mret (AOF_OK, data ++ x, d)
      | Log b =>
          r ← load_log b;
          mret match r with
               | LoadOk x => (AOF_OK, data ++ x, d)
               | LoadShort x valid_up_to => if truncates then (AOF_TRUNCATED, data ++ x, put_content i (Log (take valid_up_to b)) d) else (AOF_FAILED, data ++ x, d)
               | LoadFailed => (AOF_FAILED, data, d)
               end
      end
  end.
(** Only the last file may be cut off. *)
Fixpoint load_files (truncates : bool) (ais : list aofInfo) (data : dataset) (d : disk) : result (aof_ret * dataset * disk) :=
  match ais with
  | [] => mret (AOF_OK, data, d)
  | ai :: ais =>
      '(ret, data, d) ← loadSingleAppendOnlyFile truncates (file_name ai) data d;
      match ret, ais with
      | AOF_FAILED, _ | AOF_TRUNCATED, _ :: _ => mret (AOF_FAILED, data, d)
      | _, _ :: _ => load_files truncates ais data d
      | _, [] => mret (ret, data, d)
      end
  end.
(** A file of the manifest that is missing is fatal. *)
Definition loadAppendOnlyFiles (truncates : bool) (am : aofManifest) (d : disk) : result (aof_ret * dataset * disk) :=
  let files := option_list (base_aof_info am) ++ incr_aof_list am in
  if bool_decide (files = []) then mret (AOF_NOT_EXIST, [], d)
  else if forallb (fun ai => bool_decide (is_Some (names d !! file_name ai))) files then load_files truncates files [] d
  else mret (AOF_FAILED, [], d).
Definition aofLoadManifestFromDisk (d : disk) : option aofManifest :=
  match manifest_file d with
  | None => Some aofManifestCreate
  | Some f => match aofLoadManifestFromFile f with inr (inr am) => Some am | _ => None end
  end.
(** What a new process makes of a disk: the disk that it leaves or goes on with, the manifest
    and the dataset. *)
Definition loadDataFromDisk (truncates : bool) (d : disk) : result (disk * option (aofManifest * dataset)) :=
  match aofLoadManifestFromDisk d with
  | None => mret (d, None)
  | Some am =>
      '(ret, data, d) ← loadAppendOnlyFiles truncates am d;
      mret (d, match ret with AOF_FAILED => None | _ => Some (am, data) end)
  end.
Definition recover (d : disk) : option dataset := match loadDataFromDisk true d with inr (_, Some (_, data)) => Some data | _ => None end.

(** The process exits when it cannot open the file or persist the manifest. *)
Definition aofOpenIfNeededOnServerStart (created opened : bool) (o : persisting) (s : server) : result (bool * server) :=
  '(ok, s) ← (if bool_decide (base_aof_info (aof_manifest s) = None) && bool_decide (incr_aof_list (aof_manifest s) = []) then
                '(base, am) ← getNewBaseFileNameAndMarkPreAsHistory aof_filename aof_use_rdb_preamble (aof_manifest s);
                let s := set_manifest am s in
                mret (if created then (true, set_store (new_file base (Snapshot (db s)) (store s)).2 s) else (false, s))
              else mret (true, s));
  if negb ok then mret (false, s) else
  let '(name, am) := getLastIncrAofName aof_filename (aof_manifest s) in
  if negb opened then mret (false, set_manifest am s) else
  let '(fd, d) := open_append name (store s) in
  let '(ret, am, s) := persistAofManifest o am (set_log (with_fd (Some (mk_descriptor fd None)) (log s)) (set_store d s)) in
  if negb ret then mret (false, set_manifest am s) else
  b ← the (log_at (store s) fd);
  mret (true, set_manifest am (set_log (with_fsync_offset (length b) (with_size (length b) (log s))) s)).

(** The start of [main] on a disk that a process left; it may exit and leave a disk. *)
Definition start (gc_disabled : bool) (now : Z) (truncates created opened : bool) (o1 o2 : persisting) (d : disk) : result (disk + bool * server) :=
  r ← loadDataFromDisk truncates d;
  match r with
  | (d', None) => mret (inl d')
  | (d', Some (am, data)) =>
      let s := mk_server AOF_ON (mk_log None [] (-1) 0 0 0 now 0 true) am None gc_disabled data data d [] in
      '(ok, s) ← aofOpenIfNeededOnServerStart created opened o1 (set_store d' s);
      if negb ok then mret (inr (false, s)) else
      s ← aofDelHistoryFiles o2 s; mret (inr (true, s))
  end.
End Server.
