(* ===== verification/AofDisk.v ===== *)
(** * Append only files: names and contents

    The names of the files differ, and a change of one file leaves what the others hold. *)

From Stdlib Require Import Ascii.
From S2P Require Import Prelude Bytes NumString NumStringFacts StringMatch SdsText SdsEdit SdsQuote AofManifest AofManifestFacts AofLog AofServer.

(** ** Names *)

Section FileNames.
Context (fn : bytes) (rdb : bool).

Lemma decimal_inj v w : in_s 64 v -> in_s 64 w -> decimal v = decimal w -> v = w.
Proof. intros Hv Hw E. pose proof (atoll_decimal v Hv) as Ev. rewrite E, (atoll_decimal w Hw) in Ev. by injection Ev. Qed.

Lemma incr_name_inj k l : in_s 64 k -> in_s 64 l -> incr_name fn k = incr_name fn l -> k = l.
Proof.
intros Hk Hl E. unfold incr_name in E. apply app_inv_head, app_inv_head in E. rewrite !app_assoc in E. apply app_inv_tail, app_inv_tail in E. by apply decimal_inj.
Qed.

Lemma base_name_inj k l : in_s 64 k -> in_s 64 l -> base_name fn rdb k = base_name fn rdb l -> k = l.
Proof.
intros Hk Hl E. unfold base_name in E. apply app_inv_head, app_inv_head in E. rewrite !app_assoc in E. apply app_inv_tail, app_inv_tail in E. by apply decimal_inj.
Qed.

(** The last bytes tell the kinds of names apart. *)
Lemma suffix_differs (a b x y : bytes) : length x = length y -> x <> y -> a ++ x <> b ++ y.
Proof. intros El Hne E. apply app_inj_2 in E as [_ E]; [by apply Hne|done]. Qed.

Lemma base_not_incr k l : base_name fn rdb k <> incr_name fn l.
Proof.
unfold base_name, incr_name. rewrite !app_assoc, <- (app_assoc _ (text ".base")), <- (app_assoc _ (text ".incr")).
destruct rdb; apply suffix_differs; by vm_compute.
Qed.

Lemma temp_not_incr k : getTempIncrAofName fn <> incr_name fn k.
Proof.
unfold getTempIncrAofName, incr_name. rewrite !app_assoc. change (text ".incr") with ([46] ++ text "incr") at 1. rewrite (app_assoc _ [46]).
apply suffix_differs; by vm_compute.
Qed.

Lemma temp_not_base k : getTempIncrAofName fn <> base_name fn rdb k.
Proof.
unfold getTempIncrAofName, base_name. rewrite !app_assoc. change (text ".incr") with ([46] ++ text "incr"). rewrite (app_assoc _ [46]).
destruct rdb; apply suffix_differs; by vm_compute.
Qed.

Lemma text_chars t : Forall (fun c => c = 46 \/ 97 <= c <= 122) t -> Forall name_char t.
Proof. intros H. eapply Forall_impl; [exact H|]. cbn. intros c Hc. unfold name_char. lia. Qed.

Lemma incr_name_ok k : Forall name_char fn -> name_ok (incr_name fn k).
Proof.
intros Hfn. split; [by destruct fn|]. unfold incr_name. repeat (apply Forall_app; split); try done; try (apply text_chars; repeat constructor; cbn; lia).
eapply Forall_impl; [apply decimal_chars|]. cbn. intros c Hc. unfold name_char. lia.
Qed.

Lemma base_name_ok k : Forall name_char fn -> name_ok (base_name fn rdb k).
Proof.
intros Hfn. split; [by destruct fn|]. unfold base_name.
repeat (apply Forall_app; split); try done; try (apply text_chars; destruct rdb; repeat constructor; cbn; lia).
eapply Forall_impl; [apply decimal_chars|]. cbn. intros c Hc. unfold name_char. lia.
Qed.

Lemma length_incr_name k : in_s 64 k -> (length (incr_name fn k) <= length fn + 30)%nat.
Proof. intros Hk. pose proof (length_decimal k Hk). unfold incr_name. rewrite !length_app. cbn [length text String.list_ascii_of_string map]. lia. Qed.

Lemma length_base_name k : in_s 64 k -> (length (base_name fn rdb k) <= length fn + 30)%nat.
Proof.
intros Hk. pose proof (length_decimal k Hk). unfold base_name. rewrite !length_app. destruct rdb; cbn [length text String.list_ascii_of_string map]; lia.
Qed.
End FileNames.

Lemma length_entry_line ai : in_s 64 (file_seq ai) -> (length (entry_line ai) <= 4 * length (file_name ai) + 40)%nat.
Proof.
  intros Hs. pose proof (length_decimal _ Hs). unfold entry_line, words, join. rewrite !length_app. cbn [length text String.list_ascii_of_string map].
  assert (length (shown (file_name ai)) <= 4 * length (file_name ai) + 2)%nat; [|lia]. unfold shown. destruct (needs_quotes _); [|lia].
  pose proof (length_quote (file_name ai)). lia.
Qed.

Lemma entry_writable ty name k :
  33 <= ty <= 126 -> ty <> 34 -> ty <> 39 -> name_ok name -> (length name <= 245)%nat -> 0 < k < 2 ^ 62 -> entry_ok ty (mk_info name k ty).
Proof.
  intros H1 H2 H3 Hn Hl Hk. assert (in_s 64 k) as Hs by (unfold in_s; cbn; lia). unfold entry_ok. cbn [file_type file_name file_seq].
  repeat split; try done; try lia; try apply Hn; try apply Hs. pose proof (length_entry_line (mk_info name k ty) Hs) as Hle. cbn [file_name] in Hle.
  unfold MANIFEST_MAX_LINE. lia.
Qed.

(** ** Contents *)

Section Contents.
Context `{cf : Config}.
Implicit Types (d : disk) (ai : aofInfo).

Definition disk_ok d : Prop :=
  (forall a b i, names d !! a = Some i -> names d !! b = Some i -> a = b) /\
  (forall a i, names d !! a = Some i -> (i < next_inode d)%nat /\ is_Some (inodes d !! i)).

Lemma disk_ok_new name c d : disk_ok d -> disk_ok (new_file name c d).2.
Proof.
intros [Hinj Hin]. unfold new_file. split; cbn [snd names inodes next_inode].
- intros a b i Ha Hb. rewrite lookup_insert_Some in Ha, Hb. destruct Ha as [[<- <-]|[Hna Ha]], Hb as [[<- Hi]|[Hnb Hb]]; try done; [| |by apply (Hinj a b i)].
  + apply Hin in Hb as [? _]. lia.
  + apply Hin in Ha as [? _]. lia.
- intros a i Ha. rewrite lookup_insert_Some in Ha. destruct Ha as [[<- <-]|[Hna Ha]]; [split; [lia|]; rewrite lookup_insert_eq; eauto|].
  apply Hin in Ha as [Hlt Hs]. split; [lia|]. rewrite lookup_insert_ne by lia. done.
Qed.

Lemma disk_ok_put i c d : disk_ok d -> disk_ok (put_content i c d).
Proof.
intros [Hinj Hin]. split; cbn [put_content names inodes next_inode]; [done|]. intros a j Ha. apply Hin in Ha as [Hlt Hs]. split; [done|].
destruct (decide (i = j)) as [<-|]; [rewrite lookup_insert_eq; eauto|by rewrite lookup_insert_ne].
Qed.

Lemma disk_ok_trunc name d : disk_ok d -> disk_ok (open_trunc name d).2.
Proof. intros H. unfold open_trunc. destruct (names d !! name); [by apply disk_ok_put|by apply disk_ok_new]. Qed.

Lemma disk_ok_append name d : disk_ok d -> disk_ok (open_append name d).2.
Proof. intros H. unfold open_append. destruct (names d !! name); [done|by apply disk_ok_new]. Qed.

Lemma disk_ok_unlink name d : disk_ok d -> disk_ok (unlink name d).
Proof.
intros [Hinj Hin]. split; cbn [unlink names inodes next_inode].
- intros a b i Ha Hb. apply lookup_delete_Some in Ha as [_ Ha], Hb as [_ Hb]. by apply (Hinj a b i).
- intros a i Ha. apply lookup_delete_Some in Ha as [_ Ha]. by apply (Hin a).
Qed.

Lemma disk_ok_rename a b d d' : disk_ok d -> rename a b d = Some d' -> disk_ok d'.
Proof.
intros [Hinj Hin] E. unfold rename in E. destruct (names d !! a) as [i|] eqn:Ea; [|done]. injection E as <-. split; cbn [names inodes next_inode].
- intros x y j Hx Hy. rewrite lookup_insert_Some, lookup_delete_Some in Hx, Hy.
  destruct Hx as [[<- <-]|[Hnx [Hax Hx]]], Hy as [[<- Hj]|[Hny [Hay Hy]]]; try done; [| |by apply (Hinj x y j)].
  + by destruct (Hay (Hinj _ _ _ Ea Hy)).
  + subst j. by destruct (Hax (Hinj _ _ _ Ea Hx)).
- intros x j Hx. rewrite lookup_insert_Some, lookup_delete_Some in Hx. destruct Hx as [[<- <-]|[_ [_ Hx]]]; [by apply (Hin a)|by apply (Hin x)].
Qed.

Lemma disk_ok_manifest f d : disk_ok d -> disk_ok (put_manifest f d).
Proof. done. Qed.

(** The dataset in a file that is read to its end. *)
Definition whole (c : content) : option dataset :=
  match c with Snapshot x => Some x | Log b => match load_log b with inr (LoadOk x) => Some x | _ => None end end.
Definition file_at d ai : option content := i ← names d !! file_name ai; inodes d !! i.
Definition content_of d ai : option dataset := c ← file_at d ai; whole c.

Lemma file_new_same name c d ai : file_name ai = name -> file_at (new_file name c d).2 ai = Some c.
Proof. intros <-. unfold file_at, new_file. cbn [snd names inodes]. rewrite lookup_insert_eq. cbn. by rewrite lookup_insert_eq. Qed.

Lemma file_put_same i c d ai : names d !! file_name ai = Some i -> file_at (put_content i c d) ai = Some c.
Proof. intros E. unfold file_at. cbn [put_content names inodes]. rewrite E. cbn. by rewrite lookup_insert_eq. Qed.

Lemma trunc_spec name d : disk_ok d -> let '(i, d') := open_trunc name d in
  names d' !! name = Some i /\ inodes d' !! i = Some (Log []) /\ (next_inode d <= next_inode d')%nat /\ manifest_file d' = manifest_file d.
Proof.
intros [_ Hin]. unfold open_trunc, new_file. destruct (names d !! name) as [i|] eqn:E; cbn [put_content names inodes next_inode manifest_file].
- by rewrite lookup_insert_eq.
- rewrite !lookup_insert_eq. repeat split; lia.
Qed.

(** The dataset in a list of files. *)
Definition loads d (ais : list aofInfo) : option dataset := contents ← mapM (content_of d) ais; Some (concat contents).

Lemma loads_cons d ai ais : loads d (ai :: ais) = (x ← content_of d ai; y ← loads d ais; Some (x ++ y)).
Proof. unfold loads. cbn. destruct (content_of d ai); [|done]. cbn. by destruct (mapM (content_of d) ais). Qed.

Lemma loads_app d xs ys : loads d (xs ++ ys) = (x ← loads d xs; y ← loads d ys; Some (x ++ y)).
Proof.
induction xs as [|ai xs IH]; [cbn [app]; change (loads d []) with (Some (@nil (list op))); cbn [mbind option_bind]; by destruct (loads d ys)|]. cbn [app]. rewrite !loads_cons, IH.
destruct (content_of d ai) as [c|]; [|done]. cbn. destruct (loads d xs) as [x|]; [|done]. cbn. destruct (loads d ys) as [y|]; [|done]. cbn. by rewrite app_assoc.
Qed.

Lemma loads_one d ai : loads d [ai] = content_of d ai.
Proof. unfold loads. cbn. destruct (content_of d ai) as [c|]; [|done]. cbn. by rewrite app_nil_r. Qed.

(** A file that a change of the directory leaves alone. *)
Definition same_file d d' (name : bytes) : Prop :=
  names d' !! name = names d !! name /\ forall i, names d !! name = Some i -> inodes d' !! i = inodes d !! i.

Lemma file_same d d' ai : same_file d d' (file_name ai) -> file_at d' ai = file_at d ai.
Proof. intros [Hn Hc]. unfold file_at. rewrite Hn. destruct (names d !! file_name ai) as [i|] eqn:E; [|done]. cbn. auto. Qed.

Lemma loads_same d d' ais : (forall ai, In ai ais -> same_file d d' (file_name ai)) -> loads d' ais = loads d ais.
Proof.
intros Hs. induction ais as [|ai ais IH]; [done|]. rewrite !loads_cons, IH by (intros a Ha; apply Hs; by right). unfold content_of.
by rewrite (file_same d d' ai) by (apply Hs; by left).
Qed.

Lemma same_new name c d x : disk_ok d -> x <> name -> same_file d (new_file name c d).2 x.
Proof.
intros [_ Hin] Hne. split; cbn [new_file snd names inodes]; [by rewrite lookup_insert_ne|]. intros i E. apply Hin in E as [? _]. by rewrite lookup_insert_ne by lia.
Qed.

Lemma same_put i c d x : names d !! x <> Some i -> same_file d (put_content i c d) x.
Proof. intros Hne. split; [done|]. cbn [put_content inodes]. intros j E. rewrite lookup_insert_ne; [done|]. intros ->. by apply Hne. Qed.

Lemma same_trunc name d x : disk_ok d -> x <> name -> same_file d (open_trunc name d).2 x.
Proof.
intros Hd Hne. unfold open_trunc. destruct (names d !! name) as [i|] eqn:E; [|by apply same_new]. apply same_put. intros E'. by apply Hne, (proj1 Hd _ _ i).
Qed.

Lemma same_unlink name d x : x <> name -> same_file d (unlink name d) x.
Proof. intros Hne. split; [|done]. cbn [unlink names]. by rewrite lookup_delete_ne. Qed.

Lemma same_rename a b d d' x : rename a b d = Some d' -> x <> a -> x <> b -> same_file d d' x.
Proof. intros E Ha Hb. unfold rename in E. destruct (names d !! a); [|done]. injection E as <-. split; [|done]. cbn [names]. by rewrite lookup_insert_ne, lookup_delete_ne. Qed.

Lemma same_manifest f d x : same_file d (put_manifest f d) x.
Proof. done. Qed.
End Contents.
