(* ===== verification/AofCrash.v ===== *)
(** * Append only files survive crashes

    The invariant of a server and its directory: the files of the manifest before the last one
    hold a part of the dataset, the text in the last one and in the buffer the rest.  Executing
    and flushing commands keeps it, whatever part of the buffer is written. *)

From S2P Require Import Prelude Bytes NumString NumStringFacts SdsText SdsEdit SdsQuote AofManifest AofManifestFacts AofLog AofLogFacts AofServer AofDisk.

(** ** Growing numbers *)

Lemma newest_bound l : forall m, increasing m l -> m <= newest m l /\ Forall (fun b => m < file_seq b <= newest m l) l.
Proof.
  induction l as [|b l IH]; intros m Hi; [split; [done|constructor]|]. destruct Hi as [Hm Hi]. apply IH in Hi as [Hle Hf].
unfold newest in *. cbn [fold_left]. split; [lia|]. constructor; [lia|]. eapply Forall_impl; [exact Hf|]. cbn. intros; lia.
Qed.

Lemma newest_snoc m l ai : newest m (l ++ [ai]) = file_seq ai.
Proof. unfold newest. by rewrite fold_left_app. Qed.

Lemma increasing_snoc l ai : forall m, increasing m l -> newest m l < file_seq ai -> increasing m (l ++ [ai]).
Proof. induction l as [|b l IH]; intros m Hi Hlt; [done|]. destruct Hi as [Hm Hi]. split; [done|]. by apply IH. Qed.

Lemma increasing_last older new : forall m, increasing m (older ++ [new]) -> m < file_seq new /\ Forall (fun b => m < file_seq b < file_seq new) older.
Proof.
  induction older as [|x older IH]; intros m Hi; [split; [apply Hi|constructor]|]. destruct Hi as [Hm Hi]. apply IH in Hi as [Hn Hf]. split; [lia|].
  constructor; [lia|]. eapply Forall_impl; [exact Hf|]. cbn. intros; lia.
Qed.

(** What the theorems ask of the configuration: a file name without quotes and paths, that fits
    the lines of the manifest; logs are cut off at a short end, and have no time stamps. *)
Class Setting `{cf : Config} (fn : bytes) : Prop := {
  name_chars : Forall name_char fn;
  name_length : (length fn <= 215)%nat;
  truncating : aof_load_truncated = true;
  no_timestamps : aof_timestamp_enabled = false;
  databases : dbnum <= 2 ^ 31;
}.

Section Crash.
Context `{cf : Config} (fn : bytes) (rdb : bool) `{St : !Setting fn}.
Implicit Types (d : disk) (am : aofManifest) (ai : aofInfo).

(** ** Manifests of the server *)

Definition incr_info (k : Z) (ty : Z) : aofInfo := mk_info (incr_name fn k) k ty.
Definition base_info (k : Z) (ty : Z) : aofInfo := mk_info (base_name fn rdb k) k ty.

(** A history file was a base file before the current one, or an incremental file before the current ones. *)
Definition old_file (am : aofManifest) (h : aofInfo) : Prop :=
  0 < file_seq h /\
  (h = base_info (file_seq h) AOF_FILE_TYPE_HIST /\ file_seq h < curr_base_file_seq am \/
   h = incr_info (file_seq h) AOF_FILE_TYPE_HIST /\ incr_aof_list am <> [] /\ Forall (fun b => file_seq h < file_seq b) (incr_aof_list am)).

(** Numbers up to [n] are used, and those of the newest files are known. *)
Record shape (n : Z) (am : aofManifest) : Prop := {
  sh_base : match base_aof_info am with Some ai => ai = base_info (curr_base_file_seq am) AOF_FILE_TYPE_BASE /\ 0 < curr_base_file_seq am | None => curr_base_file_seq am = 0 end;
  sh_incr : Forall (fun ai => ai = incr_info (file_seq ai) AOF_FILE_TYPE_INCR) (incr_aof_list am);
  sh_increasing : increasing 0 (incr_aof_list am);
  sh_newest : curr_incr_file_seq am = newest 0 (incr_aof_list am);
  sh_history : Forall (old_file am) (history_aof_list am);
  sh_bounds : curr_base_file_seq am <= n /\ curr_incr_file_seq am <= n;
}.

(** The files that are loaded. *)
Definition live (am : aofManifest) : list aofInfo := option_list (base_aof_info am) ++ incr_aof_list am.

Section Shape.
Context (n : Z) (am : aofManifest) (Hn : n < 2 ^ 62) (Hs : shape n am).

Lemma incr_range ai : In ai (incr_aof_list am) -> ai = incr_info (file_seq ai) AOF_FILE_TYPE_INCR /\ 0 < file_seq ai <= curr_incr_file_seq am.
Proof.
intros Hi. destruct Hs as [_ Hi' Hinc Hnew _ _]. rewrite List.Forall_forall in Hi'. split; [by apply Hi'|].
apply newest_bound in Hinc as [_ Hf]. rewrite List.Forall_forall in Hf. rewrite Hnew. by apply Hf.
Qed.

Lemma base_range ai : In ai (option_list (base_aof_info am)) -> ai = base_info (curr_base_file_seq am) AOF_FILE_TYPE_BASE /\ 0 < curr_base_file_seq am.
Proof. destruct Hs as [Hb _ _ _ _ _]. destruct (base_aof_info am) as [b|]; [|done]. intros [<-|[]]. exact Hb. Qed.

Lemma old_range h : In h (history_aof_list am) -> old_file am h /\ 0 < file_seq h <= n.
Proof.
intros Hi. pose proof (sh_history n am Hs) as Hh. rewrite List.Forall_forall in Hh. pose proof (Hh h Hi) as Ho. split; [done|]. destruct Ho as [Hp Ho].
destruct Hs as [_ _ _ _ _ [Hb1 Hb2]]. split; [done|]. destruct Ho as [[_ ?]|[_ [Hne Hf]]]; [lia|].
destruct (incr_aof_list am) as [|b l] eqn:E; [done|]. apply Forall_cons in Hf as [Hlt _]. pose proof (incr_range b) as Hr. rewrite E in Hr.
destruct (Hr (or_introl eq_refl)). lia.
Qed.

Lemma shape_ok : manifest_ok am.
Proof.
assert (forall k, 0 < k <= n -> entry_ok AOF_FILE_TYPE_BASE (base_info k AOF_FILE_TYPE_BASE) /\ entry_ok AOF_FILE_TYPE_HIST (base_info k AOF_FILE_TYPE_HIST) /\
  entry_ok AOF_FILE_TYPE_INCR (incr_info k AOF_FILE_TYPE_INCR) /\ entry_ok AOF_FILE_TYPE_HIST (incr_info k AOF_FILE_TYPE_HIST)) as Hok.
{ intros k Hk. assert (in_s 64 k) as Hk64 by (unfold in_s; cbn; lia). pose proof name_length. pose proof (length_base_name fn rdb k Hk64). pose proof (length_incr_name fn k Hk64).
  split; [|split; [|split]]; apply entry_writable; try done; try lia; (by apply base_name_ok, name_chars || by apply incr_name_ok, name_chars). }
destruct (sh_bounds n am Hs). split.
- apply List.Forall_forall. intros ai Hi. apply base_range in Hi as [-> ?]. apply Hok. lia.
- apply List.Forall_forall. intros h Hi. destruct (old_range h Hi) as [[_ [[-> _]|[-> _]]] Hr]; by apply Hok.
- apply List.Forall_forall. intros ai Hi. apply incr_range in Hi as [-> ?]. apply Hok. cbn [incr_info file_seq] in *. lia.
- by apply (sh_increasing n).
Qed.

Lemma shape_reloaded : reloaded am = set_dirty false am.
Proof.
destruct Hs as [Hb _ _ Hnew _ _]. unfold reloaded, set_dirty. rewrite Hnew. f_equal. destruct (base_aof_info am) as [b|]; [|by rewrite Hb].
destruct Hb as [-> _]. done.
Qed.

Lemma reload_manifest d : live am <> [] -> manifest_file d = Some (getAofManifestAsString am) -> aofLoadManifestFromDisk d = Some (set_dirty false am).
Proof.
intros Hne E. unfold aofLoadManifestFromDisk. rewrite E, (load_written am shape_ok), shape_reloaded; [done|].
unfold live, entries in *. destruct (option_list (base_aof_info am)); [|done]. intros [_ [_ ?]%app_eq_nil]%app_eq_nil. by apply Hne.
Qed.

Lemma k64 k : 0 < k <= n + 1 -> in_s 64 k.
Proof. intros Hk. unfold in_s. cbn. lia. Qed.

(** ** Names that are free *)

Lemma live_names ai : In ai (live am) ->
  (file_name ai = base_name fn rdb (curr_base_file_seq am) /\ 0 < curr_base_file_seq am) \/
  (file_name ai = incr_name fn (file_seq ai) /\ 0 < file_seq ai <= curr_incr_file_seq am /\ In ai (incr_aof_list am)).
Proof.
unfold live. rewrite in_app_iff. intros [Hi|Hi]; [left; apply base_range in Hi as [-> ?]; done|right].
pose proof (incr_range ai Hi) as [E ?]. apply (f_equal file_name) in E. done.
Qed.

Lemma new_incr_free ai : In ai (live am) -> file_name ai <> incr_name fn (curr_incr_file_seq am + 1).
Proof.
intros Hi E. destruct (sh_bounds n am Hs). destruct (live_names ai Hi) as [[Eb _]|(Ei & Hr & _)].
- rewrite Eb in E. by apply base_not_incr in E.
- rewrite Ei in E. apply incr_name_inj in E; [lia|apply k64; lia..].
Qed.

Lemma new_base_free ai : In ai (live am) -> file_name ai <> base_name fn rdb (curr_base_file_seq am + 1).
Proof.
intros Hi E. destruct (sh_bounds n am Hs). destruct (live_names ai Hi) as [[Eb ?]|(Ei & Hr & _)].
- rewrite Eb in E. apply base_name_inj in E; [lia|apply k64; lia..].
- rewrite Ei in E. symmetry in E. by apply base_not_incr in E.
Qed.

Lemma temp_free ai : In ai (live am) -> file_name ai <> getTempIncrAofName fn.
Proof.
intros Hi E. symmetry in E. destruct (live_names ai Hi) as [[Eb ?]|(Ei & Hr & _)]; [rewrite Eb in E; by apply temp_not_base in E|rewrite Ei in E; by apply temp_not_incr in E].
Qed.

Lemma history_free h ai : In h (history_aof_list am) -> In ai (live am) -> file_name ai <> file_name h.
Proof.
intros Hh Hi E. destruct (sh_bounds n am Hs). destruct (old_range h Hh) as [[_ [[Eh Hlt]|[Eh [_ Hf]]]] Hr]; rewrite Eh in E; cbn [base_info incr_info file_name] in E;
  destruct (live_names ai Hi) as [[Eb ?]|(Ei & Hri & Hin)].
- rewrite Eb in E. apply base_name_inj in E; [lia|apply k64; lia..].
- rewrite Ei in E. symmetry in E. by apply base_not_incr in E.
- rewrite Eb in E. by apply base_not_incr in E.
- rewrite Ei in E. apply incr_name_inj in E; [|apply k64; lia..]. rewrite List.Forall_forall in Hf. apply Hf in Hin. lia.
Qed.

Lemma last_free older new ai : incr_aof_list am = older ++ [new] -> In ai (option_list (base_aof_info am) ++ older) -> file_name ai <> file_name new.
Proof.
intros E Hi Ename. destruct (sh_bounds n am Hs). pose proof (incr_range new ltac:(rewrite E, in_app_iff; cbn; auto)) as [En Hn1]. rewrite En in Ename.
rewrite in_app_iff in Hi. destruct Hi as [Hi|Hi].
- apply base_range in Hi as [-> _]. by apply base_not_incr in Ename.
- pose proof (incr_range ai ltac:(rewrite E, in_app_iff; auto)) as [Ea Ha1]. rewrite Ea in Ename. apply incr_name_inj in Ename; [|apply k64; lia..].
  pose proof (sh_increasing n am Hs) as Hinc. rewrite E in Hinc. apply increasing_last in Hinc as [_ Hlt]. rewrite List.Forall_forall in Hlt. apply Hlt in Hi. lia.
Qed.
End Shape.

(** ** Manifests change *)

Lemma shape_mono n m am : shape n am -> n <= m -> shape m am.
Proof. intros [? ? ? ? ? [? ?]] Hm. split; try done. lia. Qed.

(** Only these parts matter. *)
Lemma shape_cong n am am' :
  shape n am -> base_aof_info am' = base_aof_info am -> incr_aof_list am' = incr_aof_list am -> curr_base_file_seq am' = curr_base_file_seq am ->
  curr_incr_file_seq am' = curr_incr_file_seq am -> (history_aof_list am' = history_aof_list am \/ history_aof_list am' = []) -> shape n am'.
Proof.
intros [H1 H2 H3 H4 H5 H6] Eb Ei Ecb Eci Eh. split; rewrite ?Eb, ?Ei, ?Ecb, ?Eci; try done. destruct Eh as [-> | ->]; [|constructor].
eapply Forall_impl; [exact H5|]. intros h Ho. unfold old_file in *. by rewrite Ei, Ecb.
Qed.

Lemma shape_new_incr n am : shape n am -> shape (n + 1) (getNewIncrAofName fn am).2.
Proof.
intros Hs. pose proof Hs as [Hb Hi Hinc Hnew Hh [Hb1 Hb2]]. unfold getNewIncrAofName. split;
  cbn [snd base_aof_info incr_aof_list history_aof_list curr_base_file_seq curr_incr_file_seq]; try done; try lia.
- apply Forall_app. split; [done|]. by repeat constructor.
- apply increasing_snoc; [done|]. cbn [file_seq]. lia.
- by rewrite newest_snoc.
- apply List.Forall_forall. intros h Hin. pose proof Hh as Hh'. rewrite List.Forall_forall in Hh'. destruct (Hh' h Hin) as [Hp Ho]. split; [done|].
  destruct Ho as [[E ?]|[E [Hne Hf]]]; [by left|]. right. split; [done|]. cbn [incr_aof_list]. split; [by intros [_ ?]%app_eq_nil|].
  apply Forall_app. split; [done|]. repeat constructor. cbn [file_seq]. destruct (incr_aof_list am) as [|b l] eqn:E'; [done|].
  apply Forall_cons in Hf as [Hlt _]. pose proof (incr_range n am Hs b) as Hr. rewrite E' in Hr. destruct (Hr (or_introl eq_refl)). lia.
Qed.

Lemma shape_new_base n am : shape n am -> exists am', getNewBaseFileNameAndMarkPreAsHistory fn rdb am = inr (base_name fn rdb (curr_base_file_seq am + 1), am') /\
  shape (n + 1) am' /\ base_aof_info am' = Some (base_info (curr_base_file_seq am + 1) AOF_FILE_TYPE_BASE) /\ incr_aof_list am' = incr_aof_list am /\ dirty am' = true /\
  curr_incr_file_seq am' = curr_incr_file_seq am.
Proof.
intros [Hb Hi Hinc Hnew Hh [Hb1 Hb2]]. unfold getNewBaseFileNameAndMarkPreAsHistory.
assert (exists hists, match base_aof_info am with
  | Some ai => _ ← assert (file_type ai =? AOF_FILE_TYPE_BASE); mret (mk_info (file_name ai) (file_seq ai) AOF_FILE_TYPE_HIST :: history_aof_list am)
  | None => mret (history_aof_list am) end = inr hists /\
  Forall (fun h => 0 < file_seq h /\ (h = base_info (file_seq h) AOF_FILE_TYPE_HIST /\ file_seq h < curr_base_file_seq am + 1 \/
   h = incr_info (file_seq h) AOF_FILE_TYPE_HIST /\ incr_aof_list am <> [] /\ Forall (fun b => file_seq h < file_seq b) (incr_aof_list am))) hists) as (hists & -> & Hhs).
{ assert (Forall (fun h => 0 < file_seq h /\ (h = base_info (file_seq h) AOF_FILE_TYPE_HIST /\ file_seq h < curr_base_file_seq am + 1 \/
   h = incr_info (file_seq h) AOF_FILE_TYPE_HIST /\ incr_aof_list am <> [] /\ Forall (fun b => file_seq h < file_seq b) (incr_aof_list am))) (history_aof_list am)) as Hold.
  { eapply Forall_impl; [exact Hh|]. intros h [Hp [[E ?]|?]]; (split; [done|]); [left; split; [done|lia]|by right]. }
  destruct (base_aof_info am) as [b|]; [|by eexists]. destruct Hb as [-> Hp]. eexists. split; [done|]. constructor; [|done]. cbn [file_seq base_info].
  split; [done|]. left. split; [done|lia]. }
eexists. split; [done|]. split; [|done]. split; cbn [base_aof_info incr_aof_list history_aof_list curr_base_file_seq curr_incr_file_seq]; try done; try lia.
split; [done|]. destruct (base_aof_info am); [destruct Hb|]; lia.
Qed.

Lemma mark_all older : forall hists, Forall (fun ai => ai = incr_info (file_seq ai) AOF_FILE_TYPE_INCR) older ->
  for_each mark_turn hists (rev older) = inr (map (fun ai => incr_info (file_seq ai) AOF_FILE_TYPE_HIST) older ++ hists).
Proof.
induction older as [|ai older IH]; intros hists Ho; [done|]. apply Forall_cons in Ho as [E Ho]. cbn [rev map app]. rewrite for_each_app, IH by done.
cbn [mbind result_bind for_each]. unfold mark_turn. rewrite E. cbn [incr_info file_type file_name file_seq]. done.
Qed.

Lemma shape_mark n am older new : shape n am -> incr_aof_list am = older ++ [new] ->
  exists am', markRewrittenIncrAofAsHistory true am = inr am' /\ shape n am' /\ base_aof_info am' = base_aof_info am /\ incr_aof_list am' = [new] /\ dirty am' = true.
Proof.
intros Hs E. pose proof Hs as [Hb Hi Hinc Hnew Hh [Hb1 Hb2]]. unfold markRewrittenIncrAofAsHistory. rewrite E, rev_app_distr. cbn [rev app].
rewrite E in Hi. apply Forall_app in Hi as [Ho Hn]. rewrite (mark_all older (history_aof_list am) Ho). eexists. split; [done|]. split; [|done].
rewrite E in Hinc. apply increasing_last in Hinc as [Hpos Hlt]. rewrite E, newest_snoc in Hnew.
split; cbn [base_aof_info incr_aof_list history_aof_list curr_base_file_seq curr_incr_file_seq]; try done.
apply Forall_app. split.
- apply Forall_map. eapply Forall_impl; [exact Hlt|]. cbn. intros b [Hp Hb']. unfold old_file. cbn [incr_info file_seq incr_aof_list].
  split; [done|]. right. split; [done|]. split; [done|]. by repeat constructor.
- eapply Forall_impl; [exact Hh|]. intros h [Hp [[Eh ?]|[Eh [Hne Hf]]]]; (split; [done|]); [by left|right]. split; [done|]. cbn [incr_aof_list]. split; [done|].
  rewrite E in Hf. apply Forall_app in Hf as [_ Hf]. done.
Qed.

(** ** The invariant *)

(** A part of an entry. *)
Definition ending (p : bytes) : Prop := p = [] \/ exists e q, entry_wf e /\ p ++ q = entry_wire e /\ p <> [] /\ q <> [].

(** The files before the last one hold [before]; the manifest on the disk names them all. *)
Definition settled (n : Z) am d (older : list aofInfo) (new : aofInfo) (before : dataset) : Prop :=
  incr_aof_list am = older ++ [new] /\ base_aof_info am <> None /\ loads d (option_list (base_aof_info am) ++ older) = Some before /\
  exists am_d, manifest_file d = Some (getAofManifestAsString am_d) /\ shape n am_d /\ base_aof_info am_d = base_aof_info am /\ incr_aof_list am_d = incr_aof_list am.

(** The last one holds entries, and perhaps a part of another one. *)
Definition holds_part d (new : aofInfo) (es : list entry) (p : bytes) : Prop := file_at d new = Some (Log (wires es ++ p)) /\ Forall entry_wf es /\ ending p.

(** The first incremental file has not been written to. *)
Definition fresh d : Prop := forall i, names d !! incr_name fn 1 = Some i -> inodes d !! i = Some (Log []).

(** A directory from which [got] is recovered. *)
Definition good (n : Z) d (got : dataset) : Prop :=
  disk_ok d /\
  (manifest_file d = None /\ got = [] /\ fresh d \/
   exists am older new before es p, settled n am d older new before /\ holds_part d new es p /\ got = before ++ effect es).

Lemma settled_mono n m am d older new before : settled n am d older new before -> n <= m -> settled m am d older new before.
Proof. intros (H1 & H2 & H3 & am_d & H4 & H5 & H6) Hm. do 3 (split; [done|]). exists am_d. split; [done|]. split; [by apply (shape_mono n)|done]. Qed.

Lemma good_mono n m d got : good n d got -> n <= m -> good m d got.
Proof.
intros [Hd [?|(am & older & new & before & es & p & Hs & Hp)]] Hm; (split; [done|]); [by left|right]. exists am, older, new, before, es, p. split; [by apply (settled_mono n)|done].
Qed.

Implicit Types (s : server).

(** A disk that may be left now. *)
Definition acceptable (n : Z) s d : Prop := exists got, good n d got /\ forall lo hi, promise s = Some (lo, hi) -> lo `prefix_of` got /\ got `prefix_of` hi.
Definition trace_ok (n : Z) s : Prop := Forall (fun '(d, p) => exists got, good n d got /\ forall lo hi, p = Some (lo, hi) -> lo `prefix_of` got /\ got `prefix_of` hi) (trace s).
Definition core (n : Z) s : Prop := shape n (aof_manifest s) /\ disk_ok (store s) /\ trace_ok n s.

(** The text of the dataset behind [before] is in a file and in the buffer; [w] of the buffer
    has been written already. *)
Record writes (i : nat) (off : option nat) (esA esB : list entry) (c w : bytes) (l : log_state) (before fl data : dataset) : Prop := {
  wr_fd : aof_fd l = Some (mk_descriptor i off);
  wr_off : off = None \/ off = Some (length (wires esA ++ c ++ w));
  wr_size : aof_last_incr_size l = length (wires esA ++ c);
  wr_buf : c ++ aof_buf l = wires esB;
  wr_wf : Forall entry_wf (esA ++ esB);
  wr_flushed : fl = before ++ effect esA;
  wr_data : data = before ++ effect (esA ++ esB);
  wr_selected : aof_selected_db l = -1 \/ aof_selected_db l = (run_entries 0 (esA ++ esB)).1;
  wr_empty : aof_buf l = [] -> fl = data;
}.
Definition writing (l : log_state) d (name : bytes) (before fl data : dataset) : Prop :=
  exists i off esA esB c, names d !! name = Some i /\ inodes d !! i = Some (Log (wires esA ++ c)) /\ writes i off esA esB c [] l before fl data.

Definition logging (n : Z) s : Prop :=
  exists older new before, settled n (aof_manifest s) (store s) older new before /\ writing (log s) (store s) (file_name new) before (flushed s) (db s).
(** The files of the manifest are left alone. *)
Definition parked (n : Z) s : Prop := exists older new before es p, settled n (aof_manifest s) (store s) older new before /\ holds_part (store s) new es p.

(** The files before the last one hold what the child has. *)
Definition fork_ok s : Prop :=
  forall snapshot older new, child s = Some snapshot -> incr_aof_list (aof_manifest s) = older ++ [new] ->
    loads (store s) (option_list (base_aof_info (aof_manifest s)) ++ older) = Some snapshot.
(** The dataset is what the child has, and the text in the temporary file and the buffer. *)
Definition waiting_ok s : Prop := forall snapshot, child s = Some snapshot -> writing (log s) (store s) (getTempIncrAofName fn) snapshot (flushed s) (db s).

Definition up (n : Z) s : Prop := core n s /\ logging n s /\ fork_ok s.
Definition quiet (n : Z) s : Prop :=
  core n s /\ parked n s /\ (child s = None -> aof_buf (log s) = []) /\
  match aof_state s with AOF_ON => False | AOF_WAIT_REWRITE => waiting_ok s | AOF_OFF => child s = None end.
Definition inv (n : Z) s : Prop := match aof_state s with AOF_ON => up n s | _ => quiet n s end.

Lemma trace_mono n m s : trace_ok n s -> n <= m -> trace_ok m s.
Proof. intros Ht Hm. eapply Forall_impl; [exact Ht|]. intros [d p] (got & Hg & Hp). exists got. split; [by apply (good_mono n)|done]. Qed.

Lemma core_mono n m s : core n s -> n <= m -> core m s.
Proof. intros (Hs & Hd & Ht) Hm. split; [by apply (shape_mono n)|]. split; [done|by apply (trace_mono n)]. Qed.

Lemma up_mono n m s : up n s -> n <= m -> up m s.
Proof.
intros (Hc & (older & new & before & H1 & H2) & Hf) Hm. split; [by apply (core_mono n)|]. split; [|done]. exists older, new, before. split; [by apply (settled_mono n)|done].
Qed.

Lemma quiet_mono n m s : quiet n s -> n <= m -> quiet m s.
Proof.
intros (Hc & (older & new & before & es & p & H1 & H2) & Hf) Hm. split; [by apply (core_mono n)|]. split; [|done]. exists older, new, before, es, p.
split; [by apply (settled_mono n)|done].
Qed.

Lemma inv_mono n m s : inv n s -> n <= m -> inv m s.
Proof. unfold inv. intros Hi Hm. destruct (aof_state s); [by apply (quiet_mono n)|by apply (up_mono n)|by apply (quiet_mono n)]. Qed.

Lemma inv_core n s : inv n s -> core n s.
Proof. unfold inv. destruct (aof_state s); by intros [? _]. Qed.

(** ** Acceptable disks *)

Lemma parked_good n am d older new before es p : disk_ok d -> settled n am d older new before -> holds_part d new es p -> good n d (before ++ effect es).
Proof. intros Hd Hs Hp. split; [done|]. right. by exists am, older, new, before, es, p. Qed.

(** While the log is not on, any good disk may be left. *)
Lemma parked_acceptable n s d got : aof_state s <> AOF_ON -> good n d got -> acceptable n s d.
Proof. intros Hst Hg. exists got. split; [done|]. unfold promise. by destruct (aof_state s). Qed.

(** A part of the text behind the flushed entries. *)
Lemma part_acceptable n am d older new before esA esB c rest : disk_ok d -> settled n am d older new before -> file_at d new = Some (Log (wires esA ++ c)) ->
  c ++ rest = wires esB -> Forall entry_wf (esA ++ esB) ->
  exists es p, holds_part d new es p /\ before ++ effect esA `prefix_of` before ++ effect es /\ before ++ effect es `prefix_of` before ++ effect (esA ++ esB).
Proof.
intros Hd Hs Hf E Hwf. destruct (split_log esB c rest E) as (es1 & es2 & p & -> & -> & Hp). exists (esA ++ es1), p. split.
- split; [by rewrite wires_app, <- app_assoc|]. rewrite app_assoc in Hwf. apply Forall_app in Hwf as [Hwf1 Hwf2]. split; [done|].
  destruct Hp as [->|(e & es3 & q & -> & Ep & ? & ?)]; [by left|right]. exists e, q. apply Forall_cons in Hwf2 as [? _]. done.
- split; apply prefix_app; [apply effect_app|]. rewrite app_assoc. apply effect_app.
Qed.

Lemma core_store n s d : core n s -> disk_ok d -> acceptable n s d -> core n (set_store d s).
Proof.
intros (Hs & _ & Ht) Hd Hg. split; [done|]. split; [done|]. unfold trace_ok. cbn [set_store trace]. apply Forall_app. split; [done|]. by apply Forall_singleton.
Qed.

Lemma logging_part n s older new before : settled n (aof_manifest s) (store s) older new before -> disk_ok (store s) ->
  writing (log s) (store s) (file_name new) before (flushed s) (db s) ->
  exists es p, holds_part (store s) new es p /\ flushed s `prefix_of` before ++ effect es /\ before ++ effect es `prefix_of` db s.
Proof.
intros Hs Hd (i & off & esA & esB & c & Hn & Hi & [_ _ _ Hb Hwf -> -> _ _]). eapply (part_acceptable n); [done|done| |exact Hb|done].
unfold file_at. rewrite Hn. exact Hi.
Qed.

Lemma logging_acceptable n s : disk_ok (store s) -> logging n s -> acceptable n s (store s).
Proof.
intros Hd (older & new & before & Hs & Hw). destruct (logging_part n s older new before Hs Hd Hw) as (es & p & Hp & Hlo & Hhi). exists (before ++ effect es).
split; [by eapply parked_good|]. unfold promise. intros lo hi E. destruct (aof_state s); try done. by injection E as <- <-.
Qed.

Lemma logging_parked n s : disk_ok (store s) -> logging n s -> parked n s.
Proof.
intros Hd (older & new & before & Hs & Hw). destruct (logging_part n s older new before Hs Hd Hw) as (es & p & Hp & _). by exists older, new, before, es, p.
Qed.

Lemma parked_fine n s : disk_ok (store s) -> parked n s -> exists got, good n (store s) got.
Proof. intros Hd (older & new & before & es & p & Hs & Hp). eexists. by eapply parked_good. Qed.

(** ** Changes of other files *)

Lemma live_split am older new : incr_aof_list am = older ++ [new] -> live am = (option_list (base_aof_info am) ++ older) ++ [new].
Proof. intros E. unfold live. by rewrite E, app_assoc. Qed.

Lemma settled_same n am d d' older new before : settled n am d older new before -> manifest_file d' = manifest_file d ->
  (forall ai, In ai (option_list (base_aof_info am) ++ older) -> same_file d d' (file_name ai)) -> settled n am d' older new before.
Proof. intros (H1 & H2 & H3 & am_d & H4 & H5) Em Hsame. do 2 (split; [done|]). split; [rewrite <- H3; by apply loads_same|]. exists am_d. by rewrite Em. Qed.

Lemma holds_same d d' new es p : holds_part d new es p -> same_file d d' (file_name new) -> holds_part d' new es p.
Proof. intros (H1 & H2 & H3) Hs. split; [|done]. rewrite <- H1. by apply file_same. Qed.

Lemma writing_same l d d' name before fl data : writing l d name before fl data -> same_file d d' name -> writing l d' name before fl data.
Proof. intros (i & off & esA & esB & c & Hn & Hi & Hw) [Hn' Hi']. exists i, off, esA, esB, c. by rewrite Hn', (Hi' i Hn). Qed.

Lemma live_older am older new ai : incr_aof_list am = older ++ [new] -> In ai (option_list (base_aof_info am) ++ older) -> In ai (live am).
Proof. intros E Hi. rewrite (live_split am older new E), in_app_iff. by left. Qed.

Lemma live_new am older new : incr_aof_list am = older ++ [new] -> In new (live am).
Proof. intros E. rewrite (live_split am older new E), in_app_iff. right. by left. Qed.

Lemma up_store n s d : up n s -> disk_ok d -> manifest_file d = manifest_file (store s) -> (forall ai, In ai (live (aof_manifest s)) -> same_file (store s) d (file_name ai)) ->
  up n (set_store d s).
Proof.
intros (Hc & (older & new & before & Hs & Hw) & Hf) Hd Em Hsame. pose proof Hs as (E & _). assert (logging n (set_store d s)) as Hl'.
{ exists older, new, before. cbn [set_store aof_manifest log store flushed db]. split; [apply (settled_same n _ (store s)); [done..|]; intros ai Hi; apply Hsame; by eapply live_older|].
  eapply writing_same; [done|]. apply Hsame. by eapply live_new. }
split; [|split; [done|]].
- apply core_store; [done..|]. by apply (logging_acceptable n (set_store d s)).
- intros x older1 new1 Ec E1. cbn [set_store aof_manifest child store] in *. rewrite <- (Hf x older1 new1 Ec E1). apply loads_same. intros ai Hi. apply Hsame. by eapply live_older.
Qed.

Lemma parked_store n s d : parked n s -> manifest_file d = manifest_file (store s) -> (forall ai, In ai (live (aof_manifest s)) -> same_file (store s) d (file_name ai)) -> parked n (set_store d s).
Proof.
intros (older & new & before & es & p & Hs & Hp) Em Hsame. pose proof Hs as (E & _). exists older, new, before, es, p. cbn [set_store aof_manifest store].
split; [apply (settled_same n _ (store s)); [done..|]; intros ai Hi; apply Hsame; by eapply live_older|]. eapply holds_same; [done|]. apply Hsame. by eapply live_new.
Qed.

Lemma core_parked n s d : aof_state s <> AOF_ON -> core n s -> disk_ok d -> parked n (set_store d s) -> core n (set_store d s).
Proof.
intros Hst Hc Hd Hp. apply core_store; [done..|]. destruct (parked_fine n (set_store d s) Hd Hp) as [got Hg]. by apply (parked_acceptable n s d got).
Qed.

Lemma quiet_store n s d : quiet n s -> disk_ok d -> manifest_file d = manifest_file (store s) -> (forall ai, In ai (live (aof_manifest s)) -> same_file (store s) d (file_name ai)) ->
  same_file (store s) d (getTempIncrAofName fn) -> quiet n (set_store d s).
Proof.
intros (Hc & Hp & Hb & Hw) Hd Em Hsame Ht. pose proof (parked_store n s d Hp Em Hsame) as Hp'.
split; [apply core_parked; [|done..]; intros E; by rewrite E in Hw|]. split; [done|]. split; [done|]. cbn [set_store aof_state child]. destruct (aof_state s) eqn:E; [done..|].
intros x Ex. eapply writing_same; [by apply Hw|done].
Qed.

(** ** Commands *)

(** The text of a command: a SELECT when the database changes. *)
Definition items_of (sel : Z) (o : op) : list item := (if o.1 =? sel then [] else [Sel o.1]) ++ [Cmd o.2].
Fixpoint all_items (sel : Z) (ops : batch) : list item := match ops with [] => [] | o :: ops => items_of sel o ++ all_items o.1 ops end.
Definition last_db (sel : Z) (ops : batch) : Z := fold_left (fun _ o => o.1) ops sel.
Definition op_ok (o : op) : Prop := 0 <= o.1 < dbnum /\ ordinary o.2.

Lemma items_of_wf sel o : op_ok o -> Forall item_wf (items_of sel o).
Proof using St. intros [Hdb Ho]. pose proof databases. unfold items_of. destruct (o.1 =? sel); repeat constructor; done || lia || apply Ho. Qed.

Lemma all_items_wf ops : forall sel, Forall op_ok ops -> Forall item_wf (all_items sel ops).
Proof using St. induction ops as [|o ops IH]; intros sel Ho; [constructor|]. apply Forall_cons in Ho as [Ho Hops]. apply Forall_app. split; [by apply items_of_wf|by apply IH]. Qed.

Lemma run_items_app l1 : forall db l2, run_items db (l1 ++ l2) = ((run_items (run_items db l1).1 l2).1, (run_items db l1).2 ++ (run_items (run_items db l1).1 l2).2).
Proof.
induction l1 as [|[db'|argv] l1 IH]; intros db l2; cbn [app run_items]; [cbn [fst snd]; by destruct (run_items db l2)|apply IH|]. rewrite IH. by destruct (run_items db l1).
Qed.

Lemma run_all ops : forall sel db, sel = -1 \/ sel = db -> Forall op_ok ops -> run_items db (all_items sel ops) = (last_db db ops, ops).
Proof.
induction ops as [|[db1 argv] ops IH]; intros sel db Hsel Ho; [done|]. apply Forall_cons in Ho as [[Hdb _] Ho]. cbn [all_items fst]. rewrite run_items_app. unfold items_of. cbn [fst snd] in *.
assert (run_items db ((if db1 =? sel then [] else [Sel db1]) ++ [Cmd argv]) = (db1, [(db1, argv)])) as ->.
{ destruct (Z.eqb_spec db1 sel) as [->|]; [|done]. destruct Hsel as [->| ->]; [lia|done]. }
cbn [fst snd]. rewrite (IH db1 db1) by auto. done.
Qed.

Lemma run_plains items : forall db, run_entries db (map Plain items) = ((run_items db items).1, (fun o => [o]) <$> (run_items db items).2).
Proof. induction items as [|[db'|argv] items IH]; intros db; cbn [map run_entries run_entry run_items]; [done|by rewrite IH|]. rewrite IH. by destruct (run_items db items). Qed.

Lemma plain_wires items : wires (map Plain items) = items_wire items.
Proof. unfold wires, items_wire. by rewrite map_map. Qed.

Lemma cat_select_eq buf db : cat_select buf db = buf ++ wire (item_argv (Sel db)).
Proof. reflexivity. Qed.

(** Text and a database are added to the state of the log. *)
Definition appending s : bool := match aof_state s, child s with AOF_ON, _ | AOF_WAIT_REWRITE, Some _ => true | _, _ => false end.
Definition appended (a : bool) (b : bytes) (sel : Z) (l : log_state) : log_state := with_selected sel (if a then with_buf (aof_buf l ++ b) l else l).

Lemma appended_twice a b1 b2 sel1 sel2 l : appended a b2 sel2 (appended a b1 sel1 l) = appended a (b1 ++ b2) sel2 l.
Proof. unfold appended. destruct a; [|done]. cbn. by rewrite <- app_assoc. Qed.

Lemma feed_op now o s : op_ok o -> feedAppendOnlyFile now o.1 o.2 s = inr (set_log (appended (appending s) (items_wire (items_of (aof_selected_db (log s)) o)) o.1 (log s)) s).
Proof using St.
intros [Hdb _]. unfold feedAppendOnlyFile. rewrite (proj2 (Z.eqb_neq o.1 (-1))), (proj2 (Z.leb_le 0 _)), (proj2 (Z.ltb_lt _ _)), no_timestamps by lia.
cbn [orb andb negb assert mbind result_bind mret result_ret]. fold (appending s). unfold items_of, items_wire. destruct (Z.eqb_spec o.1 (aof_selected_db (log s))) as [E|_]; cbn [negb app map concat item_argv].
- rewrite app_nil_r. unfold appended. rewrite E. unfold wire. do 2 f_equal. destruct (appending s), (log s); done.
- rewrite wire_cat, cat_select_eq, app_nil_r. cbn [app]. unfold appended. do 2 f_equal. destruct (appending s), (log s); done.
Qed.

Lemma feed_control now argv s : feedAppendOnlyFile now (-1) argv s = inr (set_log (appended (appending s) (wire argv) (aof_selected_db (log s)) (log s)) s).
Proof using St.
unfold feedAppendOnlyFile. rewrite no_timestamps. cbn [Z.eqb orb andb negb assert mbind result_bind mret result_ret Pos.eqb]. fold (appending s). unfold appended, wire.
do 2 f_equal. destruct (appending s), (log s); done.
Qed.

Lemma propagate_on now s o : aof_state s <> AOF_OFF -> propagateNow now s o = feedAppendOnlyFile now o.1 o.2 s.
Proof. intros Hst. unfold propagateNow. by destruct (aof_state s). Qed.

Lemma feed_ops now ops : forall s, aof_state s <> AOF_OFF -> Forall op_ok ops ->
  for_each (propagateNow now) s ops =
    inr (set_log (appended (appending s) (items_wire (all_items (aof_selected_db (log s)) ops)) (last_db (aof_selected_db (log s)) ops) (log s)) s).
Proof using St.
induction ops as [|o ops IH]; intros s Hst Ho; cbn [for_each all_items last_db fold_left].
- unfold appended, items_wire. cbn [map concat]. rewrite app_nil_r. unfold mret, result_ret. f_equal. destruct s as [st l]. cbn [set_log log]. destruct (appending _), l; done.
- apply Forall_cons in Ho as [Ho Hops]. rewrite propagate_on, feed_op by done. cbn [mbind result_bind]. rewrite IH by done. cbn [set_log log].
  change (aof_selected_db (appended (appending s) _ o.1 (log s))) with o.1. change (appending (set_log _ s)) with (appending s).
  rewrite appended_twice, items_wire_app. done.
Qed.

(** The entries of what was executed. *)
Definition executed (arbitrary : bool) (ops : batch) : dataset := if transaction arbitrary ops then [ops] else (fun o => [o]) <$> ops.
Definition entries_of (arbitrary : bool) (sel : Z) (ops : batch) : list entry := if transaction arbitrary ops then [Trans (all_items sel ops)] else map Plain (all_items sel ops).

Lemma execute_ok now arbitrary ops s : aof_state s <> AOF_OFF -> ops <> [] -> Forall op_ok ops ->
  let sel := aof_selected_db (log s) in
  execute now arbitrary ops s = inr (set_log (appended (appending s) (wires (entries_of arbitrary sel ops)) (last_db sel ops) (log s)) (set_db (db s ++ executed arbitrary ops) s)).
Proof using St.
intros Hst Hne Ho sel. unfold execute, propagatePendingCommands. rewrite bool_decide_false by done. fold (executed arbitrary ops). unfold entries_of. set (s0 := set_db _ s).
destruct (transaction arbitrary ops).
- rewrite propagate_on, feed_control by done. cbn [mbind result_bind]. rewrite feed_ops by done. cbn [mbind result_bind]. rewrite propagate_on, feed_control by done. cbn [set_log log].
  change (appending (set_log _ _)) with (appending s). change (appending s0) with (appending s). change (aof_selected_db (appended _ _ ?x _)) with x.
  rewrite !appended_twice. unfold wires. cbn [map concat entry_wire]. by rewrite app_nil_r.
- cbn [mbind result_bind mret result_ret]. rewrite feed_ops by done. cbn [mbind result_bind mret result_ret]. by rewrite plain_wires.
Qed.

Lemma entries_of_run arbitrary sel ops db : sel = -1 \/ sel = db -> ops <> [] -> Forall op_ok ops ->
  run_entries db (entries_of arbitrary sel ops) = (last_db sel ops, executed arbitrary ops) /\ Forall entry_wf (entries_of arbitrary sel ops) /\ wires (entries_of arbitrary sel ops) <> [].
Proof using St.
intros Hsel Hne Ho. pose proof (run_all ops sel db Hsel Ho) as Hr. pose proof (all_items_wf ops sel Ho) as Hwf.
assert (last_db db ops = last_db sel ops) as El by (by destruct ops as [|o ops]). unfold entries_of, executed. destruct (transaction arbitrary ops).
- cbn [run_entries run_entry]. rewrite Hr, El. split; [done|]. split; [by repeat constructor|]. unfold wires. cbn [map concat]. destruct (entry_head (Trans (all_items sel ops))) as [? ->]. done.
- rewrite run_plains, Hr, El. split; [done|]. split; [by apply Forall_map|]. rewrite plain_wires. destruct ops as [|o ops]; [done|]. cbn [all_items]. unfold items_of, items_wire.
  destruct (o.1 =? sel); cbn [app map concat]; by rewrite wire_eq.
Qed.

Lemma writes_more i off esA esB c w l before fl data arbitrary ops : ops <> [] -> Forall op_ok ops -> writes i off esA esB c w l before fl data ->
  let es := entries_of arbitrary (aof_selected_db l) ops in
  writes i off esA (esB ++ es) c w (appended true (wires es) (last_db (aof_selected_db l) ops) l) before fl (data ++ executed arbitrary ops).
Proof using St.
intros Hne Ho [H1 H2 H3 H4 H5 H6 H7 H8 H9] es. destruct (entries_of_run arbitrary _ ops _ H8 Hne Ho) as (Hr & Hwf & Ht). fold es in Hr, Hwf, Ht.
split; cbn [appended with_selected with_buf aof_fd aof_last_incr_size aof_buf aof_selected_db]; try done.
- by rewrite app_assoc, H4, wires_app.
- rewrite app_assoc. by apply Forall_app.
- rewrite H7, <- app_assoc. f_equal. unfold effect. rewrite app_assoc, (run_entries_app (esA ++ esB)), Hr. done.
- right. by rewrite app_assoc, run_entries_app, Hr.
- by intros [_ ?]%app_eq_nil.
Qed.

Lemma writing_more l d name before fl data arbitrary ops : ops <> [] -> Forall op_ok ops -> writing l d name before fl data ->
  writing (appended true (wires (entries_of arbitrary (aof_selected_db l) ops)) (last_db (aof_selected_db l) ops) l) d name before fl (data ++ executed arbitrary ops).
Proof using St.
intros Hne Ho (i & off & esA & esB & c & Hn & Hi & Hw). eexists i, off, esA, _, c. split; [done|]. split; [done|]. by apply (writes_more _ _ _ _ _ _ _ _ _ _ arbitrary ops) in Hw.
Qed.

Lemma execute_off now arbitrary ops s : aof_state s = AOF_OFF -> execute now arbitrary ops s = inr (set_db (db s ++ executed arbitrary ops) s).
Proof.
intros Est. unfold execute, propagatePendingCommands. fold (executed arbitrary ops). destruct (bool_decide (ops = [])); [done|].
assert (forall s0 o, aof_state s0 = AOF_OFF -> propagateNow now s0 o = inr s0) as Hp by (intros s0 o E; unfold propagateNow; by rewrite E).
assert (forall s0, aof_state s0 = AOF_OFF -> for_each (propagateNow now) s0 ops = inr s0) as Hf by (intros s0 E; induction ops as [|o ops IH]; [done|]; cbn [for_each]; by rewrite Hp).
destruct (transaction arbitrary ops); rewrite ?Hp by done; cbn [mbind result_bind mret result_ret]; rewrite Hf by done; cbn [mbind result_bind]; [by rewrite Hp|done].
Qed.

Lemma inv_execute n s now arbitrary ops : Forall op_ok ops -> inv n s -> exists s', execute now arbitrary ops s = inr s' /\ inv n s'.
Proof using St.
intros Ho Hi. destruct (decide (ops = [])) as [->|Hne].
{ exists s. split; [|done]. unfold execute, propagatePendingCommands. cbn. rewrite app_nil_r. by destruct s. }
destruct (decide (aof_state s = AOF_OFF)) as [Est|Hst].
{ eexists. split; [by apply execute_off|]. unfold inv, quiet in *. cbn [set_db aof_state child]. rewrite Est in *. exact Hi. }
rewrite execute_ok by done. eexists. split; [done|]. unfold inv in *. cbn [set_log set_db aof_state]. unfold appending. destruct (aof_state s) eqn:Est; [done| |].
- destruct Hi as (Hc & (older & new & before & Hs & Hw) & Hf). split; [exact Hc|]. split; [|exact Hf]. exists older, new, before. split; [exact Hs|]. by apply writing_more.
- destruct Hi as (Hc & Hp & Hb & Hw). rewrite Est in Hw. split; [exact Hc|]. split; [exact Hp|]. cbn [set_log set_db aof_state child log]. rewrite Est. destruct (child s) as [x|] eqn:Ec.
  + split; [done|]. intros y Ey. cbn [set_log set_db child] in Ey. rewrite Ec in Ey. injection Ey as <-. apply writing_more; auto.
  + split; [exact Hb|]. intros y Ey. cbn [set_log set_db child] in Ey. congruence.
Qed.

(** ** Flushing *)

(** What the log is about. *)
Record same_log (l l' : log_state) : Prop := {
  same_fd : aof_fd l' = aof_fd l;
  same_buf : aof_buf l' = aof_buf l;
  same_size : aof_last_incr_size l' = aof_last_incr_size l;
  same_selected : aof_selected_db l' = aof_selected_db l;
}.
Record same_server s s' : Prop := {
  same_state : aof_state s' = aof_state s;
  same_names : aof_manifest s' = aof_manifest s;
  same_child : child s' = child s;
  same_db : db s' = db s;
}.

Lemma writes_same i off esA esB c w l l' before fl data : same_log l l' -> writes i off esA esB c w l before fl data -> writes i off esA esB c w l' before fl data.
Proof. intros [E1 E2 E3 E4] [H1 H2 H3 H4 H5 H6 H7 H8 H9]. split; rewrite ?E1, ?E2, ?E3, ?E4; done. Qed.

Lemma try_fsync_same w s : exists run l, try_fsync w s = (run, set_log l s) /\ same_log (log s) l.
Proof.
unfold try_fsync. assert (set_log (log s) s = s) as Es by (by destruct s). destruct (no_fsync w); [exists true, (log s); by rewrite Es|].
destruct (always w); [destruct (fsyncs w); [by eexists true, _|exists false, (log s); by rewrite Es]|].
destruct (everysec w && _); [|exists true, (log s); by rewrite Es]. eexists true, _. split; [reflexivity|]. by destruct (fsync_in_progress w).
Qed.

(** The descriptor is behind the last byte. *)
Definition at_end s : bool :=
  match aof_fd (log s) with
  | Some (mk_descriptor i (Some off)) => match log_at (store s) i with Some b => (off =? length b)%nat | None => false end
  | _ => true
  end.

Lemma put_again i x y d : put_content i y (put_content i x d) = put_content i y d.
Proof. unfold put_content. cbn. by rewrite insert_insert_eq. Qed.

Lemma put_id i x d : inodes d !! i = Some x -> put_content i x d = d.
Proof. intros E. unfold put_content. rewrite insert_id by done. by destruct d. Qed.

Lemma log_at_put i b d : log_at (put_content i (Log b) d) i = Some b.
Proof. unfold log_at. cbn [put_content inodes]. by rewrite lookup_insert_eq. Qed.

Lemma trace_store n s d : trace_ok n s -> acceptable n s d -> trace_ok n (set_store d s).
Proof. intros Ht Ha. unfold trace_ok. cbn [set_store trace]. apply Forall_app. split; [done|]. by apply Forall_singleton. Qed.

Section Flush.
Context (n : Z) (d0 : disk) (i : nat) (esA esB : list entry) (c : bytes) (before fl data : dataset).

(** The file with [w] of the buffer. *)
Definition with_part (w : bytes) : disk := put_content i (Log (wires esA ++ c ++ w)) d0.
Definition midway (off : option nat) (w : bytes) s : Prop := writes i off esA esB c w (log s) before fl data /\ store s = with_part w /\ trace_ok n s.

Lemma write_log_ok off w x s : midway off w s -> acceptable n s (with_part (w ++ x)) ->
  exists off' s', write_log x s = inr s' /\ midway off' (w ++ x) s' /\ same_server s s' /\ flushed s' = flushed s /\ log s' = with_fd (aof_fd (log s')) (log s).
Proof.
intros ([H1 H2 H3 H4 H5 H6 H7 H8 H9] & Es & Ht) Ha. unfold write_log, write. rewrite H1. cbn [the mbind result_bind inode]. rewrite Es.
assert (log_at (with_part w) i = Some (wires esA ++ c ++ w)) as -> by apply log_at_put.
cbn [the mbind result_bind mret result_ret offset]. set (b := wires esA ++ c ++ w) in *. assert (b ++ x = wires esA ++ c ++ w ++ x) as Eb by (unfold b; by rewrite <- !app_assoc).
assert (match off with Some o => (mk_descriptor i (Some (o + length x)%nat), put_content i (Log (overwrite o x b)) (with_part w)) | None => (mk_descriptor i off, put_content i (Log (b ++ x)) (with_part w)) end
  = (mk_descriptor i (match off with Some o => Some (o + length x)%nat | None => None end), with_part (w ++ x))) as ->.
{ unfold with_part. rewrite <- Eb. destruct H2 as [->| ->]; rewrite put_again; [done|]. unfold overwrite. rewrite take_ge, Nat.sub_diag, drop_ge by lia. cbn [replicate app]. by rewrite app_nil_r. }
eexists _, _. split; [done|]. cbn [set_store set_log log with_fd aof_fd]. split; [|by split]. split; [|split; [done|by apply trace_store]].
split; cbn [set_store set_log log with_fd aof_fd aof_last_incr_size aof_buf aof_selected_db]; try done. destruct H2 as [->| ->]; [by left|right]. rewrite <- Eb, length_app. done.
Qed.

Lemma aofWrite_ok rs : forall rest w off s, midway off w s -> aof_buf (log s) = w ++ rest ->
  (forall w', w' `prefix_of` aof_buf (log s) -> acceptable n s (with_part w')) ->
  exists nw s' w' off', aofWrite rs rest (len_ w) s = inr (nw, s') /\ midway off' w' s' /\ w' `prefix_of` aof_buf (log s) /\ (nw = len_ w' \/ nw = -1 /\ w' = []) /\
    same_server s s' /\ flushed s' = flushed s /\ log s' = with_fd (aof_fd (log s')) (log s).
Proof.
assert (forall s, log s = with_fd (aof_fd (log s)) (log s)) as Hid by (intros s; by destruct (log s)).
induction rs as [|r rs IH]; intros rest w off s Hm Eb Ha.
{ destruct rest as [|x rest]; [exists (len_ w), s, w, off; rewrite app_nil_r in Eb; split; [done|]; split; [done|]; split; [by rewrite Eb|]; split; [by left|]; split; [by split|]; split; [done|apply Hid]|].
  cbn [aofWrite]. destruct (write_log_ok off w (x :: rest) s Hm) as (off' & s' & -> & Hm' & Hs & Hf & Hl); [apply Ha; by rewrite Eb|]. cbn [mbind result_bind].
  eexists _, s', (w ++ x :: rest), off'. split; [done|]. split; [done|]. split; [by rewrite Eb|]. split; [left; rewrite length_app; lia|done]. }
destruct rest as [|x rest]; [exists (len_ w), s, w, off; rewrite app_nil_r in Eb; split; [by destruct r|]; split; [done|]; split; [by rewrite Eb|]; split; [by left|]; split; [by split|]; split; [done|apply Hid]|].
cbn [aofWrite]. destruct r as [k| |].
- destruct (write_log_ok off w (take k (x :: rest)) s Hm) as (off' & s' & -> & Hm' & Hs & Hf & Hl).
  { apply Ha. rewrite Eb. apply prefix_app. exists (drop k (x :: rest)). by rewrite take_drop. }
  cbn [mbind result_bind]. replace (len_ w + len_ (take k (x :: rest))) with (len_ (w ++ take k (x :: rest))) by (rewrite length_app; lia).
  assert (aof_buf (log s') = aof_buf (log s)) as Eb' by (by rewrite Hl).
  destruct (IH (drop k (x :: rest)) (w ++ take k (x :: rest)) off' s' Hm') as (nw & s2 & w2 & off2 & -> & Hm2 & Hp2 & Hn2 & Hs2 & Hf2 & Hl2).
  + by rewrite Eb', Eb, <- app_assoc, take_drop.
  + intros w' Hw'. destruct (Ha w') as (got & Hg & Hpr); [by rewrite <- Eb'|]. exists got. split; [done|]. unfold promise in *. by rewrite (same_state _ _ Hs), Hf, (same_db _ _ Hs).
  + exists nw, s2, w2, off2. split; [done|]. split; [done|]. split; [by rewrite <- Eb'|]. split; [done|]. split; [destruct Hs, Hs2; split; congruence|]. split; [congruence|].
    rewrite Hl2, Hl. done.
- by apply (IH (x :: rest) w off).
- exists (if len_ w =? 0 then -1 else len_ w), s, w, off. split; [done|]. split; [done|]. split; [by rewrite Eb; eexists|].
  split; [destruct (Z.eqb_spec (len_ w) 0) as [E|]; [right; split; [done|]; apply nil_length_inv; lia|by left]|]. split; [by split|]. split; [done|apply Hid].
Qed.

(** What a flush leaves: a part of the buffer is in the file, and the rest of it in the buffer
    again, unless the descriptor is not at the end. *)
Definition flush_end s run s' : Prop :=
  trace_ok n s' /\ same_server s s' /\ (exists w, w `prefix_of` aof_buf (log s) /\ store s' = with_part w) /\ aof_selected_db (log s') = aof_selected_db (log s) /\
  (run = true -> aof_buf (log s) = [] \/ at_end s' = true -> exists off esA' esB' c', inodes (store s') !! i = Some (Log (wires esA' ++ c')) /\ writes i off esA' esB' c' [] (log s') before (flushed s') (db s')).

Lemma at_end_off s off b : aof_fd (log s) = Some (mk_descriptor i off) -> log_at (store s) i = Some b -> at_end s = true -> off = None \/ off = Some (length b).
Proof. intros Ef El Ha. unfold at_end in Ha. rewrite Ef in Ha. destruct off as [off|]; [right|by left]. rewrite El in Ha. f_equal. by apply Nat.eqb_eq. Qed.

(** The end of a flush, whether the process exits or not. *)
Ltac flush_ends Hsame w :=
  eexists _, _; (split; [done|]); (split; [done|]); (split; [by destruct Hsame; split|]); (split; [exists w; split; [done || apply prefix_nil|done]|]); (split; [done|]); try done; intros _.

Lemma write_failed_ok io s0 s nw off w : aof_buf (log s0) <> [] -> midway off w s -> w `prefix_of` aof_buf (log s0) -> same_server s0 s -> flushed s = fl -> db s = data -> aof_buf (log s) = aof_buf (log s0) ->
  aof_selected_db (log s) = aof_selected_db (log s0) -> acceptable n s (with_part []) -> (nw = len_ w /\ nw <> len_ (aof_buf (log s)) \/ nw = -1 /\ w = []) ->
  exists run s', write_failed io nw s = inr (run, s') /\ flush_end s0 run s'.
Proof.
intros Hne0 (Hw & Es & Ht) Hpre Hsame Ef Ed Eb Esel Ha Hnw. pose proof Hw as [H1 H2 H3 H4 H5 H6 H7 H8 H9]. unfold write_failed. destruct (Z.eqb_spec nw (-1)) as [Enw|Hnw1].
- destruct Hnw as [[? _]|[_ ->]]; [lia|]. cbn [mbind result_bind mret result_ret]. rewrite Enw. change (0 <? -1) with false. cbn iota.
  destruct (always io); flush_ends Hsame (@nil Z). intros _.
  cbn [set_log log store flushed db]. exists off, esA, esB, c. rewrite Es, Ef, Ed. split; [cbn [with_part put_content inodes]; by rewrite lookup_insert_eq, app_nil_r|]. by eapply writes_same.
- destruct Hnw as [[-> Hne]|[? _]]; [|done]. destruct (ftruncates io).
  + rewrite H1. cbn [the mbind result_bind inode]. unfold ftruncate. rewrite Es. assert (log_at (with_part w) i = Some (wires esA ++ c ++ w)) as -> by apply log_at_put.
    cbn [the mbind result_bind mret result_ret]. rewrite H3, (app_assoc (wires esA) c w), take_app_length, (length_app (wires esA ++ c) w), (proj2 (Nat.sub_0_le _ _)) by lia. cbn [replicate]. rewrite app_nil_r. unfold with_part. rewrite put_again.
    assert (put_content i (Log (wires esA ++ c)) d0 = with_part []) as -> by (unfold with_part; by rewrite app_nil_r). pose proof (trace_store n s _ Ht Ha) as Ht'.
    change (0 <? -1) with false. cbn iota. destruct (always io); flush_ends Hsame (@nil Z). intros [?|Hend]; [done|]. cbn [set_store set_log log store flushed db] in *.
    assert (off = None \/ off = Some (length (wires esA ++ c))) as Hoff by (eapply at_end_off; [| |exact Hend]; [exact H1|]; cbn [set_store set_log store]; rewrite <- (app_nil_r c); apply log_at_put).
    exists off, esA, esB, c. rewrite Ef, Ed. split; [cbn [with_part put_content inodes]; by rewrite lookup_insert_eq, app_nil_r|]. split; cbn; try done. by rewrite app_nil_r.
  + cbn [mbind result_bind mret result_ret]. destruct (Z.ltb_spec 0 (len_ w)) as [_|Hw0].
    2:{ assert (w = []) as -> by (apply nil_length_inv; lia). destruct (always io); flush_ends Hsame (@nil Z). intros _. cbn [set_log log store flushed db]. exists off, esA, esB, c. rewrite Es, Ef, Ed.
        split; [cbn [with_part put_content inodes]; by rewrite lookup_insert_eq, app_nil_r|]. by eapply writes_same. }
    destruct (always io); flush_ends Hsame w. intros _.
    cbn [set_log log store flushed db with_status with_size with_buf aof_buf aof_last_incr_size]. destruct Hpre as [rest Er]. rewrite Nat2Z.id, Eb, Er, drop_app_length.
    exists off, esA, esB, (c ++ w). rewrite Es, Ef, Ed. split; [cbn [with_part put_content inodes]; by rewrite lookup_insert_eq|].
    split; cbn [with_status with_size with_buf aof_fd aof_buf aof_last_incr_size aof_selected_db]; try done.
    * by rewrite app_nil_r.
    * by rewrite H3, <- length_app, <- app_assoc.
    * rewrite <- app_assoc, <- Er, <- Eb. done.
    * intros ->. rewrite app_nil_r in Er. by rewrite Eb, Er in Hne.
Qed.

(** Nothing is written. *)
Lemma unwritten s l off : midway off [] s -> same_log (log s) l -> flushed s = fl -> db s = data -> flush_end s true (set_log l s).
Proof.
intros (Hw & Es & Ht) Hl Ef Ed. split; [done|]. split; [by split|]. split; [exists []; split; [apply prefix_nil|done]|]. split; [apply Hl|]. intros _ _.
exists off, esA, esB, c. cbn [set_log log store flushed db]. rewrite Es, Ef, Ed. split; [cbn [with_part put_content inodes]; by rewrite lookup_insert_eq, app_nil_r|]. by eapply writes_same.
Qed.

Lemma exit_end s0 s run l : flush_end s0 true s -> same_log (log s) l -> flush_end s0 run (set_log l s).
Proof.
intros (H1 & H2 & H3 & H4 & H5) Hl. split; [done|]. split; [by destruct H2; split|]. split; [done|]. split; [rewrite <- H4; apply Hl|]. intros _ Hend.
destruct H5 as (off & eA & eB & c' & Hi & Hw); [done| |].
- destruct Hend as [?|Hend]; [by left|right]. unfold at_end in *. cbn [set_log log store] in Hend. by rewrite (same_fd _ _ Hl) in Hend.
- exists off, eA, eB, c'. split; [done|]. by eapply writes_same.
Qed.

Lemma flush_ok force io s off : midway off [] s -> flushed s = fl -> db s = data -> (forall w, w `prefix_of` aof_buf (log s) -> acceptable n s (with_part w)) ->
  exists run s', flushAppendOnlyFile force io s = inr (run, s') /\ flush_end s run s'.
Proof.
intros Hm Ef Ed Ha. pose proof Hm as ([H1 H2 H3 H4 H5 H6 H7 H8 H9] & Es & Ht). assert (set_log (log s) s = s) as Eid by (by destruct s).
assert (flush_end s true s) as Hsame by (rewrite <- Eid at 2; by eapply unwritten). unfold flushAppendOnlyFile. destruct (bool_decide_reflect (aof_buf (log s) = [])) as [Eb|Hne].
{ destruct (_ || _); [|by exists true, s]. destruct (try_fsync_same io s) as (run & l & -> & Hl). exists run, (set_log l s). split; [done|]. by apply exit_end. }
destruct (negb force && _ && _); [eexists true, _; split; [done|]; by eapply unwritten|]. destruct (negb force && _ && _); [by exists true, s|].
destruct (aofWrite_ok (replies io) (aof_buf (log s)) [] off s Hm eq_refl Ha) as (nw & s1 & w1 & off1 & E & Hm1 & Hp1 & Hnw & Hs1 & Hf1 & Hl1). change (len_ []) with 0 in E. rewrite E. clear E.
cbn [mbind result_bind]. set (s2 := set_log (with_postponed 0 (log s1)) s1). assert (midway off1 w1 s2) as Hm2 by (destruct Hm1 as (? & ? & ?); split; [eapply writes_same; [|eassumption]; by split|done]).
assert (aof_buf (log s1) = aof_buf (log s) /\ aof_selected_db (log s1) = aof_selected_db (log s)) as [Eb1 Esel1] by (by rewrite Hl1).
destruct (Z.eqb_spec nw (len_ (aof_buf (log s)))) as [Efull|Hshort]; cbn [negb].
- assert (w1 = aof_buf (log s)) as ->.
  { destruct Hp1 as [rest Er]. destruct Hnw as [->|[-> _]]; [|lia]. rewrite Er, length_app in Efull. destruct rest; [by rewrite app_nil_r in Er|cbn [length] in Efull; lia]. }
  match goal with |- context [try_fsync io ?x] => destruct (try_fsync_same io x) as (run & l & -> & Hl); assert (flush_end s true x) as Hx; [|exists run, (set_log l x); split; [done|]; by apply exit_end] end.
  destruct Hm2 as (Hw2 & Es2 & Ht2). split; [done|]. split; [destruct Hs1; by split|]. split; [by exists (aof_buf (log s))|]. split; [done|]. intros _ _.
  exists off1, (esA ++ esB), [], []. cbn [set_flushed set_log log store flushed db with_buf with_size with_status]. change (db s2) with (db s1). rewrite Es2, (same_db _ _ Hs1), Ed, app_nil_r.
  assert (wires esA ++ c ++ aof_buf (log s) = wires (esA ++ esB)) as Ew by (by rewrite H4, wires_app).
  split; [cbn [with_part put_content inodes]; by rewrite lookup_insert_eq, Ew|]. destruct Hw2 as [G1 G2 G3 G4 G5 G6 G7 G8 G9].
  split; cbn [aof_fd aof_buf aof_last_incr_size aof_selected_db s2 set_log log with_postponed] in *; rewrite ?app_nil_r; try done.
  + by rewrite Ew in G2.
  + rewrite G3, Efull, Nat2Z.id, <- Ew, <- length_app, <- app_assoc. done.
- destruct (write_failed_ok io s s2 nw off1 w1 Hne Hm2 Hp1) as (run & s' & -> & Hend); [by destruct Hs1; split|by rewrite <- Ef, <- Hf1|by rewrite <- Ed, <- (same_db _ _ Hs1)|done|done| | |by exists run, s'].
  + destruct (Ha [] ltac:(apply prefix_nil)) as (got & Hg & Hpr). exists got. split; [done|]. unfold promise in *. cbn [s2 set_log aof_state flushed db]. by rewrite (same_state _ _ Hs1), Hf1, (same_db _ _ Hs1).
  + cbn [s2 set_log log with_postponed aof_buf]. destruct Hnw as [->|[-> ->]]; [left|by right]. split; [done|]. congruence.
Qed.
End Flush.

(** A file that is written to changes, the others do not. *)
Lemma same_part i esA c w d x : names d !! x <> Some i -> same_file d (with_part d i esA c w) x.
Proof. intros Hx. by apply same_put. Qed.

Lemma start_midway n i off esA esB c s before : inodes (store s) !! i = Some (Log (wires esA ++ c)) -> trace_ok n s -> writes i off esA esB c [] (log s) before (flushed s) (db s) ->
  midway n (store s) i esA esB c before (flushed s) (db s) off [] s.
Proof. intros Hi Ht Hw. split; [done|]. split; [|done]. unfold with_part. rewrite app_nil_r. by rewrite put_id. Qed.

Lemma flush_empty force io s : aof_buf (log s) = [] -> exists run l, flushAppendOnlyFile force io s = inr (run, set_log l s) /\ same_log (log s) l.
Proof.
intros Eb. unfold flushAppendOnlyFile. rewrite bool_decide_true by done. destruct (_ || _).
- destruct (try_fsync_same io s) as (run & l & -> & Hl). by exists run, l.
- exists true, (log s). by destruct s.
Qed.

(** What holds after a flush of the server. *)
Definition flushes (n : Z) s run s' : Prop :=
  trace_ok n s' /\ same_server s s' /\ aof_selected_db (log s') = aof_selected_db (log s) /\ (run = true -> aof_buf (log s) = [] \/ at_end s' = true -> inv n s').

Lemma up_flush n s force io : n < 2 ^ 62 -> aof_state s = AOF_ON -> up n s -> exists run s', flushAppendOnlyFile force io s = inr (run, s') /\ flushes n s run s'.
Proof.
intros Hn Est ((Hsh & Hd & Ht) & (older & new & before & Hs & (i & off & esA & esB & c & Hname & Hi & Hw)) & Hf). pose proof Hs as (E & _).
assert (forall w ai, In ai (option_list (base_aof_info (aof_manifest s)) ++ older) -> same_file (store s) (with_part (store s) i esA c w) (file_name ai)) as Hsame.
{ intros w ai Hin. apply same_part. intros En. apply (last_free n _ Hn Hsh older new ai E Hin). by apply (proj1 Hd _ _ i). }
assert (forall w, settled n (aof_manifest s) (with_part (store s) i esA c w) older new before) as Hset by (intros w; apply (settled_same n _ (store s)); [done..|]; apply Hsame).
assert (forall w, disk_ok (with_part (store s) i esA c w)) as Hdk by (intros w; by apply disk_ok_put).
destruct (flush_ok n (store s) i esA esB c before (flushed s) (db s) force io s off (start_midway n i off esA esB c s before Hi Ht Hw) eq_refl eq_refl) as (run & s' & E' & Hend).
- intros w [rest Er]. destruct Hw as [_ _ _ Hb Hwf Ef Ed _ _].
  destruct (part_acceptable n _ _ older new before esA esB (c ++ w) rest (Hdk w) (Hset w)) as (es & p & Hp & Hlo & Hhi); [by apply file_put_same|by rewrite <- app_assoc, <- Er|done|].
  exists (before ++ effect es). split; [by eapply parked_good|]. unfold promise. rewrite Est. intros lo hi [= <- <-]. by rewrite Ef, Ed.
- exists run, s'. split; [done|]. destruct Hend as (Ht' & Hsv & (w & _ & Es') & Esel & Hfin). split; [done|]. split; [done|]. split; [done|]. intros Hrun Hend.
  destruct Hfin as (off' & eA & eB & c' & Hi' & Hw'); [done..|]. unfold inv. rewrite (same_state _ _ Hsv), Est. split; [|split].
  + split; [by rewrite (same_names _ _ Hsv)|]. split; [|done]. rewrite Es'. apply Hdk.
  + exists older, new, before. rewrite (same_names _ _ Hsv). split; [rewrite Es'; apply Hset|]. exists i, off', eA, eB, c'. split; [by rewrite Es'|done].
  + intros x older1 new1 Ec E1. rewrite (same_names _ _ Hsv) in *. rewrite (same_child _ _ Hsv) in Ec. rewrite <- (Hf x older1 new1 Ec E1), Es'. rewrite E in E1. apply app_inj_tail in E1 as [<- <-].
    apply loads_same. apply Hsame.
Qed.

Lemma quiet_flush n s force io : n < 2 ^ 62 -> quiet n s -> exists run s', flushAppendOnlyFile force io s = inr (run, s') /\ flushes n s run s'.
Proof.
intros Hn Hq. pose proof Hq as (Hc & Hp & Hb & Hw). assert (aof_state s <> AOF_ON) as Hst by (intros E; by rewrite E in Hw). destruct (child s) as [x|] eqn:Ec.
2:{ destruct (flush_empty force io s (Hb eq_refl)) as (run & l & -> & Hl). exists run, (set_log l s). split; [done|]. split; [apply Hc|]. split; [by split|]. split; [apply Hl|]. intros _ _.
  assert (quiet n (set_log l s)) as Hq'.
  { split; [exact Hc|]. split; [exact Hp|]. split; [intros _; cbn; rewrite (same_buf _ _ Hl); auto|]. cbn [set_log aof_state child]. destruct (aof_state s); try done. intros y Ey. cbn in Ey. congruence. }
  unfold inv. cbn [set_log aof_state]. by destruct (aof_state s). }
destruct (aof_state s) eqn:Est; [congruence|done|]. destruct (Hw x Ec) as (i & off & esA & esB & c & Hname & Hi & Hwr). destruct Hc as (Hsh & Hd & Ht).
assert (forall w ai, In ai (live (aof_manifest s)) -> same_file (store s) (with_part (store s) i esA c w) (file_name ai)) as Hsame.
{ intros w ai Hin. apply same_part. intros En. apply (temp_free n _ Hsh ai Hin). by apply (proj1 Hd _ _ i). }
assert (forall w, disk_ok (with_part (store s) i esA c w)) as Hdk by (intros w; by apply disk_ok_put).
destruct (flush_ok n (store s) i esA esB c x (flushed s) (db s) force io s off (start_midway n i off esA esB c s x Hi Ht Hwr) eq_refl eq_refl) as (run & s' & E' & Hend).
- intros w _. destruct (parked_fine n (set_store (with_part (store s) i esA c w) s)) as [got Hg]; [apply Hdk|apply parked_store; [done..|]; apply Hsame|].
  apply (parked_acceptable n s _ got); [congruence|done].
- exists run, s'. split; [done|]. destruct Hend as (Ht' & Hsv & (w & _ & Es') & Esel & Hfin). split; [done|]. split; [done|]. split; [done|]. intros Hrun Hend.
  destruct Hfin as (off' & eA & eB & c' & Hi' & Hw'); [done..|]. unfold inv. rewrite (same_state _ _ Hsv), Est. split; [|split; [|split]].
  + split; [by rewrite (same_names _ _ Hsv)|]. split; [|done]. rewrite Es'. apply Hdk.
  + destruct (parked_store n s (with_part (store s) i esA c w) Hp eq_refl (Hsame w)) as (older & new & before & es & p & Hs1 & Hs2). exists older, new, before, es, p.
    rewrite (same_names _ _ Hsv), Es'. done.
  + rewrite (same_child _ _ Hsv). congruence.
  + rewrite (same_state _ _ Hsv), Est. intros y Ey. rewrite (same_child _ _ Hsv), Ec in Ey. injection Ey as <-. exists i, off', eA, eB, c'. split; [by rewrite Es'|done].
Qed.

Lemma inv_flush n s force io : n < 2 ^ 62 -> inv n s -> exists run s', flushAppendOnlyFile force io s = inr (run, s') /\ flushes n s run s'.
Proof. intros Hn Hi. unfold inv in Hi. destruct (aof_state s) eqn:Est; [by apply quiet_flush|by apply up_flush|by apply quiet_flush]. Qed.
End Crash.
