(* ===== verification/AofRewrite.v ===== *)
(** * Append only files: rewriting and starting

    Opening a new incremental file, forking a child, replacing the manifest when it is done and
    deleting what it has made obsolete keep the invariant of [AofCrash].  A process that loads a
    directory and goes on with it has the invariant again. *)

From S2P Require Import Prelude Bytes NumString NumStringFacts SdsText SdsEdit SdsQuote AofManifest AofManifestFacts AofLog AofLogFacts AofServer AofDisk AofCrash.

Section Rewrite.
Context `{cf : Config} (fn : bytes) (rdb : bool) `{St : !Setting fn}.
Implicit Types (d : disk) (am : aofManifest) (ai : aofInfo) (s : server).

#[local] Notation shape := (shape fn rdb).
#[local] Notation settled := (settled fn rdb).
#[local] Notation good := (good fn rdb).
#[local] Notation acceptable := (acceptable fn rdb).
#[local] Notation trace_ok := (trace_ok fn rdb).
#[local] Notation core := (core fn rdb).
#[local] Notation logging := (logging fn rdb).
#[local] Notation parked := (parked fn rdb).
#[local] Notation up := (up fn rdb).
#[local] Notation quiet := (quiet fn rdb).
#[local] Notation inv := (inv fn rdb).
#[local] Notation waiting_ok := (waiting_ok fn).

(** ** A new manifest *)

Lemma persist_logging n s am older new before l : core n s -> shape n am -> base_aof_info am <> None -> incr_aof_list am = older ++ [new] ->
  loads (store s) (option_list (base_aof_info am) ++ older) = Some before -> writing l (store s) (file_name new) before (flushed s) (db s) ->
  let s' := set_manifest (set_dirty false am) (set_log l (set_store (put_manifest (getAofManifestAsString am) (store s)) s)) in core n s' /\ logging n s'.
Proof.
intros Hc Hs Hb Ei Hl Hw s'. pose proof Hc as (_ & Hd & _). assert (shape n (set_dirty false am)) as Hs' by (apply (shape_cong fn rdb n am); auto).
assert (logging n s') as Hlog.
{ exists older, new, before. split; [|exact Hw]. split; [exact Ei|]. split; [exact Hb|]. split; [|by exists am]. cbn [s' set_manifest set_dirty base_aof_info store set_log set_store].
  rewrite <- Hl. apply loads_same. intros ai _. apply same_manifest. }
split; [|done]. split; [exact Hs'|]. refine (proj2 (core_store fn rdb n s _ Hc (disk_ok_manifest _ _ Hd) _)). by apply (logging_acceptable fn rdb n s'); [apply disk_ok_manifest|].
Qed.

Definition kept (o : persisting) : Prop := o <> NotSynced.

(** When all is flushed, the files hold the whole dataset. *)
Lemma writing_whole l d name before fl data new : name = file_name new -> writing l d name before fl data -> aof_buf l = [] ->
  exists x, content_of d new = Some x /\ data = before ++ x /\ fl = data.
Proof using St.
intros -> (i & off & esA & esB & c & Hn & Hi & [_ _ _ Hb Hwf _ Hdata _ He]) Eb. rewrite Eb, app_nil_r in Hb. exists (effect (esA ++ esB)). split; [|auto].
unfold content_of, file_at. rewrite Hn. cbn [mbind option_bind]. rewrite Hi. cbn [mbind option_bind whole]. rewrite Hb, <- wires_app, load_whole; [done|apply truncating|done].
Qed.

Lemma logging_whole n s : logging n s -> aof_buf (log s) = [] -> loads (store s) (live (aof_manifest s)) = Some (db s) /\ flushed s = db s.
Proof using St.
intros (older & new & before & (E & _ & Hl & _) & Hw) Eb. destruct (writing_whole _ _ _ _ _ _ new eq_refl Hw Eb) as (x & Hx & Hdb & Hf). split; [|done].
by rewrite (live_split _ older new E), loads_app, loads_one, Hl, Hx, Hdb.
Qed.

Lemma fresh_writing now fd l d name data : names d !! name = Some fd -> inodes d !! fd = Some (Log []) -> aof_buf l = [] -> aof_selected_db l = -1 ->
  writing (fresh_fd now fd l) d name data data data.
Proof.
intros Hn Hi Eb Esel. exists fd, (Some 0%nat), [], [], []. split; [done|]. split; [done|]. split; cbn; rewrite ?app_nil_r; auto; destruct (aof_fd l); auto.
Qed.

Lemma up_open n s now opened o : n < 2 ^ 62 -> kept o -> aof_state s = AOF_ON -> child s = None -> aof_buf (log s) = [] -> aof_selected_db (log s) = -1 -> up n s ->
  exists ret s', openNewIncrAofForAppend fn now opened o s = (ret, s') /\ up (n + 1) s' /\ aof_state s' = AOF_ON /\ child s' = None /\
    (ret = true -> up (n + 1) (set_child (Some (db s')) s')).
Proof using St.
intros Hn Ho Est Ech Ebuf Esel Hup. unfold openNewIncrAofForAppend. rewrite Est. pose proof Hup as ((Hs & Hd & _) & Hlog & _).
pose proof (shape_new_incr fn rdb n _ Hs) as Hnew. destruct (getNewIncrAofName fn (aof_manifest s)) as [name temp_am] eqn:Eg. cbn [snd] in Hnew.
unfold getNewIncrAofName in Eg. injection Eg as Ename Eam. destruct opened; [|exists false, s; split; [done|]; split; [apply (up_mono fn rdb n); [done|lia]|done]].
pose proof (trunc_spec name (store s) Hd) as Ht. destruct (open_trunc name (store s)) as [fd d] eqn:Eo. destruct Ht as (Hfd & Hempty & _ & Em).
assert (forall ai, In ai (live (aof_manifest s)) -> same_file (store s) d (file_name ai)) as Hsame.
{ intros ai Hi. pose proof (same_trunc name (store s) (file_name ai) Hd) as Hsame. rewrite Eo in Hsame. apply Hsame. rewrite <- Ename. by apply (new_incr_free fn rdb n). }
assert (disk_ok d) as Hd' by (pose proof (disk_ok_trunc name (store s) Hd) as H'; by rewrite Eo in H').
pose proof (up_store fn rdb n s d Hup Hd' Em Hsame) as Hup1. apply (up_mono fn rdb _ (n + 1)) in Hup1; [|lia].
unfold persistAofManifest. rewrite (f_equal dirty (eq_sym Eam)). cbn [dirty negb]. destruct o; [|by exists false, (set_store d s)|done].
eexists true, _. split; [done|]. set (s1 := set_store d s) in *. destruct (logging_whole n s Hlog Ebuf) as [Hl Ef].
assert (loads d (live (aof_manifest s)) = Some (db s)) as Hl' by (rewrite <- Hl; by apply loads_same). pose proof Hlog as (older & new & before & (_ & Hb & _) & _).
destruct (persist_logging (n + 1) s1 temp_am (incr_aof_list (aof_manifest s)) (mk_info name (curr_incr_file_seq (aof_manifest s) + 1) AOF_FILE_TYPE_INCR) (db s) (fresh_fd now fd (log s))) as [Hc' Hlog'];
  [by apply Hup1|done|by rewrite <- Eam|by rewrite <- Eam, <- Ename|by rewrite <- Eam| |].
{ cbn [file_name s1 set_store store flushed db]. rewrite Ef. by apply fresh_writing. }
split; [split; [exact Hc'|]; split; [exact Hlog'|]; intros ? ? ? Ec; cbn in Ec; congruence|]. split; [done|]. split; [done|]. intros _. split; [exact Hc'|]. split; [exact Hlog'|].
intros x older' new' Ec E'. cbn [set_child set_manifest set_log set_store s1 child aof_manifest set_dirty incr_aof_list base_aof_info store db] in *. injection Ec as <-.
rewrite <- Eam in E' |- *. cbn [base_aof_info incr_aof_list] in *. apply app_inj_tail in E' as [<- _]. rewrite <- Hl'. apply loads_same. intros ai _. apply same_manifest.
Qed.

(** A change of the directory that leaves the files of the manifest alone, without a child. *)
Lemma quiet_alone n s d l : quiet n s -> child s = None -> disk_ok d -> manifest_file d = manifest_file (store s) ->
  (forall ai, In ai (live (aof_manifest s)) -> same_file (store s) d (file_name ai)) -> aof_buf l = [] -> quiet n (set_log l (set_store d s)).
Proof.
intros (Hc & Hp & Hb & Hw) Ec Hd Em Hsame Eb. pose proof (parked_store fn rdb n s d Hp Em Hsame) as Hp'.
split; [apply (core_parked fn rdb n s d); [intros E; by rewrite E in Hw|done..]|]. split; [exact Hp'|]. split; [done|]. cbn [set_log set_store aof_state child].
destruct (aof_state s); [done..|]. intros y Ey. cbn in Ey. congruence.
Qed.

Lemma fresh_buf now fd l : aof_buf (fresh_fd now fd l) = aof_buf l.
Proof. unfold fresh_fd. by destruct (aof_fd l). Qed.

Lemma quiet_open n s now opened o : aof_state s = AOF_WAIT_REWRITE -> child s = None -> aof_selected_db (log s) = -1 -> quiet n s ->
  exists ret s', openNewIncrAofForAppend fn now opened o s = (ret, s') /\ quiet n s' /\ aof_state s' = AOF_WAIT_REWRITE /\ child s' = None /\
    (ret = true -> quiet n (set_child (Some (db s')) (set_flushed (db s') s'))).
Proof using St.
intros Est Ech Esel Hq. unfold openNewIncrAofForAppend. rewrite Est. destruct opened; [|by exists false, s]. pose proof Hq as ((Hs & Hd & Ht) & _ & Hb & _). specialize (Hb Ech).
pose proof (trunc_spec (getTempIncrAofName fn) (store s) Hd) as Htr. pose proof (disk_ok_trunc (getTempIncrAofName fn) (store s) Hd) as Hd'.
assert (forall ai, In ai (live (aof_manifest s)) -> same_file (store s) (open_trunc (getTempIncrAofName fn) (store s)).2 (file_name ai)) as Hsame
  by (intros ai Hi; apply same_trunc; [done|]; by apply (temp_free fn rdb n _ Hs)).
destruct (open_trunc (getTempIncrAofName fn) (store s)) as [fd d]. destruct Htr as (Hfd & Hempty & _ & Em). cbn [snd] in *. eexists true, _. split; [done|].
assert (quiet n (set_log (fresh_fd now fd (log s)) (set_store d s))) as Hq' by (apply quiet_alone; try done; by rewrite fresh_buf).
split; [exact Hq'|]. split; [done|]. split; [done|]. intros _. destruct Hq' as (Hc' & Hp' & _). split; [exact Hc'|]. split; [exact Hp'|]. split; [done|].
cbn [set_child set_flushed set_log set_store aof_state]. rewrite Est. intros x Ex. injection Ex as <-. by apply fresh_writing.
Qed.

(** ** Starting a rewrite *)

Definition unselected s : server := set_log (with_selected (-1) (log s)) s.

Lemma writing_unselect l d name before fl data : writing l d name before fl data -> writing (with_selected (-1) l) d name before fl data.
Proof. intros (i & off & esA & esB & c & Hn & Hi & [H1 H2 H3 H4 H5 H6 H7 H8 H9]). exists i, off, esA, esB, c. split; [done|]. split; [done|]. split; auto. Qed.

Lemma inv_unselect n s : inv n s -> inv n (unselected s).
Proof.
unfold inv, AofCrash.inv. cbn [unselected set_log aof_state]. destruct (aof_state s) eqn:Est.
- intros (Hc & Hp & Hb & Hw). split; [exact Hc|]. split; [exact Hp|]. split; [exact Hb|]. cbn [unselected set_log aof_state child]. by rewrite Est in *.
- intros (Hc & (older & new & before & Hs & Hw) & Hf). split; [exact Hc|]. split; [|exact Hf]. exists older, new, before. split; [exact Hs|]. by apply writing_unselect.
- intros (Hc & Hp & Hb & Hw). split; [exact Hc|]. split; [exact Hp|]. split; [exact Hb|]. cbn [unselected set_log aof_state]. rewrite Est in *. intros x Ex. apply writing_unselect. by apply Hw.
Qed.

(** The forced flush leaves nothing in the buffer. *)
Definition flushed_all w s : Prop := forall s', flushAppendOnlyFile true w (unselected s) = inr (true, s') -> aof_state s = AOF_ON -> at_end s' = true /\ aof_buf (log s') = [].

Lemma inv_open n s now opened o : n < 2 ^ 62 -> kept o -> aof_state s <> AOF_OFF -> child s = None -> aof_buf (log s) = [] -> aof_selected_db (log s) = -1 -> inv n s ->
  exists ret s', openNewIncrAofForAppend fn now opened o s = (ret, s') /\ inv (n + 1) s' /\ aof_state s' = aof_state s /\ child s' = None /\
    (ret = true -> inv (n + 1) (set_child (Some (db s')) (match aof_state s' with AOF_WAIT_REWRITE => set_flushed (db s') s' | _ => s' end))).
Proof using St.
intros Hn Ho Hst Ec Eb Esel Hi. unfold inv, AofCrash.inv in Hi. destruct (aof_state s) eqn:Est; [done| |].
- destruct (up_open n s now opened o Hn Ho Est Ec Eb Esel Hi) as (ret & s' & E & H1 & H2 & H3 & H4). exists ret, s'. rewrite H2. split; [done|].
  split; [unfold AofCrash.inv; by rewrite H2|]. split; [done|]. split; [done|]. intros Er. unfold AofCrash.inv. cbn [set_child aof_state]. rewrite H2. auto.
- destruct (quiet_open n s now opened o Est Ec Esel Hi) as (ret & s' & E & H1 & H2 & H3 & H4). exists ret, s'. split; [done|]. rewrite H2.
  split; [apply (inv_mono fn rdb n); [|lia]; unfold AofCrash.inv; by rewrite H2|]. split; [done|]. split; [done|]. intros Er. apply (inv_mono fn rdb n); [|lia].
  unfold AofCrash.inv. cbn [set_child set_flushed aof_state]. rewrite H2. auto.
Qed.

Lemma inv_rewrite n s busy w opened o forked : n < 2 ^ 62 -> kept o -> aof_state s <> AOF_OFF -> (busy = false -> child s = None -> flushed_all w s) -> inv n s ->
  exists run ret s', rewriteAppendOnlyFileBackground fn busy w opened o forked s = inr (run, ret, s') /\ trace_ok (n + 1) s' /\
    (run = true -> inv (n + 1) s' /\ aof_state s' = aof_state s /\ (ret = false -> child s' = child s)).
Proof using St.
intros Hn Ho Hst Hall Hi. unfold rewriteAppendOnlyFileBackground. destruct (busy || _) eqn:Eb.
{ exists true, false, s. split; [done|]. apply (inv_mono fn rdb n (n + 1)) in Hi; [|lia]. split; [apply (inv_core fn rdb _ _ Hi)|done]. }
apply orb_false_iff in Eb as [Ebusy Eb]. apply bool_decide_eq_false, eq_None_not_Some in Eb. specialize (Hall Ebusy Eb). fold (unselected s).
destruct (inv_flush fn rdb n (unselected s) true w Hn (inv_unselect n s Hi)) as (run & s1 & E & Ht & Hs1 & Esel & Hinv). rewrite E. cbn [mbind result_bind].
destruct run; cbn [negb]; [|exists false, false, s1; split; [done|]; split; [apply (trace_mono fn rdb n); [done|lia]|done]].
assert (inv n s1 /\ aof_buf (log s1) = []) as [Hi1 Eb1].
{ destruct (aof_state s) eqn:Est; [done| |].
  - destruct (Hall s1 E Est) as [Hend Hempty]. split; [|done]. apply Hinv; [done|by right].
  - unfold inv, AofCrash.inv in Hi. rewrite Est in Hi. assert (inv n s1) as Hi1 by (apply Hinv; [done|left; by apply Hi]). split; [done|].
    unfold AofCrash.inv in Hi1. rewrite (same_state _ _ Hs1) in Hi1. cbn [unselected set_log aof_state] in Hi1. rewrite Est in Hi1. apply Hi1. by rewrite (same_child _ _ Hs1). }
pose proof (same_state _ _ Hs1) as Est1. pose proof (same_child _ _ Hs1) as Ec1. cbn [unselected set_log aof_state child] in Est1, Ec1. rewrite Eb in Ec1.
destruct (inv_open n s1 (unixtime w) opened o Hn Ho) as (ret & s2 & -> & Hi2 & Est2 & Ec2 & Hfork); [by rewrite Est1|done..|].
assert (trace_ok (n + 1) s2) as Ht2 by apply (inv_core fn rdb _ _ Hi2). destruct ret; cbn [negb]; [|exists true, false, s2; rewrite Est2, Ec2, Eb; done].
destruct forked; cbn [negb]; [|exists true, false, s2; rewrite Est2, Ec2, Eb; done]. eexists true, true, _. split; [done|]. specialize (Hfork eq_refl).
assert (db (match aof_state s2 with AOF_WAIT_REWRITE => set_flushed (db s2) s2 | _ => s2 end) = db s2) as -> by (by destruct (aof_state s2)).
split; [apply (inv_core fn rdb _ _ Hfork)|]. intros _. split; [done|]. split; [|done]. rewrite <- Est1, <- Est2. cbn [set_child aof_state]. by destruct (aof_state s2) eqn:Es2.
Qed.

(** ** Switching the log off and on *)

Lemma inv_parked n s : inv n s -> parked n s.
Proof.
unfold AofCrash.inv. destruct (aof_state s); [by intros (_ & ? & _)| |by intros (_ & ? & _)]. intros ((_ & Hd & _) & Hl & _). by apply logging_parked.
Qed.

Lemma inv_stop n s w : n < 2 ^ 62 -> aof_state s <> AOF_OFF -> (forall s', flushAppendOnlyFile true w s = inr (true, s') -> aof_buf (log s) = [] \/ at_end s' = true) -> inv n s ->
  exists run s', stopAppendOnly w s = inr (run, s') /\ trace_ok n s' /\ (run = true -> inv n s').
Proof using St.
intros Hn Hst Hend Hi. unfold stopAppendOnly. assert (match aof_state s with AOF_OFF => false | _ => true end = true) as -> by (by destruct (aof_state s)). cbn [assert mbind result_bind].
destruct (inv_flush fn rdb n s true w Hn Hi) as (run & s1 & E & Ht & Hs1 & _ & Hinv). rewrite E. cbn [mbind result_bind]. destruct run; cbn [negb]; [|by exists false, s1].
specialize (Hinv eq_refl (Hend s1 E)). eexists true, _. split; [done|]. split; [exact Ht|]. intros _. split; [exact (inv_core fn rdb _ _ Hinv)|]. split; [exact (inv_parked _ _ Hinv)|]. by split.
Qed.

Lemma inv_start n s busy w opened o forked : n < 2 ^ 62 -> kept o -> aof_state s = AOF_OFF -> inv n s ->
  exists run s', startAppendOnly fn busy w opened o forked s = inr (run, s') /\ trace_ok (n + 1) s' /\ (run = true -> inv (n + 1) s').
Proof using St.
intros Hn Ho Est Hi. unfold AofCrash.inv in Hi. rewrite Est in Hi. destruct Hi as (Hc & Hp & Hb & Hch). rewrite Est in Hch. unfold startAppendOnly. rewrite Est. cbn [assert mbind result_bind].
assert (forall m s', inv m s' -> aof_state s' = AOF_WAIT_REWRITE -> inv m (set_log (with_status true (with_last_fsync (unixtime w) (log s'))) s')) as Hlog.
{ intros m s' Hi' E'. unfold AofCrash.inv in *. cbn [set_log aof_state]. rewrite E' in *. destruct Hi' as (H1 & H2 & H3 & H4). split; [exact H1|]. split; [exact H2|]. split; [exact H3|].
  cbn [set_log aof_state]. rewrite E' in *. intros x Ex. destruct (H4 x Ex) as (i & off & esA & esB & c & Hn' & Hi' & Hw'). exists i, off, esA, esB, c. split; [done|]. split; [done|].
  by eapply writes_same; [|exact Hw']. }
assert (forall c, c = None -> inv n (set_child c (set_state AOF_WAIT_REWRITE s))) as Hw
  by (intros c ->; split; [exact Hc|]; split; [exact Hp|]; split; [intros _; by apply Hb|]; by intros ? ?).
destruct busy; cbn [mbind result_bind mret result_ret negb].
- eexists true, _. split; [done|]. assert (inv (n + 1) (set_state AOF_WAIT_REWRITE s)) as Hi1 by (apply (inv_mono fn rdb n); [|lia]; specialize (Hw (child s) Hch); by destruct s).
  split; [exact (proj2 (proj2 (inv_core fn rdb _ _ Hi1)))|]. intros _. by apply Hlog.
- destruct (inv_rewrite n (set_child None (set_state AOF_WAIT_REWRITE s)) false w opened o forked Hn Ho) as (run & ret & s' & -> & Ht' & Hrun); [done|done|by apply Hw|].
  cbn [mbind result_bind]. destruct run; cbn [negb]; [|by exists false, s']. destruct (Hrun eq_refl) as (Hi' & Est' & Hr). cbn [set_child set_state aof_state] in Est'.
  destruct ret; cbn [negb]; eexists true, _; (split; [done|]); (split; [exact Ht'|]); intros _; [by apply Hlog|]. specialize (Hr eq_refl). cbn [set_child child] in Hr.
  unfold AofCrash.inv in *. cbn [set_state aof_state]. rewrite Est' in Hi'. destruct Hi' as (H1 & H2 & H3 & _). split; [exact H1|]. split; [exact H2|]. split; [exact H3|]. exact Hr.
Qed.

(** ** History files *)

Lemma delete_all (P : server -> Prop) l : forall s, Forall (fun h => file_type h = AOF_FILE_TYPE_HIST) l -> (forall s h, In h l -> P s -> P (bg_unlink (file_name h) s)) -> P s ->
  exists s', for_each delete_turn s l = inr s' /\ P s'.
Proof.
induction l as [|h l IH]; intros s Hl Hstep HP; [by exists s|]. apply Forall_cons in Hl as [Eh Hl]. cbn [for_each].
assert (delete_turn s h = inr (bg_unlink (file_name h) s)) as -> by (unfold delete_turn; by rewrite Eh). cbn [mbind result_bind]. apply IH; [done| |]; intros; apply Hstep; cbn; auto.
Qed.

Lemma history_types n am : shape n am -> Forall (fun h => file_type h = AOF_FILE_TYPE_HIST) (history_aof_list am).
Proof. intros Hs. eapply Forall_impl; [apply (sh_history fn rdb n am Hs)|]. by intros h [_ [[-> _]|[-> _]]]. Qed.

Lemma temp_not_history n am h : shape n am -> In h (history_aof_list am) -> getTempIncrAofName fn <> file_name h.
Proof.
intros Hs Hi. pose proof (sh_history fn rdb n am Hs) as Hh. rewrite List.Forall_forall in Hh.
destruct (Hh h Hi) as [_ [[-> _]|[-> _]]]; [apply temp_not_base|apply temp_not_incr].
Qed.

(** The manifest without the history. *)
Definition forget (b : bool) am : aofManifest := mk_manifest (base_aof_info am) (incr_aof_list am) [] (curr_base_file_seq am) (curr_incr_file_seq am) b.

Lemma shape_forget n b am : shape n am -> shape n (forget b am).
Proof. intros Hs. apply (shape_cong fn rdb n am); auto. Qed.

Lemma up_forget n s b : up n s -> up n (set_manifest (forget b (aof_manifest s)) s).
Proof. intros ((Hs & Hrest) & Hl & Hf). split; [split; [by apply shape_forget|done]|]. split; [exact Hl|exact Hf]. Qed.

Lemma settled_rewritten n s b older new before : shape n (aof_manifest s) -> settled n (aof_manifest s) (store s) older new before ->
  settled n (aof_manifest s) (put_manifest (getAofManifestAsString (forget b (aof_manifest s))) (store s)) older new before.
Proof. intros Hs (E & Hb & Hl & _). split; [done|]. split; [done|]. split; [exact Hl|]. exists (forget b (aof_manifest s)). split; [done|]. split; [by apply shape_forget|done]. Qed.

Lemma up_rewritten n s b : up n s -> up n (set_store (put_manifest (getAofManifestAsString (forget b (aof_manifest s))) (store s)) s).
Proof.
intros (Hc & (older & new & before & Hs & Hw) & Hf). pose proof Hc as (Hsh & Hd & _). set (s' := set_store _ s).
assert (logging n s') as Hlog by (exists older, new, before; split; [exact (settled_rewritten n s b older new before Hsh Hs)|exact Hw]).
split; [|by split]. apply (core_store fn rdb n s); [done|by apply disk_ok_manifest|].
exact (logging_acceptable fn rdb n s' (disk_ok_manifest _ _ Hd) Hlog).
Qed.

Lemma quiet_forget n s b : quiet n s -> quiet n (set_manifest (forget b (aof_manifest s)) s).
Proof. intros ((Hs & Hrest) & Hp & Hw). split; [split; [by apply shape_forget|done]|]. split; [exact Hp|exact Hw]. Qed.

Lemma quiet_rewritten n s b : quiet n s -> quiet n (set_store (put_manifest (getAofManifestAsString (forget b (aof_manifest s))) (store s)) s).
Proof.
intros (Hc & (older & new & before & es & p & Hs & Hp) & Hb & Hw). pose proof Hc as (Hsh & Hd & _). set (s' := set_store _ s).
assert (parked n s') as Hp' by (exists older, new, before, es, p; split; [exact (settled_rewritten n s b older new before Hsh Hs)|exact Hp]).
split; [apply (core_parked fn rdb n s); [intros E; by rewrite E in Hw|done|by apply disk_ok_manifest|done]|]. split; [done|]. split; [exact Hb|exact Hw].
Qed.

(** Deleting the history keeps [Q], if it is kept by the deletion of a file that is not used and by a manifest without a history. *)
Lemma keeps_delete (Q : server -> Prop) n s o : shape n (aof_manifest s) ->
  (forall s h, shape n (aof_manifest s) -> In h (history_aof_list (aof_manifest s)) -> Q s -> Q (bg_unlink (file_name h) s)) ->
  (forall s b, Q s -> Q (set_manifest (forget b (aof_manifest s)) s)) ->
  (forall s b, Q s -> Q (set_store (put_manifest (getAofManifestAsString (forget b (aof_manifest s))) (store s)) s)) ->
  Q s -> exists s', aofDelHistoryFiles o s = inr s' /\ Q s' /\ aof_state s' = aof_state s /\ db s' = db s.
Proof.
intros Hs Hu Hf Hw HQ. unfold aofDelHistoryFiles. destruct (_ || _); [by exists s|].
destruct (delete_all (fun s' => Q s' /\ aof_manifest s' = aof_manifest s /\ aof_state s' = aof_state s /\ db s' = db s) (history_aof_list (aof_manifest s)) s)
  as (s1 & -> & HQ1 & Em1 & Est1 & Ec1); [by apply (history_types n)| |done|].
{ intros s1 h Hi (HQ1 & E1 & E2 & E3). split; [|done]. apply Hu; by rewrite ?E1. }
cbn [mbind result_bind]. change (mk_manifest _ _ _ _ _ true) with (forget true (aof_manifest s)). rewrite <- Em1. unfold persistAofManifest. cbn [forget dirty negb].
destruct o; eexists; (split; [done|]); (split; [|done]).
- apply (Hf (set_store _ s1) false). by apply (Hw s1 true).
- by apply (Hf s1 true).
- apply (Hf (set_store _ s1) true). by apply (Hw s1 true).
Qed.

Lemma up_delete n s o : n < 2 ^ 62 -> up n s -> exists s', aofDelHistoryFiles o s = inr s' /\ up n s' /\ aof_state s' = aof_state s /\ db s' = db s.
Proof.
intros Hn Hup. apply (keeps_delete (up n) n); [apply Hup| | | |done].
- intros s1 h Hs Hi H1. apply up_store; [done|apply disk_ok_unlink, H1|done|]. intros ai Ha. apply same_unlink. by apply (history_free fn rdb n (aof_manifest s1)).
- intros s1 b. apply up_forget.
- intros s1 b. apply up_rewritten.
Qed.

Lemma quiet_delete n s o : n < 2 ^ 62 -> quiet n s -> exists s', aofDelHistoryFiles o s = inr s' /\ quiet n s' /\ aof_state s' = aof_state s /\ db s' = db s.
Proof.
intros Hn Hq. apply (keeps_delete (quiet n) n); [apply Hq| | | |done].
- intros s1 h Hs Hi H1. apply quiet_store; [done|apply disk_ok_unlink, H1|done| |].
  + intros ai Ha. apply same_unlink. by apply (history_free fn rdb n (aof_manifest s1)).
  + apply same_unlink. by apply (temp_not_history n (aof_manifest s1)).
- intros s1 b. apply quiet_forget.
- intros s1 b. apply quiet_rewritten.
Qed.

Lemma inv_gc n s b o : n < 2 ^ 62 -> inv n s -> exists s', updateAofAutoGCEnabled b o s = inr s' /\ inv n s'.
Proof.
intros Hn Hi. unfold updateAofAutoGCEnabled. destruct b; [by exists (set_gc true s)|]. unfold AofCrash.inv in Hi.
assert (forall P, (exists s', aofDelHistoryFiles o (set_gc false s) = inr s' /\ P n s' /\ aof_state s' = aof_state s /\ db s' = db s) ->
  (forall s', P n s' -> aof_state s' = aof_state s -> inv n s') -> exists s', aofDelHistoryFiles o (set_gc false s) = inr s' /\ inv n s') as Hdone
  by (intros P (s' & E & H1 & H2 & _) H; exists s'; auto).
destruct (aof_state s) eqn:Est; [apply (Hdone quiet)|apply (Hdone up)|apply (Hdone quiet)];
  try (intros s' H1 H2; unfold AofCrash.inv; by rewrite H2); rewrite <- Est; (by apply (quiet_delete n (set_gc false s)) || by apply (up_delete n (set_gc false s))).
Qed.

(** ** The end of a rewrite *)

Lemma set_log_id s : set_log (log s) s = s.
Proof. by destruct s. Qed.

(** The dataset is in the new base file, in the last incremental file and in the buffer. *)
Lemma finish_rewrite_ok n s o base temp_am new_incr older new b snapshot : n < 2 ^ 62 -> kept (first_persist o) -> core n s -> aof_state s <> AOF_OFF -> child s = Some snapshot ->
  shape n temp_am -> base_aof_info temp_am = Some b -> incr_aof_list temp_am = older ++ [new] ->
  loads (store s) [b] = Some snapshot -> writing (log s) (store s) (file_name new) snapshot (flushed s) (db s) ->
  exists s', finish_rewrite o base temp_am new_incr s = inr s' /\
    (aof_state s' = AOF_ON /\ up n s' \/ s' = match new_incr with Some name => bg_unlink name (bg_unlink base s) | None => bg_unlink base s end).
Proof.
intros Hn Ho Hc Hst Hch Hs Eb Ei Hsnap Hw. unfold finish_rewrite. pose proof Hw as (i & off & esA & esB & c & _ & _ & [Hfd _ _ _ _ _ _ _ _]). rewrite Hfd. rewrite bool_decide_true by eauto.
destruct (shape_mark fn rdb n temp_am older new Hs Ei) as (am' & -> & Hs' & Eb' & Ei' & Ed). cbn [mbind result_bind]. unfold persistAofManifest. rewrite Ed. cbn [negb].
destruct (first_persist o) eqn:Eo; [|eexists; split; [done|]; by right|done].
destruct (persist_logging n s am' [] new snapshot (log s)) as [Hc' Hlog']; [done|done|by rewrite Eb', Eb|done|by rewrite Eb', Eb|done|].
set (s0 := set_store (put_manifest (getAofManifestAsString am') (store s)) s) in *. change (log s) with (log s0) in Hc', Hlog'. rewrite set_log_id in Hc', Hlog'.
set (s1 := set_manifest (set_dirty false am') s0) in *. assert (up n s1) as Hup1.
{ split; [exact Hc'|]. split; [exact Hlog'|]. intros x older1 new1 Ec E1. cbn [s1 s0 set_manifest set_store child aof_manifest set_dirty incr_aof_list base_aof_info store] in *. rewrite Hch in Ec. injection Ec as <-.
  rewrite Ei' in E1. change [new] with ([] ++ [new]) in E1. apply app_inj_tail in E1 as [<- _]. rewrite Eb', Eb. exact Hsnap. }
destruct (up_delete n s1 (second_persist o) Hn Hup1) as (s2 & -> & Hup2 & Est2 & _). cbn [mbind result_bind]. eexists. split; [done|]. left.
cbn [s1 s0 set_manifest set_store aof_state] in Est2. rewrite Est2. destruct (aof_state s); [done| |]; (split; [done || exact Est2|exact Hup2]).
Qed.

Definition ended (n : Z) s : Prop := aof_state s = AOF_ON /\ up n s \/ aof_state s = AOF_WAIT_REWRITE /\ core n s /\ parked n s.

Lemma ended_mono n m s : ended n s -> n <= m -> ended m s.
Proof.
intros [[E Hu]|(E & Hc & Hp)] Hm; [left; split; [done|by apply (up_mono fn rdb n)]|right]. split; [done|]. split; [by apply (core_mono fn rdb n)|].
destruct Hp as (older & new & before & es & p & Hs & Hh). exists older, new, before, es, p. split; [by apply (settled_mono fn rdb n)|done].
Qed.

(** While waiting, a file that the manifest does not name may change. *)
Lemma waiting_store n s d : aof_state s = AOF_WAIT_REWRITE -> core n s -> parked n s -> disk_ok d -> manifest_file d = manifest_file (store s) ->
  (forall ai, In ai (live (aof_manifest s)) -> same_file (store s) d (file_name ai)) -> core n (set_store d s) /\ parked n (set_store d s).
Proof.
intros Est Hc Hp Hd Em Hsame. pose proof (parked_store fn rdb n s d Hp Em Hsame) as Hp'. split; [|done]. apply core_parked; [by rewrite Est|done..].
Qed.

Lemma ended_inv n s : ended n s -> inv n (set_child None (match aof_state s with
  | AOF_WAIT_REWRITE => bg_unlink (getTempIncrAofName fn) (set_log (with_buf [] (log s)) s) | _ => s end)).
Proof.
intros [[Est (Hc & Hl & _)]|(Est & Hc & Hp)]; rewrite Est.
- unfold AofCrash.inv. cbn [set_child aof_state]. rewrite Est. split; [exact Hc|]. split; [exact Hl|]. by intros ? ? ? ?.
- destruct (waiting_store n (set_log (with_buf [] (log s)) s) (unlink (getTempIncrAofName fn) (store s))) as [Hc' Hp']; [done|done|done|apply disk_ok_unlink, Hc|done| |].
  { intros ai Hi. apply same_unlink. by apply (temp_free fn rdb n _ (proj1 Hc)). }
  unfold AofCrash.inv, AofCrash.quiet. cbn [set_child bg_unlink set_store set_log aof_state]. rewrite Est. split; [exact Hc'|]. split; [exact Hp'|]. split; [done|]. by intros ? ?.
Qed.

Lemma snapshot_content base x d : content_of (new_file (file_name base) (Snapshot x) d).2 base = Some x.
Proof. unfold content_of. by rewrite file_new_same. Qed.

(** While logging: the new base file replaces all but the last incremental file. *)
Lemma done_on n s o snapshot temp_am : n + 1 < 2 ^ 62 -> kept (first_persist o) -> aof_state s = AOF_ON -> up n s -> child s = Some snapshot ->
  getNewBaseFileNameAndMarkPreAsHistory fn rdb (aof_manifest s) = inr (base_name fn rdb (curr_base_file_seq (aof_manifest s) + 1), temp_am) ->
  let base := base_name fn rdb (curr_base_file_seq (aof_manifest s) + 1) in
  exists s', finish_rewrite o base temp_am None (set_store (new_file base (Snapshot snapshot) (store s)).2 s) = inr s' /\ ended (n + 1) s'.
Proof using St.
intros Hn Ho Est Hup Hch Eg base. pose proof Hup as ((Hs & Hd & _) & (older & new & before & (E & Hb & Hl & _) & Hw) & Hf).
destruct (shape_new_base fn rdb n _ Hs) as (am' & Eg' & Hs' & Eb' & Ei' & _). rewrite Eg in Eg'. injection Eg' as <-.
set (d := (new_file base (Snapshot snapshot) (store s)).2). assert (disk_ok d) as Hd' by by apply disk_ok_new.
assert (forall ai, In ai (live (aof_manifest s)) -> same_file (store s) d (file_name ai)) as Hsame by (intros ai Hi; apply same_new; [done|]; apply (new_base_free fn rdb n); [lia|done..]).
assert (up n (set_store d s)) as Hup1 by by apply up_store.
rewrite (Hf snapshot older new Hch E) in Hl. injection Hl as <-. set (b := base_info fn rdb (curr_base_file_seq (aof_manifest s) + 1) AOF_FILE_TYPE_BASE) in *.
destruct (finish_rewrite_ok (n + 1) (set_store d s) o base temp_am None older new b snapshot) as (s' & E' & Hend); try done; [|by cbn [set_store aof_state]; rewrite Est|by rewrite Ei'| | |].
- apply (core_mono fn rdb n); [apply Hup1|lia].
- rewrite loads_one. apply (snapshot_content b).
- cbn [set_store log store flushed db]. eapply writing_same; [exact Hw|]. apply Hsame. by eapply live_new.
- exists s'. split; [done|]. left. destruct Hend as [[H1 H2]| ->]; [done|]. split; [done|]. apply (up_mono fn rdb n); [|lia].
  apply up_store; [done|by apply disk_ok_unlink|done|]. intros ai Hi. apply same_unlink. apply (new_base_free fn rdb n); [lia|done..].
Qed.

(** The temporary file becomes the incremental file after the new base file. *)
Lemma done_waiting n s o snapshot temp_am : n + 2 < 2 ^ 62 -> kept (first_persist o) -> aof_state s = AOF_WAIT_REWRITE -> core n s -> parked n s -> waiting_ok s -> child s = Some snapshot ->
  getNewBaseFileNameAndMarkPreAsHistory fn rdb (aof_manifest s) = inr (base_name fn rdb (curr_base_file_seq (aof_manifest s) + 1), temp_am) ->
  let base := base_name fn rdb (curr_base_file_seq (aof_manifest s) + 1) in let s1 := set_store (new_file base (Snapshot snapshot) (store s)).2 s in
  (core n s1 /\ parked n s1) /\ (core n (bg_unlink base s1) /\ parked n (bg_unlink base s1)) /\
  let '(name, temp_am') := getNewIncrAofName fn temp_am in
  forall d, rename (getTempIncrAofName fn) name (store s1) = Some d -> exists s', finish_rewrite o base temp_am' (Some name) (set_store d s1) = inr s' /\ ended (n + 2) s'.
Proof using St.
intros Hn Ho Est Hc Hp Hw Hch Eg base s1. pose proof Hc as (Hs & Hd & _). destruct (Hw snapshot Hch) as (i & off & esA & esB & c & Htemp & Hi & Hwr).
destruct (shape_new_base fn rdb n _ Hs) as (am' & Eg' & Hs' & Eb' & Ei' & _ & Eci). rewrite Eg in Eg'. injection Eg' as <-.
assert (forall ai, In ai (live (aof_manifest s)) -> file_name ai <> base) as Hfree by (intros ai Ha; apply (new_base_free fn rdb n); [lia|done..]).
assert (disk_ok (store s1)) as Hd1 by by apply disk_ok_new.
destruct (waiting_store n s (store s1) Est Hc Hp Hd1 eq_refl) as [Hc1 Hp1]; [intros ai Ha; apply same_new; auto|]. split; [done|].
assert (forall s2, aof_state s2 = AOF_WAIT_REWRITE -> aof_manifest s2 = aof_manifest s -> core n s2 -> parked n s2 -> core n (bg_unlink base s2) /\ parked n (bg_unlink base s2)) as Hun.
{ intros s2 Est2 Em2 Hc2 Hp2. apply waiting_store; [done..|apply disk_ok_unlink, Hc2|done|]. intros ai Ha. apply same_unlink. rewrite Em2 in Ha. auto. }
split; [by apply Hun|]. pose proof (shape_new_incr fn rdb _ _ Hs') as Hs2. rewrite <- Z.add_assoc in Hs2. cbn [getNewIncrAofName]. intros d Er.
set (name := incr_name fn (curr_incr_file_seq temp_am + 1)) in *. assert (disk_ok d) as Hd2 by by eapply disk_ok_rename.
assert (forall ai, In ai (live (aof_manifest s)) -> file_name ai <> name) as Hfree2 by (intros ai Ha; unfold name; rewrite Eci; apply (new_incr_free fn rdb n); [lia|done..]).
destruct (waiting_store n s1 d Est Hc1 Hp1 Hd2) as [Hc2 Hp2].
{ unfold rename in Er. destruct (names (store s1) !! _); [|done]. by injection Er as <-. }
{ intros ai Ha. eapply same_rename; [exact Er|by apply (temp_free fn rdb n _ Hs)|by apply Hfree2]. }
pose proof (same_new base (Snapshot snapshot) (store s) _ Hd (temp_not_base fn rdb _)) as [Hn1 Hi1]. fold s1 in Hn1, Hi1. set (b := base_info fn rdb (curr_base_file_seq (aof_manifest s) + 1) AOF_FILE_TYPE_BASE) in *.
assert (loads d [b] = Some snapshot) as Hbase.
{ rewrite loads_one, <- (snapshot_content b snapshot (store s)). unfold content_of. f_equal. apply file_same. eapply same_rename; [exact Er|cbn; by intros ?%symmetry%temp_not_base|apply base_not_incr]. }
assert (writing (log s) d name snapshot (flushed s) (db s)) as Hwd.
{ exists i, off, esA, esB, c. unfold rename in Er. cbn [s1 set_store store] in Er. rewrite Hn1, Htemp in Er. injection Er as <-. cbn [names inodes]. rewrite lookup_insert_eq. split; [done|]. by rewrite Hi1. }
edestruct (finish_rewrite_ok (n + 2) (set_store d s1) o base) as (s' & E' & Hend); [done|exact Ho|apply (core_mono fn rdb n); [exact Hc2|lia]|by cbn; rewrite Est|exact Hch|exact Hs2|exact Eb'|done|exact Hbase|exact Hwd|].
exists s'. split; [exact E'|]. destruct Hend as [?| ->]; [by left|]. apply (ended_mono n); [|lia]. right. split; [done|].
destruct (Hun (set_store d s1) Est eq_refl Hc2 Hp2) as [Hc3 Hp3]. apply waiting_store; [done..|apply disk_ok_unlink, Hc3|done|]. intros ai Ha. apply same_unlink. by apply Hfree2.
Qed.

Lemma inv_done n s o : n + 2 < 2 ^ 62 -> kept (first_persist o) -> child s <> None -> inv n s ->
  exists s', backgroundRewriteDoneHandler fn rdb o s = inr s' /\ inv (n + 2) s'.
Proof using St.
intros Hn Ho Hch Hi. destruct (child s) as [snapshot|] eqn:Ec; [clear Hch|done]. unfold backgroundRewriteDoneHandler. rewrite Ec. cbn [the mbind result_bind].
pose proof (inv_core fn rdb n s Hi) as Hc.
assert (aof_state s <> AOF_OFF) as Hst by (intros E; unfold AofCrash.inv in Hi; rewrite E in Hi; destruct Hi as (_ & _ & _ & Hq); rewrite E in Hq; congruence).
assert (ended (n + 2) s) as Hsame.
{ apply (ended_mono n); [|lia]. pose proof (inv_parked n s Hi). unfold AofCrash.inv, ended in *. destruct (aof_state s); [done|by left|by right]. }
match goal with |- context [mbind ?k ?inner] => assert (exists s', inner = inr s' /\ ended (n + 2) s') as (s' & -> & Hend) end;
  [|cbn [mbind result_bind]; eexists; split; [done|]; by apply ended_inv].
destruct (exited o); [|by exists s]. destruct (shape_new_base fn rdb n _ (proj1 Hc)) as (temp_am & Eg & _). rewrite Eg. cbn [mbind result_bind].
destruct (base_renamed o); [|by exists s]. cbn [set_store aof_state]. destruct (aof_state s) eqn:Est; [done| |].
- assert (up n s) as Hup by (unfold AofCrash.inv in Hi; by rewrite Est in Hi). destruct (done_on n s o snapshot temp_am ltac:(lia) Ho Est Hup Ec Eg) as (s' & -> & Hend).
  exists s'. split; [done|]. apply (ended_mono (n + 1)); [done|lia].
- assert (waiting_ok s) as Hw by (unfold AofCrash.inv in Hi; rewrite Est in Hi; destruct Hi as (_ & _ & _ & Hq); by rewrite Est in Hq).
  destruct (done_waiting n s o snapshot temp_am Hn Ho Est Hc (inv_parked n s Hi) Hw Ec Eg) as (_ & [Hc2 Hp2] & Hdone). destruct (getNewIncrAofName fn temp_am) as [name temp_am'].
  destruct (if incr_renamed o then _ else None) as [d|] eqn:Er; [destruct (incr_renamed o); [by apply Hdone|done]|].
  eexists. split; [done|]. apply (ended_mono n); [|lia]. by right.
Qed.

(** ** Loading *)

Lemma load_single_whole t ai x data d : content_of d ai = Some x -> loadSingleAppendOnlyFile t (file_name ai) data d = inr (AOF_OK, data ++ x, d).
Proof.
unfold content_of, file_at, loadSingleAppendOnlyFile. destruct (names d !! file_name ai) as [i|]; [|done]. cbn [mbind option_bind]. destruct (inodes d !! i) as [c|]; [|done].
cbn [mbind option_bind the result_bind]. destruct c as [y|b]; cbn [whole]; [by intros [= <-]|]. destruct (load_log b) as [|[y|y v|]]; try done. by intros [= <-].
Qed.

Lemma load_older t d rest : rest <> [] -> forall ais data x, loads d ais = Some x -> load_files t (ais ++ rest) data d = load_files t rest (data ++ x) d.
Proof.
intros Hrest. induction ais as [|ai ais IH]; intros data x Hl; [injection Hl as <-; by rewrite app_nil_r|]. rewrite loads_cons in Hl. destruct (content_of d ai) as [y|] eqn:Ey; [|done]. cbn in Hl.
destruct (loads d ais) as [z|] eqn:Ez; [|done]. injection Hl as <-. cbn [app load_files]. rewrite (load_single_whole t ai y) by done. cbn [mbind result_bind].
destruct (ais ++ rest) as [|a l] eqn:El; [by apply app_eq_nil in El as [_ ->]|]. rewrite app_assoc. by apply IH.
Qed.

(** What is left of the last file. *)
Definition leftover (es : list entry) (b : bytes) : Prop := b = wires es \/ exists items, Forall item_wf items /\ b = wires es ++ wire MULTI ++ items_wire items.

Lemma load_last d new es p data : holds_part d new es p -> exists i b, names d !! file_name new = Some i /\ leftover es b /\
  (p = [] /\ b = wires es /\ (forall t, load_files t [new] data d = inr (AOF_OK, data ++ effect es, d)) \/
   load_files true [new] data d = inr (AOF_TRUNCATED, data ++ effect es, put_content i (Log b) d) /\ load_files false [new] data d = inr (AOF_FAILED, data ++ effect es, d)).
Proof using St.
intros (Hf & Hwf & Hp). pose proof truncating as Htr. unfold file_at in Hf. destruct (names d !! file_name new) as [i|] eqn:Hn; [|done]. cbn [mbind option_bind] in Hf. exists i.
destruct Hp as [->|(e & q & He & Ee & Hp & Hq)].
- exists (wires es). split; [done|]. split; [by left|]. left. split; [done|]. split; [done|]. intros t. rewrite app_nil_r in Hf. cbn [load_files]. unfold loadSingleAppendOnlyFile. rewrite Hn, Hf.
  cbn [the mbind result_bind]. by rewrite (load_whole Htr).
- destruct (load_cut Htr es e p q Hwf He Ee Hp Hq) as (v & Hl & Hv). exists (take v (wires es ++ p)). split; [done|]. split.
  { destruct Hv as [->|(items1 & items2 & x & -> & -> & ->)]; [left; apply take_app_length|right]. cbn [entry_wf] in He. apply Forall_app in He as [He _]. exists items1. split; [done|].
    replace (wires es ++ wire MULTI ++ items_wire items1 ++ x) with ((wires es ++ wire MULTI ++ items_wire items1) ++ x) by (by rewrite <- !app_assoc). apply take_app_length. }
  right. cbn [load_files]. unfold loadSingleAppendOnlyFile. rewrite Hn, Hf. cbn [the mbind result_bind]. rewrite Hl. done.
Qed.

Lemma settled_names n am d older new before c : settled n am d older new before -> file_at d new = Some c ->
  forallb (fun ai => bool_decide (is_Some (names d !! file_name ai))) (option_list (base_aof_info am) ++ incr_aof_list am) = true.
Proof.
intros (E & _ & Hl & _) Hf. apply forallb_forall. intros ai Hi. rewrite E, app_assoc, in_app_iff in Hi. apply bool_decide_eq_true. destruct Hi as [Hi|[<-|[]]].
- clear -Hl Hi. revert before Hl. induction (option_list (base_aof_info am) ++ older) as [|a l IH]; intros x Hl; [done|]. rewrite loads_cons in Hl. unfold content_of, file_at in Hl.
  destruct (names d !! file_name a) as [i|] eqn:En; [|done]. cbn [mbind option_bind] in Hl. destruct (inodes d !! i) as [c|]; [|done]. cbn [mbind option_bind] in Hl.
  destruct (whole c); [|done]. cbn [mbind option_bind] in Hl. destruct (loads d l) as [z|]; [|done].
  destruct Hi as [<-|Hi]; [by rewrite En|by apply (IH Hi z)].
- unfold file_at in Hf. destruct (names d !! file_name new); [eauto|done].
Qed.

Lemma load_to_last n am d older new before c t : settled n am d older new before -> file_at d new = Some c -> loadAppendOnlyFiles t am d = load_files t [new] before d.
Proof.
intros Hs Hf. unfold loadAppendOnlyFiles. rewrite (settled_names n am d older new before c Hs Hf). destruct Hs as (E & Hbase & Hx & _). rewrite bool_decide_false; [|by destruct (base_aof_info am)].
rewrite E, app_assoc, (load_older t d [new] ltac:(done) _ _ before Hx). done.
Qed.

Lemma load_all n am d older new before es p : settled n am d older new before -> holds_part d new es p -> exists i b, names d !! file_name new = Some i /\ leftover es b /\
  (p = [] /\ b = wires es /\ (forall t, loadAppendOnlyFiles t am d = inr (AOF_OK, before ++ effect es, d)) \/
   loadAppendOnlyFiles true am d = inr (AOF_TRUNCATED, before ++ effect es, put_content i (Log b) d) /\ loadAppendOnlyFiles false am d = inr (AOF_FAILED, before ++ effect es, d)).
Proof using St.
intros Hs Hp. destruct (load_last d new es p before Hp) as (i & b & Hn & Hb & Hl). exists i, b. split; [done|]. split; [done|].
assert (forall t, loadAppendOnlyFiles t am d = load_files t [new] before d) as Hall by (intros t; destruct Hp as [Hf _]; by eapply load_to_last).
destruct Hl as [(H1 & H2 & H3)|[H1 H2]]; [left|right]; rewrite ?Hall; [|done]. split; [done|]. split; [done|]. intros t. by rewrite Hall.
Qed.

Lemma settled_manifest n am d older new before : n < 2 ^ 62 -> settled n am d older new before ->
  exists am', aofLoadManifestFromDisk d = Some am' /\ shape n am' /\ dirty am' = false /\ settled n am' d older new before.
Proof using St.
intros Hn (E & Hb & Hl & am_d & Em & Hs & Eb & Ei). exists (set_dirty false am_d). split; [apply (reload_manifest fn rdb n); [done|done| |done]|].
- unfold live. rewrite Eb. by destruct (base_aof_info am).
- split; [apply (shape_cong fn rdb n am_d); auto|]. split; [done|]. split; [cbn; by rewrite Ei|]. split; [cbn; by rewrite Eb|]. split; [cbn; by rewrite Eb|]. by exists am_d.
Qed.

Lemma good_recover n d got : n < 2 ^ 62 -> good n d got -> recover d = Some got.
Proof using St.
intros Hn [Hd [(Em & -> & _)|(am & older & new & before & es & p & Hs & Hp & ->)]]; unfold recover, loadDataFromDisk.
- unfold aofLoadManifestFromDisk. rewrite Em. done.
- destruct (settled_manifest n am d older new before Hn Hs) as (am' & -> & _ & _ & Hs'). destruct (load_all n am' d older new before es p Hs' Hp) as (i & b & _ & _ & [(_ & _ & ->)|[-> _]]); done.
Qed.

(** ** The start of a process *)

(** The files that a process goes on with are complete: loading cuts nothing off again.  They are
    not when the last file ends within a command of a transaction. *)
Definition tidy d : bool :=
  match loadDataFromDisk true d with
  | inr (d', Some (am, _)) => match loadAppendOnlyFiles true am d' with inr (AOF_OK, _, _) | inr (AOF_NOT_EXIST, _, _) => true | _ => false end
  | _ => false
  end.

(** [fine]: nothing goes wrong. *)
Definition started (n : Z) (fine : bool) (data : dataset) (ok : bool) s : Prop :=
  trace_ok n s /\ (fine = true -> ok = true) /\ (ok = true -> aof_state s = AOF_ON /\ db s = data /\ up n s).
Definition all_fine (created opened : bool) (o : persisting) : bool := created && opened && match o with Persisted => true | _ => false end.

Lemma started_exits n fine data s : fine = false -> trace_ok n s -> started n fine data false s.
Proof. intros ->. done. Qed.

Lemma shape_create n : 0 <= n -> shape n aofManifestCreate.
Proof. intros Hn. split; try done; constructor. Qed.

Lemma exact_trace n s d got : flushed s = got -> db s = got -> trace_ok n s -> good n d got -> trace_ok n (set_store d s).
Proof. intros Ef Ed Ht Hg. apply trace_store; [done|]. exists got. split; [done|]. unfold promise. rewrite Ef, Ed. intros lo hi E. destruct (aof_state s); try done. by injection E as <- <-. Qed.

(** The process before it opens its files. *)
Definition first_state (gc : bool) (now : Z) am (data : dataset) d : server := mk_server AOF_ON (mk_log None [] (-1) 0 0 0 now 0 true) am None gc data data d [].

(** A directory with a manifest: its last file goes on. *)
Lemma open_existing n d0 d am older new before es gc now created opened o : disk_ok d -> shape n am -> dirty am = false -> settled n am d older new before ->
  file_at d new = Some (Log (wires es)) -> Forall entry_wf es -> exists ok s,
  aofOpenIfNeededOnServerStart fn rdb created opened o (set_store d (first_state gc now am (before ++ effect es) d0)) = inr (ok, s) /\ started n (all_fine created opened o) (before ++ effect es) ok s.
Proof.
intros Hd Hs Hdirty Hset Hf Hwf. pose proof Hset as (E & Hb & _). unfold aofOpenIfNeededOnServerStart. set (s0 := set_store d _). change (aof_manifest s0) with am. rewrite bool_decide_false by done.
cbn [andb mbind result_bind negb mret result_ret]. unfold getLastIncrAofName. change (aof_manifest s0) with am. rewrite E, last_snoc.
assert (good n d (before ++ effect es)) as Hg by (split; [done|]; right; exists am, older, new, before, es, []; split; [done|]; split; [split; [by rewrite app_nil_r|split; [done|by left]]|done]).
assert (trace_ok n s0) as Ht0 by (apply (exact_trace n _ _ (before ++ effect es)); [done|done|constructor|done]).
destruct opened; cbn [negb]; [|eexists false, _; split; [done|]; apply started_exits; [by destruct created|exact Ht0]]. unfold file_at in Hf. destruct (names d !! file_name new) as [i|] eqn:En; [|done].
cbn [mbind option_bind] in Hf. unfold open_append. change (store s0) with d. rewrite En. unfold persistAofManifest. rewrite Hdirty. cbn [negb].
assert (log_at d i = Some (wires es)) as Hlog by (unfold log_at; by rewrite Hf). change (store (set_log _ (set_store d s0))) with d. rewrite Hlog. cbn [the mbind result_bind].
eexists true, _. split; [done|]. match goal with |- started n _ _ true ?x => set (s := x) end. assert (trace_ok n s) as Ht by exact (exact_trace n s0 d (before ++ effect es) eq_refl eq_refl Ht0 Hg).
split; [exact Ht|]. split; [done|]. intros _. split; [done|]. split; [done|]. split; [by split|]. split; [|by intros ? ? ? ?]. exists older, new, before. split; [exact Hset|].
exists i, None, es, [], []. split; [exact En|]. split; [by rewrite app_nil_r|]. split; rewrite ?app_nil_r; try done; by left.
Qed.

Lemma fresh_same d d' : fresh fn d -> same_file d d' (incr_name fn 1) -> fresh fn d'.
Proof. intros Hf [Hn Hi] i E. rewrite Hn in E. rewrite (Hi i E). by apply Hf. Qed.

Lemma append_spec name d : disk_ok d -> (forall i, names d !! name = Some i -> inodes d !! i = Some (Log [])) -> let '(i, d') := open_append name d in
  disk_ok d' /\ names d' !! name = Some i /\ inodes d' !! i = Some (Log []) /\ manifest_file d' = manifest_file d /\ forall x, x <> name -> same_file d d' x.
Proof.
intros Hd Hf. unfold open_append. destruct (names d !! name) as [i|] eqn:E; [split_and!; auto; intros; by split|]. pose proof (disk_ok_new name (Log []) d Hd). pose proof (fun x => same_new name (Log []) d x Hd) as Hs.
cbn [new_file snd] in *. split; [done|]. cbn [names inodes manifest_file]. rewrite !lookup_insert_eq. auto.
Qed.

(** A directory without a manifest: the first files are made. *)
Lemma open_first n d gc now created opened o : 0 <= n -> n + 2 < 2 ^ 62 -> kept o -> disk_ok d -> manifest_file d = None -> fresh fn d -> exists ok s,
  aofOpenIfNeededOnServerStart fn rdb created opened o (set_store d (first_state gc now aofManifestCreate [] d)) = inr (ok, s) /\ started (n + 2) (all_fine created opened o) [] ok s.
Proof.
intros Hn Hb Ho Hd Hm Hf. unfold aofOpenIfNeededOnServerStart. set (s0 := set_store d _). change (aof_manifest s0) with aofManifestCreate.
destruct (shape_new_base fn rdb n aofManifestCreate (shape_create n Hn)) as (am1 & -> & Hs1 & Eb & Ei & Edirty & Ec). change (curr_base_file_seq aofManifestCreate + 1) with 1 in *.
change (incr_aof_list aofManifestCreate) with (@nil aofInfo) in Ei. change (curr_incr_file_seq aofManifestCreate) with 0 in Ec.
cbn [base_aof_info incr_aof_list aofManifestCreate]. rewrite !bool_decide_true by done. cbn [andb mbind result_bind mret result_ret].
assert (forall x, disk_ok x -> manifest_file x = None -> fresh fn x -> good (n + 2) x []) as Hgood by (intros; split; [done|]; by left).
assert (trace_ok (n + 2) s0) as Ht0 by (apply (exact_trace _ _ _ []); [done|done|constructor|by apply Hgood]).
destruct created; cbn [negb mret result_ret]; [|eexists false, _; split; [done|]; by apply started_exits].
set (d1 := (new_file (base_name fn rdb 1) (Snapshot []) d).2). change (store (set_manifest am1 s0)) with d. change (db (set_manifest am1 s0)) with (@nil batch). fold d1.
assert (disk_ok d1) as Hd1 by by apply disk_ok_new. assert (manifest_file d1 = None) as Hm1 by done.
assert (fresh fn d1) as Hf1 by (apply (fresh_same d); [done|]; apply same_new; [done|]; intros E; symmetry in E; by apply base_not_incr in E).
unfold getLastIncrAofName. change (aof_manifest (set_store d1 _)) with am1. rewrite Ei. cbn [last]. unfold getNewIncrAofName. rewrite Ec, Ei. change (0 + 1) with 1. cbn [app].
assert (trace_ok (n + 2) (set_store d1 s0)) as Ht1 by (apply (exact_trace _ _ _ []); [done|done|done|by apply Hgood]).
destruct opened; cbn [negb]; [|eexists false, _; split; [done|]; by apply started_exits].
change (store (set_store d1 _)) with d1. pose proof (append_spec (incr_name fn 1) d1 Hd1 Hf1) as Ha. destruct (open_append (incr_name fn 1) d1) as [i d2]. destruct Ha as (Hd2 & Hn2 & Hi2 & Hm2 & Hsame).
set (am2 := mk_manifest _ _ _ _ _ _). match goal with |- context[persistAofManifest o am2 ?x] => set (s2 := x) end.
assert (shape (n + 2) am2) as Hs2. { pose proof (shape_new_incr fn rdb (n + 1) am1 Hs1) as H. unfold getNewIncrAofName in H. rewrite Ec, Ei in H. replace (n + 2) with (n + 1 + 1) by lia. exact H. }
assert (trace_ok (n + 2) s2) as Ht2. { apply (exact_trace _ (set_store d1 s0) d2 []); [done|done|done|]. apply Hgood; [done|congruence|]. intros j. rewrite Hn2. by intros [= <-]. }
destruct o; [|eexists false, _; split; [done|]; by apply started_exits|done].
set (l2 := with_fsync_offset 0 (with_size 0 (log s2))). destruct (persist_logging (n + 2) s2 am2 [] (incr_info fn 1 AOF_FILE_TYPE_INCR) [] l2) as [Hc Hl].
{ split; [|done]. apply (shape_mono fn rdb (n + 1)); [exact Hs1|lia]. }
{ done. }
{ unfold am2. cbn [base_aof_info]. by rewrite Eb. }
{ done. }
{ unfold am2. cbn [base_aof_info]. rewrite Eb. change (option_list _ ++ []) with [base_info fn rdb 1 AOF_FILE_TYPE_BASE]. rewrite (loads_same d1 (store s2)).
  - rewrite loads_one. unfold content_of, d1. by rewrite (file_new_same (base_name fn rdb 1) (Snapshot []) d (base_info fn rdb 1 AOF_FILE_TYPE_BASE) eq_refl).
  - intros ai [<-|[]]. apply Hsame. apply base_not_incr. }
{ exists i, None, [], [], []. split; [exact Hn2|]. split; [exact Hi2|]. split; try done; by left. }
assert (log_at (put_manifest (getAofManifestAsString am2) (store s2)) i = Some []) as Hlog by (unfold log_at; change (match inodes d2 !! i with Some (Log b) => Some b | _ => None end = Some []); by rewrite Hi2).
unfold persistAofManifest. change (dirty am2) with true. cbn [negb]. change (store (set_store ?x s2)) with x. rewrite Hlog. cbn [the mbind result_bind].
eexists true, _. split; [done|]. split; [apply Hc|]. split; [done|]. intros _. split; [done|]. split; [done|]. split; [exact Hc|]. split; [exact Hl|]. by intros ? ? ? ?.
Qed.

(** The last file is cut off. *)
Lemma settled_put n am d older new before i c : shape n am -> n < 2 ^ 62 -> disk_ok d -> settled n am d older new before -> names d !! file_name new = Some i ->
  settled n am (put_content i c d) older new before.
Proof using St.
intros Hs Hn Hd Hset E. apply (settled_same fn rdb n am d); [done|done|]. intros ai Hi. apply same_put. intros E'. destruct Hset as (Ei & _).
apply (last_free fn rdb n am Hn Hs older new ai Ei Hi). exact (proj1 Hd _ _ i E' E).
Qed.

Lemma leftover_part es b d new i : names d !! file_name new = Some i -> Forall entry_wf es -> leftover es b -> exists p, holds_part (put_content i (Log b) d) new es p /\ b = wires es ++ p.
Proof.
intros E Hwf [-> | (items & Hi & ->)]; [exists []|exists (wire MULTI ++ items_wire items)]; (split; [|by rewrite ?app_nil_r]).
- split; [by rewrite (file_put_same _ _ _ _ E), app_nil_r|]. split; [done|by left].
- split; [by rewrite (file_put_same _ _ _ _ E)|]. split; [done|]. right. exists (Trans items), (wire EXEC). cbn [entry_wf entry_wire]. split; [done|]. split; [by rewrite <- app_assoc|]. done.
Qed.

(** What loading makes of a directory. *)
Lemma load_good n d got truncates : n < 2 ^ 62 -> good n d got -> tidy d = true -> exists r, loadDataFromDisk truncates d = inr r /\
  (r = (d, None) /\ truncates = false \/
   r = (d, Some (aofManifestCreate, [])) /\ got = [] /\ disk_ok d /\ manifest_file d = None /\ fresh fn d \/
   exists d' am older new before es, r = (d', Some (am, got)) /\ got = before ++ effect es /\ disk_ok d' /\ shape n am /\ dirty am = false /\
     settled n am d' older new before /\ file_at d' new = Some (Log (wires es)) /\ Forall entry_wf es).
Proof using St.
intros Hn [Hd [(Em & -> & Hf)|(am0 & older & new & before & es & p & Hs & Hp & ->)]] Ht; unfold tidy, loadDataFromDisk in *.
{ unfold aofLoadManifestFromDisk. rewrite Em. eexists. split; [done|]. right. left. done. }
destruct (settled_manifest n am0 d older new before Hn Hs) as (am & Em & Hsh & Hdirty & Hs'). rewrite Em in *. pose proof Hp as (Hfile & Hwf & _).
destruct (load_all n am d older new before es p Hs' Hp) as (i & b & Hi & Hb & [(-> & -> & Hl)|[Hl1 Hl2]]).
{ rewrite Hl. eexists. split; [done|]. right. right. exists d, am, older, new, before, es. rewrite app_nil_r in Hfile. done. }
destruct truncates; [|rewrite Hl2; eexists; split; [done|]; by left]. rewrite Hl1 in *. cbn [mbind result_bind mret result_ret] in *. eexists. split; [done|]. right. right.
destruct (leftover_part es b d new i Hi Hwf Hb) as (q & Hq & ->). pose proof (settled_put n am d older new before i (Log (wires es ++ q)) Hsh Hn Hd Hs' Hi) as Hset.
destruct (load_all n am _ older new before es q Hset Hq) as (i' & b' & _ & _ & [(-> & _ & _)|[Hl3 _]]); [|by rewrite Hl3 in Ht].
exists (put_content i (Log (wires es ++ [])) d), am, older, new, before, es. split_and!; try done; [by apply disk_ok_put|]. rewrite (file_put_same _ _ _ _ Hi), app_nil_r. done.
Qed.

(** A process that starts on a good directory: it exits when it cannot write, else it goes on
    with the dataset recovered. *)
Lemma start_good n d got gc now truncates created opened o1 o2 : 0 <= n -> n + 2 < 2 ^ 62 -> kept o1 -> good n d got -> tidy d = true ->
  exists r, start fn rdb gc now truncates created opened o1 o2 d = inr r /\
  match r with inl d' => d' = d /\ truncates = false | inr (ok, s) => started (n + 2) (all_fine created opened o1) got ok s end.
Proof using St.
intros Hn Hb Ho Hg Ht. unfold start.
assert (forall am data d' x, (exists ok s, aofOpenIfNeededOnServerStart fn rdb created opened o1 (set_store d' (first_state gc now am data d)) = inr (ok, s) /\ started (n + 2) x data ok s) ->
  exists r, ('(ok, s) ← aofOpenIfNeededOnServerStart fn rdb created opened o1 (set_store d' (first_state gc now am data d));
    if negb ok then mret (inr (false, s)) else s ← aofDelHistoryFiles o2 s; mret (inr (true, s))) = inr r /\
  match r with inl d' => d' = d /\ truncates = false | inr (ok, s) => started (n + 2) x data ok s end) as Hdel.
{ intros am data d' x (ok & s & -> & Hs). cbn [mbind result_bind]. destruct ok; cbn [negb]; [|by eexists]. destruct Hs as (Htr & Hx & Hup). destruct (Hup eq_refl) as (Est & Edb & Hup').
  destruct (up_delete (n + 2) s o2 Hb Hup') as (s' & -> & Hs' & Est' & Edb'). eexists. split; [done|]. split; [apply Hs'|]. split; [done|]. rewrite Est', Edb'. done. }
destruct (load_good n d got truncates ltac:(lia) Hg Ht) as (r & -> & [(-> & ->)|[(-> & -> & Hd & Em & Hf)|(d' & am & older & new & before & es & -> & -> & Hd & Hsh & Hdirty & Hset & Hfile & Hwf)]]);
  cbn [mbind result_bind].
- by eexists.
- apply Hdel. by apply open_first.
- apply Hdel. apply (open_existing (n + 2) d d' am older new before es); try done; [apply (shape_mono fn rdb n)|apply (settled_mono fn rdb n)]; done || lia.
Qed.
End Rewrite.
