(* ===== verification/AofRun.v ===== *)
(** * Append only files: runs and crashes

    A process runs, is killed at any moment, and another one starts on the directory it left.
    The theorems are about every such history in which the configuration is a [Setting] and each
    event is [allowed]; the last theorems show what the exceptions do. *)

From S2P Require Import Prelude Bytes NumString SdsText SdsEdit SdsQuote AofManifest AofManifestFacts AofLog AofLogFacts AofServer AofDisk AofCrash AofRewrite.

Section Events.
Context `{cf : Config} (fn : bytes) (rdb : bool).
Implicit Types (s : server) (d : disk) (w : io).

#[export] Instance op_ok_dec o : Decision (op_ok o).
Proof. unfold op_ok, ordinary, readable, fits_memory. apply _. Defined.

(** What happens to a process: commands that are executed together, a flush before it sleeps,
    the commands and the timers that rewrite the log, the end of a child, and changes of the
    configuration. *)
Inductive event :=
  | Command (now : Z) (arbitrary : bool) (ops : batch)
  | Flush (force : bool) (w : io)
  | Rewrite (busy : bool) (w : io) (opened : bool) (o : persisting) (forked : bool)
  | RewriteDone (o : outcomes)
  | Stop (w : io)
  | Start (busy : bool) (w : io) (opened : bool) (o : persisting) (forked : bool)
  | AutoGC (disabled : bool) (o : persisting).

(** The flag is false when the process exits. *)
Definition step (e : event) s : result (bool * server) :=
  match e with
  | Command now arbitrary ops => s ← execute now arbitrary ops s; mret (true, s)
  | Flush force w => flushAppendOnlyFile force w s
  | Rewrite busy w opened o forked => '(running, _, s) ← rewriteAppendOnlyFileBackground fn busy w opened o forked s; mret (running, s)
  | RewriteDone o => s ← backgroundRewriteDoneHandler fn rdb o s; mret (true, s)
  | Stop w => stopAppendOnly w s
  | Start busy w opened o forked => startAppendOnly fn busy w opened o forked s
  | AutoGC disabled o => s ← updateAofAutoGCEnabled disabled o s; mret (true, s)
  end.

Definition synced (o : persisting) : bool := match o with NotSynced => false | _ => true end.
Definition is_off s : bool := match aof_state s with AOF_OFF => true | _ => false end.
Definition is_on s : bool := match aof_state s with AOF_ON => true | _ => false end.
Definition has_child s : bool := match child s with Some _ => true | None => false end.
Definition empty_buffer s : bool := bool_decide (aof_buf (log s) = []).

(** No short write is undone in a file that was opened without [O_APPEND]. *)
Definition keeps_end (force : bool) w s : bool :=
  empty_buffer s || match flushAppendOnlyFile force w s with inr (true, s') => at_end s' | _ => true end.
(** The flush before a rewrite is complete. *)
Definition flushes_all w s : bool :=
  negb (is_on s) || match flushAppendOnlyFile true w (unselected s) with inr (true, s') => at_end s' && empty_buffer s' | _ => true end.

(** The handler is called for a child, and the configuration only changes.  The other conditions
    are that commands are ordinary ones, that a rewrite is not started with the log off, and what
    is said above. *)
Definition allowed (e : event) s : bool :=
  match e with
  | Command _ _ ops => forallb (fun o => bool_decide (op_ok o)) ops
  | Flush force w => keeps_end force w s
  | Rewrite busy w _ o _ => negb (is_off s) && synced o && (busy || has_child s || flushes_all w s)
  | RewriteDone o => has_child s && synced (first_persist o)
  | Stop w => negb (is_off s) && keeps_end true w s
  | Start _ _ _ o _ => is_off s && synced o
  | AutoGC _ _ => true
  end.

(** A disk that a process leaves, at any change of the directory or now, with what its clients
    were promised. *)
Definition leaves (running : bool) s d (p : option (dataset * dataset)) : Prop := In (d, p) (trace s) \/ running = true /\ d = store s /\ p = promise s.

Definition empty_disk : disk := mk_disk ∅ ∅ 0 None.

(** A history with [n / 2] events, and its last process. *)
Inductive reachable : Z -> bool -> server -> Prop :=
  | reach_first gc now truncates created opened o1 o2 ok s :
      synced o1 = true -> start fn rdb gc now truncates created opened o1 o2 empty_disk = inr (inr (ok, s)) -> reachable 2 ok s
  | reach_crash n running s d p gc now truncates created opened o1 o2 ok s' :
      reachable n running s -> leaves running s d p -> tidy d = true -> synced o1 = true ->
      start fn rdb gc now truncates created opened o1 o2 d = inr (inr (ok, s')) -> reachable (n + 2) ok s'
  | reach_step n e s running s' : reachable n true s -> allowed e s = true -> step e s = inr (running, s') -> reachable (n + 2) running s'.
End Events.

Section Run.
Context `{cf : Config} (fn : bytes) (rdb : bool) `{St : !Setting fn}.
Implicit Types (s : server) (d : disk) (w : io).
#[local] Notation inv := (inv fn rdb).
#[local] Notation trace_ok := (trace_ok fn rdb).
#[local] Notation good := (good fn rdb).

Lemma synced_kept o : synced o = true -> kept o.
Proof. by destruct o. Qed.

Lemma empty_good : good 0 empty_disk [].
Proof. split; [by split|]. left. split; [done|]. split; [done|]. intros i E. done. Qed.

Lemma keeps_end_spec force w s s' : keeps_end force w s = true -> flushAppendOnlyFile force w s = inr (true, s') -> aof_buf (log s) = [] \/ at_end s' = true.
Proof. unfold keeps_end, empty_buffer. intros H E. rewrite E in H. apply orb_true_iff in H as [H|H]; [left; by apply bool_decide_eq_true in H|by right]. Qed.

Lemma flushes_all_spec busy w s : busy || has_child s || flushes_all w s = true -> busy = false -> child s = None -> flushed_all w s.
Proof.
unfold flushes_all, has_child, is_on. intros H -> Ec s' E Est. rewrite Ec, Est, E in H. cbn [orb negb] in H. apply andb_true_iff in H as [H1 H2]. by apply bool_decide_eq_true in H2.
Qed.

Lemma step_ok n e s : n + 2 < 2 ^ 62 -> inv n s -> allowed e s = true -> exists running s', step fn rdb e s = inr (running, s') /\ trace_ok (n + 2) s' /\ (running = true -> inv (n + 2) s').
Proof using St.
intros Hn Hi Ha.
assert (forall m (r : result (bool * server)), m <= n + 2 -> (exists running s', r = inr (running, s') /\ trace_ok m s' /\ (running = true -> inv m s')) ->
  exists running s', r = inr (running, s') /\ trace_ok (n + 2) s' /\ (running = true -> inv (n + 2) s')) as Hm
  by (intros m r Hle (run & s' & E & Ht & H); exists run, s'; split; [done|]; split; [by apply (trace_mono fn rdb m)|]; intros Hr; apply (inv_mono fn rdb m); auto).
assert (forall m (r : result server), m <= n + 2 -> (exists s', r = inr s' /\ inv m s') ->
  exists running s', (s ← r; mret (true, s)) = inr (running, s') /\ trace_ok (n + 2) s' /\ (running = true -> inv (n + 2) s')) as Hm'
  by (intros m r Hle (s' & -> & H); apply (Hm m); [done|]; exists true, s'; split; [done|]; split; [apply (inv_core fn rdb m s' H)|done]).
assert (is_off s = false -> aof_state s <> AOF_OFF) as Hoff by (unfold is_off; by destruct (aof_state s)).
destruct e as [now arbitrary ops|force w|busy w opened o forked|o|w|busy w opened o forked|disabled o]; cbn [allowed step] in *; rewrite ?andb_true_iff, ?negb_true_iff in Ha.
- apply (Hm' n); [lia|]. apply (inv_execute fn rdb n s); [|exact Hi]. rewrite forallb_forall in Ha. apply List.Forall_forall. intros o Hin. apply Ha in Hin. by apply bool_decide_eq_true in Hin.
- apply (Hm n); [lia|]. destruct (inv_flush fn rdb n s force w ltac:(lia) Hi) as (run & s' & E & Ht & _ & _ & H). exists run, s'. split; [done|]. split; [done|]. intros ->. apply H; [done|].
  by apply (keeps_end_spec force w).
- destruct Ha as [[Ha Ho] Hall]. apply (Hm (n + 1)); [lia|].
  destruct (inv_rewrite fn rdb n s busy w opened o forked ltac:(lia) (synced_kept o Ho) (Hoff Ha) (flushes_all_spec busy w s Hall) Hi) as (run & ret & s' & -> & Ht & H).
  exists run, s'. split; [done|]. split; [done|]. intros Hr. by apply H.
- destruct Ha as [Ha Ho]. apply (Hm' (n + 2)); [lia|]. apply (inv_done fn rdb n s); auto using synced_kept. unfold has_child in Ha. by destruct (child s).
- destruct Ha as [Ha Hend]. apply (Hm n); [lia|]. apply (inv_stop fn rdb n s w); [lia|auto| |done]. intros s'. by apply keeps_end_spec.
- destruct Ha as [Ha Ho]. apply (Hm (n + 1)); [lia|]. apply (inv_start fn rdb n s); auto using synced_kept; [lia|]. unfold is_off in Ha. by destruct (aof_state s).
- apply (Hm' n); [lia|]. apply (inv_gc fn rdb n s); (done || lia).
Qed.

Lemma leaves_acceptable n running s d p : trace_ok n s -> (running = true -> inv n s) -> leaves running s d p ->
  exists got, good n d got /\ forall lo hi, p = Some (lo, hi) -> lo `prefix_of` got /\ got `prefix_of` hi.
Proof.
intros Ht Hi [Hin|(-> & -> & ->)].
- unfold AofCrash.trace_ok in Ht. rewrite List.Forall_forall in Ht. by apply (Ht (d, p)).
- specialize (Hi eq_refl). pose proof (inv_core fn rdb n s Hi) as (_ & Hd & _). unfold AofCrash.inv in Hi. destruct (aof_state s) eqn:Est.
  2:{ destruct Hi as (_ & Hl & _). by apply logging_acceptable. }
  all: destruct Hi as (_ & Hp & _); destruct (parked_fine fn rdb n s Hd Hp) as [got Hg]; apply (parked_acceptable fn rdb n s _ got); [congruence|done].
Qed.

Lemma reachable_good n running s : reachable fn rdb n running s -> 0 <= n /\ (n < 2 ^ 62 -> trace_ok n s /\ (running = true -> inv n s)).
Proof using St.
assert (forall m fine data ok s, started fn rdb m fine data ok s -> trace_ok m s /\ (ok = true -> inv m s)) as Hst
  by (intros m fine data ok s0 (Ht & _ & H); split; [done|]; intros Hok; destruct (H Hok) as (Est & _ & Hu); unfold AofCrash.inv; by rewrite Est).
induction 1 as [gc now tr created opened o1 o2 ok s Ho E|n running s d p gc now tr created opened o1 o2 ok s' Hr [Hn IH] Hl Ht Ho E|n e s running s' Hr [Hn IH] Ha E].
- split; [done|]. intros _. destruct (start_good fn rdb 0 empty_disk [] gc now tr created opened o1 o2) as (r & E' & Hs'); [done|lia|by apply synced_kept|exact empty_good|done|].
  rewrite E in E'. injection E' as <-. by eapply Hst.
- split; [lia|]. intros Hn2. destruct (IH ltac:(lia)) as [Htr Hi]. destruct (leaves_acceptable n running s d p Htr Hi Hl) as (got & Hg & _).
  destruct (start_good fn rdb n d got gc now tr created opened o1 o2) as (r & E' & Hs'); [done|lia|by apply synced_kept|done|done|]. rewrite E in E'. injection E' as <-. by eapply Hst.
- split; [lia|]. intros Hn2. destruct (IH ltac:(lia)) as [Htr Hi]. destruct (step_ok n e s ltac:(lia) (Hi eq_refl) Ha) as (run & s1 & E' & Ht1 & Hi1). rewrite E in E'. by injection E' as <- <-.
Qed.
End Run.

(** ** A life of two processes *)

#[export] Instance example_config : Config := {| dbnum := 16; known := fun _ => true; aof_load_truncated := true; aof_timestamp_enabled := false |}.
Definition name : bytes := text "a.aof".
#[export] Instance example_setting : Setting name.
Proof. split; [repeat constructor; by_decide|by_decide|done|done|by_decide]. Qed.

Definition complete : io := mk_io AOF_FSYNC_EVERYSEC 10 false [] true true false.
(** Some bytes are written, and [ftruncate] succeeds or not. *)
Definition partial (k : nat) (undone : bool) : io := mk_io AOF_FSYNC_NO 10 false [Interrupted; Wrote k; WriteError] undone true false.
Definition done_well : outcomes := mk_outcomes true true true Persisted Persisted.
Definition set_ (db : Z) (k v : string) : op := (db, [text "SET"; text k; text v]).

Definition live_step (s : server) (e : event) : result server :=
  _ ← assert (allowed e s); '(running, s) ← step name true e s; _ ← assert running; mret s.
Definition boot (d : disk) : result server :=
  _ ← assert (tidy d); o ← start name true false 1 true true true Persisted Persisted d; match o with inr (true, s) => mret s | _ => inl AssertFails end.

(** The log is rewritten, turned off and on again, a rewrite fails, and the process is killed
    when it has written a part of a command; the second process goes on. *)
Definition life (es : list event) : result server := s ← boot empty_disk; for_each live_step s es.
Definition first_life : result server :=
  life
    [Command 1 false [set_ 0 "a" "1"]; Flush false complete; Rewrite false complete true Persisted true; Command 1 false [set_ 0 "b" "2"; set_ 1 "c" "3"];
     Flush false (partial 20 false); Flush false complete; RewriteDone done_well; Stop complete; Command 1 false [set_ 0 "d" "4"];
     Start false complete true Persisted true; Command 1 false [set_ 2 "e" "5"]; RewriteDone done_well; Flush true complete; Rewrite false complete true Persisted true;
     RewriteDone (mk_outcomes true true true NotWritten Persisted); Command 1 false [set_ 2 "f" "6"]; Flush false (partial 10 false)].
Definition second_life : result server := s ← first_life; s ← boot (store s); for_each live_step s [Command 1 false [set_ 0 "g" "7"]; Flush false (partial 50 true); Flush false complete].

Lemma live_reachable es : forall n s s', reachable name true n true s -> for_each live_step s es = inr s' -> reachable name true (n + 2 * Z.of_nat (length es)) true s'.
Proof.
induction es as [|e es IH]; intros n s s' Hr E; [injection E as <-; by rewrite Z.add_0_r|]. cbn [for_each] in E.
destruct (live_step s e) as [f|s1] eqn:E1; [done|]. cbn [mbind result_bind] in E. unfold live_step in E1. destruct (allowed e s) eqn:Ea; [|done]. cbn [assert mbind result_bind] in E1.
destruct (step name true e s) as [f|[running s2]] eqn:E2; [done|]. cbn [mbind result_bind] in E1. destruct running; [|done]. injection E1 as <-.
replace (n + 2 * Z.of_nat (length (e :: es))) with (n + 2 + 2 * Z.of_nat (length es)) by (cbn [length]; lia). apply (IH _ s2); [|done]. by apply (reach_step name true n e s).
Qed.

Lemma boot_inv d s : boot d = inr s -> tidy d = true /\ start name true false 1 true true true Persisted Persisted d = inr (inr (true, s)).
Proof. unfold boot. destruct (tidy d); [|done]. cbn [assert mbind result_bind]. destruct (start _ _ _ _ _ _ _ _ _ d) as [f|[x|[[|] s']]]; try done. cbn. by intros [= ->]. Qed.

Lemma life_reachable es s : life es = inr s -> reachable name true (2 + 2 * Z.of_nat (length es)) true s.
Proof.
unfold life. destruct (boot empty_disk) as [f|s0] eqn:E0; [discriminate|]. cbn [mbind result_bind]. intros E. apply boot_inv in E0 as [_ E0].
refine (live_reachable _ 2 s0 s _ E). by apply (reach_first name true false 1 true true true Persisted Persisted).
Qed.

Lemma first_reachable s : first_life = inr s -> reachable name true 36 true s.
Proof. apply life_reachable. Qed.

Lemma second_reachable s : second_life = inr s -> reachable name true 44 true s.
Proof.
unfold second_life. destruct first_life as [f|s0] eqn:E0; [discriminate|]. cbn [mbind result_bind]. destruct (boot (store s0)) as [f|s1] eqn:E1; [discriminate|]. cbn [mbind result_bind].
intros E. apply boot_inv in E1 as [Et E1]. refine (live_reachable _ 38 s1 s _ E). pose proof (first_reachable s0 E0) as Hr.
apply (reach_crash name true 36 true s0 (store s0) (promise s0) false 1 true true true Persisted Persisted); [exact Hr| |exact Et|reflexivity|exact E1].
right. split; [reflexivity|]. split; reflexivity.
Qed.

(** C5: a crash loses nothing that was flushed.  In every history of commands, flushes with short
    and failing writes, rewrites, switches of the log, failures, crashes and restarts whose events
    are [allowed], each directory that a process can leave, at any change of a file or of the
    manifest, is recovered.  With the log on, the dataset recovered has all that was executed
    before the last flush that was complete, and nothing that was not executed; and when the
    buffer is empty it is the dataset of the process. *)
Theorem aof_crash_consistent {cf : Config} (fn : bytes) (rdb : bool) {St : Setting fn} (n : Z) (running : bool) (s : server) :
  n < 2 ^ 62 -> reachable fn rdb n running s ->
  (forall d p, leaves running s d p -> exists got, recover d = Some got /\ forall lo hi, p = Some (lo, hi) -> lo `prefix_of` got /\ got `prefix_of` hi) /\
  (running = true -> aof_state s = AOF_ON -> aof_buf (log s) = [] -> recover (store s) = Some (db s)).
Proof.
intros Hn Hr. destruct (reachable_good fn rdb n running s Hr) as [_ Hi]. destruct (Hi Hn) as [Ht Hinv]. split.
- intros d p Hl. destruct (leaves_acceptable fn rdb n running s d p Ht Hinv Hl) as (got & Hg & Hp). exists got. split; [|done]. by apply (good_recover fn rdb n).
- intros Hrun Est Eb. destruct (leaves_acceptable fn rdb n running s (store s) (promise s) Ht Hinv) as (got & Hg & Hp); [by right|]. rewrite (good_recover fn rdb n _ got Hn Hg). f_equal.
  specialize (Hinv Hrun). unfold AofCrash.inv in Hinv. rewrite Est in Hinv. destruct Hinv as (_ & Hlog & _). destruct (logging_whole fn rdb n s Hlog Eb) as [_ Ef].
  destruct (Hp (db s) (db s)) as [H1 H2]; [unfold promise; by rewrite Est, Ef|]. by apply (anti_symm prefix).
Qed.

(** C23: the server goes on.  In any such history no assertion of the code fails and no file is
    missing when it is written, for every event that is allowed next; and a process started on a
    directory that was left behind, whose log does not end within a transaction, reads it, exits
    only when it cannot write, and else has the dataset recovered. *)
Theorem aof_runs_on {cf : Config} (fn : bytes) (rdb : bool) {St : Setting fn} (n : Z) (running : bool) (s : server) : n + 2 < 2 ^ 62 -> reachable fn rdb n running s ->
  (forall e, running = true -> allowed e s = true -> exists running' s', step fn rdb e s = inr (running', s')) /\
  (forall d p gc now truncates created opened o1 o2, leaves running s d p -> tidy d = true -> synced o1 = true -> exists r got,
    start fn rdb gc now truncates created opened o1 o2 d = inr r /\ recover d = Some got /\
    match r with
    | inl d' => d' = d /\ truncates = false
    | inr (ok, s') => (all_fine created opened o1 = true -> ok = true) /\ (ok = true -> aof_state s' = AOF_ON /\ db s' = got)
    end).
Proof.
intros Hn Hr. destruct (reachable_good fn rdb n running s Hr) as [Hpos Hi]. destruct (Hi ltac:(lia)) as [Ht Hinv]. split.
- intros e -> Ha. destruct (step_ok fn rdb n e s Hn (Hinv eq_refl) Ha) as (run & s' & E & _). by exists run, s'.
- intros d p gc now tr created opened o1 o2 Hl Htidy Ho. destruct (leaves_acceptable fn rdb n running s d p Ht Hinv Hl) as (got & Hg & _).
  destruct (start_good fn rdb n d got gc now tr created opened o1 o2 Hpos Hn (synced_kept o1 Ho) Hg Htidy) as (r & E & Hs). exists r, got. split; [done|].
  split; [apply (good_recover fn rdb n); [lia|done]|]. destruct r as [d'|[ok s']]; [done|]. destruct Hs as (_ & Hf & Hok). split; [done|]. intros H. by destruct (Hok H) as (? & ? & _).
Qed.

Definition known_data : dataset :=
  [[set_ 0 "a" "1"]; [set_ 0 "b" "2"; set_ 1 "c" "3"]; [set_ 0 "d" "4"]; [set_ 2 "e" "5"]; [set_ 0 "g" "7"]].

Lemma aof_crash_consistent_witness : match second_life with inr s => recover (store s) = Some known_data | inl _ => False end.
Proof.
assert ((r ← second_life; mret (aof_state r, aof_buf (log r), db r)) = inr (AOF_ON, [], known_data)) as Ep by (vm_compute; reflexivity).
destruct second_life as [f|s] eqn:E; [discriminate Ep|]. injection Ep as E1 E2 E3. rewrite <- E3.
apply (aof_crash_consistent name true 44 true s); [lia|exact (second_reachable s E)|reflexivity|exact E1|exact E2].
Defined.

Lemma aof_runs_on_witness : match first_life with inr s => exists running s', step name true (Flush false complete) s = inr (running, s') | inl _ => False end.
Proof.
assert ((r ← first_life; mret (allowed (Flush false complete) r)) = inr true) as Ep by (vm_compute; reflexivity).
destruct first_life as [f|s] eqn:E; [discriminate Ep|]. injection Ep as Ep.
apply (aof_runs_on name true 36 true s); [lia|exact (first_reachable s E)|reflexivity|exact Ep].
Defined.

(** ** The exceptions *)

Section Loss.
Context `{cf : Config} (fn : bytes) (rdb : bool) `{St : !Setting fn}.
Implicit Types (s : server) (d : disk) (w : io).
#[local] Notation inv := (AofCrash.inv fn rdb).
#[local] Notation shape := (AofCrash.shape fn rdb).

(** The base file of the manifest is missing. *)
Definition baseless (n : Z) d : Prop := exists am b, manifest_file d = Some (getAofManifestAsString am) /\ shape n am /\ base_aof_info am = Some b /\ names d !! file_name b = None.

Lemma baseless_recover n d : n < 2 ^ 62 -> baseless n d -> recover d = None.
Proof using St.
intros Hn (am & b & Em & Hs & Eb & Ename). unfold recover, loadDataFromDisk. rewrite (reload_manifest fn rdb n am Hn Hs d); [|unfold live; by rewrite Eb|done].
unfold loadAppendOnlyFiles. cbn [set_dirty base_aof_info incr_aof_list]. rewrite Eb. rewrite bool_decide_false by done. change (option_list (Some b) ++ ?l) with (b :: l). cbn [forallb]. rewrite Ename. done.
Qed.

Lemma baseless_unlink n d x : baseless n d -> baseless n (unlink x d).
Proof. intros (am & b & Em & Hs & Eb & Ename). exists am, b. do 3 (split; [done|]). cbn [unlink names]. apply lookup_delete_None. by right. Qed.

Lemma finish_unsynced n s o temp_am new_incr older new b fd : shape n temp_am -> base_aof_info temp_am = Some b -> incr_aof_list temp_am = older ++ [new] -> aof_fd (log s) = Some fd ->
  first_persist o = NotSynced -> exists s', finish_rewrite o (file_name b) temp_am new_incr s = inr s' /\ baseless n (store s') /\ aof_state s' = aof_state s.
Proof.
intros Hs Eb Ei Efd Eo. unfold finish_rewrite. rewrite Efd, bool_decide_true by eauto. destruct (shape_mark fn rdb n temp_am older new Hs Ei) as (am' & -> & Hs' & Eb' & _ & Ed).
cbn [mbind result_bind]. unfold persistAofManifest. rewrite Ed, Eo. cbn [negb]. eexists. split; [done|].
assert (baseless n (unlink (file_name b) (put_manifest (getAofManifestAsString am') (store s)))) as Hl by (exists am', b; split; [done|]; split; [done|]; split; [congruence|]; apply lookup_delete_eq).
destruct new_incr; (split; [|done]); [by apply baseless_unlink|done].
Qed.

Lemma done_unsynced n s o : n + 2 < 2 ^ 62 -> inv n s -> child s <> None -> exited o = true -> base_renamed o = true -> incr_renamed o = true -> first_persist o = NotSynced ->
  exists s', backgroundRewriteDoneHandler fn rdb o s = inr s' /\ baseless (n + 2) (store s').
Proof using St.
intros Hn Hi Hch E1 E2 E3 E4. destruct (child s) as [snapshot|] eqn:Ec; [|done]. pose proof (inv_core fn rdb n s Hi) as (Hs & Hd & _).
unfold backgroundRewriteDoneHandler. rewrite Ec, E1, E2, E3. cbn [the mbind result_bind]. destruct (shape_new_base fn rdb n _ Hs) as (am & -> & Hs' & Eb & Ei & _). cbn [mbind result_bind].
set (b := base_info fn rdb _ AOF_FILE_TYPE_BASE) in *. change (base_name fn rdb _) with (file_name b). set (s1 := set_store _ s). change (aof_state s1) with (aof_state s). unfold AofCrash.inv in Hi.
destruct (aof_state s) eqn:Est; [destruct Hi as (_ & _ & _ & Hq); rewrite Est in Hq; congruence| |].
- destruct Hi as (_ & (older & new & before & (E & _) & (i & off & esA & esB & c & _ & _ & Hw)) & _).
  destruct (finish_unsynced (n + 2) s1 o am None older new b (mk_descriptor i off)) as (s' & -> & Hl & Est'); [apply (shape_mono fn rdb (n + 1)); [done|lia]|done|congruence|apply Hw|done|].
  cbn [mbind result_bind]. rewrite Est'. cbn [s1 set_store aof_state]. rewrite Est. by eexists.
- destruct Hi as (_ & _ & _ & Hq). rewrite Est in Hq. destruct (Hq snapshot Ec) as (i & off & esA & esB & c & Hname & _ & Hw).
  pose proof (shape_new_incr fn rdb _ _ Hs') as Hs2. rewrite <- Z.add_assoc in Hs2. destruct (getNewIncrAofName fn am) as [name am2] eqn:Eg. cbn [snd] in Hs2.
  assert (base_aof_info am2 = Some b /\ exists older new, incr_aof_list am2 = older ++ [new]) as (Eb2 & older & new & Ei2) by (unfold getNewIncrAofName in Eg; injection Eg as <- <-; cbn; eauto).
  unfold rename. cbn [s1 set_store store]. rewrite (proj1 (same_new (file_name b) (Snapshot snapshot) (store s) _ Hd (temp_not_base fn rdb _))), Hname. cbn [mbind option_bind].
  match goal with |- context [finish_rewrite o _ am2 _ ?x] => destruct (finish_unsynced (n + 2) x o am2 (Some name) older new b (mk_descriptor i off)) as (s' & -> & Hl & Est') end; [done|done|done|apply Hw|done|].
  cbn [mbind result_bind]. rewrite Est'. cbn [s1 set_store aof_state]. rewrite Est. eexists. split; [done|]. by apply baseless_unlink.
Qed.

(** A flush that writes the whole buffer. *)
Lemma flush_complete w s fd b : aof_fd (log s) = Some fd -> log_at (store s) (inode fd) = Some b -> aof_buf (log s) <> [] -> replies w = [] -> fsyncs w = true ->
  exists s', flushAppendOnlyFile true w s = inr (true, s') /\ same_server s s' /\ flushed s' = db s /\ aof_buf (log s') = [] /\
    store s' = put_content (inode fd) (Log match offset fd with Some off => overwrite off (aof_buf (log s)) b | None => b ++ aof_buf (log s) end) (store s).
Proof.
intros Efd Eb Hne Er Ef. unfold flushAppendOnlyFile. rewrite bool_decide_false by done. cbn [negb andb]. rewrite Er. destruct (aof_buf (log s)) as [|x buf] eqn:Ebuf; [done|].
cbn [aofWrite]. unfold write_log, write. rewrite Efd. cbn [the mbind result_bind]. rewrite Eb. cbn [the mbind result_bind mret result_ret].
assert (forall s0, exists l, try_fsync w s0 = (true, set_log l s0) /\ same_log (log s0) l) as Hsync.
{ intros s0. destruct (try_fsync_same w s0) as (run & l & E & Hl). exists l. split; [|done]. rewrite E. f_equal. apply (f_equal fst) in E. cbn [fst] in E. rewrite <- E. unfold try_fsync. rewrite Ef.
  destruct (no_fsync w), (always w); try done; by destruct (everysec w && _). }
destruct fd as [i [off|]]; cbn [offset inode mret result_ret mbind result_bind]; rewrite Z.add_0_l, Z.eqb_refl; cbn [negb];
  (match goal with |- context [try_fsync w ?x] => destruct (Hsync x) as (l & -> & Hl) end; eexists; split; [done|]; split; [by split|]; split; [done|]; split; [exact (same_buf _ _ Hl)|done]).
Qed.

(** A flush that writes [k] bytes and takes them back: the descriptor stays behind them. *)
Lemma flush_undone w s i b k : aof_fd (log s) = Some (mk_descriptor i (Some (length b))) -> inodes (store s) !! i = Some (Log b) -> aof_last_incr_size (log s) = length b ->
  (0 < k < length (aof_buf (log s)))%nat -> replies w = [Wrote k; WriteError] -> ftruncates w = true -> always w = false ->
  exists s', flushAppendOnlyFile true w s = inr (true, s') /\ same_server s s' /\ aof_buf (log s') = aof_buf (log s) /\ store s' = store s /\
    aof_fd (log s') = Some (mk_descriptor i (Some (length b + k)%nat)).
Proof.
intros Efd Eb Esize Hk Er Ef Ew. unfold flushAppendOnlyFile. rewrite bool_decide_false by (intros E; rewrite E in Hk; cbn in Hk; lia). cbn [negb andb]. rewrite Er.
set (buf := aof_buf (log s)) in *. assert (exists x l, buf = x :: l) as (x & l & El) by (destruct buf as [|x l]; [cbn in Hk; lia|eauto]).
assert (exists y l, drop k buf = y :: l) as (y & l' & Ed) by (destruct (drop k buf) eqn:E; [apply (f_equal length) in E; rewrite length_drop in E; cbn in E; lia|eauto]).
assert (log_at (store s) i = Some b) as Hb by (unfold log_at; by rewrite Eb). assert (length (take k buf) = k) as Ek by (rewrite length_take; lia).
rewrite El. cbn [aofWrite]. rewrite <- El. unfold write_log, write. rewrite Efd. cbn [the mbind result_bind inode]. rewrite Hb. cbn [the mbind result_bind mret result_ret offset inode]. rewrite Ek, Ed. cbn [aofWrite].
rewrite Z.add_0_l, (proj2 (Z.eqb_neq (Z.of_nat k) 0)) by lia. cbn [mbind result_bind mret result_ret]. rewrite (proj2 (Z.eqb_neq _ _)) by (fold buf; lia). cbn [negb].
unfold write_failed. rewrite (proj2 (Z.eqb_neq _ _)) by lia. rewrite Ef, Ew. cbn [set_log set_store log store with_fd with_postponed aof_fd aof_last_incr_size the mbind result_bind inode]. unfold ftruncate.
rewrite log_at_put, Esize. unfold overwrite. rewrite take_ge, Nat.sub_diag by lia. cbn [replicate app the mbind result_bind mret result_ret]. rewrite take_app_length, length_app, (proj2 (Nat.sub_0_le _ _)) by lia.
cbn [replicate]. rewrite app_nil_r, put_again, put_id by done. eexists. split; [done|]. split; [by split|]. done.
Qed.

(** The last file is not read. *)
Lemma last_unreadable n am d older new before c : n < 2 ^ 62 -> settled fn rdb n am d older new before -> file_at d new = Some (Log c) -> load_log c = inr LoadFailed -> recover d = None.
Proof using St.
intros Hn Hs Hf Hc. unfold recover, loadDataFromDisk. destruct (settled_manifest fn rdb n am d older new before Hn Hs) as (am' & -> & _ & _ & Hs'). rewrite (load_to_last fn rdb n am' d older new before _ true Hs' Hf).
cbn [load_files]. unfold loadSingleAppendOnlyFile. unfold file_at in Hf. destruct (names d !! file_name new) as [i|]; [|done]. cbn [mbind option_bind] in Hf. rewrite Hf. cbn [the mbind result_bind]. by rewrite Hc.
Qed.

Lemma undone_hole n s i off now arbitrary ops w1 w2 k s1 : n < 2 ^ 62 -> up fn rdb n s -> aof_state s = AOF_ON -> aof_buf (log s) = [] -> aof_fd (log s) = Some (mk_descriptor i (Some off)) ->
  ops <> [] -> Forall op_ok ops -> execute now arbitrary ops s = inr s1 -> (0 < k < length (aof_buf (log s1)))%nat ->
  replies w1 = [Wrote k; WriteError] -> ftruncates w1 = true -> always w1 = false -> replies w2 = [] -> fsyncs w2 = true ->
  exists s2 s3, flushAppendOnlyFile true w1 s1 = inr (true, s2) /\ flushAppendOnlyFile true w2 s2 = inr (true, s3) /\
    aof_state s3 = AOF_ON /\ aof_buf (log s3) = [] /\ db s3 = db s1 /\ recover (store s3) = None.
Proof using St.
intros Hn ((Hsh & Hd & _) & (older & new & before & Hs & (j & off' & esA & esB & c & Hname & Hi & [H1 H2 H3 H4 H5 _ _ _ _])) & _) Est Eb Efd Hne Ho E Hk R1 T1 A1 R2 F2.
rewrite Efd in H1. injection H1 as <- <-. rewrite Eb, app_nil_r in H4. subst c. rewrite app_nil_r in H2. destruct H2 as [?|[= ->]]; [done|]. rewrite <- wires_app in *.
rewrite (execute_ok fn) in E by (done || congruence). injection E as <-. set (s1 := set_log _ _) in *.
destruct (flush_undone w1 s1 i (wires (esA ++ esB)) k) as (s2 & E2 & Hs2 & Eb2 & Est2 & Efd2);
  [cbn [s1 set_log log]; unfold appended; by destruct (appending s)|exact Hi|cbn [s1 set_log log]; unfold appended; by destruct (appending s)|done..|].
change (store s1) with (store s) in Est2. destruct (flush_complete w2 s2 _ (wires (esA ++ esB)) Efd2) as (s3 & E3 & Hs3 & _ & Eb3 & Est3);
  [cbn [inode]; unfold log_at; by rewrite Est2, Hi|intros E0; rewrite <- Eb2, E0 in Hk; cbn in Hk; lia|done|done|].
exists s2, s3. split; [done|]. split; [done|]. split; [rewrite (same_state _ _ Hs3), (same_state _ _ Hs2); exact Est|]. split; [done|]. split; [by rewrite (same_db _ _ Hs3), (same_db _ _ Hs2)|].
rewrite Est3, Est2. cbn [inode offset]. apply (last_unreadable n (aof_manifest s) _ older new before (overwrite (length (wires (esA ++ esB)) + k) (aof_buf (log s2)) (wires (esA ++ esB)))); [done| | |].
- by apply (settled_put fn rdb n).
- by apply file_put_same.
- unfold overwrite. rewrite take_ge by lia. replace (length _ + k - length _)%nat with (S (pred k)) by lia. cbn [replicate app]. by apply load_hole; [apply truncating|].
Qed.

(** A log that ends within a transaction is cut off behind a command of it. *)
Lemma load_untidy n d got : n < 2 ^ 62 -> AofCrash.good fn rdb n d got -> tidy d = false -> exists d' am older new before es items,
  loadDataFromDisk true d = inr (d', Some (am, got)) /\ got = before ++ effect es /\ disk_ok d' /\ shape n am /\ dirty am = false /\ settled fn rdb n am d' older new before /\
  file_at d' new = Some (Log (wires es ++ wire MULTI ++ items_wire items)) /\ Forall entry_wf es /\ Forall item_wf items.
Proof using St.
intros Hn [Hd [(Em & -> & Hf)|(am0 & older & new & before & es & p & Hs & Hp & ->)]] Ht; unfold tidy, loadDataFromDisk in *.
{ unfold aofLoadManifestFromDisk in Ht. by rewrite Em in Ht. }
destruct (settled_manifest fn rdb n am0 d older new before Hn Hs) as (am & Em & Hsh & Hdirty & Hs'). rewrite Em in *. pose proof Hp as (_ & Hwf & _).
destruct (load_all fn rdb n am d older new before es p Hs' Hp) as (i & b & Hi & Hb & [(-> & -> & Hl)|[Hl1 _]]); [by rewrite Hl in Ht; cbn [mbind result_bind mret result_ret] in Ht; rewrite Hl in Ht|].
rewrite Hl1 in *. cbn [mbind result_bind mret result_ret] in *. pose proof (settled_put fn rdb n am d older new before i (Log b) Hsh Hn Hd Hs' Hi) as Hset.
pose proof (file_put_same i (Log b) d new Hi) as Hfile. destruct Hb as [-> | (items & Hitems & ->)].
- rewrite (load_to_last fn rdb n am _ older new before _ true Hset Hfile) in Ht. cbn [load_files] in Ht. rewrite (load_single_whole true new (effect es)) in Ht; [done|].
  unfold content_of. rewrite Hfile. cbn [mbind option_bind whole]. by rewrite (load_whole truncating).
- eexists _, am, older, new, before, es, items. split; [done|]. split; [done|]. split; [by apply disk_ok_put|]. done.
Qed.

(** The last file is open. *)
Definition stands (n : Z) older new before i c l s : Prop :=
  shape n (aof_manifest s) /\ disk_ok (store s) /\ settled fn rdb n (aof_manifest s) (store s) older new before /\ names (store s) !! file_name new = Some i /\
  inodes (store s) !! i = Some (Log c) /\ log s = l.

Lemma stands_delete n older new before i c l s o : n < 2 ^ 62 -> stands n older new before i c l s ->
  exists s', aofDelHistoryFiles o s = inr s' /\ stands n older new before i c l s' /\ aof_state s' = aof_state s /\ db s' = db s.
Proof.
intros Hn Hst. apply (keeps_delete fn rdb (stands n older new before i c l) n); [apply Hst| | | |done].
- intros s1 h Hs Hi (_ & Hd & Hset & Hname & Hc & Hl). split; [done|]. split; [by apply disk_ok_unlink|]. pose proof Hset as (E & _). assert (forall ai, In ai (live (aof_manifest s1)) -> file_name ai <> file_name h) as Hfree
    by (intros ai Ha; by apply (history_free fn rdb n (aof_manifest s1))). split.
  { apply (settled_same fn rdb n _ (store s1)); [done|done|]. intros ai Ha. apply same_unlink, Hfree. by eapply live_older. }
  split; [|done]. cbn [bg_unlink set_store store unlink names]. rewrite lookup_delete_ne; [done|]. intros Eh. apply (Hfree new); [by eapply live_new|done].
- intros s1 b (Hs & Hrest). split; [by apply (shape_forget fn rdb n)|done].
- intros s1 b (Hs & Hd & Hset & Hrest). split; [done|]. split; [done|]. split; [exact (settled_rewritten fn rdb n s1 b older new before Hs Hset)|done].
Qed.

(** What is appended to an open transaction is not read. *)
Lemma open_lost n am d older new before es items more : n < 2 ^ 62 -> settled fn rdb n am d older new before -> Forall entry_wf es -> Forall item_wf items -> Forall item_wf more ->
  file_at d new = Some (Log ((wires es ++ wire MULTI ++ items_wire items) ++ items_wire more)) -> recover d = Some (before ++ effect es).
Proof using St.
intros Hn Hs Hwf Hi Hm Hf. rewrite <- !app_assoc, <- items_wire_app in Hf. unfold recover, loadDataFromDisk. destruct (settled_manifest fn rdb n am d older new before Hn Hs) as (am' & -> & _ & _ & Hs').
rewrite (load_to_last fn rdb n am' d older new before _ true Hs' Hf). cbn [load_files]. unfold loadSingleAppendOnlyFile. unfold file_at in Hf. destruct (names d !! file_name new) as [i|]; [|done].
cbn [mbind option_bind] in Hf. rewrite Hf. cbn [the mbind result_bind]. rewrite (load_open truncating) by (done || by apply Forall_app). done.
Qed.

Lemma untidy_start n d got gc now o1 o2 : n < 2 ^ 62 -> AofCrash.good fn rdb n d got -> tidy d = false -> exists older new before es items i l s,
  start fn rdb gc now true true true o1 o2 d = inr (inr (true, s)) /\ stands n older new before i (wires es ++ wire MULTI ++ items_wire items) l s /\ got = before ++ effect es /\
  aof_state s = AOF_ON /\ db s = got /\ aof_fd l = Some (mk_descriptor i None) /\ aof_buf l = [] /\ aof_selected_db l = -1 /\ Forall entry_wf es /\ Forall item_wf items.
Proof using St.
intros Hn Hg Ht. destruct (load_untidy n d got Hn Hg Ht) as (d' & am & older & new & before & es & items & E & -> & Hd & Hsh & Hdirty & Hset & Hfile & Hwf & Hitems).
unfold start. rewrite E. cbn [mbind result_bind]. set (s0 := set_store d' _). unfold aofOpenIfNeededOnServerStart. change (aof_manifest s0) with am. pose proof Hset as (Ei & Hb & _).
rewrite bool_decide_false by done. cbn [andb mbind result_bind mret result_ret negb]. unfold getLastIncrAofName. change (aof_manifest s0) with am. rewrite Ei, last_snoc.
unfold file_at in Hfile. destruct (names d' !! file_name new) as [i|] eqn:En; [|done]. cbn [mbind option_bind] in Hfile. unfold open_append. change (store s0) with d'. rewrite En.
unfold persistAofManifest. rewrite Hdirty. cbn [negb]. set (s1 := set_log _ (set_store d' s0)). change (store s1) with d'.
assert (log_at d' i = Some (wires es ++ wire MULTI ++ items_wire items)) as -> by (unfold log_at; by rewrite Hfile). cbn [the mbind result_bind mret result_ret negb].
match goal with |- context [aofDelHistoryFiles o2 ?x] => destruct (stands_delete n older new before i (wires es ++ wire MULTI ++ items_wire items) (log x) x o2 Hn) as (s2 & -> & Hst & Est & Edb) end; [done|].
cbn [mbind result_bind]. eexists older, new, before, es, items, i, _, s2. split; [done|]. split; [exact Hst|]. split; [done|]. split; [by rewrite Est|]. by rewrite Edb.
Qed.

Lemma untidy_loses n older new before es items i l s now arbitrary ops w : n < 2 ^ 62 -> stands n older new before i (wires es ++ wire MULTI ++ items_wire items) l s ->
  aof_state s = AOF_ON -> aof_fd l = Some (mk_descriptor i None) -> aof_buf l = [] -> aof_selected_db l = -1 -> Forall entry_wf es -> Forall item_wf items ->
  ops <> [] -> Forall op_ok ops -> transaction arbitrary ops = false -> replies w = [] -> fsyncs w = true -> exists s2 s3,
  execute now arbitrary ops s = inr s2 /\ flushAppendOnlyFile true w s2 = inr (true, s3) /\ aof_buf (log s3) = [] /\ db s3 = db s ++ ((fun o => [o]) <$> ops) /\ recover (store s3) = Some (before ++ effect es).
Proof using St.
intros Hn (Hsh & Hd & Hset & Hname & Hc & El) Est Efd Eb Esel Hwf Hitems Hne Ho Htr Hr Hf. rewrite (execute_ok fn) by (done || congruence). rewrite El, Esel. unfold entries_of, executed. rewrite Htr, plain_wires.
assert (appending s = true) as -> by (unfold appending; by rewrite Est). set (more := all_items (-1) ops). set (s2 := set_log _ _). assert (Forall item_wf more) as Hmore by by apply (all_items_wf fn).
assert (aof_buf (log s2) = items_wire more) as Eb2 by (cbn [s2 set_log log appended with_selected with_buf aof_buf]; by rewrite Eb).
destruct (flush_complete w s2 (mk_descriptor i None) (wires es ++ wire MULTI ++ items_wire items)) as (s3 & E3 & Hs3 & _ & Eb3 & Est3); [done|unfold log_at; cbn [inode]; change (store s2) with (store s); by rewrite Hc| |done|done|].
{ rewrite Eb2. unfold more. destruct ops as [|o ops']; [done|]. cbn [all_items]. unfold items_of, items_wire. destruct (o.1 =? -1); cbn [app map concat]; by rewrite wire_eq. }
exists s2, s3. split; [done|]. split; [done|]. split; [done|]. split; [by rewrite (same_db _ _ Hs3)|]. rewrite Est3, Eb2. cbn [offset inode].
apply (open_lost n (aof_manifest s) _ older new before es items more); [done| |done|done|done|by apply file_put_same]. by apply (settled_put fn rdb n).
Qed.
End Loss.

(** C27: the file of the manifest is replaced before the directory is synchronized.  When only that
    last step fails at the end of a rewrite, the handler takes the manifest for unwritten and
    deletes the new base file that the manifest on the disk names: whatever came before, the
    next start finds no dataset. *)
Theorem unsynced_manifest_loses_base {cf : Config} (fn : bytes) (rdb : bool) {St : Setting fn} (n : Z) (s : server) (o : outcomes) :
  n + 2 < 2 ^ 62 -> reachable fn rdb n true s -> child s <> None -> exited o = true -> base_renamed o = true -> incr_renamed o = true -> first_persist o = NotSynced ->
  exists s', step fn rdb (RewriteDone o) s = inr (true, s') /\ recover (store s') = None.
Proof.
intros Hn Hr Hch E1 E2 E3 E4. destruct (reachable_good fn rdb n true s Hr) as [_ Hi]. destruct (Hi ltac:(lia)) as [_ Hinv].
destruct (done_unsynced fn rdb n s o Hn (Hinv eq_refl) Hch E1 E2 E3 E4) as (s' & E & Hl). exists s'. cbn [step]. rewrite E. split; [done|]. by apply (baseless_recover fn rdb (n + 2)).
Qed.

(** C29: a short write that [ftruncate] takes back leaves the descriptor of a file that was opened
    without [O_APPEND], as each incremental file after a rewrite is, behind the end of the file.
    The flush that writes the buffer again leaves a hole before it: whatever came before and is
    executed now, after a flush that succeeds the log cannot be loaded. *)
Theorem undone_write_loses_log {cf : Config} (fn : bytes) (rdb : bool) {St : Setting fn} (n : Z) (s : server) (i off : nat) now arbitrary ops w1 w2 k s1 :
  n < 2 ^ 62 -> reachable fn rdb n true s -> aof_state s = AOF_ON -> aof_buf (log s) = [] -> aof_fd (log s) = Some (mk_descriptor i (Some off)) ->
  ops <> [] -> Forall op_ok ops -> step fn rdb (Command now arbitrary ops) s = inr (true, s1) -> (0 < k < length (aof_buf (log s1)))%nat ->
  replies w1 = [Wrote k; WriteError] -> ftruncates w1 = true -> always w1 = false -> replies w2 = [] -> fsyncs w2 = true ->
  exists s2 s3, step fn rdb (Flush true w1) s1 = inr (true, s2) /\ step fn rdb (Flush true w2) s2 = inr (true, s3) /\
    aof_state s3 = AOF_ON /\ aof_buf (log s3) = [] /\ db s3 = db s1 /\ recover (store s3) = None.
Proof.
intros Hn Hr Est Eb Efd Hne Ho E. destruct (reachable_good fn rdb n true s Hr) as [_ Hi]. destruct (Hi Hn) as [_ Hinv]. specialize (Hinv eq_refl). unfold AofCrash.inv in Hinv. rewrite Est in Hinv.
cbn [step] in *. destruct (execute now arbitrary ops s) as [f|s'] eqn:Ex; [done|]. injection E as <-. by apply (undone_hole fn rdb n s i off now arbitrary ops).
Qed.

(** C28: a log that ends within a transaction is cut off behind the last complete command of the
    transaction and not before its MULTI.  A process that starts on such a directory appends to
    an open transaction: the commands it executes one by one, and has flushed, are lost at the
    next start. *)
Theorem open_transaction_loses_commands {cf : Config} (fn : bytes) (rdb : bool) {St : Setting fn} (n : Z) (running : bool) (s : server) d p :
  n < 2 ^ 62 -> reachable fn rdb n running s -> leaves running s d p -> tidy d = false -> exists got, recover d = Some got /\
  forall gc now o1 o2 arbitrary ops w, ops <> [] -> Forall op_ok ops -> transaction arbitrary ops = false -> replies w = [] -> fsyncs w = true -> exists s1 s2 s3,
    start fn rdb gc now true true true o1 o2 d = inr (inr (true, s1)) /\ db s1 = got /\ step fn rdb (Command now arbitrary ops) s1 = inr (true, s2) /\
    step fn rdb (Flush true w) s2 = inr (true, s3) /\ aof_buf (log s3) = [] /\ db s3 = got ++ ((fun o => [o]) <$> ops) /\ recover (store s3) = Some got.
Proof.
intros Hn Hr Hl Ht. destruct (reachable_good fn rdb n running s Hr) as [_ Hi]. destruct (Hi Hn) as [Htr Hinv]. destruct (leaves_acceptable fn rdb n running s d p Htr Hinv Hl) as (got & Hg & _).
exists got. split; [by apply (good_recover fn rdb n)|]. intros gc now o1 o2 arbitrary ops w Hne Ho Harb Hw Hf.
destruct (untidy_start fn rdb n d got gc now o1 o2 Hn Hg Ht) as (older & new & before & es & items & i & l & s1 & E1 & Hst & Egot & Est & Edb & Efd & Eb & Esel & Hwf & Hitems).
destruct (untidy_loses fn rdb n older new before es items i l s1 now arbitrary ops w) as (s2 & s3 & E2 & E3 & Eb3 & Edb3 & Er3); try done. exists s1, s2, s3. rewrite Egot.
cbn [step]. rewrite E2. cbn [mbind result_bind]. rewrite E3, Edb3, Edb, Egot. done.
Qed.

(** ** Examples *)

Definition forked_life : result server := life [Command 1 false [set_ 0 "a" "1"]; Flush false complete; Rewrite false complete true Persisted true].
Definition cut_life : result server := life [Command 1 false [set_ 0 "a" "1"]; Flush false complete; Command 1 false [set_ 0 "b" "2"; set_ 0 "c" "3"]; Flush false (partial 50 false)].
Definition unsynced : outcomes := mk_outcomes true true true NotSynced Persisted.

Lemma unsynced_manifest_loses_base_witness : match forked_life with inr s => exists s', step name true (RewriteDone unsynced) s = inr (true, s') /\ recover (store s') = None | inl _ => False end.
Proof.
assert ((r ← forked_life; mret (child r)) = inr (Some [[set_ 0 "a" "1"]])) as Ep by (vm_compute; reflexivity). destruct forked_life as [f|s] eqn:E; [discriminate Ep|]. injection Ep as Ep.
apply (unsynced_manifest_loses_base name true 8 s unsynced); [lia|exact (life_reachable _ s E)|by rewrite Ep|reflexivity..].
Defined.

Definition short (k : nat) : io := mk_io AOF_FSYNC_NO 10 false [Wrote k; WriteError] true true false.
Lemma undone_write_loses_log_witness : match (s ← forked_life; step name true (Command 1 false [set_ 0 "b" "2"]) s) with
  | inr (_, s1) => exists s2 s3, step name true (Flush true (short 7)) s1 = inr (true, s2) /\ step name true (Flush true complete) s2 = inr (true, s3) /\
      aof_state s3 = AOF_ON /\ aof_buf (log s3) = [] /\ db s3 = db s1 /\ recover (store s3) = None
  | inl _ => False
  end.
Proof.
assert ((r ← forked_life; '(running, t) ← step name true (Command 1 false [set_ 0 "b" "2"]) r; mret (aof_state r, aof_buf (log r), aof_fd (log r), running, length (aof_buf (log t)))) =
  inr (AOF_ON, [], Some (mk_descriptor 2 (Some 0%nat)), true, 50%nat)) as Ep by (vm_compute; reflexivity).
destruct forked_life as [f|s] eqn:E; [discriminate Ep|]. cbn [mbind result_bind] in *. destruct (step name true (Command 1 false [set_ 0 "b" "2"]) s) as [f|[running s1]] eqn:E1; [discriminate Ep|].
injection Ep as Est Eb Efd -> Elen. apply (undone_write_loses_log name true 8 s 2 0 1 false [set_ 0 "b" "2"] (short 7) complete 7 s1);
  [lia|exact (life_reachable _ s E)|exact Est|exact Eb|exact Efd|discriminate|repeat constructor; by_decide|exact E1|rewrite Elen; lia|reflexivity..].
Defined.

Lemma open_transaction_loses_commands_witness : match cut_life with
  | inr s => exists got, recover (store s) = Some got /\ exists s1 s2 s3, start name true false 1 true true true Persisted Persisted (store s) = inr (inr (true, s1)) /\ db s1 = got /\
      step name true (Command 1 false [set_ 0 "d" "4"]) s1 = inr (true, s2) /\ step name true (Flush true complete) s2 = inr (true, s3) /\ aof_buf (log s3) = [] /\
      db s3 = got ++ [[set_ 0 "d" "4"]] /\ recover (store s3) = Some got
  | inl _ => False
  end.
Proof.
assert ((r ← cut_life; mret (tidy (store r))) = inr false) as Ep by (vm_compute; reflexivity). destruct cut_life as [f|s] eqn:E; [discriminate Ep|]. injection Ep as Ep.
destruct (open_transaction_loses_commands name true 10 true s (store s) (promise s)) as (got & Hgot & Hall);
  [lia|exact (life_reachable _ s E)|right; split; [reflexivity|split; reflexivity]|exact Ep|].
exists got. split; [exact Hgot|]. apply (Hall false 1 Persisted Persisted false [set_ 0 "d" "4"] complete); [discriminate|repeat constructor; by_decide|reflexivity..].
Defined.

(** A rewrite with the log off leaves no incremental file in the manifest, only history files.
    When the process crashes before it has deleted them, the next one numbers its incremental
    files from the start, so that the new file has the name of a history file and is deleted as
    one: the commands it holds are lost and the files cannot be read. *)
Theorem rewrite_while_off_loses_log :
  match (s ← life [Command 1 false [set_ 0 "a" "1"]; Stop complete]; '(_, _, s) ← rewriteAppendOnlyFileBackground name false complete true Persisted true s;
         s ← backgroundRewriteDoneHandler name true done_well s; '(d, _) ← the (trace s !! 6%nat); s ← boot d; for_each live_step s [Command 1 false [set_ 0 "b" "2"]; Flush true complete]) with
  | inr s => db s = [[set_ 0 "a" "1"]; [set_ 0 "b" "2"]] /\ aof_buf (log s) = [] /\ recover (store s) = None
  | inl _ => False
  end.
Proof. vm_compute. done. Qed.

(** A rewrite does not look at what its flush has left in the buffer: the child has it, and it is
    written to the new incremental file as well. *)
Theorem unflushed_rewrite_repeats :
  match (s ← life [Command 1 false [set_ 0 "a" "1"]; Flush false complete; Command 1 false [set_ 0 "b" "2"]];
         '(_, _, s) ← rewriteAppendOnlyFileBackground name false (short 5) true Persisted true s; for_each live_step s [Flush true complete; RewriteDone done_well]) with
  | inr s => db s = [[set_ 0 "a" "1"]; [set_ 0 "b" "2"]] /\ recover (store s) = Some [[set_ 0 "a" "1"]; [set_ 0 "b" "2"]; [set_ 0 "b" "2"]]
  | inl _ => False
  end.
Proof. vm_compute. done. Qed.

(** The manifest quotes a name for its reader, but [sdsneedsrepr] does not ask for quotes
    around a single quote: a manifest written for a file name with one is not read again. *)
Theorem quote_in_name_unreadable :
  let am := (getNewIncrAofName (text "it's.aof") aofManifestCreate).2 in aofLoadManifestFromFile (getAofManifestAsString am) = inr (inl InvalidFormat).
Proof. vm_compute. done. Qed.
